(* ===== verification/_CoqProject ===== *)
-Q . S2P
Prelude.v
Core.v
Varint.v
External.v
Segment.v
SegmentFacts.v
Wal.v
WalFacts.v
HashMap.v
Utf8.v
KafkaTypes.v
KafkaCodec.v
KafkaCodecFacts.v
Coordinator.v
CoordinatorFacts.v
Transaction.v
Lru.v
Dedup.v
MetadataError.v
StorageError.v
WalHandle.v
Catalog.v
CatalogFacts.v
PartitionWriter.v
PartitionWriterFacts.v
PartitionLogFacts.v
PartitionRecoveryFacts.v
PartitionExamples.v
TopicWriter.v
SchemaTypes.v
SchemaCompat.v
SchemaMemory.v
SchemaPostgres.v
SchemaRegistry.v
SchemaRegistryFacts.v
SchemaRegistryProps.v
SchemaExamples.v
Lease.v
LeaseFacts.v
LeaseTransferFacts.v
Assigner.v
Rebalancer.v
WriterPool.v
ProducerStore.v
ProduceService.v
AgentRouter.v
ProduceFacts.v
ProducerFacts.v
ProduceExamples.v
KafkaBatch.v
KafkaProduce.v
KafkaTxn.v
KafkaProduceFacts.v
SegmentIndex.v
SegmentCache.v
PartitionReader.v
ReaderExamples.v
KafkaFetch.v
KafkaExamples.v
CircuitBreaker.v
Reconciler.v
KeyCompaction.v
KeyCompactionFacts.v
KeyCompactionExamples.v
ReconcilerExamples.v
Float.v
ClientTransport.v
ClientBatch.v
ClientProducer.v
ClientConsumer.v
ClientExamples.v
ClientConsumerExamples.v
Watermark.v
Operators.v
StreamExamples.v
Acl.v
Tenancy.v
Quota.v
