(* ===== verification/Prelude.v ===== *)
(** * StreamHouse: a verified model of the core of the streaming platform

    StreamHouse stores the records of Kafka-like topics in immutable segment files on an
    object store, behind a write-ahead log, speaks the Kafka protocol, and coordinates
    consumer groups, idempotent producers, transactions and the schemas of messages.  This development translates
    its core logic (the crates under src/crates) into Rocq functions and proves
    what makes each part correct.

    ** How the parts interact

    A producer's batch arrives as a Kafka frame ([KafkaCodec]) or a call of the agent's service
    ([ProduceService]), its sequence numbers are checked ([ProducerStore], [Dedup]) and it may
    belong to a transaction ([ProducerStore], [Transaction]); [produce_exactly_once] is about
    this path, from requests in any order to the log of the partition.  The pool of writers
    ([WriterPool]) has a writer for each partition.  The topic's writer
    ([TopicWriter]) hands its records to a partition's writer ([PartitionWriter]), which
    appends them to the write-ahead log ([WalHandle] over [Wal]) and to a segment under
    construction ([Segment.Writer]); a full segment goes to the object store behind a circuit
    breaker ([CircuitBreaker]) and is registered in the metadata store ([Catalog]).  A consumer, member of a group ([Coordinator]), asks for an
    offset: the partition reader ([PartitionReader]) has the segment index ([SegmentIndex])
    find the segment, gets its object through the cache ([SegmentCache]) and has the segment
    reader ([Segment.Reader]) decode the records; [acknowledged_is_read] is about this whole
    path, from the writer's acknowledgement to the consumer's answer.  Kafka clients reach the
    same service through the produce handler ([KafkaProduce]) and the router
    ([AgentRouter], [kafka_produce_is_produce]), the same reader through the fetch handler
    ([KafkaFetch], [consumer_reads_log]) and the same transactions through their handlers ([KafkaTxn]).  In the background the server
    compacts the segments of keyed topics ([KeyCompaction]) and reconciles objects and catalog
    ([Reconciler]).  The agents that serve the partitions share them out
    ([Assigner]) and take a lease of each ([Lease]) in the metadata store.  Beside them, the
    schema registry ([SchemaRegistry]) gives ids to the schemas of messages, over a storage
    in memory or on PostgreSQL behind one interface ([SchemaTypes]).  Applications use the client library: a
    producer ([ClientProducer]) that sends batches ([ClientBatch]) to the agents and tells the application
    where its records went ([sends_told]), and a consumer ([ClientConsumer]) that reads the partitions itself with
    the partition reader ([consumer_delivers]) and keeps its positions in the metadata store
    ([commit_then_restart]).  A request to the API server is authenticated and belongs to an organization
    ([Tenancy]), whose quotas bound what it may do ([Quota]); access control lists ([Acl]) are a further layer.
    Queries over streams keep their state in windows and joins ([Operators]) that watermarks close ([Watermark]).

    ** Files, and the sources they model

    - Prelude: bytes, machine integers, fixed-width fields, outcomes, step relations, and the
      automation shared by all files (nothing of the program).
    - Core: streamhouse-core/src/error.rs, record.rs, segment.rs: errors, records, segment
      metadata, compression tags.
    - Varint: streamhouse-core/src/varint.rs.
    - External: the third-party code the segment store calls (CRC-32 and LZ4) as a class of
      functions with the laws that the code relies on, and a concrete instance for the
      witnesses.
    - Segment, SegmentFacts: streamhouse-storage/src/segment/writer.rs and reader.rs.  [Writer]
      has the fields of SegmentWriter and one function per method; [append] is split at its
      comments into [start_segment], [start_block], [push_record].  [Reader] likewise.
      Theorems: what is written is read back, whole and from any offset; corruption is
      reported; decoding any bytes terminates.
    - Wal, WalFacts: streamhouse-storage/src/wal.rs.  [Format] is the record format and the
      recovery loop, [Files] the choice of the files to recover, [Task] the group-commit task:
      one round is the commands it drains from its channel, with the result of each I/O call
      as an argument.
    - HashMap: the iteration order of std::collections::HashMap, which is unspecified, as a
      class; operations that iterate are proved for every order.
    - Utf8: String::from_utf8 of the standard library.
    - KafkaTypes: streamhouse-kafka/src/types.rs, error.rs: tables of the protocol.
    - KafkaCodec, KafkaCodecFacts: streamhouse-kafka/src/codec.rs.  A parser is a function from a
      buffer to a value and the unread suffix.  A [format] packages an encoder and a parser
      with their round-trip law; arrays are a combinator on formats.
    - Coordinator, CoordinatorFacts: streamhouse-kafka/src/coordinator.rs.  A group is held under
      its lock for a whole operation, so an operation is one step ([join_group_locked],
      [sync_group_locked], [heartbeat_locked], [leave_group_locked]); [op_step] is any request
      on the coordinator, [astep] the abstract rebalance protocol it refines, in which each request has
      its guard and its answer ([coordinator_refines]).
    - Transaction: streamhouse-metadata/src/transaction.rs.  [exec] is one
      operation, [run] a sequence with the event of each; [allowed] is the life cycle of one
      transaction.
    - Lru: the contract of the third-party LRU map as a class; a list implements it.
    - Dedup: streamhouse-metadata/src/dedup.rs, over [Lru].
    - MetadataError, StorageError: the error types of streamhouse-metadata and
      streamhouse-storage.
    - WalHandle: the public calls of streamhouse-storage/src/wal.rs over the
      task of [Wal]: a call sends a command and waits while the task makes rounds, given as a
      schedule ([drain]); an idle log ([idle]) is what the writer starts from.
    - Catalog, CatalogFacts: topics, partitions, segments and offsets of
      streamhouse-metadata/src/store.rs, one function per method over tables of rows.
      Theorems: the tables stay well formed under every call ([catalog_integrity]), look-up
      after insertion, and that a commit changes exactly one offset.
    - PartitionWriter, TopicWriter: streamhouse-storage/src/writer.rs, [PartitionWriter.new] being
      the recovery after a crash.  The object store, the throttle, the database, the files
      and the clock answer as their arguments say.  PartitionWriterFacts has the invariant of
      a writer, PartitionLogFacts what a sequence of appends and flushes stores (the
      concatenation of what was appended, at consecutive offsets), PartitionRecoveryFacts
      that acknowledged records survive: a node's process ends, or its machine crashes and the log file keeps what
      was synced and anything of what was written since ([crash_recovery]), and when they do not; TopicWriter also
      partition choice and the durable flushes that answer many callers with one round.
      PartitionExamples holds their witnesses.
    - SchemaTypes: the types of streamhouse-schema-registry, its storage trait as the class
      [SchemaStorage], and what its clients rely on as the class [SchemaStorageLaws].
    - SchemaCompat: compatibility.rs.  [valid] is the meaning of a JSON schema: types, required and other properties,
      "additionalProperties", and any further keyword as a parameter.  Theorems: the JSON check is sound for
      it where the new schema restricts data in none of the ways that the check does not look at ([json_check_sound]),
      what it lets pass otherwise ([json_check_gaps]), and the Avro check exchanges the modes.
    - SchemaMemory, SchemaPostgres: storage.rs and storage_postgres.rs,
      two instances of the two classes.
    - SchemaRegistry: registry.rs, api.rs and serde.rs over any storage; an [event] is a request,
      the expiry of cache entries or a failure of the storage.  SchemaRegistryFacts proves
      against the interface that an id names one schema for ever ([stable_ids]);
      SchemaRegistryProps what depends on the storage; SchemaExamples holds stand-ins for the
      parsers and the witnesses.
    - Lease, LeaseFacts, LeaseTransferFacts: the lease tables of streamhouse-metadata/src/store.rs
      (and the transfer of postgres.rs) and streamhouse-agent/src/lease_manager.rs.  [Store] has
      one function per method, each SQL statement being what it does to the rows; [Manager]
      one per call of an agent, with its cache; [Cluster] interleaves the calls of several
      agents between statements, and what others do to the transfers.  Theorems: under which discipline two agents never lead the
      same partition and epochs tell leaders apart (no transfer is completed), that the calls are runs of the cluster
      and what they answer,
      the life cycle of transfers and the record of leader changes, and what the code does not rule out.
    - Assigner: streamhouse-agent/src/assigner.rs.  The assignment is a function of the
      listings; a rebalance is one function over the agent's state and the leases.
    - Rebalancer: streamhouse-agent/src/rebalancer.rs.  Plans and their
      execution; for as long as the nodes stay, rounds of both reach the assignment of the
      strategy, and the strategy by load is the one in turns.
    - WriterPool: streamhouse-storage/src/writer_pool.rs, a table of [PartitionWriter]s.
    - ProducerStore: producers, sequences, transactions, markers and stable offsets of
      streamhouse-metadata/src/store.rs.
    - ProduceService: the gRPC service of streamhouse-agent/src/grpc_service.rs; a request is
      admitted ([admission]) and then [deliver]ed, which [produce] composes.  ProduceFacts interleaves the
      two halves of many requests with flushes and other calls of the tables ([step]) and
      follows sequences, writer and log through every run; ProducerFacts is about epochs and
      the calls on transactions in any order.  ProduceExamples holds the witnesses.
    - AgentRouter: streamhouse-client/src/agent_router.rs, over the interface [Agents]; the agent of
      [ProduceService], listening at one address behind a network that loses requests and answers, is an instance.
    - KafkaBatch: the record batches of streamhouse-kafka/src/handlers/produce.rs (parsing) and
      fetch.rs (building).  It also has the format of the protocol as a client writes and
      reads it ([enc_batch], [dec_batch]): what a client sends is parsed to its records, what the
      server builds is read by a client, and which malformed batches panic.
    - KafkaProduce: the produce handler (produce.rs), over [AgentRouter].  KafkaTxn: the handlers
      init_producer_id.rs, add_partitions_to_txn.rs, add_offsets_to_txn.rs, end_txn.rs and
      txn_offset_commit.rs, over [ProducerStore] and [Catalog].  KafkaProduceFacts relates both to
      the service of the agent: the router writes at most once, a Kafka batch is a call of
      [ProduceService.produce], and what idempotence and transactions come to for Kafka clients.
    - KafkaFetch: the fetch handler (fetch.rs), over [PartitionReader]; a client that fetches
      on reads the whole log.  KafkaExamples holds the witnesses of the handlers.
    - Reconciler: streamhouse-storage/src/reconciler.rs: the pass that deletes orphaned objects and the
      recovery of the catalog from the objects; which objects a pass can delete,
      with other calls between its steps, and that a recovered catalog reads the same log.
    - KeyCompaction: streamhouse-server/src/compaction.rs.  KeyCompactionFacts: the object that a run
      uploads against a reference compaction of the log ([compact_log]) and the table of values it stands for,
      and what a run leaves of the partition.  KeyCompactionExamples and ReconcilerExamples hold
      the witnesses.
    - ClientTransport: streamhouse-client/src/error.rs, retry.rs, connection_pool.rs.  The back-off computes
      in [f64] as the code does.  [retry_spec]: how often an operation is called, and with which pauses.
    - ClientBatch: batch.rs: the buffers of a producer, and that draining them neither loses nor
      repeats nor reorders records.
    - ClientProducer: producer.rs, over an interface of the servers ([Cluster]).  The two locks of
      [send] are two functions; the task in the background takes its batches ([take_ready]) and delivers
      them one by one ([deliver]).  The facts interleave the task with what the application does: sending, flushing,
      transactions and closing ([step]); they follow each record to the requests that carry it and the answer that its
      receiver is told, and show where receivers are told nothing, or something wrong.
    - ClientConsumer: consumer.rs, over [PartitionReader] and [Catalog].  What the polls of a
      consumer give, where its group goes on, and the configurations in which records are lost or
      withheld.  ClientExamples and ClientConsumerExamples hold the witnesses.
    - Float: the type f64 by the IEEE operations of the Standard Library, with bounds on the relative error of
      conversions, products and quotients ([f64_of_spec], [f64_mul_spec], [f64_div_spec]).
    - Watermark: streamhouse-sql/src/watermark.rs.  What events of any partitions make of the watermarks ([watermark_spec]);
      with passes over idle partitions, in two halves, as steps in between, that these advance nothing, which
      the documentation says they do ([passes_advance_nothing]).
    - Operators: operators.rs, over an interface of the JSON library; chains are lists of operators.
      Which windows a time belongs to, that aggregates count every record once ([windows_exact]), that joins
      find all pairs ([join_complete]), and what the flush of an outer join gives ([flush_gives_buffers], not what the
      comments say); StreamExamples holds the witnesses
      and runs in which records repeat windows or are forgotten.
    - Acl: streamhouse-api/src/acl.rs: the patterns, the checker and its cache (that it cannot be seen as long as operations do not
      overlap; and when they do, that it allows nothing that the entries do not, and which denials can be stale: [acl_no_stale_allow]),
      and the layer over the routes.
    - Tenancy: organizations, API keys, quotas and usage of streamhouse-metadata/src/store.rs, key generation (tenant.rs),
      and of streamhouse-api the layer that authenticates requests (auth.rs) and the handlers of keys and organizations.
      The tables stay consistent ([accounts_integrity]); a key that passes was made, is not revoked and not expired, and
      acts for its own organization ([key_life]); how many keys there can be ([key_space]).
    - Quota: streamhouse-metadata/src/quota.rs.  A token bucket gives at most what the rate allows, in spite of floating
      point ([bucket_bound]), and gives it ([bucket_serves]); [task_step] interleaves the atomic accesses of several tasks
      ([bucket_accounts]); the checks of organizations do not disturb each other ([quota_isolated]).
    - SegmentIndex: streamhouse-storage/src/segment_index.rs.
    - SegmentCache: streamhouse-storage/src/cache.rs, over [Lru]: the files, the
      accounts, and that these agree, and keep to the maximum, for the files that were not in the directory before.
    - PartitionReader: streamhouse-storage/src/reader.rs, over the index, the
      cache and the objects that [PartitionWriter] stored; what it reads of a store as the
      writer leaves it.  ReaderExamples holds the witnesses of the cache and the reader.
    - CircuitBreaker: streamhouse-storage/src/circuit_breaker.rs.  Its methods
      are programs of atomic actions: [run] executes one alone, [cstep] interleaves several.

    Definitions are in X.v, the lemmas and properties in XFacts.v (in X.v itself where they are few); a property's doc comment
    carries its number in the manifest.

    ** Conventions

    A [w]-bit integer is a [Z]; [wrap w] and [swrap w] are the truncating casts and the
    wrap-around of [+], [-], [<<] in a release build (the workspace does not enable overflow
    checks).  A [usize] has 64 bits.  A computation that can fail returns an [outcome]: [Ok],
    [Err] with the program's error, or [Panic] where Rust panics (an index out of range, a
    read past the end of a buffer, a capacity overflow).  A [&mut] argument is the function's
    additional result.  Clocks, random identifiers and the results of I/O calls are
    arguments.  An asynchronous operation that holds a lock to its end is one atomic step;
    one that uses bare atomics is a program of atomic actions, and
    one that sends several statements to the database is a sequence of steps.

    ** Fuel

    [encode_loop] takes ten iterations for a 64-bit value ([encode_loop_fuel]);
    [decode_block] and [read_wal_file] take the length of the buffer, of which every
    iteration consumes a byte ([decode_block_total], [wal_recovery]); the binary search takes
    the number of entries; [run_utf8_validation] the length of the text; [drain] one more
    than the length of the buffer ([drain_fuel]); the eviction of the cache one round for each
    entry and one that finds none; the loop of a read one round for each record asked for, of
    which every round but the last adds one.  Loops over a count read from the input are
    structural on the count.

    ** What is not modelled

    The network, the object store, the engines of the SQL databases and the HTTP layer; the
    contents of log messages and metrics; third-party code (compression, checksums, CRC-32C, the texts of gRPC statuses, LRU map,
    the parsers of Avro, Protobuf and JSON, SHA-256), which is a parameter.  The operating system is assumed to do what an I/O result says
    (a sync that succeeds keeps the data of the file; that its directory is never synced is left out).  An id or name that the code puts between the
    quotes of a statement is assumed to hold no quote, where [SqlText] does not stand for what happens otherwise.

    ** What is left

    Roles, leader election, fail-over, replication and point-in-time recovery of the API server, its handlers beside those
    in [Tenancy], the other Kafka handlers, admission control of the storage, the SQL parser and executors (which rest on
    third-party parsers and query engines), connectors and process wiring. *)

From Stdlib Require Export ZArith Lia.
From Stdlib Require Strings.Byte.
From Stdlib Require Export Sorting.Sorted.
From coqutil Require Export Byte Word.LittleEndianList.
From stdpp Require Export base gmap sets list strings.

#[global] Open Scope Z_scope.

Create HintDb streamhouse.
Create Rewrite HintDb len.

(** ** Bytes and strings *)

Abbreviation bytes := (list Init.Byte.byte).

#[export] Instance byte_eq_dec : EqDecision Init.Byte.byte := Stdlib.Strings.Byte.byte_eq_dec.

(** [str::contains]. *)
Definition str_contains (part s : string) : bool := match String.index 0 part s with Some _ => true | None => false end.

(** The length of a Rust slice, as the [usize] the code computes with. *)
Abbreviation len l := (Z.of_nat (length l)).

(** ** Outcomes: a Rust computation returns a value, returns an error or panics *)

Inductive outcome (E A : Type) : Type :=
| Ok (a : A)
| Err (e : E)
| Panic.
Arguments Ok {E A} a.
Arguments Err {E A} e.
Arguments Panic {E A}.

#[export] Instance outcome_ret E : MRet (outcome E) := fun A a => Ok a.
#[export] Instance outcome_bind E : MBind (outcome E) := fun A B f c =>
  match c with Ok a => f a | Err e => Err e | Panic => Panic end.
#[export] Instance outcome_fmap E : FMap (outcome E) := fun A B f c =>
  match c with Ok a => Ok (f a) | Err e => Err e | Panic => Panic end.

(** [opt.ok_or(e)?]. *)
Definition ok_or {E A} (e : E) (o : option A) : outcome E A :=
  match o with Some a => Ok a | None => Err e end.

(** An operation of the [bytes] crate or an index that panics when the data is missing. *)
Definition or_panic {E A} (o : option A) : outcome E A :=
  match o with Some a => Ok a | None => Panic end.

Section outcome_lemmas.
Context {E A B : Type}.

Lemma bind_Ok (f : A -> outcome E B) a : (Ok a ≫= f) = f a.
Proof. reflexivity. Qed.

Lemma bind_Ok_inv (f : A -> outcome E B) c b :
  c ≫= f = Ok b -> exists a, c = Ok a /\ f a = Ok b.
Proof. destruct c; simpl; intros H; [eauto|discriminate H|discriminate H]. Qed.
End outcome_lemmas.

(** ** Machine integers: a [w]-bit unsigned value is a [Z] in [[0, 2^w)], a signed one
    a [Z] in [[-2^(w-1), 2^(w-1))]; [wrap] and [swrap] are the truncating casts, which
    are also what [+], [-], [<<] compute in the release profile of the code. *)

Definition wrap (w x : Z) : Z := x mod 2 ^ w.
Definition swrap (w x : Z) : Z :=
  let y := x mod 2 ^ w in if y <? 2 ^ (w - 1) then y else y - 2 ^ w.

Definition in_u (w x : Z) : Prop := 0 <= x < 2 ^ w.
Definition in_i (w x : Z) : Prop := - 2 ^ (w - 1) <= x < 2 ^ (w - 1).

(** [u64::saturating_sub]. *)
Definition sat_sub (a b : Z) : Z := Z.max 0 (a - b).

Lemma wrap_in_u w x : 0 <= w -> in_u w (wrap w x).
Proof. intros. apply Z.mod_pos_bound. lia. Qed.

Lemma wrap_small w x : in_u w x -> wrap w x = x.
Proof. apply Z.mod_small. Qed.

Lemma wrap_add_swrap w x y : 0 < w -> wrap w (x + swrap w y) = wrap w (x + y).
Proof.
  intros Hw. unfold wrap, swrap. destruct (Z.ltb_spec (y mod 2 ^ w) (2 ^ (w - 1))).
  - by rewrite Z.add_mod_idemp_r by lia.
  - rewrite Z.add_sub_assoc, <- (Z.mod_add _ 1) by lia.
    replace (x + y mod 2 ^ w - 2 ^ w + 1 * 2 ^ w) with (x + y mod 2 ^ w) by lia.
    by rewrite Z.add_mod_idemp_r by lia.
Qed.

(** Delta coding with wrapping arithmetic loses nothing: [last + (x - last) as i64]. *)
Lemma wrap_delta w last x : 0 < w -> in_u w x -> wrap w (last + swrap w (x - last)) = x.
Proof.
  intros. rewrite wrap_add_swrap by lia.
  replace (last + (x - last)) with x by lia. by apply wrap_small.
Qed.

Lemma swrap_in_i w x : 0 < w -> in_i w (swrap w x).
Proof.
  intros Hw. unfold swrap, in_i. pose proof (Z.mod_pos_bound x (2 ^ w) ltac:(lia)).
  assert (2 ^ w = 2 * 2 ^ (w - 1)).
  { rewrite <- Z.pow_succ_r by lia. f_equal. lia. }
  destruct (Z.ltb_spec (x mod 2 ^ w) (2 ^ (w - 1))); lia.
Qed.

Lemma swrap_small w x : 0 < w -> in_i w x -> swrap w x = x.
Proof.
  intros Hw Hx. unfold swrap, in_i in *.
  assert (2 ^ w = 2 * 2 ^ (w - 1)).
  { rewrite <- Z.pow_succ_r by lia. f_equal. lia. }
  assert (0 < 2 ^ (w - 1)) by lia.
  destruct (decide (0 <= x)).
  - rewrite Z.mod_small by lia. destruct (Z.ltb_spec x (2 ^ (w - 1))); lia.
  - rewrite <- (Z.mod_add x 1), Z.mod_small by lia.
    destruct (Z.ltb_spec (x + 1 * 2 ^ w) (2 ^ (w - 1))); lia.
Qed.

(** ** Fixed-width fields of a byte buffer *)

(** [BufMut::put_uN]: big endian, [n] bytes. *)
Definition put_be (n : nat) (v : Z) : bytes := rev (le_split n v).

(** [Buf::get_uN]: [None] when fewer than [n] bytes remain, where the crate panics. *)
Definition get_be (n : nat) (buf : bytes) : option (Z * bytes) :=
  if decide (n <= length buf)%nat then Some (le_combine (rev (take n buf)), drop n buf)
  else None.

(** [uN::to_le_bytes] and [uN::from_le_bytes] on the front of a buffer. *)
Definition put_le (n : nat) (v : Z) : bytes := le_split n v.
Definition get_le (n : nat) (buf : bytes) : option (Z * bytes) :=
  if decide (n <= length buf)%nat then Some (le_combine (take n buf), drop n buf)
  else None.

(** [buf.split_to(n)] / [cursor.advance(n)]. *)
Definition split_to (n : nat) (buf : bytes) : option (bytes * bytes) :=
  if decide (n <= length buf)%nat then Some (take n buf, drop n buf) else None.

Definition byte_of (v : Z) : Init.Byte.byte := byte.of_Z v.
Definition zeros (n : nat) : bytes := repeat Init.Byte.x00 n.

Lemma length_put_be n v : length (put_be n v) = n.
Proof. unfold put_be. by rewrite length_rev, length_le_split. Qed.

Lemma length_put_le n v : length (put_le n v) = n.
Proof. apply length_le_split. Qed.

Lemma length_zeros n : length (zeros n) = n.
Proof. apply repeat_length. Qed.

Lemma get_be_put n v rest :
  in_u (8 * Z.of_nat n) v -> get_be n (put_be n v ++ rest) = Some (v, rest).
Proof.
  intros Hv. unfold get_be. rewrite decide_True by (rewrite length_app, length_put_be; lia).
  rewrite take_app_length', drop_app_length' by (by rewrite length_put_be).
  unfold put_be. rewrite rev_involutive, le_combine_split.
  replace (Z.of_nat n * 8) with (8 * Z.of_nat n) by lia. by rewrite Z.mod_small.
Qed.

Lemma get_le_put n v rest :
  in_u (8 * Z.of_nat n) v -> get_le n (put_le n v ++ rest) = Some (v, rest).
Proof.
  intros Hv. unfold get_le. rewrite decide_True by (rewrite length_app, length_put_le; lia).
  rewrite take_app_length', drop_app_length' by (by rewrite length_put_le).
  unfold put_le. rewrite le_combine_split.
  replace (Z.of_nat n * 8) with (8 * Z.of_nat n) by lia. by rewrite Z.mod_small.
Qed.

Lemma get_be_ok n buf :
  (n <= length buf)%nat -> get_be n buf = Some (le_combine (rev (take n buf)), drop n buf).
Proof. intros. unfold get_be. by rewrite decide_True by lia. Qed.

Lemma split_to_app n a rest : length a = n -> split_to n (a ++ rest) = Some (a, rest).
Proof.
  intros <-. unfold split_to. rewrite decide_True by (rewrite length_app; lia).
  by rewrite take_app_length, drop_app_length.
Qed.

Lemma get_be_bound n buf v rest :
  get_be n buf = Some (v, rest) -> in_u (8 * Z.of_nat n) v /\ buf = put_be n v ++ rest.
Proof.
  unfold get_be. case_decide; [|done]. intros [= <- <-]. split.
  - pose proof (le_combine_bound (rev (take n buf))) as Hb.
    rewrite length_rev, length_take_le in Hb by lia. exact Hb.
  - unfold put_be. rewrite (split_le_combine' _ n), rev_involutive; [by rewrite take_drop|].
    by rewrite length_rev, length_take_le.
Qed.

Lemma get_le_bound n buf v rest :
  get_le n buf = Some (v, rest) -> in_u (8 * Z.of_nat n) v /\ buf = put_le n v ++ rest.
Proof.
  unfold get_le. case_decide; [|done]. intros [= <- <-]. split.
  - pose proof (le_combine_bound (take n buf)) as Hb.
    rewrite length_take_le in Hb by lia. exact Hb.
  - unfold put_le. rewrite (split_le_combine' _ n); [by rewrite take_drop|].
    by rewrite length_take_le.
Qed.

(** ** Bit operations as arithmetic *)

Lemma lor_shiftl_add a b s :
  0 <= s -> 0 <= a < 2 ^ s -> Z.lor a (Z.shiftl b s) = a + b * 2 ^ s.
Proof.
  intros Hs Ha. rewrite <- Z.shiftl_mul_pow2 by lia.
  apply BitOps.or_to_plus.
  apply Z.bits_inj'. intros i Hi. rewrite Z.land_spec, Z.bits_0.
  destruct (decide (i < s)).
  - rewrite Z.shiftl_spec_low by lia. apply andb_false_r.
  - rewrite <- (Z.mod_small a (2 ^ s)) by lia.
    rewrite Z.mod_pow2_bits_high by lia. apply andb_false_l.
Qed.

Lemma lnot_eq x : Z.lnot x = - x - 1.
Proof. unfold Z.lnot. lia. Qed.

Lemma land_ones_mod a n : 0 <= n -> Z.land a (2 ^ n - 1) = a mod 2 ^ n.
Proof. intros. rewrite <- Z.land_ones by lia. f_equal. rewrite Z.ones_equiv. lia. Qed.

Lemma land_127 a : Z.land a 127 = a mod 128.
Proof. apply (land_ones_mod a 7). lia. Qed.

Lemma land_1 a : Z.land a 1 = a mod 2.
Proof. apply (land_ones_mod a 1). lia. Qed.

(** The test the code writes as [byte & 0x80 == 0]. *)
Lemma land_bit7 b : 0 <= b < 256 -> (Z.land b 128 =? 0) = (b <? 128).
Proof.
  intros Hb. change 128 with (2 ^ 7) at 1.
  replace (Z.land b (2 ^ 7)) with (if Z.testbit b 7 then 2 ^ 7 else 0).
  - rewrite (Z.testbit_eqb b 7) by lia.
    destruct (Z.ltb_spec b 128).
    + rewrite Z.div_small by lia. reflexivity.
    + replace (b / 2 ^ 7) with 1; [reflexivity|].
      apply (Z.div_unique b _ 1 (b - 128)); lia.
  - apply Z.bits_inj'. intros i Hi. rewrite Z.land_spec, Z.pow2_bits_eqb by lia.
    destruct (Z.eqb_spec 7 i) as [<-|].
    + destruct (Z.testbit b 7); [by rewrite Z.pow2_bits_true by lia|by rewrite Z.bits_0].
    + rewrite andb_false_r. destruct (Z.testbit b 7);
        [by rewrite Z.pow2_bits_false by lia|by rewrite Z.bits_0].
Qed.

Lemma unsigned_byte_of v : 0 <= v < 256 -> byte.unsigned (byte_of v) = v.
Proof. intros. unfold byte_of. rewrite byte.unsigned_of_Z. by apply Z.mod_small. Qed.

Lemma lor_in_u w a b : 0 <= w -> in_u w a -> in_u w b -> in_u w (Z.lor a b).
Proof.
  intros Hw Ha Hb. unfold in_u in *. rewrite <- (Z.mod_small a (2 ^ w)) by lia.
  rewrite <- (Z.mod_small b (2 ^ w)) by lia. rewrite <- !Z.land_ones by lia.
  rewrite <- Z.land_lor_distr_l, Z.land_ones by lia. apply Z.mod_pos_bound. lia.
Qed.

Lemma filter_none {A} (P : A -> Prop) `{forall x, Decision (P x)} (l : list A) :
  (forall x, x ∈ l -> ~ P x) -> filter P l = [].
Proof.
  induction l as [|x l IH]; intros Hl; [done|]. rewrite filter_cons_False by (apply Hl; left).
  apply IH. intros y Hy. apply Hl. by right.
Qed.

Lemma filter_ext_in {A} (P Q : A -> Prop) `{forall x, Decision (P x)} `{forall x, Decision (Q x)}
    (l : list A) :
  (forall x, x ∈ l -> P x <-> Q x) -> filter P l = filter Q l.
Proof.
  induction l as [|x l IH]; intros Hl; [done|]. rewrite !filter_cons.
  rewrite IH by (intros y Hy; apply Hl; by right).
  pose proof (Hl x (list_elem_of_here _ _)) as Hx.
  destruct (decide (P x)), (decide (Q x)); tauto || done.
Qed.

Lemma filter_all {A} (P : A -> Prop) `{forall x, Decision (P x)} (l : list A) :
  (forall x, x ∈ l -> P x) -> filter P l = l.
Proof.
  induction l as [|x l IH]; intros Hl; [done|]. rewrite filter_cons_True by (apply Hl; left).
  f_equal. apply IH. intros y Hy. apply Hl. by right.
Qed.

Lemma length_filter_map {A B} (f : A -> B) (P : B -> Prop) (Q : A -> Prop)
    `{forall y, Decision (P y)} `{forall x, Decision (Q x)} (l : list A) :
  (forall x, x ∈ l -> P (f x) <-> Q x) -> length (filter P (map f l)) = length (filter Q l).
Proof.
  induction l as [|x l IH]; intros Hl; [done|]. cbn [map]. rewrite !filter_cons.
  pose proof (Hl x (list_elem_of_here _ _)) as Hx.
  assert (IH' : length (filter P (map f l)) = length (filter Q l))
    by (apply IH; intros y Hy; apply Hl; by right).
  destruct (decide (P (f x))), (decide (Q x)); cbn [length]; tauto || lia.
Qed.

Lemma elem_of_map {A B} (f : A -> B) l x : x ∈ l -> f x ∈ map f l.
Proof. intros Hx. by apply list_elem_of_In, in_map, list_elem_of_In. Qed.

Lemma head_elem {A} (l : list A) x : head l = Some x -> x ∈ l.
Proof. destruct l; [done|]. intros [= ->]. left. Qed.

(** ** Strings ([stdpp] keeps [+:+] from reducing) *)

Lemma str_app_nil s : "" +:+ s = s.
Proof. reflexivity. Qed.
Lemma str_app_cons a s t : String a s +:+ t = String a (s +:+ t).
Proof. reflexivity. Qed.

Lemma str_app_assoc (a b c : string) : (a +:+ b) +:+ c = a +:+ b +:+ c.
Proof. induction a as [|x a IH]; [done|]. by rewrite !str_app_cons, IH. Qed.

(** [str::strip_prefix] and [str::ends_with]. *)
Fixpoint strip_prefix (p s : string) : option string :=
  match p, s with
  | EmptyString, _ => Some s
  | String a p, String b s => if decide (a = b) then strip_prefix p s else None
  | String _ _, EmptyString => None
  end.

Fixpoint ends_with (suf s : string) : bool :=
  bool_decide (s = suf) || match s with EmptyString => false | String _ s => ends_with suf s end.

Lemma strip_prefix_app p s : strip_prefix p (p +:+ s) = Some s.
Proof.
  induction p as [|a p IH]; [done|]. rewrite str_app_cons. cbn [strip_prefix].
  by rewrite decide_True by done.
Qed.

Lemma ends_with_app s suf : ends_with suf (s +:+ suf) = true.
Proof.
  induction s as [|a s IH].
  - rewrite str_app_nil. destruct suf; cbn [ends_with]; by rewrite bool_decide_eq_true_2 by done.
  - rewrite str_app_cons. cbn [ends_with]. rewrite IH. apply orb_true_r.
Qed.

Lemma str_length_app a b : String.length (a +:+ b) = (String.length a + String.length b)%nat.
Proof.
  induction a as [|x a IH]; [done|]. rewrite str_app_cons.
  change (S (String.length (a +:+ b)) = S (String.length a + String.length b)%nat). by rewrite IH.
Qed.

Lemma str_app_inj_r (a b s : string) : a +:+ s = b +:+ s -> a = b.
Proof.
  revert b. induction a as [|x a IH]; intros [|y b] H;
    rewrite ?str_app_cons, ?str_app_nil in H; [done| | |].
  - apply (f_equal String.length) in H.
    change (String.length s = S (String.length (b +:+ s))) in H. rewrite str_length_app in H. lia.
  - apply (f_equal String.length) in H.
    change (S (String.length (a +:+ s)) = String.length s) in H. rewrite str_length_app in H. lia.
  - injection H as -> H. by rewrite (IH b).
Qed.

(** ** Iteration of a step relation: reachability and invariants *)

Section steps.
Context {S : Type} (step : S -> S -> Prop).

Inductive steps : S -> S -> Prop :=
| steps_refl s : steps s s
| steps_step s1 s2 s3 : steps s1 s2 -> step s2 s3 -> steps s1 s3.

Lemma steps_trans s1 s2 s3 : steps s1 s2 -> steps s2 s3 -> steps s1 s3.
Proof. intros H12 H23. induction H23; eauto using steps. Qed.

(** Rule induction for an invariant. *)
Lemma steps_invariant (I : S -> Prop) s1 s2 :
  (forall a b, I a -> step a b -> I b) -> I s1 -> steps s1 s2 -> I s2.
Proof. intros Hstep H1 Hs. induction Hs; eauto. Qed.
End steps.

#[export] Hint Constructors steps : streamhouse.

(** ** Automation *)

#[export] Hint Rewrite @length_app @length_rev length_put_be length_put_le length_zeros
  @length_cons @length_nil : len.
#[export] Hint Resolve wrap_in_u swrap_in_i : streamhouse.

(** Goals on buffer lengths. *)
Ltac len_lia := autorewrite with len in *; simpl length in *; lia.

(** Unfolds the binds of a computation that is known to be [Ok]. *)
Ltac inv_binds :=
  repeat match goal with
  | H : _ ≫= _ = Ok _ |- _ => apply bind_Ok_inv in H as (? & ? & H)
  | H : Ok _ = Ok _ |- _ => injection H as H
  | H : Err _ = Ok _ |- _ => discriminate H
  | H : Panic = Ok _ |- _ => discriminate H
  end.
