(* ===== verification/Core.v ===== *)
(** * Core data types (crates/streamhouse-core)

    [Error], [Record], [SegmentInfo] and [Compression] of the core crate. *)

From S2P Require Import Prelude.

(** [streamhouse_core::Error]; [Io] carries an operating-system error, of which only the
    text is kept. *)
Inductive Error : Type :=
| Io (msg : string)
| InvalidMagic
| InvalidVersion (v : Z)
| UnsupportedVersion (v : Z)
| InvalidCompression (v : Z)
| CrcMismatch
| OffsetNotFound (o : Z)
| InvalidSegment (msg : string)
| CompressionError (msg : string)
| Decompression (msg : string)
| Unsupported (msg : string).

#[export] Instance Error_eq_dec : EqDecision Error.
Proof. solve_decision. Defined.

Record Record_ : Type := mk_record {
  r_offset : Z;
  r_timestamp : Z;
  r_key : option bytes;
  r_value : bytes
}.

#[export] Instance Record_eq_dec : EqDecision Record_.
Proof. solve_decision. Defined.

(** [Record::estimated_size]. *)
Definition estimated_size (r : Record_) : Z :=
  8 + 8 + match r_key r with Some k => len k | None => 0 end + len (r_value r).

(** The values a Rust [Record] can hold: 64-bit offset and timestamp, slices whose length
    fits a [usize]. *)
Definition record_ok (r : Record_) : Prop :=
  in_u 64 (r_offset r) /\ in_u 64 (r_timestamp r)
  /\ len (r_value r) < 2 ^ 63
  /\ match r_key r with Some k => len k < 2 ^ 63 | None => True end.

Record SegmentInfo : Type := mk_segment_info {
  si_id : string;
  si_topic : string;
  si_partition_id : Z;
  si_base_offset : Z;
  si_end_offset : Z;
  si_record_count : Z;
  si_size_bytes : Z;
  si_s3_bucket : string;
  si_s3_key : string;
  si_created_at : Z;
  si_min_timestamp : Z;
  si_max_timestamp : Z
}.

#[export] Instance SegmentInfo_eq_dec : EqDecision SegmentInfo.
Proof. solve_decision. Defined.

Inductive Compression : Type := CNone | Lz4 | Zstd.

#[export] Instance Compression_eq_dec : EqDecision Compression.
Proof. solve_decision. Defined.

(** [self.compression as u16]. *)
Definition compression_u16 (c : Compression) : Z :=
  match c with CNone => 0 | Lz4 => 1 | Zstd => 2 end.

(** [TryFrom<u16> for Compression]. *)
Definition compression_try_from (v : Z) : outcome Error Compression :=
  if v =? 0 then Ok CNone
  else if v =? 1 then Ok Lz4
  else if v =? 2 then Ok Zstd
  else Err (InvalidCompression v).

Lemma compression_try_from_u16 c : compression_try_from (compression_u16 c) = Ok c.
Proof. by destruct c. Qed.
