(* ===== verification/Varint.v ===== *)
(** * Variable-length integers (crates/streamhouse-core/src/varint.rs)

    LEB128 with a ZigZag map for signed values.  The decoder consumes a buffer and
    returns what is left of it. *)

From coqutil Require Import Byte.
From S2P Require Import Prelude Core.

(** ** Definitions *)

(** One iteration per seven bits.  Ten iterations write any 64-bit value
    ([encode_loop_fuel]), so the fuel of [encode_varint_u64] is never exhausted. *)
Fixpoint encode_loop (fuel : nat) (value : Z) : bytes :=
  match fuel with
  | O => []
  | S f =>
      let byte := Z.land value 127 in
      let value := Z.shiftr value 7 in
      if value =? 0 then [byte_of byte]
      else byte_of (Z.lor byte 128) :: encode_loop f value
  end.

Definition encode_varint_u64 (buf : bytes) (value : Z) : bytes :=
  buf ++ encode_loop 10 value.

(** [((value << 1) ^ (value >> 63)) as u64] for an [i64]. *)
Definition zigzag (value : Z) : Z :=
  wrap 64 (Z.lxor (swrap 64 (Z.shiftl value 1)) (Z.shiftr value 63)).

Definition encode_varint (buf : bytes) (value : Z) : bytes :=
  encode_varint_u64 buf (zigzag value).

(** The decoding loop, with the errors of a truncated and of an oversized integer. *)
Fixpoint decode_loop {E} (truncated too_large : E) (value shift : Z) (buf : bytes)
  : outcome E (Z * bytes) :=
  match buf with
  | [] => Err truncated
  | b :: rest =>
      let byte := byte.unsigned b in
      let value := Z.lor value (wrap 64 (Z.shiftl (Z.land byte 127) shift)) in
      if Z.land byte 128 =? 0 then Ok (value, rest)
      else
        let shift := shift + 7 in
        if shift >=? 64 then Err too_large
        else decode_loop truncated too_large value shift rest
  end.

Definition decode_varint_u64 (buf : bytes) : outcome Error (Z * bytes) :=
  decode_loop (InvalidSegment "Truncated varint") (InvalidSegment "Varint too large")
    0 0 buf.

(** [(unsigned >> 1) as i64], complemented when the low bit is set. *)
Definition unzigzag (unsigned : Z) : Z :=
  let value := swrap 64 (Z.shiftr unsigned 1) in
  if negb (Z.land unsigned 1 =? 0) then Z.lnot value else value.

Definition decode_varint (buf : bytes) : outcome Error (Z * bytes) :=
  '(unsigned, rest) ← decode_varint_u64 buf;
  Ok (unzigzag unsigned, rest).

(** ** ZigZag *)

Lemma zigzag_spec v : in_i 64 v -> zigzag v = if 0 <=? v then 2 * v else - 2 * v - 1.
Proof.
  unfold in_i, zigzag. intros Hv. change (2 ^ (64 - 1)) with (2 ^ 63) in Hv.
  rewrite Z.shiftl_mul_pow2, Z.shiftr_div_pow2 by lia.
  change (v * 2 ^ 1) with (v * 2). unfold swrap, wrap.
  change (2 ^ (64 - 1)) with (2 ^ 63).
  destruct (Z.leb_spec 0 v).
  - rewrite (Z.div_small v) by lia. rewrite Z.lxor_0_r, (Z.mod_small (v * 2)) by lia.
    destruct (Z.ltb_spec (v * 2) (2 ^ 63)).
    + rewrite Z.mod_small; lia.
    + rewrite <- (Z.mod_add _ 1), Z.mod_small; lia.
  - replace (v / 2 ^ 63) with (-1) by (apply (Z.div_unique_pos _ _ _ (v + 2 ^ 63)); lia).
    rewrite Z.lxor_m1_r, lnot_eq.
    assert (Hm : (v * 2) mod 2 ^ 64 = v * 2 + 2 ^ 64).
    { rewrite <- (Z.mod_add _ 1), Z.mod_small; lia. }
    rewrite Hm. destruct (Z.ltb_spec (v * 2 + 2 ^ 64) (2 ^ 63)).
    + rewrite <- (Z.mod_add _ 1), Z.mod_small; lia.
    + rewrite Z.mod_small; lia.
Qed.

Lemma zigzag_in_u v : in_i 64 v -> in_u 64 (zigzag v).
Proof.
  intros Hv. rewrite zigzag_spec by done. unfold in_i, in_u in *.
  change (2 ^ (64 - 1)) with (2 ^ 63) in Hv. destruct (Z.leb_spec 0 v); lia.
Qed.

Lemma unzigzag_spec u :
  in_u 64 u -> unzigzag u = if Z.even u then u / 2 else - (u / 2) - 1.
Proof.
  unfold in_u, unzigzag. intros Hu.
  rewrite Z.shiftr_div_pow2 by lia. change (2 ^ 1) with 2.
  rewrite swrap_small; [|lia|].
  2: { unfold in_i. change (2 ^ (64 - 1)) with (2 ^ 63).
       assert (0 <= u / 2 < 2 ^ 63); [|lia].
       split; [apply Z.div_pos; lia|apply Z.div_lt_upper_bound; lia]. }
  rewrite land_1, <- Z.negb_odd, Zmod_odd.
  destruct (Z.odd u); simpl; [rewrite lnot_eq|]; lia.
Qed.

Lemma unzigzag_zigzag v : in_i 64 v -> unzigzag (zigzag v) = v.
Proof.
  intros Hv. rewrite unzigzag_spec by by apply zigzag_in_u.
  rewrite zigzag_spec by done. destruct (Z.leb_spec 0 v).
  - rewrite Z.even_mul. simpl. rewrite Z.mul_comm, Z.div_mul by lia. done.
  - replace (-2 * v - 1) with (2 * (- v - 1) + 1) by lia.
    rewrite Z.even_add, Z.even_mul. simpl.
    replace ((2 * (- v - 1) + 1) / 2) with (- v - 1); [lia|].
    apply (Z.div_unique _ _ _ 1); lia.
Qed.

(** ** The loops *)

(** The bits below [2^(7 f)] are written by [f] iterations: more fuel changes nothing. *)
Lemma encode_loop_fuel f g v :
  0 <= v < 2 ^ (7 * Z.of_nat (S f)) -> encode_loop (S f + g) v = encode_loop (S f) v.
Proof.
  revert v. induction f as [|f IH]; intros v Hv; cbn [encode_loop Nat.add].
  - rewrite Z.shiftr_div_pow2, Z.div_small by lia. done.
  - destruct (Z.eqb_spec (Z.shiftr v 7) 0); [done|]. f_equal.
    apply (IH (Z.shiftr v 7)). rewrite Z.shiftr_div_pow2 by lia. split.
    + apply Z.div_pos; lia.
    + apply Z.div_lt_upper_bound; [lia|]. rewrite <- Z.pow_add_r by lia.
      replace (7 + 7 * Z.of_nat (S f)) with (7 * Z.of_nat (S (S f))) by lia. lia.
Qed.

(** At most ten bytes, at least one. *)
Lemma length_encode_loop f v : (length (encode_loop f v) <= f)%nat.
Proof.
  revert v. induction f as [|f IH]; intros v; simpl; [lia|].
  destruct (_ =? _); simpl; [lia|]. specialize (IH (Z.shiftr v 7)). lia.
Qed.

Lemma encode_loop_nonempty f v : encode_loop (S f) v <> [].
Proof. simpl. by destruct (_ =? _). Qed.

Lemma land_lor_128 x : 0 <= x < 128 ->
  Z.land (Z.lor x 128) 127 = x /\ (Z.land (Z.lor x 128) 128 =? 0) = false
  /\ 0 <= Z.lor x 128 < 256.
Proof.
  intros Hx. assert (He : Z.lor x 128 = x + 128).
  { change (Z.lor x 128) with (Z.lor x (Z.shiftl 1 7)). rewrite lor_shiftl_add by lia. lia. }
  rewrite He, land_bit7 by lia. split; [|split; [apply Z.ltb_ge; lia|lia]].
  rewrite land_127.
  replace (x + 128) with (x + 1 * 128) by lia. rewrite Z.mod_add by lia.
  apply Z.mod_small; lia.
Qed.

(** One step of the decoder on a byte that carries seven bits of the value. *)
Lemma decode_step value shift x :
  0 <= shift <= 63 -> 0 <= value < 2 ^ shift -> 0 <= x < 128 -> x * 2 ^ shift < 2 ^ 64 ->
  Z.lor value (wrap 64 (Z.shiftl x shift)) = value + x * 2 ^ shift.
Proof.
  intros Hs Hv Hx Hb. rewrite <- lor_shiftl_add by lia. f_equal.
  apply wrap_small. unfold in_u. rewrite Z.shiftl_mul_pow2 by lia. lia.
Qed.

Lemma decode_encode_loop {E} (e1 e2 : E) f acc shift v rest :
  0 <= shift -> shift + 7 * Z.of_nat f <= 70 -> (0 < f)%nat ->
  0 <= acc < 2 ^ shift -> 0 <= v < 2 ^ (7 * Z.of_nat f) -> v * 2 ^ shift < 2 ^ 64 ->
  decode_loop e1 e2 acc shift (encode_loop f v ++ rest) = Ok (acc + v * 2 ^ shift, rest).
Proof.
  revert acc shift v. induction f as [|f IH]; intros acc shift v Hs Hf Hf0 Ha Hv Hb; [lia|].
  assert (Hp : 0 < 2 ^ shift) by lia.
  pose proof (Z.div_mod v 128 ltac:(lia)) as Hdm.
  pose proof (Z.mod_pos_bound v 128 ltac:(lia)) as Hmb.
  pose proof (Z.div_pos v 128 ltac:(lia) ltac:(lia)) as Hq0.
  assert (Hshr : Z.shiftr v 7 = v / 128) by (apply Z.shiftr_div_pow2; lia).
  assert (Hlow : v mod 128 * 2 ^ shift < 2 ^ 64).
  { eapply Z.le_lt_trans; [|exact Hb]. apply Z.mul_le_mono_nonneg_r; lia. }
  cbn [encode_loop]. rewrite land_127, Hshr. destruct (Z.eqb_spec (v / 128) 0) as [H0|H0].
  - cbn [decode_loop app]. rewrite unsigned_byte_of by lia.
    rewrite land_127, (Z.mod_mod v 128) by lia.
    rewrite land_bit7 by lia. destruct (Z.ltb_spec (v mod 128) 128); [|lia].
    rewrite decode_step by lia. rewrite Hdm at 2. rewrite H0. do 3 f_equal; lia.
  - assert (Hsh : shift + 7 < 64).
    { destruct (decide (shift + 7 < 64)); [done|]. exfalso.
      assert (2 ^ 57 <= 2 ^ shift) by (apply Z.pow_le_mono_r; lia).
      assert (128 * 2 ^ 57 <= v * 2 ^ shift) by (apply Z.mul_le_mono_nonneg; lia). lia. }
    destruct (land_lor_128 (v mod 128) ltac:(lia)) as (Hl1 & Hl2 & Hl3).
    cbn [decode_loop app]. rewrite unsigned_byte_of by lia. rewrite Hl1, Hl2.
    rewrite decode_step by lia.
    destruct (Z.geb_spec (shift + 7) 64); [lia|].
    assert (Hpow : 2 ^ (shift + 7) = 128 * 2 ^ shift) by (rewrite Z.pow_add_r by lia; lia).
    assert (Hv' : v * 2 ^ shift = 128 * (v / 128) * 2 ^ shift + v mod 128 * 2 ^ shift)
      by (rewrite <- Z.mul_add_distr_r; by f_equal).
    assert (Hm0 : 0 <= v mod 128 * 2 ^ shift) by (apply Z.mul_nonneg_nonneg; lia).
    rewrite IH; rewrite ?Hpow; try lia.
    + do 2 f_equal. lia.
    + destruct f; [|lia]. change (7 * Z.of_nat 1) with 7 in Hv. lia.
    + split; [lia|]. apply Z.le_lt_trans with (2 ^ shift - 1 + 127 * 2 ^ shift); [|lia].
      apply Z.add_le_mono; [lia|]. apply Z.mul_le_mono_nonneg_r; lia.
    + split; [lia|]. apply Z.div_lt_upper_bound; [lia|].
      replace (7 * Z.of_nat (S f)) with (7 + 7 * Z.of_nat f) in Hv by lia.
      rewrite Z.pow_add_r in Hv by lia. lia.
Qed.

Lemma decode_varint_u64_encode v rest :
  in_u 64 v -> decode_varint_u64 (encode_loop 10 v ++ rest) = Ok (v, rest).
Proof.
  intros Hv. unfold decode_varint_u64, in_u in *.
  rewrite decode_encode_loop; try lia. do 2 f_equal. lia.
Qed.

Lemma decode_varint_encode v rest :
  in_i 64 v -> decode_varint (encode_loop 10 (zigzag v) ++ rest) = Ok (v, rest).
Proof.
  intros Hv. unfold decode_varint. rewrite decode_varint_u64_encode by by apply zigzag_in_u.
  simpl. by rewrite unzigzag_zigzag.
Qed.

(** ** Totality of the decoder *)

(** Whatever the buffer, the loop stops with a 64-bit value and the rest of the buffer, or
    with one of its two errors; it never reads more than ten bytes. *)
Lemma decode_loop_total {E} (e1 e2 : E) value shift buf :
  in_u 64 value -> 0 <= shift -> shift mod 7 = 0 -> shift <= 63 ->
  match decode_loop e1 e2 value shift buf with
  | Ok (v, rest) =>
      in_u 64 v /\ exists pre, buf = pre ++ rest /\ 1 <= len pre <= 10 - shift / 7
  | Err e => e = e1 \/ e = e2
  | Panic => False
  end.
Proof.
  revert value shift. induction buf as [|b buf IH]; intros value shift Hv Hs Hm Hb;
    cbn [decode_loop]; [by left|].
  assert (Hlor : forall x, in_u 64 (Z.lor value (wrap 64 x))).
  { intros x. apply lor_in_u; [lia|done|apply wrap_in_u; lia]. }
  assert (Hs7 : shift / 7 <= 9) by (apply Z.div_le_upper_bound; lia).
  destruct (Z.land (byte.unsigned b) 128 =? 0).
  - split; [apply Hlor|]. exists [b]. split; [done|]. simpl. lia.
  - destruct (Z.geb_spec (shift + 7) 64); [by right|].
    specialize (IH (Z.lor value (wrap 64 (Z.shiftl (Z.land (byte.unsigned b) 127) shift)))
                  (shift + 7) (Hlor _)).
    assert (Hd : (shift + 7) / 7 = shift / 7 + 1) by (rewrite <- (Z.div_add _ 1) by lia; f_equal; lia).
    rewrite Hd in IH. destruct (decode_loop _ _ _ _ buf) as [[v rest]|e|].
    + destruct IH as (Hv' & pre & -> & Hpre); [lia|rewrite <- (Z.mod_add _ 1) in Hm by lia; by rewrite <- Hm|lia|].
      split; [done|]. exists (b :: pre). split; [done|]. simpl length. lia.
    + apply IH; [lia|rewrite <- (Z.mod_add _ 1) in Hm by lia; by rewrite <- Hm|lia].
    + apply IH; [lia|rewrite <- (Z.mod_add _ 1) in Hm by lia; by rewrite <- Hm|lia].
Qed.

Lemma decode_varint_u64_cases buf :
  match decode_varint_u64 buf with
  | Ok (v, rest) => in_u 64 v /\ exists pre, buf = pre ++ rest /\ 1 <= len pre <= 10
  | Err e => e = InvalidSegment "Truncated varint" \/ e = InvalidSegment "Varint too large"
  | Panic => False
  end.
Proof.
  apply (decode_loop_total (InvalidSegment "Truncated varint")
           (InvalidSegment "Varint too large") 0 0 buf); unfold in_u; lia || done.
Qed.

(** The signed decoder consumes as much and does not panic either. *)
Lemma decode_varint_cases buf :
  match decode_varint buf with
  | Ok (v, rest) => len rest < len buf
  | Err _ => True
  | Panic => False
  end.
Proof.
  unfold decode_varint. pose proof (decode_varint_u64_cases buf) as Hc.
  destruct (decode_varint_u64 buf) as [[v rest]|e|]; [|done|done].
  destruct Hc as (_ & pre & -> & Hpre). cbn. rewrite length_app. lia.
Qed.

(** ** Properties *)

(** Every 64-bit value, signed or unsigned, is read back from its encoding, whatever
    precedes and follows it in the buffer; an encoding takes one to ten bytes. *)
Theorem varint_roundtrip (buf rest : bytes) (u v : Z) :
  in_u 64 u -> in_i 64 v ->
  (exists e, encode_varint_u64 buf u = buf ++ e /\ 1 <= len e <= 10
     /\ decode_varint_u64 (e ++ rest) = Ok (u, rest)) /\
  (exists e, encode_varint buf v = buf ++ e /\ 1 <= len e <= 10
     /\ decode_varint (e ++ rest) = Ok (v, rest)).
Proof.
  intros Hu Hv.
  assert (Hlen : forall x, 1 <= len (encode_loop 10 x) <= 10).
  { intros x. pose proof (length_encode_loop 10 x). pose proof (encode_loop_nonempty 9 x).
    destruct (encode_loop 10 x); [done|]. simpl length in *. lia. }
  split; eexists; (split; [reflexivity|]); (split; [apply Hlen|]).
  - by apply decode_varint_u64_encode.
  - by apply decode_varint_encode.
Qed.

Lemma varint_roundtrip_witness :
  decode_varint (encode_loop 10 (zigzag (-300)) ++ [Init.Byte.x2a]) = Ok (-300, [Init.Byte.x2a])
  /\ len (encode_loop 10 (2 ^ 64 - 1)) = 10.
Proof.
  destruct (varint_roundtrip [] [Init.Byte.x2a] (2 ^ 64 - 1) (-300)) as [_ (e & He & _ & Hd)];
    [by vm_compute|by vm_compute|].
  split; [|reflexivity]. cbn [app encode_varint encode_varint_u64] in He. subst e. exact Hd.
Defined.

(** The decoder is total: on any buffer it returns a 64-bit value and the unread suffix
    after one to ten bytes, or reports a truncated or an oversized integer; it never
    panics. *)
Theorem decode_varint_u64_total (buf : bytes) :
  match decode_varint_u64 buf with
  | Ok (v, rest) => in_u 64 v /\ exists pre, buf = pre ++ rest /\ 1 <= len pre <= 10
  | Err e => e = InvalidSegment "Truncated varint" \/ e = InvalidSegment "Varint too large"
  | Panic => False
  end.
Proof. apply decode_varint_u64_cases. Qed.
