(* ===== verification/External.v ===== *)
(** * Third-party code the storage layer calls

    The checksum ([crc32fast]) and the block compressor ([lz4_flex]) are not part of the
    repository: they are parameters, with the documented behaviour the code relies on. *)

From S2P Require Import Prelude.

Class Codecs := {
  (** [crc32fast::hash]. *)
  crc32 : bytes -> Z;
  (** [lz4_flex::compress_prepend_size]. *)
  lz4_compress : bytes -> bytes;
  (** [lz4_flex::decompress_size_prepended]: the data, or the text of the error. *)
  lz4_decompress : bytes -> string + bytes
}.

Class CodecLaws `(Codecs) : Prop := {
  crc32_u32 b : in_u 32 (crc32 b);
  lz4_decompress_compress b : lz4_decompress (lz4_compress b) = inr b
}.

(** A concrete instance for the witnesses: an additive checksum, and a compressor that
    stores the block behind a marker byte. *)
#[export] Instance toy_codecs : Codecs := {|
  crc32 b := wrap 32 (foldr (fun x a => 31 * a + byte.unsigned x) 7 b);
  lz4_compress b := Init.Byte.x4c :: b;
  lz4_decompress b :=
    match b with
    | Init.Byte.x4c :: b => inr b
    | _ => inl "bad block"%string
    end
|}.

#[export] Instance toy_codec_laws : CodecLaws toy_codecs.
Proof. split; intros; [apply wrap_in_u; lia|done]. Qed.
