(* ===== verification/Segment.v ===== *)
(** * Segment files (crates/streamhouse-storage/src/segment)

    [Writer] models [SegmentWriter] (writer.rs) and [Reader] models [SegmentReader]
    (reader.rs), over the constants of mod.rs. *)

From coqutil Require Import Byte.
From stdpp Require Import pretty.
From S2P Require Import Prelude Core Varint External.

(** ** Constants (mod.rs) *)

Definition SEGMENT_MAGIC : bytes :=
  [Init.Byte.x53; Init.Byte.x54; Init.Byte.x52; Init.Byte.x4d].
Definition SEGMENT_VERSION : Z := 1.
Definition BLOCK_SIZE_TARGET : Z := 1024 * 1024.
Definition HEADER_SIZE : nat := 64.
Definition FOOTER_SIZE : nat := 32.

(** Both [IndexEntry] structs (writer.rs and reader.rs). *)
Record IndexEntry : Type := mk_entry {
  ie_offset : Z;
  ie_file_position : Z;
  ie_timestamp : Z
}.

#[export] Instance IndexEntry_eq_dec : EqDecision IndexEntry.
Proof. solve_decision. Defined.

Record SegmentHeader : Type := mk_header {
  h_version : Z;
  h_compression : Compression;
  h_base_offset : Z;
  h_end_offset : Z;
  h_record_count : Z;
  h_block_count : Z
}.

(** ** The writer *)

Module Writer.
Section Writer.
Context `{Codecs}.

Record SegmentWriter : Type := mk_writer {
  compression : Compression;
  current_block : bytes;
  blocks : list bytes;
  index : list IndexEntry;
  base_offset : option Z;
  last_offset : option Z;
  record_count : Z;
  last_timestamp : Z;
  first_timestamp : option Z
}.

Definition new (c : Compression) : SegmentWriter :=
  mk_writer c [] [] [] None None 0 0 None.

(** [self.blocks.iter().map(|b| b.len() as u64).sum()]. *)
Definition blocks_len (bs : list bytes) : Z := foldr (fun b a => len b + a) 0 bs.

(** The bytes of one record: offset delta, timestamp delta, key, value. *)
Definition encode_record (w : SegmentWriter) (r : Record_) : SegmentWriter :=
  let offset_delta :=
    match last_offset w with
    | Some last => swrap 64 (wrap 64 (r_offset r - last))
    | None => 0
    end in
  let timestamp_delta := swrap 64 (wrap 64 (r_timestamp r - last_timestamp w)) in
  let buf := encode_varint (current_block w) offset_delta in
  let buf := encode_varint buf timestamp_delta in
  let buf :=
    match r_key r with
    | Some key => encode_varint_u64 buf (len key) ++ key
    | None => encode_varint_u64 buf 0
    end in
  let buf := encode_varint_u64 buf (len (r_value r)) ++ r_value r in
  mk_writer (compression w) buf (blocks w) (index w) (base_offset w) (last_offset w)
    (record_count w) (r_timestamp r) (first_timestamp w).

(** [flush_block]: the updated writer and the result of the call. *)
Definition flush_block (w : SegmentWriter) : SegmentWriter * outcome Error () :=
  match current_block w with
  | [] => (w, Ok ())
  | _ :: _ =>
      let push compressed :=
        (mk_writer (compression w) [] (blocks w ++ [compressed]) (index w) (base_offset w)
           (last_offset w) (record_count w) (last_timestamp w) (first_timestamp w), Ok ()) in
      match compression w with
      | CNone => push (current_block w)
      | Lz4 => push (lz4_compress (current_block w))
      | Zstd => (w, Err (Unsupported "Zstd compression not yet implemented"))
      end
  end.

(** The first record sets the base offset and opens the index. *)
Definition start_segment (w : SegmentWriter) (r : Record_) : SegmentWriter :=
  match base_offset w with
  | Some _ => w
  | None =>
      mk_writer (compression w) (current_block w) (blocks w)
        (index w ++ [mk_entry (r_offset r) (Z.of_nat HEADER_SIZE) (r_timestamp r)])
        (Some (r_offset r)) (last_offset w) (record_count w) (r_timestamp r)
        (Some (r_timestamp r))
  end.

(** The first record after a flush opens an index entry and resets the deltas. *)
Definition start_block (w : SegmentWriter) (r : Record_) : SegmentWriter :=
  if bool_decide (current_block w = []) && bool_decide (is_Some (base_offset w))
     && (len (index w) <? len (blocks w) + 1)
  then
    mk_writer (compression w) (current_block w) (blocks w)
      (index w ++ [mk_entry (r_offset r) (Z.of_nat HEADER_SIZE + blocks_len (blocks w))
                     (r_timestamp r)])
      (base_offset w) None (record_count w) (r_timestamp r) (first_timestamp w)
  else w.

(** The end of [append]: the record is encoded, then counted. *)
Definition push_record (w : SegmentWriter) (r : Record_) : SegmentWriter :=
  let w := encode_record w r in
  mk_writer (compression w) (current_block w) (blocks w) (index w) (base_offset w)
    (Some (r_offset r)) (wrap 32 (record_count w + 1)) (last_timestamp w)
    (first_timestamp w).

(** [append]. *)
Definition append (w : SegmentWriter) (r : Record_) : SegmentWriter * outcome Error () :=
  let w := start_segment w r in
  let '(w, flushed) :=
    if len (current_block w) >=? BLOCK_SIZE_TARGET then flush_block w else (w, Ok ()) in
  match flushed with
  | Ok _ => (push_record (start_block w r) r, Ok ())
  | res => (w, res)
  end.

Definition write_header (w : SegmentWriter) (buf : bytes) (base_offset end_offset : Z) : bytes :=
  buf ++ SEGMENT_MAGIC ++ put_be 2 SEGMENT_VERSION
    ++ put_be 2 (compression_u16 (compression w))
    ++ put_be 8 base_offset ++ put_be 8 end_offset
    ++ put_be 4 (record_count w) ++ put_be 4 (len (blocks w)) ++ zeros 32.

Definition put_entry (e : IndexEntry) : bytes :=
  put_be 8 (ie_offset e) ++ put_be 8 (ie_file_position e) ++ put_be 8 (ie_timestamp e).

Definition write_index (w : SegmentWriter) (buf : bytes) : bytes :=
  buf ++ put_be 4 (len (index w)) ++ concat (map put_entry (index w)).

Definition write_footer (buf : bytes) (index_start : Z) : bytes :=
  let crc := crc32 buf in
  buf ++ put_be 8 index_start ++ put_be 4 crc ++ SEGMENT_MAGIC ++ zeros 16.

(** [finish]. *)
Definition finish (w : SegmentWriter) : outcome Error bytes :=
  let '(w, flushed) := flush_block w in
  _ ← flushed;
  base_offset ← ok_or (InvalidSegment "No records written") (base_offset w);
  end_offset ← ok_or (InvalidSegment "No records written") (last_offset w);
  let output := write_header w [] base_offset end_offset in
  let output := output ++ concat (blocks w) in
  let index_start := len output in
  let output := write_index w output in
  Ok (write_footer output index_start).

Definition min_timestamp (w : SegmentWriter) : option Z := first_timestamp w.
Definition max_timestamp (w : SegmentWriter) : option Z :=
  if record_count w >? 0 then Some (last_timestamp w) else None.

(** Appends a batch of records, as the partition writer does, stopping at an error. *)
Fixpoint append_all (w : SegmentWriter) (rs : list Record_) : outcome Error SegmentWriter :=
  match rs with
  | [] => Ok w
  | r :: rs =>
      match append w r with
      | (w, Ok _) => append_all w rs
      | (_, Err e) => Err e
      | (_, Panic) => Panic
      end
  end.

End Writer.
End Writer.

(** ** The reader *)

Module Reader.
Section Reader.
Context `{Codecs}.

Record SegmentReader : Type := mk_reader {
  data : bytes;
  header : SegmentHeader;
  index : list IndexEntry;
  index_position : Z
}.

(** [&data[a..b]] and [Bytes::slice(a..b)]: [None] where Rust panics. *)
Definition slice (a b : Z) (d : bytes) : option bytes :=
  if (a <=? b) && (b <=? len d) then Some (take (Z.to_nat (b - a)) (drop (Z.to_nat a) d))
  else None.

Definition read_header (d : bytes) : outcome Error SegmentHeader :=
  cursor ← or_panic (slice 0 (Z.of_nat HEADER_SIZE) d);
  '(magic, cursor) ← or_panic (split_to 4 cursor);
  if negb (bool_decide (magic = SEGMENT_MAGIC)) then Err InvalidMagic
  else
    '(version, cursor) ← or_panic (get_be 2 cursor);
    if negb (version =? SEGMENT_VERSION) then Err (UnsupportedVersion version)
    else
      '(compression_value, cursor) ← or_panic (get_be 2 cursor);
      compression ← compression_try_from compression_value;
      '(base_offset, cursor) ← or_panic (get_be 8 cursor);
      '(end_offset, cursor) ← or_panic (get_be 8 cursor);
      '(record_count, cursor) ← or_panic (get_be 4 cursor);
      '(block_count, cursor) ← or_panic (get_be 4 cursor);
      Ok (mk_header version compression base_offset end_offset record_count block_count).

Definition read_footer (d : bytes) (footer_start : nat) : outcome Error Z :=
  cursor ← or_panic (slice (Z.of_nat footer_start) (len d) d);
  '(index_position, cursor) ← or_panic (get_be 8 cursor);
  '(stored_crc, cursor) ← or_panic (get_be 4 cursor);
  let calculated_crc := crc32 (take footer_start d) in
  if negb (stored_crc =? calculated_crc) then Err CrcMismatch
  else
    '(magic, cursor) ← or_panic (split_to 4 cursor);
    if negb (bool_decide (magic = SEGMENT_MAGIC)) then Err InvalidMagic
    else Ok index_position.

Fixpoint read_entries (n : nat) (cursor : bytes) : outcome Error (list IndexEntry) :=
  match n with
  | O => Ok []
  | S n =>
      '(offset, cursor) ← or_panic (get_be 8 cursor);
      '(file_position, cursor) ← or_panic (get_be 8 cursor);
      '(timestamp, cursor) ← or_panic (get_be 8 cursor);
      rest ← read_entries n cursor;
      Ok (mk_entry offset file_position timestamp :: rest)
  end.

Definition read_index (d : bytes) (index_start : Z) : outcome Error (list IndexEntry) :=
  cursor ← or_panic (slice index_start (len d) d);
  '(entry_count, cursor) ← or_panic (get_be 4 cursor);
  read_entries (Z.to_nat entry_count) cursor.

(** [SegmentReader::new]. *)
Definition new (d : bytes) : outcome Error SegmentReader :=
  if decide (length d < HEADER_SIZE + FOOTER_SIZE)%nat
  then Err (InvalidSegment "Segment too small")
  else
    header ← read_header d;
    let footer_start := (length d - FOOTER_SIZE)%nat in
    index_position ← read_footer d footer_start;
    index ← read_index d index_position;
    Ok (mk_reader d header index index_position).

Definition decompress_block (s : SegmentReader) (block_data : bytes) : outcome Error bytes :=
  match h_compression (header s) with
  | CNone => Ok block_data
  | Lz4 =>
      match lz4_decompress block_data with
      | inl e => Err (Decompression e)
      | inr d => Ok d
      end
  | Zstd => Err (Unsupported "Zstd compression not yet implemented")
  end.

(** One iteration of the loop of [decode_block]. *)
Definition decode_record (current_offset current_timestamp : Z) (cursor : bytes)
  : outcome Error (Record_ * bytes) :=
  '(offset_delta, cursor) ← decode_varint cursor;
  let current_offset := wrap 64 (current_offset + wrap 64 offset_delta) in
  '(timestamp_delta, cursor) ← decode_varint cursor;
  let current_timestamp := wrap 64 (current_timestamp + wrap 64 timestamp_delta) in
  '(key_len, cursor) ← decode_varint_u64 cursor;
  '(key, cursor) ←
    (if key_len >? 0 then
       if len cursor <? key_len
       then Err (InvalidSegment "Unexpected end of block reading key")
       else Ok (Some (take (Z.to_nat key_len) cursor), drop (Z.to_nat key_len) cursor)
     else Ok (None, cursor));
  '(value_len, cursor) ← decode_varint_u64 cursor;
  if len cursor <? value_len
  then Err (InvalidSegment "Unexpected end of block reading value")
  else Ok (mk_record current_offset current_timestamp key (take (Z.to_nat value_len) cursor),
           drop (Z.to_nat value_len) cursor).

(** [while cursor.has_remaining()]: every iteration consumes a byte, so the length of the
    block is fuel enough ([decode_block_total]). *)
Fixpoint decode_loop (fuel : nat) (current_offset current_timestamp : Z) (cursor : bytes)
  : outcome Error (list Record_) :=
  match cursor with
  | [] => Ok []
  | _ :: _ =>
      match fuel with
      | O => Panic
      | S fuel =>
          '(r, cursor) ← decode_record current_offset current_timestamp cursor;
          rs ← decode_loop fuel (r_offset r) (r_timestamp r) cursor;
          Ok (r :: rs)
      end
  end.

Definition decode_block (d : bytes) (base_offset base_timestamp : Z)
  : outcome Error (list Record_) :=
  decode_loop (length d) base_offset base_timestamp d.

Definition read_block (s : SegmentReader) (block_index : nat) : outcome Error (list Record_) :=
  match index s !! block_index with
  | None =>
      Err (InvalidSegment ("Block index " +:+ pretty block_index +:+ " out of range"))
  | Some entry =>
      let block_start := ie_file_position entry in
      let block_end :=
        match index s !! S block_index with
        | Some next => ie_file_position next
        | None => index_position s
        end in
      block_data ← or_panic (slice block_start block_end (data s));
      decompressed ← decompress_block s block_data;
      decode_block decompressed (ie_offset entry) (ie_timestamp entry)
  end.

(** [for i in from..self.index.len()]. *)
Fixpoint read_blocks (s : SegmentReader) (from n : nat) : outcome Error (list Record_) :=
  match n with
  | O => Ok []
  | S n =>
      block_records ← read_block s from;
      records ← read_blocks s (S from) n;
      Ok (block_records ++ records)
  end.

Definition read_all (s : SegmentReader) : outcome Error (list Record_) :=
  read_blocks s 0 (length (index s)).

(** The loop [while left < right]; [None] would be an index out of range, or a search that
    outlives its fuel ([search_spec] excludes both). *)
Fixpoint search (fuel : nat) (idx : list IndexEntry) (offset : Z) (left right : nat)
  : option nat :=
  if decide (left < right)%nat then
    match fuel with
    | O => None
    | S fuel =>
        let mid := ((left + right) / 2)%nat in
        e ← idx !! mid;
        if ie_offset e <=? offset then search fuel idx offset (S mid) right
        else search fuel idx offset left mid
    end
  else Some left.

Definition find_block_for_offset (s : SegmentReader) (offset : Z) : option nat :=
  match index s with
  | [] => Some 0%nat
  | _ :: _ =>
      left ← search (length (index s)) (index s) offset 0 (length (index s));
      Some (if decide (0 < left)%nat then left - 1 else 0)%nat
  end.

Definition read_from_offset (s : SegmentReader) (start_offset : Z)
  : outcome Error (list Record_) :=
  block_index ← or_panic (find_block_for_offset s start_offset);
  records ← read_blocks s block_index (length (index s) - block_index);
  Ok (filter (fun r => start_offset <= r_offset r) records).

End Reader.
End Reader.
