(* ===== verification/SegmentFacts.v ===== *)
(** * Segment files: correctness

    The layout of the writer's state ([layout]), the file it produces ([segment_file]) and
    what the reader makes of it. *)

From coqutil Require Import Byte.
From S2P Require Import Prelude Core Varint External Segment.

(** ** The record encoding *)

(** What a reader gets back: the format does not distinguish an empty key from no key. *)
Definition normalise (r : Record_) : Record_ :=
  mk_record (r_offset r) (r_timestamp r)
    (match r_key r with Some [] => None | k => k end) (r_value r).

Definition encode_key (k : option bytes) : bytes :=
  match k with Some key => encode_loop 10 (len key) ++ key | None => encode_loop 10 0 end.

(** The bytes of a record after a record at [last] (none: the first of its block). *)
Definition record_bytes (last : option Z) (last_ts : Z) (r : Record_) : bytes :=
  encode_loop 10 (zigzag (match last with
                          | Some l => swrap 64 (wrap 64 (r_offset r - l))
                          | None => 0
                          end))
  ++ encode_loop 10 (zigzag (swrap 64 (wrap 64 (r_timestamp r - last_ts))))
  ++ encode_key (r_key r)
  ++ encode_loop 10 (len (r_value r)) ++ r_value r.

Fixpoint records_bytes (last : option Z) (last_ts : Z) (rs : list Record_) : bytes :=
  match rs with
  | [] => []
  | r :: rs => record_bytes last last_ts r ++ records_bytes (Some (r_offset r)) (r_timestamp r) rs
  end.

Definition first_offset (rs : list Record_) : Z :=
  match rs with r :: _ => r_offset r | [] => 0 end.
Definition first_ts (rs : list Record_) : Z :=
  match rs with r :: _ => r_timestamp r | [] => 0 end.

(** A block: its deltas restart from its first record. *)
Definition block_bytes (rs : list Record_) : bytes := records_bytes None (first_ts rs) rs.

Lemma swrap_wrap w x : 0 < w -> swrap w (wrap w x) = swrap w x.
Proof. intros. unfold swrap, wrap. by rewrite Z.mod_mod by lia. Qed.

Lemma wrap_add_delta o l :
  in_u 64 o -> wrap 64 (l + wrap 64 (swrap 64 (wrap 64 (o - l)))) = o.
Proof.
  intros Ho. rewrite swrap_wrap by lia. unfold wrap at 2.
  unfold wrap at 1. rewrite Z.add_mod_idemp_r by lia. apply wrap_delta; [lia|done].
Qed.

Lemma len_in_u (l : bytes) : len l < 2 ^ 63 -> in_u 64 (len l).
Proof. unfold in_u. lia. Qed.

(** A length-prefixed field is read back. *)
Lemma decode_sized (v rest : bytes) :
  len v < 2 ^ 63 ->
  decode_varint_u64 (encode_loop 10 (len v) ++ v ++ rest) = Ok (len v, v ++ rest)
  /\ (len (v ++ rest) <? len v) = false
  /\ take (Z.to_nat (len v)) (v ++ rest) = v
  /\ drop (Z.to_nat (len v)) (v ++ rest) = rest.
Proof.
  intros Hv. rewrite Nat2Z.id, take_app_length, drop_app_length.
  split; [by apply decode_varint_u64_encode, len_in_u|].
  split; [|done]. apply Z.ltb_ge. rewrite length_app. lia.
Qed.

Lemma decode_record_encode last off ts r rest :
  record_ok r -> match last with Some l => l = off | None => r_offset r = off end ->
  Reader.decode_record off ts (record_bytes last ts r ++ rest) = Ok (normalise r, rest).
Proof.
  intros (Ho & Ht & Hv & Hk) Hl. unfold Reader.decode_record, record_bytes.
  rewrite <- !app_assoc, decode_varint_encode.
  2: { destruct last; [by apply swrap_in_i|unfold in_i; lia]. }
  cbn [mbind outcome_bind]. rewrite decode_varint_encode by by apply swrap_in_i.
  cbn [mbind outcome_bind]. rewrite wrap_add_delta by done.
  replace (wrap 64 (off + wrap 64 _)) with (r_offset r).
  2: { destruct last as [l|]; subst; [by rewrite wrap_add_delta|].
       change (wrap 64 0) with 0. rewrite Z.add_0_r. by rewrite wrap_small. }
  unfold normalise, encode_key.
  destruct (decode_sized (r_value r) rest Hv) as (V1 & V2 & V3 & V4).
  destruct (r_key r) as [k|].
  - rewrite <- app_assoc.
    destruct (decode_sized k (encode_loop 10 (len (r_value r)) ++ r_value r ++ rest) Hk)
      as (K1 & K2 & K3 & K4).
    rewrite K1. cbn [mbind outcome_bind]. rewrite K2, K3, K4.
    destruct k as [|b k]; [change (len [] >? 0) with false|
      change (len (b :: k) >? 0) with true]; cbn [mbind outcome_bind app];
      rewrite V1; cbn [mbind outcome_bind]; by rewrite V2, V3, V4.
  - rewrite decode_varint_u64_encode by (unfold in_u; lia).
    cbn [mbind outcome_bind Z.gtb Z.compare].
    rewrite V1; cbn [mbind outcome_bind]; by rewrite V2, V3, V4.
Qed.

Lemma record_bytes_nonempty last ts r : record_bytes last ts r <> [].
Proof.
  unfold record_bytes. intros H%app_eq_nil. destruct H as [H _].
  by apply encode_loop_nonempty in H.
Qed.

Lemma decode_loop_encode rs last off ts fuel :
  Forall record_ok rs ->
  match last with Some l => l = off | None => match rs with r :: _ => r_offset r = off | [] => True end end ->
  (length (records_bytes last ts rs) <= fuel)%nat ->
  Reader.decode_loop fuel off ts (records_bytes last ts rs) = Ok (map normalise rs).
Proof.
  revert last off ts fuel. induction rs as [|r rs IH]; intros last off ts fuel Hok Hl Hf.
  - by destruct fuel.
  - apply Forall_cons in Hok as [Hr Hrs]. cbn [records_bytes] in *.
    pose proof (record_bytes_nonempty last ts r) as Hne.
    pose proof (decode_record_encode last off ts r
                  (records_bytes (Some (r_offset r)) (r_timestamp r) rs) Hr) as Hdec.
    destruct (record_bytes last ts r) as [|b bs] eqn:Hb; [done|].
    rewrite length_app in Hf. simpl in Hf.
    destruct fuel as [|fuel]; [lia|]. cbn [app Reader.decode_loop].
    cbn [app] in Hdec. rewrite Hdec by by destruct last.
    cbn [mbind outcome_bind]. rewrite IH; [done|done|done|lia].
Qed.

Lemma decode_block_encode rs :
  Forall record_ok rs ->
  Reader.decode_block (block_bytes rs) (first_offset rs) (first_ts rs) = Ok (map normalise rs).
Proof.
  intros Hok. apply decode_loop_encode; [done| |done]. by destruct rs.
Qed.

(** The delta state after a list of records. *)
Definition last_off (last : option Z) (rs : list Record_) : option Z :=
  foldl (fun _ r => Some (r_offset r)) last rs.
Definition last_time (ts : Z) (rs : list Record_) : Z := foldl (fun _ r => r_timestamp r) ts rs.

Lemma records_bytes_snoc last ts rs r :
  records_bytes last ts (rs ++ [r]) =
  records_bytes last ts rs ++ record_bytes (last_off last rs) (last_time ts rs) r.
Proof.
  revert last ts. induction rs as [|r' rs IH]; intros last ts; cbn [records_bytes app].
  - apply app_nil_r.
  - rewrite IH. apply app_assoc.
Qed.

Lemma block_bytes_snoc rs r :
  rs <> [] ->
  block_bytes (rs ++ [r]) =
  block_bytes rs ++ record_bytes (last_off None rs) (last_time (first_ts rs) rs) r.
Proof.
  intros Hrs. unfold block_bytes. rewrite records_bytes_snoc.
  assert (first_ts (rs ++ [r]) = first_ts rs) as -> by (by destruct rs). done.
Qed.

Lemma block_bytes_nonempty rs : rs <> [] -> block_bytes rs <> [].
Proof.
  destruct rs as [|r rs]; [done|]. intros _ H%app_eq_nil. destruct H as [H _].
  by apply record_bytes_nonempty in H.
Qed.

Lemma last_off_snoc last rs r : last_off last (rs ++ [r]) = Some (r_offset r).
Proof. unfold last_off. by rewrite foldl_app. Qed.
Lemma last_time_snoc ts rs r : last_time ts (rs ++ [r]) = r_timestamp r.
Proof. unfold last_time. by rewrite foldl_app. Qed.

(** ** The writer's invariant *)

Section layout.
Context `{Codecs}.

Definition compress (c : Compression) (b : bytes) : bytes :=
  match c with Lz4 => lz4_compress b | _ => b end.

(** The index of a file whose first block starts at [pos]. *)
Fixpoint entries (c : Compression) (pos : Z) (cs : list (list Record_)) : list IndexEntry :=
  match cs with
  | [] => []
  | ch :: cs =>
      mk_entry (first_offset ch) pos (first_ts ch)
      :: entries c (pos + len (compress c (block_bytes ch))) cs
  end.

Definition block_of (c : Compression) (ch : list Record_) : bytes := compress c (block_bytes ch).

(** [chunks] are the records of the finished blocks and [cur] those of the open one; the
    open block is empty only before the first record. *)
Record layout (c : Compression) (w : Writer.SegmentWriter)
    (chunks : list (list Record_)) (cur : list Record_) : Prop := {
  l_compression : Writer.compression w = c;
  l_chunks : Forall (fun ch => ch <> []) chunks;
  l_cur : cur = [] -> chunks = [];
  l_blocks : Writer.blocks w = map (block_of c) chunks;
  l_current : Writer.current_block w = block_bytes cur;
  l_index : Writer.index w =
              entries c (Z.of_nat HEADER_SIZE) (chunks ++ match cur with [] => [] | _ => [cur] end);
  l_base : Writer.base_offset w = r_offset <$> head (concat chunks ++ cur);
  l_last : Writer.last_offset w = last_off None cur;
  l_last_ts : Writer.last_timestamp w = last_time (first_ts cur) cur;
  l_first_ts : Writer.first_timestamp w = r_timestamp <$> head (concat chunks ++ cur);
  l_count : Writer.record_count w = wrap 32 (len (concat chunks ++ cur))
}.

Lemma layout_new c : layout c (Writer.new c) [] [].
Proof. by split. Qed.

Lemma blocks_len_concat bs : Writer.blocks_len bs = len (concat bs).
Proof. induction bs; simpl; [done|]. rewrite length_app. lia. Qed.

Lemma entries_app c pos a b :
  entries c pos (a ++ b) =
  entries c pos a ++ entries c (pos + len (concat (map (block_of c) a))) b.
Proof.
  revert pos. induction a as [|x a IH]; intros pos; simpl.
  - by rewrite Z.add_0_r.
  - f_equal. rewrite IH, length_app. do 2 f_equal. unfold block_of at 2. lia.
Qed.

Lemma length_entries c pos cs : length (entries c pos cs) = length cs.
Proof. revert pos. induction cs; intros; simpl; [done|]. by f_equal. Qed.

Lemma encode_record_bytes w r :
  Writer.current_block (Writer.encode_record w r) =
  Writer.current_block w ++ record_bytes (Writer.last_offset w) (Writer.last_timestamp w) r.
Proof.
  unfold Writer.encode_record, record_bytes, encode_varint, encode_varint_u64, encode_key.
  cbn [Writer.current_block]. destruct (r_key r); by rewrite <- !app_assoc.
Qed.

(** The writer right after a flush of a non-empty block. *)
Definition flushed (w : Writer.SegmentWriter) : Writer.SegmentWriter :=
  Writer.mk_writer (Writer.compression w) []
    (Writer.blocks w ++ [compress (Writer.compression w) (Writer.current_block w)])
    (Writer.index w) (Writer.base_offset w) (Writer.last_offset w) (Writer.record_count w)
    (Writer.last_timestamp w) (Writer.first_timestamp w).

Lemma flush_block_spec w :
  Writer.compression w <> Zstd ->
  Writer.flush_block w =
  match Writer.current_block w with [] => (w, Ok ()) | _ => (flushed w, Ok ()) end.
Proof.
  intros Hc. unfold Writer.flush_block, flushed.
  destruct (Writer.current_block w); [done|]. by destruct (Writer.compression w).
Qed.

Lemma wrap_succ n : wrap 32 (wrap 32 n + 1) = wrap 32 (n + 1).
Proof. unfold wrap. by rewrite Z.add_mod_idemp_l by lia. Qed.

Lemma push_record_bytes w r :
  Writer.current_block (Writer.push_record w r) =
  Writer.current_block w ++ record_bytes (Writer.last_offset w) (Writer.last_timestamp w) r.
Proof. apply encode_record_bytes. Qed.

Lemma layout_base_offset c w chunks cur :
  layout c w chunks cur -> cur <> [] -> is_Some (Writer.base_offset w).
Proof. intros [] Hcur. rewrite l_base0. apply fmap_is_Some. by destruct (concat chunks), cur. Qed.

Lemma append_first c w r :
  layout c w [] [] ->
  exists w', Writer.append w r = (w', Ok ()) /\ layout c w' [] [r].
Proof.
  intros []. destruct w; simpl in *; subst. eexists. split; [reflexivity|].
  split; try done.
  rewrite push_record_bytes. unfold block_bytes. cbn [records_bytes first_ts].
  by rewrite app_nil_r.
Qed.

Lemma append_same_block c w r chunks cur :
  layout c w chunks cur -> cur <> [] ->
  len (Writer.current_block w) < BLOCK_SIZE_TARGET ->
  exists w', Writer.append w r = (w', Ok ()) /\ layout c w' chunks (cur ++ [r]).
Proof.
  intros HL Hcur Hlen. destruct (layout_base_offset _ _ _ _ HL Hcur) as [b Hb]. destruct HL.
  exists (Writer.push_record w r). split.
  - assert (Hne : Writer.current_block w <> [])
      by (rewrite l_current0; by apply block_bytes_nonempty).
    unfold Writer.append, Writer.start_segment. rewrite Hb.
    destruct (Z.geb_spec (len (Writer.current_block w)) BLOCK_SIZE_TARGET); [lia|].
    unfold Writer.start_block. by rewrite bool_decide_eq_false_2 by done.
  - split; try done.
    + by destruct cur.
    + rewrite push_record_bytes, l_current0, l_last0, l_last_ts0. by rewrite block_bytes_snoc.
    + cbn. rewrite l_index0. destruct cur as [|r0 cur]; [done|]. cbn [app].
      rewrite !entries_app. done.
    + cbn. rewrite l_base0. by destruct (concat chunks), cur.
    + by rewrite last_off_snoc.
    + by rewrite last_time_snoc.
    + cbn. rewrite l_first_ts0. by destruct (concat chunks), cur.
    + cbn. rewrite l_count0, wrap_succ. f_equal. rewrite !length_app. simpl. lia.
Qed.

Lemma append_next_block c w r chunks cur :
  c <> Zstd -> layout c w chunks cur -> cur <> [] ->
  BLOCK_SIZE_TARGET <= len (Writer.current_block w) ->
  exists w', Writer.append w r = (w', Ok ()) /\ layout c w' (chunks ++ [cur]) [r].
Proof.
  intros Hc HL Hcur Hlen. destruct (layout_base_offset _ _ _ _ HL Hcur) as [b Hb]. destruct HL.
  assert (Hne : Writer.current_block w <> [])
    by (rewrite l_current0; by apply block_bytes_nonempty).
  assert (Hst : Writer.append w r = (Writer.push_record (Writer.start_block (flushed w) r) r, Ok ())).
  { unfold Writer.append, Writer.start_segment. rewrite Hb.
    destruct (Z.geb_spec (len (Writer.current_block w)) BLOCK_SIZE_TARGET); [|lia].
    rewrite flush_block_spec by congruence. by destruct (Writer.current_block w). }
  eexists. split; [exact Hst|]. clear Hst.
  assert (Hi : Writer.index w = entries c (Z.of_nat HEADER_SIZE) (chunks ++ [cur]))
    by (rewrite l_index0; by destruct cur).
  unfold Writer.start_block. rewrite bool_decide_eq_true_2 by done.
  rewrite bool_decide_eq_true_2 by (cbn; by rewrite Hb).
  destruct (Z.ltb_spec (len (Writer.index (flushed w))) (len (Writer.blocks (flushed w)) + 1)).
  2: { cbn in *. rewrite Hi, l_blocks0, length_entries, !length_app, length_map in *.
       simpl in *. lia. }
  cbn [andb]. split; try done.
  - apply Forall_app. auto.
  - cbn. rewrite l_blocks0, l_current0, map_app. by subst c.
  - rewrite push_record_bytes. unfold block_bytes. cbn [records_bytes first_ts].
    by rewrite app_nil_r.
  - cbn. rewrite Hi, (entries_app _ _ (chunks ++ [cur]) [[r]]), blocks_len_concat.
    rewrite l_blocks0, l_current0, map_app, l_compression0. done.
  - cbn. rewrite l_base0. rewrite concat_app. cbn. rewrite app_nil_r.
    by destruct (concat chunks), cur.
  - cbn. rewrite l_first_ts0. rewrite concat_app. cbn. rewrite app_nil_r.
    by destruct (concat chunks), cur.
  - cbn. rewrite l_count0, wrap_succ. f_equal. rewrite concat_app, !length_app. simpl.
    rewrite length_app. simpl. lia.
Qed.

(** Appending a record never fails for a supported compression. *)
Lemma append_layout c w r chunks cur :
  c <> Zstd -> layout c w chunks cur ->
  exists w' chunks' cur',
    Writer.append w r = (w', Ok ()) /\ layout c w' chunks' cur' /\ cur' <> []
    /\ concat chunks' ++ cur' = concat chunks ++ cur ++ [r].
Proof.
  intros Hc HL. destruct (decide (cur = [])) as [->|Hcur].
  - assert (chunks = []) as -> by by apply (l_cur _ _ _ _ HL).
    destruct (append_first c w r HL) as (w' & ? & ?). exists w', [], [r]. done.
  - destruct (decide (len (Writer.current_block w) < BLOCK_SIZE_TARGET)).
    + destruct (append_same_block c w r chunks cur) as (w' & ? & ?); [done..|].
      exists w', chunks, (cur ++ [r]). split; [done|]. split; [done|]. by destruct cur.
    + destruct (append_next_block c w r chunks cur) as (w' & ? & ?); [done..|lia|].
      exists w', (chunks ++ [cur]), [r]. split; [done|]. split; [done|]. split; [done|].
      rewrite concat_app. cbn. by rewrite app_nil_r, <- app_assoc.
Qed.

Lemma append_all_layout c w rs chunks cur :
  c <> Zstd -> layout c w chunks cur ->
  exists w' chunks' cur',
    Writer.append_all w rs = Ok w' /\ layout c w' chunks' cur'
    /\ concat chunks' ++ cur' = concat chunks ++ cur ++ rs.
Proof.
  intros Hc. revert w chunks cur. induction rs as [|r rs IH]; intros w chunks cur HL.
  - exists w, chunks, cur. by rewrite app_nil_r.
  - destruct (append_layout c w r chunks cur Hc HL) as (w1 & ch1 & cur1 & Ha & HL1 & _ & Hcat).
    destruct (IH w1 ch1 cur1 HL1) as (w2 & ch2 & cur2 & Hb & HL2 & Hcat2).
    exists w2, ch2, cur2. cbn [Writer.append_all]. rewrite Ha. split; [done|]. split; [done|].
    rewrite Hcat2, app_assoc, Hcat, <- !app_assoc. done.
Qed.
End layout.

(** ** The file *)

Section file.
Context `{Hcodecs : Codecs}.

Definition header_bytes (c : Compression) (base last count nblocks : Z) : bytes :=
  SEGMENT_MAGIC ++ put_be 2 SEGMENT_VERSION ++ put_be 2 (compression_u16 c)
    ++ put_be 8 base ++ put_be 8 last ++ put_be 4 count ++ put_be 4 nblocks ++ zeros 32.

Definition index_bytes (idx : list IndexEntry) : bytes :=
  put_be 4 (len idx) ++ concat (map Writer.put_entry idx).

(** The file of the blocks [chunks]: header, blocks, index, footer. *)
Definition segment_file (c : Compression) (base last count : Z)
    (chunks : list (list Record_)) : bytes :=
  let body := header_bytes c base last count (len chunks) ++ concat (map (block_of c) chunks) in
  let covered := body ++ index_bytes (entries c (Z.of_nat HEADER_SIZE) chunks) in
  covered ++ put_be 8 (len body) ++ put_be 4 (crc32 covered) ++ SEGMENT_MAGIC ++ zeros 16.

Lemma finish_layout c w chunks cur base last :
  c <> Zstd -> layout c w chunks cur -> cur <> [] ->
  Writer.base_offset w = Some base -> Writer.last_offset w = Some last ->
  Writer.finish w =
    Ok (segment_file c base last (wrap 32 (len (concat chunks ++ cur))) (chunks ++ [cur])).
Proof.
  intros Hc HL Hcur Hb Hl. destruct HL.
  assert (Hne : Writer.current_block w <> [])
    by (rewrite l_current0; by apply block_bytes_nonempty).
  unfold Writer.finish. rewrite flush_block_spec by congruence.
  destruct (Writer.current_block w) as [|b0 cb] eqn:Hcb; [done|].
  cbn [mbind outcome_bind flushed Writer.base_offset Writer.last_offset].
  rewrite Hb, Hl. cbn [mbind outcome_bind ok_or Writer.blocks].
  unfold Writer.write_footer, Writer.write_index, Writer.write_header, segment_file,
    index_bytes, header_bytes.
  cbn [Writer.compression Writer.record_count Writer.blocks Writer.index app].
  assert (Hbl : Writer.blocks (flushed w) = map (block_of c) (chunks ++ [cur])).
  { cbn. rewrite map_app, l_blocks0, Hcb, l_current0. by subst c. }
  assert (Hi : Writer.index (flushed w) = entries c (Z.of_nat HEADER_SIZE) (chunks ++ [cur]))
    by (cbn; rewrite l_index0; by destruct cur).
  assert (Hn : Writer.record_count (flushed w) = wrap 32 (len (concat chunks ++ cur))) by done.
  assert (Hco : Writer.compression (flushed w) = c) by done.
  by rewrite Hbl, Hi, Hn, Hco, length_map.
Qed.

(** The values the header and index fields can hold. *)
Definition fits (c : Compression) (chunks : list (list Record_)) : Prop :=
  len chunks < 2 ^ 32 /\
  Z.of_nat HEADER_SIZE + len (concat (map (block_of c) chunks)) < 2 ^ 64 /\
  Forall (fun ch => Forall record_ok ch) chunks.

Lemma length_header_bytes c b l n m : length (header_bytes c b l n m) = HEADER_SIZE.
Proof. unfold header_bytes. by autorewrite with len. Qed.

Lemma slice_app a b d :
  Reader.slice (len a) (len a + len b) (a ++ b ++ d) = Some b.
Proof.
  unfold Reader.slice.
  rewrite (proj2 (Z.leb_le (len a) (len a + len b))) by lia.
  rewrite (proj2 (Z.leb_le _ (len (a ++ b ++ d)))) by (rewrite !length_app; lia).
  cbn [andb]. rewrite Nat2Z.id, drop_app_length.
  replace (Z.to_nat (len a + len b - len a)) with (length b) by lia.
  by rewrite take_app_length.
Qed.

Lemma slice_app_end a b : Reader.slice (len a) (len (a ++ b)) (a ++ b) = Some b.
Proof.
  pose proof (slice_app a b []) as Hs. rewrite app_nil_r in Hs. rewrite <- Hs.
  f_equal. rewrite length_app. lia.
Qed.

Lemma read_header_file c base last count nblocks rest :
  in_u 64 base -> in_u 64 last -> in_u 32 count -> in_u 32 nblocks ->
  Reader.read_header (header_bytes c base last count nblocks ++ rest) =
    Ok (mk_header SEGMENT_VERSION c base last count nblocks).
Proof.
  intros Hb Hl Hc Hn. unfold Reader.read_header.
  pose proof (slice_app [] (header_bytes c base last count nblocks) rest) as Hs.
  rewrite length_header_bytes in Hs. cbn [length] in Hs. rewrite Nat2Z.inj_0, Z.add_0_l in Hs.
  cbn [app] in Hs. rewrite Hs. cbn [or_panic mbind outcome_bind].
  unfold header_bytes. rewrite split_to_app by done.
  cbn [or_panic mbind outcome_bind]. rewrite bool_decide_eq_true_2 by done. cbn [negb].
  rewrite get_be_put by (unfold in_u, SEGMENT_VERSION; lia).
  cbn [or_panic mbind outcome_bind]. rewrite Z.eqb_refl. cbn [negb].
  rewrite get_be_put by (unfold in_u; destruct c; simpl; lia).
  cbn [or_panic mbind outcome_bind]. rewrite compression_try_from_u16.
  cbn [mbind outcome_bind]. rewrite get_be_put by exact Hb.
  cbn [or_panic mbind outcome_bind]. rewrite get_be_put by exact Hl.
  cbn [or_panic mbind outcome_bind]. rewrite get_be_put by exact Hc.
  cbn [or_panic mbind outcome_bind]. by rewrite get_be_put by exact Hn.
Qed.

Definition entry_ok (e : IndexEntry) : Prop :=
  in_u 64 (ie_offset e) /\ in_u 64 (ie_file_position e) /\ in_u 64 (ie_timestamp e).

Lemma first_ok ch :
  Forall record_ok ch -> in_u 64 (first_offset ch) /\ in_u 64 (first_ts ch).
Proof.
  intros Hok. destruct Hok as [|r ch Hr _]; [split; unfold in_u; simpl; lia|].
  destruct Hr as (? & ? & _). done.
Qed.

Lemma entries_ok c pos chunks :
  0 <= pos -> pos + len (concat (map (block_of c) chunks)) < 2 ^ 64 ->
  Forall (fun ch => Forall record_ok ch) chunks ->
  Forall entry_ok (entries c pos chunks).
Proof.
  revert pos. induction chunks as [|ch chunks IH]; intros pos Hp Hlt Hok; simpl; [constructor|].
  apply Forall_cons in Hok as [Hch Hok]. simpl in Hlt. rewrite length_app in Hlt.
  unfold block_of in Hlt at 1. constructor.
  - destruct (first_ok ch Hch). split_and!; simpl; [done|unfold in_u; lia|done].
  - apply IH; [lia|lia|done].
Qed.

Lemma read_entries_put idx rest :
  Forall entry_ok idx ->
  Reader.read_entries (length idx) (concat (map Writer.put_entry idx) ++ rest) = Ok idx.
Proof.
  induction 1 as [|[o p t] idx (Ho & Hp & Ht) _ IH]; [done|].
  cbn [length Reader.read_entries map concat]. unfold Writer.put_entry at 1.
  cbn [ie_offset ie_file_position ie_timestamp] in *. rewrite <- !app_assoc.
  rewrite get_be_put by exact Ho. cbn [or_panic mbind outcome_bind].
  rewrite get_be_put by exact Hp. cbn [or_panic mbind outcome_bind].
  rewrite get_be_put by exact Ht. cbn [or_panic mbind outcome_bind].
  rewrite IH. done.
Qed.

Lemma read_index_file body idx rest :
  Forall entry_ok idx -> len idx < 2 ^ 32 ->
  Reader.read_index (body ++ index_bytes idx ++ rest) (len body) = Ok idx.
Proof.
  intros Hok Hlen. unfold Reader.read_index. rewrite slice_app_end.
  cbn [or_panic mbind outcome_bind]. unfold index_bytes. rewrite <- app_assoc.
  rewrite get_be_put by (unfold in_u; lia). cbn [or_panic mbind outcome_bind].
  rewrite Nat2Z.id. by apply read_entries_put.
Qed.

Lemma read_footer_file `{!CodecLaws Hcodecs} covered pos :
  in_u 64 pos ->
  Reader.read_footer
    (covered ++ put_be 8 pos ++ put_be 4 (crc32 covered) ++ SEGMENT_MAGIC ++ zeros 16)
    (length covered) = Ok pos.
Proof.
  intros Hp. unfold Reader.read_footer. rewrite slice_app_end.
  cbn [or_panic mbind outcome_bind]. rewrite get_be_put by exact Hp.
  cbn [or_panic mbind outcome_bind]. rewrite get_be_put by apply crc32_u32.
  cbn [or_panic mbind outcome_bind]. rewrite take_app_length, Z.eqb_refl. cbn [negb].
  rewrite split_to_app by done. done.
Qed.

(** The reader opened on the file of [chunks]. *)
Definition reader_of (c : Compression) (base last count : Z) (chunks : list (list Record_))
  : Reader.SegmentReader :=
  Reader.mk_reader (segment_file c base last count chunks)
    (mk_header SEGMENT_VERSION c base last count (len chunks))
    (entries c (Z.of_nat HEADER_SIZE) chunks)
    (Z.of_nat HEADER_SIZE + len (concat (map (block_of c) chunks))).

Lemma new_file `{!CodecLaws Hcodecs} c base last count chunks :
  in_u 64 base -> in_u 64 last -> in_u 32 count -> fits c chunks ->
  Reader.new (segment_file c base last count chunks) = Ok (reader_of c base last count chunks).
Proof.
  intros Hb Hl Hc (Hn & Hsz & Hok). unfold Reader.new.
  set (hd := header_bytes c base last count (len chunks)).
  set (blks := concat (map (block_of c) chunks)).
  set (idx := entries c (Z.of_nat HEADER_SIZE) chunks).
  assert (Hbody : len (hd ++ blks) = Z.of_nat HEADER_SIZE + len blks).
  { unfold hd. rewrite length_app, length_header_bytes. lia. }
  assert (Hlen : length (segment_file c base last count chunks)
                 = (length ((hd ++ blks) ++ index_bytes idx) + FOOTER_SIZE)%nat).
  { unfold segment_file. rewrite length_app. by f_equal. }
  destruct (decide _) as [Hlt|_].
  { rewrite Hlen, !length_app in Hlt. unfold hd in Hlt. rewrite length_header_bytes in Hlt. lia. }
  assert (Hn' : in_u 32 (len chunks)) by (unfold in_u; lia).
  assert (Hh : Reader.read_header (segment_file c base last count chunks)
               = Ok (mk_header SEGMENT_VERSION c base last count (len chunks))).
  { unfold segment_file. rewrite <- !app_assoc. by apply read_header_file. }
  assert (Hf : Reader.read_footer (segment_file c base last count chunks)
                 (length ((hd ++ blks) ++ index_bytes idx)) = Ok (len (hd ++ blks))).
  { apply read_footer_file. unfold in_u in *. fold blks in Hsz. lia. }
  assert (Hx : Reader.read_index (segment_file c base last count chunks) (len (hd ++ blks))
               = Ok idx).
  { unfold segment_file. rewrite <- (app_assoc (_ ++ _)). apply read_index_file.
    - by apply entries_ok.
    - unfold idx. by rewrite length_entries. }
  rewrite Hlen, Nat.add_sub, Hh. cbn [mbind outcome_bind]. rewrite Hf.
  cbn [mbind outcome_bind]. rewrite Hx. cbn [mbind outcome_bind].
  unfold reader_of. by rewrite Hbody.
Qed.

(** *** Reading blocks *)

Lemma lookup_entries c pos pre ch post :
  entries c pos (pre ++ ch :: post) !! length pre =
  Some (mk_entry (first_offset ch) (pos + len (concat (map (block_of c) pre))) (first_ts ch)).
Proof.
  rewrite entries_app, lookup_app_r by (rewrite length_entries; lia).
  by rewrite length_entries, Nat.sub_diag.
Qed.

(** Where the block after [pre ++ [ch]] ends. *)
Lemma next_position c pos pre ch post fin :
  fin = pos + len (concat (map (block_of c) (pre ++ ch :: post))) ->
  match entries c pos (pre ++ ch :: post) !! S (length pre) with
  | Some next => ie_file_position next
  | None => fin
  end = pos + len (concat (map (block_of c) pre)) + len (block_of c ch).
Proof.
  intros ->. replace (S (length pre)) with (length (pre ++ [ch])) by len_lia.
  replace (pre ++ ch :: post) with ((pre ++ [ch]) ++ post) by by rewrite <- app_assoc.
  destruct post as [|ch' post].
  - rewrite lookup_ge_None_2 by (rewrite length_entries, app_nil_r; done).
    rewrite app_nil_r, map_app, concat_app. cbn. rewrite !length_app. simpl. lia.
  - rewrite lookup_entries. cbn. rewrite map_app, concat_app. cbn. rewrite !length_app.
    simpl. lia.
Qed.

Lemma decompress_block_of `{!CodecLaws Hcodecs} s c ch :
  c <> Zstd -> h_compression (Reader.header s) = c ->
  Reader.decompress_block s (block_of c ch) = Ok (block_bytes ch).
Proof.
  intros Hc Hs. unfold Reader.decompress_block, block_of. rewrite Hs.
  destruct c; [done| |done]. cbn [compress]. by rewrite lz4_decompress_compress.
Qed.

Lemma read_block_file `{!CodecLaws Hcodecs} c base last count pre ch post :
  c <> Zstd -> Forall record_ok ch ->
  Reader.read_block (reader_of c base last count (pre ++ ch :: post)) (length pre) =
  Ok (map normalise ch).
Proof.
  intros Hc Hok. unfold Reader.read_block.
  cbn [reader_of Reader.index Reader.index_position Reader.data].
  rewrite lookup_entries. rewrite (next_position c _ pre ch post) by done.
  cbn [ie_file_position ie_offset ie_timestamp].
  set (hd := header_bytes c base last count (len (pre ++ ch :: post))).
  set (bpre := concat (map (block_of c) pre)).
  assert (Hpos : Z.of_nat HEADER_SIZE + len bpre = len (hd ++ bpre)).
  { unfold hd. rewrite length_app, length_header_bytes. lia. }
  rewrite Hpos.
  assert (Hs : exists rest, segment_file c base last count (pre ++ ch :: post)
               = (hd ++ bpre) ++ block_of c ch ++ rest).
  { unfold segment_file. fold hd. rewrite map_app, concat_app. cbn [map concat].
    fold bpre. eexists. by rewrite <- !app_assoc. }
  destruct Hs as [rest ->]. rewrite slice_app. cbn [or_panic mbind outcome_bind].
  rewrite (decompress_block_of _ c) by done. cbn [mbind outcome_bind].
  by apply decode_block_encode.
Qed.

Lemma read_blocks_file `{!CodecLaws Hcodecs} c base last count pre post :
  c <> Zstd -> Forall (fun ch => Forall record_ok ch) post ->
  Reader.read_blocks (reader_of c base last count (pre ++ post)) (length pre) (length post) =
  Ok (map normalise (concat post)).
Proof.
  intros Hc. revert pre. induction post as [|ch post IH]; intros pre Hok; [done|].
  apply Forall_cons in Hok as [Hch Hok]. cbn [length Reader.read_blocks].
  rewrite read_block_file by done. cbn [mbind outcome_bind].
  specialize (IH (pre ++ [ch]) Hok). rewrite <- app_assoc in IH. cbn [app] in IH.
  replace (length (pre ++ [ch])) with (S (length pre)) in IH by len_lia.
  rewrite IH. cbn [mbind outcome_bind concat]. by rewrite map_app.
Qed.

(** *** Seeking *)

(** Offsets do not decrease along the index. *)
Definition index_sorted (idx : list IndexEntry) : Prop :=
  forall i j ei ej, (i <= j)%nat -> idx !! i = Some ei -> idx !! j = Some ej ->
  ie_offset ei <= ie_offset ej.

Lemma mid_bounds l r : (l < r)%nat -> (l <= (l + r) / 2 < r)%nat.
Proof.
  intros. split; [apply Nat.div_le_lower_bound; lia|apply Nat.Div0.div_lt_upper_bound; lia].
Qed.

(** The search ends within its fuel and splits the range at the target. *)
Lemma search_spec fuel idx o l r :
  index_sorted idx -> (l <= r)%nat -> (r <= length idx)%nat -> (r - l <= fuel)%nat ->
  exists k, Reader.search fuel idx o l r = Some k /\ (l <= k <= r)%nat
    /\ (forall i e, (l <= i < k)%nat -> idx !! i = Some e -> ie_offset e <= o)
    /\ (forall i e, (k <= i < r)%nat -> idx !! i = Some e -> o < ie_offset e).
Proof.
  intros Hsort. revert l r. induction fuel as [|fuel IH]; intros l r Hlr Hr Hf;
    cbn [Reader.search]; (destruct (decide (l < r)%nat) as [Hlt|]; [|exists l; split; [done|]; split; [lia|]; split; intros; lia]).
  - lia.
  - pose proof (mid_bounds l r Hlt) as Hm. set (mid := ((l + r) / 2)%nat) in *.
    destruct (lookup_lt_is_Some_2 idx mid) as [e He]; [lia|]. rewrite He.
    cbn [mbind option_bind]. destruct (Z.leb_spec (ie_offset e) o) as [Hle|Hgt].
    + destruct (IH (S mid) r) as (k & Hk & Hkr & Hlow & Hhigh); [lia..|].
      exists k. split; [done|]. split; [lia|]. split; [|intros i ei ?; apply Hhigh; lia].
      intros i ei Hi Hei. destruct (decide (i <= mid)%nat).
      * specialize (Hsort i mid ei e ltac:(done) Hei He). lia.
      * apply (Hlow i); [lia|done].
    + destruct (IH l mid) as (k & Hk & Hkr & Hlow & Hhigh); [lia..|].
      exists k. split; [done|]. split; [lia|]. split; [done|].
      intros i ei Hi Hei. destruct (decide (i < mid)%nat).
      * apply (Hhigh i); [lia|done].
      * specialize (Hsort mid i e ei ltac:(lia) He Hei). lia.
Qed.

(** Strictly increasing offsets, as the partition writer assigns them. *)
Definition increasing (rs : list Record_) : Prop :=
  StronglySorted (fun a b => r_offset a < r_offset b) rs.

Lemma increasing_app a b :
  increasing (a ++ b) ->
  increasing a /\ increasing b /\
  forall x y, x ∈ a -> y ∈ b -> r_offset x < r_offset y.
Proof.
  unfold increasing. induction a as [|x a IH]; cbn [app]; intros Hs.
  - split; [constructor|]. split; [done|]. intros ? ? Hin. by apply not_elem_of_nil in Hin.
  - apply StronglySorted_inv in Hs as [Hs Hall]. destruct (IH Hs) as (Ha & Hb & Hab).
    apply Forall_app in Hall as [Hxa Hxb]. split; [by constructor|]. split; [done|].
    intros u v Hu Hv. apply elem_of_cons in Hu as [->|Hu]; [|by apply Hab].
    by eapply (proj1 (Forall_forall _ _) Hxb).
Qed.

Lemma entries_lookup_inv c pos chunks i e :
  entries c pos chunks !! i = Some e ->
  exists ch, chunks !! i = Some ch /\ ie_offset e = first_offset ch.
Proof.
  revert pos i. induction chunks as [|ch chunks IH]; intros pos [|i] He; try done.
  - injection He as <-. by exists ch.
  - by apply (IH _ _ He).
Qed.

Lemma first_in ch : ch <> [] -> exists r, r ∈ ch /\ first_offset ch = r_offset r.
Proof. destruct ch as [|r ch]; [done|]. exists r. split; [left|done]. Qed.

Lemma increasing_chunks chunks i j ci cj x y :
  increasing (concat chunks) -> (i < j)%nat ->
  chunks !! i = Some ci -> chunks !! j = Some cj -> x ∈ ci -> y ∈ cj ->
  r_offset x < r_offset y.
Proof.
  intros Hinc Hij Hi Hj Hx Hy. rewrite <- (take_drop j chunks), concat_app in Hinc.
  apply increasing_app in Hinc as (_ & _ & Hab).
  apply Hab; apply list_elem_of_In, in_concat.
  - exists ci. split; apply list_elem_of_In; [|done].
    apply list_elem_of_lookup. exists i. by rewrite lookup_take_lt.
  - exists cj. split; apply list_elem_of_In; [|done].
    apply list_elem_of_lookup. exists 0%nat. by rewrite lookup_drop, Nat.add_0_r.
Qed.

Lemma entries_sorted c pos chunks :
  Forall (fun ch => ch <> []) chunks -> increasing (concat chunks) ->
  index_sorted (entries c pos chunks).
Proof.
  intros Hne Hinc i j ei ej Hij Hi Hj.
  apply entries_lookup_inv in Hi as (ci & Hi & ->).
  apply entries_lookup_inv in Hj as (cj & Hj & ->).
  destruct (decide (i = j)) as [->|]; [by simplify_eq|].
  destruct (first_in ci) as (x & Hx & ->); [by eapply Forall_lookup_1 in Hne|].
  destruct (first_in cj) as (y & Hy & ->); [by eapply Forall_lookup_1 in Hne|].
  apply Z.lt_le_incl. eapply (increasing_chunks chunks i j); eauto. lia.
Qed.

(** The block found for an offset: every record of an earlier block is below it. *)
Lemma find_block_spec c base last count chunks o :
  Forall (fun ch => ch <> []) chunks -> increasing (concat chunks) ->
  exists k, Reader.find_block_for_offset (reader_of c base last count chunks) o = Some k
    /\ (k <= length chunks)%nat
    /\ forall r, r ∈ concat (take k chunks) -> r_offset r < o.
Proof.
  intros Hne Hinc. unfold Reader.find_block_for_offset. cbn [reader_of Reader.index].
  pose proof (entries_sorted c (Z.of_nat HEADER_SIZE) chunks Hne Hinc) as Hsort.
  destruct (search_spec (length chunks) _ o 0 (length chunks) Hsort) as (k & Hk & Hkr & Hlow & _);
    [lia|rewrite length_entries; lia|lia|].
  destruct (entries c (Z.of_nat HEADER_SIZE) chunks) as [|e0 es] eqn:He.
  { exists 0%nat. split; [done|]. split; [lia|]. intros r Hr. by apply not_elem_of_nil in Hr. }
  rewrite <- He in *. rewrite length_entries, Hk. cbn [mbind option_bind].
  eexists. split; [done|]. destruct (decide (0 < k)%nat).
  2: { split; [lia|]. intros r Hr. by apply not_elem_of_nil in Hr. }
  split; [lia|]. intros r Hr. apply list_elem_of_In, in_concat in Hr as (ci & Hci & Hr).
  apply list_elem_of_In in Hci, Hr. apply list_elem_of_lookup in Hci as [i Hci].
  assert (Hi : (i < k - 1)%nat).
  { apply lookup_lt_Some in Hci. rewrite length_take in Hci. lia. }
  rewrite lookup_take_lt in Hci by lia.
  destruct (lookup_lt_is_Some_2 chunks (k - 1)) as [ck Hck]; [lia|].
  destruct (lookup_lt_is_Some_2 (entries c (Z.of_nat HEADER_SIZE) chunks) (k - 1)) as [e Hek].
  { rewrite length_entries. lia. }
  pose proof (Hlow (k - 1)%nat e ltac:(lia) Hek) as Hle.
  apply entries_lookup_inv in Hek as (ck' & Hck' & Heq). simplify_eq.
  destruct (first_in ck) as (y & Hy & Hfy); [by eapply Forall_lookup_1 in Hne|].
  rewrite Heq, Hfy in Hle. eapply Z.lt_le_trans; [|exact Hle].
  by eapply (increasing_chunks chunks i (k - 1)).
Qed.
End file.

(** ** Properties *)

Section properties.
Context `{Hcodecs : Codecs} `{!CodecLaws Hcodecs}.

Lemma length_chunks (chunks : list (list Record_)) :
  Forall (fun ch => ch <> []) chunks -> (length chunks <= length (concat chunks))%nat.
Proof.
  induction 1 as [|ch chunks Hch _ IH]; simpl; [lia|]. rewrite length_app.
  destruct ch; [done|]. simpl. lia.
Qed.

Lemma head_in_u rs r : Forall record_ok rs -> head rs = Some r -> in_u 64 (r_offset r).
Proof. intros Hok Hr. destruct Hok as [|? ? (Ho & _)]; [done|]. by injection Hr as <-. Qed.

Lemma Forall_concat_inv (A : Type) (P : A -> Prop) ls :
  Forall P (concat ls) -> Forall (Forall P) ls.
Proof. induction ls; simpl; [done|]. intros [? ?]%Forall_app. auto. Qed.

(** The writer succeeds on any records, and its output opens as the reader of some chunks
    of them. *)
Lemma write_open c rs :
  c <> Zstd -> rs <> [] -> Forall record_ok rs -> len rs < 2 ^ 32 ->
  exists w out chunks base last,
    Writer.append_all (Writer.new c) rs = Ok w /\ Writer.finish w = Ok out /\
    concat chunks = rs /\ Forall (fun ch => ch <> []) chunks /\
    Writer.base_offset w = Some base /\ Writer.last_offset w = Some last /\
    base = first_offset rs /\ last_off None rs = Some last /\
    out = segment_file c base last (len rs) chunks /\
    in_u 64 base /\ in_u 64 last /\ (length chunks <= length rs)%nat /\
    (len out < 2 ^ 63 -> Reader.new out = Ok (reader_of c base last (len rs) chunks)).
Proof.
  intros Hc Hne Hok Hlen.
  destruct (append_all_layout c (Writer.new c) rs [] []) as (w & chunks & cur & Ha & HL & Hcat);
    [done|apply layout_new|]. cbn [concat app] in Hcat.
  assert (Hcur : cur <> []).
  { intros ->. assert (chunks = []) as -> by by apply (l_cur _ _ _ _ HL). done. }
  pose proof (l_base _ _ _ _ HL) as Hbase. rewrite Hcat in Hbase.
  destruct rs as [|r0 rs]; [done|]. cbn in Hbase.
  destruct (last_off None cur) as [last|] eqn:Hlast.
  2: { destruct cur as [|r cur] using rev_ind; [done|]. by rewrite last_off_snoc in Hlast. }
  pose proof (l_last _ _ _ _ HL) as Hl. rewrite Hlast in Hl.
  exists w, (segment_file c (r_offset r0) last (wrap 32 (len (r0 :: rs))) (chunks ++ [cur])),
    (chunks ++ [cur]), (r_offset r0), last.
  assert (Hcat' : concat (chunks ++ [cur]) = r0 :: rs).
  { rewrite concat_app. cbn. by rewrite app_nil_r. }
  assert (Hfin := finish_layout c w chunks cur (r_offset r0) last Hc HL Hcur Hbase Hl).
  rewrite Hcat in Hfin.
  assert (Hne' : Forall (fun ch => ch <> []) (chunks ++ [cur])).
  { apply Forall_app. split; [apply HL|by constructor]. }
  assert (Hwr : wrap 32 (len (r0 :: rs)) = len (r0 :: rs)).
  { apply wrap_small. unfold in_u. lia. }
  assert (Hall : last_off None (r0 :: rs) = Some last).
  { rewrite <- Hcat. destruct cur as [|r cur' _] using rev_ind; [done|].
    rewrite app_assoc, last_off_snoc. by rewrite last_off_snoc in Hlast. }
  assert (Hlu : in_u 64 last).
  { destruct (r0 :: rs) as [|r rs' _] using rev_ind; [done|].
    rewrite last_off_snoc in Hall. injection Hall as <-.
    apply Forall_app in Hok as [_ Hr]. apply Forall_cons in Hr as [Hr _]. apply Hr. }
  assert (Hbu : in_u 64 (r_offset r0)) by by eapply head_in_u.
  pose proof (length_chunks _ Hne') as Hle. rewrite Hcat' in Hle.
  rewrite Hwr in Hfin |- *. split_and!; try done. intros Hout.
  apply new_file; [done|done|unfold in_u; lia|split_and!].
  - lia.
  - unfold segment_file in Hout. rewrite !length_app, length_header_bytes in Hout. lia.
  - apply Forall_concat_inv. by rewrite Hcat'.
Qed.

(** C1: writing any non-empty list of records with a supported compression never fails,
    and the reader opened on the produced file returns exactly those records, in order
    and with their absolute offsets and timestamps (an empty key reads back as no key),
    under a header with their first offset, last offset and number. *)
Theorem segment_roundtrip c rs :
  c <> Zstd -> rs <> [] -> Forall record_ok rs -> len rs < 2 ^ 32 ->
  exists w out,
    Writer.append_all (Writer.new c) rs = Ok w /\ Writer.finish w = Ok out /\
    (len out < 2 ^ 63 ->
     exists s, Reader.new out = Ok s /\ Reader.read_all s = Ok (map normalise rs) /\
       h_compression (Reader.header s) = c /\
       Some (h_base_offset (Reader.header s)) = r_offset <$> head rs /\
       Some (h_end_offset (Reader.header s)) = r_offset <$> list.last rs /\
       h_record_count (Reader.header s) = len rs).
Proof.
  intros Hc Hne Hok Hlen.
  destruct (write_open c rs Hc Hne Hok Hlen) as
    (w & out & chunks & base & last & Ha & Hf & Hcat & Hch & Hb & Hl & Hbase & Hlast & _ & _ & _ & _ & Hopen).
  exists w, out. split; [done|]. split; [done|]. intros Hout.
  exists (reader_of c base last (len rs) chunks). split; [by apply Hopen|].
  unfold Reader.read_all. cbn [reader_of Reader.index Reader.header h_compression
    h_base_offset h_end_offset h_record_count]. rewrite length_entries. split_and!; try done.
  - pose proof (read_blocks_file c base last (len rs) [] chunks Hc) as Hr.
    cbn [app length] in Hr. rewrite <- Hcat at 2. apply Hr.
    apply Forall_concat_inv. by rewrite Hcat.
  - subst base. by destruct rs.
  - rewrite <- Hlast. destruct rs as [|r rs' _] using rev_ind; [done|].
    by rewrite last_off_snoc, last_snoc.
Qed.

(** Seeking in a file of chunks. *)
Lemma read_from_file c base last count chunks start :
  c <> Zstd -> Forall (fun ch => ch <> []) chunks -> increasing (concat chunks) -> Forall record_ok (concat chunks) ->
  Reader.read_from_offset (reader_of c base last count chunks) start =
    Ok (filter (fun r => start <= r_offset r) (map normalise (concat chunks))).
Proof.
  intros Hc Hch Hinc Hok.
  destruct (find_block_spec c base last count chunks start Hch Hinc) as (k & Hk & Hkr & Hlow).
  unfold Reader.read_from_offset. rewrite Hk. cbn [or_panic mbind outcome_bind reader_of
    Reader.index]. rewrite length_entries.
  pose proof (read_blocks_file c base last count (take k chunks) (drop k chunks) Hc) as Hr.
  rewrite take_drop, length_take_le, length_drop in Hr by done. rewrite Hr.
  2: { apply Forall_drop. by apply Forall_concat_inv. }
  cbn [mbind outcome_bind]. f_equal.
  rewrite <- (take_drop k chunks) at 2. rewrite concat_app, map_app, filter_app.
  replace (filter _ (map normalise (concat (take k chunks)))) with (@nil Record_); [done|].
  symmetry. apply filter_none. intros r Hr'. apply list_elem_of_In, in_map_iff in Hr'.
  destruct Hr' as (r' & <- & Hr'). apply list_elem_of_In in Hr'. cbn.
  specialize (Hlow r' Hr'). lia.
Qed.

(** C2: on a file of records with increasing offsets, [read_from_offset] returns exactly
    the records at or after the requested offset: the block search ends, skips no block
    that holds such a record, and the filter drops the rest. *)
Theorem segment_read_from_offset c rs start :
  c <> Zstd -> rs <> [] -> Forall record_ok rs -> len rs < 2 ^ 32 -> increasing rs ->
  exists w out,
    Writer.append_all (Writer.new c) rs = Ok w /\ Writer.finish w = Ok out /\
    (len out < 2 ^ 63 ->
     exists s, Reader.new out = Ok s /\
       Reader.read_from_offset s start =
         Ok (filter (fun r => start <= r_offset r) (map normalise rs))).
Proof.
  intros Hc Hne Hok Hlen Hinc.
  destruct (write_open c rs Hc Hne Hok Hlen) as
    (w & out & chunks & base & last & Ha & Hf & Hcat & Hch & Hb & Hl & Hbase & Hlast & _ & _ & _ & _ & Hopen).
  exists w, out. split; [done|]. split; [done|]. intros Hout.
  exists (reader_of c base last (len rs) chunks). split; [by apply Hopen|].
  rewrite <- Hcat in Hinc, Hok |- *. by apply read_from_file.
Qed.

(** The checks of [SegmentReader::new], on the raw bytes. *)
Definition magic_ok (d : bytes) : Prop := take 4 d = SEGMENT_MAGIC.
Definition footer_of (d : bytes) : bytes := drop (length d - FOOTER_SIZE) d.
Definition covered_of (d : bytes) : bytes := take (length d - FOOTER_SIZE) d.
Definition crc_ok (d : bytes) : Prop :=
  le_combine (rev (take 4 (drop 8 (footer_of d)))) = crc32 (covered_of d).
Definition footer_magic_ok (d : bytes) : Prop := take 4 (drop 12 (footer_of d)) = SEGMENT_MAGIC.

Lemma get_be_some n buf :
  (n <= length buf)%nat -> get_be n buf = Some (le_combine (rev (take n buf)), drop n buf).
Proof. intros. unfold get_be. by rewrite decide_True. Qed.

Lemma split_to_some n buf :
  (n <= length buf)%nat -> split_to n buf = Some (take n buf, drop n buf).
Proof. intros. unfold split_to. by rewrite decide_True. Qed.

Lemma slice_drop n d :
  (n <= length d)%nat -> Reader.slice (Z.of_nat n) (len d) d = Some (drop n d).
Proof.
  intros Hn. pose proof (slice_app_end (take n d) (drop n d)) as Hs.
  by rewrite take_drop, length_take_le in Hs by done.
Qed.

Lemma slice_take n d :
  (n <= length d)%nat -> Reader.slice 0 (Z.of_nat n) d = Some (take n d).
Proof.
  intros Hn. pose proof (slice_app [] (take n d) (drop n d)) as Hs. cbn [app] in Hs.
  rewrite take_drop, length_take_le in Hs by done.
  change (len []) with 0 in Hs. by rewrite Z.add_0_l in Hs.
Qed.

Lemma read_header_cases d :
  (HEADER_SIZE <= length d)%nat ->
  match Reader.read_header d with
  | Ok h => magic_ok d /\ h_version h = SEGMENT_VERSION
  | Err _ => True
  | Panic => False
  end.
Proof.
  intros Hd. unfold Reader.read_header. rewrite slice_take by done.
  cbn [or_panic mbind outcome_bind].
  assert (Hl : length (take HEADER_SIZE d) = 64%nat) by by rewrite length_take_le.
  rewrite split_to_some by lia. cbn [or_panic mbind outcome_bind].
  case_bool_decide as Hm; [|done]. cbn [negb].
  rewrite get_be_some by (rewrite length_drop; lia). cbn [or_panic mbind outcome_bind].
  destruct (Z.eqb_spec (le_combine (rev (take 2 (drop 4 (take HEADER_SIZE d))))) SEGMENT_VERSION)
    as [Hv|]; [|done]. cbn [negb].
  rewrite get_be_some by (rewrite !length_drop; lia). cbn [or_panic mbind outcome_bind].
  destruct (compression_try_from _) as [c|e|] eqn:Hc; [|done|].
  2: { unfold compression_try_from in Hc. by repeat case_match. }
  cbn [mbind outcome_bind].
  do 4 (rewrite get_be_some by (rewrite !length_drop; lia); cbn [or_panic mbind outcome_bind]).
  split; [|done]. unfold magic_ok. by rewrite take_take in Hm.
Qed.

Lemma read_footer_cases d :
  (HEADER_SIZE + FOOTER_SIZE <= length d)%nat ->
  match Reader.read_footer d (length d - FOOTER_SIZE) with
  | Ok p => crc_ok d /\ footer_magic_ok d /\ in_u 64 p
  | Err e => (e = CrcMismatch /\ ~ crc_ok d) \/ (e = InvalidMagic /\ crc_ok d /\ ~ footer_magic_ok d)
  | Panic => False
  end.
Proof.
  intros Hd. unfold Reader.read_footer. rewrite slice_drop by lia.
  cbn [or_panic mbind outcome_bind].
  fold (footer_of d) (covered_of d). assert (Hl : length (footer_of d) = 32%nat).
  { unfold footer_of. rewrite length_drop. unfold FOOTER_SIZE in *. lia. }
  rewrite get_be_some by lia. cbn [or_panic mbind outcome_bind].
  rewrite get_be_some by (rewrite !length_drop; lia). cbn [or_panic mbind outcome_bind].
  destruct (Z.eqb_spec (le_combine (rev (take 4 (drop 8 (footer_of d)))))
              (crc32 (covered_of d))) as [Hc|Hc]; [|by left].
  cbn [negb]. rewrite split_to_some by (rewrite !length_drop; lia).
  cbn [or_panic mbind outcome_bind]. rewrite drop_drop.
  case_bool_decide as Hm; cbn [negb]; [|by right].
  split_and!; [done|done|]. pose proof (le_combine_bound (rev (take 8 (footer_of d)))) as Hb.
  rewrite length_rev, length_take_le in Hb by lia. exact Hb.
Qed.

(** Opening a file succeeds only when its size, both magics, the version and the
    checksum of everything before the footer are right; a file whose header parses and
    whose checksum does not match is refused with [CrcMismatch]; and the only files on which
    the reader panics pass all of these checks (their unchecked index pointer is bad). *)
Theorem segment_validation d :
  match Reader.new d with
  | Ok s =>
      (HEADER_SIZE + FOOTER_SIZE <= length d)%nat /\ magic_ok d /\ crc_ok d
      /\ footer_magic_ok d /\ Reader.data s = d
      /\ h_version (Reader.header s) = SEGMENT_VERSION
  | Err _ => True
  | Panic =>
      (HEADER_SIZE + FOOTER_SIZE <= length d)%nat /\ magic_ok d /\ crc_ok d
      /\ footer_magic_ok d
  end
  /\ ((HEADER_SIZE + FOOTER_SIZE <= length d)%nat -> forall h, Reader.read_header d = Ok h ->
      ~ crc_ok d -> Reader.new d = Err CrcMismatch).
Proof.
  unfold Reader.new. destruct (decide _) as [Hlt|Hge]; [split; [done|lia]|].
  pose proof (read_header_cases d ltac:(lia)) as Hh.
  pose proof (read_footer_cases d ltac:(lia)) as Hf.
  destruct (Reader.read_header d) as [h|e|]; [|by split|done].
  destruct Hh as [Hm Hv]. cbn [mbind outcome_bind].
  destruct (Reader.read_footer _ _) as [p|e|]; [|split; [done|]|done].
  - destruct Hf as (Hc & Hfm & _). cbn [mbind outcome_bind].
    destruct (Reader.read_index d p) as [idx|e|]; cbn [mbind outcome_bind];
      (split; [|done]); try done; split_and!; done || lia.
  - intros _ h' _ Hc. destruct Hf as [[-> _]|[-> Hf]]; [done|].
    by destruct Hf.
Qed.

Lemma footer_split covered tail :
  length tail = FOOTER_SIZE ->
  covered_of (covered ++ tail) = covered /\ footer_of (covered ++ tail) = tail.
Proof.
  intros Ht. unfold covered_of, footer_of.
  replace (length (covered ++ tail) - FOOTER_SIZE)%nat with (length covered)
    by (rewrite length_app; lia).
  by rewrite take_app_length, drop_app_length.
Qed.

Lemma new_bad_pointer c base last count chunks pos :
  in_u 64 base -> in_u 64 last -> in_u 32 count -> in_u 32 (len chunks) -> in_u 64 pos ->
  len (segment_file c base last count chunks) < pos ->
  let out := segment_file c base last count chunks in
  Reader.new (covered_of out ++ put_be 8 pos ++ drop 8 (footer_of out)) = Panic.
Proof.
  intros Hb Hl Hc Hn Hp Hgt out. unfold out, segment_file in *.
  set (hd := header_bytes c base last count (len chunks)) in *.
  set (covered := (hd ++ _) ++ index_bytes _) in *.
  set (tail := put_be 4 (crc32 covered) ++ SEGMENT_MAGIC ++ zeros 16) in *.
  destruct (footer_split covered (put_be 8 (len (hd ++ concat (map (block_of c) chunks))) ++ tail))
    as [-> ->]; [by unfold tail; autorewrite with len|].
  replace (drop 8 (put_be 8 _ ++ tail)) with tail
    by (rewrite drop_app_length'; [done|by rewrite length_put_be]).
  assert (Htail : length tail = 24%nat) by (unfold tail; by autorewrite with len).
  assert (Hcov : (HEADER_SIZE <= length covered)%nat).
  { unfold covered, hd. rewrite !length_app, length_header_bytes. lia. }
  unfold Reader.new. destruct (decide _) as [Hlt|_].
  { rewrite !length_app, length_put_be, Htail in Hlt. unfold FOOTER_SIZE in Hlt. lia. }
  assert (Hh : Reader.read_header (covered ++ put_be 8 pos ++ tail)
               = Ok (mk_header SEGMENT_VERSION c base last count (len chunks))).
  { unfold covered, hd. rewrite <- !app_assoc. by apply read_header_file. }
  rewrite Hh. cbn [mbind outcome_bind].
  replace (length (covered ++ put_be 8 pos ++ tail) - FOOTER_SIZE)%nat with (length covered)
    by (rewrite !length_app, length_put_be, Htail; unfold FOOTER_SIZE; lia).
  unfold tail. rewrite read_footer_file by done. cbn [mbind outcome_bind].
  unfold Reader.read_index, Reader.slice. fold tail.
  rewrite (proj2 (Z.leb_gt pos _)); [done|].
  rewrite !length_app, !length_put_be, Htail in *. lia.
Qed.

(** The index pointer of the footer is not covered by the checksum: a file of the
    writer in which that field is overwritten by a position beyond the end still passes
    every check, and opening it panics instead of returning an error. *)
Theorem segment_index_pointer_unprotected c rs :
  c <> Zstd -> rs <> [] -> Forall record_ok rs -> len rs < 2 ^ 32 ->
  exists w out,
    Writer.append_all (Writer.new c) rs = Ok w /\ Writer.finish w = Ok out /\
    (len out < 2 ^ 63 -> forall pos, in_u 64 pos -> len out < pos ->
     Reader.new (covered_of out ++ put_be 8 pos ++ drop 8 (footer_of out)) = Panic).
Proof.
  intros Hc Hne Hok Hlen.
  destruct (write_open c rs Hc Hne Hok Hlen) as
    (w & out & chunks & base & last & Ha & Hf & Hcat & Hch & Hb & Hl & Hbase & Hlast & -> & Hbu & Hlu & Hle & _).
  eexists w, _. split; [done|]. split; [done|]. intros _ pos Hpos Hgt.
  by apply new_bad_pointer; try done; unfold in_u; lia.
Qed.

(** One record of a block: it takes at least four bytes beyond its key and value. *)
Lemma decode_record_total o t cursor :
  match Reader.decode_record o t cursor with
  | Ok (r, rest) =>
      in_u 64 (r_offset r) /\ in_u 64 (r_timestamp r) /\
      match r_key r with Some k => len k | None => 0 end + len (r_value r) + 4 + len rest
        <= len cursor
  | Err _ => True
  | Panic => False
  end.
Proof.
  unfold Reader.decode_record. pose proof (decode_varint_cases cursor) as H1.
  destruct (decode_varint cursor) as [[d1 c1]|e|]; [|done|done]. cbn [mbind outcome_bind].
  pose proof (decode_varint_cases c1) as H2.
  destruct (decode_varint c1) as [[d2 c2]|e|]; [|done|done]. cbn [mbind outcome_bind].
  pose proof (decode_varint_u64_cases c2) as H3.
  destruct (decode_varint_u64 c2) as [[kl c3]|e|]; [|done|done]. cbn [mbind outcome_bind].
  destruct H3 as (Hkl & p3 & -> & Hp3). rewrite length_app in H2.
  set (key := if kl >? 0 then _ else _).
  assert (Hkey : match key with
                 | Ok (k, c4) => match k with Some k => len k | None => 0 end + len c4 <= len c3
                 | Err _ => True | Panic => False end).
  { unfold key. destruct (Z.gtb_spec kl 0); [|lia]. destruct (Z.ltb_spec (len c3) kl); [done|].
    rewrite length_take, length_drop. lia. }
  destruct key as [[k c4]|e|]; [|done|done]. cbn [mbind outcome_bind].
  pose proof (decode_varint_u64_cases c4) as H5.
  destruct (decode_varint_u64 c4) as [[vl c5]|e|]; [|done|done]. cbn [mbind outcome_bind].
  destruct H5 as (Hvl & p5 & -> & Hp5). rewrite length_app in Hkey.
  destruct (Z.ltb_spec (len c5) vl); [done|]. cbn [r_offset r_timestamp r_key r_value].
  split; [apply wrap_in_u; lia|]. split; [apply wrap_in_u; lia|].
  rewrite length_take, length_drop. unfold in_u in Hvl. lia.
Qed.

Lemma decode_loop_total_fuel fuel o t cursor :
  (length cursor <= fuel)%nat ->
  match Reader.decode_loop fuel o t cursor with
  | Ok rs =>
      Forall (fun r => in_u 64 (r_offset r) /\ in_u 64 (r_timestamp r)) rs /\
      4 * len rs <= len cursor
  | Err _ => True
  | Panic => False
  end.
Proof.
  revert o t cursor. induction fuel as [|fuel IH]; intros o t [|b cursor] Hf; simpl length in Hf;
    cbn [Reader.decode_loop]; try (by split); [lia|].
  pose proof (decode_record_total o t (b :: cursor)) as Hd.
  destruct (Reader.decode_record o t (b :: cursor)) as [[r rest]|e|]; [|done|done].
  cbn [mbind outcome_bind]. destruct Hd as (Ho & Ht & Hlen).
  assert (Hkl : 0 <= match r_key r with Some k => len k | None => 0 end) by (destruct (r_key r); lia).
  simpl length in *. specialize (IH (r_offset r) (r_timestamp r) rest ltac:(lia)).
  destruct (Reader.decode_loop fuel _ _ rest) as [rs|e|]; [|done|done].
  cbn [mbind outcome_bind]. destruct IH as [Hall H4]. split; [by constructor|]. simpl length. lia.
Qed.

(** Decoding a block is total: whatever its bytes, the loop ends with 64-bit offsets and
    timestamps and at most a quarter as many records as bytes, or with an error; no slice is
    taken out of range and the fuel is never exhausted. *)
Theorem decode_block_total d base_offset base_timestamp :
  match Reader.decode_block d base_offset base_timestamp with
  | Ok rs =>
      Forall (fun r => in_u 64 (r_offset r) /\ in_u 64 (r_timestamp r)) rs /\
      4 * len rs <= len d
  | Err _ => True
  | Panic => False
  end.
Proof. by apply decode_loop_total_fuel. Qed.

Lemma push_record_nonempty w r : Writer.current_block (Writer.push_record w r) <> [].
Proof.
  rewrite push_record_bytes. intros [_ H]%app_eq_nil. by apply record_bytes_nonempty in H.
Qed.

Lemma start_block_compression w r :
  Writer.compression (Writer.start_block w r) = Writer.compression w.
Proof. unfold Writer.start_block. by destruct (_ && _). Qed.

Lemma start_segment_compression w r :
  Writer.compression (Writer.start_segment w r) = Writer.compression w
  /\ Writer.current_block (Writer.start_segment w r) = Writer.current_block w.
Proof. unfold Writer.start_segment. by destruct (Writer.base_offset w). Qed.

Lemma append_zstd w r w' :
  Writer.compression w = Zstd -> Writer.append w r = (w', Ok ()) ->
  Writer.compression w' = Zstd /\ Writer.current_block w' <> [].
Proof.
  intros Hz. unfold Writer.append. destruct (start_segment_compression w r) as [Hc _].
  set (w1 := Writer.start_segment w r) in *.
  assert (Hf : forall w2 res, (if len (Writer.current_block w1) >=? BLOCK_SIZE_TARGET
                               then Writer.flush_block w1 else (w1, Ok ())) = (w2, res) -> w2 = w1).
  { intros w2 res. destruct (_ >=? _); [|congruence]. unfold Writer.flush_block.
    rewrite Hc, Hz. destruct (Writer.current_block w1); congruence. }
  destruct (if _ >=? _ then _ else _) as [w2 [[]|e|]]; [|congruence|congruence].
  rewrite (Hf w2 _ eq_refl). intros [= <-]. split.
  - cbn. by rewrite start_block_compression, Hc.
  - apply push_record_nonempty.
Qed.

Lemma append_all_zstd rs r w w' :
  Writer.compression w = Zstd -> Writer.append_all w (r :: rs) = Ok w' ->
  Writer.compression w' = Zstd /\ Writer.current_block w' <> [].
Proof.
  revert r w. induction rs as [|r2 rs IH]; intros r w Hz; cbn [Writer.append_all];
    destruct (Writer.append w r) as [w1 [[]|e|]] eqn:Ha; try discriminate;
    destruct (append_zstd w r w1 Hz Ha) as [Hz1 Hne].
  - by intros [= <-].
  - intros H. by apply (IH r2 w1).
Qed.

(** The error paths of the writer: an empty segment cannot be finished; a Zstd segment
    accepts records until its first block is full, is then refused without any change to
    the writer, and can never be finished. *)
Theorem segment_writer_errors :
  (forall c, Writer.finish (Writer.new c) = Err (InvalidSegment "No records written")) /\
  (forall r rs w, Writer.append_all (Writer.new Zstd) (r :: rs) = Ok w ->
     Writer.finish w = Err (Unsupported "Zstd compression not yet implemented")) /\
  (forall w r, Writer.compression w = Zstd -> is_Some (Writer.base_offset w) ->
     BLOCK_SIZE_TARGET <= len (Writer.current_block w) ->
     Writer.append w r = (w, Err (Unsupported "Zstd compression not yet implemented"))).
Proof.
  split; [by intros []|]. split.
  - intros r rs w Ha. destruct (append_all_zstd rs r (Writer.new Zstd) w eq_refl Ha) as [Hz Hne].
    unfold Writer.finish, Writer.flush_block. rewrite Hz.
    by destruct (Writer.current_block w).
  - intros w r Hz [b Hb] Hfull. unfold Writer.append, Writer.start_segment. rewrite Hb.
    destruct (Z.geb_spec (len (Writer.current_block w)) BLOCK_SIZE_TARGET); [|lia].
    unfold Writer.flush_block. rewrite Hz.
    destruct (Writer.current_block w); [unfold BLOCK_SIZE_TARGET in Hfull; simpl in Hfull; lia|done].
Qed.

Lemma last_time_eq ts rs : last_time ts rs = match list.last rs with Some r => r_timestamp r | None => ts end.
Proof.
  destruct rs as [|r rs _] using rev_ind; [done|]. by rewrite last_time_snoc, last_snoc.
Qed.

(** the timestamp range a writer reports is that of its first and last records, so it
    bounds all of them when they were appended in timestamp order. *)
Theorem segment_timestamp_range c rs w :
  c <> Zstd -> rs <> [] -> len rs < 2 ^ 32 -> Writer.append_all (Writer.new c) rs = Ok w ->
  Writer.min_timestamp w = r_timestamp <$> head rs /\
  Writer.max_timestamp w = r_timestamp <$> list.last rs /\
  (StronglySorted (fun a b => r_timestamp a <= r_timestamp b) rs ->
   exists lo hi, Writer.min_timestamp w = Some lo /\ Writer.max_timestamp w = Some hi /\
     Forall (fun r => lo <= r_timestamp r <= hi) rs).
Proof.
  intros Hc Hne Hlen Ha.
  destruct (append_all_layout c (Writer.new c) rs [] []) as (w' & chunks & cur & Ha' & HL & Hcat);
    [done|apply layout_new|]. cbn [concat app] in Hcat. rewrite Ha in Ha'. injection Ha' as <-.
  assert (Hcur : cur <> []).
  { intros ->. assert (chunks = []) as -> by by apply (l_cur _ _ _ _ HL). done. }
  assert (Hmin : Writer.min_timestamp w = r_timestamp <$> head rs).
  { unfold Writer.min_timestamp. by rewrite (l_first_ts _ _ _ _ HL), Hcat. }
  assert (Hmax : Writer.max_timestamp w = r_timestamp <$> list.last rs).
  { unfold Writer.max_timestamp. rewrite (l_count _ _ _ _ HL), Hcat, wrap_small by (unfold in_u; lia).
    destruct (Z.gtb_spec (len rs) 0); [|destruct rs; [done|simpl in *; lia]].
    rewrite (l_last_ts _ _ _ _ HL), last_time_eq, <- Hcat.
    destruct cur as [|r cur' _] using rev_ind; [done|]. by rewrite app_assoc, !last_snoc. }
  split; [done|]. split; [done|]. intros Hs. rewrite Hmin, Hmax.
  destruct rs as [|r0 rs']; [done|]. destruct (list.last (r0 :: rs')) as [rl|] eqn:Hl.
  2: { by apply last_None in Hl. }
  exists (r_timestamp r0), (r_timestamp rl). split; [done|]. split; [done|].
  apply last_Some in Hl as [pre Hpre].
  apply Forall_forall. intros r Hr. split.
  - apply StronglySorted_inv in Hs as [_ Hs]. apply elem_of_cons in Hr as [->|Hr]; [lia|].
    by apply (proj1 (Forall_forall _ _) Hs).
  - rewrite Hpre in Hs, Hr. clear -Hs Hr. induction pre as [|x pre IH]; cbn [app] in *.
    + apply list_elem_of_singleton in Hr as ->. lia.
    + apply StronglySorted_inv in Hs as [Hs Hall]. apply elem_of_cons in Hr as [->|Hr].
      * apply Forall_app in Hall as [_ Hall]. by apply Forall_cons in Hall as [? _].
      * by apply IH.
Qed.
End properties.

(** ** Witnesses *)

Definition sample : list Record_ :=
  [mk_record 100 5000 (Some [Init.Byte.x6b]) [Init.Byte.x01; Init.Byte.x02];
   mk_record 101 5007 None [Init.Byte.x03];
   mk_record 150 4990 (Some []) []].

Lemma sample_ok : Forall record_ok sample.
Proof. repeat constructor; vm_compute; congruence. Qed.

(** Runs the writer in the hypotheses of a witness. *)
Ltac run_writer Ha Hf :=
  vm_compute in Ha; injection Ha as <-; vm_compute in Hf; injection Hf as <-.

Lemma segment_roundtrip_witness :
  exists out s, Reader.new out = Ok s /\ Reader.read_all s = Ok (map normalise sample).
Proof.
  destruct (segment_roundtrip Lz4 sample) as (w & out & Ha & Hf & Hr);
    [done|done|apply sample_ok|by vm_compute|].
  run_writer Ha Hf. destruct (Hr ltac:(by vm_compute)) as (s & Hn & Hs & _). eauto.
Defined.

Lemma segment_read_from_offset_witness :
  exists out s, Reader.new out = Ok s /\
    Reader.read_from_offset s 101 =
      Ok [mk_record 101 5007 None [Init.Byte.x03]; mk_record 150 4990 None []].
Proof.
  destruct (segment_read_from_offset CNone sample 101) as (w & out & Ha & Hf & Hr);
    [done|done|apply sample_ok|by vm_compute|repeat constructor; by vm_compute|].
  run_writer Ha Hf. destruct (Hr ltac:(by vm_compute)) as (s & Hn & Hs). eauto.
Defined.

Lemma segment_validation_witness :
  Reader.new (SEGMENT_MAGIC ++ put_be 2 1 ++ put_be 2 0 ++ zeros 56 ++ zeros 32) = Err CrcMismatch.
Proof.
  eapply (proj2 (segment_validation _)); [vm_compute; lia|reflexivity|].
  unfold crc_ok. vm_compute. discriminate.
Defined.

Lemma segment_index_pointer_unprotected_witness :
  exists out, Reader.new (covered_of out ++ put_be 8 4096 ++ drop 8 (footer_of out)) = Panic.
Proof.
  destruct (segment_index_pointer_unprotected CNone sample) as (w & out & Ha & Hf & Hr);
    [done|done|apply sample_ok|by vm_compute|].
  run_writer Ha Hf. eexists. apply Hr; by vm_compute.
Defined.

Lemma segment_writer_errors_witness :
  exists w, Writer.append_all (Writer.new Zstd) sample = Ok w /\
    Writer.finish w = Err (Unsupported "Zstd compression not yet implemented").
Proof.
  destruct (Writer.append_all (Writer.new Zstd) sample) as [w|e|] eqn:Hw;
    [|vm_compute in Hw; discriminate Hw|vm_compute in Hw; discriminate Hw].
  exists w. split; [done|]. exact (proj1 (proj2 segment_writer_errors) _ _ w Hw).
Defined.

Lemma segment_timestamp_range_witness :
  exists w, Writer.append_all (Writer.new Lz4) sample = Ok w /\
    Writer.min_timestamp w = Some 5000 /\ Writer.max_timestamp w = Some 4990.
Proof.
  destruct (Writer.append_all (Writer.new Lz4) sample) as [w|e|] eqn:Hw;
    [|vm_compute in Hw; discriminate Hw|vm_compute in Hw; discriminate Hw].
  exists w. split; [done|].
  destruct (segment_timestamp_range Lz4 sample w) as (-> & -> & _);
    [done|done|by vm_compute|done|]. by split.
Defined.
