(* ===== verification/Wal.v ===== *)
(** * Write-ahead log (crates/streamhouse-storage/src/wal.rs)

    [Format] is the record format and the file parser, [Files] the selection of stale files
    by name, [Task] the writer task that owns the file and commits in groups. *)

From coqutil Require Import Byte.
From stdpp Require Import pretty.
From S2P Require Import Prelude External.

(** ** Record format *)

Module Format.
Section Format.
Context `{Codecs}.

Record WALRecord : Type := mk_wal_record {
  w_key : option bytes;
  w_value : bytes;
  w_timestamp : Z
}.

(** [key.map(|k| k.len()).unwrap_or(0) as u32] and the bytes of the key. *)
Definition key_bytes (key : option bytes) : bytes := default [] key.

(** What follows the checksum; the hasher is fed the same bytes piece by piece. *)
Definition payload (key : option bytes) (value : bytes) (timestamp : Z) : bytes :=
  put_le 8 timestamp
  ++ put_le 4 (wrap 32 (len (key_bytes key))) ++ key_bytes key
  ++ put_le 4 (wrap 32 (len value)) ++ value.

Definition serialize_record (key : option bytes) (value : bytes) (timestamp : Z) : bytes :=
  let key_size := wrap 32 (len (key_bytes key)) in
  let value_size := wrap 32 (len value) in
  let record_size := wrap 32 (4 + 8 + 4 + key_size + 4 + value_size) in
  let checksum := crc32 (payload key value timestamp) in
  put_le 4 record_size ++ put_le 4 checksum ++ payload key value timestamp.

(** The bytes [append_batch] sends: all the records under one timestamp. *)
Definition serialize_batch (records : list (option bytes * bytes)) (timestamp : Z) : bytes :=
  concat (map (fun '(k, v) => serialize_record k v timestamp) records).

(** [&buf[cursor..cursor + n]] of the record buffer: panics when out of range. *)
Definition take_field (n : Z) (cursor : bytes) : outcome () (bytes * bytes) :=
  or_panic (split_to (Z.to_nat n) cursor).

(** The fields of a record whose checksum is right. *)
Definition parse_payload (cursor : bytes) : outcome () WALRecord :=
  '(timestamp, cursor) ← or_panic (get_le 8 cursor);
  '(key_size, cursor) ← or_panic (get_le 4 cursor);
  '(key, cursor) ←
    (if key_size >? 0
     then '(k, cursor) ← take_field key_size cursor; Ok (Some k, cursor)
     else Ok (None, cursor));
  '(value_size, cursor) ← or_panic (get_le 4 cursor);
  '(value, cursor) ← take_field value_size cursor;
  Ok (mk_wal_record key value timestamp).

(** One record buffer: [None] when the checksum does not match. *)
Definition parse_record (record_buf : bytes) : outcome () (option WALRecord) :=
  '(stored_crc, cursor) ← or_panic (get_le 4 record_buf);
  if negb (stored_crc =? crc32 cursor) then Ok None
  else r ← parse_payload cursor; Ok (Some r).

(** [read_wal_file] on the contents of the file: it stops at a partial size or record, and
    skips the records whose checksum is wrong.  Every iteration consumes the four bytes of a
    size, so the length of the file is fuel enough. *)
Fixpoint read_loop (fuel : nat) (file : bytes) : outcome () (list WALRecord) :=
  match fuel with
  | O => Ok []
  | S fuel =>
      match get_le 4 file with
      | None => Ok []
      | Some (record_size, file) =>
          match split_to (Z.to_nat record_size) file with
          | None => Ok []
          | Some (record_buf, file) =>
              r ← parse_record record_buf;
              rs ← read_loop fuel file;
              Ok (match r with Some r => r :: rs | None => rs end)
          end
      end
  end.

Definition read_wal_file (file : bytes) : outcome () (list WALRecord) :=
  read_loop (S (length file)) file.

End Format.
End Format.

(** ** Files of a partition *)

Module Files.

(** [WAL::open]: the name of the file. *)
Definition wal_filename (topic : string) (partition_id : N) (agent_id : option string) : string :=
  match agent_id with
  | Some a => topic +:+ "-" +:+ pretty partition_id +:+ "-" +:+ a +:+ ".wal"
  | None => topic +:+ "-" +:+ pretty partition_id +:+ ".wal"
  end.

(** The tests [recover_partition] makes on a file name. *)
Definition is_stale (topic : string) (partition_id : N) (own_agent_id name : string) : bool :=
  let prefix := topic +:+ "-" +:+ pretty partition_id in
  let own_filename := wal_filename topic partition_id (Some own_agent_id) in
  match strip_prefix prefix name with
  | None => false
  | Some after_prefix =>
      ends_with ".wal" name && negb (bool_decide (name = own_filename))
      && (bool_decide (after_prefix = ".wal") || bool_decide (is_Some (strip_prefix "-" after_prefix)))
  end.

(** A directory entry: a name, and the contents when the file can be read. *)
Abbreviation dir_entry := (string * option bytes)%type.

Section recover.
Context `{Codecs}.

(** [recover_partition] over the entries of the directory in the order it lists them: the
    records found, and the files they came from; an unreadable file is skipped. *)
Fixpoint recover_partition (topic : string) (partition_id : N) (own_agent_id : string)
    (entries : list dir_entry) : outcome () (list Format.WALRecord * list string) :=
  match entries with
  | [] => Ok ([], [])
  | (name, contents) :: entries =>
      if is_stale topic partition_id own_agent_id name then
        match contents with
        | None => recover_partition topic partition_id own_agent_id entries
        | Some file =>
            records ← Format.read_wal_file file;
            '(all_records, stale_files) ← recover_partition topic partition_id own_agent_id entries;
            Ok (records ++ all_records, name :: stale_files)
        end
      else recover_partition topic partition_id own_agent_id entries
  end.
End recover.

End Files.

(** ** The writer task *)

Module Task.

(** The command channel; a waiter is the identity of the oneshot sender. *)
Inductive WalCmd : Type :=
| Append (data : bytes) (count : Z)
| Flush (waiter : nat)
| Truncate (waiter : nat)
| QueryPending (waiter : nat).

(** Messages sent on the oneshot channels. *)
Inductive reply : Type :=
| Flushed (waiter : nat) (r : () + string)
| Truncated (waiter : nat) (r : () + string)
| Pending (waiter : nat) (count bytes : Z).

(** How the file system treats the calls of one flush or truncation: success, a failed
    write of which [n] bytes reached the file (a failed seek or [set_len] for a
    truncation), or a failed [sync_data]. *)
Inductive io : Type := IoOk | WriteErr (n : nat) (e : string) | SyncErr (e : string).

(** The contents of the file, and what of it the disk is known to hold: the contents at the last [sync_data]. *)
Record WalWriter : Type := mk_wal_writer {
  file : bytes;
  batch : bytes;
  batch_count : Z;
  current_size : Z;
  batch_max_records : Z;
  batch_max_bytes : Z;
  sync_on_flush : bool;
  synced : bytes
}.

Definition set_state (w : WalWriter) (f b : bytes) (c s : Z) : WalWriter :=
  mk_wal_writer f b c s (batch_max_records w) (batch_max_bytes w) (sync_on_flush w) (synced w).

(** [sync_data], where the policy asks for it. *)
Definition maybe_sync (w : WalWriter) : WalWriter :=
  mk_wal_writer (file w) (batch w) (batch_count w) (current_size w) (batch_max_records w) (batch_max_bytes w) (sync_on_flush w)
    (if sync_on_flush w then file w else synced w).

(** [WAL::open] on an existing file, for the batching configuration. *)
Definition open (contents : bytes) (batch_enabled : bool) (max_records max_bytes : Z)
    (sync_never : bool) : WalWriter :=
  mk_wal_writer contents [] 0 (len contents)
    (if batch_enabled then max_records else 1) (if batch_enabled then max_bytes else 0)
    (negb sync_never) contents.

(** [do_flush]: the batch is taken before the write, so a failed write loses it. *)
Definition do_flush (w : WalWriter) (i : io) : WalWriter * (() + string) :=
  match batch w with
  | [] => (w, inl ())
  | _ :: _ =>
      let data := batch w in
      match i with
      | WriteErr n e => (set_state w (file w ++ take n data) [] 0 (current_size w), inr e)
      | SyncErr e =>
          if sync_on_flush w
          then (set_state w (file w ++ data) [] 0 (current_size w), inr e)
          else (set_state w (file w ++ data) [] 0 (current_size w + len data), inl ())
      | IoOk => (maybe_sync (set_state w (file w ++ data) [] 0 (current_size w + len data)), inl ())
      end
  end.

Definition do_truncate (w : WalWriter) (i : io) : WalWriter * (() + string) :=
  match i with
  | WriteErr _ e => (set_state w (file w) [] 0 (current_size w), inr e)
  | SyncErr e =>
      if sync_on_flush w then (set_state w [] [] 0 (current_size w), inr e)
      else (set_state w [] [] 0 0, inl ())
  | IoOk => (maybe_sync (set_state w [] [] 0 0), inl ())
  end.

(** What [process_cmd] accumulates over the commands of a round. *)
Record round : Type := mk_round {
  r_writer : WalWriter;
  flush_waiters : list nat;
  queries : list nat;
  truncate_waiter : option nat
}.

Definition process_cmd (r : round) (cmd : WalCmd) : round :=
  let w := r_writer r in
  match cmd with
  | Append data count =>
      mk_round (set_state w (file w) (batch w ++ data) (batch_count w + count) (current_size w))
        (flush_waiters r) (queries r) (truncate_waiter r)
  | Flush tx => mk_round w (flush_waiters r ++ [tx]) (queries r) (truncate_waiter r)
  | QueryPending tx => mk_round w (flush_waiters r) (queries r ++ [tx]) (truncate_waiter r)
  | Truncate tx => mk_round w (flush_waiters r) (queries r) (Some tx)
  end.

(** One iteration of [run]: the first command and those drained from the channel, then the
    flush, the answers to the queries, and last the truncation. *)
Definition run_round (w : WalWriter) (cmds : list WalCmd) (flush_io truncate_io : io)
  : WalWriter * list reply :=
  let r := foldl process_cmd (mk_round w [] [] None) cmds in
  let w := r_writer r in
  let should_flush :=
    negb (bool_decide (flush_waiters r = []))
    || (batch_max_records w <=? batch_count w)
    || ((batch_max_bytes w >? 0) && (batch_max_bytes w <=? len (batch w))) in
  let '(w, flushed) :=
    if should_flush && negb (bool_decide (batch w = [])) then do_flush w flush_io
    else (w, inl ()) in
  let flush_replies := map (fun tx => Flushed tx flushed) (flush_waiters r) in
  let query_replies := map (fun tx => Pending tx (batch_count w) (len (batch w))) (queries r) in
  match truncate_waiter r with
  | None => (w, flush_replies ++ query_replies)
  | Some tx =>
      let '(w, truncated) := do_truncate w truncate_io in
      (w, flush_replies ++ query_replies ++ [Truncated tx truncated])
  end.

(** The events of the task: a round of commands, the age timeout of a non-empty batch, and
    the end of the loop when the channel is closed. *)
Inductive event : Type :=
| Round (cmds : list WalCmd) (flush_io truncate_io : io)
| Timeout (flush_io : io)
| Closed (flush_io : io).

Definition run_event (w : WalWriter) (ev : event) : WalWriter * list reply :=
  match ev with
  | Round cmds fio tio => run_round w cmds fio tio
  | Timeout fio | Closed fio => (fst (do_flush w fio), [])
  end.

Fixpoint run (w : WalWriter) (evs : list event) : WalWriter * list reply :=
  match evs with
  | [] => (w, [])
  | ev :: evs =>
      let '(w, out) := run_event w ev in
      let '(w, outs) := run w evs in
      (w, out ++ outs)
  end.

End Task.
