(* ===== verification/WalFacts.v ===== *)
(** * Write-ahead log: correctness

    Recovery from a log that ends in a torn record or holds corrupted ones; the group
    commit of the writer task against an abstract log; the selection of stale files. *)

From coqutil Require Import Byte.
From stdpp Require Import pretty.
From S2P Require Import Prelude External Wal.
Import Format.

Section recovery.
Context `{Hcodecs : Codecs} `{!CodecLaws Hcodecs}.

(** A record whose size fits the 32-bit fields. *)
Definition wal_ok (r : WALRecord) : Prop :=
  in_u 64 (w_timestamp r) /\ 20 + len (key_bytes (w_key r)) + len (w_value r) < 2 ^ 32.

Definition wal_bytes (r : WALRecord) : bytes :=
  serialize_record (w_key r) (w_value r) (w_timestamp r).

(** An empty key reads back as no key. *)
Definition wal_normalise (r : WALRecord) : WALRecord :=
  mk_wal_record (match w_key r with Some [] => None | k => k end) (w_value r) (w_timestamp r).

Definition body (r : WALRecord) : bytes :=
  put_le 4 (crc32 (payload (w_key r) (w_value r) (w_timestamp r)))
  ++ payload (w_key r) (w_value r) (w_timestamp r).

Lemma length_body r :
  length (body r) = (20 + length (key_bytes (w_key r)) + length (w_value r))%nat.
Proof. unfold body, payload. autorewrite with len. lia. Qed.

Lemma wal_bytes_body r : wal_ok r -> wal_bytes r = put_le 4 (len (body r)) ++ body r.
Proof.
  intros [_ Hsz]. unfold wal_bytes, serialize_record. do 2 f_equal.
  rewrite length_body, !(wrap_small 32); unfold in_u; rewrite ?wrap_small by (unfold in_u; lia); lia.
Qed.

Lemma take_field_app (v rest : bytes) : take_field (len v) (v ++ rest) = Ok (v, rest).
Proof. unfold take_field. by rewrite split_to_app by (by rewrite Nat2Z.id). Qed.

Lemma parse_payload_ok r :
  wal_ok r ->
  parse_payload (payload (w_key r) (w_value r) (w_timestamp r)) = Ok (wal_normalise r).
Proof.
  intros [Ht Hsz]. unfold parse_payload, payload, wal_normalise.
  rewrite get_le_put by exact Ht. cbn [or_panic mbind outcome_bind].
  rewrite (wrap_small 32) by (unfold in_u; lia).
  rewrite get_le_put by (unfold in_u; lia). cbn [or_panic mbind outcome_bind].
  assert (Hv : forall k, ('(value_size, cursor) ← or_panic (get_le 4
      (put_le 4 (wrap 32 (len (w_value r))) ++ w_value r));
      '(value, cursor) ← take_field value_size cursor;
      Ok (mk_wal_record k value (w_timestamp r))) =
      (Ok (mk_wal_record k (w_value r) (w_timestamp r)) : outcome () WALRecord)).
  { intros k. rewrite (wrap_small 32) by (unfold in_u; lia).
    rewrite get_le_put by (unfold in_u; lia). cbn [or_panic mbind outcome_bind].
    rewrite <- (app_nil_r (w_value r)) at 2. by rewrite take_field_app. }
  destruct (w_key r) as [[|b k]|]; cbn [key_bytes default].
  - change (len [] >? 0) with false. cbn [mbind outcome_bind app]. apply Hv.
  - change (len (b :: k) >? 0) with true. rewrite take_field_app.
    cbn [mbind outcome_bind]. apply Hv.
  - change (len [] >? 0) with false. cbn [mbind outcome_bind app]. apply Hv.
Qed.

Lemma parse_record_body r : wal_ok r -> parse_record (body r) = Ok (Some (wal_normalise r)).
Proof.
  intros Hr. unfold parse_record, body. rewrite get_le_put by apply crc32_u32.
  cbn [or_panic mbind outcome_bind]. rewrite Z.eqb_refl. cbn [negb].
  by rewrite parse_payload_ok.
Qed.

(** What the log can hold: whole records, and buffers of a plausible size whose checksum
    does not match their contents. *)
Inductive item : Type := Good (r : WALRecord) | Corrupt (buf : bytes).

Definition item_ok (i : item) : Prop :=
  match i with
  | Good r => wal_ok r
  | Corrupt buf =>
      4 <= len buf < 2 ^ 32 /\ le_combine (take 4 buf) <> crc32 (drop 4 buf)
  end.

Definition item_bytes (i : item) : bytes :=
  match i with Good r => wal_bytes r | Corrupt buf => put_le 4 (len buf) ++ buf end.

Definition item_record (i : item) : list WALRecord :=
  match i with Good r => [wal_normalise r] | Corrupt _ => [] end.

(** A torn write: a strict prefix of the bytes of a record. *)
Definition torn (t : bytes) : Prop :=
  exists r n, wal_ok r /\ (n < length (wal_bytes r))%nat /\ t = take n (wal_bytes r).

Lemma read_loop_torn fuel t : torn t -> read_loop (S fuel) t = Ok [].
Proof.
  intros (r & n & Hr & Hn & ->). rewrite (wal_bytes_body r Hr) in *.
  rewrite length_app, length_put_le in Hn. cbn [read_loop].
  destruct (decide (n < 4)%nat).
  - unfold get_le. by rewrite decide_False by (rewrite length_take; lia).
  - rewrite take_app_ge, length_put_le by (rewrite length_put_le; lia).
    rewrite get_le_put.
    2: { destruct Hr as [_ Hr]. rewrite length_body. unfold in_u. lia. }
    rewrite Nat2Z.id. unfold split_to. by rewrite decide_False by (rewrite length_take; lia).
Qed.

Lemma read_loop_item fuel i rest :
  item_ok i ->
  read_loop (S fuel) (item_bytes i ++ rest) =
  rs ← read_loop fuel rest; Ok (item_record i ++ rs).
Proof.
  intros Hi. cbn [read_loop].
  assert (Hsz : exists buf, item_bytes i = put_le 4 (len buf) ++ buf /\ in_u 32 (len buf) /\
    parse_record buf = Ok (head (item_record i))).
  { destruct i as [r|buf]; cbn [item_bytes item_record head] in *.
    - exists (body r). split; [by apply wal_bytes_body|]. split; [|by apply parse_record_body].
      destruct Hi as [_ Hi]. rewrite length_body. unfold in_u. lia.
    - exists buf. split; [done|]. destruct Hi as [Hl Hc]. split; [unfold in_u; lia|].
      unfold parse_record, get_le. rewrite decide_True by lia.
      cbn [or_panic mbind outcome_bind]. by rewrite (proj2 (Z.eqb_neq _ _) Hc). }
  destruct Hsz as (buf & -> & Hb & Hp). rewrite <- app_assoc, get_le_put by exact Hb.
  rewrite Nat2Z.id, split_to_app by done. rewrite Hp. cbn [mbind outcome_bind].
  by destruct i.
Qed.

Lemma read_loop_items items t fuel :
  Forall item_ok items -> (t = [] \/ torn t) -> (length items < fuel)%nat ->
  read_loop fuel (concat (map item_bytes items) ++ t) = Ok (concat (map item_record items)).
Proof.
  intros Hok Ht. revert fuel. induction Hok as [|i items Hi _ IH]; intros [|fuel] Hf;
    simpl length in Hf; try lia; cbn [map concat].
  - destruct Ht as [->|Ht]; [done|]. by apply read_loop_torn.
  - rewrite <- app_assoc, read_loop_item by done. rewrite IH by lia. done.
Qed.

Lemma length_items items : (length items <= length (concat (map item_bytes items)))%nat.
Proof.
  induction items as [|i items IH]; cbn [map concat length]; [lia|]. rewrite length_app.
  assert (4 <= length (item_bytes i))%nat; [|lia].
  destruct i; cbn [item_bytes]; unfold wal_bytes, serialize_record;
    rewrite !length_app, !length_put_le; lia.
Qed.

(** C3: recovery returns every whole record of the log, in order, skipping the buffers whose
    checksum is wrong and stopping at a record cut short by a crash, wherever the cut is
    (an empty key reads back as no key). *)
Theorem wal_recovery items t :
  Forall item_ok items -> (t = [] \/ torn t) ->
  read_wal_file (concat (map item_bytes items) ++ t) = Ok (concat (map item_record items)).
Proof.
  intros Hok Ht. apply read_loop_items; [done|done|].
  pose proof (length_items items). rewrite length_app. lia.
Qed.

(** A log followed by four or more zero bytes, as a crash can leave it on a file
    system that extends files before writing them, is not handled gracefully: recovery
    panics on the empty record it reads there, whatever valid records precede. *)
Theorem wal_zero_tail_panics rs n :
  Forall wal_ok rs -> (4 <= n)%nat ->
  read_wal_file (concat (map wal_bytes rs) ++ zeros n) = Panic.
Proof.
  intros Hok Hn. unfold read_wal_file.
  assert (Hf : (length rs < S (length (concat (map wal_bytes rs) ++ zeros n)))%nat).
  { pose proof (length_items (map Good rs)) as Hl. rewrite length_map in Hl.
    rewrite map_map in Hl. change (map (fun x => item_bytes (Good x)) rs) with (map wal_bytes rs) in Hl. rewrite length_app. lia. }
  revert Hf. generalize (S (length (concat (map wal_bytes rs) ++ zeros n))) as fuel.
  induction Hok as [|r rs Hr _ IH]; intros [|fuel] Hf; simpl length in Hf; try lia;
    cbn [map concat app].
  - do 4 (destruct n as [|n]; [lia|]). reflexivity.
  - rewrite <- app_assoc, (read_loop_item fuel (Good r)) by done. rewrite IH by lia. done.
Qed.
End recovery.

(** ** The writer task *)

Section task.
Import Task.

(** What a list of commands amounts to. *)
Definition appended (cmds : list WalCmd) : bytes :=
  concat (map (fun c => match c with Append d _ => d | _ => [] end) cmds).
Definition counted (cmds : list WalCmd) : Z :=
  foldr (fun c n => match c with Append _ k => k + n | _ => n end) 0 cmds.
Definition flushes (cmds : list WalCmd) : list nat :=
  concat (map (fun c => match c with Flush t => [t] | _ => [] end) cmds).
Definition queried (cmds : list WalCmd) : list nat :=
  concat (map (fun c => match c with QueryPending t => [t] | _ => [] end) cmds).
Definition truncation (t : option nat) (cmds : list WalCmd) : option nat :=
  foldl (fun t c => match c with Truncate t' => Some t' | _ => t end) t cmds.

Lemma process_cmds r cmds :
  foldl process_cmd r cmds =
  mk_round (set_state (r_writer r) (file (r_writer r)) (batch (r_writer r) ++ appended cmds)
              (batch_count (r_writer r) + counted cmds) (current_size (r_writer r)))
    (flush_waiters r ++ flushes cmds) (queries r ++ queried cmds)
    (truncation (truncate_waiter r) cmds).
Proof.
  revert r. induction cmds as [|c cmds IH]; intros [[f b n s mr mb sy] fw q t].
  - cbn. by rewrite !app_nil_r, Z.add_0_r.
  - cbn [foldl]. rewrite IH. destruct c; cbn; unfold appended, flushes, queried, set_state; cbn;
      by rewrite <- ?app_assoc, ?Z.add_assoc.
Qed.

(** The abstract log: the bytes appended since the last truncation. *)
Definition log_cmd (log : bytes) (c : WalCmd) : bytes :=
  match c with Append d _ => log ++ d | Truncate _ => [] | _ => log end.
Definition log_event (log : bytes) (ev : event) : bytes :=
  match ev with Round cmds _ _ => foldl log_cmd log cmds | _ => log end.

(** What the task holds: the file, then the batch not yet written. *)
Definition contents (w : WalWriter) : bytes := file w ++ batch w.

(** No append follows a truncation inside one round. *)
Fixpoint truncate_last (cmds : list WalCmd) : bool :=
  match cmds with
  | [] => true
  | Truncate _ :: cmds => bool_decide (appended cmds = []) && truncate_last cmds
  | _ :: cmds => truncate_last cmds
  end.

Definition event_ok (ev : event) : Prop :=
  match ev with
  | Round cmds fio tio => fio = IoOk /\ tio = IoOk /\ truncate_last cmds = true
  | Timeout fio | Closed fio => fio = IoOk
  end.

(** [current_size] is the length of the file. *)
Definition size_ok (w : WalWriter) : Prop := current_size w = len (file w).

Lemma do_flush_ok w :
  contents (fst (do_flush w IoOk)) = contents w /\ snd (do_flush w IoOk) = inl ()
  /\ (size_ok w -> size_ok (fst (do_flush w IoOk)))
  /\ batch (fst (do_flush w IoOk)) = [] /\ file (fst (do_flush w IoOk)) = contents w.
Proof.
  unfold do_flush, contents, size_ok. destruct (batch w) as [|b bs] eqn:Hb; cbn.
  - by rewrite Hb, app_nil_r.
  - rewrite app_nil_r. split_and!; try done. intros ->. rewrite length_app. simpl length. lia.
Qed.

Lemma log_cmds_no_truncate cmds log :
  truncation None cmds = None -> foldl log_cmd log cmds = log ++ appended cmds.
Proof.
  assert (Hs : forall cmds t, truncation (Some t) cmds <> None).
  { intros cs. induction cs as [|[] cs IH]; intros t'; cbn; [done|apply IH..]. }
  revert log. induction cmds as [|c cmds IH]; intros log Ht; cbn in *.
  - by rewrite app_nil_r.
  - destruct c; cbn in *; try (by apply IH); [|by apply Hs in Ht].
    rewrite IH by done. unfold appended. cbn. by rewrite app_assoc.
Qed.

Lemma log_cmds_truncate cmds log :
  truncate_last cmds = true -> truncation None cmds <> None -> foldl log_cmd log cmds = [].
Proof.
  assert (Hn : forall cs, appended cs = [] -> foldl log_cmd [] cs = []).
  { intros cs. induction cs as [|[] cs IH]; cbn; intros Ha; try done; try (by apply IH).
    unfold appended in Ha. cbn in Ha. apply app_eq_nil in Ha as [-> Ha]. by apply IH. }
  revert log. induction cmds as [|c cmds IH]; intros log Hl Ht; cbn in *; [done|].
  destruct c; try (by apply IH).
  apply andb_prop in Hl as [Ha%bool_decide_eq_true_1 _]. by apply Hn.
Qed.

(** The state after a round whose I/O succeeds. *)
Lemma run_round_ok w cmds :
  let w' := fst (run_round w cmds IoOk IoOk) in
  contents w' = match truncation None cmds with
                | None => contents w ++ appended cmds | Some _ => [] end
  /\ (size_ok w -> size_ok w')
  /\ (batch w' = [] \/
      (file w' = file w /\ flushes cmds = []
       /\ batch_count w' < batch_max_records w
       /\ (batch_max_bytes w <= 0 \/ len (batch w') < batch_max_bytes w))).
Proof.
  unfold run_round. rewrite process_cmds. cbn [r_writer flush_waiters queries truncate_waiter app].
  set (w1 := set_state _ _ _ _ _).
  assert (Hc1 : contents w1 = contents w ++ appended cmds)
    by (unfold contents; cbn; by rewrite app_assoc).
  destruct (do_flush_ok w1) as (Hc2 & Hr2 & Hs2 & Hb2 & Hf2).
  set (go := (negb _ || _ || _) && _).
  destruct go eqn:Hgo.
  - destruct (do_flush w1 IoOk) as [w2 res]. cbn in *. subst res.
    destruct (truncation None cmds); cbn; [by split_and!; [|intros|left]|].
    rewrite Hc2. split; [done|]. split; [exact Hs2|by left].
  - destruct (truncation None cmds); cbn; [by split_and!; [|intros|left]|].
    split; [exact Hc1|]. split; [by unfold size_ok|].
    destruct (decide (batch w1 = [])) as [|Hb]; [by left|right].
    subst go. rewrite (bool_decide_eq_false_2 (batch w1 = [])) in Hgo by done.
    rewrite andb_true_r in Hgo. apply orb_false_elim in Hgo as [Hgo H3].
    apply orb_false_elim in Hgo as [H1 H2]. split; [done|].
    apply negb_false_iff, bool_decide_eq_true_1 in H1. split; [done|].
    split; [by apply Z.leb_gt in H2|].
    apply andb_false_iff in H3 as [H3|H3]; [left|right; by apply Z.leb_gt in H3].
    rewrite Z.gtb_ltb in H3. by apply Z.ltb_ge in H3.
Qed.

(** One event of the task, against the log. *)
Lemma run_event_ok w ev :
  event_ok ev ->
  contents (fst (run_event w ev)) = log_event (contents w) ev
  /\ (size_ok w -> size_ok (fst (run_event w ev))).
Proof.
  intros Hev. destruct ev as [cmds fio tio|fio|fio]; cbn [run_event log_event event_ok] in *.
  - destruct Hev as (-> & -> & Hl). destruct (run_round_ok w cmds) as (Hc & Hs & _).
    split; [|done]. rewrite Hc. destruct (truncation None cmds) eqn:Ht.
    + by rewrite log_cmds_truncate by congruence.
    + by rewrite log_cmds_no_truncate.
  - subst. destruct (do_flush_ok w) as (Hc & _ & Hs & _). done.
  - subst. destruct (do_flush_ok w) as (Hc & _ & Hs & _). done.
Qed.

(** C4: group commit implements the log: over any sequence of rounds, timeouts and a final
    close with successful I/O, in which no append follows a truncation within one round,
    the file followed by the pending batch is exactly the data appended since the last
    truncation, in order, and the recorded size is the size of the file. *)
Theorem wal_group_commit evs w :
  Forall event_ok evs -> size_ok w ->
  contents (fst (run w evs)) = foldl log_event (contents w) evs
  /\ size_ok (fst (run w evs)).
Proof.
  intros Hev. revert w. induction Hev as [|ev evs Hev _ IH]; intros w Hs; [done|].
  destruct (run_event_ok w ev Hev) as [Hc Hs']. specialize (IH (fst (run_event w ev)) (Hs' Hs)).
  cbn [run foldl]. destruct (run_event w ev) as [w1 out]. cbn [fst] in *.
  destruct (run w1 evs) as [w2 outs]. cbn [fst] in *. by rewrite Hc in IH.
Qed.

Lemma elem_of_flushes tx cmds : tx ∈ flushes cmds <-> Flush tx ∈ cmds.
Proof.
  unfold flushes. induction cmds as [|c cmds IH]; cbn [map concat].
  - split; intros H; by apply not_elem_of_nil in H.
  - rewrite elem_of_app, elem_of_cons, IH.
    destruct c; rewrite ?list_elem_of_singleton, ?elem_of_nil; intuition congruence.
Qed.

(** C5: a flush is durable: in a round without truncation whose write and sync succeed,
    every flush waiter is told so, and by then all the data sent before and in that round,
    in order, is in the file and nothing is pending; without a flush request, what stays
    pending is below both batch thresholds. *)
Theorem wal_flush_durable w cmds tio :
  truncation None cmds = None ->
  let '(w', out) := run_round w cmds IoOk tio in
  (forall tx, Flush tx ∈ cmds ->
     Flushed tx (inl ()) ∈ out /\ batch w' = []
     /\ file w' = file w ++ batch w ++ appended cmds) /\
  (batch w' = [] \/
     (batch_count w' < batch_max_records w
      /\ (batch_max_bytes w <= 0 \/ len (batch w') < batch_max_bytes w))).
Proof.
  intros Ht. destruct (run_round_ok w cmds) as (Hc & _ & Hp).
  assert (Htio : run_round w cmds IoOk tio = run_round w cmds IoOk IoOk).
  { unfold run_round. rewrite process_cmds. cbn [truncate_waiter]. by rewrite Ht. }
  rewrite Htio. clear Htio. rewrite Ht in Hc.
  assert (Hout : forall tx, Flush tx ∈ cmds ->
            Flushed tx (inl ()) ∈ snd (run_round w cmds IoOk IoOk)).
  { intros tx Htx. apply elem_of_flushes in Htx.
    unfold run_round. rewrite process_cmds.
    cbn [r_writer flush_waiters queries truncate_waiter app]. rewrite Ht.
    set (w1 := set_state _ _ _ _ _). destruct (do_flush_ok w1) as (_ & Hr & _).
    destruct (do_flush w1 IoOk) as [w2 res]. cbn in Hr. subst res.
    destruct (_ && _); cbn [snd]; apply elem_of_app; left;
      by apply (elem_of_map (fun tx => Flushed tx (inl ()))). }
  destruct (run_round w cmds IoOk IoOk) as [w' out]. cbn [fst snd] in *. split.
  - intros tx Htx. split; [by apply Hout|].
    assert (Hb : batch w' = []).
    { destruct Hp as [|(_ & Hf & _)]; [done|]. apply elem_of_flushes in Htx.
      rewrite Hf in Htx. by apply not_elem_of_nil in Htx. }
    split; [done|]. unfold contents in Hc. by rewrite Hb, app_nil_r, <- app_assoc in Hc.
  - destruct Hp as [|(_ & _ & ?)]; [by left|by right].
Qed.

(** A truncation is executed last in its round, whatever its position: data appended
    after it but drained with it is discarded too, even when a flush in the same round
    has reported it durable. *)
Theorem wal_truncate_discards_round w cmds tx :
  truncation None cmds = Some tx ->
  let '(w', out) := run_round w cmds IoOk IoOk in
  contents w' = [] /\ Truncated tx (inl ()) ∈ out
  /\ forall f, Flush f ∈ cmds -> Flushed f (inl ()) ∈ out.
Proof.
  intros Ht. destruct (run_round_ok w cmds) as (Hc & _ & _). rewrite Ht in Hc.
  destruct (run_round w cmds IoOk IoOk) as [w' out] eqn:Hr. cbn [fst] in Hc.
  split; [done|]. unfold run_round in Hr. rewrite process_cmds in Hr.
  cbn [r_writer flush_waiters queries truncate_waiter app] in Hr. rewrite Ht in Hr.
  set (w1 := set_state _ _ _ _ _) in Hr. destruct (do_flush_ok w1) as (_ & Hr1 & _).
  destruct (do_flush w1 IoOk) as [w2 res]. cbn in Hr1. subst res.
  assert (Hin : forall f, Flush f ∈ cmds -> Flushed f (inl ()) ∈
            map (fun tx => Flushed tx (inl ())) (flushes cmds)).
  { intros f Hf. apply elem_of_flushes in Hf.
    by apply (elem_of_map (fun tx => Flushed tx (inl ()))). }
  destruct (_ && _); cbn [do_truncate] in Hr; injection Hr as <- <-;
    (split; [rewrite !elem_of_app, list_elem_of_singleton; auto|]);
    intros f Hf; apply elem_of_app; left; by apply Hin.
Qed.

(** A failed write loses the batch: it is cleared before the write, so after the waiter
    has been told of the error, a second flush finds nothing to do and reports success
    although the data never reached the file. *)
Theorem wal_failed_flush_drops_batch w a b e :
  batch w <> [] ->
  let '(w1, out1) := run_round w [Flush a] (WriteErr 0 e) IoOk in
  let '(w2, out2) := run_round w1 [Flush b] IoOk IoOk in
  out1 = [Flushed a (inr e)] /\ out2 = [Flushed b (inl ())]
  /\ file w2 = file w /\ batch w2 = [].
Proof.
  intros Hb. unfold run_round, do_flush. cbn.
  rewrite bool_decide_eq_false_2 by done. destruct (batch w); [done|]. cbn.
  by rewrite app_nil_r.
Qed.
End task.

(** ** File names *)

Section files.
Import Files.

(** A name that continues the prefix of the partition with a dash. *)
Lemma is_stale_dash topic p own rest :
  is_stale topic p own (topic +:+ "-" +:+ pretty p +:+ "-" +:+ rest +:+ ".wal") =
  negb (bool_decide (rest = own)).
Proof.
  unfold is_stale, wal_filename.
  set (pre := topic +:+ "-" +:+ pretty p).
  assert (Hpre : forall s, topic +:+ "-" +:+ pretty p +:+ s = pre +:+ s)
    by (intros s; unfold pre; by rewrite !str_app_assoc).
  rewrite !Hpre. rewrite strip_prefix_app.
  replace (pre +:+ "-" +:+ rest +:+ ".wal") with ((pre +:+ "-" +:+ rest) +:+ ".wal")
    by by rewrite !str_app_assoc.
  rewrite ends_with_app, andb_true_l.
  rewrite (bool_decide_eq_true_2 (is_Some _)) by (by rewrite strip_prefix_app).
  rewrite orb_true_r, andb_true_r. f_equal. apply bool_decide_ext.
  replace (pre +:+ "-" +:+ own +:+ ".wal") with ((pre +:+ "-" +:+ own) +:+ ".wal")
    by by rewrite !str_app_assoc.
  split; [|by intros ->]. intros H%str_app_inj_r. by apply (inj _), (inj _) in H.
Qed.

(** the file selection of partition recovery takes exactly the files of the other
    agents and the legacy file, never the agent's own; but it also takes the files of any
    other topic whose name is the topic, a dash and the partition number, so that records
    of that topic are replayed into this partition. *)
Theorem stale_file_selection topic p own :
  (forall a, is_stale topic p own (wal_filename topic p (Some a)) = negb (bool_decide (a = own)))
  /\ is_stale topic p own (wal_filename topic p None) = true
  /\ (forall q a, a <> own -> pretty q +:+ "-" +:+ a <> own ->
      is_stale topic p own (wal_filename (topic +:+ "-" +:+ pretty p) q (Some a)) = true).
Proof.
  split_and!.
  - intros a. apply is_stale_dash.
  - unfold is_stale, wal_filename.
    replace (topic +:+ "-" +:+ pretty p +:+ ".wal") with ((topic +:+ "-" +:+ pretty p) +:+ ".wal")
      by by rewrite !str_app_assoc.
    rewrite strip_prefix_app, ends_with_app, (bool_decide_eq_true_2 (".wal" = ".wal")%string) by done.
    rewrite orb_true_l, andb_true_r. cbn [andb]. rewrite bool_decide_eq_false_2; [done|].
    rewrite !str_app_assoc. intros H%(inj _)%(inj _)%(inj _).
    apply (f_equal String.length) in H. rewrite !str_length_app in H. cbn in H. lia.
  - intros q a Ha Hqa. unfold wal_filename at 1.
    pose proof (is_stale_dash topic p own (pretty q +:+ "-" +:+ a)) as H.
    rewrite !str_app_assoc in *. rewrite H. by rewrite bool_decide_eq_false_2.
Qed.

(** The records of a list of readable files, one file after the other. *)
Fixpoint read_files `{Codecs} (es : list dir_entry) : outcome () (list WALRecord) :=
  match es with
  | [] => Ok []
  | e :: es =>
      a ← read_wal_file (match snd e with Some f => f | None => [] end);
      b ← read_files es;
      Ok (a ++ b)
  end.

(** Partition recovery concatenates, in directory order, what each selected readable
    file holds, and names exactly those files as stale. *)
Theorem recover_partition_spec `{Hcodecs : Codecs} topic p own entries :
  (forall n f, (n, Some f) ∈ entries -> exists rs, read_wal_file f = Ok rs) ->
  let selected := filter (fun e => is_stale topic p own (fst e) = true /\ is_Some (snd e)) entries in
  exists rs, recover_partition topic p own entries = Ok (rs, map fst selected)
    /\ read_files selected = Ok rs.
Proof.
  intros Hread. induction entries as [|[n c] entries IH]; cbn [recover_partition]; [by exists []|].
  destruct IH as (rs & Hrec & Hrs); [intros ? ? H; apply (Hread n0 f); by right|].
  destruct (is_stale topic p own n) eqn:Hs.
  2: { rewrite filter_cons_False by (cbn; intros [? _]; congruence). eauto. }
  destruct c as [f|].
  2: { rewrite filter_cons_False by (cbn; intros [_ [? ?]]; congruence). eauto. }
  rewrite filter_cons_True by (cbn; eauto). destruct (Hread n f ltac:(left)) as [r Hr].
  exists (r ++ rs). split.
  - by rewrite Hr, Hrec.
  - cbn [read_files snd]. by rewrite Hr, Hrs.
Qed.
End files.

(** ** Witnesses *)

Definition rec1 : WALRecord := mk_wal_record (Some [Init.Byte.x6b]) [Init.Byte.x01] 1000.
Definition rec2 : WALRecord := mk_wal_record None [Init.Byte.x02; Init.Byte.x03] 1001.

Lemma rec_ok : wal_ok rec1 /\ wal_ok rec2.
Proof. by vm_compute. Qed.

Lemma wal_recovery_witness :
  read_wal_file (wal_bytes rec1 ++ (put_le 4 5 ++ zeros 5) ++ wal_bytes rec2
                 ++ take 13 (wal_bytes rec1)) = Ok [rec1; rec2].
Proof.
  destruct rec_ok as [H1 H2].
  pose proof (wal_recovery [Good rec1; Corrupt (zeros 5); Good rec2] (take 13 (wal_bytes rec1))) as H.
  cbn [map concat item_bytes item_record app] in H. rewrite !app_nil_r, <- !app_assoc in H.
  rewrite <- app_assoc. apply H.
  - repeat constructor; try apply H1; try apply H2. vm_compute. discriminate.
  - right. exists rec1, 13%nat. split; [exact H1|]. split; [vm_compute; lia|reflexivity].
Defined.

Lemma wal_zero_tail_panics_witness : read_wal_file (wal_bytes rec1 ++ zeros 4) = Panic.
Proof.
  pose proof (wal_zero_tail_panics [rec1] 4 (Forall_cons_2 _ _ _ (proj1 rec_ok) (Forall_nil_2 _))
                ltac:(lia)) as H.
  cbn [map concat] in H. rewrite app_nil_r in H. exact H.
Defined.

Section task_witnesses.
Import Task.

Definition task0 : WalWriter := open [Init.Byte.x00] true 100 4096 false.

Lemma wal_group_commit_witness :
  contents (fst (run task0 [Round [Append [Init.Byte.x01] 1; Flush 7] IoOk IoOk;
                            Round [Truncate 8] IoOk IoOk;
                            Round [Append [Init.Byte.x02] 1] IoOk IoOk; Timeout IoOk]))
  = [Init.Byte.x02].
Proof.
  destruct (wal_group_commit [Round [Append [Init.Byte.x01] 1; Flush 7] IoOk IoOk;
                            Round [Truncate 8] IoOk IoOk;
                            Round [Append [Init.Byte.x02] 1] IoOk IoOk; Timeout IoOk] task0)
    as [-> _]; [by repeat constructor|done|reflexivity].
Defined.

Lemma wal_flush_durable_witness :
  file (fst (run_round task0 [Append [Init.Byte.x01] 1; Flush 7; Append [Init.Byte.x02] 1] IoOk IoOk))
  = [Init.Byte.x00; Init.Byte.x01; Init.Byte.x02].
Proof.
  pose proof (wal_flush_durable task0 [Append [Init.Byte.x01] 1; Flush 7; Append [Init.Byte.x02] 1]
                IoOk eq_refl) as H.
  destruct (run_round _ _ _ _) as [w' out]. destruct H as [H _]. cbn [fst].
  destruct (H 7%nat) as (_ & _ & ->); [right; left|reflexivity].
Defined.

Lemma wal_truncate_discards_round_witness :
  contents (fst (run_round task0 [Truncate 1; Append [Init.Byte.x01] 1; Flush 2] IoOk IoOk)) = []
  /\ Flushed 2 (inl ()) ∈
     snd (run_round task0 [Truncate 1; Append [Init.Byte.x01] 1; Flush 2] IoOk IoOk).
Proof.
  pose proof (wal_truncate_discards_round task0 [Truncate 1; Append [Init.Byte.x01] 1; Flush 2] 1
                eq_refl) as H.
  destruct (run_round _ _ _ _) as [w' out]. destruct H as (Hc & _ & Hf).
  split; [exact Hc|]. apply Hf. right; right; left.
Defined.

Lemma wal_failed_flush_drops_batch_witness :
  let w := set_state task0 [] [Init.Byte.x01] 1 0 in
  let '(w1, out1) := run_round w [Flush 1] (WriteErr 0 "disk full") IoOk in
  let '(w2, out2) := run_round w1 [Flush 2] IoOk IoOk in
  out2 = [Flushed 2 (inl ())] /\ file w2 = [].
Proof.
  intros w.
  pose proof (wal_failed_flush_drops_batch w 1 2 "disk full" ltac:(discriminate)) as H.
  destruct (run_round w _ _ _) as [w1 out1]. destruct (run_round w1 _ _ _) as [w2 out2].
  destruct H as (_ & -> & -> & _). by split.
Defined.
End task_witnesses.

Lemma stale_file_selection_witness :
  Files.is_stale "orders" 1 "agent-b" (Files.wal_filename "orders-1" 0 (Some "agent-a")) = true.
Proof. apply (stale_file_selection "orders" 1 "agent-b"); vm_compute; discriminate. Defined.

Lemma recover_partition_spec_witness :
  exists rs, Files.recover_partition "orders" 1 "agent-b"
    [("orders-1-agent-a.wal"%string, Some (wal_bytes rec1));
     ("orders-1-agent-b.wal"%string, Some (wal_bytes rec2))]
    = Ok (rs, ["orders-1-agent-a.wal"%string]).
Proof.
  destruct (recover_partition_spec "orders" 1 "agent-b"
    [("orders-1-agent-a.wal"%string, Some (wal_bytes rec1));
     ("orders-1-agent-b.wal"%string, Some (wal_bytes rec2))]) as (rs & -> & _).
  - intros n f Hin. apply elem_of_cons in Hin as [[= -> ->]|Hin]; [by eexists; vm_compute|].
    apply list_elem_of_singleton in Hin as [= -> ->]. by eexists; vm_compute.
  - exists rs. do 2 f_equal. 
Defined.
