(* ===== verification/HashMap.v ===== *)
(** * Hash maps

    A [HashMap<K, A>] is a finite map together with an iteration order that the program
    cannot rely on: the class [HashOrder] states all that is known of it. *)

From S2P Require Import Prelude.

(** The iteration order of a [HashMap] is unspecified: any enumeration of its entries. *)
Class HashOrder : Type := {
  iter : forall {K A : Type} `{Countable K}, gmap K A -> list (K * A);
  iter_perm : forall {K A : Type} `{Countable K} (m : gmap K A), iter m ≡ₚ map_to_list m
}.

#[export, refine] Instance default_order : HashOrder :=
  { iter := fun K A _ _ m => map_to_list m }.
Proof. done. Defined.

(** [for (k, x) in entries { map.insert(k, x); }]. *)
Definition insert_all {A} (entries : list (string * A)) (m : gmap string A) : gmap string A :=
  foldl (fun m e => <[e.1 := e.2]> m) m entries.

(** ** Maps and their enumerations *)

Section enumeration.
Context `{HashOrder} {K A : Type} `{Countable K}.
Implicit Types m : gmap K A.

Lemma elem_of_iter m k x : (k, x) ∈ iter m <-> m !! k = Some x.
Proof. rewrite iter_perm. apply elem_of_map_to_list. Qed.

Lemma iter_NoDup m : NoDup (iter m).*1.
Proof. rewrite iter_perm. apply NoDup_fst_map_to_list. Qed.

Lemma elem_of_values m x : x ∈ map snd (iter m) <-> exists k, m !! k = Some x.
Proof.
  rewrite list_elem_of_fmap. split.
  - intros ([k y] & -> & Hin). exists k. by apply elem_of_iter.
  - intros [k Hk]. exists (k, x). split; [done|]. by apply elem_of_iter.
Qed.

Lemma length_iter m : length (iter m) = size m.
Proof. rewrite iter_perm. apply length_map_to_list. Qed.

Lemma head_keys m : m <> ∅ -> exists k, head (map fst (iter m)) = Some k /\ is_Some (m !! k).
Proof.
  intros Hm. destruct (iter m) as [|[k x] l] eqn:He.
  - exfalso. apply Hm, map_size_empty_inv. by rewrite <- length_iter, He.
  - exists k. split; [done|]. exists x. apply elem_of_iter. rewrite He. left.
Qed.
End enumeration.

Section draining.
Context `{HashOrder} {A : Type}.
Implicit Types m p : gmap string A.

Lemma insert_all_union l p :
  NoDup l.*1 -> insert_all l p = (list_to_map l : gmap string A) ∪ p.
Proof.
  unfold insert_all. revert p. induction l as [|[k x] l IH]; intros p Hnd; simpl.
  - by rewrite (left_id_L ∅ (∪)).
  - apply NoDup_cons in Hnd as [Hk Hnd]. rewrite IH by done.
    rewrite <- insert_union_l, insert_union_r; [done|].
    apply not_elem_of_list_to_map_1. done.
Qed.

(** Draining one map into another: the drained entries win. *)
Lemma insert_all_iter m p : insert_all (iter m) p = m ∪ p.
Proof.
  rewrite insert_all_union by apply iter_NoDup. f_equal.
  rewrite <- (list_to_map_to_list m). apply list_to_map_proper; [apply iter_NoDup|].
  rewrite list_to_map_to_list. apply iter_perm.
Qed.
End draining.
