(* ===== verification/Utf8.v ===== *)
(** * Rust strings

    A [String] is a Rocq [string] whose bytes are well-formed UTF-8.  The development needs
    the standard library's [String::from_utf8], with the error it reports; the validation
    below follows the byte ranges of the Unicode standard (Table 3-7), which the
    documentation of [Utf8Error] refers to. *)

From stdpp Require Import pretty.
From S2P Require Import Prelude.

(** [Utf8Error { valid_up_to, error_len }]. *)
Record Utf8Error : Type := mk_utf8_error {
  valid_up_to : nat;
  error_len : option nat
}.

Definition in_range (lo hi : Z) (b : Init.Byte.byte) : bool :=
  let v := byte.unsigned b in (lo <=? v) && (v <=? hi).

(** The range of the second byte, by the first one, and the number of bytes. *)
Definition lead (b : Init.Byte.byte) : option (nat * (Z * Z)) :=
  let v := byte.unsigned b in
  if v <? 194 then None
  else if v <=? 223 then Some (2%nat, (128, 191))
  else if v =? 224 then Some (3%nat, (160, 191))
  else if v =? 237 then Some (3%nat, (128, 159))
  else if v <=? 239 then Some (3%nat, (128, 191))
  else if v =? 240 then Some (4%nat, (144, 191))
  else if v <=? 243 then Some (4%nat, (128, 191))
  else if v =? 244 then Some (4%nat, (128, 143))
  else None.

(** The continuation bytes after the second one: [n] of them, [seen] bytes already read. *)
Fixpoint check_tail (n seen : nat) (buf : bytes) : option nat + bytes :=
  match n with
  | O => inr buf
  | S n =>
      match buf with
      | [] => inl None
      | b :: rest => if in_range 128 191 b then check_tail n (S seen) rest else inl (Some seen)
      end
  end.

(** One character: the rest of the buffer, or the length of the ill-formed sequence. *)
Definition check_char (b : Init.Byte.byte) (rest : bytes) : option nat + bytes :=
  if byte.unsigned b <? 128 then inr rest
  else
    match lead b with
    | None => inl (Some 1%nat)
    | Some (w, (lo, hi)) =>
        match rest with
        | [] => inl None
        | b2 :: rest => if in_range lo hi b2 then check_tail (w - 2) 2 rest else inl (Some 1%nat)
        end
    end.

(** The fuel is the length of the buffer: a character takes at least one byte. *)
Fixpoint run_utf8_validation (fuel index : nat) (buf : bytes) : option Utf8Error :=
  match fuel, buf with
  | _, [] => None
  | O, _ :: _ => None
  | S f, b :: rest =>
      match check_char b rest with
      | inl e => Some (mk_utf8_error index e)
      | inr rest' => run_utf8_validation f (index + (length buf - length rest')) rest'
      end
  end.

Definition utf8_error (buf : bytes) : option Utf8Error :=
  run_utf8_validation (length buf) 0 buf.

(** [str::as_bytes]. *)
Definition as_bytes (s : string) : bytes := String.list_byte_of_string s.

Definition from_utf8 (buf : bytes) : Utf8Error + string :=
  match utf8_error buf with
  | None => inr (String.string_of_list_byte buf)
  | Some e => inl e
  end.

(** [Display for Utf8Error]. *)
Definition display_utf8_error (e : Utf8Error) : string :=
  match error_len e with
  | Some n => "invalid utf-8 sequence of " +:+ pretty n +:+ " bytes from index "
              +:+ pretty (valid_up_to e)
  | None => "incomplete utf-8 byte sequence from index " +:+ pretty (valid_up_to e)
  end.

(** What every Rust [String] satisfies. *)
Definition utf8 (s : string) : Prop := utf8_error (as_bytes s) = None.

#[export] Instance utf8_dec s : Decision (utf8 s).
Proof. unfold utf8. destruct (utf8_error (as_bytes s)); [right|left]; congruence. Defined.

Lemma from_utf8_as_bytes s : utf8 s -> from_utf8 (as_bytes s) = inr s.
Proof.
  unfold from_utf8, utf8, as_bytes. intros ->. f_equal.
  apply String.string_of_list_byte_of_string.
Qed.

Lemma from_utf8_inr buf s : from_utf8 buf = inr s -> buf = as_bytes s /\ utf8 s.
Proof.
  unfold from_utf8, utf8, as_bytes. destruct (utf8_error buf) eqn:He; [discriminate|].
  intros [= <-]. rewrite String.list_byte_of_string_of_list_byte. done.
Qed.

Lemma length_as_bytes s : length (as_bytes s) = String.length s.
Proof.
  unfold as_bytes, String.list_byte_of_string. rewrite length_map.
  induction s as [|a s IH]; [done|]. simpl. by rewrite IH.
Qed.

#[export] Hint Rewrite length_as_bytes : len.

(** ASCII text and a three-byte character are accepted; a lone continuation byte, an
    overlong form, a surrogate and a truncated character are not. *)
Example utf8_examples :
  utf8 "client-1" /\ utf8_error [Init.Byte.xe2; Init.Byte.x82; Init.Byte.xac] = None
  /\ utf8_error [Init.Byte.x61; Init.Byte.x80] = Some (mk_utf8_error 1 (Some 1%nat))
  /\ utf8_error [Init.Byte.xc0; Init.Byte.x80] = Some (mk_utf8_error 0 (Some 1%nat))
  /\ utf8_error [Init.Byte.xed; Init.Byte.xa0; Init.Byte.x80] = Some (mk_utf8_error 0 (Some 1%nat))
  /\ utf8_error [Init.Byte.x61; Init.Byte.xe2; Init.Byte.x82] = Some (mk_utf8_error 1 None).
Proof. repeat split; reflexivity. Qed.
