(* ===== verification/KafkaTypes.v ===== *)
(** * Kafka protocol constants and errors (crates/streamhouse-kafka/src/types.rs, error.rs) *)

From S2P Require Import Prelude.

Module ApiKey.

Inductive ApiKey : Type :=
  | Produce | Fetch | ListOffsets | Metadata | OffsetCommit | OffsetFetch | FindCoordinator
  | JoinGroup | Heartbeat | LeaveGroup | SyncGroup | DescribeGroups | ListGroups
  | ApiVersions | CreateTopics | DeleteTopics | InitProducerId | AddPartitionsToTxn
  | AddOffsetsToTxn | EndTxn | TxnOffsetCommit | SaslHandshake | SaslAuthenticate.

#[export] Instance ApiKey_eq_dec : EqDecision ApiKey.
Proof. solve_decision. Defined.

(** The discriminants, which [as_i16] returns. *)
Definition as_i16 (k : ApiKey) : Z :=
  match k with
  | Produce => 0 | Fetch => 1 | ListOffsets => 2 | Metadata => 3 | OffsetCommit => 8
  | OffsetFetch => 9 | FindCoordinator => 10 | JoinGroup => 11 | Heartbeat => 12
  | LeaveGroup => 13 | SyncGroup => 14 | DescribeGroups => 15 | ListGroups => 16
  | ApiVersions => 18 | CreateTopics => 19 | DeleteTopics => 20 | InitProducerId => 22
  | AddPartitionsToTxn => 24 | AddOffsetsToTxn => 25 | EndTxn => 26 | TxnOffsetCommit => 28
  | SaslHandshake => 17 | SaslAuthenticate => 36
  end.

Definition from_i16 (key : Z) : option ApiKey :=
  match key with
  | 0 => Some Produce | 1 => Some Fetch | 2 => Some ListOffsets | 3 => Some Metadata
  | 8 => Some OffsetCommit | 9 => Some OffsetFetch | 10 => Some FindCoordinator
  | 11 => Some JoinGroup | 12 => Some Heartbeat | 13 => Some LeaveGroup
  | 14 => Some SyncGroup | 15 => Some DescribeGroups | 16 => Some ListGroups
  | 18 => Some ApiVersions | 19 => Some CreateTopics | 20 => Some DeleteTopics
  | 22 => Some InitProducerId | 24 => Some AddPartitionsToTxn | 25 => Some AddOffsetsToTxn
  | 26 => Some EndTxn | 28 => Some TxnOffsetCommit | 17 => Some SaslHandshake
  | 36 => Some SaslAuthenticate
  | _ => None
  end.

End ApiKey.

(** The first flexible version of each API; [i16::MAX] for SaslHandshake. *)
Definition flex_start (api_key : Z) : option Z :=
  match api_key with
  | 0 => Some 9 | 1 => Some 12 | 2 => Some 6 | 3 => Some 9 | 8 => Some 8 | 9 => Some 6
  | 10 => Some 3 | 11 => Some 6 | 12 => Some 4 | 13 => Some 4 | 14 => Some 4 | 15 => Some 5
  | 16 => Some 3 | 18 => Some 3 | 19 => Some 5 | 20 => Some 4 | 22 => Some 2 | 24 => Some 3
  | 25 => Some 3 | 26 => Some 3 | 28 => Some 3 | 17 => Some 32767 | 36 => Some 2
  | _ => None
  end.

Definition is_flexible_version (api_key api_version : Z) : bool :=
  match flex_start api_key with Some s => s <=? api_version | None => false end.

Record ApiVersionRange : Type := mk_range {
  api_key : Z;
  min_version : Z;
  max_version : Z
}.

Definition supported_api_versions : list ApiVersionRange :=
  let range k := mk_range (ApiKey.as_i16 k) in
  [range ApiKey.Produce 0 9; range ApiKey.Fetch 0 12; range ApiKey.ListOffsets 0 7;
   range ApiKey.Metadata 0 12; range ApiKey.OffsetCommit 0 8; range ApiKey.OffsetFetch 0 8;
   range ApiKey.FindCoordinator 0 4; range ApiKey.JoinGroup 0 9;
   range ApiKey.Heartbeat 0 4; range ApiKey.LeaveGroup 0 5; range ApiKey.SyncGroup 0 5;
   range ApiKey.DescribeGroups 0 5; range ApiKey.ListGroups 0 4;
   range ApiKey.ApiVersions 0 3; range ApiKey.CreateTopics 0 7;
   range ApiKey.DeleteTopics 0 6; range ApiKey.InitProducerId 0 3;
   range ApiKey.AddPartitionsToTxn 0 3; range ApiKey.AddOffsetsToTxn 0 3;
   range ApiKey.EndTxn 0 3; range ApiKey.TxnOffsetCommit 0 3;
   range ApiKey.SaslHandshake 0 1; range ApiKey.SaslAuthenticate 0 2].

Inductive CompressionType : Type := CtNone | CtGzip | CtSnappy | CtLz4 | CtZstd.

Definition compression_from_attributes (attributes : Z) : CompressionType :=
  match Z.land attributes 7 with
  | 0 => CtNone | 1 => CtGzip | 2 => CtSnappy | 3 => CtLz4 | 4 => CtZstd | _ => CtNone
  end.

Inductive TimestampType : Type := CreateTime | LogAppendTime.

Definition timestamp_from_attributes (attributes : Z) : TimestampType :=
  if negb (Z.land attributes 8 =? 0) then LogAppendTime else CreateTime.

(** ** Errors *)

(** The arguments of the constructors are kept except the operating-system error of
    [Io], of which only the text is. *)
Inductive KafkaError : Type :=
| KUnknown (m : string) | KIo (m : string) | Protocol (m : string) | TopicNotFound (t : string)
| PartitionNotFound (t : string) (p : Z) | InvalidRequest (m : string)
| UnsupportedApi (key version : Z) | ConsumerGroupError (m : string) | NotCoordinator (g : string)
| RebalanceInProgress (g : string) | MemberNotFound (g m : string)
| InvalidGeneration (expected got : Z) | OffsetOutOfRange (o : Z) | MetadataStore (m : string)
| Storage (m : string) | KCompression (m : string) | ConnectionClosed
| AuthenticationError (m : string) | AuthorizationError (m : string).

Module ErrorCode.

Inductive ErrorCode : Type :=
  | None | UnknownServerError | OffsetOutOfRange | CorruptMessage | UnknownTopicOrPartition
  | InvalidFetchSize | LeaderNotAvailable | NotLeaderOrFollower | RequestTimedOut
  | BrokerNotAvailable | ReplicaNotAvailable | MessageTooLarge | StaleControllerEpoch
  | OffsetMetadataTooLarge | NetworkException | CoordinatorLoadInProgress
  | CoordinatorNotAvailable | NotCoordinator | InvalidTopicException | RecordListTooLarge
  | NotEnoughReplicas | NotEnoughReplicasAfterAppend | InvalidRequiredAcks
  | IllegalGeneration | InconsistentGroupProtocol | InvalidGroupId | UnknownMemberId
  | InvalidSessionTimeout | RebalanceInProgress | InvalidCommitOffsetSize
  | TopicAuthorizationFailed | GroupAuthorizationFailed | ClusterAuthorizationFailed
  | InvalidTimestamp | UnsupportedSaslMechanism | IllegalSaslState | UnsupportedVersion
  | TopicAlreadyExists | InvalidPartitions | InvalidReplicationFactor
  | InvalidReplicaAssignment | InvalidConfig | NotController | InvalidRequest
  | UnsupportedForMessageFormat | PolicyViolation | OutOfOrderSequenceNumber
  | DuplicateSequenceNumber | InvalidProducerEpoch | InvalidTxnState
  | InvalidProducerIdMapping | InvalidTransactionTimeout | ConcurrentTransactions
  | TransactionCoordinatorFenced | TransactionalIdAuthorizationFailed | SecurityDisabled
  | OperationNotAttempted | KafkaStorageError | LogDirNotFound | SaslAuthenticationFailed
  | UnknownProducerId | ReassignmentInProgress | DelegationTokenAuthDisabled
  | DelegationTokenNotFound | DelegationTokenOwnerMismatch
  | DelegationTokenRequestNotAllowed | DelegationTokenAuthorizationFailed
  | DelegationTokenExpired | InvalidPrincipalType | NonEmptyGroup | GroupIdNotFound
  | FetchSessionIdNotFound | InvalidFetchSessionEpoch | ListenerNotFound
  | TopicDeletionDisabled | FencedLeaderEpoch | UnknownLeaderEpoch
  | UnsupportedCompressionType | StaleBrokerEpoch | OffsetNotAvailable | MemberIdRequired
  | PreferredLeaderNotAvailable | GroupMaxSizeReached | FencedInstanceId
  | EligibleLeadersNotAvailable | ElectionNotNeeded | NoReassignmentInProgress
  | GroupSubscribedToTopic | InvalidRecord | UnstableOffsetCommit | ThrottlingQuotaExceeded.

#[export] Instance ErrorCode_eq_dec : EqDecision ErrorCode.
Proof. solve_decision. Defined.

Definition as_i16 (c : ErrorCode) : Z :=
  match c with
  | None => 0 | UnknownServerError => -1 | OffsetOutOfRange => 1 | CorruptMessage => 2
  | UnknownTopicOrPartition => 3 | InvalidFetchSize => 4 | LeaderNotAvailable => 5
  | NotLeaderOrFollower => 6 | RequestTimedOut => 7 | BrokerNotAvailable => 8
  | ReplicaNotAvailable => 9 | MessageTooLarge => 10 | StaleControllerEpoch => 11
  | OffsetMetadataTooLarge => 12 | NetworkException => 13 | CoordinatorLoadInProgress => 14
  | CoordinatorNotAvailable => 15 | NotCoordinator => 16 | InvalidTopicException => 17
  | RecordListTooLarge => 18 | NotEnoughReplicas => 19 | NotEnoughReplicasAfterAppend => 20
  | InvalidRequiredAcks => 21 | IllegalGeneration => 22 | InconsistentGroupProtocol => 23
  | InvalidGroupId => 24 | UnknownMemberId => 25 | InvalidSessionTimeout => 26
  | RebalanceInProgress => 27 | InvalidCommitOffsetSize => 28
  | TopicAuthorizationFailed => 29 | GroupAuthorizationFailed => 30
  | ClusterAuthorizationFailed => 31 | InvalidTimestamp => 32
  | UnsupportedSaslMechanism => 33 | IllegalSaslState => 34 | UnsupportedVersion => 35
  | TopicAlreadyExists => 36 | InvalidPartitions => 37 | InvalidReplicationFactor => 38
  | InvalidReplicaAssignment => 39 | InvalidConfig => 40 | NotController => 41
  | InvalidRequest => 42 | UnsupportedForMessageFormat => 43 | PolicyViolation => 44
  | OutOfOrderSequenceNumber => 45 | DuplicateSequenceNumber => 46
  | InvalidProducerEpoch => 47 | InvalidTxnState => 48 | InvalidProducerIdMapping => 49
  | InvalidTransactionTimeout => 50 | ConcurrentTransactions => 51
  | TransactionCoordinatorFenced => 52 | TransactionalIdAuthorizationFailed => 53
  | SecurityDisabled => 54 | OperationNotAttempted => 55 | KafkaStorageError => 56
  | LogDirNotFound => 57 | SaslAuthenticationFailed => 58 | UnknownProducerId => 59
  | ReassignmentInProgress => 60 | DelegationTokenAuthDisabled => 61
  | DelegationTokenNotFound => 62 | DelegationTokenOwnerMismatch => 63
  | DelegationTokenRequestNotAllowed => 64 | DelegationTokenAuthorizationFailed => 65
  | DelegationTokenExpired => 66 | InvalidPrincipalType => 67 | NonEmptyGroup => 68
  | GroupIdNotFound => 69 | FetchSessionIdNotFound => 70 | InvalidFetchSessionEpoch => 71
  | ListenerNotFound => 72 | TopicDeletionDisabled => 73 | FencedLeaderEpoch => 74
  | UnknownLeaderEpoch => 75 | UnsupportedCompressionType => 76 | StaleBrokerEpoch => 77
  | OffsetNotAvailable => 78 | MemberIdRequired => 79 | PreferredLeaderNotAvailable => 80
  | GroupMaxSizeReached => 81 | FencedInstanceId => 82 | EligibleLeadersNotAvailable => 83
  | ElectionNotNeeded => 84 | NoReassignmentInProgress => 85 | GroupSubscribedToTopic => 86
  | InvalidRecord => 87 | UnstableOffsetCommit => 88 | ThrottlingQuotaExceeded => 89
  end.

End ErrorCode.

(** [From<&KafkaError> for ErrorCode]. *)
Definition error_code_of (err : KafkaError) : ErrorCode.ErrorCode :=
  match err with
  | TopicNotFound _ => ErrorCode.UnknownTopicOrPartition
  | PartitionNotFound _ _ => ErrorCode.UnknownTopicOrPartition
  | InvalidRequest _ => ErrorCode.InvalidRequest
  | UnsupportedApi _ _ => ErrorCode.UnsupportedVersion
  | NotCoordinator _ => ErrorCode.NotCoordinator
  | RebalanceInProgress _ => ErrorCode.RebalanceInProgress
  | MemberNotFound _ _ => ErrorCode.UnknownMemberId
  | InvalidGeneration _ _ => ErrorCode.IllegalGeneration
  | OffsetOutOfRange _ => ErrorCode.OffsetOutOfRange
  | KCompression _ => ErrorCode.UnsupportedCompressionType
  | AuthenticationError _ => ErrorCode.SaslAuthenticationFailed
  | AuthorizationError _ => ErrorCode.ClusterAuthorizationFailed
  | _ => ErrorCode.UnknownServerError
  end.

(** ** Consistency of the tables *)

Module ErrorCodeFacts.
Import ErrorCode.

(** The codes by increasing wire value, from -1. *)
Definition codes : list ErrorCode :=
  [UnknownServerError; None; OffsetOutOfRange; CorruptMessage; UnknownTopicOrPartition;
   InvalidFetchSize; LeaderNotAvailable; NotLeaderOrFollower; RequestTimedOut;
   BrokerNotAvailable; ReplicaNotAvailable; MessageTooLarge; StaleControllerEpoch;
   OffsetMetadataTooLarge; NetworkException; CoordinatorLoadInProgress;
   CoordinatorNotAvailable; NotCoordinator; InvalidTopicException; RecordListTooLarge;
   NotEnoughReplicas; NotEnoughReplicasAfterAppend; InvalidRequiredAcks; IllegalGeneration;
   InconsistentGroupProtocol; InvalidGroupId; UnknownMemberId; InvalidSessionTimeout;
   RebalanceInProgress; InvalidCommitOffsetSize; TopicAuthorizationFailed;
   GroupAuthorizationFailed; ClusterAuthorizationFailed; InvalidTimestamp;
   UnsupportedSaslMechanism; IllegalSaslState; UnsupportedVersion; TopicAlreadyExists;
   InvalidPartitions; InvalidReplicationFactor; InvalidReplicaAssignment; InvalidConfig;
   NotController; InvalidRequest; UnsupportedForMessageFormat; PolicyViolation;
   OutOfOrderSequenceNumber; DuplicateSequenceNumber; InvalidProducerEpoch; InvalidTxnState;
   InvalidProducerIdMapping; InvalidTransactionTimeout; ConcurrentTransactions;
   TransactionCoordinatorFenced; TransactionalIdAuthorizationFailed; SecurityDisabled;
   OperationNotAttempted; KafkaStorageError; LogDirNotFound; SaslAuthenticationFailed;
   UnknownProducerId; ReassignmentInProgress; DelegationTokenAuthDisabled;
   DelegationTokenNotFound; DelegationTokenOwnerMismatch; DelegationTokenRequestNotAllowed;
   DelegationTokenAuthorizationFailed; DelegationTokenExpired; InvalidPrincipalType;
   NonEmptyGroup; GroupIdNotFound; FetchSessionIdNotFound; InvalidFetchSessionEpoch;
   ListenerNotFound; TopicDeletionDisabled; FencedLeaderEpoch; UnknownLeaderEpoch;
   UnsupportedCompressionType; StaleBrokerEpoch; OffsetNotAvailable; MemberIdRequired;
   PreferredLeaderNotAvailable; GroupMaxSizeReached; FencedInstanceId;
   EligibleLeadersNotAvailable; ElectionNotNeeded; NoReassignmentInProgress;
   GroupSubscribedToTopic; InvalidRecord; UnstableOffsetCommit; ThrottlingQuotaExceeded].

Lemma codes_lookup c : codes !! Z.to_nat (as_i16 c + 1) = Some c.
Proof. by destruct c. Qed.

Lemma as_i16_range c : -1 <= as_i16 c <= 89.
Proof. destruct c; simpl; lia. Qed.

#[export] Instance as_i16_inj : Inj (=) (=) as_i16.
Proof.
  intros c d H. pose proof (codes_lookup c) as Hc. rewrite H, codes_lookup in Hc. congruence.
Qed.
End ErrorCodeFacts.

Lemma from_i16_as_i16 k : ApiKey.from_i16 (ApiKey.as_i16 k) = Some k.
Proof. by destruct k. Qed.

Lemma from_i16_inv z k : ApiKey.from_i16 z = Some k -> z = ApiKey.as_i16 k.
Proof.
  unfold ApiKey.from_i16. intros H.
  repeat match type of H with
  | match ?z with _ => _ end = _ => destruct z; try discriminate H
  | Some _ = Some _ => injection H as <-; reflexivity
  end.
Qed.

Lemma supported_lookup k :
  exists r, r ∈ supported_api_versions /\ api_key r = ApiKey.as_i16 k
    /\ 0 <= min_version r <= max_version r
    /\ (forall r', r' ∈ supported_api_versions -> api_key r' = ApiKey.as_i16 k -> r' = r).
Proof.
  assert (Hnd : NoDup (map api_key supported_api_versions)) by (apply (bool_decide_unpack _); by vm_compute).
  assert (Hin : exists r, r ∈ supported_api_versions /\ api_key r = ApiKey.as_i16 k).
  { assert (Hk : ApiKey.as_i16 k ∈ map api_key supported_api_versions)
      by (destruct k; apply (bool_decide_unpack _); by vm_compute).
    apply list_elem_of_fmap in Hk as (r & Hr & Hin). by exists r. }
  destruct Hin as (r & Hr & Hk). exists r. split; [done|]. split; [done|]. split.
  - assert (Hall : Forall (fun r => 0 <= min_version r <= max_version r) supported_api_versions)
      by (repeat constructor; simpl; lia).
    rewrite Forall_forall in Hall. by apply Hall.
  - intros r' Hr' Hk'. apply list_elem_of_lookup in Hr as [i Hi], Hr' as [j Hj].
    assert (i = j) as ->; [|congruence].
    eapply (NoDup_lookup (map api_key supported_api_versions)); [done| |].
    + rewrite list_lookup_fmap, Hi. reflexivity.
    + rewrite list_lookup_fmap, Hj. simpl. by rewrite Hk', Hk.
Qed.

(** The protocol tables are consistent: an API key is recognised exactly by its wire value;
    every API is advertised once in the response to ApiVersions, with a non-empty range of
    versions; every API but SaslHandshake has a first flexible version; the wire values of the
    error codes are distinct and lie between -1 and 89. *)
Theorem protocol_tables (k : ApiKey.ApiKey) (z : Z) (c d : ErrorCode.ErrorCode) :
  (ApiKey.from_i16 z = Some k <-> z = ApiKey.as_i16 k) /\
  (exists r, r ∈ supported_api_versions /\ api_key r = ApiKey.as_i16 k
     /\ 0 <= min_version r <= max_version r
     /\ (forall r', r' ∈ supported_api_versions -> api_key r' = ApiKey.as_i16 k -> r' = r)) /\
  (is_flexible_version (ApiKey.as_i16 k) 32766 = true <-> k <> ApiKey.SaslHandshake) /\
  (ErrorCode.as_i16 c = ErrorCode.as_i16 d <-> c = d) /\ (-1 <= ErrorCode.as_i16 c <= 89).
Proof.
  split; [split; [apply from_i16_inv|intros ->; apply from_i16_as_i16]|].
  split; [apply supported_lookup|]. split; [by destruct k; split|].
  split; [split; [apply ErrorCodeFacts.as_i16_inj|by intros ->]|apply ErrorCodeFacts.as_i16_range].
Qed.

Lemma protocol_tables_witness : ApiKey.from_i16 36 = Some ApiKey.SaslAuthenticate.
Proof.
  by apply (protocol_tables ApiKey.SaslAuthenticate 36 ErrorCode.None ErrorCode.None).
Defined.
