(* ===== verification/KafkaCodec.v ===== *)
(** * The Kafka wire format (crates/streamhouse-kafka/src/codec.rs)

    [Frame] is the length-prefixed framing of [KafkaCodec]; the rest are the primitive
    types of the protocol, each a parser that consumes the front of a buffer and an encoder
    that appends to one, and the request and response headers. *)

From stdpp Require Import pretty.
From S2P Require Import Prelude Varint Utf8 KafkaTypes.

(** A parser consumes the front of the buffer. *)
Abbreviation parser A := (bytes -> outcome KafkaError (A * bytes)).

(** ** Frames *)

Module Frame.

Definition MAX_FRAME_SIZE : Z := 100 * 1024 * 1024.

Record KafkaCodec : Type := mk_codec { max_frame_size : Z }.

Definition new : KafkaCodec := mk_codec MAX_FRAME_SIZE.

Definition too_large (length : Z) (c : KafkaCodec) : KafkaError :=
  Protocol ("Frame size " +:+ pretty length +:+ " exceeds maximum " +:+ pretty (max_frame_size c)).

(** The length is read as an [i32] and cast to [usize], which sign-extends it. *)
Definition decode (c : KafkaCodec) (src : bytes) : outcome KafkaError (option bytes * bytes) :=
  if len src <? 4 then Ok (None, src)
  else
    '(n, _) ← or_panic (get_be 4 src);
    let length := wrap 64 (swrap 32 n) in
    if length >? max_frame_size c then Err (too_large length c)
    else
      let total_length := wrap 64 (4 + length) in
      if len src <? total_length then Ok (None, src)
      else
        '(_, src) ← or_panic (split_to 4 src);
        '(payload, src) ← or_panic (split_to (Z.to_nat length) src);
        Ok (Some payload, src).

Definition encode (c : KafkaCodec) (item dst : bytes) : outcome KafkaError bytes :=
  let length := len item in
  if length >? max_frame_size c then Err (too_large length c)
  else Ok (dst ++ put_be 4 length ++ item).

End Frame.

(** ** Variable-length integers *)

Definition parse_unsigned_varint : parser Z :=
  decode_loop (Protocol "Buffer too short for varint") (Protocol "Varint too long") 0 0.

(** [((unsigned >> 1) as i64) ^ (-((unsigned & 1) as i64))]. *)
Definition parse_signed_varint : parser Z := fun buf =>
  '(unsigned, buf) ← parse_unsigned_varint buf;
  Ok (Z.lxor (swrap 64 (Z.shiftr unsigned 1)) (- swrap 64 (Z.land unsigned 1)), buf).

Definition encode_unsigned_varint (buf : bytes) (value : Z) : bytes := buf ++ encode_loop 10 value.

Definition encode_signed_varint (buf : bytes) (value : Z) : bytes :=
  encode_unsigned_varint buf (zigzag value).

(** ** Strings and byte arrays *)

Definition parse_nullable_string : parser (option string) := fun buf =>
  if len buf <? 2 then Err (Protocol "Buffer too short for string")
  else
    '(n, buf) ← or_panic (get_be 2 buf);
    let length := swrap 16 n in
    if length <? 0 then Ok (None, buf)
    else if len buf <? length
    then Err (Protocol ("Buffer too short for string of length " +:+ pretty length))
    else
      '(bs, buf) ← or_panic (split_to (Z.to_nat length) buf);
      match from_utf8 bs with
      | inr s => Ok (Some s, buf)
      | inl e => Err (Protocol ("Invalid UTF-8 in string: " +:+ display_utf8_error e))
      end.

Definition parse_compact_nullable_string : parser (option string) := fun buf =>
  '(length, buf) ← parse_unsigned_varint buf;
  if length =? 0 then Ok (None, buf)
  else
    let length := length - 1 in
    if len buf <? length
    then Err (Protocol ("Buffer too short for compact string of length " +:+ pretty length))
    else
      '(bs, buf) ← or_panic (split_to (Z.to_nat length) buf);
      match from_utf8 bs with
      | inr s => Ok (Some s, buf)
      | inl e => Err (Protocol ("Invalid UTF-8 in compact string: " +:+ display_utf8_error e))
      end.

Definition parse_string : parser string := fun buf =>
  '(s, buf) ← parse_nullable_string buf;
  s ← ok_or (Protocol "Expected non-null string") s;
  Ok (s, buf).

Definition parse_compact_string : parser string := fun buf =>
  '(s, buf) ← parse_compact_nullable_string buf;
  s ← ok_or (Protocol "Expected non-null compact string") s;
  Ok (s, buf).

Definition parse_nullable_bytes : parser (option bytes) := fun buf =>
  if len buf <? 4 then Err (Protocol "Buffer too short for bytes")
  else
    '(n, buf) ← or_panic (get_be 4 buf);
    let length := swrap 32 n in
    if length <? 0 then Ok (None, buf)
    else if len buf <? length
    then Err (Protocol ("Buffer too short for bytes of length " +:+ pretty length))
    else
      '(bs, buf) ← or_panic (split_to (Z.to_nat length) buf);
      Ok (Some bs, buf).

Definition parse_compact_nullable_bytes : parser (option bytes) := fun buf =>
  '(length, buf) ← parse_unsigned_varint buf;
  if length =? 0 then Ok (None, buf)
  else
    let length := length - 1 in
    if len buf <? length
    then Err (Protocol ("Buffer too short for compact bytes of length " +:+ pretty length))
    else
      '(bs, buf) ← or_panic (split_to (Z.to_nat length) buf);
      Ok (Some bs, buf).

Definition encode_string (buf : bytes) (s : string) : bytes :=
  buf ++ put_be 2 (len (as_bytes s)) ++ as_bytes s.

Definition encode_compact_string (buf : bytes) (s : string) : bytes :=
  encode_unsigned_varint buf (len (as_bytes s) + 1) ++ as_bytes s.

Definition encode_nullable_string (buf : bytes) (s : option string) : bytes :=
  match s with
  | Some s => buf ++ put_be 2 (len (as_bytes s)) ++ as_bytes s
  | None => buf ++ put_be 2 (-1)
  end.

Definition encode_compact_nullable_string (buf : bytes) (s : option string) : bytes :=
  match s with
  | Some s => encode_unsigned_varint buf (len (as_bytes s) + 1) ++ as_bytes s
  | None => encode_unsigned_varint buf 0
  end.

Definition encode_nullable_bytes (buf : bytes) (b : option bytes) : bytes :=
  match b with
  | Some b => buf ++ put_be 4 (len b) ++ b
  | None => buf ++ put_be 4 (-1)
  end.

Definition encode_compact_nullable_bytes (buf : bytes) (b : option bytes) : bytes :=
  match b with
  | Some b => encode_unsigned_varint buf (len b + 1) ++ b
  | None => encode_unsigned_varint buf 0
  end.

(** ** Arrays *)

Section arrays.
Context {T : Type} (size_of_T : Z) (parse_element : parser T).

(** [Vec::with_capacity(count)] panics when the allocation exceeds [isize::MAX] bytes. *)
Definition with_capacity (count : Z) : outcome KafkaError unit :=
  if count * size_of_T >? 2 ^ 63 - 1 then Panic else Ok tt.

Fixpoint parse_elements (count : nat) : parser (list T) := fun buf =>
  match count with
  | O => Ok ([], buf)
  | S count =>
      '(x, buf) ← parse_element buf;
      '(xs, buf) ← parse_elements count buf;
      Ok (x :: xs, buf)
  end.

Definition parse_array : parser (list T) := fun buf =>
  if len buf <? 4 then Err (Protocol "Buffer too short for array")
  else
    '(n, buf) ← or_panic (get_be 4 buf);
    let count := swrap 32 n in
    if count <? 0 then Ok ([], buf)
    else
      _ ← with_capacity count;
      parse_elements (Z.to_nat count) buf.

Definition parse_compact_array : parser (list T) := fun buf =>
  '(count, buf) ← parse_unsigned_varint buf;
  if count =? 0 then Ok ([], buf)
  else
    let count := count - 1 in
    _ ← with_capacity count;
    parse_elements (Z.to_nat count) buf.
End arrays.

(** ** Tagged fields *)

Fixpoint skip_loop (count : nat) (buf : bytes) : outcome KafkaError bytes :=
  match count with
  | O => Ok buf
  | S count =>
      '(_, buf) ← parse_unsigned_varint buf;
      '(size, buf) ← parse_unsigned_varint buf;
      if len buf <? size then Err (Protocol "Buffer too short for tagged field")
      else
        '(_, buf) ← or_panic (split_to (Z.to_nat size) buf);
        skip_loop count buf
  end.

Definition skip_tagged_fields (buf : bytes) : outcome KafkaError bytes :=
  '(count, buf) ← parse_unsigned_varint buf;
  skip_loop (Z.to_nat count) buf.

Definition encode_empty_tagged_fields (buf : bytes) : bytes := encode_unsigned_varint buf 0.

(** ** Headers *)

Record RequestHeader : Type := mk_request_header {
  rh_api_key : Z;
  rh_api_version : Z;
  rh_correlation_id : Z;
  rh_client_id : option string
}.

Definition parse_request_header : parser RequestHeader := fun buf =>
  if len buf <? 8 then Err (Protocol "Request header too short")
  else
    '(k, buf) ← or_panic (get_be 2 buf);
    '(v, buf) ← or_panic (get_be 2 buf);
    '(c, buf) ← or_panic (get_be 4 buf);
    let api_key := swrap 16 k in
    let api_version := swrap 16 v in
    let flexible := is_flexible_version api_key api_version in
    '(client_id, buf) ←
      (if flexible then parse_compact_nullable_string buf else parse_nullable_string buf);
    buf ← (if flexible then skip_tagged_fields buf else Ok buf);
    Ok (mk_request_header api_key api_version (swrap 32 c) client_id, buf).

Definition encode_response_header (correlation_id : Z) (buf : bytes) : bytes :=
  buf ++ put_be 4 correlation_id.

Definition encode_response_header_flexible (correlation_id : Z) (buf : bytes) : bytes :=
  encode_empty_tagged_fields (buf ++ put_be 4 correlation_id).
