(* ===== verification/KafkaCodecFacts.v ===== *)
(** * Properties of the Kafka wire format

    Every primitive type is packaged as a [format]: an encoder, a parser, the values that
    fit the format, and the round-trip law.  Arrays are a combinator on formats, so the
    round trip of a nested structure is the composition of the laws of its fields. *)

From S2P Require Import Prelude Varint Utf8 KafkaTypes KafkaCodec.

(** ** Safe parsers: never a panic, and the rest is a suffix of the buffer *)

Definition safe {A} (p : parser A) : Prop := forall buf,
  match p buf with
  | Ok (_, rest) => exists pre, buf = pre ++ rest
  | Err _ => True
  | Panic => False
  end.

Lemma safe_bind {A B} (p : parser A) (f : A -> parser B) :
  safe p -> (forall a, safe (f a)) -> safe (fun buf => '(a, buf) ← p buf; f a buf).
Proof.
  intros Hp Hf buf. specialize (Hp buf). destruct (p buf) as [[a rest]|e|]; cbn; [|done|done].
  destruct Hp as [pre ->]. specialize (Hf a rest). destruct (f a rest) as [[b rest']|e|]; [|done|done].
  destruct Hf as [pre' ->]. exists (pre ++ pre'). by rewrite app_assoc.
Qed.

Lemma safe_ret {A} (a : A) : safe (fun buf => Ok (a, buf)).
Proof. intros buf. by exists []. Qed.

Lemma safe_err {A} e : safe (A := A) (fun _ => Err e).
Proof. by intros buf. Qed.

Lemma safe_if {A} (b : bytes -> bool) (p q : parser A) :
  safe p -> safe q -> safe (fun buf => if b buf then p buf else q buf).
Proof. intros Hp Hq buf. specialize (Hp buf). specialize (Hq buf). by destruct (b buf). Qed.

(** A read of [n] bytes that a length check guards. *)
Lemma safe_split {A} n k e (f : bytes -> parser A) :
  (n <= Z.to_nat k)%nat -> (forall a, safe (f a)) ->
  safe (fun buf => if len buf <? k then Err e
                   else '(a, buf) ← or_panic (split_to n buf); f a buf).
Proof.
  intros Hk Hf buf. destruct (Z.ltb_spec (len buf) k); [done|].
  unfold split_to. rewrite decide_True by lia. cbn.
  specialize (Hf (take n buf) (drop n buf)).
  destruct (f _ _) as [[b rest]|x|]; [|done|done].
  destruct Hf as [pre Hpre]. exists (take n buf ++ pre).
  rewrite <- app_assoc, <- Hpre. by rewrite take_drop.
Qed.

Lemma safe_get {A} n k e (f : Z -> parser A) :
  (n <= Z.to_nat k)%nat -> (forall a, safe (f a)) ->
  safe (fun buf => if len buf <? k then Err e
                   else '(a, buf) ← or_panic (get_be n buf); f a buf).
Proof.
  intros Hk Hf buf. destruct (Z.ltb_spec (len buf) k); [done|].
  rewrite get_be_ok by lia. cbn.
  match goal with |- context [f ?v (drop n buf)] => specialize (Hf v (drop n buf)) end.
  destruct (f _ _) as [[b rest]|x|]; [|done|done].
  destruct Hf as [pre Hpre]. exists (take n buf ++ pre).
  rewrite <- app_assoc, <- Hpre. by rewrite take_drop.
Qed.

Lemma safe_unsigned_varint : safe parse_unsigned_varint.
Proof.
  intros buf.
  pose proof (decode_loop_total (Protocol "Buffer too short for varint")
    (Protocol "Varint too long") 0 0 buf ltac:(unfold in_u; lia) ltac:(lia) eq_refl ltac:(lia)) as H.
  unfold parse_unsigned_varint. destruct (decode_loop _ _ _ _ _) as [[v rest]|e|]; [|done|done].
  destruct H as (_ & pre & -> & _). by exists pre.
Qed.

#[export] Hint Resolve safe_ret safe_err safe_unsigned_varint : streamhouse.

Lemma safe_utf8 (f : Utf8Error -> string) bs :
  safe (fun buf => match from_utf8 bs with
                   | inr s => Ok (Some s, buf)
                   | inl e => Err (Protocol (f e))
                   end).
Proof. destruct (from_utf8 bs); eauto with streamhouse. Qed.

Lemma safe_nullable_string : safe parse_nullable_string.
Proof.
  apply safe_get; [done|]. intros n. apply (safe_if (fun _ => swrap 16 n <? 0)); [auto with streamhouse|].
  apply safe_split; [lia|]. intros bs. apply safe_utf8.
Qed.

Lemma safe_compact_nullable_string : safe parse_compact_nullable_string.
Proof.
  apply (safe_bind parse_unsigned_varint); [auto with streamhouse|]. intros n.
  apply (safe_if (fun _ => n =? 0)); [auto with streamhouse|].
  apply safe_split; [lia|]. intros bs. apply safe_utf8.
Qed.

Lemma safe_nullable_bytes : safe parse_nullable_bytes.
Proof.
  apply safe_get; [done|]. intros n. apply (safe_if (fun _ => swrap 32 n <? 0)); [auto with streamhouse|].
  apply safe_split; [lia|]. intros bs. auto with streamhouse.
Qed.

Lemma safe_compact_nullable_bytes : safe parse_compact_nullable_bytes.
Proof.
  apply (safe_bind parse_unsigned_varint); [auto with streamhouse|]. intros n.
  apply (safe_if (fun _ => n =? 0)); [auto with streamhouse|].
  apply safe_split; [lia|]. intros bs. auto with streamhouse.
Qed.

Lemma safe_ok_or {A} (p : parser (option A)) e :
  safe p -> safe (fun buf => '(s, buf) ← p buf; s ← ok_or e s; Ok (s, buf)).
Proof.
  intros Hp. apply (safe_bind p (fun s buf => s ← ok_or e s; Ok (s, buf))); [done|].
  intros [a|] buf; cbn; [by exists []|done].
Qed.

Lemma safe_elements {T} (p : parser T) n : safe p -> safe (parse_elements p n).
Proof.
  intros Hp. induction n as [|n IH]; [apply safe_ret|].
  apply (safe_bind p); [done|]. intros x. apply (safe_bind (parse_elements p n)); [done|].
  intros xs. apply safe_ret.
Qed.

Lemma safe_array {T} size (p : parser T) :
  safe p -> 0 <= size -> size * (2 ^ 31 - 1) <= 2 ^ 63 - 1 -> safe (parse_array size p).
Proof.
  intros Hp Hs0 Hs. apply safe_get; [done|]. intros n.
  apply (safe_if (fun _ => swrap 32 n <? 0)); [apply safe_ret|].
  intros buf. unfold with_capacity.
  assert (Hn : swrap 32 n <= 2 ^ 31 - 1).
  { pose proof (swrap_in_i 32 n ltac:(lia)) as H. unfold in_i in H.
    change (2 ^ (32 - 1)) with (2 ^ 31) in H. lia. }
  destruct (Z.gtb_spec (swrap 32 n * size) (2 ^ 63 - 1)) as [H|_]; [exfalso; nia|].
  cbn. apply (safe_elements p _ Hp).
Qed.

Lemma safe_ext {A} (p q : parser A) : (forall buf, p buf = q buf) -> safe p -> safe q.
Proof. intros Hpq Hp buf. rewrite <- Hpq. apply Hp. Qed.

(** [skip_loop] as a parser of nothing. *)
Lemma safe_skip_loop n : safe (fun buf => buf ← skip_loop n buf; Ok (tt, buf)).
Proof.
  induction n as [|n IH]; [apply (safe_ret tt)|].
  apply (safe_ext (fun buf =>
    '(_, buf) ← parse_unsigned_varint buf;
    (fun buf =>
      '(size, buf) ← parse_unsigned_varint buf;
      (fun buf =>
        if len buf <? size then Err (Protocol "Buffer too short for tagged field")
        else '(_, buf) ← or_panic (split_to (Z.to_nat size) buf);
             buf ← skip_loop n buf; Ok (tt, buf)) buf) buf)).
  - intros buf. cbn [skip_loop].
    destruct (parse_unsigned_varint buf) as [[tag buf1]|e|]; cbn; [|done|done].
    destruct (parse_unsigned_varint buf1) as [[size buf2]|e|]; cbn; [|done|done].
    destruct (len buf2 <? size); [done|]. by destruct (or_panic _) as [[]| |].
  - apply (safe_bind parse_unsigned_varint); [auto with streamhouse|]. intros _.
    apply (safe_bind parse_unsigned_varint); [auto with streamhouse|]. intros size.
    apply (safe_split _ _ _ (fun _ buf => buf ← skip_loop n buf; Ok (tt, buf))); [lia|done].
Qed.

Lemma safe_skip_tagged_fields : safe (fun buf => buf ← skip_tagged_fields buf; Ok (tt, buf)).
Proof.
  apply (safe_ext (fun buf => '(count, buf) ← parse_unsigned_varint buf;
           (fun buf => buf ← skip_loop (Z.to_nat count) buf; Ok (tt, buf)) buf)).
  - intros buf. unfold skip_tagged_fields.
    by destruct (parse_unsigned_varint buf) as [[]| |].
  - apply (safe_bind parse_unsigned_varint); [auto with streamhouse|]. intros n.
    apply safe_skip_loop.
Qed.

#[export] Hint Resolve safe_nullable_string safe_compact_nullable_string safe_nullable_bytes
  safe_compact_nullable_bytes safe_skip_tagged_fields : streamhouse.

Lemma safe_client_id (flexible : bool) :
  safe (if flexible then parse_compact_nullable_string else parse_nullable_string).
Proof. destruct flexible; auto with streamhouse. Qed.

Lemma safe_tags {A} (flexible : bool) (a : A) :
  safe (fun buf => buf ← (if flexible then skip_tagged_fields buf else Ok buf); Ok (a, buf)).
Proof.
  destruct flexible; [|apply (safe_ret a)]. intros buf. pose proof (safe_skip_tagged_fields buf) as H.
  cbn beta in H. destruct (skip_tagged_fields buf); exact H.
Qed.

Lemma safe_request_header : safe parse_request_header.
Proof.
  intros buf. unfold parse_request_header. destruct (Z.ltb_spec (len buf) 8); [done|].
  rewrite get_be_ok by lia. cbn. rewrite get_be_ok by (rewrite length_drop; lia). cbn.
  rewrite get_be_ok by (rewrite !length_drop; lia). cbn.
  rewrite !drop_drop. set (flexible := is_flexible_version _ _). set (header := mk_request_header _ _ _).
  pose proof (safe_bind (if flexible then parse_compact_nullable_string else parse_nullable_string)
    (fun c buf => buf ← (if flexible then skip_tagged_fields buf else Ok buf); Ok (header c, buf))
    (safe_client_id flexible) (fun c => safe_tags flexible (header c)) (drop 8 buf)) as H8.
  cbn in H8. destruct flexible; cbn in *; destruct (_ ≫= _) as [[h rest]|e|]; try done;
    destruct H8 as [pre Hpre]; exists (take 8 buf ++ pre); by rewrite <- app_assoc, <- Hpre, take_drop.
Qed.

(** ** Formats *)

Record format (T : Type) : Type := mk_format {
  enc : bytes -> T -> bytes;
  dec : parser T;
  wf : T -> Prop;
  enc_appends : forall buf x, enc buf x = buf ++ enc [] x;
  dec_enc : forall x rest, wf x -> dec (enc [] x ++ rest) = Ok (x, rest)
}.
Arguments mk_format {T}.
Arguments enc {T}. Arguments dec {T}. Arguments wf {T}.
Arguments enc_appends {T}. Arguments dec_enc {T}.

Lemma parse_unsigned_varint_encode v rest :
  in_u 64 v -> parse_unsigned_varint (encode_loop 10 v ++ rest) = Ok (v, rest).
Proof.
  intros Hv. unfold parse_unsigned_varint, in_u in *.
  rewrite decode_encode_loop; try lia. do 2 f_equal. lia.
Qed.

Program Definition unsigned_varint_format : format Z :=
  mk_format encode_unsigned_varint parse_unsigned_varint (in_u 64) _ _.
Next Obligation. done. Qed.
Next Obligation. intros v rest Hv. by apply parse_unsigned_varint_encode. Qed.

(** The decoder of this crate negates the low bit where the one of the core crate
    complements; they agree. *)
Lemma lxor_sign_unzigzag u :
  in_u 64 u -> Z.lxor (swrap 64 (Z.shiftr u 1)) (- swrap 64 (Z.land u 1)) = unzigzag u.
Proof.
  intros Hu. unfold unzigzag. rewrite land_1. destruct (Z.mod_pos_bound u 2); [lia|].
  assert (Hm : u mod 2 = 0 \/ u mod 2 = 1) by lia.
  destruct Hm as [-> | ->].
  - change (negb (0 =? 0)) with false. change (- swrap 64 0) with 0. apply Z.lxor_0_r.
  - change (negb (1 =? 0)) with true. change (- swrap 64 1) with (-1). apply Z.lxor_m1_r.
Qed.

Program Definition signed_varint_format : format Z :=
  mk_format encode_signed_varint parse_signed_varint (in_i 64) _ _.
Next Obligation. done. Qed.
Next Obligation.
  intros v rest Hv. unfold parse_signed_varint, encode_signed_varint, encode_unsigned_varint.
  cbn [app]. rewrite parse_unsigned_varint_encode by by apply zigzag_in_u. cbn.
  rewrite lxor_sign_unzigzag by by apply zigzag_in_u. by rewrite unzigzag_zigzag.
Qed.

(** A length prefix of [n] bytes that is read as a signed integer. *)
Lemma get_be_signed n v rest :
  (0 < n)%nat -> in_i (8 * Z.of_nat n) v ->
  exists u, get_be n (put_be n v ++ rest) = Some (u, rest) /\ swrap (8 * Z.of_nat n) u = v.
Proof.
  intros Hn Hv. rewrite get_be_ok by (rewrite length_app, length_put_be; lia).
  rewrite take_app_length', drop_app_length' by (by rewrite length_put_be).
  unfold put_be. rewrite rev_involutive, le_combine_split.
  eexists; split; [reflexivity|]. replace (Z.of_nat n * 8) with (8 * Z.of_nat n) by lia.
  unfold swrap. rewrite Z.mod_mod by lia. apply (swrap_small (8 * Z.of_nat n) v); [lia|done].
Qed.

Lemma split_to_len (a rest : bytes) : split_to (Z.to_nat (len a)) (a ++ rest) = Some (a, rest).
Proof. apply split_to_app. lia. Qed.

Lemma ltb_false x y : y <= x -> (x <? y) = false.
Proof. intros. apply Z.ltb_ge. lia. Qed.
Lemma gtb_false x y : x <= y -> (x >? y) = false.
Proof. intros. rewrite Z.gtb_ltb. apply Z.ltb_ge. lia. Qed.

(** Reads a signed length prefix that was just written, through its length check. *)
Ltac get_prefix n v Hu :=
  let u := fresh "u" in let Hg := fresh "Hg" in
  rewrite ltb_false by (rewrite ?length_app, ?length_put_be; lia);
  match goal with
  | |- context [get_be n (put_be n v ++ ?r)] =>
      destruct (get_be_signed n v r) as (u & Hg & Hu); [lia|unfold in_i; simpl; lia|];
      rewrite Hg; clear Hg;
      let w := eval vm_compute in (8 * Z.of_nat n) in change (8 * Z.of_nat n) with w in Hu
  end.

Definition wf_string16 (s : string) : Prop := utf8 s /\ len (as_bytes s) <= 32767.
Definition wf_string64 (s : string) : Prop := utf8 s /\ len (as_bytes s) < 2 ^ 64 - 1.
Definition wf_option {A} (P : A -> Prop) (o : option A) : Prop := forall a, o = Some a -> P a.

Lemma parse_nullable_string_some s rest :
  wf_string16 s ->
  parse_nullable_string (put_be 2 (len (as_bytes s)) ++ as_bytes s ++ rest) = Ok (Some s, rest).
Proof.
  intros [Hs Hl]. unfold parse_nullable_string. get_prefix 2%nat (len (as_bytes s)) Hu.
  cbn [or_panic mbind outcome_bind]. rewrite Hu.
  rewrite ltb_false by lia. rewrite ltb_false by (rewrite length_app; lia).
  rewrite split_to_len. cbn. by rewrite from_utf8_as_bytes.
Qed.

Lemma parse_nullable_string_none rest :
  parse_nullable_string (put_be 2 (-1) ++ rest) = Ok (None, rest).
Proof.
  unfold parse_nullable_string. get_prefix 2%nat (-1) Hu. 
  cbn [or_panic mbind outcome_bind]. by rewrite Hu.
Qed.

Program Definition nullable_string_format : format (option string) :=
  mk_format encode_nullable_string parse_nullable_string (wf_option wf_string16) _ _.
Next Obligation. by intros buf [s|]. Qed.
Next Obligation.
  intros [s|] rest Hs; cbn [encode_nullable_string app].
  - rewrite <- app_assoc. apply parse_nullable_string_some. by apply Hs.
  - apply parse_nullable_string_none.
Qed.

Program Definition string_format : format string :=
  mk_format encode_string parse_string wf_string16 _ _.
Next Obligation. done. Qed.
Next Obligation.
  intros s rest Hs. unfold parse_string, encode_string. cbn [app]. rewrite <- app_assoc.
  by rewrite parse_nullable_string_some.
Qed.

Lemma parse_compact_nullable_string_some s rest :
  wf_string64 s ->
  parse_compact_nullable_string (encode_loop 10 (len (as_bytes s) + 1) ++ as_bytes s ++ rest)
  = Ok (Some s, rest).
Proof.
  intros [Hs Hl]. unfold parse_compact_nullable_string.
  rewrite parse_unsigned_varint_encode by (unfold in_u; lia). cbn [mbind outcome_bind].
  destruct (Z.eqb_spec (len (as_bytes s) + 1) 0); [lia|].
  replace (len (as_bytes s) + 1 - 1) with (len (as_bytes s)) by lia.
  rewrite ltb_false by (rewrite length_app; lia). rewrite split_to_len. cbn.
  by rewrite from_utf8_as_bytes.
Qed.

Program Definition compact_nullable_string_format : format (option string) :=
  mk_format encode_compact_nullable_string parse_compact_nullable_string
    (wf_option wf_string64) _ _.
Next Obligation.
  intros buf [s|]; cbn; unfold encode_unsigned_varint; [by rewrite <- app_assoc|done].
Qed.
Next Obligation.
  intros [s|] rest Hs; unfold encode_compact_nullable_string, encode_unsigned_varint; cbn [app].
  - rewrite <- app_assoc. apply parse_compact_nullable_string_some. by apply Hs.
  - unfold parse_compact_nullable_string.
    by rewrite parse_unsigned_varint_encode by (unfold in_u; lia).
Qed.

Program Definition compact_string_format : format string :=
  mk_format encode_compact_string parse_compact_string wf_string64 _ _.
Next Obligation. intros. unfold encode_compact_string, encode_unsigned_varint. by rewrite <- app_assoc. Qed.
Next Obligation.
  intros s rest Hs. unfold parse_compact_string, encode_compact_string, encode_unsigned_varint.
  cbn [app]. rewrite <- app_assoc. by rewrite parse_compact_nullable_string_some.
Qed.

Program Definition nullable_bytes_format : format (option bytes) :=
  mk_format encode_nullable_bytes parse_nullable_bytes
    (wf_option (fun b => len b < 2 ^ 31)) _ _.
Next Obligation. by intros buf [b|]. Qed.
Next Obligation.
  intros [b|] rest Hb; unfold parse_nullable_bytes, encode_nullable_bytes; cbn [app].
  - specialize (Hb b eq_refl). cbn beta in Hb. rewrite <- app_assoc. get_prefix 4%nat (len b) Hu.
    cbn [or_panic mbind outcome_bind]. rewrite Hu.
    rewrite ltb_false by lia. rewrite ltb_false by (rewrite length_app; lia).
    by rewrite split_to_len.
  - get_prefix 4%nat (-1) Hu. cbn [or_panic mbind outcome_bind]. by rewrite Hu.
Qed.

Program Definition compact_nullable_bytes_format : format (option bytes) :=
  mk_format encode_compact_nullable_bytes parse_compact_nullable_bytes
    (wf_option (fun b => len b < 2 ^ 64 - 1)) _ _.
Next Obligation.
  intros buf [s|]; cbn; unfold encode_unsigned_varint; [by rewrite <- app_assoc|done].
Qed.
Next Obligation.
  intros [b|] rest Hb; unfold encode_compact_nullable_bytes, parse_compact_nullable_bytes,
    encode_unsigned_varint; cbn [app].
  - specialize (Hb b eq_refl). cbn beta in Hb. rewrite <- app_assoc.
    rewrite parse_unsigned_varint_encode by (unfold in_u; lia). cbn [mbind outcome_bind].
    destruct (Z.eqb_spec (len b + 1) 0); [lia|]. replace (len b + 1 - 1) with (len b) by lia.
    rewrite ltb_false by (rewrite length_app; lia). by rewrite split_to_len.
  - by rewrite parse_unsigned_varint_encode by (unfold in_u; lia).
Qed.

(** ** Arrays of a format *)

Section array_formats.
Context {T : Type} (size_of_T : Z) (f : format T).

Definition enc_elements (buf : bytes) (xs : list T) : bytes := foldl (enc f) buf xs.

Lemma enc_elements_app buf xs : enc_elements buf xs = buf ++ enc_elements [] xs.
Proof.
  unfold enc_elements. revert buf. induction xs as [|x xs IH]; intros buf; simpl; [by rewrite app_nil_r|].
  rewrite IH, (IH (enc f [] x)), enc_appends. by rewrite app_assoc.
Qed.

Lemma parse_elements_enc xs rest :
  Forall (wf f) xs ->
  parse_elements (dec f) (length xs) (enc_elements [] xs ++ rest) = Ok (xs, rest).
Proof.
  intros Hxs. induction Hxs as [|x xs Hx _ IH]; [done|]. cbn [length parse_elements].
  unfold enc_elements. simpl foldl. fold (enc_elements (enc f [] x) xs). rewrite enc_elements_app, <- app_assoc.
  rewrite dec_enc by done. cbn [mbind outcome_bind]. by rewrite IH.
Qed.

Lemma with_capacity_ok n : n * size_of_T <= 2 ^ 63 - 1 -> with_capacity size_of_T n = Ok tt.
Proof. intros. unfold with_capacity. by rewrite gtb_false. Qed.

(** The handlers write the count ([put_i32(n as i32)], or the varint of [n + 1]) and then
    each element. *)
Program Definition array_format : format (list T) :=
  mk_format (fun buf xs => enc_elements (buf ++ put_be 4 (len xs)) xs)
    (parse_array size_of_T (dec f))
    (fun xs => len xs < 2 ^ 31 /\ len xs * size_of_T <= 2 ^ 63 - 1 /\ Forall (wf f) xs) _ _.
Next Obligation.
  intros buf xs. cbn beta. rewrite enc_elements_app. cbn [app].
  rewrite (enc_elements_app (put_be _ _)).
  by rewrite app_assoc.
Qed.
Next Obligation.
  intros xs rest (Hl & Hc & Hxs). cbn beta. rewrite enc_elements_app, <- app_assoc.
  unfold parse_array. cbn [app]. get_prefix 4%nat (len xs) Hu. cbn [or_panic mbind outcome_bind]. rewrite Hu.
  rewrite ltb_false by lia. rewrite with_capacity_ok by done. cbn [mbind outcome_bind].
  rewrite Nat2Z.id. by apply parse_elements_enc.
Qed.

Program Definition compact_array_format : format (list T) :=
  mk_format (fun buf xs => enc_elements (encode_unsigned_varint buf (len xs + 1)) xs)
    (parse_compact_array size_of_T (dec f))
    (fun xs => len xs < 2 ^ 64 - 1 /\ len xs * size_of_T <= 2 ^ 63 - 1 /\ Forall (wf f) xs) _ _.
Next Obligation.
  intros buf xs. cbn beta. rewrite enc_elements_app. unfold encode_unsigned_varint. cbn [app].
  rewrite (enc_elements_app (encode_loop _ _)). by rewrite app_assoc.
Qed.
Next Obligation.
  intros xs rest (Hl & Hc & Hxs). cbn beta. rewrite enc_elements_app, <- app_assoc.
  unfold parse_compact_array, encode_unsigned_varint. cbn [app].
  rewrite parse_unsigned_varint_encode by (unfold in_u; lia). cbn [mbind outcome_bind].
  destruct (Z.eqb_spec (len xs + 1) 0); [lia|]. replace (len xs + 1 - 1) with (len xs) by lia.
  rewrite with_capacity_ok by done. cbn [mbind outcome_bind].
  rewrite Nat2Z.id. by apply parse_elements_enc.
Qed.
End array_formats.

(** ** Frames *)

Module FrameFacts.
Import Frame.

(** The configured limit leaves room for the length prefix in a [usize]. *)
Definition sane (c : KafkaCodec) : Prop := 0 <= max_frame_size c < 2 ^ 31.

(** The length of the next frame, once its four bytes are there. *)
Definition frame_length (src : bytes) : Z := swrap 32 (le_combine (rev (take 4 src))).

Lemma frame_length_range src : - 2 ^ 31 <= frame_length src < 2 ^ 31.
Proof. apply (swrap_in_i 32). lia. Qed.

Lemma frame_length_app src more : (4 <= length src)%nat -> frame_length (src ++ more) = frame_length src.
Proof. intros. unfold frame_length. by rewrite take_app_le by lia. Qed.

(** The four behaviours of the decoder. *)
Lemma decode_spec c src :
  sane c ->
  decode c src =
    if len src <? 4 then Ok (None, src)
    else if (frame_length src <? 0) || (max_frame_size c <? frame_length src)
    then Err (too_large (wrap 64 (frame_length src)) c)
    else if len src <? 4 + frame_length src then Ok (None, src)
    else Ok (Some (take (Z.to_nat (frame_length src)) (drop 4 src)),
             drop (Z.to_nat (frame_length src)) (drop 4 src)).
Proof.
  intros Hc. unfold sane in Hc. unfold decode. destruct (Z.ltb_spec (len src) 4); [done|].
  rewrite get_be_ok by lia. cbn [or_panic mbind outcome_bind].
  fold (frame_length src). pose proof (frame_length_range src) as Hr.
  destruct (Z.ltb_spec (frame_length src) 0) as [Hneg|Hpos]; cbn [orb].
  - assert (Hw : wrap 64 (frame_length src) = frame_length src + 2 ^ 64).
    { unfold wrap. rewrite <- (Z.mod_add _ 1) by lia. rewrite Z.mod_small; lia. }
    rewrite Hw. destruct (Z.gtb_spec (frame_length src + 2 ^ 64) (max_frame_size c)); [done|lia].
  - rewrite (wrap_small 64 (frame_length src)) by (unfold in_u; lia). rewrite Z.gtb_ltb.
    destruct (Z.ltb_spec (max_frame_size c) (frame_length src)); [done|].
    rewrite wrap_small by (unfold in_u; lia).
    destruct (Z.ltb_spec (len src) (4 + frame_length src)); [done|].
    unfold split_to. rewrite decide_True by lia. cbn.
    rewrite decide_True by (rewrite length_drop; lia). done.
Qed.

(** More input does not change a decision that was made. *)
Lemma decode_more c src more :
  sane c ->
  match decode c src with
  | Ok (Some p, rest) => decode c (src ++ more) = Ok (Some p, rest ++ more)
  | Ok (None, rest) => rest = src
  | Err e => decode c (src ++ more) = Err e
  | Panic => False
  end.
Proof.
  intros Hc. rewrite !decode_spec by done. destruct (Z.ltb_spec (len src) 4); [done|].
  rewrite (ltb_false _ 4) by (rewrite length_app; lia).
  rewrite frame_length_app by lia.
  destruct (_ || _) eqn:Hb; [done|]. apply orb_false_iff in Hb as [H1%Z.ltb_ge H2%Z.ltb_ge].
  destruct (Z.ltb_spec (len src) (4 + frame_length src)); [done|].
  rewrite ltb_false by (rewrite length_app; lia).
  rewrite drop_app_le by lia. rewrite take_app_le, drop_app_le by (rewrite length_drop; lia). done.
Qed.

Lemma decode_shorter c src p rest :
  sane c -> decode c src = Ok (Some p, rest) -> (length rest < length src)%nat.
Proof.
  intros Hc. rewrite decode_spec by done. destruct (Z.ltb_spec (len src) 4); [done|].
  destruct (_ || _); [done|]. destruct (_ <? _); [done|]. intros [= _ <-].
  rewrite !length_drop. lia.
Qed.

(** What the framing layer ([tokio_util]'s [Framed]) does with a decoder: it calls [decode]
    until it asks for more data, an error ends the stream. The fuel is the number of calls. *)
Fixpoint drain (fuel : nat) (c : KafkaCodec) (buf : bytes)
  : list bytes * outcome KafkaError bytes :=
  match fuel with
  | O => ([], Ok buf)
  | S fuel =>
      match decode c buf with
      | Ok (None, rest) => ([], Ok rest)
      | Ok (Some p, rest) => let '(ps, r) := drain fuel c rest in (p :: ps, r)
      | Err e => ([], Err e)
      | Panic => ([], Panic)
      end
  end.

Definition drain_all c buf := drain (S (length buf)) c buf.

(** Reads arriving one after the other. *)
Fixpoint feed (c : KafkaCodec) (buf : bytes) (chunks : list bytes)
  : list bytes * outcome KafkaError bytes :=
  match chunks with
  | [] => ([], Ok buf)
  | chunk :: chunks =>
      match drain_all c (buf ++ chunk) with
      | (ps, Ok rest) => let '(ps', r) := feed c rest chunks in (ps ++ ps', r)
      | (ps, Err e) => (ps, Err e)
      | (ps, Panic) => (ps, Panic)
      end
  end.

Lemma drain_fuel c f g buf :
  sane c -> (length buf < f)%nat -> (length buf < g)%nat -> drain f c buf = drain g c buf.
Proof.
  intros Hc. revert g buf. induction f as [|f IH]; intros [|g] buf Hf Hg; [lia..|]. cbn [drain].
  destruct (decode c buf) as [[[p|] rest]|e|] eqn:Hd; [|done..].
  pose proof (decode_shorter c buf p rest Hc Hd). by rewrite (IH g) by lia.
Qed.

(** The frames found so far do not depend on what follows. *)
Lemma drain_more c more f : sane c -> forall buf, (length buf < f)%nat ->
  drain_all c (buf ++ more) =
    match drain f c buf with
    | (ps, Ok rest) => let '(ps', r) := drain_all c (rest ++ more) in (ps ++ ps', r)
    | (ps, Err e) => (ps, Err e)
    | (ps, Panic) => (ps, Panic)
    end.
Proof.
  intros Hc. induction f as [|f IH]; intros buf Hf; [lia|]. cbn [drain].
  pose proof (decode_more c buf more Hc) as Hm.
  destruct (decode c buf) as [[[p|] rest]|e|] eqn:Hd.
  - pose proof (decode_shorter c buf p rest Hc Hd).
    unfold drain_all at 1. cbn [drain]. rewrite Hm.
    rewrite (drain_fuel c _ (S (length (rest ++ more)))) by (rewrite ?length_app; done || lia).
    fold (drain_all c (rest ++ more)). rewrite (IH rest) by lia.
    destruct (drain f c rest) as [ps [r|e|]]; [|done|done].
    by destruct (drain_all c (r ++ more)).
  - subst rest. by destruct (drain_all c (buf ++ more)).
  - unfold drain_all. cbn [drain]. by rewrite Hm.
  - done.
Qed.

Lemma drain_all_more c buf more : sane c ->
  drain_all c (buf ++ more) =
    match drain_all c buf with
    | (ps, Ok rest) => let '(ps', r) := drain_all c (rest ++ more) in (ps ++ ps', r)
    | (ps, Err e) => (ps, Err e)
    | (ps, Panic) => (ps, Panic)
    end.
Proof. intros. by apply drain_more; [|lia]. Qed.

Lemma drain_rest c f buf ps rest :
  sane c -> (length buf < f)%nat -> drain f c buf = (ps, Ok rest) -> drain_all c rest = ([], Ok rest).
Proof.
  intros Hc. revert buf ps. induction f as [|f IH]; intros buf ps Hf; [lia|]. cbn [drain].
  pose proof (decode_more c buf [] Hc) as Hm.
  destruct (decode c buf) as [[[p|] r]|e|] eqn:Hd; [|intros [= <- <-]|done..].
  - pose proof (decode_shorter c buf p r Hc Hd).
    destruct (drain f c r) as [ps' r'] eqn:Hdr. intros [= <- ->]. apply (IH r ps'); [lia|done].
  - subst r. unfold drain_all. cbn [drain]. by rewrite Hd.
Qed.

Lemma feed_concat c buf chunks :
  sane c -> drain_all c buf = ([], Ok buf) -> feed c buf chunks = drain_all c (buf ++ concat chunks).
Proof.
  intros Hc. revert buf. induction chunks as [|chunk chunks IH]; intros buf Hb; cbn [feed concat].
  - by rewrite app_nil_r.
  - rewrite app_assoc, (drain_all_more c (buf ++ chunk)) by done.
    destruct (drain_all c (buf ++ chunk)) as [ps [rest|e|]] eqn:Hd; [|done|done].
    rewrite IH; [done|]. eapply drain_rest; [done| |exact Hd]. lia.
Qed.

(** The stream that the encoder writes for a list of payloads. *)
Fixpoint encode_all (c : KafkaCodec) (items : list bytes) (dst : bytes) : outcome KafkaError bytes :=
  match items with
  | [] => Ok dst
  | item :: items => dst ← encode c item dst; encode_all c items dst
  end.

Lemma encode_ok c item dst :
  len item <= max_frame_size c -> encode c item dst = Ok (dst ++ put_be 4 (len item) ++ item).
Proof. intros. unfold encode. by rewrite gtb_false. Qed.

Lemma decode_encoded c item rest :
  sane c -> len item <= max_frame_size c ->
  decode c (put_be 4 (len item) ++ item ++ rest) = Ok (Some item, rest).
Proof.
  intros Hc Hi. rewrite decode_spec by done.
  assert (Hfl : frame_length (put_be 4 (len item) ++ item ++ rest) = len item).
  { unfold sane in Hc.
    destruct (get_be_signed 4 (len item) (item ++ rest)) as (u & Hg & Hu);
      [lia|unfold in_i; simpl; lia|].
    rewrite get_be_ok in Hg by (rewrite length_app, length_put_be; lia).
    unfold frame_length. rewrite <- Hu. f_equal. congruence. }
  rewrite Hfl, !ltb_false by (rewrite ?length_app, ?length_put_be; lia). cbn [orb].
  rewrite drop_app_length' by (by rewrite length_put_be).
  by rewrite take_app_length', drop_app_length' by lia.
Qed.

Lemma drain_encoded c items rest :
  sane c -> Forall (fun i => len i <= max_frame_size c) items ->
  exists s, encode_all c items [] = Ok s /\
    (forall dst, encode_all c items dst = Ok (dst ++ s)) /\
    drain_all c (s ++ rest) = (let '(ps, r) := drain_all c rest in (items ++ ps, r)).
Proof.
  intros Hc. induction items as [|item items IHi]; intros Hi.
  - exists []. split; [done|]. split; [intros; by rewrite app_nil_r|]. by destruct (drain_all c _).
  - apply Forall_cons_1 in Hi as [Hi (s & Hs & Hd & IH)%IHi].
    exists (put_be 4 (len item) ++ item ++ s). cbn [encode_all].
    split; [|split].
    + rewrite encode_ok by done. cbn. rewrite Hd. cbn. by rewrite <- app_assoc.
    + intros dst. rewrite encode_ok by done. cbn. rewrite Hd. by rewrite <- !app_assoc.
    + rewrite <- !app_assoc. unfold drain_all at 1. cbn [drain]. rewrite decode_encoded by done.
      rewrite (drain_fuel c _ (S (length (s ++ rest)))) by (rewrite ?length_app, ?length_put_be; done || lia).
      fold (drain_all c (s ++ rest)). rewrite IH. by destruct (drain_all c rest).
Qed.
End FrameFacts.

(** ** Tagged fields and the request header, as a client writes them *)

Definition enc_tag (t : Z * bytes) : bytes :=
  encode_loop 10 t.1 ++ encode_loop 10 (len t.2) ++ t.2.
Definition enc_tags (tags : list (Z * bytes)) : bytes :=
  encode_loop 10 (len tags) ++ concat (map enc_tag tags).
Definition wf_tag (t : Z * bytes) : Prop := in_u 64 t.1 /\ in_u 64 (len t.2).

Lemma skip_loop_tags tags rest :
  Forall wf_tag tags -> skip_loop (length tags) (concat (map enc_tag tags) ++ rest) = Ok rest.
Proof.
  induction 1 as [|[t d] tags [Ht Hd] _ IH]; [done|].
  cbn [length skip_loop map concat fst snd] in *. unfold enc_tag at 1. cbn [fst snd].
  rewrite <- !app_assoc. rewrite parse_unsigned_varint_encode by done. cbn [mbind outcome_bind].
  rewrite parse_unsigned_varint_encode by done. cbn [mbind outcome_bind].
  rewrite ltb_false by (rewrite length_app; lia). rewrite split_to_len. cbn. exact IH.
Qed.

Lemma skip_enc_tags tags rest :
  Forall wf_tag tags -> in_u 64 (len tags) -> skip_tagged_fields (enc_tags tags ++ rest) = Ok rest.
Proof.
  intros Ht Hl. unfold skip_tagged_fields, enc_tags. rewrite <- app_assoc.
  rewrite parse_unsigned_varint_encode by done. cbn [mbind outcome_bind].
  rewrite Nat2Z.id. by apply skip_loop_tags.
Qed.

Definition enc_request_header (h : RequestHeader) (tags : list (Z * bytes)) : bytes :=
  put_be 2 (rh_api_key h) ++ put_be 2 (rh_api_version h) ++ put_be 4 (rh_correlation_id h)
  ++ (if is_flexible_version (rh_api_key h) (rh_api_version h)
      then encode_compact_nullable_string [] (rh_client_id h) ++ enc_tags tags
      else encode_nullable_string [] (rh_client_id h)).

Definition wf_header (h : RequestHeader) : Prop :=
  in_i 16 (rh_api_key h) /\ in_i 16 (rh_api_version h) /\ in_i 32 (rh_correlation_id h)
  /\ wf_option wf_string16 (rh_client_id h).

(** ** Properties *)

(** Length-prefixed framing.  The frames that the encoder writes are delivered in order,
    byte for byte, however the network splits the stream into chunks, and an incomplete last
    frame stays in the buffer. *)
Theorem kafka_framing (c : Frame.KafkaCodec) (items chunks : list bytes) (tail : bytes) :
  FrameFacts.sane c -> Forall (fun i => len i <= Frame.max_frame_size c) items ->
  Frame.decode c tail = Ok (None, tail) ->
  exists s, FrameFacts.encode_all c items [] = Ok s /\
    (concat chunks = s ++ tail -> FrameFacts.feed c [] chunks = (items, Ok tail)).
Proof.
  intros Hc Hi Ht. destruct (FrameFacts.drain_encoded c items tail Hc Hi) as (s & Hs & _ & Hd).
  exists s. split; [done|]. intros Hch. rewrite FrameFacts.feed_concat by done. cbn [app].
  rewrite Hch, Hd. unfold FrameFacts.drain_all. cbn [FrameFacts.drain]. rewrite Ht.
  by rewrite app_nil_r.
Qed.

Lemma kafka_framing_witness :
  FrameFacts.feed Frame.new []
    [[Init.Byte.x00; Init.Byte.x00]; [Init.Byte.x00; Init.Byte.x01; Init.Byte.x2a; Init.Byte.x00]]
  = ([[Init.Byte.x2a]], Ok [Init.Byte.x00]).
Proof.
  destruct (kafka_framing Frame.new [[Init.Byte.x2a]]
    [[Init.Byte.x00; Init.Byte.x00]; [Init.Byte.x00; Init.Byte.x01; Init.Byte.x2a; Init.Byte.x00]]
    [Init.Byte.x00]) as (s & Hs & Hf).
  - by vm_compute.
  - repeat constructor. by vm_compute.
  - reflexivity.
  - apply Hf. vm_compute in Hs. injection Hs as <-. reflexivity.
Defined.

(** The frame decoder on any input: it waits for four bytes, rejects a length that is
    negative or above the limit before it buffers anything, waits for the whole frame, and
    splits off exactly the payload; chunk boundaries never change the frames found or the
    error reported, and no input makes it panic. *)
Theorem frame_decode_total (c : Frame.KafkaCodec) (src : bytes) (chunks : list bytes) :
  FrameFacts.sane c ->
  Frame.decode c src =
    (if len src <? 4 then Ok (None, src)
     else if (FrameFacts.frame_length src <? 0)
             || (Frame.max_frame_size c <? FrameFacts.frame_length src)
     then Err (Frame.too_large (wrap 64 (FrameFacts.frame_length src)) c)
     else if len src <? 4 + FrameFacts.frame_length src then Ok (None, src)
     else Ok (Some (take (Z.to_nat (FrameFacts.frame_length src)) (drop 4 src)),
              drop (Z.to_nat (FrameFacts.frame_length src)) (drop 4 src)))
  /\ FrameFacts.feed c [] chunks = FrameFacts.drain_all c (concat chunks).
Proof.
  intros Hc. split; [by apply FrameFacts.decode_spec|]. by rewrite FrameFacts.feed_concat.
Qed.

Lemma frame_decode_total_witness :
  Frame.decode Frame.new [Init.Byte.xff; Init.Byte.xff; Init.Byte.xff; Init.Byte.xff]
  = Err (Frame.too_large (2 ^ 64 - 1) Frame.new).
Proof.
  destruct (frame_decode_total Frame.new
    [Init.Byte.xff; Init.Byte.xff; Init.Byte.xff; Init.Byte.xff] []) as [-> _]; [by vm_compute|].
  reflexivity.
Defined.

(** Every primitive type of the protocol is read back from its encoding, whatever
    follows it: signed and unsigned varints, (nullable, compact) strings, (nullable,
    compact) byte arrays, and arrays of any format for which this holds. *)
Theorem wire_roundtrip (u v : Z) (s : option string) (b : option bytes) (rest : bytes)
    {T} (size : Z) (f : format T) (xs : list T) :
  in_u 64 u -> in_i 64 v -> wf_option wf_string16 s -> wf_option (fun b => len b < 2 ^ 31) b ->
  len xs < 2 ^ 31 -> len xs * size <= 2 ^ 63 - 1 -> Forall (wf f) xs ->
  parse_unsigned_varint (encode_unsigned_varint [] u ++ rest) = Ok (u, rest) /\
  parse_signed_varint (encode_signed_varint [] v ++ rest) = Ok (v, rest) /\
  parse_nullable_string (encode_nullable_string [] s ++ rest) = Ok (s, rest) /\
  parse_compact_nullable_string (encode_compact_nullable_string [] s ++ rest) = Ok (s, rest) /\
  (forall s', s = Some s' ->
     parse_string (encode_string [] s' ++ rest) = Ok (s', rest) /\
     parse_compact_string (encode_compact_string [] s' ++ rest) = Ok (s', rest)) /\
  parse_nullable_bytes (encode_nullable_bytes [] b ++ rest) = Ok (b, rest) /\
  parse_compact_nullable_bytes (encode_compact_nullable_bytes [] b ++ rest) = Ok (b, rest) /\
  parse_array size (dec f) (enc_elements f (put_be 4 (len xs)) xs ++ rest) = Ok (xs, rest) /\
  parse_compact_array size (dec f)
    (enc_elements f (encode_unsigned_varint [] (len xs + 1)) xs ++ rest) = Ok (xs, rest).
Proof.
  intros Hu Hv Hs Hb Hl Hc Hxs.
  assert (H64 : forall s', s = Some s' -> wf_string64 s').
  { intros s' Hs'. destruct (Hs s' Hs') as [? ?]. split; [done|lia]. }
  split; [by apply (dec_enc unsigned_varint_format)|].
  split; [by apply (dec_enc signed_varint_format)|].
  split; [by apply (dec_enc nullable_string_format)|].
  split; [by apply (dec_enc compact_nullable_string_format)|].
  split; [intros s' Hs'; split;
    [by apply (dec_enc string_format), Hs|by apply (dec_enc compact_string_format), H64]|].
  split; [by apply (dec_enc nullable_bytes_format)|].
  split; [apply (dec_enc compact_nullable_bytes_format); intros b' Hb'; specialize (Hb b' Hb');
          cbn in Hb; lia|].
  split; [by apply (dec_enc (array_format size f))|].
  apply (dec_enc (compact_array_format size f)). split; [lia|done].
Qed.

Lemma wire_roundtrip_witness :
  parse_array 24 parse_nullable_string
    (enc_elements nullable_string_format (put_be 4 2) [Some "a"%string; None] ++ [])
  = Ok ([Some "a"%string; None], []).
Proof.
  assert (Ha : wf_option wf_string16 (Some "a"%string)) by (intros s [= <-]; by vm_compute).
  apply (wire_roundtrip 300 (-1) (Some "a"%string) None [] 24 nullable_string_format
           [Some "a"%string; None]);
    [by vm_compute|by vm_compute|exact Ha|by intros b|by vm_compute|by vm_compute|].
  constructor; [exact Ha|]. constructor; [by intros s|constructor].
Defined.

(** The request header a client writes is the one the server parses, in the legacy layout
    and in the flexible one, where any well-formed tagged fields are skipped; the parser
    stops at the first byte of the request body. *)
Theorem request_header_roundtrip (h : RequestHeader) (tags : list (Z * bytes)) (body : bytes) :
  wf_header h -> Forall wf_tag tags -> in_u 64 (len tags) ->
  parse_request_header (enc_request_header h tags ++ body) = Ok (h, body).
Proof.
  intros (Hk & Hv & Hc & Hs) Ht Hl. destruct h as [k v c client]. cbn in *.
  unfold parse_request_header, enc_request_header. cbn [rh_api_key rh_api_version rh_correlation_id rh_client_id].
  rewrite ltb_false by (rewrite !length_app, !length_put_be; lia). rewrite <- !app_assoc.
  destruct (get_be_signed 2 k (put_be 2 v ++ put_be 4 c ++
    (if is_flexible_version k v then encode_compact_nullable_string [] client ++ enc_tags tags
     else encode_nullable_string [] client) ++ body)) as (uk & -> & Hk'); [lia|done|].
  destruct (get_be_signed 2 v (put_be 4 c ++
    (if is_flexible_version k v then encode_compact_nullable_string [] client ++ enc_tags tags
     else encode_nullable_string [] client) ++ body)) as (uv & Hgv & Hv'); [lia|done|].
  destruct (get_be_signed 4 c (
    (if is_flexible_version k v then encode_compact_nullable_string [] client ++ enc_tags tags
     else encode_nullable_string [] client) ++ body)) as (uc & Hgc & Hc'); [lia|done|].
  change (8 * Z.of_nat 2) with 16 in *. change (8 * Z.of_nat 4) with 32 in *.
  cbn [or_panic mbind outcome_bind]. rewrite Hgv. cbn [or_panic mbind outcome_bind].
  rewrite Hgc. cbn [or_panic mbind outcome_bind]. rewrite Hk', Hv', Hc'.
  destruct (is_flexible_version k v).
  - rewrite <- app_assoc, (dec_enc compact_nullable_string_format client).
    + cbn [mbind outcome_bind]. by rewrite skip_enc_tags.
    + intros s Hs'. destruct (Hs s Hs'). split; [done|lia].
  - by rewrite (dec_enc nullable_string_format client).
Qed.

Lemma request_header_roundtrip_witness :
  parse_request_header
    (enc_request_header (mk_request_header 18 3 99 (Some "cli"%string)) [(0, [Init.Byte.x01])]
     ++ [Init.Byte.x07])
  = Ok (mk_request_header 18 3 99 (Some "cli"%string), [Init.Byte.x07]).
Proof.
  apply request_header_roundtrip.
  - split; [by vm_compute|]. split; [by vm_compute|]. split; [by vm_compute|].
    intros s [= <-]. by vm_compute.
  - repeat constructor; by vm_compute.
  - by vm_compute.
Defined.

(** Hostile input cannot crash the primitive parsers: on any buffer they return a value and
    a suffix of the buffer, or a protocol error, never a panic; the same holds of an
    [int32]-counted array whose element parser does. *)
Theorem wire_parsers_total {T} (size : Z) (p : parser T) :
  safe p -> 0 <= size -> size * (2 ^ 31 - 1) <= 2 ^ 63 - 1 ->
  safe parse_unsigned_varint /\ safe parse_nullable_string /\ safe parse_compact_nullable_string /\
  safe parse_string /\ safe parse_compact_string /\ safe parse_nullable_bytes /\
  safe parse_compact_nullable_bytes /\ safe (parse_array size p) /\ safe parse_request_header.
Proof.
  intros. repeat split; auto using safe_array, safe_request_header with streamhouse;
    apply safe_ok_or; auto with streamhouse.
Qed.

Lemma wire_parsers_total_witness : safe (parse_array 24 parse_nullable_string).
Proof. apply (wire_parsers_total 24 parse_nullable_string safe_nullable_string); lia. Defined.

(** A compact array is not so lucky: its count is a 64-bit varint that sizes an
    allocation before any element is read, so a request of ten bytes makes the parser
    panic with a capacity overflow, whatever the element type (of non-zero size). *)
Theorem compact_array_capacity {T} (size : Z) (p : parser T) (rest : bytes) :
  0 < size ->
  exists buf, (length buf <= 10)%nat /\ parse_compact_array size p (buf ++ rest) = Panic.
Proof.
  intros Hs. exists (encode_loop 10 (2 ^ 63 + 1)). split; [apply length_encode_loop|].
  unfold parse_compact_array. rewrite parse_unsigned_varint_encode by by vm_compute.
  cbn [mbind outcome_bind]. change (2 ^ 63 + 1 =? 0) with false. cbn iota.
  unfold with_capacity. destruct (Z.gtb_spec ((2 ^ 63 + 1 - 1) * size) (2 ^ 63 - 1)); [done|lia].
Qed.

Lemma compact_array_capacity_witness :
  exists buf, (length buf <= 10)%nat /\ parse_compact_array 24 parse_compact_string (buf ++ []) = Panic.
Proof. apply compact_array_capacity. lia. Defined.

(** [encode_nullable_string] casts the length to [i16]: a string of 32,768 to 65,535 bytes
    is written with a negative length, which a reader takes for null, leaving the text to be
    parsed as the next field. *)
Theorem string_length_truncated (s : string) (rest : bytes) :
  32768 <= len (as_bytes s) < 65536 ->
  parse_nullable_string (encode_nullable_string [] (Some s) ++ rest) = Ok (None, as_bytes s ++ rest).
Proof.
  intros Hl. cbn [encode_nullable_string app]. rewrite <- app_assoc.
  unfold parse_nullable_string. rewrite ltb_false by (rewrite length_app, length_put_be; lia).
  rewrite get_be_put by (unfold in_u; simpl; lia). cbn [or_panic mbind outcome_bind].
  assert (Hw : swrap 16 (len (as_bytes s)) < 0).
  { unfold swrap. rewrite Z.mod_small by lia.
    destruct (Z.ltb_spec (len (as_bytes s)) (2 ^ (16 - 1))); lia. }
  by destruct (Z.ltb_spec (swrap 16 (len (as_bytes s))) 0); [|lia].
Qed.

Lemma string_length_truncated_witness :
  exists s, parse_nullable_string (encode_nullable_string [] (Some s) ++ []) = Ok (None, as_bytes s ++ []).
Proof.
  exists (String.string_of_list_byte (repeat Init.Byte.x61 (Z.to_nat 32768))). apply string_length_truncated.
  unfold as_bytes. rewrite String.list_byte_of_string_of_list_byte, repeat_length, Z2Nat.id by lia.
  lia.
Defined.
