(* ===== verification/Coordinator.v ===== *)
(** * The consumer-group coordinator (crates/streamhouse-kafka/src/coordinator.rs)

    A group is held under a write lock for the whole of an operation, so every operation is
    one atomic step on the group: a function from the group and the request to the new group
    and the response.  [Instant::now()] and the fresh UUID are arguments. *)

From S2P Require Import Prelude HashMap KafkaTypes.

Definition MIN_SESSION_TIMEOUT_MS : Z := 6000.
Definition MAX_SESSION_TIMEOUT_MS : Z := 300000.

Inductive GroupState : Type := Empty | PreparingRebalance | CompletingRebalance | Stable | Dead.

#[export] Instance GroupState_eq_dec : EqDecision GroupState.
Proof. solve_decision. Defined.

Definition as_str (s : GroupState) : string :=
  match s with
  | Empty => "Empty"
  | PreparingRebalance => "PreparingRebalance"
  | CompletingRebalance => "CompletingRebalance"
  | Stable => "Stable"
  | Dead => "Dead"
  end.

Record MemberProtocol : Type := mk_protocol { p_name : string; p_metadata : bytes }.

Record GroupMember : Type := mk_member {
  member_id : string;
  client_id : string;
  client_host : string;
  session_timeout_ms : Z;
  rebalance_timeout_ms : Z;
  m_protocol_type : string;
  protocols : list MemberProtocol;
  assignment : bytes;
  last_heartbeat : Z
}.

Record ConsumerGroup : Type := mk_group {
  group_id : string;
  state : GroupState;
  generation_id : Z;
  protocol_type : option string;
  protocol_name : option string;
  leader_id : option string;
  members : gmap string GroupMember;
  pending_members : gmap string GroupMember;
  state_timestamp : Z
}.

Definition new_group (gid : string) (now : Z) : ConsumerGroup :=
  mk_group gid Empty 0 None None None ∅ ∅ now.

(** Assignments to the fields of a group. *)
Definition transition_to (s : GroupState) (now : Z) (g : ConsumerGroup) : ConsumerGroup :=
  mk_group (group_id g) s (generation_id g) (protocol_type g) (protocol_name g) (leader_id g)
    (members g) (pending_members g) now.
Definition set_members (m p : gmap string GroupMember) (g : ConsumerGroup) : ConsumerGroup :=
  mk_group (group_id g) (state g) (generation_id g) (protocol_type g) (protocol_name g)
    (leader_id g) m p (state_timestamp g).
Definition set_protocol_type (t : option string) (g : ConsumerGroup) : ConsumerGroup :=
  mk_group (group_id g) (state g) (generation_id g) t (protocol_name g) (leader_id g)
    (members g) (pending_members g) (state_timestamp g).
Definition set_protocol_name (n : option string) (g : ConsumerGroup) : ConsumerGroup :=
  mk_group (group_id g) (state g) (generation_id g) (protocol_type g) n (leader_id g)
    (members g) (pending_members g) (state_timestamp g).
Definition set_leader (l : option string) (g : ConsumerGroup) : ConsumerGroup :=
  mk_group (group_id g) (state g) (generation_id g) (protocol_type g) (protocol_name g) l
    (members g) (pending_members g) (state_timestamp g).
(** [group.generation_id += 1] on an [i32]. *)
Definition bump_generation (g : ConsumerGroup) : ConsumerGroup :=
  mk_group (group_id g) (state g) (swrap 32 (generation_id g + 1)) (protocol_type g)
    (protocol_name g) (leader_id g) (members g) (pending_members g) (state_timestamp g).

Definition set_assignment (a : bytes) (m : GroupMember) : GroupMember :=
  mk_member (member_id m) (client_id m) (client_host m) (session_timeout_ms m)
    (rebalance_timeout_ms m) (m_protocol_type m) (protocols m) a (last_heartbeat m).
Definition set_heartbeat (now : Z) (m : GroupMember) : GroupMember :=
  mk_member (member_id m) (client_id m) (client_host m) (session_timeout_ms m)
    (rebalance_timeout_ms m) (m_protocol_type m) (protocols m) (assignment m) now.

(** ** Requests and responses *)

Record JoinRequest : Type := mk_join {
  j_member_id : option string;
  j_client_id : string;
  j_client_host : string;
  j_session_timeout_ms : Z;
  j_rebalance_timeout_ms : Z;
  j_protocol_type : string;
  j_protocols : list MemberProtocol
}.

Record JoinGroupMember : Type := mk_join_member { jm_member_id : string; jm_metadata : bytes }.

Record JoinGroupResult : Type := mk_join_result {
  jr_error_code : ErrorCode.ErrorCode;
  jr_generation_id : Z;
  jr_protocol_type : option string;
  jr_protocol_name : option string;
  jr_leader : string;
  jr_member_id : string;
  jr_members : list JoinGroupMember
}.

Record SyncGroupAssignment : Type := mk_sync_assignment { sa_member_id : string; sa_assignment : bytes }.

Record SyncGroupResult : Type := mk_sync_result {
  sr_error_code : ErrorCode.ErrorCode;
  sr_assignment : bytes
}.

Record DescribeGroupMember : Type := mk_describe_member {
  dm_member_id : string;
  dm_client_id : string;
  dm_client_host : string;
  dm_metadata : bytes;
  dm_assignment : bytes
}.

Record DescribeGroupResult : Type := mk_describe_result {
  dr_error_code : ErrorCode.ErrorCode;
  dr_group_id : string;
  dr_state : string;
  dr_protocol_type : string;
  dr_protocol : string;
  dr_members : list DescribeGroupMember
}.

Record ListGroupResult : Type := mk_list_result {
  lr_group_id : string;
  lr_protocol_type : string;
  lr_group_state : string
}.

(** The metadata of the first protocol, [unwrap_or_default]. *)
Definition first_metadata (m : GroupMember) : bytes :=
  match head (protocols m) with Some p => p_metadata p | None => [] end.

(** The groups of the coordinator, by organisation and group id. *)
Abbreviation GroupCoordinator := (gmap (string * string) ConsumerGroup).

Section operations.
Context `{HashOrder}.

(** ** Protocol selection *)

Definition vote (votes : gmap string nat) (p : MemberProtocol) : gmap string nat :=
  <[p_name p := S (default 0%nat (votes !! p_name p))]> votes.

Definition votes (ms : list GroupMember) : gmap string nat :=
  foldl (fun v m => foldl vote v (protocols m)) ∅ ms.

(** The first name, in the order of the vote table, that got as many votes as there are
    members. *)
Definition select_protocol (g : ConsumerGroup) : option string :=
  if bool_decide (members g = ∅) then None
  else
    head (map fst (filter (fun e => e.2 = size (members g))
                     (iter (votes (map snd (iter (members g))))))).

(** ** Operations on one group, under its lock *)

Definition contains (m : gmap string GroupMember) (id : option string) : bool :=
  match id with Some id => bool_decide (is_Some (m !! id)) | None => false end.

(** The state machine of a join, after the checks. *)
Definition join_by_state (id : string) (m : GroupMember) (now : Z) (g : ConsumerGroup)
  : ConsumerGroup :=
  match state g with
  | Empty | Dead =>
      let g := set_members {[ id := m ]} (pending_members g) g in
      let g := set_protocol_type (Some (m_protocol_type m)) g in
      let g := set_leader (Some id) g in
      let g := bump_generation g in
      let g := set_protocol_name (select_protocol g) g in
      transition_to CompletingRebalance now g
  | PreparingRebalance => set_members (members g) (<[id := m]> (pending_members g)) g
  | CompletingRebalance | Stable =>
      let g := set_members (members g) (<[id := m]> (pending_members g)) g in
      let g := set_members ∅ (insert_all (iter (members g)) (pending_members g)) g in
      let g := bump_generation g in
      transition_to PreparingRebalance now g
  end.

(** A rebalance in preparation with pending members is completed at once. *)
Definition complete_rebalance (now : Z) (g : ConsumerGroup) : ConsumerGroup :=
  if bool_decide (state g = PreparingRebalance) && negb (bool_decide (pending_members g = ∅))
  then
    let g := set_members (insert_all (iter (pending_members g)) (members g)) ∅ g in
    let g := if negb (contains (members g) (leader_id g))
             then set_leader (head (map fst (iter (members g)))) g else g in
    let g := set_protocol_name (select_protocol g) g in
    transition_to CompletingRebalance now g
  else g.

Definition join_error (code : ErrorCode.ErrorCode) (id : string) : JoinGroupResult :=
  mk_join_result code (-1) None None "" id [].

Definition join_result (id : string) (g : ConsumerGroup) : JoinGroupResult :=
  let is_leader := bool_decide (leader_id g = Some id) in
  let ms :=
    if is_leader
    then map (fun m => mk_join_member (member_id m) (first_metadata m)) (map snd (iter (members g)))
    else [] in
  mk_join_result ErrorCode.None (generation_id g) (protocol_type g) (protocol_name g)
    (default "" (leader_id g)) id ms.

Definition clamp (lo hi x : Z) : Z := if x <? lo then lo else if hi <? x then hi else x.

Definition join_group_locked (r : JoinRequest) (now : Z) (uuid : string) (g : ConsumerGroup)
  : ConsumerGroup * JoinGroupResult :=
  let timeout := clamp MIN_SESSION_TIMEOUT_MS MAX_SESSION_TIMEOUT_MS (j_session_timeout_ms r) in
  match j_member_id r with
  | None | Some "" =>
      (g, join_error ErrorCode.MemberIdRequired (j_client_id r +:+ "-" +:+ uuid))
  | Some id =>
      if match protocol_type g with
         | Some t => negb (bool_decide (t = j_protocol_type r))
         | None => false
         end
      then (g, join_error ErrorCode.InconsistentGroupProtocol id)
      else
        let m := mk_member id (j_client_id r) (j_client_host r) timeout
                   (j_rebalance_timeout_ms r) (j_protocol_type r) (j_protocols r) [] now in
        let g := complete_rebalance now (join_by_state id m now g) in
        (g, join_result id g)
  end.

(** The leader's assignments; an unknown member is skipped. *)
Definition assign (ms : gmap string GroupMember) (a : SyncGroupAssignment)
  : gmap string GroupMember :=
  match ms !! sa_member_id a with
  | Some m => <[sa_member_id a := set_assignment (sa_assignment a) m]> ms
  | None => ms
  end.

Definition sync_ok (id : string) (g : ConsumerGroup) : ConsumerGroup * SyncGroupResult :=
  (g, mk_sync_result ErrorCode.None
        (match members g !! id with Some m => assignment m | None => [] end)).

Definition sync_group_locked (generation : Z) (id : string)
    (assignments : list SyncGroupAssignment) (now : Z) (g : ConsumerGroup)
  : ConsumerGroup * SyncGroupResult :=
  if negb (contains (members g) (Some id)) then (g, mk_sync_result ErrorCode.UnknownMemberId [])
  else if negb (generation =? generation_id g)
  then (g, mk_sync_result ErrorCode.IllegalGeneration [])
  else
    match state g with
    | Empty | Dead => (g, mk_sync_result ErrorCode.UnknownMemberId [])
    | PreparingRebalance => (g, mk_sync_result ErrorCode.RebalanceInProgress [])
    | CompletingRebalance =>
        sync_ok id
          (if bool_decide (leader_id g = Some id)
           then transition_to Stable now
                  (set_members (foldl assign (members g) assignments) (pending_members g) g)
           else g)
    | Stable => sync_ok id g
    end.

Definition heartbeat_locked (generation : Z) (id : string) (now : Z) (g : ConsumerGroup)
  : ConsumerGroup * ErrorCode.ErrorCode :=
  match members g !! id with
  | None => (g, ErrorCode.UnknownMemberId)
  | Some m =>
      if negb (generation =? generation_id g) then (g, ErrorCode.IllegalGeneration)
      else
        let g := set_members (<[id := set_heartbeat now m]> (members g)) (pending_members g) g in
        match state g with
        | PreparingRebalance | CompletingRebalance => (g, ErrorCode.RebalanceInProgress)
        | Stable => (g, ErrorCode.None)
        | Empty | Dead => (g, ErrorCode.UnknownMemberId)
        end
  end.

Definition leave_group_locked (id : string) (now : Z) (g : ConsumerGroup)
  : ConsumerGroup * ErrorCode.ErrorCode :=
  match members g !! id with
  | None => (g, ErrorCode.UnknownMemberId)
  | Some _ =>
      let g := set_members (delete id (members g)) (pending_members g) g in
      if bool_decide (members g = ∅) then
        let g := transition_to Empty now g in
        (set_protocol_name None (set_protocol_type None (set_leader None g)), ErrorCode.None)
      else
        let g := bump_generation g in
        let g := if bool_decide (leader_id g = Some id)
                 then set_leader (head (map fst (iter (members g)))) g else g in
        (transition_to PreparingRebalance now g, ErrorCode.None)
  end.

Definition describe_locked (g : ConsumerGroup) : DescribeGroupResult :=
  mk_describe_result ErrorCode.None (group_id g) (as_str (state g))
    (default "" (protocol_type g)) (default "" (protocol_name g))
    (map (fun m => mk_describe_member (member_id m) (client_id m) (client_host m)
                     (first_metadata m) (assignment m)) (map snd (iter (members g)))).

(** ** The coordinator *)

Definition join_group (org gid : string) (r : JoinRequest) (now : Z) (uuid : string)
    (c : GroupCoordinator) : GroupCoordinator * JoinGroupResult :=
  let g := default (new_group gid now) (c !! (org, gid)) in
  let '(g, res) := join_group_locked r now uuid g in
  (<[(org, gid) := g]> c, res).

Definition sync_group (org gid : string) (generation : Z) (id : string)
    (assignments : list SyncGroupAssignment) (now : Z) (c : GroupCoordinator)
  : GroupCoordinator * SyncGroupResult :=
  match c !! (org, gid) with
  | None => (c, mk_sync_result ErrorCode.GroupIdNotFound [])
  | Some g =>
      let '(g, res) := sync_group_locked generation id assignments now g in
      (<[(org, gid) := g]> c, res)
  end.

Definition heartbeat (org gid : string) (generation : Z) (id : string) (now : Z)
    (c : GroupCoordinator) : GroupCoordinator * ErrorCode.ErrorCode :=
  match c !! (org, gid) with
  | None => (c, ErrorCode.GroupIdNotFound)
  | Some g =>
      let '(g, res) := heartbeat_locked generation id now g in (<[(org, gid) := g]> c, res)
  end.

Definition leave_group (org gid id : string) (now : Z) (c : GroupCoordinator)
  : GroupCoordinator * ErrorCode.ErrorCode :=
  match c !! (org, gid) with
  | None => (c, ErrorCode.GroupIdNotFound)
  | Some g => let '(g, res) := leave_group_locked id now g in (<[(org, gid) := g]> c, res)
  end.

Definition describe_group (org gid : string) (c : GroupCoordinator) : option DescribeGroupResult :=
  describe_locked <$> c !! (org, gid).

(** [entries] is what the iterator of the sharded map yields. *)
Definition list_groups (org : string) (entries : list ((string * string) * ConsumerGroup))
  : list ListGroupResult :=
  map (fun e => mk_list_result (group_id e.2) (default "" (protocol_type e.2))
                  (as_str (state e.2)))
    (filter (fun e => e.1.1 = org) entries).
End operations.
