(* ===== verification/CoordinatorFacts.v ===== *)
(** * Properties of the consumer-group coordinator *)

From S2P Require Import Prelude HashMap KafkaTypes Coordinator.

(** ** Protocol selection *)

Section selection.
Context `{HashOrder}.

Definition names (m : GroupMember) : list string := map p_name (protocols m).

(** How often a name is voted for. *)
Definition mentions (p : string) (ms : list GroupMember) : nat :=
  sum_list_with (fun m => length (filter (fun n => n = p) (names m))) ms.

Lemma vote_all_lookup ps v p :
  foldl vote v ps !! p =
    match length (filter (fun n => n = p) (map p_name ps)) with
    | O => v !! p
    | S k => Some (S k + default 0%nat (v !! p))%nat
    end.
Proof.
  revert v. induction ps as [|q ps IH]; intros v; [done|]. cbn [foldl map]. rewrite IH.
  unfold vote. rewrite filter_cons. destruct (decide (p_name q = p)) as [->|Hne].
  - rewrite lookup_insert_eq. cbn [length default].
    destruct (length (filter _ _)); [done|]. f_equal. simpl. lia.
  - by rewrite lookup_insert_ne.
Qed.

Lemma votes_lookup ms v p :
  foldl (fun v m => foldl vote v (protocols m)) v ms !! p =
    match mentions p ms with
    | O => v !! p
    | S k => Some (S k + default 0%nat (v !! p))%nat
    end.
Proof.
  revert v. induction ms as [|m ms IH]; intros v; [done|]. cbn [foldl]. rewrite IH.
  unfold mentions. cbn [sum_list_with]. fold (mentions p ms). rewrite vote_all_lookup. unfold names.
  destruct (length (filter _ _)) as [|k], (mentions p ms) as [|j]; simpl; try done; f_equal; lia.
Qed.

Lemma mentions_le p ms :
  (forall m, m ∈ ms -> NoDup (names m)) -> (mentions p ms <= length ms)%nat
  /\ (mentions p ms = length ms <-> forall m, m ∈ ms -> p ∈ names m).
Proof.
  induction ms as [|m ms IH]; intros Hnd.
  - split; [done|]. split; [|done]. intros _ m Hm. by apply elem_of_nil in Hm.
  - destruct IH as [IH1 IH2]; [intros m' Hm'; apply Hnd; by right|].
    assert (Hm : NoDup (names m)) by (apply Hnd; left).
    assert (Hc : (length (filter (fun n => n = p) (names m)) <= 1)%nat
                 /\ (length (filter (fun n => n = p) (names m)) = 1%nat <-> p ∈ names m)).
    { clear -Hm. induction Hm as [|n l Hn _ IHl].
      - split; [simpl; lia|]. split; [done|]. intros Hp. by apply elem_of_nil in Hp.
      - rewrite filter_cons. destruct (decide (n = p)) as [->|Hne].
        + rewrite filter_none by (intros x Hx ->; done). simpl.
          split; [lia|]. split; [intros _; left|done].
        + destruct IHl as [IHa IHb]. split; [done|]. rewrite IHb. rewrite elem_of_cons.
          split; [by right|]. intros [->|?]; done. }
    unfold mentions in *. simpl. destruct Hc as [Hc1 Hc2]. split; [lia|]. split.
    + intros Heq m' [->|Hm']%elem_of_cons; [apply Hc2; lia|]. apply IH2; [lia|done].
    + intros Hall. rewrite (proj2 Hc2) by (apply Hall; left).
      rewrite (proj2 IH2); [done|]. intros m' Hm'. apply Hall. by right.
Qed.

Lemma select_protocol_votes g p :
  members g <> ∅ ->
  p ∈ map fst (filter (fun e => e.2 = size (members g)) (iter (votes (map snd (iter (members g))))))
  <-> mentions p (map snd (iter (members g))) = size (members g).
Proof.
  intros Hne. assert (Hs : size (members g) <> 0%nat) by (intros ?%map_size_empty_inv; done).
  rewrite list_elem_of_fmap. setoid_rewrite list_elem_of_filter.
  assert (Hv : forall n, (p, n) ∈ iter (votes (map snd (iter (members g)))) <->
     votes (map snd (iter (members g))) !! p = Some n) by (intros; apply elem_of_iter).
  unfold votes in *. rewrite votes_lookup in Hv. rewrite lookup_empty in Hv. simpl in Hv.
  split.
  - intros ([q n] & -> & Hn & Hin). simpl in *. apply Hv in Hin.
    destruct (mentions q _) as [|k]; [done|]. injection Hin as Hin. lia.
  - intros Hm. exists (p, size (members g)). split; [done|]. split; [done|].
    apply Hv. destruct (mentions p _) as [|k]; [congruence|]. f_equal. lia.
Qed.

Lemma head_none {A} (l : list A) : head l = None -> l = [].
Proof. by destruct l. Qed.

(** A protocol that every member lists is found, and only such a protocol is. *)
Lemma select_protocol_spec g :
  (forall id m, members g !! id = Some m -> NoDup (names m)) ->
  match select_protocol g with
  | Some p => members g <> ∅ /\ forall id m, members g !! id = Some m -> p ∈ names m
  | None => members g = ∅ \/ forall p, exists id m, members g !! id = Some m /\ p ∉ names m
  end.
Proof.
  intros Hnd. unfold select_protocol. case_bool_decide as Hm; [by left|].
  assert (Hnd' : forall m, m ∈ map snd (iter (members g)) -> NoDup (names m)).
  { intros m [k Hk]%elem_of_values. eauto. }
  assert (Hlen : length (map snd (iter (members g))) = size (members g))
    by (rewrite length_map; apply length_iter).
  destruct (head _) as [p|] eqn:Hh.
  - split; [done|]. intros id m Hid. apply head_elem, select_protocol_votes in Hh; [|done].
    rewrite <- Hlen in Hh. apply (proj2 (mentions_le p _ Hnd')); [done|].
    apply elem_of_values. eauto.
  - right. intros p. apply head_none in Hh.
    destruct (decide (Forall (fun m => p ∈ names m) (map snd (iter (members g))))) as [Hall|Hn].
    + exfalso. rewrite Forall_forall in Hall. apply (proj2 (mentions_le p _ Hnd')) in Hall.
      rewrite Hlen in Hall. apply (select_protocol_votes g p Hm) in Hall.
      rewrite Hh in Hall. by apply elem_of_nil in Hall.
    + apply not_Forall_Exists in Hn; [|apply _]. apply Exists_exists in Hn as (m & Hin & Hp).
      apply elem_of_values in Hin as [k Hk]. eauto.
Qed.
End selection.

(** ** The invariant of a group between two operations *)

Definition member_ok (g : ConsumerGroup) (id : string) (m : GroupMember) : Prop :=
  member_id m = id /\ id <> ""%string
  /\ MIN_SESSION_TIMEOUT_MS <= session_timeout_ms m <= MAX_SESSION_TIMEOUT_MS
  /\ protocol_type g = Some (m_protocol_type m).

Record Inv (g : ConsumerGroup) : Prop := {
  inv_pending : pending_members g = ∅;
  inv_alive : state g <> Dead;
  inv_empty : state g = Empty <-> members g = ∅;
  inv_leader : match leader_id g with
               | Some l => is_Some (members g !! l)
               | None => members g = ∅
               end;
  inv_type : members g = ∅ -> protocol_type g = None /\ protocol_name g = None;
  inv_members : forall id m, members g !! id = Some m -> member_ok g id m
}.

Lemma inv_new gid now : Inv (new_group gid now).
Proof. by split. Qed.

Lemma contains_spec ms id : contains ms id = true <-> exists k, id = Some k /\ is_Some (ms !! k).
Proof.
  unfold contains. destruct id as [k|]; [rewrite bool_decide_eq_true|]; split.
  - eauto.
  - by intros (k' & [= <-] & Hk).
  - done.
  - by intros (k & ? & _).
Qed.

(** The leader of a non-empty group is one of its members. *)
Lemma inv_contains_leader g : Inv g -> members g <> ∅ -> contains (members g) (leader_id g) = true.
Proof.
  intros Hg Hne. apply contains_spec. pose proof (inv_leader g Hg).
  destruct (leader_id g) as [l|]; [eauto|done].
Qed.

Lemma clamp_range lo hi x : lo <= hi -> lo <= clamp lo hi x <= hi.
Proof. unfold clamp. intros. destruct (Z.ltb_spec x lo), (Z.ltb_spec hi x); lia. Qed.

Section joining.
Context `{HashOrder}.

(** The member record that a join request carries. *)
Definition joined (r : JoinRequest) (id : string) (now : Z) : GroupMember :=
  mk_member id (j_client_id r) (j_client_host r)
    (clamp MIN_SESSION_TIMEOUT_MS MAX_SESSION_TIMEOUT_MS (j_session_timeout_ms r))
    (j_rebalance_timeout_ms r) (j_protocol_type r) (j_protocols r) [] now.

(** A request passes the checks for the group. *)
Definition admissible (r : JoinRequest) (id : string) (g : ConsumerGroup) : Prop :=
  j_member_id r = Some id /\ id <> ""%string
  /\ (protocol_type g = None \/ protocol_type g = Some (j_protocol_type r)).

Definition joined_members (r : JoinRequest) (id : string) (now : Z) (g : ConsumerGroup)
  : gmap string GroupMember :=
  match state g with
  | Empty | Dead => {[ id := joined r id now ]}
  | PreparingRebalance => <[ id := joined r id now ]> (members g)
  | CompletingRebalance | Stable => members g ∪ {[ id := joined r id now ]}
  end.

Lemma join_locked_unfold r id now uuid g :
  admissible r id g ->
  join_group_locked r now uuid g =
    (let g' := complete_rebalance now (join_by_state id (joined r id now) now g) in
     (g', join_result id g')).
Proof.
  intros (Hid & Hne & Ht). unfold join_group_locked. rewrite Hid.
  destruct id as [|a s]; [done|].
  destruct Ht as [-> | ->]; [done|]. by rewrite bool_decide_true.
Qed.

(** Completing a rebalance that keeps the leader. *)
Lemma complete_rebalance_keeps g now ms :
  state g = PreparingRebalance -> pending_members g <> ∅ -> pending_members g ∪ members g = ms ->
  contains ms (leader_id g) = true ->
  complete_rebalance now g =
    (let g' := set_members ms ∅ g in
     transition_to CompletingRebalance now (set_protocol_name (select_protocol g') g')).
Proof.
  intros Hs Hp <- Hl. unfold complete_rebalance.
  rewrite bool_decide_true, bool_decide_false by done. cbn [andb negb].
  rewrite insert_all_iter. cbn [members leader_id set_members]. by rewrite Hl.
Qed.

(** A join that the checks let through, whatever the state of the group. *)
Lemma join_locked_spec r id now uuid g :
  Inv g -> admissible r id g ->
  let g' := fst (join_group_locked r now uuid g) in
  snd (join_group_locked r now uuid g) = join_result id g'
  /\ group_id g' = group_id g
  /\ state g' = CompletingRebalance
  /\ members g' = joined_members r id now g
  /\ pending_members g' = ∅
  /\ generation_id g' =
       (if decide (state g = PreparingRebalance) then generation_id g
        else swrap 32 (generation_id g + 1))
  /\ leader_id g' = (if decide (members g = ∅) then Some id else leader_id g)
  /\ protocol_type g' = Some (j_protocol_type r)
  /\ protocol_name g' = select_protocol g'.
Proof.
  intros Hg Ha. rewrite (join_locked_unfold r id) by done. cbv zeta. cbn [fst snd].
  split; [done|].
  assert (Hp := inv_pending g Hg). assert (Hem := inv_empty g Hg).
  assert (Hty : members g <> ∅ -> protocol_type g = Some (j_protocol_type r)).
  { intros Hne. destruct Ha as (_ & _ & [Hn|Hs]); [|done].
    apply map_choose in Hne as (k & x & Hk). apply (inv_members g Hg) in Hk as (_ & _ & _ & Hk).
    congruence. }
  unfold joined_members, join_by_state.
  destruct (decide (members g = ∅)) as [He|Hne].
  { rewrite (proj2 Hem He). cbn. rewrite decide_False by done. by repeat split. }
  assert (Hns : state g <> Empty) by by rewrite Hem.
  assert (Hl : forall ms, members g ⊆ ms \/ (exists x, ms = <[id := x]> (members g)) ->
            contains ms (leader_id g) = true).
  { intros ms Hms. apply inv_contains_leader in Hne as (l & Hl & [x Hin])%contains_spec; [|done].
    apply contains_spec. exists l. split; [done|].
    destruct Hms as [Hms|[y ->]]; [exists x; by eapply lookup_weaken|].
    apply lookup_insert_is_Some'. by right. }
  destruct (state g) eqn:Hs; [done| | | |by destruct (inv_alive g Hg)]; cycle 1.
  1,2: rewrite (complete_rebalance_keeps _ now (members g ∪ {[id := joined r id now]}));
    [cbn; by repeat split; auto|done|cbn; rewrite insert_all_iter; by apply map_positive_l_alt
    |cbn; by rewrite insert_all_iter, Hp, insert_empty, (right_id_L ∅ (∪))
    |apply Hl; left; apply map_union_subseteq_l].
  rewrite (complete_rebalance_keeps _ now (<[id := joined r id now]> (members g))).
  - cbn. by repeat split; auto.
  - done.
  - apply insert_non_empty.
  - cbn. rewrite Hp, insert_empty. symmetry. apply insert_union_singleton_l.
  - apply Hl. right. eauto.
Qed.

Lemma joined_members_inv r id now g k m :
  joined_members r id now g !! k = Some m ->
  (k = id /\ m = joined r id now) \/ members g !! k = Some m.
Proof.
  unfold joined_members. destruct (state g); rewrite ?lookup_singleton_Some, ?lookup_insert_Some.
  - intros [-> <-]; auto.
  - intros [[-> <-]|[_ ?]]; auto.
  - intros [?|[_ [<- <-]%lookup_singleton_Some]]%lookup_union_Some_raw; auto.
  - intros [?|[_ [<- <-]%lookup_singleton_Some]]%lookup_union_Some_raw; auto.
  - intros [-> <-]; auto.
Qed.

Lemma joined_members_dom r id now g :
  Inv g -> dom (joined_members r id now g) = {[ id ]} ∪ dom (members g).
Proof.
  intros Hg. pose proof (inv_empty g Hg) as He. pose proof (inv_alive g Hg).
  unfold joined_members. destruct (state g); try done.
  - rewrite (proj1 He) by done. by rewrite dom_singleton_L, dom_empty_L, (right_id_L ∅ (∪)).
  - by rewrite dom_insert_L.
  - by rewrite dom_union_L, dom_singleton_L, (comm_L (∪)).
  - by rewrite dom_union_L, dom_singleton_L, (comm_L (∪)).
Qed.

Lemma join_inv r id now uuid g :
  Inv g -> admissible r id g -> Inv (fst (join_group_locked r now uuid g)).
Proof.
  intros Hg Ha. pose proof (join_locked_spec r id now uuid g Hg Ha) as Hj. cbv zeta in Hj.
  destruct (join_group_locked r now uuid g) as [g' res]. cbn [fst snd] in *.
  destruct Hj as (_ & _ & Hs & Hm & Hp & _ & Hl & Ht & _).
  pose proof (joined_members_dom r id now g Hg) as Hd. rewrite <- Hm in Hd.
  assert (Hne : members g' <> ∅).
  { intros He. rewrite He, dom_empty_L in Hd. set_solver. }
  split; try done.
  - by rewrite Hs.
  - by rewrite Hs.
  - rewrite Hl. destruct (decide (members g = ∅)) as [He|Hne'].
    + apply elem_of_dom. rewrite Hd. by apply elem_of_union_l, elem_of_singleton.
    + pose proof (inv_leader g Hg). destruct (leader_id g) as [l|]; [|done].
      apply elem_of_dom. rewrite Hd. apply elem_of_union_r. by apply elem_of_dom.
  - intros k m Hk. unfold member_ok. rewrite Ht. rewrite Hm in Hk.
    destruct Ha as (Hid & Hidne & Hty).
    apply joined_members_inv in Hk as [[-> ->]|Hk].
    + split; [done|]. split; [done|]. split; [by apply clamp_range|done].
    + apply (inv_members g Hg) in Hk as (H1 & H2 & H3 & H4).
      split; [done|]. split; [done|]. split; [done|]. destruct Hty; congruence.
Qed.

(** A join that the checks reject. *)
Lemma join_locked_reject r now uuid g :
  (forall id, ~ admissible r id g) ->
  exists code id, join_group_locked r now uuid g = (g, join_error code id)
    /\ ((code = ErrorCode.MemberIdRequired /\ (j_member_id r = None \/ j_member_id r = Some ""%string))
        \/ (code = ErrorCode.InconsistentGroupProtocol /\ j_member_id r = Some id
            /\ exists t, protocol_type g = Some t /\ t <> j_protocol_type r)).
Proof.
  intros Hn. unfold join_group_locked.
  destruct (j_member_id r) as [[|a s]|] eqn:Hid; [by eauto 10| |by eauto 10].
  destruct (protocol_type g) as [t|] eqn:Ht.
  - destruct (decide (t = j_protocol_type r)) as [->|Hne].
    + exfalso. apply (Hn (String a s)). split; [done|]. split; [done|]. by right.
    + rewrite bool_decide_false by done. cbn. eauto 10.
  - exfalso. apply (Hn (String a s)). split; [done|]. split; [done|]. by left.
Qed.

#[export] Instance admissible_dec r id g : Decision (admissible r id g).
Proof. unfold admissible. apply _. Defined.

Lemma admissible_or_not r g : (exists id, admissible r id g) \/ (forall id, ~ admissible r id g).
Proof.
  destruct (j_member_id r) as [id|] eqn:Hid.
  - destruct (decide (admissible r id g)); [by left; exists id|].
    right. intros id' Ha. pose proof Ha as (Hid' & _). congruence.
  - right. intros id (Hid' & _). congruence.
Qed.

(** ** Synchronisation, heartbeat, departure *)

Lemma assign_lookup a ms k :
  assign ms a !! k =
    (if decide (k = sa_member_id a) then set_assignment (sa_assignment a) <$> ms !! k else ms !! k).
Proof.
  unfold assign. destruct (ms !! sa_member_id a) as [m|] eqn:Hm.
  - destruct (decide (k = sa_member_id a)) as [->|Hne].
    + by rewrite lookup_insert_eq, Hm.
    + by rewrite lookup_insert_ne.
  - destruct (decide (k = sa_member_id a)) as [->|Hne]; [by rewrite Hm|done].
Qed.

(** The assignment a member ends with: the last one for its id, else the one it had. *)
Fixpoint assigned (id : string) (asg : list SyncGroupAssignment) (old : bytes) : bytes :=
  match asg with
  | [] => old
  | a :: asg => assigned id asg (if decide (id = sa_member_id a) then sa_assignment a else old)
  end.

Lemma assign_all_lookup asg ms k :
  foldl assign ms asg !! k = (fun m => set_assignment (assigned k asg (assignment m)) m) <$> ms !! k.
Proof.
  revert ms. induction asg as [|a asg IH]; intros ms; cbn [foldl assigned].
  - destruct (ms !! k) as [[]|]; done.
  - rewrite IH, assign_lookup. destruct (ms !! k) as [m|], (decide (k = sa_member_id a)); done.
Qed.

Lemma assign_all_dom asg ms : dom (foldl assign ms asg) = dom ms.
Proof.
  apply set_eq. intros k. rewrite !elem_of_dom, assign_all_lookup. by rewrite fmap_is_Some.
Qed.

Lemma sync_locked_spec gen id asg now g :
  sync_group_locked gen id asg now g =
    match members g !! id with
    | None => (g, mk_sync_result ErrorCode.UnknownMemberId [])
    | Some m =>
        if negb (gen =? generation_id g) then (g, mk_sync_result ErrorCode.IllegalGeneration [])
        else match state g with
             | Empty | Dead => (g, mk_sync_result ErrorCode.UnknownMemberId [])
             | PreparingRebalance => (g, mk_sync_result ErrorCode.RebalanceInProgress [])
             | CompletingRebalance =>
                 if decide (leader_id g = Some id)
                 then (transition_to Stable now
                         (set_members (foldl assign (members g) asg) (pending_members g) g),
                       mk_sync_result ErrorCode.None (assigned id asg (assignment m)))
                 else (g, mk_sync_result ErrorCode.None (assignment m))
             | Stable => (g, mk_sync_result ErrorCode.None (assignment m))
             end
    end.
Proof.
  unfold sync_group_locked, contains, sync_ok. destruct (members g !! id) as [m|] eqn:Hm.
  - rewrite bool_decide_true by eauto. cbn [negb].
    destruct (negb (gen =? generation_id g)); [done|].
    destruct (state g); try done.
    destruct (decide (leader_id g = Some id)) as [Hl|Hl].
    + rewrite bool_decide_true by done. cbn. by rewrite assign_all_lookup, Hm.
    + by rewrite bool_decide_false, Hm by done.
  - rewrite bool_decide_false by by intros [? ?]. done.
Qed.

Lemma member_ok_same g g' id m m' :
  member_ok g id m -> protocol_type g' = protocol_type g ->
  member_id m' = member_id m -> session_timeout_ms m' = session_timeout_ms m ->
  m_protocol_type m' = m_protocol_type m -> member_ok g' id m'.
Proof. unfold member_ok. intros H1 -> -> -> ->. exact H1. Qed.

Lemma sync_inv gen id asg now g : Inv g -> Inv (fst (sync_group_locked gen id asg now g)).
Proof.
  intros Hg. rewrite sync_locked_spec. destruct (members g !! id) as [m|] eqn:Hm; [|done].
  destruct (negb _); [done|]. destruct (state g) eqn:Hs; try done.
  destruct (decide _) as [Hl|]; [|done]. cbn.
  assert (Hne : foldl assign (members g) asg <> ∅).
  { intros He. apply (f_equal dom) in He. rewrite assign_all_dom, dom_empty_L in He.
    apply elem_of_dom_2 in Hm. set_solver. }
  split; cbn; try done.
  - apply (inv_pending g Hg).
  - rewrite Hl. rewrite assign_all_lookup, Hm. done.
  - intros k m'. rewrite assign_all_lookup. destruct (members g !! k) as [m0|] eqn:Hk; [|done].
    intros [= <-]. apply (inv_members g Hg) in Hk.
    by eapply member_ok_same.
Qed.

Lemma heartbeat_inv gen id now g : Inv g -> Inv (fst (heartbeat_locked gen id now g)).
Proof.
  intros Hg. unfold heartbeat_locked. destruct (members g !! id) as [m|] eqn:Hm; [|done].
  destruct (negb _); [done|].
  assert (H' : Inv (set_members (<[id := set_heartbeat now m]> (members g)) (pending_members g) g)).
  { assert (Hne : members g <> ∅) by (intros He; by rewrite He in Hm).
    split; cbn.
    - apply (inv_pending g Hg).
    - apply (inv_alive g Hg).
    - rewrite (inv_empty g Hg). split; [done|]. by intros ?%insert_non_empty.
    - pose proof (inv_leader g Hg). destruct (leader_id g); [|done].
      apply lookup_insert_is_Some'. by right.
    - by intros ?%insert_non_empty.
    - intros k m' [[<- <-]|[_ Hk]]%lookup_insert_Some.
      + apply (inv_members g Hg) in Hm. by eapply member_ok_same.
      + apply (inv_members g Hg) in Hk. by eapply member_ok_same. }
  by destruct (state _).
Qed.

Lemma leave_inv id now g : Inv g -> Inv (fst (leave_group_locked id now g)).
Proof.
  intros Hg. unfold leave_group_locked. destruct (members g !! id) as [m|] eqn:Hm; [|done].
  cbn [members set_members]. case_bool_decide as He; cbn [fst].
  - split; cbn; try done.
    + apply (inv_pending g Hg).
    + rewrite He. intros k m'. by rewrite lookup_empty.
  - split.
    + by destruct (bool_decide _); cbn; apply (inv_pending g Hg).
    + by destruct (bool_decide _).
    + by destruct (bool_decide _).
    + cbn. case_bool_decide as Hl; cbn.
      * destruct (head_keys (delete id (members g)) He) as (k & -> & Hk). done.
      * pose proof (inv_leader g Hg) as Hle. cbn in Hl. destruct (leader_id g) as [l|].
        -- rewrite lookup_delete_ne by congruence. done.
        -- by rewrite Hle in Hm.
    + by destruct (bool_decide _).
    + intros k m'.
      assert (Hlk : forall b : bool, members (transition_to PreparingRebalance now
         (if b then set_leader (head (map fst (iter (delete id (members g)))))
            (bump_generation (set_members (delete id (members g)) (pending_members g) g))
          else bump_generation (set_members (delete id (members g)) (pending_members g) g)))
         = delete id (members g)) by by intros [].
      intros Hk. assert (Hk' : members g !! k = Some m').
      { destruct (bool_decide _); cbn in Hk; by apply lookup_delete_Some in Hk as [_ ?]. }
      apply (inv_members g Hg) in Hk'. destruct (bool_decide _); by eapply member_ok_same.
Qed.
End joining.

(** ** Executions of the coordinator *)

(** One request; each may see another iteration order of the hash maps. *)
Inductive op_step : GroupCoordinator -> GroupCoordinator -> Prop :=
| step_join (O : HashOrder) org gid r now uuid c :
    op_step c (fst (join_group org gid r now uuid c))
| step_sync org gid gen id asg now c : op_step c (fst (sync_group org gid gen id asg now c))
| step_heartbeat org gid gen id now c : op_step c (fst (heartbeat org gid gen id now c))
| step_leave (O : HashOrder) org gid id now c : op_step c (fst (leave_group org gid id now c)).

Definition coordinator_inv (c : GroupCoordinator) : Prop :=
  forall org gid g, c !! (org, gid) = Some g -> Inv g /\ group_id g = gid.

Lemma insert_coordinator_inv c org gid g :
  coordinator_inv c -> Inv g -> group_id g = gid -> coordinator_inv (<[(org, gid) := g]> c).
Proof.
  intros Hc Hg Hid o i g' [[[= <- <-] <-]|[_ Hl]]%lookup_insert_Some; [done|]. by apply (Hc o).
Qed.

Lemma join_group_id `{HashOrder} r now uuid g :
  Inv g -> group_id (fst (join_group_locked r now uuid g)) = group_id g
           /\ Inv (fst (join_group_locked r now uuid g)).
Proof.
  intros Hg. destruct (admissible_or_not r g) as [[id Ha]|Hn].
  - pose proof (join_locked_spec r id now uuid g Hg Ha) as (_ & ? & _). split; [done|].
    by apply (join_inv r id).
  - by destruct (join_locked_reject r now uuid g Hn) as (code & id & -> & _).
Qed.

Lemma sync_group_id gen id asg now g :
  group_id (fst (sync_group_locked gen id asg now g)) = group_id g.
Proof.
  rewrite sync_locked_spec. destruct (members g !! id); [|done].
  destruct (negb _); [done|]. destruct (state g); try done. by destruct (decide _).
Qed.

Lemma heartbeat_group_id gen id now g :
  group_id (fst (heartbeat_locked gen id now g)) = group_id g.
Proof.
  unfold heartbeat_locked. destruct (members g !! id); [|done]. destruct (negb _); [done|].
  by destruct (state _).
Qed.

Lemma leave_group_id `{HashOrder} id now g :
  group_id (fst (leave_group_locked id now g)) = group_id g.
Proof.
  unfold leave_group_locked. destruct (members g !! id); [|done].
  destruct (bool_decide (_ = ∅)); [done|]. by destruct (bool_decide _).
Qed.

Lemma op_step_inv c c' : coordinator_inv c -> op_step c c' -> coordinator_inv c'.
Proof.
  intros Hc Hs. destruct Hs as [O org gid r now uuid c|org gid gen id asg now c
    |org gid gen id now c|O org gid id now c].
  - unfold join_group. set (g := default _ _).
    assert (Hg : Inv g /\ group_id g = gid).
    { subst g. destruct (c !! (org, gid)) as [g|] eqn:Hl; [by apply (Hc org)|]. split; [apply inv_new|done]. }
    destruct Hg as [Hg Hid]. destruct (join_group_id r now uuid g Hg) as [Hi Hinv].
    destruct (join_group_locked r now uuid g). cbn in *. clearbody g.
    apply insert_coordinator_inv; [done|done|by rewrite Hi].
  - unfold sync_group. destruct (c !! (org, gid)) as [g|] eqn:Hl; [|done].
    destruct (Hc org gid g Hl) as [Hg Hid].
    pose proof (sync_inv gen id asg now g Hg). pose proof (sync_group_id gen id asg now g).
    destruct (sync_group_locked _ _ _ _ g). cbn in *. apply insert_coordinator_inv; [done|done|congruence].
  - unfold heartbeat. destruct (c !! (org, gid)) as [g|] eqn:Hl; [|done].
    destruct (Hc org gid g Hl) as [Hg Hid].
    pose proof (heartbeat_inv gen id now g Hg). pose proof (heartbeat_group_id gen id now g).
    destruct (heartbeat_locked _ _ _ g). cbn in *. apply insert_coordinator_inv; [done|done|congruence].
  - unfold leave_group. destruct (c !! (org, gid)) as [g|] eqn:Hl; [|done].
    destruct (Hc org gid g Hl) as [Hg Hid].
    pose proof (leave_inv id now g Hg). pose proof (leave_group_id id now g).
    destruct (leave_group_locked _ _ g). cbn in *. apply insert_coordinator_inv; [done|done|congruence].
Qed.

Lemma reachable_inv c : steps op_step ∅ c -> coordinator_inv c.
Proof.
  intros Hs. eapply (steps_invariant op_step coordinator_inv); [apply op_step_inv| |exact Hs].
  intros org gid g. by rewrite lookup_empty.
Qed.

(** ** The abstract group: what the Kafka rebalance protocol promises

    Requests and answers as data.  Of a join the abstract group answers the code, the generation, the protocol type, the
    leader, the member's id and the ids that the leader is told; which protocol is chosen is [join_group_spec]. *)

Inductive request : Type :=
| Join (r : JoinRequest) (uuid : string)
| Sync (generation : Z) (id : string) (assignments : list SyncGroupAssignment)
| Heartbeat (generation : Z) (id : string)
| Leave (id : string).

Inductive answer : Type :=
| Joined (code : ErrorCode.ErrorCode) (generation : Z) (type : option string) (leader id : string) (ids : gset string)
| Synced (code : ErrorCode.ErrorCode) (assignment : bytes)
| Code (code : ErrorCode.ErrorCode).

Definition join_answer (r : JoinGroupResult) : answer :=
  Joined (jr_error_code r) (jr_generation_id r) (jr_protocol_type r) (jr_leader r) (jr_member_id r) (list_to_set (map jm_member_id (jr_members r))).
Definition sync_answer (r : SyncGroupResult) : answer := Synced (sr_error_code r) (sr_assignment r).

(** A request to the coordinator. *)
Definition exec `{HashOrder} (k : string * string) (q : request) (now : Z) (c : GroupCoordinator) : GroupCoordinator * answer :=
  match q with
  | Join r uuid => let '(c, res) := join_group k.1 k.2 r now uuid c in (c, join_answer res)
  | Sync generation id assignments => let '(c, res) := sync_group k.1 k.2 generation id assignments now c in (c, sync_answer res)
  | Heartbeat generation id => let '(c, code) := heartbeat k.1 k.2 generation id now c in (c, Code code)
  | Leave id => let '(c, code) := leave_group k.1 k.2 id now c in (c, Code code)
  end.

(** The same under the lock of the group. *)
Definition exec_locked `{HashOrder} (q : request) (now : Z) (g : ConsumerGroup) : ConsumerGroup * answer :=
  match q with
  | Join r uuid => let '(g, res) := join_group_locked r now uuid g in (g, join_answer res)
  | Sync generation id assignments => let '(g, res) := sync_group_locked generation id assignments now g in (g, sync_answer res)
  | Heartbeat generation id => let '(g, code) := heartbeat_locked generation id now g in (g, Code code)
  | Leave id => let '(g, code) := leave_group_locked id now g in (g, Code code)
  end.

(** The members with their assignments, the leader, the generation, the phase and the type of the protocol. *)
Record AGroup : Type := mk_agroup {
  a_members : gmap string bytes;
  a_leader : option string;
  a_generation : Z;
  a_phase : GroupState;
  a_type : option string
}.

Definition a_init : AGroup := mk_agroup ∅ None 0 Empty None.

(** Why a member of a generation is not served: it is unknown, or in another generation. *)
Definition fenced (a : AGroup) (generation : Z) (id : string) : option ErrorCode.ErrorCode :=
  if decide (is_Some (a_members a !! id))
  then if decide (generation = a_generation a) then None else Some ErrorCode.IllegalGeneration
  else Some ErrorCode.UnknownMemberId.

(** One request on a group: each rule has its guard and its answer. *)
Inductive astep : AGroup -> request -> answer -> AGroup -> Prop :=
(** Without an id a client is given one to come back with; of another protocol type it is refused. *)
| a_join_nameless a r uuid :
    j_member_id r = None \/ j_member_id r = Some ""%string ->
    astep a (Join r uuid) (Joined ErrorCode.MemberIdRequired (-1) None "" (j_client_id r +:+ "-" +:+ uuid) ∅) a
| a_join_other a r uuid id t :
    j_member_id r = Some id -> id <> ""%string -> a_type a = Some t -> t <> j_protocol_type r ->
    astep a (Join r uuid) (Joined ErrorCode.InconsistentGroupProtocol (-1) None "" id ∅) a
(** A join starts a generation, unless one is in preparation; who joins again in a running generation keeps its assignment. *)
| a_join ms l gen ph ty r uuid id ms' l' gen' :
    j_member_id r = Some id -> id <> ""%string -> ty = None \/ ty = Some (j_protocol_type r) ->
    ms' = match ph with CompletingRebalance | Stable => ms ∪ {[ id := [] ]} | _ => <[ id := [] ]> ms end ->
    Some l' = (if decide (ms = ∅) then Some id else l) ->
    gen' = (if decide (ph = PreparingRebalance) then gen else swrap 32 (gen + 1)) ->
    astep (mk_agroup ms l gen ph ty) (Join r uuid)
      (Joined ErrorCode.None gen' (Some (j_protocol_type r)) l' id (if decide (l' = id) then dom ms' else ∅))
      (mk_agroup ms' (Some l') gen' CompletingRebalance (Some (j_protocol_type r)))
(** The leader distributes the assignments, and its sync alone; the others get what they have. *)
| a_sync_fenced a gen id asg code :
    fenced a gen id = Some code -> astep a (Sync gen id asg) (Synced code []) a
| a_sync_rebalancing ms l gen ty id asg :
    is_Some (ms !! id) ->
    astep (mk_agroup ms l gen PreparingRebalance ty) (Sync gen id asg) (Synced ErrorCode.RebalanceInProgress [])
      (mk_agroup ms l gen PreparingRebalance ty)
| a_sync_leader ms gen ty id asg b :
    ms !! id = Some b ->
    astep (mk_agroup ms (Some id) gen CompletingRebalance ty) (Sync gen id asg) (Synced ErrorCode.None (assigned id asg b))
      (mk_agroup (map_imap (fun k old => Some (assigned k asg old)) ms) (Some id) gen Stable ty)
| a_sync_member ms l gen ph ty id asg b :
    ms !! id = Some b -> (ph = CompletingRebalance /\ l <> Some id) \/ ph = Stable ->
    astep (mk_agroup ms l gen ph ty) (Sync gen id asg) (Synced ErrorCode.None b) (mk_agroup ms l gen ph ty)
(** A heartbeat tells whether a rebalance is on. *)
| a_beat_fenced a gen id code :
    fenced a gen id = Some code -> astep a (Heartbeat gen id) (Code code) a
| a_beat ms l gen ph ty id :
    is_Some (ms !! id) ->
    astep (mk_agroup ms l gen ph ty) (Heartbeat gen id)
      (Code (if decide (ph = Stable) then ErrorCode.None else ErrorCode.RebalanceInProgress)) (mk_agroup ms l gen ph ty)
(** A member leaves; the leadership moves only if the leader left, and to a member. *)
| a_leave_unknown a id : a_members a !! id = None -> astep a (Leave id) (Code ErrorCode.UnknownMemberId) a
| a_leave ms l gen ph ty id l' :
    is_Some (ms !! id) -> is_Some (delete id ms !! l') -> (l <> Some id -> l = Some l') ->
    astep (mk_agroup ms l gen ph ty) (Leave id) (Code ErrorCode.None)
      (mk_agroup (delete id ms) (Some l') (swrap 32 (gen + 1)) PreparingRebalance ty)
| a_leave_last l gen ph ty id b :
    astep (mk_agroup {[ id := b ]} l gen ph ty) (Leave id) (Code ErrorCode.None) (mk_agroup ∅ None gen Empty None).

(** The groups of all organizations: a join creates its group, other requests need it. *)
Inductive atrace : list ((string * string) * request * answer) -> gmap (string * string) AGroup -> Prop :=
| at_nil : atrace [] ∅
| at_step tr A k q ans a' :
    atrace tr A -> is_Some (A !! k) \/ (exists r uuid, q = Join r uuid) -> astep (default a_init (A !! k)) q ans a' ->
    atrace (tr ++ [(k, q, ans)]) (<[k := a']> A)
| at_missing tr A k q ans :
    atrace tr A -> A !! k = None ->
    match q with Join _ _ => False | Sync _ _ _ => ans = Synced ErrorCode.GroupIdNotFound [] | _ => ans = Code ErrorCode.GroupIdNotFound end ->
    atrace (tr ++ [(k, q, ans)]) A.

(** What the coordinator does: each request at its own time, and with its own iteration order of the hash maps. *)
Inductive trace : list ((string * string) * request * answer) -> GroupCoordinator -> Prop :=
| tr_nil : trace [] ∅
| tr_step (O : HashOrder) tr c k q now :
    trace tr c -> trace (tr ++ [(k, q, snd (exec k q now c))]) (fst (exec k q now c)).

Definition abs (g : ConsumerGroup) : AGroup :=
  mk_agroup (assignment <$> members g) (leader_id g) (generation_id g) (state g) (protocol_type g).

Lemma exec_op_step `{O : HashOrder} k q now c : op_step c (fst (exec k q now c)).
Proof.
  destruct k as [org gid], q as [r uuid|gen id asg|gen id|id]; cbn [exec fst snd].
  - pose proof (step_join O org gid r now uuid c) as Hs. by destruct (join_group _ _ _ _ _ _).
  - pose proof (step_sync org gid gen id asg now c) as Hs. by destruct (sync_group _ _ _ _ _ _ _).
  - pose proof (step_heartbeat org gid gen id now c) as Hs. by destruct (heartbeat _ _ _ _ _ _).
  - pose proof (step_leave O org gid id now c) as Hs. by destruct (leave_group _ _ _ _ _).
Qed.

Lemma trace_inv tr c : trace tr c -> coordinator_inv c.
Proof.
  induction 1 as [|O tr c k q now _ IH]; [intros org gid g; by rewrite lookup_empty|].
  by apply (op_step_inv c), exec_op_step.
Qed.

(** A request is one on its group, under the lock. *)
Lemma exec_at `{HashOrder} k q now c :
  exec k q now c = match c !! k, q with
                   | None, Join _ _ => let '(g, ans) := exec_locked q now (new_group k.2 now) in (<[k := g]> c, ans)
                   | None, Sync _ _ _ => (c, Synced ErrorCode.GroupIdNotFound [])
                   | None, _ => (c, Code ErrorCode.GroupIdNotFound)
                   | Some g, _ => let '(g, ans) := exec_locked q now g in (<[k := g]> c, ans)
                   end.
Proof.
  destruct k as [org gid], q as [r uuid|gen id asg|gen id|id]; cbn [exec exec_locked fst snd].
  - unfold join_group. destruct (c !! (org, gid)) as [g|]; cbn [default]; by destruct (join_group_locked _ _ _ _).
  - unfold sync_group. destruct (c !! (org, gid)) as [g|]; [|done]. by destruct (sync_group_locked _ _ _ _ _).
  - unfold heartbeat. destruct (c !! (org, gid)) as [g|]; [|done]. by destruct (heartbeat_locked _ _ _ _).
  - unfold leave_group. destruct (c !! (org, gid)) as [g|]; [|done]. by destruct (leave_group_locked _ _ _).
Qed.

Lemma abs_lookup g id : a_members (abs g) !! id = assignment <$> members g !! id.
Proof. apply lookup_fmap. Qed.

Lemma joined_assignments r id now g :
  Inv g ->
  assignment <$> joined_members r id now g
  = match state g with
    | CompletingRebalance | Stable => (assignment <$> members g) ∪ {[ id := [] ]}
    | _ => <[ id := [] ]> (assignment <$> members g)
    end.
Proof.
  intros Hg. pose proof (inv_empty g Hg) as He. pose proof (inv_alive g Hg). unfold joined_members. destruct (state g); try done.
  - rewrite (proj1 He) by done. by rewrite map_fmap_singleton, fmap_empty, insert_empty.
  - by rewrite fmap_insert.
  - by rewrite map_fmap_union, map_fmap_singleton.
  - by rewrite map_fmap_union, map_fmap_singleton.
Qed.

Lemma abs_join `{HashOrder} r now uuid g :
  Inv g -> astep (abs g) (Join r uuid) (join_answer (snd (join_group_locked r now uuid g))) (abs (fst (join_group_locked r now uuid g))).
Proof.
  intros Hg. destruct (admissible_or_not r g) as [[id Ha]|Hn].
  - pose proof (join_locked_spec r id now uuid g Hg Ha) as (-> & _ & Hs & Hm & _ & Hgen & Hl & Ht & _).
    pose proof (join_inv r id now uuid g Hg Ha) as Hg'. set (g' := fst _) in *. clearbody g'. destruct Ha as (Hid & Hne & Hty).
    assert (Hnem : members g' <> ∅).
    { intros He. pose proof (joined_members_dom r id now g Hg) as Hd. rewrite <- Hm, He, dom_empty_L in Hd.
      apply (not_elem_of_empty (C := gset string) id). rewrite Hd. by apply elem_of_union_l, elem_of_singleton. }
    destruct (leader_id g') as [l'|] eqn:Hl'; [|by pose proof (inv_leader g' Hg') as Hle; rewrite Hl' in Hle].
    assert (Hids : list_to_set (map jm_member_id (jr_members (join_result id g'))) = (if decide (l' = id) then dom (assignment <$> members g') else ∅ : gset string)).
    { unfold join_result. rewrite Hl'. destruct (decide (l' = id)) as [-> |Hli].
      - rewrite bool_decide_true by done. cbn [jr_members]. rewrite map_map. cbn [jm_member_id]. rewrite map_map, dom_fmap_L. apply set_eq. intros k.
        rewrite elem_of_list_to_set, list_elem_of_fmap, elem_of_dom. split.
        + intros ([k' m] & -> & Hin%elem_of_iter). destruct (inv_members g' Hg' _ _ Hin) as [Hk _]. cbn. rewrite Hk. eauto.
        + intros [m Hin]. exists (k, m). split; [|by apply elem_of_iter]. cbn. by destruct (inv_members g' Hg' _ _ Hin) as [-> _].
      - rewrite bool_decide_false by congruence. done. }
    unfold join_answer. rewrite Hids. cbn [join_result jr_error_code jr_generation_id jr_protocol_type jr_leader jr_member_id]. rewrite Hl', Ht. cbn [default].
    unfold abs at 1 2. rewrite Hl', Ht, Hs. eapply a_join; [done..| | |].
    + by rewrite Hm, joined_assignments.
    + rewrite Hl. destruct (decide (members g = ∅)) as [He|He].
      * rewrite decide_True; [done|]. by rewrite He, fmap_empty.
      * rewrite decide_False; [done|]. by intros ?%fmap_empty_inv.
    + done.
  - destruct (join_locked_reject r now uuid g Hn) as (code & id & Heq & Hcase). rewrite Heq. cbn [fst snd].
    destruct Hcase as [[-> Hid]|(-> & Hid & t & Ht & Hne)].
    + assert (Hi : id = (j_client_id r +:+ "-" +:+ uuid)%string).
      { apply (f_equal (jr_member_id ∘ snd)) in Heq. unfold join_group_locked in Heq. by destruct Hid as [Hid|Hid]; rewrite Hid in Heq. }
      rewrite Hi. by apply a_join_nameless.
    + apply (a_join_other (abs g) r uuid id t); [done| |done|done]. intros ->. unfold join_group_locked in Heq. by rewrite Hid in Heq.
Qed.

Lemma abs_fenced g gen id :
  fenced (abs g) gen id = match members g !! id with
                          | None => Some ErrorCode.UnknownMemberId
                          | Some _ => if negb (gen =? generation_id g) then Some ErrorCode.IllegalGeneration else None
                          end.
Proof.
  unfold fenced. rewrite abs_lookup. destruct (members g !! id) as [m|]; cbn [fmap option_fmap option_map].
  - rewrite decide_True by done. cbn [a_generation abs]. destruct (Z.eqb_spec gen (generation_id g)); [by rewrite decide_True|by rewrite decide_False].
  - rewrite decide_False by by intros [? ?]. done.
Qed.

(** A member of a group finds it neither empty nor dead. *)
Lemma member_alive g id m : Inv g -> members g !! id = Some m -> state g <> Empty /\ state g <> Dead.
Proof. intros Hg Hm. split; [|apply (inv_alive g Hg)]. rewrite (inv_empty g Hg). intros He. by rewrite He in Hm. Qed.

Lemma abs_sync gen id asg now g :
  Inv g -> astep (abs g) (Sync gen id asg) (sync_answer (snd (sync_group_locked gen id asg now g))) (abs (fst (sync_group_locked gen id asg now g))).
Proof.
  intros Hg. rewrite sync_locked_spec. pose proof (abs_fenced g gen id) as Hf.
  destruct (members g !! id) as [m|] eqn:Hm; [|by apply a_sync_fenced].
  destruct (Z.eqb_spec gen (generation_id g)) as [-> |Hne]; cbn [negb] in *; [|by apply a_sync_fenced].
  destruct (member_alive g id m Hg Hm) as [He Hd].
  assert (Hma : (assignment <$> members g) !! id = Some (assignment m)) by by rewrite lookup_fmap, Hm.
  destruct (state g) eqn:Hs; [done| | | |done]; cbn [fst snd].
  - unfold abs. rewrite Hs. by apply a_sync_rebalancing.
  - destruct (decide _) as [Hl|Hl]; cbn [fst snd].
    + unfold abs. cbn. rewrite Hs, Hl.
      replace (assignment <$> foldl assign (members g) asg) with (map_imap (fun k old => Some (assigned k asg old)) (assignment <$> members g)).
      * by apply a_sync_leader.
      * apply map_eq. intros k. rewrite map_lookup_imap, !lookup_fmap, assign_all_lookup. by destruct (members g !! k).
    + unfold abs. rewrite Hs. apply a_sync_member; [done|by left].
  - unfold abs. rewrite Hs. apply a_sync_member; [done|by right].
Qed.

Lemma abs_heartbeat gen id now g :
  Inv g -> astep (abs g) (Heartbeat gen id) (Code (snd (heartbeat_locked gen id now g))) (abs (fst (heartbeat_locked gen id now g))).
Proof.
  intros Hg. pose proof (abs_fenced g gen id) as Hf. unfold heartbeat_locked.
  destruct (members g !! id) as [m|] eqn:Hm; [|by apply a_beat_fenced].
  destruct (Z.eqb_spec gen (generation_id g)) as [-> |Hne]; cbn [negb] in *; [|by apply a_beat_fenced].
  destruct (member_alive g id m Hg Hm) as [He Hd].
  assert (Hsame : abs (set_members (<[id:=set_heartbeat now m]> (members g)) (pending_members g) g) = abs g).
  { unfold abs. cbn. f_equal. rewrite fmap_insert. cbn. apply insert_id. by rewrite lookup_fmap, Hm. }
  cbn [state set_members]. assert (Hma : is_Some ((assignment <$> members g) !! id)) by by rewrite lookup_fmap, Hm.
  pose proof (a_beat (assignment <$> members g) (leader_id g) (generation_id g) (state g) (protocol_type g) id Hma) as Hb.
  change (mk_agroup _ _ _ _ _) with (abs g) in Hb.
  destruct (state g) eqn:Hs; try done; cbn [fst snd]; rewrite Hsame; exact Hb.
Qed.

Lemma abs_leave `{HashOrder} id now g :
  Inv g -> astep (abs g) (Leave id) (Code (snd (leave_group_locked id now g))) (abs (fst (leave_group_locked id now g))).
Proof.
  intros Hg. unfold leave_group_locked. destruct (members g !! id) as [m|] eqn:Hm.
  2: { apply a_leave_unknown. cbn [fst]. by rewrite abs_lookup, Hm. }
  cbn [members set_members]. case_bool_decide as He; cbn [fst snd].
  - assert (Hd : members g = {[ id := m ]}) by (rewrite <- (insert_delete_id (members g) id m Hm), He; apply insert_empty).
    unfold abs. cbn. rewrite He, fmap_empty, Hd, map_fmap_singleton. apply a_leave_last.
  - destruct (head_keys (delete id (members g)) He) as (k & Hk & Hkin).
    assert (Hids : is_Some ((assignment <$> members g) !! id)) by by rewrite lookup_fmap, Hm.
    assert (Hkd : forall l, is_Some (delete id (members g) !! l) -> is_Some (delete id (assignment <$> members g) !! l)).
    { intros l Hl. rewrite <- fmap_delete, lookup_fmap. by apply fmap_is_Some. }
    unfold abs. cbn [leader_id bump_generation set_members].
    case_bool_decide as Hl; cbn; rewrite fmap_delete.
    + rewrite Hk. apply a_leave; [done|by apply Hkd|]. intros Hne. by destruct Hne.
    + pose proof (inv_leader g Hg) as Hle. destruct (leader_id g) as [l|].
      * apply a_leave; [done| |done]. apply Hkd. rewrite lookup_delete_ne by congruence. done.
      * by rewrite Hle in Hm.
Qed.

Lemma abs_exec `{HashOrder} q now g :
  Inv g -> astep (abs g) q (snd (exec_locked q now g)) (abs (fst (exec_locked q now g))).
Proof.
  intros Hg. destruct q as [r uuid|gen id asg|gen id|id]; cbn [exec_locked].
  - pose proof (abs_join r now uuid g Hg) as Ha. by destruct (join_group_locked _ _ _ _).
  - pose proof (abs_sync gen id asg now g Hg) as Ha. by destruct (sync_group_locked _ _ _ _ _).
  - pose proof (abs_heartbeat gen id now g Hg) as Ha. by destruct (heartbeat_locked _ _ _ _).
  - pose proof (abs_leave id now g Hg) as Ha. by destruct (leave_group_locked _ _ _).
Qed.

(** ** Properties *)

(** In every state the coordinator can reach, whatever the requests, their interleaving and
    the iteration order of the hash maps: no member is left pending, a group is Empty exactly
    when it has no members, its leader is one of its members, every member is filed under its
    own id, has the group's protocol type and a session timeout between 6 s and 5 min, no
    group is Dead, and a group is filed under its own id. *)
Theorem group_invariant (c : GroupCoordinator) (org gid : string) (g : ConsumerGroup) :
  steps op_step ∅ c -> c !! (org, gid) = Some g -> Inv g /\ group_id g = gid.
Proof. intros Hs. by apply reachable_inv. Qed.

(** A consumer that subscribes to one protocol. *)
Definition sample_join (id proto : string) : JoinRequest :=
  mk_join (Some id) "cli" "host" 100 60000 "consumer" [mk_protocol proto [Init.Byte.x01]].

Definition sample_coordinator : GroupCoordinator :=
  fst (join_group "org" "g" (sample_join "m1" "range") 5 "uuid" ∅).

Lemma sample_steps : steps op_step ∅ sample_coordinator.
Proof. eapply steps_step; [apply steps_refl|apply step_join]. Qed.

Definition sample_group : ConsumerGroup :=
  fst (join_group_locked (sample_join "m1" "range") 5 "uuid" (new_group "g" 5)).

Lemma sample_group_inv : Inv sample_group.
Proof.
  apply (join_inv _ "m1"); [apply inv_new|]. split; [done|]. split; [done|]. by left.
Qed.

Lemma group_invariant_witness : Inv sample_group /\ group_id sample_group = "g"%string.
Proof. apply (group_invariant sample_coordinator "org" "g"); [apply sample_steps|reflexivity]. Defined.

(** C40: the coordinator implements the rebalance protocol.  Whatever requests come, at whatever times and with whatever iteration
    order of the hash maps, the requests and answers of a coordinator are a trace of the abstract protocol, in which every
    request has its guard and its answer: who joins, in which generation and under which leader; that members outside
    the generation and strangers are refused; that only the sync of the leader distributes assignments, and who gets which; what
    heartbeats tell; and that the leadership moves only when the leader leaves.  The groups it ends with are those of the coordinator. *)
Theorem coordinator_refines (tr : list ((string * string) * request * answer)) (c : GroupCoordinator) : trace tr c -> atrace tr (abs <$> c).
Proof.
  intros Ht. induction Ht as [|O tr c k q now Ht IH]; [rewrite fmap_empty; apply at_nil|].
  rewrite exec_at. pose proof (trace_inv tr c Ht) as Hi. destruct k as [org gid]. destruct (c !! (org, gid)) as [g|] eqn:Hg.
  - pose proof (abs_exec q now g (proj1 (Hi org gid g Hg))) as Ha. destruct (exec_locked q now g) as [g' ans]. cbn [fst snd] in *.
    rewrite fmap_insert. apply at_step; [done|left|]; by rewrite lookup_fmap, Hg.
  - assert (Hn : (abs <$> c) !! (org, gid) = None) by by rewrite lookup_fmap, Hg. destruct q as [r uuid|gen id asg|gen id|id]; [|by apply at_missing..].
    pose proof (abs_exec (Join r uuid) now (new_group gid now) (inv_new gid now)) as Ha. cbn [snd].
    destruct (exec_locked (Join r uuid) now (new_group gid now)) as [g' ans]. cbn [fst snd] in *.
    rewrite fmap_insert. apply at_step; [done|right; eauto|]. rewrite Hn. unfold abs at 1 in Ha. cbn in Ha. by rewrite fmap_empty in Ha.
Qed.

(** Two consumers join; the second one's sync, before the leader's, distributes nothing. *)
Definition pair_requests : list request :=
  [Join (sample_join "m1" "range") "u"; Join (sample_join "m2" "range") "u"; Sync 2 "m2" [mk_sync_assignment "m2" [Init.Byte.x09]];
   Sync 2 "m1" [mk_sync_assignment "m2" [Init.Byte.x07]]; Sync 2 "m2" []; Sync 1 "m2" []].

Definition run_requests (k : string * string) (now : Z) (qs : list request) (x : list ((string * string) * request * answer) * GroupCoordinator) :=
  foldl (fun x q => (x.1 ++ [(k, q, snd (exec k q now x.2))], fst (exec k q now x.2))) x qs.

Lemma run_requests_trace k now qs x : trace x.1 x.2 -> trace (run_requests k now qs x).1 (run_requests k now qs x).2.
Proof. revert x. induction qs as [|q qs IH]; intros x Hx; [done|]. apply IH. by apply tr_step. Qed.

Lemma coordinator_refines_witness :
  let x := run_requests ("org", "g")%string 5 pair_requests ([], ∅) in
  atrace x.1 (abs <$> x.2)
  /\ map snd x.1 !! 2%nat = Some (Synced ErrorCode.None [])
  /\ map snd x.1 !! 4%nat = Some (Synced ErrorCode.None [Init.Byte.x07])
  /\ map snd x.1 !! 5%nat = Some (Synced ErrorCode.IllegalGeneration []).
Proof.
  split; [|vm_compute; split_and!; reflexivity].
  apply coordinator_refines, run_requests_trace. apply tr_nil.
Defined.

Section properties.
Context `{HashOrder}.

(** A join on any group: without a member id the client is given one and nothing changes;
    with another protocol type it is refused and nothing changes; otherwise the group waits
    for the leader's assignments in a new generation (the current one if a rebalance was
    being prepared), its members are the old ones and the caller, the leader stays (the first
    member of an empty group leads), the response carries the generation and the leader, and
    only the leader is told the members, all of them. If members list each protocol once, the
    protocol chosen is one that all members list, and one is chosen when there is one. *)
Theorem join_group_spec (r : JoinRequest) (now : Z) (uuid : string) (g : ConsumerGroup) :
  Inv g ->
  let '(g', res) := join_group_locked r now uuid g in
  match j_member_id r with
  | None | Some ""%string =>
      g' = g /\ res = join_error ErrorCode.MemberIdRequired (j_client_id r +:+ "-" +:+ uuid)
  | Some id =>
      if decide (protocol_type g = None \/ protocol_type g = Some (j_protocol_type r)) then
        state g' = CompletingRebalance
        /\ dom (members g') = {[ id ]} ∪ dom (members g)
        /\ generation_id g' = (if decide (state g = PreparingRebalance) then generation_id g
                               else swrap 32 (generation_id g + 1))
        /\ leader_id g' = (if decide (members g = ∅) then Some id else leader_id g)
        /\ jr_error_code res = ErrorCode.None /\ jr_generation_id res = generation_id g'
        /\ Some (jr_leader res) = leader_id g' /\ jr_member_id res = id
        /\ (forall k, k ∈ map jm_member_id (jr_members res) <->
                      leader_id g' = Some id /\ k ∈ dom (members g'))
        /\ ((forall k m, members g' !! k = Some m -> NoDup (names m)) ->
            match jr_protocol_name res with
            | Some p => forall k m, members g' !! k = Some m -> p ∈ names m
            | None => forall p, exists k m, members g' !! k = Some m /\ p ∉ names m
            end)
      else g' = g /\ res = join_error ErrorCode.InconsistentGroupProtocol id
  end.
Proof.
  intros Hg. destruct (j_member_id r) as [id|] eqn:Hid.
  2: { unfold join_group_locked. by rewrite Hid. }
  destruct (decide (id = ""%string)) as [->|Hne].
  { unfold join_group_locked. by rewrite Hid. }
  destruct id as [|a s]; [done|]. set (id := String a s) in *.
  destruct (decide _) as [Ht|Ht].
  - assert (Ha : admissible r id g) by done.
    pose proof (join_locked_spec r id now uuid g Hg Ha) as Hj.
    pose proof (join_inv r id now uuid g Hg Ha) as Hg'. cbv zeta in Hj.
    destruct (join_group_locked r now uuid g) as [g' res]. cbn [fst snd] in *.
    destruct Hj as (-> & _ & Hs & Hm & _ & Hgen & Hl & _ & Hn).
    assert (Hd : dom (members g') = {[id]} ∪ dom (members g)) by (rewrite Hm; by apply joined_members_dom).
    assert (Hne' : members g' <> ∅).
    { intros He. rewrite He, dom_empty_L in Hd. apply (not_elem_of_empty (C := gset string) id).
      rewrite Hd. by apply elem_of_union_l, elem_of_singleton. }
    split; [done|]. split; [done|]. split; [done|]. split; [done|]. split; [done|].
    split; [done|]. split.
    { cbn. pose proof (inv_leader g' Hg'). by destruct (leader_id g'). }
    split; [done|]. split.
    + intros k. cbn [join_result jr_members]. case_bool_decide as Hlead.
      * rewrite map_map. cbn [jm_member_id]. rewrite map_map, list_elem_of_fmap. split.
        -- intros ([k' m] & -> & Hin%elem_of_iter). split; [done|]. cbn.
           destruct (inv_members g' Hg' _ _ Hin) as [-> _]. by apply elem_of_dom_2 in Hin.
        -- intros [_ [m Hin]%elem_of_dom]. exists (k, m). split; [|by apply elem_of_iter].
           cbn. by destruct (inv_members g' Hg' _ _ Hin) as [-> _].
      * cbn. rewrite elem_of_nil. split; [done|]. by intros [? _].
    + intros Hnd. cbn [join_result jr_protocol_name]. rewrite Hn.
      pose proof (select_protocol_spec g' Hnd) as Hsel.
      destruct (select_protocol g'); [apply Hsel|]. by destruct Hsel.
  - unfold join_group_locked. rewrite Hid. unfold id. destruct (protocol_type g) as [t|] eqn:Hpt.
    + rewrite bool_decide_false; [done|]. intros ->. apply Ht. by right.
    + exfalso. apply Ht. by left.
Qed.

(** The leader's sync delivers: in the generation the group waits for, it makes the group
    Stable, and every member that then syncs in that generation receives the last assignment
    the leader listed for it (the one it had before, if the leader listed none), and its
    heartbeats succeed. *)
Theorem rebalance_delivers (g : ConsumerGroup) (l id : string) (m : GroupMember)
    (asg asg' : list SyncGroupAssignment) (now now' : Z) :
  Inv g -> state g = CompletingRebalance -> leader_id g = Some l -> members g !! id = Some m ->
  let '(g1, res) := sync_group_locked (generation_id g) l asg now g in
  sr_error_code res = ErrorCode.None /\ state g1 = Stable
  /\ sync_group_locked (generation_id g) id asg' now' g1
     = (g1, mk_sync_result ErrorCode.None (assigned id asg (assignment m)))
  /\ snd (heartbeat_locked (generation_id g) id now' g1) = ErrorCode.None.
Proof.
  intros Hg Hs Hl Hm. pose proof (inv_leader g Hg) as Hin. rewrite Hl in Hin. destruct Hin as [ml Hml].
  rewrite sync_locked_spec, Hml, Z.eqb_refl, Hs. cbn [negb]. rewrite decide_True by done.
  split; [done|]. split; [done|].
  set (g1 := transition_to Stable now _).
  assert (Hm1 : members g1 !! id = Some (set_assignment (assigned id asg (assignment m)) m)).
  { subst g1. cbn. by rewrite assign_all_lookup, Hm. }
  split.
  - rewrite sync_locked_spec, Hm1. subst g1. cbn. by rewrite Z.eqb_refl.
  - unfold heartbeat_locked. rewrite Hm1. subst g1. cbn. by rewrite Z.eqb_refl.
Qed.

(** Fencing: a sync or a heartbeat from a client that is not a member, or that is in another
    generation, changes nothing and is told so; so does the departure of a client that is not
    a member. *)
Theorem generation_fencing (g : ConsumerGroup) (gen : Z) (id : string)
    (asg : list SyncGroupAssignment) (now : Z) :
  (members g !! id = None ->
     sync_group_locked gen id asg now g = (g, mk_sync_result ErrorCode.UnknownMemberId [])
     /\ heartbeat_locked gen id now g = (g, ErrorCode.UnknownMemberId)
     /\ leave_group_locked id now g = (g, ErrorCode.UnknownMemberId)) /\
  (is_Some (members g !! id) -> gen <> generation_id g ->
     sync_group_locked gen id asg now g = (g, mk_sync_result ErrorCode.IllegalGeneration [])
     /\ heartbeat_locked gen id now g = (g, ErrorCode.IllegalGeneration)).
Proof.
  split.
  - intros Hm. rewrite sync_locked_spec. unfold heartbeat_locked, leave_group_locked. by rewrite Hm.
  - intros [m Hm] Hgen. rewrite sync_locked_spec. unfold heartbeat_locked. rewrite Hm.
    assert (He : (gen =? generation_id g) = false) by by apply Z.eqb_neq. by rewrite He.
Qed.

(** A member that joins again with a new subscription while the group is stable, or waits
    for the leader, starts a new generation but is not updated: the drained record of its old
    membership overwrites the one of the request, so its new protocols, metadata and timeouts
    are lost. *)
Theorem rejoin_discards_subscription (r : JoinRequest) (id : string) (now : Z) (uuid : string)
    (g : ConsumerGroup) :
  Inv g -> state g = CompletingRebalance \/ state g = Stable ->
  is_Some (members g !! id) -> j_member_id r = Some id -> protocol_type g = Some (j_protocol_type r) ->
  let '(g', res) := join_group_locked r now uuid g in
  jr_error_code res = ErrorCode.None /\ members g' = members g
  /\ generation_id g' = swrap 32 (generation_id g + 1).
Proof.
  intros Hg Hs [m Hm] Hid Ht.
  assert (Ha : admissible r id g).
  { split; [done|]. split; [by apply (inv_members g Hg) in Hm as (_ & ? & _)|]. by right. }
  pose proof (join_locked_spec r id now uuid g Hg Ha) as Hj. cbv zeta in Hj.
  destruct (join_group_locked r now uuid g) as [g' res]. cbn [fst snd] in *.
  destruct Hj as (-> & _ & _ & Hm' & _ & Hgen & _).
  split; [done|]. split.
  - rewrite Hm'. unfold joined_members.
    assert (Hu : members g ∪ {[id := joined r id now]} = members g).
    { apply map_eq. intros k. apply option_eq. intros x. rewrite lookup_union_Some_raw.
      split; [|by left]. intros [?|[Hk [<- _]%lookup_singleton_Some]]; [done|]. congruence. }
    destruct Hs as [-> | ->]; exact Hu.
  - rewrite Hgen. rewrite decide_False; [done|]. by destruct Hs as [-> | ->].
Qed.

(** A follower that syncs before the leader is not made to wait: it is answered at once,
    without an error, with the assignment of an earlier generation (the empty one, if it just
    joined), and the group still waits for the leader. *)
Theorem early_sync_stale_assignment (g : ConsumerGroup) (id : string) (m : GroupMember)
    (asg : list SyncGroupAssignment) (now : Z) :
  state g = CompletingRebalance -> members g !! id = Some m -> leader_id g <> Some id ->
  sync_group_locked (generation_id g) id asg now g
  = (g, mk_sync_result ErrorCode.None (assignment m)).
Proof.
  intros Hs Hm Hl. rewrite sync_locked_spec, Hm, Z.eqb_refl, Hs. cbn [negb].
  by rewrite decide_False.
Qed.
End properties.

(** A group of two, the leader [m1] and the follower [m2]. *)
Definition pair_group : ConsumerGroup :=
  fst (join_group_locked (sample_join "m2" "range") 6 "uuid" sample_group).

Lemma pair_group_inv : Inv pair_group.
Proof. apply (join_inv _ "m2"); [apply sample_group_inv|]. split; [done|]. split; [done|]. by right. Qed.

Lemma join_group_spec_witness :
  dom (members pair_group) = {[ "m2"%string ]} ∪ {[ "m1"%string ]}.
Proof.
  pose proof (join_group_spec (sample_join "m2" "range") 6 "uuid" sample_group sample_group_inv) as Hj.
  unfold pair_group. destruct (join_group_locked _ _ _ _) as [g' res]. cbn [fst].
  cbn [j_member_id sample_join] in Hj. rewrite decide_True in Hj by by right.
  destruct Hj as (_ & -> & _). reflexivity.
Defined.

Lemma rebalance_delivers_witness :
  snd (sync_group_locked 2 "m2" [] 8
         (fst (sync_group_locked 2 "m1" [mk_sync_assignment "m2" [Init.Byte.x07]] 7 pair_group)))
  = mk_sync_result ErrorCode.None [Init.Byte.x07].
Proof.
  pose proof (rebalance_delivers pair_group "m1" "m2"
    (mk_member "m2" "cli" "host" 6000 60000 "consumer" [mk_protocol "range" [Init.Byte.x01]] [] 6)
    [mk_sync_assignment "m2" [Init.Byte.x07]] [] 7 8 pair_group_inv eq_refl eq_refl
    ltac:(vm_compute; reflexivity)) as Hd.
  change (generation_id pair_group) with 2 in Hd.
  destruct (sync_group_locked 2 "m1" _ 7 pair_group) as [g1 res].
  destruct Hd as (_ & _ & Hd & _). cbn [fst]. by rewrite Hd.
Defined.

Lemma generation_fencing_witness :
  snd (heartbeat_locked 1 "m1" 9 pair_group) = ErrorCode.IllegalGeneration
  /\ snd (leave_group_locked "m3" 9 pair_group) = ErrorCode.UnknownMemberId.
Proof.
  split.
  - destruct (generation_fencing pair_group 1 "m1" [] 9) as [_ Hf].
    destruct Hf as [_ ->]; [by eexists; vm_compute|by vm_compute|done].
  - destruct (generation_fencing pair_group 1 "m3" [] 9) as [Hf _].
    destruct Hf as (_ & _ & ->); [by vm_compute|done].
Defined.

Lemma rejoin_discards_subscription_witness :
  members (fst (join_group_locked (sample_join "m2" "sticky") 9 "uuid" pair_group))
  = members pair_group.
Proof.
  pose proof (rejoin_discards_subscription (sample_join "m2" "sticky") "m2" 9 "uuid" pair_group
    pair_group_inv (or_introl eq_refl) ltac:(by eexists; vm_compute) eq_refl eq_refl) as Hr.
  destruct (join_group_locked _ _ _ _) as [g' res]. apply Hr.
Defined.

Lemma early_sync_stale_assignment_witness :
  snd (sync_group_locked 2 "m2" [] 7 pair_group) = mk_sync_result ErrorCode.None [].
Proof.
  rewrite (early_sync_stale_assignment pair_group "m2"
    (mk_member "m2" "cli" "host" 6000 60000 "consumer" [mk_protocol "range" [Init.Byte.x01]] [] 6));
    [reflexivity|reflexivity|vm_compute; reflexivity|discriminate].
Defined.
