(* ===== verification/Transaction.v ===== *)
(** * The two-phase-commit coordinator (crates/streamhouse-metadata/src/transaction.rs)

    Every operation holds the lock of the transaction table for its whole duration, so it is
    one atomic step.  An [Instant] and a [Duration] are nanoseconds; the clock at the time of
    the call is the argument [now]. *)

From S2P Require Import Prelude HashMap.

Inductive CoordinatorTransactionState : Type := Ongoing | Preparing | Committed | Aborted | TimedOut.

#[export] Instance txn_state_eq_dec : EqDecision CoordinatorTransactionState.
Proof. solve_decision. Defined.

Definition display (s : CoordinatorTransactionState) : string :=
  match s with
  | Ongoing => "ongoing"
  | Preparing => "preparing"
  | Committed => "committed"
  | Aborted => "aborted"
  | TimedOut => "timed_out"
  end.

Inductive TransactionCoordinatorError : Type :=
| TransactionNotFound (id : string)
| InvalidStateTransition (from to : string)
| TransactionTimedOut (id : string)
| DuplicatePartition (id topic : string) (partition_id : Z)
| ProducerMismatch (expected actual : string)
| PrepareFailed (m : string)
| Internal (m : string).

Record TransactionPartition : Type := mk_txn_partition {
  tp_topic : string;
  tp_partition_id : Z;
  tp_first_offset : Z;
  tp_last_offset : Z
}.

Record TransactionRecord : Type := mk_txn {
  t_id : string;
  t_producer_id : string;
  t_state : CoordinatorTransactionState;
  t_partitions : list TransactionPartition;
  t_started_at : Z;
  t_timeout : Z;
  t_prepare_timestamp : option Z
}.

Definition set_state (s : CoordinatorTransactionState) (r : TransactionRecord) : TransactionRecord :=
  mk_txn (t_id r) (t_producer_id r) s (t_partitions r) (t_started_at r) (t_timeout r)
    (t_prepare_timestamp r).
Definition push_partition (p : TransactionPartition) (r : TransactionRecord) : TransactionRecord :=
  mk_txn (t_id r) (t_producer_id r) (t_state r) (t_partitions r ++ [p]) (t_started_at r)
    (t_timeout r) (t_prepare_timestamp r).
Definition set_prepare_timestamp (t : option Z) (r : TransactionRecord) : TransactionRecord :=
  mk_txn (t_id r) (t_producer_id r) (t_state r) (t_partitions r) (t_started_at r) (t_timeout r) t.

(** [Instant::elapsed] saturates at zero. *)
Definition elapsed (since now : Z) : Z := sat_sub now since.

Definition is_timed_out (r : TransactionRecord) (now : Z) : bool :=
  elapsed (t_started_at r) now >? t_timeout r.

Definition is_prepare_timed_out (r : TransactionRecord) (now : Z) : bool :=
  match t_prepare_timestamp r with
  | Some ts => elapsed ts now >? t_timeout r / 2
  | None => false
  end.

Record TransactionStats : Type := mk_stats {
  active_transactions : Z;
  preparing_transactions : Z;
  committed_transactions : Z;
  aborted_transactions : Z;
  timed_out_transactions : Z;
  total_partitions_enrolled : Z
}.

Record TransactionCoordinator : Type := mk_coordinator {
  transactions : gmap string TransactionRecord;
  timeout : Z
}.

Definition new (timeout : Z) : TransactionCoordinator := mk_coordinator ∅ timeout.

Definition with_transactions (m : gmap string TransactionRecord) (c : TransactionCoordinator)
  : TransactionCoordinator := mk_coordinator m (timeout c).

Definition store (id : string) (r : TransactionRecord) (c : TransactionCoordinator)
  : TransactionCoordinator := with_transactions (<[id := r]> (transactions c)) c.

(** ** Operations: the new table and the result *)

Abbreviation txn_result A := (outcome TransactionCoordinatorError A).

Definition begin (id producer_id : string) (now : Z) (c : TransactionCoordinator)
  : TransactionCoordinator * txn_result string :=
  match transactions c !! id with
  | Some _ => (c, Err (InvalidStateTransition "new" "already exists"))
  | None => (store id (mk_txn id producer_id Ongoing [] now (timeout c) None) c, Ok id)
  end.

Definition enrolled (topic : string) (partition_id : Z) (ps : list TransactionPartition) : bool :=
  existsb (fun p => String.eqb (tp_topic p) topic && (tp_partition_id p =? partition_id)) ps.

Definition add_partition (id topic : string) (partition_id first_offset last_offset : Z)
    (c : TransactionCoordinator) : TransactionCoordinator * txn_result unit :=
  match transactions c !! id with
  | None => (c, Err (TransactionNotFound id))
  | Some r =>
      if negb (bool_decide (t_state r = Ongoing))
      then (c, Err (InvalidStateTransition (display (t_state r)) "add_partition (requires ongoing)"))
      else if enrolled topic partition_id (t_partitions r)
      then (c, Err (DuplicatePartition id topic partition_id))
      else
        (store id (push_partition (mk_txn_partition topic partition_id first_offset last_offset) r) c,
         Ok tt)
  end.

Definition prepare (id : string) (now : Z) (c : TransactionCoordinator)
  : TransactionCoordinator * txn_result unit :=
  match transactions c !! id with
  | None => (c, Err (TransactionNotFound id))
  | Some r =>
      if negb (bool_decide (t_state r = Ongoing))
      then (c, Err (InvalidStateTransition (display (t_state r)) "preparing"))
      else if is_timed_out r now
      then (store id (set_state TimedOut r) c, Err (TransactionTimedOut id))
      else
        match t_partitions r with
        | [] => (c, Err (PrepareFailed "No partitions enrolled in transaction"))
        | _ :: _ =>
            (store id (set_prepare_timestamp (Some now) (set_state Preparing r)) c, Ok tt)
        end
  end.

Definition commit (id : string) (now : Z) (c : TransactionCoordinator)
  : TransactionCoordinator * txn_result (list TransactionPartition) :=
  match transactions c !! id with
  | None => (c, Err (TransactionNotFound id))
  | Some r =>
      if negb (bool_decide (t_state r = Preparing))
      then (c, Err (InvalidStateTransition (display (t_state r)) "committed"))
      else if is_timed_out r now
      then (store id (set_state TimedOut r) c, Err (TransactionTimedOut id))
      else (store id (set_state Committed r) c, Ok (t_partitions r))
  end.

Definition abort (id : string) (c : TransactionCoordinator)
  : TransactionCoordinator * txn_result (list TransactionPartition) :=
  match transactions c !! id with
  | None => (c, Err (TransactionNotFound id))
  | Some r =>
      match t_state r with
      | Ongoing | Preparing => (store id (set_state Aborted r) c, Ok (t_partitions r))
      | _ => (c, Err (InvalidStateTransition (display (t_state r)) "aborted"))
      end
  end.

Definition expires (now : Z) (r : TransactionRecord) : bool :=
  is_timed_out r now && negb (bool_decide (t_state r = Committed))
  && negb (bool_decide (t_state r = Aborted)) && negb (bool_decide (t_state r = TimedOut)).

Definition is_terminal (s : CoordinatorTransactionState) : bool :=
  match s with Committed | Aborted | TimedOut => true | _ => false end.

Section iterating.
Context `{HashOrder}.

(** A loop over [txns.iter_mut()] that sets the state of the records that satisfy [f] and
    pushes their ids. *)
Definition sweep (f : TransactionRecord -> bool) (s : CoordinatorTransactionState)
    (c : TransactionCoordinator) : TransactionCoordinator * list string :=
  (with_transactions ((fun r => if f r then set_state s r else r) <$> transactions c) c,
   map fst (filter (fun e => f e.2 = true) (iter (transactions c)))).

Definition check_timeouts (now : Z) (c : TransactionCoordinator)
  : TransactionCoordinator * list string := sweep (expires now) TimedOut c.

Definition recover_pending (c : TransactionCoordinator) : TransactionCoordinator * list string :=
  sweep (fun r => bool_decide (t_state r = Preparing)) Aborted c.

Definition get_transaction (id : string) (c : TransactionCoordinator) : txn_result TransactionRecord :=
  ok_or (TransactionNotFound id) (transactions c !! id).

Definition count_record (s : TransactionStats) (r : TransactionRecord) : TransactionStats :=
  let one st : Z := if bool_decide (t_state r = st) then 1 else 0 in
  mk_stats (active_transactions s + one Ongoing) (preparing_transactions s + one Preparing)
    (committed_transactions s + one Committed) (aborted_transactions s + one Aborted)
    (timed_out_transactions s + one TimedOut)
    (total_partitions_enrolled s + len (t_partitions r)).

Definition get_stats (c : TransactionCoordinator) : TransactionStats :=
  foldl count_record (mk_stats 0 0 0 0 0 0) (map snd (iter (transactions c))).

Definition cleanup_completed (older_than now : Z) (c : TransactionCoordinator)
  : TransactionCoordinator * Z :=
  let before_len := Z.of_nat (size (transactions c)) in
  let m := filter (fun e => negb (is_terminal (t_state e.2))
                            || (elapsed (t_started_at e.2) now <=? older_than) = true)
             (transactions c) in
  (with_transactions m c, before_len - Z.of_nat (size m)).

Definition list_active_transactions (c : TransactionCoordinator) : list string :=
  map t_id (filter (fun r => negb (is_terminal (t_state r)) = true)
              (map snd (iter (transactions c)))).
End iterating.

(** ** Facts *)

(** ** The abstract transaction *)

Abbreviation view := (option (CoordinatorTransactionState * list TransactionPartition)).

Definition view_of (c : TransactionCoordinator) (id : string) : view :=
  (fun r => (t_state r, t_partitions r)) <$> transactions c !! id.

Definition key (p : TransactionPartition) : string * Z := (tp_topic p, tp_partition_id p).

Inductive allowed : view -> view -> Prop :=
| al_stutter v : allowed v v
| al_begin : allowed None (Some (Ongoing, []))
| al_enrol ps p : key p ∉ map key ps -> allowed (Some (Ongoing, ps)) (Some (Ongoing, ps ++ [p]))
| al_prepare ps : ps <> [] -> allowed (Some (Ongoing, ps)) (Some (Preparing, ps))
| al_commit ps : allowed (Some (Preparing, ps)) (Some (Committed, ps))
| al_abort s ps : is_terminal s = false -> allowed (Some (s, ps)) (Some (Aborted, ps))
| al_timeout s ps : is_terminal s = false -> allowed (Some (s, ps)) (Some (TimedOut, ps))
| al_cleanup s ps : is_terminal s = true -> allowed (Some (s, ps)) None.

(** ** Operations as data, and their events *)

Inductive op : Type :=
| OpBegin (id producer_id : string)
| OpAdd (id topic : string) (partition_id first_offset last_offset : Z)
| OpPrepare (id : string)
| OpCommit (id : string)
| OpAbort (id : string)
| OpCheckTimeouts
| OpRecover
| OpCleanup (older_than : Z).

Inductive event : Type :=
| EvBegun (id : string)
| EvEnrolled (id : string) (p : TransactionPartition)
| EvPrepared (id : string)
| EvCommitted (id : string) (ps : list TransactionPartition)
| EvAborted (id : string) (ps : list TransactionPartition)
| EvSwept (ids : list string)
| EvCleaned (n : Z)
| EvError (e : TransactionCoordinatorError)
| EvPanic.

Definition event_of {A} (f : A -> event) (r : txn_result A) : event :=
  match r with Ok a => f a | Err e => EvError e | Panic => EvPanic end.

Section executions.
Context `{HashOrder}.

Definition exec (o : op) (now : Z) (c : TransactionCoordinator) : TransactionCoordinator * event :=
  match o with
  | OpBegin id p => let '(c, r) := begin id p now c in (c, event_of EvBegun r)
  | OpAdd id topic n first last =>
      let '(c, r) := add_partition id topic n first last c in
      (c, event_of (fun _ => EvEnrolled id (mk_txn_partition topic n first last)) r)
  | OpPrepare id => let '(c, r) := prepare id now c in (c, event_of (fun _ => EvPrepared id) r)
  | OpCommit id => let '(c, r) := commit id now c in (c, event_of (EvCommitted id) r)
  | OpAbort id => let '(c, r) := abort id c in (c, event_of (EvAborted id) r)
  | OpCheckTimeouts => let '(c, ids) := check_timeouts now c in (c, EvSwept ids)
  | OpRecover => let '(c, ids) := recover_pending c in (c, EvSwept ids)
  | OpCleanup d => let '(c, n) := cleanup_completed d now c in (c, EvCleaned n)
  end.

(** A run: the operations with their clock readings, the events in order. *)
Fixpoint run (ops : list (op * Z)) (c : TransactionCoordinator)
  : TransactionCoordinator * list event :=
  match ops with
  | [] => (c, [])
  | (o, now) :: ops =>
      let '(c, e) := exec o now c in
      let '(c, es) := run ops c in
      (c, e :: es)
  end.

Lemma run_snoc ops o now c :
  run (ops ++ [(o, now)]) c =
    (let '(c1, es) := run ops c in let '(c2, e) := exec o now c1 in (c2, es ++ [e])).
Proof.
  revert c. induction ops as [|[o' n'] ops IH]; intros c; cbn [run app].
  - by destruct (exec o now c).
  - destruct (exec o' n' c) as [c1 e1]. rewrite IH. destruct (run ops c1) as [c2 es].
    by destruct (exec o now c2).
Qed.

(** ** One operation on one transaction *)

Lemma view_store c id r id' :
  view_of (store id r c) id' =
    (if decide (id' = id) then Some (t_state r, t_partitions r) else view_of c id').
Proof.
  unfold view_of, store, with_transactions. cbn. destruct (decide (id' = id)) as [->|Hne].
  - by rewrite lookup_insert_eq.
  - by rewrite lookup_insert_ne.
Qed.

Lemma allowed_store c id r id' :
  allowed (view_of c id) (Some (t_state r, t_partitions r)) ->
  allowed (view_of c id') (view_of (store id r c) id').
Proof. intros. rewrite view_store. destruct (decide (id' = id)) as [->|]; [done|apply al_stutter]. Qed.

Lemma enrolled_spec topic n ps : enrolled topic n ps = true <-> (topic, n) ∈ map key ps.
Proof.
  unfold enrolled. rewrite existsb_exists, list_elem_of_fmap. split.
  - intros (p & Hin & [<-%String.eqb_eq <-%Z.eqb_eq]%andb_true_iff). exists p.
    split; [done|]. by apply list_elem_of_In.
  - intros (p & [= -> ->] & Hin). exists p. split; [by apply list_elem_of_In|].
    by rewrite String.eqb_refl, Z.eqb_refl.
Qed.

Lemma sweep_lookup f s c id :
  transactions (fst (sweep f s c)) !! id
  = (fun r => if f r then set_state s r else r) <$> transactions c !! id.
Proof. apply lookup_fmap. Qed.

(** Exactly the ids of the records that the sweep changed. *)
Lemma sweep_ids f s c id :
  id ∈ snd (sweep f s c) <-> exists r, transactions c !! id = Some r /\ f r = true.
Proof.
  cbn. rewrite list_elem_of_fmap. setoid_rewrite list_elem_of_filter. split.
  - intros ([k r] & -> & Hf & Hin%elem_of_iter). eauto.
  - intros (r & Hr & Hf). exists (id, r). split; [done|]. split; [done|]. by apply elem_of_iter.
Qed.

Lemma cleanup_lookup d now c id :
  transactions (fst (cleanup_completed d now c)) !! id =
    match transactions c !! id with
    | Some r => if is_terminal (t_state r) && negb (elapsed (t_started_at r) now <=? d)
                then None else Some r
    | None => None
    end.
Proof.
  unfold cleanup_completed, with_transactions. cbn [fst transactions].
  destruct (transactions c !! id) as [r|] eqn:Hr.
  - destruct (is_terminal (t_state r)) eqn:Ht, (elapsed (t_started_at r) now <=? d) eqn:He; cbn [andb negb].
    2: { apply map_lookup_filter_None. right. intros x Hx. rewrite Hr in Hx. injection Hx as <-. cbn.
         by rewrite Ht, He. }
    all: apply map_lookup_filter_Some; split; [done|]; cbn; by rewrite Ht, ?He.
  - apply map_lookup_filter_None. by left.
Qed.

Lemma expires_live now r : expires now r = true -> is_terminal (t_state r) = false.
Proof.
  unfold expires. destruct (is_timed_out r now); [|done]. by destruct (t_state r).
Qed.

Lemma exec_allowed o now c id :
  allowed (view_of c id) (view_of (fst (exec o now c)) id).
Proof.
  destruct o as [i p|i topic n first last|i|i|i| | |d]; cbn [exec].
  - unfold begin. destruct (transactions c !! i) as [r|] eqn:Hr; [apply al_stutter|].
    apply allowed_store. unfold view_of. rewrite Hr. apply al_begin.
  - unfold add_partition. destruct (transactions c !! i) as [r|] eqn:Hr; [|apply al_stutter].
    case_bool_decide as Hs; [|apply al_stutter]. cbn [negb].
    destruct (enrolled topic n (t_partitions r)) eqn:He; [apply al_stutter|].
    apply allowed_store. unfold view_of. rewrite Hr. cbn. rewrite Hs. apply al_enrol.
    intros Hin. apply (enrolled_spec topic n) in Hin. by rewrite Hin in He.
  - unfold prepare. destruct (transactions c !! i) as [r|] eqn:Hr; [|apply al_stutter].
    case_bool_decide as Hs; [|apply al_stutter]. cbn [negb].
    destruct (is_timed_out r now).
    + apply allowed_store. unfold view_of. rewrite Hr. cbn. rewrite Hs. by apply al_timeout.
    + destruct (t_partitions r) as [|p ps] eqn:Hp; [apply al_stutter|].
      apply allowed_store. unfold view_of. rewrite Hr. cbn. rewrite Hs, Hp. by apply al_prepare.
  - unfold commit. destruct (transactions c !! i) as [r|] eqn:Hr; [|apply al_stutter].
    case_bool_decide as Hs; [|apply al_stutter]. cbn [negb].
    destruct (is_timed_out r now); apply allowed_store; unfold view_of; rewrite Hr; cbn; rewrite Hs.
    + by apply al_timeout.
    + apply al_commit.
  - unfold abort. destruct (transactions c !! i) as [r|] eqn:Hr; [|apply al_stutter].
    destruct (t_state r) eqn:Hs; try apply al_stutter;
      apply allowed_store; unfold view_of; rewrite Hr; cbn; rewrite Hs; by apply al_abort.
  - unfold check_timeouts, view_of. destruct (sweep _ _ _) as [c' ids] eqn:Hsw.
    replace c' with (fst (sweep (expires now) TimedOut c)) by by rewrite Hsw.
    cbn [fst]. rewrite sweep_lookup. destruct (transactions c !! id) as [r|]; [|apply al_stutter].
    cbn. destruct (expires now r) eqn:He; [|apply al_stutter]. apply al_timeout. by eapply expires_live.
  - unfold recover_pending, view_of. destruct (sweep _ _ _) as [c' ids] eqn:Hsw.
    replace c' with (fst (sweep (fun r => bool_decide (t_state r = Preparing)) Aborted c)) by by rewrite Hsw.
    cbn [fst]. rewrite sweep_lookup. destruct (transactions c !! id) as [r|]; [|apply al_stutter].
    cbn. case_bool_decide as Hs; [|apply al_stutter]. cbn. rewrite Hs. by apply al_abort.
  - unfold view_of. destruct (cleanup_completed d now c) as [c' k] eqn:Hcl.
    replace c' with (fst (cleanup_completed d now c)) by by rewrite Hcl.
    cbn [fst]. rewrite cleanup_lookup. destruct (transactions c !! id) as [r|]; [|apply al_stutter].
    destruct (is_terminal (t_state r)) eqn:Ht; [|apply al_stutter]. cbn [andb].
    destruct (negb _); [|apply al_stutter]. by apply al_cleanup.
Qed.

(** ** The log of enrolments *)

(** What the events say was enrolled in [id] since it last began. *)
Definition log_step (id : string) (ps : list TransactionPartition) (e : event)
  : list TransactionPartition :=
  match e with
  | EvBegun i => if decide (i = id) then [] else ps
  | EvEnrolled i p => if decide (i = id) then ps ++ [p] else ps
  | _ => ps
  end.

Definition enrolment_log (id : string) (es : list event) : list TransactionPartition :=
  foldl (log_step id) [] es.

Lemma view_store_eq c i r : view_of (store i r c) i = Some (t_state r, t_partitions r).
Proof. rewrite view_store. by rewrite decide_True. Qed.

Lemma view_store_ne c i r id : id <> i -> view_of (store i r c) id = view_of c id.
Proof. intros. rewrite view_store. by rewrite decide_False. Qed.

(** A store that keeps the partitions of an existing record. *)
Lemma view_store_same c i r r' id s ps :
  transactions c !! i = Some r -> t_partitions r' = t_partitions r ->
  view_of (store i r' c) id = Some (s, ps) -> exists s', view_of c id = Some (s', ps).
Proof.
  intros Hr Hp. rewrite view_store. destruct (decide (id = i)) as [->|]; [|eauto].
  intros [= _ <-]. exists (t_state r). unfold view_of. by rewrite Hr, Hp.
Qed.

Lemma exec_log o now c id s' ps' :
  view_of (fst (exec o now c)) id = Some (s', ps') ->
  (exists s ps, view_of c id = Some (s, ps) /\ ps' = log_step id ps (snd (exec o now c)))
  \/ (snd (exec o now c) = EvBegun id /\ ps' = []).
Proof.
  destruct o as [i p|i topic n first last|i|i|i| | |d]; cbn [exec].
  - unfold begin. destruct (transactions c !! i) as [r|] eqn:Hr; [by left; eauto|].
    cbn. rewrite view_store. destruct (decide (id = i)) as [->|Hne].
    + intros [= _ <-]. by right.
    + intros Hv. left. exists s', ps'. by rewrite decide_False.
  - unfold add_partition. destruct (transactions c !! i) as [r|] eqn:Hr; [|by left; eauto].
    case_bool_decide as Hs; [|by left; eauto]. cbn [negb].
    destruct (enrolled topic n (t_partitions r)); [by left; eauto|].
    cbn. rewrite view_store. destruct (decide (id = i)) as [->|Hne].
    + intros [= _ <-]. left. exists (t_state r), (t_partitions r).
      rewrite decide_True by done. unfold view_of. by rewrite Hr.
    + intros Hv. left. exists s', ps'. by rewrite decide_False.
  - unfold prepare. destruct (transactions c !! i) as [r|] eqn:Hr; [|by left; eauto].
    case_bool_decide as Hs; [|by left; eauto]. cbn [negb].
    destruct (is_timed_out r now);
      [|destruct (t_partitions r) as [|p ps] eqn:Hp; [by left; eauto|]];
      intros Hv; eapply view_store_same in Hv as [s Hv]; eauto; left; eauto.
  - unfold commit. destruct (transactions c !! i) as [r|] eqn:Hr; [|by left; eauto].
    case_bool_decide as Hs; [|by left; eauto]. cbn [negb].
    destruct (is_timed_out r now);
      intros Hv; eapply view_store_same in Hv as [s Hv]; eauto; left; eauto.
  - unfold abort. destruct (transactions c !! i) as [r|] eqn:Hr; [|by left; eauto].
    destruct (t_state r) eqn:Hs; try (by left; eauto);
      intros Hv; eapply view_store_same in Hv as [s Hv]; eauto; left; eauto.
  - unfold check_timeouts, view_of. destruct (sweep _ _ _) as [c' ids] eqn:Hsw.
    replace c' with (fst (sweep (expires now) TimedOut c)) by by rewrite Hsw.
    cbn [fst snd log_step]. rewrite sweep_lookup. destruct (transactions c !! id) as [r|]; [|done].
    intros [= _ <-]. left. exists (t_state r), (t_partitions r). by destruct (expires now r).
  - unfold recover_pending, view_of. destruct (sweep _ _ _) as [c' ids] eqn:Hsw.
    replace c' with (fst (sweep (fun r => bool_decide (t_state r = Preparing)) Aborted c)) by by rewrite Hsw.
    cbn [fst snd log_step]. rewrite sweep_lookup. destruct (transactions c !! id) as [r|]; [|done].
    intros [= _ <-]. left. exists (t_state r), (t_partitions r). by case_bool_decide.
  - unfold view_of. destruct (cleanup_completed d now c) as [c' k] eqn:Hcl.
    replace c' with (fst (cleanup_completed d now c)) by by rewrite Hcl.
    cbn [fst snd log_step]. rewrite cleanup_lookup. destruct (transactions c !! id) as [r|]; [|done].
    destruct (_ && _); [done|]. intros [= <- <-]. left. exists (t_state r), (t_partitions r). done.
Qed.

(** ** The invariant of a run *)

Definition view_ok (v : view) : Prop :=
  match v with
  | Some (s, ps) => NoDup (map key ps) /\ (s = Preparing \/ s = Committed -> ps <> [])
  | None => True
  end.

Lemma allowed_ok v v' : view_ok v -> allowed v v' -> view_ok v'.
Proof.
  intros Hv Ha. destruct Ha as [v| |ps p Hp|ps Hps|ps|s ps Hs|s ps Hs|s ps Hs]; cbn in *; try done.
  - split; [apply NoDup_nil_2|]. by intros [?|?].
  - destruct Hv as [Hnd _]. split; [|by intros [?|?]].
    rewrite map_app. apply NoDup_app. split; [done|]. split.
    + intros x Hx ->%list_elem_of_singleton. done.
    + apply NoDup_singleton.
  - destruct Hv as [Hnd _]. done.
  - destruct Hv as [Hnd Hne]. split; [done|]. intros _. apply Hne. by left.
  - destruct Hv as [Hnd _]. split; [done|]. by intros [?|?].
  - destruct Hv as [Hnd _]. split; [done|]. by intros [?|?].
Qed.

Lemma run_view_ok ops c id : view_ok (view_of c id) -> view_ok (view_of (fst (run ops c)) id).
Proof.
  revert c. induction ops as [|[o now] ops IH]; intros c Hv; [done|]. cbn [run].
  pose proof (exec_allowed o now c id) as Ha. destruct (exec o now c) as [c1 e]. cbn in Ha.
  specialize (IH c1 (allowed_ok _ _ Hv Ha)). by destruct (run ops c1).
Qed.

Lemma run_log ops d id s ps :
  view_of (fst (run ops (new d))) id = Some (s, ps) ->
  ps = enrolment_log id (snd (run ops (new d))).
Proof.
  revert s ps. induction ops as [|[o now] ops IH] using rev_ind; intros s ps.
  - cbn. unfold view_of. cbn. by rewrite lookup_empty.
  - rewrite run_snoc. destruct (run ops (new d)) as [c1 es] eqn:Hrun. cbn [fst snd] in IH.
    pose proof (exec_log o now c1 id) as Hl. destruct (exec o now c1) as [c2 e]. cbn [fst snd] in *.
    intros Hv. unfold enrolment_log. rewrite foldl_app. cbn [foldl]. fold (enrolment_log id es).
    apply Hl in Hv as [(s0 & ps0 & Hv & ->)|[-> ->]].
    + by rewrite <- (IH s0 ps0 Hv).
    + cbn. by rewrite decide_True.
Qed.

(** ** Decisions

    What an answer decides about a transaction: a commit, an abort, an end by its timeout (of which prepare and commit
    tell, and the check of all transactions), or the abort of a prepared one at recovery. *)

Definition decision (id : string) (o : op) (e : event) : option CoordinatorTransactionState :=
  let about (i : string) s := if bool_decide (i = id) then Some s else None in
  match o, e with
  | _, EvCommitted i _ => about i Committed
  | _, EvAborted i _ => about i Aborted
  | OpPrepare _, EvError (TransactionTimedOut i) | OpCommit _, EvError (TransactionTimedOut i) => about i TimedOut
  | OpCheckTimeouts, EvSwept ids => if bool_decide (id ∈ ids) then Some TimedOut else None
  | OpRecover, EvSwept ids => if bool_decide (id ∈ ids) then Some Aborted else None
  | _, _ => None
  end.

(** The decisions about [id] in a run, in order. *)
Fixpoint decisions (id : string) (ops : list (op * Z)) (es : list event) : list CoordinatorTransactionState :=
  match ops, es with
  | (o, _) :: ops, e :: es =>
      match decision id o e with Some s => s :: decisions id ops es | None => decisions id ops es end
  | _, _ => []
  end.

(** What a decision may rest on: the transaction before it, and the time. *)
Definition justified (s : CoordinatorTransactionState) (e : event) (now : Z) (r : TransactionRecord) : Prop :=
  let age := Z.max 0 (now - t_started_at r) in
  match s with
  | Committed => t_state r = Preparing /\ age <= t_timeout r /\ exists i, e = EvCommitted i (t_partitions r)
  | TimedOut => (t_state r = Ongoing \/ t_state r = Preparing) /\ t_timeout r < age
  | _ => t_state r = Ongoing \/ t_state r = Preparing
  end.

Definition undecided (v : view) : bool :=
  match v with Some (s, _) => negb (is_terminal s) | None => false end.

(** The transaction is as it was decided, or cleaned up. *)
Definition settled (s : CoordinatorTransactionState) (v : view) : Prop :=
  v = None \/ exists ps, v = Some (s, ps).

Lemma timed_out_age r now : is_timed_out r now = true <-> t_timeout r < Z.max 0 (now - t_started_at r).
Proof. unfold is_timed_out, elapsed, sat_sub. lia. Qed.

Lemma in_time_age r now : is_timed_out r now = false <-> Z.max 0 (now - t_started_at r) <= t_timeout r.
Proof. unfold is_timed_out, elapsed, sat_sub. lia. Qed.

Lemma live_state s : is_terminal s = false <-> s = Ongoing \/ s = Preparing.
Proof. destruct s; cbn; intuition congruence. Qed.

(** What a decision rests on, and the state it leaves. *)
Lemma exec_decides o now c id s :
  decision id o (snd (exec o now c)) = Some s ->
  exists r, transactions c !! id = Some r /\ justified s (snd (exec o now c)) now r
    /\ is_terminal s = true /\ view_of (fst (exec o now c)) id = Some (s, t_partitions r).
Proof.
  destruct o as [i p|i topic n first last|i|i|i| | |d]; cbn [exec].
  - unfold begin. by destruct (transactions c !! i).
  - unfold add_partition. destruct (transactions c !! i) as [r|]; [|done].
    destruct (negb _); [done|]. by destruct (enrolled _ _ _).
  - unfold prepare. destruct (transactions c !! i) as [r|] eqn:Hr; [|done].
    case_bool_decide as Hs; [|done]. cbn [negb]. destruct (is_timed_out r now) eqn:Ht; [|by destruct (t_partitions r)].
    cbn. case_bool_decide as Hi; [|done]. subst i. intros [= <-]. exists r. apply timed_out_age in Ht.
    rewrite view_store_eq. unfold justified; split_and!; auto.
  - unfold commit. destruct (transactions c !! i) as [r|] eqn:Hr; [|done].
    case_bool_decide as Hs; [|done]. cbn [negb]. destruct (is_timed_out r now) eqn:Ht;
      cbn; (case_bool_decide as Hi; [|done]); subst i; intros [= <-]; exists r; rewrite view_store_eq.
    + apply timed_out_age in Ht. unfold justified; split_and!; auto.
    + apply in_time_age in Ht. unfold justified; split_and!; eauto.
  - unfold abort. destruct (transactions c !! i) as [r|] eqn:Hr; [|done].
    destruct (t_state r) eqn:Hs; try done; cbn; (case_bool_decide as Hi; [|done]); subst i; intros [= <-]; exists r;
      rewrite view_store_eq; cbn; rewrite Hs; unfold justified; split_and!; auto.
  - unfold check_timeouts. pose proof (sweep_ids (expires now) TimedOut c id) as Hids.
    pose proof (sweep_lookup (expires now) TimedOut c id) as Hl. destruct (sweep _ _ _) as [c' ids]. cbn [fst snd decision] in *.
    case_bool_decide as Hin; [|done]. intros [= <-]. apply Hids in Hin as (r & Hr & He). exists r.
    unfold view_of. rewrite Hl, Hr. cbn. rewrite He. pose proof (expires_live _ _ He) as Hlive%live_state.
    unfold expires in He. destruct (is_timed_out r now) eqn:Ht; [|done]. apply timed_out_age in Ht. unfold justified; split_and!; auto.
  - unfold recover_pending. pose proof (sweep_ids (fun r => bool_decide (t_state r = Preparing)) Aborted c id) as Hids.
    pose proof (sweep_lookup (fun r => bool_decide (t_state r = Preparing)) Aborted c id) as Hl.
    destruct (sweep _ _ _) as [c' ids]. cbn [fst snd decision] in *.
    case_bool_decide as Hin; [|done]. intros [= <-]. apply Hids in Hin as (r & Hr & He). exists r.
    unfold view_of. rewrite Hl, Hr. cbn. rewrite He. apply bool_decide_eq_true in He. unfold justified; split_and!; auto.
  - by destruct (cleanup_completed _ _ _).
Qed.

(** Without a decision a transaction stays open, or stays closed. *)
Lemma exec_undecided o now c id :
  decision id o (snd (exec o now c)) = None -> snd (exec o now c) <> EvBegun id ->
  undecided (view_of (fst (exec o now c)) id) = undecided (view_of c id).
Proof.
  destruct o as [i p|i topic n first last|i|i|i| | |d]; cbn [exec].
  - unfold begin. destruct (transactions c !! i) as [r|]; [done|]. cbn. intros _ Hne. by rewrite view_store_ne by congruence.
  - unfold add_partition. destruct (transactions c !! i) as [r|] eqn:Hr; [|done].
    case_bool_decide as Hs; [|done]. cbn [negb]. destruct (enrolled _ _ _); [done|]. intros _ _. cbn [fst]. rewrite view_store.
    destruct (decide (id = i)) as [->|]; [|done]. unfold view_of. by rewrite Hr.
  - unfold prepare. destruct (transactions c !! i) as [r|] eqn:Hr; [|done].
    case_bool_decide as Hs; [|done]. cbn [negb]. destruct (is_timed_out r now).
    + cbn. case_bool_decide as Hi; [done|]. intros _ _. by rewrite view_store_ne by congruence.
    + destruct (t_partitions r) eqn:Hp; [done|]. intros _ _. cbn [fst]. rewrite view_store.
      destruct (decide (id = i)) as [->|]; [|done]. unfold view_of. rewrite Hr. cbn. by rewrite Hs.
  - unfold commit. destruct (transactions c !! i) as [r|] eqn:Hr; [|done].
    case_bool_decide as Hs; [|done]. cbn [negb]. destruct (is_timed_out r now);
      cbn; (case_bool_decide as Hi; [done|]); intros _ _; by rewrite view_store_ne by congruence.
  - unfold abort. destruct (transactions c !! i) as [r|] eqn:Hr; [|done].
    destruct (t_state r) eqn:Hs; try done; cbn; (case_bool_decide as Hi; [done|]); intros _ _;
      by rewrite view_store_ne by congruence.
  - unfold check_timeouts, view_of. pose proof (sweep_ids (expires now) TimedOut c id) as Hids.
    pose proof (sweep_lookup (expires now) TimedOut c id) as Hl. destruct (sweep _ _ _) as [c' ids]. cbn [fst snd decision] in *.
    case_bool_decide as Hin; [done|]. intros _ _. rewrite Hl. destruct (transactions c !! id) as [r|]; [|done]. cbn.
    destruct (expires now r) eqn:He; [|done]. destruct Hin. apply Hids. eauto.
  - unfold recover_pending, view_of. pose proof (sweep_ids (fun r => bool_decide (t_state r = Preparing)) Aborted c id) as Hids.
    pose proof (sweep_lookup (fun r => bool_decide (t_state r = Preparing)) Aborted c id) as Hl.
    destruct (sweep _ _ _) as [c' ids]. cbn [fst snd decision] in *.
    case_bool_decide as Hin; [done|]. intros _ _. rewrite Hl. destruct (transactions c !! id) as [r|]; [|done]. cbn.
    case_bool_decide as He; [|done]. destruct Hin. apply Hids. exists r. by rewrite bool_decide_true.
  - unfold view_of. pose proof (cleanup_lookup d now c id) as Hl. destruct (cleanup_completed _ _ _) as [c' k]. cbn [fst snd] in *.
    intros _ _. rewrite Hl. destruct (transactions c !! id) as [r|]; [|done]. cbn.
    destruct (is_terminal (t_state r)) eqn:Ht; cbn; [destruct (negb _); cbn|]; by rewrite ?Ht.
Qed.

Lemma exec_settled o now c id s :
  is_terminal s = true -> settled s (view_of c id) -> snd (exec o now c) <> EvBegun id -> settled s (view_of (fst (exec o now c)) id).
Proof.
  intros Hs [Hv|[ps Hv]] Hnb.
  - destruct (view_of (fst (exec o now c)) id) as [[s1 ps1]|] eqn:Hv'; [|by left].
    apply exec_log in Hv' as [(s0 & ps0 & Hv0 & _)|[Hb _]]; [by rewrite Hv in Hv0|done].
  - pose proof (exec_allowed o now c id) as Ha. rewrite Hv in Ha. inversion Ha; subst; first [by left|by right; eauto|congruence].
Qed.

Lemma run_settled ops c id s :
  is_terminal s = true -> settled s (view_of c id) -> EvBegun id ∉ snd (run ops c) -> settled s (view_of (fst (run ops c)) id).
Proof.
  intros Hs. revert c. induction ops as [|[o now] ops IH]; intros c Hv; [done|]. cbn [run].
  pose proof (exec_settled o now c id s Hs Hv) as He. destruct (exec o now c) as [c1 e]. specialize (IH c1). cbn [fst snd] in *.
  destruct (run ops c1) as [c2 es]. cbn [fst snd] in *. rewrite not_elem_of_cons. intros [Hne Hnin]. apply IH; auto.
Qed.

Lemma run_decisions ops c id :
  EvBegun id ∉ snd (run ops c) ->
  match decisions id ops (snd (run ops c)) with
  | [] => undecided (view_of (fst (run ops c)) id) = undecided (view_of c id)
  | [s] => undecided (view_of c id) = true /\ settled s (view_of (fst (run ops c)) id)
  | _ => False
  end.
Proof.
  revert c. induction ops as [|[o now] ops IH]; intros c; [done|]. cbn [run].
  pose proof (exec_decides o now c id) as Hd. pose proof (exec_undecided o now c id) as Hu.
  pose proof (run_settled ops (fst (exec o now c)) id) as Hset.
  destruct (exec o now c) as [c1 e]. cbn [fst snd] in *. specialize (IH c1). destruct (run ops c1) as [c2 es]. cbn [fst snd decisions] in *.
  rewrite not_elem_of_cons. intros [Hne Hnin]. specialize (IH Hnin). destruct (decision id o e) as [s|].
  - destruct (Hd s eq_refl) as (r & Hr & Hj & Hs & Hv).
    assert (Hun : undecided (view_of c1 id) = false) by (rewrite Hv; cbn; by rewrite Hs).
    destruct (decisions id ops es) as [|s' [|? ?]]; [|by rewrite Hun in IH; destruct IH|done].
    split; [|apply Hset; [done|right; eauto|done]]. unfold view_of. rewrite Hr. cbn. apply negb_true_iff, live_state.
    destruct s; cbn in Hj; tauto.
  - rewrite Hu in IH by (done || congruence). done.
Qed.

(** The [k]-th operation of a run. *)
Lemma run_at ops c k o now e :
  ops !! k = Some (o, now) -> snd (run ops c) !! k = Some e -> e = snd (exec o now (fst (run (take k ops) c))).
Proof.
  revert c k. induction ops as [|[o' n'] ops IH]; intros c k; [done|]. cbn [run].
  destruct (exec o' n' c) as [c1 e1] eqn:He. specialize (IH c1). destruct (run ops c1) as [c2 es]. cbn [snd] in *.
  destruct k as [|k]; cbn [lookup list_lookup take run].
  - intros [= -> ->] [= <-]. cbn [fst]. by rewrite He.
  - intros Ho Hk. rewrite He. specialize (IH k Ho Hk). by destruct (run (take k ops) c1).
Qed.

(** ** Properties *)

(** C6: atomic commitment.  Whatever operations are interleaved on the coordinator, a transaction is decided at most once until its
    id is begun again: by a commit, an abort, its timeout (which prepare and commit notice, and the check for timeouts) or
    the recovery.  It was open before, and is from then on as it was decided, until it is cleaned up; without a decision it stays
    open.  A commit is decided only for a prepared transaction that is not older than its timeout, and answers its
    partitions; a timeout only for one that is older. *)
Theorem txn_decided_once (ops : list (op * Z)) (c c' : TransactionCoordinator)
    (es : list event) (id : string) :
  run ops c = (c', es) -> EvBegun id ∉ es ->
  match decisions id ops es with
  | [] => undecided (view_of c' id) = undecided (view_of c id)
  | [s] => undecided (view_of c id) = true /\ settled s (view_of c' id)
  | _ => False
  end
  /\ forall k o now e s, ops !! k = Some (o, now) -> es !! k = Some e -> decision id o e = Some s ->
       exists r, transactions (fst (run (take k ops) c)) !! id = Some r /\ justified s e now r.
Proof.
  intros Hr Hb. pose proof (run_decisions ops c id) as Hd. pose proof (run_at ops c) as Hat. rewrite Hr in Hd, Hat. cbn [fst snd] in *.
  split; [by apply Hd|]. intros k o now e s Ho He Hs. specialize (Hat k o now e Ho He) as ->.
  apply exec_decides in Hs as (r & Hk & Hj & _). eauto.
Qed.

(** A commit returns exactly the partitions enrolled since the transaction began, in order,
    none twice and at least one, and a commit succeeds only after a successful prepare:
    in the state reached by any run, an operation answers Committed for a transaction only if
    it was Preparing, and with the log of its enrolments. *)
Theorem txn_commit_log (ops : list (op * Z)) (d now : Z) (id : string)
    (ps : list TransactionPartition) :
  snd (commit id now (fst (run ops (new d)))) = Ok ps ->
  ps = enrolment_log id (snd (run ops (new d))) /\ ps <> [] /\ NoDup (map key ps)
  /\ view_of (fst (run ops (new d))) id = Some (Preparing, ps)
  /\ view_of (fst (commit id now (fst (run ops (new d))))) id = Some (Committed, ps).
Proof.
  pose proof (run_log ops d id) as Hlog. pose proof (run_view_ok ops (new d) id) as Hok.
  destruct (run ops (new d)) as [c es]. cbn [fst snd] in *. unfold commit.
  destruct (transactions c !! id) as [r|] eqn:Hr; [|done].
  case_bool_decide as Hs; [|done]. cbn [negb]. destruct (is_timed_out r now); [done|].
  cbn [snd fst]. intros [= <-].
  assert (Hv : view_of c id = Some (Preparing, t_partitions r)) by (unfold view_of; rewrite Hr; cbn; by rewrite Hs).
  assert (Hn : view_ok (view_of (new d) id)) by (unfold view_of, new; cbn; by rewrite lookup_empty).
  specialize (Hok Hn). rewrite Hv in Hok. destruct Hok as [Hnd Hne].
  split; [by eapply Hlog|]. split; [apply Hne; by left|]. split; [done|]. split; [done|].
  by rewrite view_store_eq.
Qed.

(** The life cycle of a transaction: every operation takes each transaction along one edge of
    the state machine (begin, enrol a new partition while ongoing, prepare when something is
    enrolled, commit when prepared, abort or time out while undecided, clean up once
    decided) or leaves it alone; an operation on one transaction leaves the others alone. *)
Theorem txn_life_cycle (o : op) (now : Z) (c : TransactionCoordinator) (id : string) :
  allowed (view_of c id) (view_of (fst (exec o now c)) id) /\
  (match o with
   | OpBegin i _ | OpAdd i _ _ _ _ | OpPrepare i | OpCommit i | OpAbort i => i <> id
   | _ => False
   end -> view_of (fst (exec o now c)) id = view_of c id).
Proof.
  split; [apply exec_allowed|].
  destruct o as [i p|i topic n first last|i|i|i| | |d]; try done; cbn [exec]; intros Hne.
  - unfold begin. destruct (transactions c !! i); [done|]. by apply view_store_ne.
  - unfold add_partition. destruct (transactions c !! i) as [r|]; [|done].
    destruct (negb _); [done|]. destruct (enrolled _ _ _); [done|]. by apply view_store_ne.
  - unfold prepare. destruct (transactions c !! i) as [r|]; [|done].
    destruct (negb _); [done|]. destruct (is_timed_out r now); [by apply view_store_ne|].
    destruct (t_partitions r); [done|]. by apply view_store_ne.
  - unfold commit. destruct (transactions c !! i) as [r|]; [|done].
    destruct (negb _); [done|]. destruct (is_timed_out r now); by apply view_store_ne.
  - unfold abort. destruct (transactions c !! i) as [r|]; [|done].
    destruct (t_state r); try done; by apply view_store_ne.
Qed.

(** Timeouts and recovery: after [check_timeouts] no undecided transaction is older than its
    timeout, after [recover_pending] none is prepared; each reports exactly the transactions
    it changed, keeps their partitions, and touches no other. *)
Theorem txn_sweeps (now : Z) (c : TransactionCoordinator) (id : string) (r : TransactionRecord) :
  transactions c !! id = Some r ->
  let late := negb (is_terminal (t_state r)) && is_timed_out r now in
  let prepared := bool_decide (t_state r = Preparing) in
  transactions (fst (check_timeouts now c)) !! id = Some (if late then set_state TimedOut r else r)
  /\ (id ∈ snd (check_timeouts now c) <-> late = true)
  /\ transactions (fst (recover_pending c)) !! id = Some (if prepared then set_state Aborted r else r)
  /\ (id ∈ snd (recover_pending c) <-> prepared = true).
Proof.
  intros Hr late prepared.
  assert (He : expires now r = late).
  { unfold expires, late. destruct (is_timed_out r now), (t_state r); reflexivity. }
  unfold check_timeouts, recover_pending. rewrite !sweep_lookup, !sweep_ids, Hr. cbn.
  rewrite He. split; [done|]. split; [|split; [done|]].
  - split; [intros (r' & [= <-] & ?); congruence|]. intros Hl. exists r. by rewrite He.
  - split; [by intros (r' & [= <-] & ?)|]. eauto.
Qed.
End executions.

(** Two transactions: [t1] is prepared and committed, [t2] times out. *)
Definition sample_ops : list (op * Z) :=
  [(OpBegin "t1" "p", 0); (OpBegin "t2" "p", 0); (OpAdd "t1" "orders" 3 10 20, 1);
   (OpAdd "t1" "orders" 3 21 22, 2); (OpPrepare "t1", 3)].

(** [t1] is committed in time, once; the rest of its calls is refused. *)
Lemma txn_decided_once_witness :
  let ops := [(OpCommit "t1", 4); (OpAbort "t1", 5); (OpCommit "t1", 6); (OpRecover, 7); (OpCheckTimeouts, 500)] in
  let c := fst (run sample_ops (new 100)) in
  decisions "t1" ops (snd (run ops c)) = [Committed] /\ decisions "t2" ops (snd (run ops c)) = [TimedOut]
  /\ settled Committed (view_of (fst (run ops c)) "t1")
  /\ exists r, transactions c !! "t1"%string = Some r /\ justified Committed (EvCommitted "t1" (t_partitions r)) 4 r.
Proof.
  cbv zeta. set (ops := _ :: _). set (c := fst _).
  assert (Hnb : EvBegun "t1" ∉ snd (run ops c)) by (rewrite list_elem_of_In; vm_compute; intuition discriminate).
  destruct (txn_decided_once ops c _ _ "t1" (surjective_pairing _) Hnb) as [Hd Hj].
  replace (decisions "t1" ops (snd (run ops c))) with [Committed] in * by (vm_compute; reflexivity).
  split; [done|]. split; [vm_compute; reflexivity|]. split; [exact (proj2 Hd)|].
  destruct (Hj 0%nat (OpCommit "t1") 4 (EvCommitted "t1" [mk_txn_partition "orders" 3 10 20]) Committed) as (r & Hr & Hjr);
    [reflexivity|vm_compute; reflexivity|reflexivity|].
  exists r. split; [exact Hr|]. vm_compute in Hr. injection Hr as <-. exact Hjr.
Defined.

Lemma txn_commit_log_witness :
  enrolment_log "t1" (snd (run sample_ops (new 100))) = [mk_txn_partition "orders" 3 10 20].
Proof.
  destruct (txn_commit_log sample_ops 100 4 "t1" [mk_txn_partition "orders" 3 10 20]) as [<- _];
    reflexivity.
Defined.

Lemma txn_life_cycle_witness :
  view_of (fst (exec (OpAbort "t2") 9 (fst (run sample_ops (new 100))))) "t1"
  = Some (Preparing, [mk_txn_partition "orders" 3 10 20]).
Proof.
  destruct (txn_life_cycle (OpAbort "t2") 9 (fst (run sample_ops (new 100))) "t1") as [_ ->];
    [reflexivity|discriminate].
Defined.

Lemma txn_sweeps_witness :
  "t2"%string ∈ snd (check_timeouts 101 (fst (run sample_ops (new 100)))).
Proof.
  destruct (txn_sweeps 101 (fst (run sample_ops (new 100))) "t2"
    (mk_txn "t2" "p" Ongoing [] 0 100 None) ltac:(vm_compute; reflexivity)) as (_ & H & _).
  by apply H.
Defined.
