(* ===== verification/Lru.v ===== *)
(** * The LRU map

    The caches use a third-party LRU map; the class [LruCache] states its documented contract
    through the list of its entries, most recently used first. *)

From S2P Require Import Prelude.

(** ** The interface of the LRU cache *)

Class LruCache (K V : Type) `{EqDecision K} : Type := {
  lru : Type;
  lru_cap : lru -> nat;
  lru_new : nat -> lru;
  lru_get : K -> lru -> option V * lru;
  lru_put : K -> V -> lru -> lru;
  lru_pop : K -> lru -> lru;
  lru_pop_lru : lru -> option (K * V) * lru;
  lru_iter : lru -> list (K * V)
}.

(** An entry of a list of entries, and the list without it. *)
Fixpoint entry {K V} `{EqDecision K} (k : K) (l : list (K * V)) : option V :=
  match l with
  | [] => None
  | (k', v) :: l => if decide (k = k') then Some v else entry k l
  end.

Definition others {K V} `{EqDecision K} (k : K) (l : list (K * V)) : list (K * V) :=
  filter (fun e => e.1 <> k) l.

(** [get] moves the entry to the front, [put] inserts at the front and evicts the last entry
    when the capacity is exceeded, [pop] removes, [pop_lru] takes the last entry; [iter] goes from the most to the least
    recently used. *)
Class LruLaws (K V : Type) `{LruCache K V} : Prop := {
  lru_new_law n : lru_iter (lru_new n) = [] /\ lru_cap (lru_new n) = n;
  lru_get_law k c :
    fst (lru_get k c) = entry k (lru_iter c) /\ lru_cap (snd (lru_get k c)) = lru_cap c
    /\ lru_iter (snd (lru_get k c)) =
         match entry k (lru_iter c) with
         | Some v => (k, v) :: others k (lru_iter c)
         | None => lru_iter c
         end;
  lru_put_law k v c :
    lru_cap (lru_put k v c) = lru_cap c
    /\ lru_iter (lru_put k v c) = take (lru_cap c) ((k, v) :: others k (lru_iter c));
  lru_pop_law k c :
    lru_cap (lru_pop k c) = lru_cap c /\ lru_iter (lru_pop k c) = others k (lru_iter c);
  lru_pop_lru_law c :
    fst (lru_pop_lru c) = list.last (lru_iter c) /\ lru_cap (snd (lru_pop_lru c)) = lru_cap c
    /\ lru_iter (snd (lru_pop_lru c)) = removelast (lru_iter c)
}.

(** ** A list implements the interface *)

Section list_lru.
Context {K V : Type} `{EqDecision K}.

#[export] Instance list_lru : LruCache K V := {
  lru := nat * list (K * V);
  lru_cap := fst;
  lru_new n := (n, []);
  lru_get k c := (entry k c.2, (c.1, match entry k c.2 with
                                     | Some v => (k, v) :: others k c.2
                                     | None => c.2
                                     end));
  lru_put k v c := (c.1, take c.1 ((k, v) :: others k c.2));
  lru_pop k c := (c.1, others k c.2);
  lru_pop_lru c := (list.last c.2, (c.1, removelast c.2));
  lru_iter := snd
}.

#[export] Instance list_lru_laws : LruLaws K V.
Proof. by split. Qed.
End list_lru.

(** ** Entries of a list *)

Section entries.
Context {K V : Type} `{Countable K}.
Implicit Types l : list (K * V).

Lemma entry_others_ne k k' l : k <> k' -> entry k (others k' l) = entry k l.
Proof.
  intros Hne. unfold others. induction l as [|[j v] l IH]; [done|].
  rewrite filter_cons. cbn [fst]. destruct (decide (j <> k')) as [Hj|Hj]; cbn [entry].
  - by rewrite IH.
  - apply dec_stable in Hj as ->. by rewrite (decide_False (P := k = k')).
Qed.

Lemma entry_cons_others k k' v l :
  entry k ((k', v) :: others k' l) = if decide (k = k') then Some v else entry k l.
Proof. cbn [entry]. destruct (decide (k = k')); [done|]. by apply entry_others_ne. Qed.

Lemma elem_of_others_keys k k' l : k ∈ (others k' l).*1 <-> k <> k' /\ k ∈ l.*1.
Proof.
  unfold others. rewrite !list_elem_of_fmap. setoid_rewrite list_elem_of_filter. split.
  - intros ([j v] & -> & Hj & Hin). split; [done|]. eauto.
  - intros [Hne ([j v] & -> & Hin)]. exists (j, v). eauto.
Qed.

Lemma NoDup_others k l : NoDup l.*1 -> NoDup (others k l).*1.
Proof.
  unfold others. induction l as [|[j v] l IH]; intros Hnd; [done|].
  apply NoDup_cons in Hnd as [Hj Hnd]. rewrite filter_cons. cbn [fst].
  destruct (decide (j <> k)); [|auto]. apply NoDup_cons. split; [|auto].
  fold (others k l). rewrite elem_of_others_keys. by intros [_ ?].
Qed.

Lemma NoDup_cons_others k v l : NoDup l.*1 -> NoDup (((k, v) :: others k l).*1).
Proof.
  intros Hnd. apply NoDup_cons. split; [|by apply NoDup_others].
  rewrite elem_of_others_keys. by intros [? _].
Qed.

Lemma entry_elem k v l : entry k l = Some v -> k ∈ l.*1.
Proof.
  induction l as [|[j w] l IH]; [done|]. cbn [entry]. destruct (decide (k = j)) as [->|Hne].
  - intros _. left.
  - intros Hin. right. auto.
Qed.

(** Distinct keys out of a set that fits the capacity fit it. *)
Lemma keys_fit (ks : gset K) l : NoDup l.*1 -> (forall k, k ∈ l.*1 -> k ∈ ks) -> (length l <= size ks)%nat.
Proof.
  intros Hnd Hin. rewrite <- (length_fmap fst l), <- (size_list_to_set (C := gset K) l.*1) by done.
  apply subseteq_size. intros k Hk. by apply Hin, elem_of_list_to_set in Hk || (apply Hin; by apply elem_of_list_to_set in Hk).
Qed.
End entries.
