(* ===== verification/Dedup.v ===== *)
(** * Idempotent producers: the sequence cache (crates/streamhouse-metadata/src/dedup.rs)

    The cache is an LRU map ([Lru]).  The write lock is held for the whole of each
    operation. *)

From S2P Require Import Prelude Lru.

(** ** The dedup cache *)

Inductive DedupResult : Type :=
| DOk
| Duplicate
| SequenceGap (expected got : Z).

#[export] Instance DedupResult_eq_dec : EqDecision DedupResult.
Proof. solve_decision. Defined.

(** (producer id, topic, partition) *)
Abbreviation dkey := (string * string * Z)%type.

Record DedupStats : Type := mk_dedup_stats {
  s_entries : Z;
  s_capacity : Z;
  s_accepted : Z;
  s_duplicates : Z;
  s_gaps : Z
}.

Section dedup.
Context `{LruCache (string * string * Z) Z}.

Record DedupCache : Type := mk_dedup {
  cache : lru;
  capacity : nat;
  accepted : Z;
  duplicates : Z;
  gaps : Z
}.

(** [None] when [NonZeroUsize::new] makes [expect] panic. *)
Definition new (capacity : nat) : option DedupCache :=
  match capacity with
  | O => None
  | S _ => Some (mk_dedup (lru_new capacity) capacity 0 0 0)
  end.

Definition check_and_update (producer_id topic : string) (partition base_sequence record_count : Z)
    (d : DedupCache) : DedupCache * DedupResult :=
  let key := (producer_id, topic, partition) in
  let '(last_seq, c) := lru_get key (cache d) in
  match last_seq with
  | None =>
      let new_last := swrap 64 (swrap 64 (base_sequence + record_count) - 1) in
      (mk_dedup (lru_put key new_last c) (capacity d) (wrap 64 (accepted d + 1)) (duplicates d) (gaps d),
       DOk)
  | Some last =>
      if base_sequence <=? last then
        (mk_dedup c (capacity d) (accepted d) (wrap 64 (duplicates d + 1)) (gaps d), Duplicate)
      else if base_sequence =? swrap 64 (last + 1) then
        let new_last := swrap 64 (swrap 64 (base_sequence + record_count) - 1) in
        (mk_dedup (lru_put key new_last c) (capacity d) (wrap 64 (accepted d + 1)) (duplicates d)
           (gaps d), DOk)
      else
        (mk_dedup c (capacity d) (accepted d) (duplicates d) (wrap 64 (gaps d + 1)),
         SequenceGap (swrap 64 (last + 1)) base_sequence)
  end.

Definition evict_producer (producer_id : string) (d : DedupCache) : DedupCache :=
  let keys_to_remove := map fst (filter (fun e => e.1.1.1 = producer_id) (lru_iter (cache d))) in
  mk_dedup (foldl (fun c key => lru_pop key c) (cache d) keys_to_remove) (capacity d) (accepted d)
    (duplicates d) (gaps d).

Definition length_of (d : DedupCache) : Z := len (lru_iter (cache d)).
Definition is_empty (d : DedupCache) : bool := length_of d =? 0.

(** [try_read] of an uncontended lock. *)
Definition stats (d : DedupCache) : DedupStats :=
  mk_dedup_stats (length_of d) (Z.of_nat (capacity d)) (accepted d) (duplicates d) (gaps d).

Definition get_sequence (producer_id topic : string) (partition : Z) (d : DedupCache)
  : DedupCache * option Z :=
  let '(v, c) := lru_get (producer_id, topic, partition) (cache d) in
  (mk_dedup c (capacity d) (accepted d) (duplicates d) (gaps d), v).
End dedup.

(** ** Facts *)

(** ** The specification: an unbounded table *)

Record batch : Type := mk_batch { b_key : dkey; b_base : Z; b_count : Z }.

Definition b_end (b : batch) : Z := b_base b + b_count b - 1.

(** What the callers guarantee: at least one record, sequences in range. *)
Definition wf_batch (b : batch) : Prop :=
  - 2 ^ 63 <= b_base b /\ 1 <= b_count b /\ b_base b + b_count b < 2 ^ 63.

Definition spec_check (b : batch) (m : gmap dkey Z) : gmap dkey Z * DedupResult :=
  match m !! b_key b with
  | None => (<[b_key b := b_end b]> m, DOk)
  | Some last =>
      if b_base b <=? last then (m, Duplicate)
      else if b_base b =? last + 1 then (<[b_key b := b_end b]> m, DOk)
      else (m, SequenceGap (last + 1) (b_base b))
  end.

Fixpoint spec_run (bs : list batch) (m : gmap dkey Z) : list (batch * DedupResult) :=
  match bs with
  | [] => []
  | b :: bs => let '(m, r) := spec_check b m in (b, r) :: spec_run bs m
  end.

(** The batches of one key that were accepted. *)
Definition accepted_for (k : dkey) (rs : list (batch * DedupResult)) : list batch :=
  map fst (filter (fun e => b_key e.1 = k /\ e.2 = DOk) rs).

(** The batches follow each other without a gap or an overlap. *)
Fixpoint continues (last : option Z) (bs : list batch) : Prop :=
  match bs with
  | [] => True
  | b :: bs =>
      match last with Some l => b_base b = l + 1 | None => True end /\ continues (Some (b_end b)) bs
  end.

Lemma spec_continues bs m k : continues (m !! k) (accepted_for k (spec_run bs m)).
Proof.
  revert m. induction bs as [|b bs IH]; intros m; [done|]. cbn [spec_run].
  unfold spec_check. destruct (m !! b_key b) as [last|] eqn:Hl.
  - destruct (b_base b <=? last).
    { unfold accepted_for. rewrite filter_cons_False by by intros [_ ?]. apply IH. }
    destruct (Z.eqb_spec (b_base b) (last + 1)) as [He|He].
    2: { unfold accepted_for. rewrite filter_cons_False by by intros [_ ?]. apply IH. }
    unfold accepted_for. rewrite filter_cons. cbn [fst snd].
    specialize (IH (<[b_key b:=b_end b]> m)). destruct (decide (b_key b = k /\ DOk = DOk)) as [[<- _]|Hn].
    + cbn [map continues fst]. rewrite Hl. split; [done|]. by rewrite lookup_insert_eq in IH.
    + rewrite lookup_insert_ne in IH by by intros Hk; apply Hn. done.
  - unfold accepted_for. rewrite filter_cons. cbn [fst snd].
    specialize (IH (<[b_key b:=b_end b]> m)). destruct (decide (b_key b = k /\ DOk = DOk)) as [[<- _]|Hn].
    + cbn [map continues fst]. rewrite Hl. split; [done|]. by rewrite lookup_insert_eq in IH.
    + rewrite lookup_insert_ne in IH by by intros Hk; apply Hn. done.
Qed.

(** ** The cache refines the table while its keys fit *)

Section refinement.
Context `{LruLaws (string * string * Z) Z}.

Fixpoint run (bs : list batch) (d : DedupCache) : list (batch * DedupResult) :=
  match bs with
  | [] => []
  | b :: bs =>
      let '(p, t, n) := b_key b in
      let '(d, r) := check_and_update p t n (b_base b) (b_count b) d in
      (b, r) :: run bs d
  end.

Record represents (ks : gset dkey) (d : DedupCache) (m : gmap dkey Z) : Prop := {
  rep_nodup : NoDup (lru_iter (cache d)).*1;
  rep_entry : forall k, entry k (lru_iter (cache d)) = m !! k;
  rep_keys : forall k, k ∈ (lru_iter (cache d)).*1 -> k ∈ ks;
  rep_cap : (size ks <= lru_cap (cache d))%nat;
  rep_range : forall k v, m !! k = Some v -> - 2 ^ 63 <= v < 2 ^ 63 - 1
}.

Lemma end_in_range b : wf_batch b -> swrap 64 (swrap 64 (b_base b + b_count b) - 1) = b_end b.
Proof.
  intros (H1 & H2 & H3). unfold b_end.
  rewrite (swrap_small 64 (b_base b + b_count b)), swrap_small; unfold in_i;
    change (2 ^ (64 - 1)) with (2 ^ 63) in *; lia.
Qed.

(** After [get]: the same entries, the one that was read in front. *)
Lemma get_represents ks d m k d' :
  represents ks d m ->
  cache d' = snd (lru_get k (cache d)) ->
  represents ks d' m.
Proof.
  intros [Hnd He Hk Hc Hr] Hd'. destruct (lru_get_law k (cache d)) as (_ & Hcap & Hit).
  rewrite <- Hd' in Hcap, Hit. destruct (entry k (lru_iter (cache d))) as [v|] eqn:Hv.
  - split; rewrite ?Hit, ?Hcap; try done.
    + by apply NoDup_cons_others.
    + intros k'. rewrite entry_cons_others. destruct (decide (k' = k)) as [->|]; [|done].
      by rewrite <- He, Hv.
    + intros k'. rewrite fmap_cons, elem_of_cons, elem_of_others_keys. cbn.
      intros [->|[_ Hin]]; [|auto]. apply Hk. by eapply entry_elem.
  - split; rewrite ?Hit, ?Hcap; done.
Qed.

Lemma put_represents ks d m k v d' :
  represents ks d m -> k ∈ ks -> - 2 ^ 63 <= v < 2 ^ 63 - 1 ->
  cache d' = lru_put k v (cache d) -> represents ks d' (<[k := v]> m).
Proof.
  intros [Hnd He Hk Hc Hr] Hin Hv Hd'. destruct (lru_put_law k v (cache d)) as (Hcap & Hit).
  rewrite <- Hd' in Hcap, Hit.
  assert (Hkeys : forall k', k' ∈ ((k, v) :: others k (lru_iter (cache d))).*1 -> k' ∈ ks).
  { intros k'. rewrite fmap_cons, elem_of_cons, elem_of_others_keys. cbn.
    intros [->|[_ Hin']]; auto. }
  assert (Hnd' := NoDup_cons_others k v _ Hnd).
  rewrite take_ge in Hit by (etrans; [by apply (keys_fit ks)|done]).
  split; rewrite ?Hit, ?Hcap; try done.
  - intros k'. rewrite entry_cons_others. destruct (decide (k' = k)) as [->|Hne].
    + by rewrite lookup_insert_eq.
    + by rewrite lookup_insert_ne.
  - intros k' x [[_ <-]|[_ Hx]]%lookup_insert_Some; [done|eauto].
Qed.

Lemma check_refines ks d m b :
  represents ks d m -> wf_batch b -> b_key b ∈ ks ->
  let '(p, t, n) := b_key b in
  let '(d', r) := check_and_update p t n (b_base b) (b_count b) d in
  let '(m', r') := spec_check b m in
  r = r' /\ represents ks d' m'.
Proof.
  intros Hrep Hwf Hin. pose proof (end_in_range b Hwf) as Hend.
  assert (Hrng : - 2 ^ 63 <= b_end b < 2 ^ 63 - 1).
  { destruct Hwf as (? & ? & ?). unfold b_end. lia. }
  unfold check_and_update, spec_check. rewrite <- (rep_entry _ _ _ Hrep (b_key b)).
  pose proof (get_represents ks d m (b_key b)) as Hget.
  destruct (lru_get_law (b_key b) (cache d)) as (Hg & _ & _).
  destruct (b_key b) as [[p t] n]. destruct (lru_get (p, t, n) (cache d)) as [o c]. cbn [fst snd] in *.
  subst o. rewrite Hend. destruct (entry (p, t, n) (lru_iter (cache d))) as [last|] eqn:He.
  - rewrite (rep_entry _ _ _ Hrep) in He. apply (rep_range _ _ _ Hrep) in He.
    rewrite (swrap_small 64 (last + 1)); [|lia|].
    2: { unfold in_i. change (2 ^ (64 - 1)) with (2 ^ 63). lia. }
    destruct (b_base b <=? last); [split; [done|]; by apply Hget|].
    destruct (b_base b =? last + 1); (split; [done|]); [|by apply Hget].
    eapply (put_represents ks (mk_dedup c (capacity d) 0 0 0) m); [by apply Hget|done|done|done].
  - split; [done|].
    eapply (put_represents ks (mk_dedup c (capacity d) 0 0 0) m); [by apply Hget|done|done|done].
Qed.

Lemma run_refines ks d m bs :
  represents ks d m -> Forall (fun b => wf_batch b /\ b_key b ∈ ks) bs ->
  run bs d = spec_run bs m.
Proof.
  intros Hrep Hbs. revert d m Hrep. induction Hbs as [|b bs [Hwf Hin] _ IH]; intros d m Hrep; [done|].
  cbn [run spec_run]. pose proof (check_refines ks d m b Hrep Hwf Hin) as Hc.
  destruct (b_key b) as [[p t] n]. destruct (check_and_update _ _ _ _ _ d) as [d' r].
  destruct (spec_check b m) as [m' r']. destruct Hc as [-> Hrep']. f_equal. by apply IH.
Qed.

Lemma evict_loop keys c :
  lru_iter (foldl (fun c key => lru_pop key c) c keys) = filter (fun e => e.1 ∉ keys) (lru_iter c).
Proof.
  revert c. induction keys as [|k keys IH]; intros c; cbn [foldl].
  - symmetry. apply filter_all. intros e _. apply not_elem_of_nil.
  - rewrite IH. destruct (lru_pop_law k c) as [_ ->]. unfold others. rewrite list_filter_filter.
    apply list_filter_iff. intros e. rewrite not_elem_of_cons. tauto.
Qed.

(** ** Properties *)

(** C7: exactly-once batches: while the producers in use fit the cache, its answers are those
    of an unbounded table of last sequences, and the batches it accepts for a producer and
    partition follow each other without gap or overlap, so no sequence number is accepted
    twice, however retries of all producers are interleaved. *)
Theorem dedup_exactly_once (n : nat) (d : DedupCache) (bs : list batch) (ks : gset dkey) (k : dkey) :
  new n = Some d -> Forall (fun b => wf_batch b /\ b_key b ∈ ks) bs -> (size ks <= n)%nat ->
  run bs d = spec_run bs ∅ /\ continues None (accepted_for k (run bs d)).
Proof.
  intros Hn Hbs Hks.
  assert (Hrep : represents ks d ∅).
  { unfold new in Hn. destruct n as [|n]; [done|]. injection Hn as <-.
    destruct (lru_new_law (S n)) as [Hit Hcap].
    split; cbn [cache]; rewrite ?Hit, ?Hcap; try done.
    - apply NoDup_nil_2.
    - intros k' Hin. by apply elem_of_nil in Hin. }
  rewrite (run_refines ks d ∅ bs Hrep Hbs). split; [done|].
  rewrite <- (lookup_empty k). apply spec_continues.
Qed.

(** [evict_producer] removes exactly the entries of the producer and keeps the order of the
    others; the next batch of the producer is then accepted whatever its sequence. *)
Theorem dedup_evict_producer (p t : string) (n base count : Z) (d : DedupCache) :
  lru_iter (cache (evict_producer p d)) = filter (fun e => e.1.1.1 <> p) (lru_iter (cache d))
  /\ snd (check_and_update p t n base count (evict_producer p d)) = DOk.
Proof.
  assert (He : lru_iter (cache (evict_producer p d)) = filter (fun e => e.1.1.1 <> p) (lru_iter (cache d))).
  { unfold evict_producer. cbn [cache]. rewrite evict_loop. apply filter_ext_in.
    intros [[[q u] i] v] Hin. cbn. rewrite list_elem_of_fmap. setoid_rewrite list_elem_of_filter. split.
    - intros Hn ->. apply Hn. exists (p, u, i, v). done.
    - intros Hne ([[[q' u'] i'] v'] & [= <- <- <-] & Hq & _). done. }
  split; [done|]. unfold check_and_update.
  destruct (lru_get_law (p, t, n) (cache (evict_producer p d))) as (Hg & _ & _).
  destruct (lru_get _ _) as [o c]. cbn [fst] in Hg. rewrite He in Hg. subst o.
  destruct (entry _ _) as [v|] eqn:Hv; [|done]. exfalso.
  apply entry_elem, list_elem_of_fmap in Hv as ([k v'] & Hk & Hin).
  apply list_elem_of_filter in Hin as [Hne _]. cbn in *. by subst k.
Qed.
End refinement.

(** A retry of an accepted batch, and a batch that skips a sequence. *)
Lemma dedup_exactly_once_witness :
  exists d, new 2 = Some d /\
    map snd (run [mk_batch ("p", "t", 0) 0 5; mk_batch ("q", "t", 0) 7 1; mk_batch ("p", "t", 0) 0 5;
                  mk_batch ("p", "t", 0) 5 2; mk_batch ("p", "t", 0) 9 1] d)
    = [DOk; DOk; Duplicate; DOk; SequenceGap 7 9].
Proof.
  destruct (new 2) as [d|] eqn:Hd; [|discriminate]. exists d. split; [done|].
  destruct (dedup_exactly_once 2 d
    [mk_batch ("p", "t", 0) 0 5; mk_batch ("q", "t", 0) 7 1; mk_batch ("p", "t", 0) 0 5;
     mk_batch ("p", "t", 0) 5 2; mk_batch ("p", "t", 0) 9 1]
    {[ ("p", "t", 0); ("q", "t", 0) ]} ("p", "t", 0) Hd) as [-> _].
  - repeat constructor; try (by vm_compute); apply (bool_decide_unpack _); by vm_compute.
  - by vm_compute.
  - reflexivity.
Defined.

Lemma dedup_evict_producer_witness :
  exists d, new 2 = Some d /\
    snd (check_and_update "p" "t" 0 40 1 (evict_producer "p" (fst (check_and_update "p" "t" 0 0 5 d))))
    = DOk.
Proof.
  destruct (new 2) as [d|] eqn:Hd; [|discriminate]. exists d. split; [done|].
  apply (dedup_evict_producer "p" "t" 0 40 1).
Defined.
