(* ===== verification/MetadataError.v ===== *)
(** * Errors of the metadata store (crates/streamhouse-metadata/src/error.rs) *)

From stdpp Require Import pretty.
From S2P Require Import Prelude.

(** [MetadataError]; of the database and serialization errors only the text is kept. *)
Inductive MetadataError : Type :=
| MTopicNotFound (t : string) | MTopicAlreadyExists (t : string)
| MPartitionNotFound (t : string) (p : Z) | NotFoundError (m : string)
| ConflictError (m : string) | DatabaseError (m : string) | MInvalidOffset (m : string)
| MSerializationError (m : string) | MigrationError (m : string)
| MAuthenticationError (m : string) | MAuthorizationError (m : string)
| MQuotaExceeded (m : string) | MSequenceError (m : string) | InternalError (m : string)
| MTransactionError (m : string) | ProducerFenced (m : string) | NotImplemented (m : string).

(** [Display]. *)
Definition metadata_error_text (e : MetadataError) : string :=
  match e with
  | MTopicNotFound t => "Topic not found: " +:+ t
  | MTopicAlreadyExists t => "Topic already exists: " +:+ t
  | MPartitionNotFound t p => "Partition not found: " +:+ t +:+ "/" +:+ pretty p
  | NotFoundError m => "Not found: " +:+ m
  | ConflictError m => "Conflict: " +:+ m
  | DatabaseError m => "Database error: " +:+ m
  | MInvalidOffset m => "Invalid offset: " +:+ m
  | MSerializationError m => "Serialization error: " +:+ m
  | MigrationError m => "Migration error: " +:+ m
  | MAuthenticationError m => "Authentication error: " +:+ m
  | MAuthorizationError m => "Authorization error: " +:+ m
  | MQuotaExceeded m => "Quota exceeded: " +:+ m
  | MSequenceError m => "Sequence error: " +:+ m
  | InternalError m => "Internal error: " +:+ m
  | MTransactionError m => "Transaction error: " +:+ m
  | ProducerFenced m => "Producer fenced: " +:+ m
  | NotImplemented m => "Not implemented: " +:+ m
  end.
