(* ===== verification/StorageError.v ===== *)
(** * Errors of the storage layer (crates/streamhouse-storage/src/error.rs)

    [StorageError] is the [Error] of the storage crate, and [core_error_text] the text of the
    core errors ([Display] of crates/streamhouse-core/src/error.rs) it quotes. *)

From stdpp Require Import pretty.
From S2P Require Import Prelude Core MetadataError.

(** [ObjectStoreError] and [IoError] keep the text of the foreign error. *)
Inductive StorageError : Type :=
| TopicNotFound (topic : string)
| PartitionNotFound (topic : string) (partition : Z)
| S3UploadFailed (msg : string)
| FromMetadata (e : MetadataError)
| ObjectStoreError (msg : string)
| SegmentError (msg : string)
| SOffsetNotFound (offset : Z)
| IoError (msg : string)
| S3RateLimited
| S3CircuitOpen.

Definition core_error_text (e : Error) : string :=
  match e with
  | Io m => "IO error: " +:+ m
  | InvalidMagic => "Invalid magic bytes"
  | InvalidVersion v => "Invalid version: " +:+ pretty v
  | UnsupportedVersion v => "Unsupported version: " +:+ pretty v
  | InvalidCompression v => "Invalid compression type: " +:+ pretty v
  | CrcMismatch => "CRC mismatch"
  | OffsetNotFound o => "Offset not found: " +:+ pretty o
  | InvalidSegment m => "Invalid segment: " +:+ m
  | CompressionError m => "Compression error: " +:+ m
  | Decompression m => "Decompression error: " +:+ m
  | Unsupported m => "Unsupported feature: " +:+ m
  end.

(** [r.map_err(f)?], keeping a panic. *)
Definition map_err {E E' A} (f : E -> E') (r : outcome E A) : outcome E' A :=
  match r with Ok a => Ok a | Err e => Err (f e) | Panic => Panic end.

(** [Display]. *)
Definition storage_error_text (e : StorageError) : string :=
  match e with
  | TopicNotFound t => "Topic not found: " +:+ t
  | PartitionNotFound t p => "Partition not found: " +:+ t +:+ "/" +:+ pretty p
  | S3UploadFailed m => "S3 upload failed: " +:+ m
  | FromMetadata e => "Metadata error: " +:+ metadata_error_text e
  | ObjectStoreError m => "Object store error: " +:+ m
  | SegmentError m => "Segment write error: " +:+ m
  | SOffsetNotFound o => "Offset not found: " +:+ pretty o
  | IoError m => "IO error: " +:+ m
  | S3RateLimited => "S3 operation rate limited - backpressure applied"
  | S3CircuitOpen => "S3 circuit breaker open - service unhealthy"
  end.
