(* ===== verification/WalHandle.v ===== *)
(** * The handle of the write-ahead log (crates/streamhouse-storage/src/wal.rs, [WAL])

    A client of the log sends commands to the writer task ([Wal.Task]) over a channel and, for
    a flush or a truncation, awaits the answer.  The channel is a queue beside the task's
    state; how the task cuts the queue into rounds and what the file system answers is given
    as a schedule.  One client at a time uses a handle (the partition writer is behind a
    mutex), so its last command is the last of the queue. *)

From coqutil Require Import Byte.
From stdpp Require Import pretty.
From S2P Require Import Prelude External Wal WalFacts StorageError.

Inductive SyncPolicy : Type := Always | Interval (interval_ms : Z) | Never.

(** The directory is that of the organization; the maximal size is never read. *)
Record WALConfig : Type := mk_wal_config {
  sync_policy : SyncPolicy;
  batch_enabled : bool;
  batch_max_records : Z;
  batch_max_bytes : Z;
  agent_id : option string
}.

Record WAL : Type := mk_wal {
  task : Task.WalWriter;
  queue : list Task.WalCmd;
  sync_append : bool
}.

(** A round the task makes while the client waits: how many commands it drains beyond the
    first, and the outcomes of its file operations. *)
Record round_env : Type := mk_round_env {
  more : nat;
  flush_io : Task.io;
  truncate_io : Task.io
}.

Definition closed_error : StorageError := IoError "WAL writer task closed".

(** [WAL::open] on the contents of the file (empty when it is created). *)
Definition open (config : WALConfig) (contents : bytes) : WAL :=
  mk_wal (Task.open contents (batch_enabled config) (batch_max_records config) (batch_max_bytes config)
            (match sync_policy config with Never => true | _ => false end))
    [] (negb (batch_enabled config)).

(** The rounds until the queue is empty; each takes at least one command, so the length of
    the queue is fuel enough.  A schedule that ends early lets the rest go well. *)
Fixpoint drain (fuel : nat) (sched : list round_env) (w : Task.WalWriter) (q : list Task.WalCmd)
  : Task.WalWriter * list Task.reply :=
  match fuel, q with
  | S fuel, _ :: _ =>
      let e := default (mk_round_env (length q) Task.IoOk Task.IoOk) (head sched) in
      let '(w, out) := Task.run_round w (take (S (more e)) q) (flush_io e) (truncate_io e) in
      let '(w, outs) := drain fuel (tail sched) w (drop (S (more e)) q) in
      (w, out ++ outs)
  | _, _ => (w, [])
  end.

(** The client's oneshot channels are awaited one at a time. *)
Definition waiter : nat := 0.

(** [rx.await]: the answer among the replies. *)
Fixpoint answer (out : list Task.reply) : outcome StorageError () :=
  match out with
  | [] => Err closed_error
  | Task.Flushed 0 r :: _ | Task.Truncated 0 r :: _ =>
      match r with inl _ => Ok () | inr e => Err (IoError e) end
  | _ :: out => answer out
  end.

Definition send (cmd : Task.WalCmd) (h : WAL) : WAL := mk_wal (task h) (queue h ++ [cmd]) (sync_append h).

Definition await (sched : list round_env) (h : WAL) : WAL * outcome StorageError () :=
  let '(w, out) := drain (length (queue h)) sched (task h) (queue h) in
  (mk_wal w [] (sync_append h), answer out).

Definition flush_batch (sched : list round_env) (h : WAL) : WAL * outcome StorageError () :=
  await sched (send (Task.Flush waiter) h).

Definition truncate (sched : list round_env) (h : WAL) : WAL * outcome StorageError () :=
  await sched (send (Task.Truncate waiter) h).

Definition sync (sched : list round_env) (h : WAL) : WAL * outcome StorageError () := flush_batch sched h.

Definition wal_size (h : WAL) : Z := Task.current_size (task h).

(** What the task does on its own between two calls: a round, or the age of a batch. *)
Inductive tick : Type := Drain (e : round_env) | Age (flush_io : Task.io).

Definition background (t : tick) (h : WAL) : WAL :=
  match t with
  | Drain e =>
      match queue h with
      | [] => h
      | _ :: _ =>
          mk_wal (fst (Task.run_round (task h) (take (S (more e)) (queue h)) (flush_io e) (truncate_io e)))
            (drop (S (more e)) (queue h)) (sync_append h)
      end
  | Age fio => mk_wal (fst (Task.run_event (task h) (Task.Timeout fio))) (queue h) (sync_append h)
  end.

Section records.
Context `{Codecs}.

(** [append] at time [now]. *)
Definition append (key : option bytes) (value : bytes) (now : Z) (sched : list round_env) (h : WAL)
  : WAL * outcome StorageError () :=
  let h := send (Task.Append (Format.serialize_record key value now) 1) h in
  if sync_append h then flush_batch sched h else (h, Ok ()).

Definition append_batch (records : list (option bytes * bytes)) (now : Z) (sched : list round_env) (h : WAL)
  : WAL * outcome StorageError () :=
  match records with
  | [] => (h, Ok ())
  | _ :: _ =>
      let h := send (Task.Append (Format.serialize_batch records now) (len records)) h in
      if sync_append h then flush_batch sched h else (h, Ok ())
  end.

(** [recover]: flush, then read the file back.  The parser panics on records shorter than
    their header. *)
Definition recover (sched : list round_env) (h : WAL) : WAL * outcome StorageError (list Format.WALRecord) :=
  match flush_batch sched h with
  | (h, Ok _) => (h, match Format.read_wal_file (Task.file (task h)) with Ok rs => Ok rs | _ => Panic end)
  | (h, Err e) => (h, Err e)
  | (h, Panic) => (h, Panic)
  end.

End records.

(** ** Facts *)

(** ** A log that is flushed on every append ([batch_enabled = false])

    Between two calls such a log is idle: nothing is queued and nothing is batched. *)

Record idle (h : WAL) : Prop := {
  id_queue : queue h = [];
  id_batch : Task.batch (task h) = [];
  id_count : Task.batch_count (task h) = 0;
  id_sync : sync_append h = true;
  id_records : Task.batch_max_records (task h) = 1
}.

(** The schedules in which every write of a batch works. *)
Definition writes_ok (sched : list round_env) : Prop := Forall (fun e => flush_io e = Task.IoOk) sched.

(** The log with [data] added to its file. *)
Definition written (h : WAL) (data : bytes) : WAL :=
  mk_wal (Task.maybe_sync (Task.set_state (task h) (Task.file (task h) ++ data) [] 0 (Task.current_size (task h) + len data)))
    [] (sync_append h).

Lemma idle_written h data : idle h -> idle (written h data).
Proof. intros [H1 H2 H3 H4 H5]. by split. Qed.

Lemma written_file h data :
  Task.file (task (written h data)) = Task.file (task h) ++ data
  /\ Task.sync_on_flush (task (written h data)) = Task.sync_on_flush (task h)
  /\ (Task.sync_on_flush (task h) = true -> Task.synced (task (written h data)) = Task.file (task h) ++ data).
Proof. split; [done|]. split; [done|]. cbn. by intros ->. Qed.

Lemma idle_open c contents : batch_enabled c = false -> idle (open c contents).
Proof. intros Hc. unfold open. rewrite Hc. by split. Qed.

Lemma idle_append data count sched h :
  idle h -> 0 < count -> data <> [] -> writes_ok sched ->
  flush_batch sched (send (Task.Append data count) h) = (written h data, Ok ()).
Proof.
  intros [Hq Hb Hc Hs Hm] Hcount Hdata Hsched. destruct h as [w q s]. cbn in Hq, Hb, Hc, Hs, Hm. subst q s.
  destruct w as [f b c z mr mb so]. cbn in Hb, Hc, Hm. subst b c mr.
  unfold flush_batch, await, send. cbn [queue task app length drain].
  destruct data as [|x data]; [done|].
  assert (Hmax : (1 <=? 0 + count) = true) by (apply Z.leb_le; lia).
  destruct sched as [|e sched]; cbn [head tail default more flush_io truncate_io option_map].
  - unfold written. reflexivity.
  - apply Forall_cons in Hsched as [He Hsched]. destruct e as [n fio tio]. cbn in He |- *. subst fio.
    destruct n as [|n].
    + unfold Task.run_round. cbn -[Z.leb Z.add]. rewrite Hmax. cbn -[Z.leb Z.add].
      destruct sched as [|e sched]; cbn -[Z.leb Z.add];
        [unfold written; simpl; done|]. apply Forall_cons in Hsched as [He _]. destruct e as [m fio tio'].
      cbn -[Z.leb Z.add] in He |- *. subst fio. destruct m; reflexivity.
    + rewrite take_ge by (cbn [length]; lia). rewrite drop_ge by (cbn [length]; lia). reflexivity.
Qed.

(** A flush finds nothing to do when nothing is queued or batched. *)
Lemma quiet_flush sched h : queue h = [] -> Task.batch (task h) = [] -> flush_batch sched h = (h, Ok ()).
Proof.
  intros Hq Hb. destruct h as [w q s]. cbn in Hq, Hb. subst q.
  destruct w as [f b c z mr mb so]. cbn in Hb. subst b.
  unfold flush_batch, await, send. cbn [queue task app length drain].
  set (e := default _ _). destruct e as [n fio tio]. cbn [more flush_io truncate_io].
  assert (Ht : take (S n) [Task.Flush waiter] = [Task.Flush waiter]) by (destruct n; reflexivity).
  rewrite Ht. destruct n; reflexivity.
Qed.

(** A truncation empties the file, on the disk perhaps not, or fails and leaves it. *)
Lemma idle_truncate sched h :
  idle h ->
  let '(h', r) := truncate sched h in
  idle h' /\ (Task.file (task h') = [] \/ (Task.file (task h') = Task.file (task h) /\ exists e, r = Err e))
  /\ Task.sync_on_flush (task h') = Task.sync_on_flush (task h)
  /\ (Task.synced (task h') = Task.synced (task h) \/ Task.file (task h') = [] /\ Task.synced (task h') = []).
Proof.
  intros [Hq Hb Hc Hs Hm]. destruct h as [w q s]. cbn in Hq, Hb, Hc, Hs, Hm. subst q s.
  destruct w as [f b c z mr mb so]. cbn in Hb, Hc, Hm. subst b c mr.
  unfold truncate, await, send. cbn [queue task app length drain].
  set (e := default _ _). destruct e as [n fio tio]. cbn [more flush_io truncate_io].
  assert (Ht : take (S n) [Task.Truncate waiter] = [Task.Truncate waiter]) by (destruct n; reflexivity).
  rewrite Ht. unfold Task.run_round. cbn -[Z.leb]. rewrite andb_false_r. cbn -[Z.leb].
  destruct tio as [|k err|err]; cbn.
  - destruct so; cbn; (split; [by split|]; split; [by left|]; split; [done|]); [by right|by left].
  - split; [by split|]. split; [right; split; [done|by eexists]|]. split; [done|by left].
  - destruct so; cbn; (split; [by split|]; split; [by left|]; split; [done|by left]).
Qed.

Lemma idle_background t h : idle h -> background t h = h.
Proof.
  intros [Hq Hb Hc Hs Hm]. destruct h as [w q s]. cbn in Hq, Hb, Hc, Hs, Hm. subst q s.
  destruct t as [e|fio]; [reflexivity|]. destruct w as [f b c z mr mb so]. cbn in Hb. subst b. reflexivity.
Qed.

Section records.
Context `{HC : Codecs} `{!CodecLaws HC}.

Lemma serialize_nonempty k v t : Format.serialize_record k v t <> [].
Proof.
  unfold Format.serialize_record. intros H. apply (f_equal length) in H.
  rewrite length_app, length_put_le in H. simpl in H. lia.
Qed.

Lemma serialize_batch_nonempty rs t : rs <> [] -> Format.serialize_batch rs t <> [].
Proof.
  destruct rs as [|[k v] rs]; [done|]. intros _ H. unfold Format.serialize_batch in H. cbn [map concat] in H.
  apply app_eq_nil in H as [H _]. by apply serialize_nonempty in H.
Qed.

(** The file a log of records reads back from. *)
Lemma read_records rs :
  Forall wal_ok rs -> Format.read_wal_file (concat (map wal_bytes rs)) = Ok (map wal_normalise rs).
Proof.
  intros Hrs. unfold Format.read_wal_file.
  pose proof (read_loop_items (map Good rs) [] (S (length (concat (map wal_bytes rs))))) as H.
  assert (H1 : concat (map item_bytes (map Good rs)) = concat (map wal_bytes rs))
    by (rewrite map_map; done).
  assert (H2 : concat (map item_record (map Good rs)) = map wal_normalise rs).
  { clear. induction rs as [|r rs IH]; [done|]. cbn in *. by rewrite IH. }
  rewrite H1, H2, app_nil_r in H. apply H; [|by left|].
  - clear -Hrs. induction Hrs; constructor; done.
  - pose proof (length_items (map Good rs)) as Hl. rewrite H1 in Hl. lia.
Qed.

(** A synchronous append can report success for a record it has lost: when the task drains
    the record in a round of its own and the write fails, nobody is told, the batch is gone,
    and the flush that follows finds nothing to write.  For every idle log there is such a
    run; one that drains both commands together reports the error. *)
Theorem sync_append_lost k v now h e :
  idle h ->
  (let '(h', r) := append k v now [mk_round_env 0 (Task.WriteErr 0 e) Task.IoOk] h in
   r = Ok () /\ Task.file (task h') = Task.file (task h))
  /\ (let '(h', r) := append k v now [mk_round_env 1 (Task.WriteErr 0 e) Task.IoOk] h in
      r = Err (IoError e) /\ Task.file (task h') = Task.file (task h)).
Proof.
  intros [Hq Hb Hc Hs Hm]. destruct h as [w q s]. cbn in Hq, Hb, Hc, Hs, Hm. subst q s.
  destruct w as [f b c z mr mb so]. cbn in Hb, Hc, Hm. subst b c mr.
  unfold append. pose proof (serialize_nonempty k v now) as Hd.
  destruct (Format.serialize_record k v now) as [|x data] eqn:Hx; [done|].
  split; [simpl|cbn]; by rewrite app_nil_r.
Qed.
End records.

Lemma sync_append_lost_witness :
  let h := open (mk_wal_config Always false 0 0 None) [] in
  let '(h', r) := append None [Init.Byte.x01] 5 [mk_round_env 0 (Task.WriteErr 0 "disk full") Task.IoOk] h in
  r = Ok () /\ Task.file (task h') = [].
Proof.
  intros h. destruct (sync_append_lost None [Init.Byte.x01] 5 h "disk full") as [H _];
    [by apply idle_open|]. exact H.
Defined.
