(* ===== verification/Catalog.v ===== *)
(** * The catalog of the metadata store (crates/streamhouse-metadata/src/store.rs)

    Organizations, topics, partitions, segments and consumer offsets of the SQLite store, one
    function per method: each SQL statement is translated to what it does to the rows, with
    the keys, defaults and cascades of the migrations.  Columns that no query reads back
    (update and commit times) are left out.  An offset is stored as a signed 64-bit integer. *)

From stdpp Require Import sorting.
From S2P Require Import Prelude HashMap Core MetadataError.

(** ** Rows *)

Inductive CleanupPolicy : Type := Delete | Compact | CompactAndDelete.

#[export] Instance CleanupPolicy_eq_dec : EqDecision CleanupPolicy.
Proof. solve_decision. Defined.

(** [to_lowercase], which for the names compared with is that of ASCII. *)
Definition lower (a : Ascii.ascii) : Ascii.ascii :=
  let n := Ascii.N_of_ascii a in
  if ((65 <=? n) && (n <=? 90))%N then Ascii.ascii_of_N (n + 32) else a.
Fixpoint to_lowercase (s : string) : string :=
  match s with EmptyString => EmptyString | String a s => String (lower a) (to_lowercase s) end.

Definition policy_from_str (s : string) : CleanupPolicy :=
  let s := to_lowercase s in
  if bool_decide (s = "compact"%string) then Compact
  else if bool_decide (s = "compact,delete"%string) || bool_decide (s = "delete,compact"%string)
  then CompactAndDelete
  else Delete.

Definition policy_as_str (p : CleanupPolicy) : string :=
  match p with
  | Delete => "delete" | Compact => "compact" | CompactAndDelete => "compact,delete"
  end.

Definition is_compacted (p : CleanupPolicy) : bool :=
  match p with Compact | CompactAndDelete => true | Delete => false end.

Record TopicConfig : Type := mk_topic_config {
  tc_name : string;
  tc_partition_count : Z;
  tc_retention_ms : option Z;
  tc_cleanup_policy : CleanupPolicy;
  tc_config : gmap string string
}.

Record Topic : Type := mk_topic {
  tp_name : string;
  tp_partition_count : Z;
  tp_retention_ms : option Z;
  tp_cleanup_policy : CleanupPolicy;
  tp_created_at : Z;
  tp_config : gmap string string
}.

Record Partition : Type := mk_partition {
  p_topic : string;
  p_partition_id : Z;
  p_high_watermark : Z
}.

Record ConsumerOffset : Type := mk_consumer_offset {
  co_group_id : string;
  co_topic : string;
  co_partition_id : Z;
  co_committed_offset : Z;
  co_metadata : option string
}.

(** [serde_json] on a map of strings: a text from which the map is read back. *)
Class JsonMaps := {
  json_text : Type;
  json_to_string : gmap string string -> json_text;
  json_from_str : json_text -> option (gmap string string)
}.
Class JsonMapLaws `(JsonMaps) : Prop := {
  json_roundtrip m : json_from_str (json_to_string m) = Some m
}.

#[export] Instance toy_json : JsonMaps := {|
  json_text := gmap string string; json_to_string m := m; json_from_str := Some |}.
#[export] Instance toy_json_laws : JsonMapLaws toy_json.
Proof. by split. Qed.

Section tables.
Context `{JsonMaps}.

(** A row of [topics] (its key is the organization and the name). *)
Record topic_row : Type := mk_topic_row {
  tr_partition_count : Z;
  tr_retention_ms : option Z;
  tr_created_at : Z;
  tr_config : json_text
}.

(** A row of [consumer_offsets], whose unique key is group, topic and partition. *)
Record offset_row : Type := mk_offset_row {
  or_org : string;
  or_offset : Z;
  or_metadata : option string
}.

(** The tables.  [segments] has the organization beside the segment. *)
Record db : Type := mk_db {
  organizations : gset string;
  topics : gmap (string * string) topic_row;
  partitions : gmap (string * string * Z) Z;
  segments : gmap string (string * SegmentInfo);
  consumer_groups : gset (string * string);
  consumer_offsets : gmap (string * string * Z) offset_row
}.

Definition empty_db : db := mk_db ∅ ∅ ∅ ∅ ∅ ∅.

Definition set_topics t (d : db) : db :=
  mk_db (organizations d) t (partitions d) (segments d) (consumer_groups d) (consumer_offsets d).
Definition set_partitions p (d : db) : db :=
  mk_db (organizations d) (topics d) p (segments d) (consumer_groups d) (consumer_offsets d).
Definition set_segments s (d : db) : db :=
  mk_db (organizations d) (topics d) (partitions d) s (consumer_groups d) (consumer_offsets d).
Definition set_offsets g o (d : db) : db :=
  mk_db (organizations d) (topics d) (partitions d) (segments d) g o.

(** A call during which the database can fail: nothing is committed then. *)
Definition attempt {A} (fail : option MetadataError) (d : db)
    (run : db -> db * outcome MetadataError A) : db * outcome MetadataError A :=
  match fail with Some e => (d, Err e) | None => run d end.

Definition foreign_key_error : MetadataError := DatabaseError "FOREIGN KEY constraint failed".
Definition unique_error : MetadataError := DatabaseError "UNIQUE constraint failed".
Definition check_error : MetadataError := DatabaseError "CHECK constraint failed".

(** ** Topics and partitions *)

Definition ensure_organization (org_id : string) (d : db) : db :=
  mk_db ({[org_id]} ∪ organizations d) (topics d) (partitions d) (segments d) (consumer_groups d)
    (consumer_offsets d).

(** [for partition_id in 0..partition_count]: the rows of a new topic. *)
Definition new_partitions (org_id name : string) (n : Z) : gmap (string * string * Z) Z :=
  list_to_map (map (fun p => ((org_id, name, p), 0)) (seqZ 0 n)).

Definition create_topic_for_org (org_id : string) (config : TopicConfig) (now : Z) (d : db)
  : db * outcome MetadataError unit :=
  let k := (org_id, tc_name config) in
  match topics d !! k with
  | Some _ => (d, Err (MTopicAlreadyExists (tc_name config)))
  | None =>
      if negb (tc_partition_count config >? 0) then (d, Err check_error)
      else if negb (bool_decide (org_id ∈ organizations d)) then (d, Err foreign_key_error)
      else
        let config_map :=
          <["cleanup.policy"%string := policy_as_str (tc_cleanup_policy config)]> (tc_config config) in
        let row := mk_topic_row (tc_partition_count config) (tc_retention_ms config) now
                     (json_to_string config_map) in
        (mk_db (organizations d) (<[k := row]> (topics d))
           (new_partitions org_id (tc_name config) (tc_partition_count config) ∪ partitions d)
           (segments d) (consumer_groups d) (consumer_offsets d), Ok tt)
  end.

Definition topic_of_row (name : string) (r : topic_row) : Topic :=
  let config := default ∅ (json_from_str (tr_config r)) in
  let cleanup_policy := match config !! "cleanup.policy"%string with
                        | Some s => policy_from_str s
                        | None => Delete
                        end in
  mk_topic name (tr_partition_count r) (tr_retention_ms r) cleanup_policy (tr_created_at r) config.

Definition get_topic_for_org (org_id name : string) (d : db) : option Topic :=
  topic_of_row name <$> topics d !! (org_id, name).

Definition tp_le (a b : Topic) : Prop := String.le (tp_name a) (tp_name b).
#[export] Instance tp_le_dec : RelDecision tp_le.
Proof. intros a b. unfold tp_le. apply _. Defined.

(** ORDER BY name. *)
Definition list_topics_for_org (org_id : string) (d : db) : list Topic :=
  merge_sort tp_le
    (map (fun e => topic_of_row e.1.2 e.2) (filter (fun e => e.1.1 = org_id) (map_to_list (topics d)))).

(** The partitions go with their topic; nothing refers from [segments] or
    [consumer_offsets] to it. *)
Definition delete_topic_for_org (org_id name : string) (d : db) : db * outcome MetadataError unit :=
  match topics d !! (org_id, name) with
  | None => (d, Err (MTopicNotFound name))
  | Some _ =>
      (set_partitions (filter (fun e => (e.1.1.1, e.1.1.2) <> (org_id, name)) (partitions d))
         (set_topics (delete (org_id, name) (topics d)) d), Ok tt)
  end.

Definition get_partition (org_id topic : string) (partition_id : Z) (d : db) : option Partition :=
  (fun w => mk_partition topic partition_id (wrap 64 w)) <$> partitions d !! (org_id, topic, partition_id).

Definition p_le (a b : Partition) : Prop := p_partition_id a <= p_partition_id b.
#[export] Instance p_le_dec : RelDecision p_le.
Proof. intros a b. unfold p_le. apply _. Defined.

(** ORDER BY partition_id. *)
Definition list_partitions (org_id topic : string) (d : db) : list Partition :=
  merge_sort p_le
    (map (fun e => mk_partition topic (wrap 32 e.1.2) (wrap 64 e.2))
       (filter (fun e => e.1.1.1 = org_id /\ e.1.1.2 = topic) (map_to_list (partitions d)))).

(** UPDATE partitions SET high_watermark; the number of rows it affects. *)
Definition set_watermark (org_id topic : string) (partition_id offset : Z) (d : db) : db * Z :=
  match partitions d !! (org_id, topic, partition_id) with
  | Some _ => (set_partitions (<[(org_id, topic, partition_id) := swrap 64 offset]> (partitions d)) d, 1)
  | None => (d, 0)
  end.

Definition update_high_watermark (org_id topic : string) (partition_id offset : Z) (d : db)
  : db * outcome MetadataError unit :=
  let '(d', rows_affected) := set_watermark org_id topic partition_id offset d in
  if rows_affected =? 0 then (d, Err (MPartitionNotFound topic partition_id)) else (d', Ok tt).

(** ** Segments *)

(** The columns of a segment as the database holds them, and as they are read back. *)
Definition segment_row (s : SegmentInfo) : SegmentInfo :=
  mk_segment_info (si_id s) (si_topic s) (swrap 32 (si_partition_id s)) (swrap 64 (si_base_offset s))
    (swrap 64 (si_end_offset s)) (swrap 32 (si_record_count s)) (swrap 64 (si_size_bytes s))
    (si_s3_bucket s) (si_s3_key s) (si_created_at s) (si_min_timestamp s) (si_max_timestamp s).
Definition segment_of_row (s : SegmentInfo) : SegmentInfo :=
  mk_segment_info (si_id s) (si_topic s) (wrap 32 (si_partition_id s)) (wrap 64 (si_base_offset s))
    (wrap 64 (si_end_offset s)) (wrap 32 (si_record_count s)) (wrap 64 (si_size_bytes s))
    (si_s3_bucket s) (si_s3_key s) (si_created_at s) (si_min_timestamp s) (si_max_timestamp s).

(** INSERT INTO segments: the primary key is [id] alone. *)
Definition insert_segment (org_id : string) (segment : SegmentInfo) (d : db) : db * outcome MetadataError unit :=
  let row := segment_row segment in
  match segments d !! si_id segment with
  | Some _ => (d, Err unique_error)
  | None =>
      if si_end_offset row <? si_base_offset row then (d, Err check_error)
      else if negb (bool_decide (org_id ∈ organizations d)) then (d, Err foreign_key_error)
      else (set_segments (<[si_id segment := (org_id, row)]> (segments d)) d, Ok tt)
  end.

Definition add_segment (org_id : string) (segment : SegmentInfo) (d : db) : db * outcome MetadataError unit :=
  insert_segment org_id segment d.

(** One transaction: the segment, and the watermark of its partition. *)
Definition add_segment_and_update_watermark (org_id : string) (segment : SegmentInfo) (high_watermark : Z)
    (d : db) : db * outcome MetadataError unit :=
  match insert_segment org_id segment d with
  | (d', Ok _) =>
      (fst (set_watermark org_id (si_topic segment) (swrap 32 (si_partition_id segment)) high_watermark d'),
       Ok tt)
  | (_, failure) => (d, failure)
  end.

Definition by_base (a b : SegmentInfo) : Prop := si_base_offset a <= si_base_offset b.
#[export] Instance by_base_dec : RelDecision by_base.
Proof. intros a b. unfold by_base. apply _. Defined.

(** The rows of a query, in the order of the primary key (no query depends on it). *)
Definition segment_rows (d : db) : list (string * SegmentInfo) := map snd (map_to_list (segments d)).

Definition get_segments (org_id topic : string) (partition_id : Z) (d : db) : list SegmentInfo :=
  map segment_of_row
    (merge_sort by_base
       (map snd (filter (fun r => r.1 = org_id /\ si_topic r.2 = topic
                                  /\ si_partition_id r.2 = swrap 32 partition_id) (segment_rows d)))).

(** ORDER BY base_offset DESC LIMIT 1, of the rows of any organization. *)
Definition find_segment_for_offset (topic : string) (partition_id offset : Z) (d : db) : option SegmentInfo :=
  let offset := swrap 64 offset in
  segment_of_row <$>
    last (merge_sort by_base
            (map snd (filter (fun r => si_topic r.2 = topic /\ si_partition_id r.2 = swrap 32 partition_id
                                       /\ si_base_offset r.2 <= offset <= si_end_offset r.2) (segment_rows d)))).

Definition delete_segments_before (org_id topic : string) (partition_id before_offset : Z) (d : db) : db * Z :=
  let doomed (r : string * SegmentInfo) :=
    bool_decide (r.1 = org_id /\ si_topic r.2 = topic /\ si_partition_id r.2 = partition_id
                 /\ si_end_offset r.2 < swrap 64 before_offset) in
  (set_segments (filter (fun e => doomed e.2 = false) (segments d)) d,
   Z.of_nat (size (filter (fun e => doomed e.2 = true) (segments d)))).

(** COUNT and SUM of the segments of one topic of an organization. *)
Definition topic_storage_stats (org_id topic : string) (d : db) : Z * Z :=
  let rows := filter (fun r => r.1 = org_id /\ si_topic r.2 = topic) (segment_rows d) in
  (len rows, foldr (fun r a => si_size_bytes r.2 + a) 0 rows).

(** ** Consumer offsets *)

(** INSERT OR IGNORE does not ignore a missing organization. *)
Definition ensure_consumer_group_for_org (org_id group_id : string) (d : db) : db * outcome MetadataError unit :=
  if bool_decide ((org_id, group_id) ∈ consumer_groups d) then (d, Ok tt)
  else if negb (bool_decide (org_id ∈ organizations d)) then (d, Err foreign_key_error)
  else (set_offsets ({[(org_id, group_id)]} ∪ consumer_groups d) (consumer_offsets d) d, Ok tt).

(** On a conflict of (group, topic, partition) the offset and the metadata are replaced, the
    organization is not. *)
Definition commit_offset_for_org (org_id group_id topic : string) (partition_id offset : Z)
    (metadata : option string) (d : db) : db * outcome MetadataError unit :=
  match ensure_consumer_group_for_org org_id group_id d with
  | (d, Ok _) =>
      let k := (group_id, topic, partition_id) in
      let owner := match consumer_offsets d !! k with Some r => or_org r | None => org_id end in
      (set_offsets (consumer_groups d)
         (<[k := mk_offset_row owner (swrap 64 offset) metadata]> (consumer_offsets d)) d, Ok tt)
  | failure => failure
  end.

Definition get_committed_offset_for_org (org_id group_id topic : string) (partition_id : Z) (d : db)
  : option Z :=
  r ← consumer_offsets d !! (group_id, topic, partition_id);
  if bool_decide (or_org r = org_id) then Some (wrap 64 (or_offset r)) else None.

Definition co_le (a b : ConsumerOffset) : Prop :=
  if decide (co_topic a = co_topic b) then co_partition_id a <= co_partition_id b
  else String.le (co_topic a) (co_topic b).
#[export] Instance co_le_dec : RelDecision co_le.
Proof. intros a b. unfold co_le. destruct (decide _); apply _. Defined.

Definition get_consumer_offsets_for_org (org_id group_id : string) (d : db) : list ConsumerOffset :=
  merge_sort co_le
    (map (fun e => mk_consumer_offset e.1.1.1 e.1.1.2 e.1.2 (wrap 64 (or_offset e.2)) (or_metadata e.2))
       (filter (fun e => or_org e.2 = org_id /\ e.1.1.1 = group_id) (map_to_list (consumer_offsets d)))).

(** The offsets go with their group. *)
Definition delete_consumer_group_for_org (org_id group_id : string) (d : db) : db :=
  set_offsets (consumer_groups d ∖ {[(org_id, group_id)]})
    (filter (fun e => ~ (or_org e.2 = org_id /\ e.1.1.1 = group_id)) (consumer_offsets d)) d.

End tables.

(** ** Methods without an organization *)

Section untenanted.
Context `{JsonMaps} `{HashOrder}.

(** The default of the columns; the migrations create this organization and delete it again. *)
Definition DEFAULT_ORG : string := "00000000-0000-0000-0000-000000000000".

Definition create_topic (config : TopicConfig) (now : Z) (d : db) : db * outcome MetadataError unit :=
  create_topic_for_org DEFAULT_ORG config now d.

(** The topics of that name of all organizations, with their partitions. *)
Definition delete_topic (name : string) (d : db) : db * outcome MetadataError unit :=
  if bool_decide (filter (fun e => e.1.2 = name) (topics d) = ∅) then (d, Err (MTopicNotFound name))
  else (set_partitions (filter (fun e => e.1.1.2 <> name) (partitions d))
          (set_topics (filter (fun e => e.1.2 <> name) (topics d)) d), Ok tt).

(** The topic of some organization: whichever row comes first. *)
Definition get_topic (name : string) (d : db) : option Topic :=
  (fun e : string * string * topic_row => topic_of_row name e.2) <$> head (filter (fun e => e.1.2 = name) (iter (topics d))).

(** The inserts leave the organization to its default. *)
Definition ensure_consumer_group (group_id : string) (d : db) : db * outcome MetadataError unit :=
  ensure_consumer_group_for_org DEFAULT_ORG group_id d.

Definition commit_offset (group_id topic : string) (partition_id offset : Z) (metadata : option string) (d : db)
  : db * outcome MetadataError unit :=
  commit_offset_for_org DEFAULT_ORG group_id topic partition_id offset metadata d.

Definition get_committed_offset (group_id topic : string) (partition_id : Z) (d : db) : option Z :=
  (fun r => wrap 64 (or_offset r)) <$> consumer_offsets d !! (group_id, topic, partition_id).

Definition get_consumer_offsets (group_id : string) (d : db) : list ConsumerOffset :=
  merge_sort co_le
    (map (fun e => mk_consumer_offset e.1.1.1 e.1.1.2 e.1.2 (wrap 64 (or_offset e.2)) (or_metadata e.2))
       (filter (fun e => e.1.1.1 = group_id) (map_to_list (consumer_offsets d)))).

Definition list_consumer_groups (d : db) : list string :=
  merge_sort String.le (elements (list_to_set (map (fun e => e.1.1.1) (map_to_list (consumer_offsets d))) : gset string)).

Definition list_consumer_groups_for_org (org_id : string) (d : db) : list string :=
  merge_sort String.le
    (elements (list_to_set (map (fun e => e.1.1.1) (filter (fun e => or_org e.2 = org_id) (map_to_list (consumer_offsets d)))) : gset string)).

Definition delete_consumer_group (group_id : string) (d : db) : db :=
  set_offsets (filter (fun g => g.2 <> group_id) (consumer_groups d))
    (filter (fun e => e.1.1.1 <> group_id) (consumer_offsets d)) d.
End untenanted.
