(* ===== verification/CatalogFacts.v ===== *)
(** * Facts about the catalog *)

From stdpp Require Import sorting.
From S2P Require Import Prelude Core MetadataError Catalog.

(** ** Referential integrity *)

Section integrity.
Context `{HJ : JsonMaps}.

(** The calls that change the tables.  A commit of an offset is two statements; when the second fails what it did is
    [OEnsureGroup]. *)
Inductive op : Type :=
| OEnsureOrg (o : string)
| OCreateTopic (o : string) (c : TopicConfig) (now : Z)
| OCreateTopicDefault (c : TopicConfig) (now : Z)
| ODeleteTopic (o n : string)
| ODeleteTopics (n : string)
| OUpdateWatermark (o t : string) (p w : Z)
| OAddSegment (o : string) (s : SegmentInfo)
| OAddSegmentWatermark (o : string) (s : SegmentInfo) (w : Z)
| ODeleteSegments (o t : string) (p b : Z)
| OEnsureGroup (o g : string)
| OEnsureGroupDefault (g : string)
| OCommitOffsetDefault (g t : string) (p off : Z) (m : option string)
| OCommitOffset (o g t : string) (p off : Z) (m : option string)
| ODeleteGroup (o g : string)
| ODeleteGroups (g : string).

Definition perform (x : op) (d : db) : db :=
  match x with
  | OEnsureOrg o => ensure_organization o d
  | OCreateTopic o c now => fst (create_topic_for_org o c now d)
  | OCreateTopicDefault c now => fst (create_topic c now d)
  | ODeleteTopic o n => fst (delete_topic_for_org o n d)
  | ODeleteTopics n => fst (delete_topic n d)
  | OUpdateWatermark o t p w => fst (update_high_watermark o t p w d)
  | OAddSegment o s => fst (add_segment o s d)
  | OAddSegmentWatermark o s w => fst (add_segment_and_update_watermark o s w d)
  | ODeleteSegments o t p b => fst (delete_segments_before o t p b d)
  | OEnsureGroup o g => fst (ensure_consumer_group_for_org o g d)
  | OEnsureGroupDefault g => fst (ensure_consumer_group g d)
  | OCommitOffsetDefault g t p off m => fst (commit_offset g t p off m d)
  | OCommitOffset o g t p off m => fst (commit_offset_for_org o g t p off m d)
  | ODeleteGroup o g => delete_consumer_group_for_org o g d
  | ODeleteGroups g => delete_consumer_group g d
  end.

(** What the keys and checks of the migrations promise. *)
Record integrity (d : db) : Prop := {
  topic_org o n r : topics d !! (o, n) = Some r -> o ∈ organizations d /\ 0 < tr_partition_count r;
  partition_topic o t p : is_Some (partitions d !! (o, t, p)) <->
    exists r, topics d !! (o, t) = Some r /\ 0 <= p < tr_partition_count r;
  segment_ok id o s : segments d !! id = Some (o, s) ->
    o ∈ organizations d /\ si_id s = id /\ si_base_offset s <= si_end_offset s;
  group_org o g : (o, g) ∈ consumer_groups d -> o ∈ organizations d;
  offset_group g t p r : consumer_offsets d !! (g, t, p) = Some r -> (or_org r, g) ∈ consumer_groups d
}.

Lemma new_partitions_lookup o n m k :
  is_Some (new_partitions o n m !! k) <-> exists p, k = (o, n, p) /\ 0 <= p < m.
Proof.
  unfold new_partitions. split.
  - intros [x Hx]. apply elem_of_list_to_map_2 in Hx. apply list_elem_of_fmap in Hx as (p & [= -> ->] & Hp).
    apply elem_of_seqZ in Hp. exists p. split; [done|lia].
  - intros (p & -> & Hp). destruct (_ !! _) eqn:He; [by eexists|].
    apply not_elem_of_list_to_map in He. exfalso. apply He. rewrite list_elem_of_fmap.
    exists ((o, n, p), 0). split; [done|]. apply list_elem_of_fmap. exists p.
    split; [done|]. apply elem_of_seqZ. lia.
Qed.

Lemma set_watermark_partitions o t p w d k :
  is_Some (partitions (fst (set_watermark o t p w d)) !! k) <-> is_Some (partitions d !! k).
Proof.
  unfold set_watermark. destruct (partitions d !! (o, t, p)) as [x|] eqn:Hx; [|done]. simpl.
  destruct (decide (k = (o, t, p))) as [->|Hk]; [|by rewrite lookup_insert_ne].
  rewrite lookup_insert_eq, Hx. split; by eexists.
Qed.

Lemma set_watermark_same o t p w d :
  let d' := fst (set_watermark o t p w d) in
  organizations d' = organizations d /\ topics d' = topics d /\ segments d' = segments d
  /\ consumer_groups d' = consumer_groups d /\ consumer_offsets d' = consumer_offsets d.
Proof. unfold set_watermark. by destruct (partitions d !! _). Qed.

Lemma integrity_watermark o t p w d : integrity d -> integrity (fst (set_watermark o t p w d)).
Proof.
  intros [Ht Hp Hs Hg Ho]. destruct (set_watermark_same o t p w d) as (E1 & E2 & E3 & E4 & E5).
  split; rewrite ?E1, ?E2, ?E3, ?E4, ?E5; try done.
  intros o' t' p'. by rewrite set_watermark_partitions.
Qed.

Lemma integrity_insert_segment o s d : integrity d -> integrity (fst (insert_segment o s d)).
Proof.
  intros Hd. unfold insert_segment. destruct (segments d !! si_id s) eqn:He; [done|].
  destruct (Z.ltb_spec (si_end_offset (segment_row s)) (si_base_offset (segment_row s))); [done|].
  case_bool_decide; [|done]. destruct Hd as [Ht Hp Hs Hg Ho]. split; simpl; try done.
  intros id o' s' [[<- [= <- <-]]|[_ Hl]]%lookup_insert_Some; [done|by eapply Hs].
Qed.

Lemma integrity_create o c now d : integrity d -> integrity (fst (create_topic_for_org o c now d)).
Proof.
  intros Hd. unfold create_topic_for_org. destruct (topics d !! _) eqn:He; [done|].
  destruct (Z.gtb_spec (tc_partition_count c) 0); [|done]. simpl. case_bool_decide; [|done].
  destruct Hd as [Ht Hp Hs Hg Ho]. split; simpl; try done.
  - intros o' n r [[[= <- <-] <-]|[_ Hl]]%lookup_insert_Some; [split; [done|simpl; lia]|by eapply Ht].
  - intros o' t p. rewrite lookup_union_is_Some, new_partitions_lookup, Hp.
    destruct (decide (o = o' /\ tc_name c = t)) as [[<- Ht']|Hne].
    + rewrite Ht', lookup_insert_eq. split.
      * intros [(? & [= <-] & ?)|(r & Hr & _)]; [by eexists|congruence].
      * intros (r & [= <-] & Hr). left. by exists p.
    + rewrite lookup_insert_ne by (intros [= ? ?]; auto). split; [|by right].
      intros [(? & [= ? ? ?] & ?)|?]; [destruct Hne; auto|done].
Qed.

Lemma integrity_delete_topic o n d : integrity d -> integrity (fst (delete_topic_for_org o n d)).
Proof.
  intros Hd. unfold delete_topic_for_org. destruct (topics d !! _) as [row|] eqn:He; [|done].
  destruct Hd as [Ht Hp Hs Hg Ho]. split; simpl; try done.
  - intros o' n' r [_ Hl]%lookup_delete_Some. by eapply Ht.
  - intros o' t p. split.
    + intros [w [Hw Hne]%map_lookup_filter_Some]. simpl in Hne.
      destruct (proj1 (Hp o' t p)) as (r & Hr & ?); [by eexists|]. exists r.
      rewrite lookup_delete_ne by congruence. done.
    + intros (r & [Hne Hr]%lookup_delete_Some & Hb).
      destruct (proj2 (Hp o' t p)) as [w Hw]; [by exists r|]. exists w.
      apply map_lookup_filter_Some. split; [done|]. simpl. congruence.
Qed.

Lemma integrity_delete_topics n d : integrity d -> integrity (fst (delete_topic n d)).
Proof.
  intros Hd. unfold delete_topic. case_bool_decide; [done|]. destruct Hd as [Ht Hp Hs Hg Ho]. split; simpl; try done.
  - intros o n' r [Hl _]%map_lookup_filter_Some. by eapply Ht.
  - intros o t p. split.
    + intros [w [Hw Hne]%map_lookup_filter_Some]. simpl in Hne.
      destruct (proj1 (Hp o t p)) as (r & Hr & ?); [by eexists|]. exists r. split; [|done]. by apply map_lookup_filter_Some.
    + intros (r & [Hr Hne]%map_lookup_filter_Some & Hb). destruct (proj2 (Hp o t p)) as [w Hw]; [by exists r|].
      exists w. by apply map_lookup_filter_Some.
Qed.

Lemma ensured_group o g d : integrity d ->
  let '(d', r) := ensure_consumer_group_for_org o g d in
  integrity d' /\ consumer_offsets d' = consumer_offsets d
  /\ match r with Ok _ => (o, g) ∈ consumer_groups d' | _ => d' = d end.
Proof.
  intros Hd. unfold ensure_consumer_group_for_org. case_bool_decide; [done|]. case_bool_decide; [|done].
  destruct Hd as [Ht Hp Hs Hg Ho]. split; [|split; [done|simpl; by apply elem_of_union_l, elem_of_singleton]]. split; simpl; try done.
  - intros o' g'. rewrite elem_of_union, elem_of_singleton. intros [[= -> ->]|?]; [done|by eapply Hg].
  - intros g' t' p' r Hr. apply elem_of_union_r. by eapply Ho.
Qed.

Lemma integrity_ensure o g d : integrity d -> integrity (fst (ensure_consumer_group_for_org o g d)).
Proof. intros Hd. pose proof (ensured_group o g d Hd) as H. destruct (ensure_consumer_group_for_org o g d) as [d' r]. by destruct H. Qed.

Lemma integrity_commit o g t p off m d : integrity d -> integrity (fst (commit_offset_for_org o g t p off m d)).
Proof.
  intros Hd. unfold commit_offset_for_org.
  pose proof (ensured_group o g d Hd) as Hens.
  destruct (ensure_consumer_group_for_org o g d) as [d' [u|e|]]; [|by destruct Hens..].
  destruct Hens as ([Ht Hp Hs Hg Ho] & Heq & Hin). split; simpl; try done.
  intros g' t' p' r [[[= <- <- <-] <-]|[_ Hl]]%lookup_insert_Some; [|by eapply Ho]. simpl.
  destruct (consumer_offsets d' !! (g, t, p)) eqn:Hr; [by eapply Ho|done].
Qed.

(** C33: referential integrity: after any sequence of the calls that change topics, partitions, segments, consumer groups and
    offsets (with an organization or for the default one, failed ones included, a commit that fails after it added its group too), topics have
    an organization and at least one partition; the partitions of a topic are exactly those
    numbered below its count, and no partition is without topic; a segment is stored under
    its id, for a known organization, with its bounds in order; and every committed offset
    belongs to a known group of its organization. *)
Theorem catalog_integrity xs : integrity (foldl (fun d x => perform x d) empty_db xs).
Proof.
  assert (Hempty : integrity empty_db).
  { split; simpl; [by intros| |by intros|by intros ?? ?%elem_of_empty|by intros].
    intros o t p. split; [by intros [? ?]|by intros (? & ? & _)]. }
  revert Hempty. generalize empty_db as d. induction xs as [|x xs IH]; intros d Hd; [done|]. simpl.
  apply IH. destruct x; simpl.
  - destruct Hd as [Ht Hp Hs Hg Ho]. split; simpl; try done.
    + intros o' n r Hr. destruct (Ht _ _ _ Hr). split; [by apply elem_of_union_r|done].
    + intros id o' s Hs'. destruct (Hs _ _ _ Hs') as (? & ? & ?). split; [by apply elem_of_union_r|done].
    + intros o' g Hg'. apply elem_of_union_r. by eapply Hg.
  - by apply integrity_create.
  - by apply integrity_create.
  - by apply integrity_delete_topic.
  - by apply integrity_delete_topics.
  - unfold update_high_watermark. pose proof (integrity_watermark o t p w d Hd) as Hw.
    destruct (set_watermark _ _ _ _ _) as [d' n]. by destruct (n =? 0).
  - by apply integrity_insert_segment.
  - unfold add_segment_and_update_watermark. pose proof (integrity_insert_segment o s d Hd) as Hs.
    destruct (insert_segment _ _ _) as [d' [u|e|]]; [|done..]. by apply integrity_watermark.
  - destruct Hd as [Ht Hp Hs Hg Ho]. split; simpl; try done.
    intros id o' s [Hl _]%map_lookup_filter_Some. by eapply Hs.
  - by apply integrity_ensure.
  - by apply integrity_ensure.
  - by apply integrity_commit.
  - by apply integrity_commit.
  - destruct Hd as [Ht Hp Hs Hg Ho]. split; simpl; try done.
    + intros o' g' [Hin _]%elem_of_difference. by eapply Hg.
    + intros g' t p r [Hl Hne]%map_lookup_filter_Some. simpl in Hne.
      apply elem_of_difference. split; [by eapply Ho|]. rewrite elem_of_singleton. intros [= ? ?].
      by apply Hne.
  - destruct Hd as [Ht Hp Hs Hg Ho]. split; simpl; try done.
    + intros o' g' [_ Hin]%elem_of_filter. by eapply Hg.
    + intros g' t p r [Hl Hne]%map_lookup_filter_Some. simpl in Hne. apply elem_of_filter. split; [done|by eapply Ho].
Qed.
End integrity.

(** ** Topics *)

Section topic_facts.
Context `{HJ : JsonMaps} `{!JsonMapLaws HJ}.

Lemma policy_roundtrip p : policy_from_str (policy_as_str p) = p.
Proof. by destruct p. Qed.

(** Creating a topic, on every branch, and reading it back.  A name already taken in the
    organization, a count of zero and an unknown organization are refused and change
    nothing; otherwise the topic is read back with its count, retention and policy and its
    configuration with the policy's entry, its partitions start at watermark 0, the topics
    of other organizations or names are as before, and creating it again is refused. *)
Theorem topic_roundtrip org c now d :
  let k := (org, tc_name c) in
  let '(d', r) := create_topic_for_org org c now d in
  match topics d !! k with
  | Some _ => d' = d /\ r = Err (MTopicAlreadyExists (tc_name c))
  | None =>
      if decide (0 < tc_partition_count c /\ org ∈ organizations d) then
        r = Ok tt
        /\ get_topic_for_org org (tc_name c) d' =
             Some (mk_topic (tc_name c) (tc_partition_count c) (tc_retention_ms c) (tc_cleanup_policy c) now
                     (<["cleanup.policy"%string := policy_as_str (tc_cleanup_policy c)]> (tc_config c)))
        /\ (forall p, 0 <= p < tc_partition_count c ->
              get_partition org (tc_name c) p d' = Some (mk_partition (tc_name c) p 0))
        /\ (forall o n, (o, n) <> k -> get_topic_for_org o n d' = get_topic_for_org o n d)
        /\ (forall o n p, (o, n) <> k -> get_partition o n p d' = get_partition o n p d)
        /\ snd (create_topic_for_org org c now d') = Err (MTopicAlreadyExists (tc_name c))
      else d' = d /\ exists e, r = Err (DatabaseError e)
  end.
Proof.
  intros k. unfold create_topic_for_org at 1. fold k. destruct (topics d !! k) as [row|] eqn:Hk; [done|].
  destruct (decide (0 < tc_partition_count c /\ org ∈ organizations d)) as [[Hc Ho]|Hno].
  - replace (tc_partition_count c >? 0) with true by lia. rewrite bool_decide_true by done. simpl.
    split; [done|]. split; [|split; [|split; [|split]]].
    + unfold get_topic_for_org. simpl. rewrite lookup_insert_eq. simpl. unfold topic_of_row. simpl.
      rewrite json_roundtrip. simpl. by rewrite lookup_insert_eq, policy_roundtrip.
    + intros p Hp. unfold get_partition. simpl.
      destruct (proj2 (new_partitions_lookup org (tc_name c) (tc_partition_count c) (org, tc_name c, p)))
        as [w Hw]; [by exists p|].
      assert (w = 0) as ->.
      { apply elem_of_list_to_map_2, list_elem_of_fmap in Hw as (? & [= _ <-] & _). done. }
      by rewrite (lookup_union_Some_l _ _ _ _ Hw).
    + intros o n Hne. unfold get_topic_for_org. simpl. by rewrite lookup_insert_ne.
    + intros o n p Hne. unfold get_partition. simpl. rewrite lookup_union_r; [done|].
      destruct (new_partitions org (tc_name c) (tc_partition_count c) !! (o, n, p)) eqn:He; [|done]. exfalso.
      destruct (proj1 (new_partitions_lookup org (tc_name c) (tc_partition_count c) (o, n, p)))
        as (? & [= -> -> ->] & _); [by eexists|]. done.
    + unfold create_topic_for_org. simpl. fold k. by rewrite lookup_insert_eq.
  - destruct (Z.gtb_spec (tc_partition_count c) 0); simpl; [|split; [done|by eexists]].
    rewrite bool_decide_false by (intros ?; apply Hno; split; [lia|done]).
    split; [done|by eexists].
Qed.
End topic_facts.

(** ** Segments *)

Section segment_facts.
Context `{HJ : JsonMaps}.

#[export] Instance by_base_total : Total by_base.
Proof. intros a b. unfold by_base. lia. Qed.
#[export] Instance by_base_trans : Transitive by_base.
Proof. intros a b c. unfold by_base. lia. Qed.

Lemma elem_of_segment_rows d r : r ∈ segment_rows d <-> exists id, segments d !! id = Some r.
Proof.
  unfold segment_rows. rewrite list_elem_of_fmap. split.
  - intros ([id x] & -> & Hx%elem_of_map_to_list). by exists id.
  - intros [id Hid]. exists (id, r). split; [done|]. by apply elem_of_map_to_list.
Qed.

(** The last of a sorted list is the largest. *)
Lemma last_merge_sort l s :
  last (merge_sort by_base l) = Some s -> s ∈ l /\ forall x, x ∈ l -> si_base_offset x <= si_base_offset s.
Proof.
  intros Hl. pose proof (StronglySorted_merge_sort by_base l) as Hs.
  pose proof (merge_sort_Permutation by_base l) as Hp.
  apply last_Some in Hl as [pre Hl]. rewrite Hl in Hs, Hp. split.
  - rewrite <- Hp. apply elem_of_app. right. by apply list_elem_of_singleton.
  - intros x. rewrite <- Hp. rewrite elem_of_app, list_elem_of_singleton. intros [Hx| ->]; [|lia].
    apply (StronglySorted_app_1_elem_of by_base pre [s] x s); [done|done|by apply list_elem_of_singleton].
Qed.

(** The rows of a topic and partition that cover an offset. *)
Definition covers (topic : string) (p offset : Z) (s : SegmentInfo) : Prop :=
  si_topic s = topic /\ si_partition_id s = swrap 32 p /\ si_base_offset s <= offset <= si_end_offset s.

(** Looking up an offset: the answer is a stored segment of the topic and partition that
    contains the offset, the one with the greatest base offset, and there is no answer
    only when no segment contains it. *)
Theorem find_segment_for_offset_spec topic p offset d :
  in_u 63 offset ->
  match find_segment_for_offset topic p offset d with
  | Some found => exists org s, (org, s) ∈ segment_rows d /\ found = segment_of_row s /\ covers topic p offset s
      /\ forall org' s', (org', s') ∈ segment_rows d -> covers topic p offset s' ->
           si_base_offset s' <= si_base_offset s
  | None => forall org s, (org, s) ∈ segment_rows d -> ~ covers topic p offset s
  end.
Proof.
  intros Hoff. unfold find_segment_for_offset. unfold in_u in Hoff.
  rewrite (swrap_small 64 offset) by (unfold in_i; lia).
  set (l := map snd (filter _ (segment_rows d))).
  assert (Hin : forall s, s ∈ l <-> exists org, (org, s) ∈ segment_rows d /\ covers topic p offset s).
  { intros s. unfold l. rewrite list_elem_of_fmap. split.
    - intros ([org s'] & -> & Hs'). apply list_elem_of_filter in Hs' as [Hc Hs']. by exists org.
    - intros (org & Hs & Hc). exists (org, s). split; [done|]. by apply list_elem_of_filter. }
  destruct (last (merge_sort by_base l)) as [s|] eqn:Hlast; simpl.
  - apply last_merge_sort in Hlast as [Hs Hmax]. apply Hin in Hs as (org & Hs & Hc).
    exists org, s. split; [done|]. split; [done|]. split; [done|]. intros org' s' Hs' Hc'.
    apply Hmax, Hin. by exists org'.
  - apply last_None in Hlast. intros org s Hs Hc.
    assert (Hl : l ≡ₚ []) by (by rewrite <- Hlast, merge_sort_Permutation).
    apply Permutation_nil_r in Hl. apply (not_elem_of_nil s). rewrite <- Hl. apply Hin. by exists org.
Qed.

(** ** The segments of a partition, and a new one after them *)

(** The rows [get_segments] reads. *)
Definition partition_rows (org topic : string) (p : Z) (d : db) : list SegmentInfo :=
  merge_sort by_base
    (map snd (filter (fun r => r.1 = org /\ si_topic r.2 = topic /\ si_partition_id r.2 = swrap 32 p)
                (segment_rows d))).

Definition base_lt (a b : SegmentInfo) : Prop := si_base_offset a < si_base_offset b.

Lemma base_lt_unique l a b :
  StronglySorted base_lt l -> a ∈ l -> b ∈ l -> by_base a b -> by_base b a -> a = b.
Proof.
  induction 1 as [|x l _ IH Hx]; [by intros ?%not_elem_of_nil|].
  rewrite !elem_of_cons. unfold by_base in *. intros [-> |Ha] [-> |Hb]; [done| | |by apply IH].
  - pose proof (proj1 (Forall_forall _ _) Hx b Hb). unfold base_lt in *. lia.
  - pose proof (proj1 (Forall_forall _ _) Hx a Ha). unfold base_lt in *. lia.
Qed.

Lemma base_lt_by_base l : StronglySorted base_lt l -> StronglySorted by_base l.
Proof.
  induction 1 as [|x l _ IH Hx]; constructor; [done|].
  apply (Forall_impl _ _ _ Hx). unfold base_lt, by_base. lia.
Qed.

Lemma partition_rows_insert org info d d' :
  insert_segment org info d = (d', Ok ()) ->
  StronglySorted base_lt (partition_rows org (si_topic info) (si_partition_id info) d) ->
  Forall (fun s => si_base_offset s < swrap 64 (si_base_offset info))
    (partition_rows org (si_topic info) (si_partition_id info) d) ->
  partition_rows org (si_topic info) (si_partition_id info) d' =
    partition_rows org (si_topic info) (si_partition_id info) d ++ [segment_row info]
  /\ partitions d' = partitions d.
Proof.
  intros Hins Hs Hb. unfold insert_segment in Hins.
  destruct (segments d !! si_id info) as [x|] eqn:Hid; [discriminate Hins|].
  destruct (_ <? _); [discriminate Hins|]. destruct (negb _); [discriminate Hins|].
  injection Hins as <-. split; [|done].
  assert (Hperm : partition_rows org (si_topic info) (si_partition_id info)
                    (set_segments (<[si_id info:=(org, segment_row info)]> (segments d)) d)
                  ≡ₚ partition_rows org (si_topic info) (si_partition_id info) d ++ [segment_row info]).
  { unfold partition_rows. rewrite !merge_sort_Permutation. unfold segment_rows. simpl.
    rewrite map_to_list_insert by done. simpl. rewrite filter_cons_True by done. simpl.
    by rewrite <- Permutation_cons_append. }
  assert (Hsorted : StronglySorted base_lt
                      (partition_rows org (si_topic info) (si_partition_id info) d ++ [segment_row info])).
  { apply StronglySorted_app. split; [|split; [done|repeat constructor]].
    intros a b Ha ->%list_elem_of_singleton. by apply (proj1 (Forall_forall _ _) Hb a). }
  apply (StronglySorted_unique_strong by_base); [|apply StronglySorted_merge_sort; apply _| |done].
  - intros a b Ha Hb' H1 H2. rewrite Hperm in Ha. by apply (base_lt_unique _ a b Hsorted).
  - by apply base_lt_by_base.
Qed.

(** Registering a segment beyond those of its partition, with the watermark after it. *)
Lemma register_segment org info w d d' :
  add_segment_and_update_watermark org info w d = (d', Ok ()) ->
  in_i 32 (si_partition_id info) ->
  StronglySorted base_lt (partition_rows org (si_topic info) (si_partition_id info) d) ->
  Forall (fun s => si_base_offset s < swrap 64 (si_base_offset info))
    (partition_rows org (si_topic info) (si_partition_id info) d) ->
  partition_rows org (si_topic info) (si_partition_id info) d' =
    partition_rows org (si_topic info) (si_partition_id info) d ++ [segment_row info]
  /\ (is_Some (partitions d !! (org, si_topic info, si_partition_id info)) ->
      partitions d' !! (org, si_topic info, si_partition_id info) = Some (swrap 64 w)).
Proof.
  intros Hadd Hp Hs Hb. unfold add_segment_and_update_watermark in Hadd.
  destruct (insert_segment org info d) as [d1 [[]|e|]] eqn:Hins; [|discriminate Hadd|discriminate Hadd].
  injection Hadd as <-. destruct (partition_rows_insert _ _ _ _ Hins Hs Hb) as [Hrows Hparts].
  rewrite swrap_small by (done || lia). unfold set_watermark.
  destruct (partitions d1 !! (org, si_topic info, si_partition_id info)) eqn:Hw; simpl.
  - split; [done|]. intros _. by rewrite lookup_insert_eq.
  - split; [done|]. rewrite <- Hparts, Hw. by intros [? [=]].
Qed.

Lemma register_fails org info w d d' r :
  add_segment_and_update_watermark org info w d = (d', r) -> r <> Ok () -> d' = d.
Proof.
  unfold add_segment_and_update_watermark. intros Hadd Hr.
  by destruct (insert_segment org info d) as [d1 [[]|e|]]; injection Hadd as <- <-.
Qed.
End segment_facts.

(** ** Tenants *)

Section tenants.
Context `{HJ : JsonMaps}.

Lemma wrap_swrap_64 x : in_u 64 x -> wrap 64 (swrap 64 x) = x.
Proof. intros Hx. pose proof (wrap_delta 64 0 x ltac:(lia) Hx) as H. by rewrite Z.sub_0_r in H. Qed.

(** Committing an offset.  For a known organization the call succeeds, and the
    organization reads its own offset back, unless another organization has committed an
    offset for a group, topic and partition of the same names: then that organization's
    offset is overwritten with this one, and this organization reads back nothing.  All
    other offsets stay as they are. *)
Theorem commit_offset_spec org g t p off m d :
  org ∈ organizations d -> in_u 64 off ->
  let owner := match consumer_offsets d !! (g, t, p) with Some r => or_org r | None => org end in
  let '(d', r) := commit_offset_for_org org g t p off m d in
  r = Ok tt
  /\ get_committed_offset_for_org owner g t p d' = Some off
  /\ (owner <> org -> get_committed_offset_for_org org g t p d' = None)
  /\ (forall o g' t' p', (o, g', t', p') <> (owner, g, t, p) ->
        get_committed_offset_for_org o g' t' p' d' = get_committed_offset_for_org o g' t' p' d).
Proof.
  intros Horg Hoff owner. unfold commit_offset_for_org.
  assert (Hens : exists g', ensure_consumer_group_for_org org g d = (set_offsets g' (consumer_offsets d) d, Ok tt)).
  { unfold ensure_consumer_group_for_org. case_bool_decide.
    - exists (consumer_groups d). by destruct d.
    - rewrite (bool_decide_true _ Horg). by eexists. }
  destruct Hens as (g1 & ->). cbn. fold owner. split; [done|].
  unfold get_committed_offset_for_org. simpl. rewrite lookup_insert_eq. simpl.
  rewrite bool_decide_true, wrap_swrap_64 by done. split; [done|]. split.
  - intros Hne. by rewrite bool_decide_false.
  - intros o g' t' p' Hne. destruct (decide ((g', t', p') = (g, t, p))) as [Hk|Hk].
    + rewrite Hk, lookup_insert_eq. simpl. rewrite bool_decide_false by congruence.
      injection Hk as -> -> ->. unfold owner in Hne.
      destruct (consumer_offsets d !! (g, t, p)) as [row|]; [|done]. simpl.
      by rewrite bool_decide_false by congruence.
    + by rewrite lookup_insert_ne by congruence.
Qed.

(** Deleting a topic leaves its segments.  When a topic is deleted and created again, its
    partitions restart at watermark 0, but offsets of the old segments are still answered
    with the old segments, and registering a segment under the id of an old one, as the
    writer of the new topic does when it starts at the same offset, fails. *)
Theorem deleted_topic_keeps_segments org name c now d d1 d2 id s :
  topics d !! (org, name) <> None -> tc_name c = name ->
  segments d !! id = Some (org, s) ->
  delete_topic_for_org org name d = (d1, Ok tt) ->
  create_topic_for_org org c now d1 = (d2, Ok tt) ->
  segments d2 = segments d
  /\ (forall p, 0 <= p < tc_partition_count c -> get_partition org name p d2 = Some (mk_partition name p 0))
  /\ (forall p off, find_segment_for_offset name p off d2 = find_segment_for_offset name p off d)
  /\ forall s' w, si_id s' = id -> add_segment_and_update_watermark org s' w d2 = (d2, Err unique_error).
Proof.
  intros Ht Hname Hs Hdel Hcre. unfold delete_topic_for_org in Hdel.
  destruct (topics d !! (org, name)) as [row|]; [|done]. injection Hdel as <-.
  unfold create_topic_for_org in Hcre. simpl in Hcre. rewrite Hname, lookup_delete_eq in Hcre.
  destruct (negb (_ >? 0)); [done|]. destruct (negb _); [done|]. injection Hcre as <-. simpl.
  split; [done|]. split; [|split; [done|]].
  - intros p Hp. unfold get_partition. simpl.
    destruct (proj2 (new_partitions_lookup org name (tc_partition_count c) (org, name, p))) as [w Hw]; [by exists p|].
    assert (w = 0) as ->.
    { apply elem_of_list_to_map_2, list_elem_of_fmap in Hw as (? & [= _ <-] & _). done. }
    by rewrite (lookup_union_Some_l _ _ _ _ Hw).
  - intros s' w Hid. unfold add_segment_and_update_watermark, insert_segment. simpl. by rewrite Hid, Hs.
Qed.
End tenants.

(** ** Witnesses *)

Definition orders2 : TopicConfig := mk_topic_config "orders" 2 (Some 86400000) Compact ∅.
Definition row0 (base last : Z) (id : string) : SegmentInfo :=
  mk_segment_info id "orders" 0 base last (last - base + 1) 1000 "bucket" (id +:+ ".seg") 5 1 2.
Definition shop : db :=
  foldl (fun d x => perform x d) empty_db
    [OEnsureOrg "acme"; OEnsureOrg "globex"; OCreateTopic "acme" orders2 5;
     OAddSegmentWatermark "acme" (row0 0 9 "orders-0-0") 10;
     OCommitOffset "acme" "billing" "orders" 0 7 None].

Lemma topic_roundtrip_witness :
  get_topic_for_org "acme" "orders" shop =
  Some (mk_topic "orders" 2 (Some 86400000) Compact 5 {["cleanup.policy"%string := "compact"%string]}).
Proof.
  pose proof (topic_roundtrip "acme" orders2 5 (ensure_organization "acme" empty_db)) as H.
  destruct (create_topic_for_org _ _ _ _) as [d' r] eqn:Hd. cbn [topics ensure_organization empty_db] in H.
  rewrite lookup_empty in H. destruct (decide _) as [_|Hn] in H;
    [|exfalso; apply Hn; split; [reflexivity|apply (bool_decide_eq_true_1 (_ ∈ _)); vm_compute; reflexivity]].
  destruct H as (_ & Hget & _). transitivity (get_topic_for_org "acme" "orders" d'); [|exact Hget].
  apply (f_equal fst) in Hd. cbn [fst] in Hd. subst d'. vm_compute. reflexivity.
Defined.

Lemma find_segment_for_offset_spec_witness :
  exists s, find_segment_for_offset "orders" 0 4 shop = Some s /\ si_id s = "orders-0-0"%string.
Proof.
  pose proof (find_segment_for_offset_spec "orders" 0 4 shop ltac:(unfold in_u; lia)) as H.
  destruct (find_segment_for_offset _ _ _ _) as [s|] eqn:Hs.
  - exists s. split; [reflexivity|]. apply (f_equal (fmap si_id)) in Hs. vm_compute in Hs.
    injection Hs as Hs. symmetry. exact Hs.
  - exfalso. apply (f_equal (fmap si_id)) in Hs. vm_compute in Hs. discriminate Hs.
Defined.

Lemma commit_offset_spec_witness :
  let d := fst (commit_offset_for_org "globex" "billing" "orders" 0 3 None shop) in
  get_committed_offset_for_org "acme" "billing" "orders" 0 shop = Some 7
  /\ get_committed_offset_for_org "acme" "billing" "orders" 0 d = Some 3
  /\ get_committed_offset_for_org "globex" "billing" "orders" 0 d = None.
Proof.
  intros d. split; [vm_compute; reflexivity|].
  pose proof (commit_offset_spec "globex" "billing" "orders" 0 3 None shop) as H. cbv zeta in H.
  assert (Hown : consumer_offsets shop !! ("billing"%string, "orders"%string, 0) = Some (mk_offset_row "acme" 7 None))
    by (vm_compute; reflexivity).
  rewrite Hown in H. cbn [or_org] in H. subst d.
  destruct (commit_offset_for_org _ _ _ _ _ _ _) as [d' r].
  destruct H as (_ & Ho & Hn & _);
    [apply (bool_decide_eq_true_1 (_ ∈ _)); vm_compute; reflexivity|unfold in_u; lia|].
  split; [exact Ho|apply Hn; discriminate].
Defined.

Lemma deleted_topic_keeps_segments_witness :
  exists d2, snd (add_segment_and_update_watermark "acme" (row0 0 0 "orders-0-0") 1 d2) = Err unique_error
             /\ get_partition "acme" "orders" 0 d2 = Some (mk_partition "orders" 0 0).
Proof.
  destruct (delete_topic_for_org "acme" "orders" shop) as [d1 r1] eqn:H1.
  assert (Hr1 : r1 = Ok tt) by (apply (f_equal snd) in H1; vm_compute in H1; symmetry; exact H1). subst r1.
  destruct (create_topic_for_org "acme" orders2 9 d1) as [d2 r2] eqn:H2.
  assert (Hr2 : r2 = Ok tt).
  { apply (f_equal fst) in H1. cbn [fst] in H1. subst d1. apply (f_equal snd) in H2. vm_compute in H2.
    symmetry. exact H2. }
  subst r2.
  destruct (deleted_topic_keeps_segments "acme" "orders" orders2 9 shop d1 d2 "orders-0-0"
    (segment_row (row0 0 9 "orders-0-0"))) as (_ & Hp & _ & Hf);
    [vm_compute; discriminate|reflexivity|vm_compute; reflexivity|exact H1|exact H2|].
  exists d2. split; [rewrite (Hf (row0 0 0 "orders-0-0") 1 eq_refl); reflexivity|apply Hp; vm_compute; split; congruence].
Defined.
