(* ===== verification/PartitionWriter.v ===== *)
(** * The partition writer (crates/streamhouse-storage/src/writer.rs)

    [PartitionWriter] buffers the records of a partition in a segment and in the write-ahead
    log, uploads the segment to the object store, registers it in the catalog and then
    truncates the log.  Every call to the outside (the object store, the throttle, the
    database, the files, the clock) takes its outcome from an environment argument, so the
    definitions say what the code does on every one of them. *)

From coqutil Require Import Byte.
From stdpp Require Import pretty.
From S2P Require Import Prelude Core External Segment Wal StorageError WalHandle MetadataError Catalog.

(** ** Configuration *)

Inductive ThrottleDecision : Type := Allow | RateLimited | CircuitOpen.

(** [WriteConfig], without the fields that the writer does not read; of the throttle only
    whether there is one, its decisions come from the environment. *)
Record WriteConfig : Type := mk_write_config {
  segment_max_size : Z;
  segment_max_age_ms : Z;
  s3_bucket : string;
  s3_upload_retries : Z;
  wal_config : option WALConfig;
  throttled : bool;
  multipart_threshold : Z;
  multipart_part_size : Z
}.

Definition default_wal_config : WALConfig := mk_wal_config (Interval 100) false 1000 (1024 * 1024) None.
Definition default_write_config : WriteConfig :=
  mk_write_config (64 * 1024 * 1024) (10 * 60 * 1000) "streamhouse" 3 (Some default_wal_config) false
    (8 * 1024 * 1024) (8 * 1024 * 1024).

(** ** Names *)

(** [object_store::path::Path::from]: the path of a key.  What the code needs of it is
    that two names of letters, digits, dots and underscores in one directory have two paths. *)
Class ObjectPaths := path_from : string -> string.

Definition plain_char (a : Ascii.ascii) : bool :=
  let n := Ascii.N_of_ascii a in
  ((48 <=? n) && (n <=? 57) || (97 <=? n) && (n <=? 122) || (n =? 46) || (n =? 95))%N.
Fixpoint plain (s : string) : bool :=
  match s with EmptyString => true | String a s => plain_char a && plain s end.

Class ObjectPathLaws `(ObjectPaths) : Prop :=
  path_from_inj dir a b : plain a = true -> plain b = true ->
    path_from (dir +:+ "/" +:+ a) = path_from (dir +:+ "/" +:+ b) -> a = b.

(** Paths for the witnesses: the keys themselves. *)
#[export] Instance toy_paths : ObjectPaths := fun key => key.
#[export] Instance toy_path_laws : ObjectPathLaws toy_paths.
Proof. intros dir a b _ _ H. unfold path_from, toy_paths in H. by apply (inj (String.app dir)), (inj (String.app "/")) in H. Qed.

(** [{:020}]: twenty decimal digits. *)
Definition digit (v : Z) : string := String (Ascii.ascii_of_N (Z.to_N (48 + v mod 10))) EmptyString.
Fixpoint padded (n : nat) (v : Z) : string :=
  match n with O => EmptyString | S n => padded n (v / 10) +:+ digit v end.

Definition segment_dir (prefix topic : string) (partition_id : Z) : string :=
  prefix +:+ "/" +:+ topic +:+ "/" +:+ pretty partition_id.
Definition segment_name (base_offset : Z) : string := padded 20 base_offset +:+ ".seg".
Definition segment_key (prefix topic : string) (partition_id base_offset : Z) : string :=
  segment_dir prefix topic partition_id +:+ "/" +:+ segment_name base_offset.
Definition segment_id (topic : string) (partition_id base_offset : Z) : string :=
  topic +:+ "-" +:+ pretty partition_id +:+ "-" +:+ pretty base_offset.

(** ** Uploading *)

(** A PUT that is answered with an error may have stored the object all the same. *)
Inductive put_result : Type := PutOk | PutErr (msg : string) (stored : bool).

Record put_env : Type := mk_put_env { pe_decision : ThrottleDecision; pe_put : put_result }.

(** The throttle's decision, the start, the parts (an error is a text) and the completion,
    which makes the object visible. *)
Record multipart_env : Type := mk_multipart_env {
  me_decision : ThrottleDecision;
  me_start : option string;
  me_part : nat -> option string;
  me_complete : put_result
}.

Record upload_env : Type := mk_upload_env { ue_put : nat -> put_env; ue_multipart : multipart_env }.

Abbreviation object_map := (gmap string bytes).

Definition put (path : string) (data : bytes) (r : put_result) (objs : object_map) : object_map :=
  match r with PutOk | PutErr _ true => <[path := data]> objs | PutErr _ false => objs end.

Definition refusal (has_throttle : bool) (d : ThrottleDecision) : option StorageError :=
  match has_throttle, d with
  | true, RateLimited => Some S3RateLimited
  | true, CircuitOpen => Some S3CircuitOpen
  | _, _ => None
  end.

(** The loop over the attempts, of which [n] are left; [unreachable!()] after the last. *)
Fixpoint put_attempts (has_throttle : bool) (env : nat -> put_env) (path : string) (data : bytes)
    (n attempt : nat) (objs : object_map) : object_map * outcome StorageError () :=
  match n with
  | O => (objs, Panic)
  | S n =>
      let e := env attempt in
      match refusal has_throttle (pe_decision e) with
      | Some err => (objs, Err err)
      | None =>
          let objs := put path data (pe_put e) objs in
          match pe_put e with
          | PutOk => (objs, Ok ())
          | PutErr msg _ =>
              match n with
              | O => (objs, Err (S3UploadFailed msg))
              | S _ => put_attempts has_throttle env path data n (S attempt) objs
              end
          end
      end
  end.

(** [put_part] for the parts [i .. i + n). *)
Fixpoint put_parts (part : nat -> option string) (n i : nat) : option string :=
  match n with
  | O => None
  | S n => match part i with Some e => Some e | None => put_parts part n (S i) end
  end.

Definition upload_multipart (config : WriteConfig) (env : multipart_env) (path : string) (data : bytes)
    (objs : object_map) : object_map * outcome StorageError () :=
  if multipart_part_size config =? 0 then (objs, Panic)
  else
    let num_parts := (len data + multipart_part_size config - 1) / multipart_part_size config in
    match refusal (throttled config) (me_decision env) with
    | Some err => (objs, Err err)
    | None =>
        match me_start env with
        | Some e => (objs, Err (S3UploadFailed ("Failed to start multipart: " +:+ e)))
        | None =>
            match put_parts (me_part env) (Z.to_nat num_parts) 0 with
            | Some e => (objs, Err (S3UploadFailed ("Part write failed: " +:+ e)))
            | None =>
                (put path data (me_complete env) objs,
                 match me_complete env with
                 | PutOk => Ok ()
                 | PutErr e _ => Err (S3UploadFailed ("Multipart upload failed: " +:+ e))
                 end)
            end
        end
    end.

Definition upload_to_s3 (config : WriteConfig) (env : upload_env) (path : string) (data : bytes)
    (objs : object_map) : object_map * outcome StorageError () :=
  if multipart_threshold config <=? len data then upload_multipart config (ue_multipart env) path data objs
  else put_attempts (throttled config) (ue_put env) path data (Z.to_nat (s3_upload_retries config)) 0 objs.

(** ** The writer *)

Record PartitionWriter : Type := mk_partition_writer {
  org_id : string;
  topic : string;
  partition_id : Z;
  current_segment : Writer.SegmentWriter;
  current_offset : Z;
  segment_created_at : Z;
  segment_size_estimate : Z;
  s3_data_prefix : string;
  wal : option WAL;
  stale_wal_files : list string;
  buffered_records : list Record_;
  config : WriteConfig
}.

(** [segment_created_at] and the estimate are set together, as are the segment and the buffer
    by [append]. *)
Definition set_wal (h : option WAL) (w : PartitionWriter) : PartitionWriter :=
  mk_partition_writer (org_id w) (topic w) (partition_id w) (current_segment w) (current_offset w)
    (segment_created_at w) (segment_size_estimate w) (s3_data_prefix w) h (stale_wal_files w)
    (buffered_records w) (config w).
Definition set_offset (o : Z) (w : PartitionWriter) : PartitionWriter :=
  mk_partition_writer (org_id w) (topic w) (partition_id w) (current_segment w) o
    (segment_created_at w) (segment_size_estimate w) (s3_data_prefix w) (wal w) (stale_wal_files w)
    (buffered_records w) (config w).
Definition set_segment (s : Writer.SegmentWriter) (w : PartitionWriter) : PartitionWriter :=
  mk_partition_writer (org_id w) (topic w) (partition_id w) s (current_offset w)
    (segment_created_at w) (segment_size_estimate w) (s3_data_prefix w) (wal w) (stale_wal_files w)
    (buffered_records w) (config w).
Definition set_buffered (l : list Record_) (w : PartitionWriter) : PartitionWriter :=
  mk_partition_writer (org_id w) (topic w) (partition_id w) (current_segment w) (current_offset w)
    (segment_created_at w) (segment_size_estimate w) (s3_data_prefix w) (wal w) (stale_wal_files w)
    l (config w).
Definition set_estimate (created size : Z) (w : PartitionWriter) : PartitionWriter :=
  mk_partition_writer (org_id w) (topic w) (partition_id w) (current_segment w) (current_offset w)
    created size (s3_data_prefix w) (wal w) (stale_wal_files w) (buffered_records w) (config w).
Definition set_stale (l : list string) (w : PartitionWriter) : PartitionWriter :=
  mk_partition_writer (org_id w) (topic w) (partition_id w) (current_segment w) (current_offset w)
    (segment_created_at w) (segment_size_estimate w) (s3_data_prefix w) (wal w) l (buffered_records w)
    (config w).

(** [binary_search_by_key] on the sorted buffer gives the first record at or after the
    offset, or, like the insertion point, the end. *)
Definition read_buffered (start_offset : Z) (max_records : nat) (w : PartitionWriter) : list Record_ :=
  let fix from l := match l with
                    | [] => []
                    | r :: l' => if r_offset r <? start_offset then from l' else l
                    end in
  take max_records (from (buffered_records w)).

Definition should_roll_segment (now : Z) (w : PartitionWriter) : bool :=
  (segment_max_size (config w) <=? segment_size_estimate w)
  || (segment_max_age_ms (config w) <=? wrap 64 (now - segment_created_at w)).

Definition quote_core (e : Error) : StorageError := SegmentError (core_error_text e).

(** What a client hands in: key, value and timestamp. *)
Abbreviation input := (option bytes * bytes * Z)%type.

Section writer.
Context `{HC : Codecs} `{HP : ObjectPaths} `{HJ : JsonMaps}.

(** What is shared with the rest of the system. *)
Record world : Type := mk_world {
  objects : object_map;
  catalog : db;
  wal_dir : list Files.dir_entry
}.

(** The record joins the buffer and the segment, under the offset it was given. *)
Definition push (r : Record_) (w : PartitionWriter) : PartitionWriter * outcome StorageError () :=
  let w := set_estimate (segment_created_at w) (wrap 64 (segment_size_estimate w + estimated_size r)) w in
  let w := set_buffered (buffered_records w ++ [r]) w in
  let '(s, res) := Writer.append (current_segment w) r in
  (set_segment s w, map_err quote_core res).

Record append_env : Type := mk_append_env { ae_now : Z; ae_sched : list round_env }.

(** [append]: the offset is taken before the log is written. *)
Definition append (key : option bytes) (value : bytes) (timestamp : Z) (env : append_env)
    (w : PartitionWriter) : PartitionWriter * outcome StorageError Z :=
  let offset := current_offset w in
  let w := set_offset (wrap 64 (current_offset w + 1)) w in
  let '(w, logged) :=
    match wal w with
    | None => (w, Ok ())
    | Some h =>
        let '(h, res) := WalHandle.append key value (ae_now env) (ae_sched env) h in (set_wal (Some h) w, res)
    end in
  match logged with
  | Ok _ =>
      let '(w, pushed) := push (mk_record offset timestamp key value) w in
      (w, match pushed with Ok _ => Ok offset | Err e => Err e | Panic => Panic end)
  | Err e => (w, Err e)
  | Panic => (w, Panic)
  end.

(** The loop of [append_batch]. *)
Fixpoint push_all (offset : Z) (records : list input) (w : PartitionWriter)
  : PartitionWriter * outcome StorageError () :=
  match records with
  | [] => (w, Ok ())
  | (key, value, timestamp) :: records =>
      match push (mk_record offset timestamp key value) w with
      | (w, Ok _) => push_all (wrap 64 (offset + 1)) records w
      | failure => failure
      end
  end.

Definition append_batch (records : list input) (env : append_env) (w : PartitionWriter)
  : PartitionWriter * outcome StorageError (list Z) :=
  match records with
  | [] => (w, Ok [])
  | _ :: _ =>
      let base_offset := current_offset w in
      let offsets := map (fun i => wrap 64 (base_offset + i)) (seqZ 0 (len records)) in
      let w := set_offset (wrap 64 (current_offset w + len records)) w in
      let '(w, logged) :=
        match wal w with
        | None => (w, Ok ())
        | Some h =>
            let '(h, res) := WalHandle.append_batch (map fst records) (ae_now env) (ae_sched env) h in
            (set_wal (Some h) w, res)
        end in
      match logged with
      | Ok _ =>
          let '(w, pushed) := push_all base_offset records w in
          (w, match pushed with Ok _ => Ok offsets | Err e => Err e | Panic => Panic end)
      | Err e => (w, Err e)
      | Panic => (w, Panic)
      end
  end.

(** ** Rolling *)

(** [re_now] is the clock before the upload, [re_created] when the segment is described and
    [re_done] at the end; [re_remove] says which stale files can be removed. *)
Record roll_env : Type := mk_roll_env {
  re_now : Z;
  re_upload : upload_env;
  re_created : Z;
  re_db : option MetadataError;
  re_sched : list round_env;
  re_remove : string -> bool;
  re_done : Z
}.

(** The parts of [roll_segment] before and after the upload: *)
Definition describe (s : Writer.SegmentWriter) (base_offset end_offset size_bytes : Z) (env : roll_env)
    (w : PartitionWriter) : SegmentInfo :=
  mk_segment_info (segment_id (topic w) (partition_id w) base_offset) (topic w) (partition_id w)
    base_offset end_offset (Writer.record_count s) size_bytes (s3_bucket (config w))
    (segment_key (s3_data_prefix w) (topic w) (partition_id w) base_offset) (re_created env)
    (swrap 64 (default (wrap 64 (re_now env)) (Writer.min_timestamp s)))
    (swrap 64 (default (wrap 64 (re_now env)) (Writer.max_timestamp s))).

(** The files of other agents are removed once, whether or not that works. *)
Definition remove_stale (env : roll_env) (w : PartitionWriter) (wd : world) : PartitionWriter * world :=
  (set_stale [] w,
   mk_world (objects wd) (catalog wd)
     (filter (fun e => ~ (e.1 ∈ stale_wal_files w /\ re_remove env e.1 = true)) (wal_dir wd))).

(** Once the segment is registered: the buffer, the log, the stale files, the clock. *)
Definition settle (env : roll_env) (w : PartitionWriter) (wd : world)
  : PartitionWriter * world * outcome StorageError () :=
  let w := set_buffered [] w in
  let '(w, truncated) :=
    match wal w with
    | None => (w, Ok ())
    | Some h => let '(h, res) := WalHandle.truncate (re_sched env) h in (set_wal (Some h) w, res)
    end in
  match truncated with
  | Ok _ =>
      let '(w, wd) := remove_stale env w wd in
      (set_estimate (re_done env) 0 w, wd, Ok ())
  | failure => (w, wd, failure)
  end.

Definition cannot_roll : StorageError := SegmentError "Cannot roll empty segment".

(** [roll_segment]: the current segment is replaced by a new one first of all. *)
Definition roll_segment (env : roll_env) (w : PartitionWriter) (wd : world)
  : PartitionWriter * world * outcome StorageError () :=
  let segment := current_segment w in
  let w := set_segment (Writer.new Lz4) w in
  match Writer.base_offset segment, Writer.last_offset segment with
  | Some base_offset, Some end_offset =>
      match Writer.finish segment with
      | Ok segment_bytes =>
          let info := describe segment base_offset end_offset (len segment_bytes) env w in
          let '(objs, uploaded) :=
            upload_to_s3 (config w) (re_upload env) (path_from (si_s3_key info)) segment_bytes (objects wd) in
          let wd := mk_world objs (catalog wd) (wal_dir wd) in
          match uploaded with
          | Ok _ =>
              let '(d, registered) :=
                attempt (re_db env) (catalog wd)
                  (add_segment_and_update_watermark (org_id w) info (wrap 64 (end_offset + 1))) in
              let wd := mk_world objs d (wal_dir wd) in
              match registered with
              | Ok _ => settle env w wd
              | Err e => (w, wd, Err (FromMetadata e))
              | Panic => (w, wd, Panic)
              end
          | failure => (w, wd, failure)
          end
      | Err e => (w, wd, Err (quote_core e))
      | Panic => (w, wd, Panic)
      end
  | _, _ => (w, wd, Err cannot_roll)
  end.

Definition flush (now : Z) (env : roll_env) (w : PartitionWriter) (wd : world)
  : PartitionWriter * world * outcome StorageError () :=
  if (Writer.record_count (current_segment w) >? 0) && should_roll_segment now w then roll_segment env w wd
  else (w, wd, Ok ()).

Definition flush_durable (env : roll_env) (w : PartitionWriter) (wd : world)
  : PartitionWriter * world * outcome StorageError (option Z) :=
  if Writer.record_count (current_segment w) >? 0 then
    let end_offset := Writer.last_offset (current_segment w) in
    match roll_segment env w wd with
    | (w, wd, Ok _) => (w, wd, Ok end_offset)
    | (w, wd, Err e) => (w, wd, Err e)
    | (w, wd, Panic) => (w, wd, Panic)
    end
  else (w, wd, Ok None).

(** ** Opening *)

(** The failures of the database, of the directory listing (only logged) and of opening the
    file, the rounds of the first flush, and the clock. *)
Record new_env : Type := mk_new_env {
  ne_db : option MetadataError;
  ne_listed : bool;
  ne_open : option string;
  ne_sched : list round_env;
  ne_now : Z
}.

(** The recovered records get the next offsets, with the time the log holds for them. *)
Fixpoint replay (recovered : list Format.WALRecord) (offset : Z) (s : Writer.SegmentWriter)
    (buffered : list Record_) : outcome StorageError (Z * Writer.SegmentWriter * list Record_) :=
  match recovered with
  | [] => Ok (offset, s, buffered)
  | x :: recovered =>
      let r := mk_record offset (Format.w_timestamp x) (Format.w_key x) (Format.w_value x) in
      match Writer.append s r with
      | (s, Ok _) => replay recovered (wrap 64 (offset + 1)) s (buffered ++ [r])
      | (_, Err e) => Err (quote_core e)
      | (_, Panic) => Panic
      end
  end.

(** The records of the other agents' files, when this agent has a name. *)
Definition scan_others (topic : string) (partition_id : Z) (c : WALConfig) (env : new_env) (wd : world)
  : outcome StorageError (list Format.WALRecord * list string) :=
  match agent_id c with
  | Some a =>
      if ne_listed env then
        match Files.recover_partition topic (Z.to_N partition_id) a (wal_dir wd) with
        | Ok found => Ok found
        | _ => Panic
        end
      else Ok ([], [])
  | None => Ok ([], [])
  end.

(** [PartitionWriter::new], over the contents of the writer's own file. *)
Definition new (org_id topic : string) (partition_id : Z) (config : WriteConfig) (s3_data_prefix : string)
    (own_file : bytes) (env : new_env) (wd : world) : outcome StorageError PartitionWriter :=
  match ne_db env with
  | Some e => Err (FromMetadata e)
  | None =>
      partition ← ok_or (PartitionNotFound topic partition_id)
                    (get_partition org_id topic partition_id (catalog wd));
      let current_offset := p_high_watermark partition in
      '(h, stale, recovered) ←
        match wal_config config with
        | None => Ok (None, [], [])
        | Some c =>
            '(others, stale) ← scan_others topic partition_id c env wd;
            match ne_open env with
            | Some e => Err (IoError e)
            | None =>
                let '(h, own) := recover (ne_sched env) (WalHandle.open c own_file) in
                own ← own;
                Ok (Some h, stale, others ++ own)
            end
        end;
      '(current_offset, current_segment, buffered_records) ←
        replay recovered current_offset (Writer.new Lz4) [];
      Ok (mk_partition_writer org_id topic partition_id current_segment current_offset (ne_now env) 0
            s3_data_prefix h stale buffered_records config)
  end.

End writer.
