(* ===== verification/PartitionWriterFacts.v ===== *)
(** * Facts about the partition writer *)

From coqutil Require Import Byte.
From stdpp Require Import pretty sorting.
From S2P Require Import Prelude Core External Segment SegmentFacts Wal WalFacts StorageError WalHandle MetadataError Catalog CatalogFacts PartitionWriter.

(** ** Names *)

Lemma digit_inj v v' : digit v = digit v' -> v mod 10 = v' mod 10.
Proof.
  unfold digit. intros [= H]. apply (f_equal Ascii.N_of_ascii) in H.
  pose proof (Z.mod_pos_bound v 10 ltac:(lia)). pose proof (Z.mod_pos_bound v' 10 ltac:(lia)).
  rewrite !Ascii.N_ascii_embedding in H by lia. lia.
Qed.

Lemma app_char_inj s s' a a' : s +:+ String a "" = s' +:+ String a' "" -> s = s' /\ a = a'.
Proof.
  revert s'. induction s as [|c s IH]; intros [|c' s'] H; rewrite ?str_app_cons, ?str_app_nil in H.
  - by injection H as ->.
  - injection H as _ H. by destruct s'.
  - injection H as _ H. by destruct s.
  - injection H as -> H. by destruct (IH _ H) as [-> ->].
Qed.

Lemma padded_inj n v v' : 0 <= v < 10 ^ Z.of_nat n -> 0 <= v' < 10 ^ Z.of_nat n ->
  padded n v = padded n v' -> v = v'.
Proof.
  revert v v'. induction n as [|n IH]; intros v v' Hv Hv' H; [simpl in *; lia|].
  rewrite Nat2Z.inj_succ, Z.pow_succ_r in Hv, Hv' by lia. simpl in H.
  unfold digit in H. apply app_char_inj in H as [Hp Hd].
  assert (v mod 10 = v' mod 10) by (apply digit_inj; unfold digit; by rewrite Hd).
  apply IH in Hp; [|split; [apply Z.div_pos; lia|apply Z.div_lt_upper_bound; lia]
                   |split; [apply Z.div_pos; lia|apply Z.div_lt_upper_bound; lia]].
  rewrite (Z.div_mod v 10), (Z.div_mod v' 10) by lia. lia.
Qed.

Lemma plain_app a b : plain (a +:+ b) = plain a && plain b.
Proof. induction a as [|c a IH]; simpl; [done|]. by rewrite IH, andb_assoc. Qed.

Lemma plain_padded n v : plain (padded n v) = true.
Proof.
  revert v. induction n as [|n IH]; intros v; simpl; [done|]. rewrite plain_app, IH. simpl.
  unfold plain_char. pose proof (Z.mod_pos_bound v 10 ltac:(lia)).
  rewrite Ascii.N_ascii_embedding by lia.
  replace ((48 <=? Z.to_N (48 + v mod 10)) && (Z.to_N (48 + v mod 10) <=? 57))%N with true; [done|].
  symmetry. apply andb_true_intro. split; apply N.leb_le; lia.
Qed.

(** Two segments of a partition have two objects. *)
Lemma segment_path_inj `{HP : ObjectPaths} `{!ObjectPathLaws HP} prefix t p b b' :
  in_u 64 b -> in_u 64 b' ->
  path_from (segment_key prefix t p b) = path_from (segment_key prefix t p b') -> b = b'.
Proof.
  unfold segment_key, in_u. intros Hb Hb' H.
  apply path_from_inj in H; [|unfold segment_name; by rewrite plain_app, plain_padded..].
  unfold segment_name in H. apply str_app_inj_r, padded_inj in H; [done| |]; simpl; lia.
Qed.

(** ** Segments *)

Section segments.
Context `{HC : Codecs} `{!CodecLaws HC}.

(** What a reader makes of an object. *)
Definition decode_object (data : bytes) : option (list Record_) :=
  match Reader.new data with
  | Ok s => match Reader.read_all s with Ok rs => Some rs | _ => None end
  | _ => None
  end.

Lemma append_all_snoc w rs r :
  Writer.append_all w (rs ++ [r]) = w' ← Writer.append_all w rs; Writer.append_all w' [r].
Proof.
  revert w. induction rs as [|x rs IH]; intros w; [done|]. cbn [app Writer.append_all].
  destruct (Writer.append w x) as [w' [[]|e|]]; [apply IH|done|done].
Qed.

(** The offset of the last record. *)
Definition final_offset (rs : list Record_) : Z := match list.last rs with Some r => r_offset r | None => 0 end.

(** An object from which the records [rs] are read, all or from an offset, under a header
    with their first and last offsets. *)
Definition opens (data : bytes) (rs : list Record_) : Prop :=
  decode_object data = Some (map normalise rs)
  /\ (increasing rs -> forall start, exists s, Reader.new data = Ok s
        /\ Reader.read_from_offset s start = Ok (filter (fun r => start <= r_offset r) (map normalise rs)))
  /\ exists s, Reader.new data = Ok s
       /\ h_base_offset (Reader.header s) = first_offset rs /\ h_end_offset (Reader.header s) = final_offset rs.

(** A segment that holds [rs]. *)
Definition holds (rs : list Record_) (s : Writer.SegmentWriter) : Prop :=
  Writer.append_all (Writer.new Lz4) rs = Ok s.

Lemma holds_layout rs s : holds rs s -> exists chunks cur, layout Lz4 s chunks cur /\ concat chunks ++ cur = rs.
Proof.
  unfold holds. intros H.
  destruct (append_all_layout Lz4 (Writer.new Lz4) rs [] []) as (w & chunks & cur & Ha & HL & Hcat);
    [done|apply layout_new|]. rewrite H in Ha. injection Ha as <-. by exists chunks, cur.
Qed.

Lemma holds_append rs s r : holds rs s -> exists s', Writer.append s r = (s', Ok ()) /\ holds (rs ++ [r]) s'.
Proof.
  intros H. destruct (holds_layout _ _ H) as (chunks & cur & HL & _).
  destruct (append_layout Lz4 s r chunks cur) as (s' & ? & ? & Ha & _); [done|done|].
  exists s'. split; [done|]. unfold holds. rewrite append_all_snoc, H. simpl. by rewrite Ha.
Qed.

Lemma holds_nil s : holds [] s -> s = Writer.new Lz4.
Proof. unfold holds. simpl. congruence. Qed.

Lemma holds_count rs s : holds rs s -> len rs < 2 ^ 32 -> Writer.record_count s = len rs.
Proof.
  intros H Hlen. destruct (holds_layout _ _ H) as (chunks & cur & HL & <-).
  rewrite (l_count _ _ _ _ HL). apply wrap_small. unfold in_u. lia.
Qed.

Lemma holds_finish rs s :
  holds rs s -> rs <> [] -> Forall record_ok rs -> len rs < 2 ^ 32 ->
  Writer.base_offset s = Some (first_offset rs) /\ Writer.last_offset s = Some (final_offset rs)
  /\ exists out, Writer.finish s = Ok out
       /\ (len out < 2 ^ 63 -> opens out rs).
Proof.
  intros H Hne Hok Hlen.
  destruct (write_open Lz4 rs) as
    (w & out & chunks & base & last & Ha & Hf & Hcat & Hch & Hb & Hl & Hbase & Hlast & _ & _ & _ & _ & Hopen);
    [done..|].
  unfold holds in H. rewrite H in Ha. injection Ha as <-. subst base.
  assert (Hfinal : last = final_offset rs).
  { assert (Hs : Some last = Some (final_offset rs)); [|by injection Hs]. rewrite <- Hlast. unfold final_offset.
    destruct rs as [|r rs' _] using rev_ind; [done|]. by rewrite last_off_snoc, last_snoc. }
  split; [done|]. split; [by rewrite Hl, Hfinal|].
  exists out. split; [done|]. intros Hout. split; [|split].
  - unfold decode_object. rewrite (Hopen Hout).
    assert (Hall : Reader.read_all (reader_of Lz4 (first_offset rs) last (len rs) chunks) = Ok (map normalise rs)).
    { unfold Reader.read_all. cbn [reader_of Reader.index]. rewrite length_entries.
      pose proof (read_blocks_file Lz4 (first_offset rs) last (len rs) [] chunks) as Hr.
      cbn [app length] in Hr. rewrite <- Hcat at 3. apply Hr; [done|].
      apply Forall_concat_inv. by rewrite Hcat. }
    by rewrite Hall.
  - intros Hinc start. exists (reader_of Lz4 (first_offset rs) last (len rs) chunks). split; [by apply Hopen|].
    pose proof (read_from_file Lz4 (first_offset rs) last (len rs) chunks start) as Hr. rewrite Hcat in Hr. by apply Hr.
  - exists (reader_of Lz4 (first_offset rs) last (len rs) chunks). split; [by apply Hopen|]. by split.
Qed.
End segments.

(** ** Uploads *)

Section uploads.
Context `{HP : ObjectPaths}.

(** What an upload may do: it touches one object, and stores the data if it succeeds. *)
Definition uploads (path : string) (data : bytes) (objs objs' : object_map) (r : outcome StorageError ()) : Prop :=
  (forall k, k <> path -> objs' !! k = objs !! k) /\ (r = Ok () -> objs' !! path = Some data).

Lemma put_uploads path data r objs :
  (forall k, k <> path -> put path data r objs !! k = objs !! k)
  /\ (r = PutOk -> put path data r objs !! path = Some data).
Proof.
  destruct r as [|? []]; simpl; (split; [intros k Hk; by rewrite ?lookup_insert_ne|]);
    intros H; try discriminate H; by rewrite lookup_insert_eq.
Qed.

Lemma put_attempts_uploads thr env path data n attempt objs :
  uploads path data objs (fst (put_attempts thr env path data n attempt objs))
    (snd (put_attempts thr env path data n attempt objs)).
Proof.
  revert attempt objs. induction n as [|n IH]; intros attempt objs; [done|]. cbn [put_attempts].
  destruct (refusal thr (pe_decision (env attempt))); [done|].
  destruct (put_uploads path data (pe_put (env attempt)) objs) as [Hne Heq].
  destruct (pe_put (env attempt)) as [|msg st] eqn:Hr; [split; [done|intros _; by apply Heq]|].
  destruct n as [|n]; [by split|].
  destruct (IH (S attempt) (put path data (PutErr msg st) objs)) as [H1 H2].
  split; [intros k Hk; by rewrite H1, Hne|done].
Qed.

Lemma upload_to_s3_uploads c env path data objs :
  uploads path data objs (fst (upload_to_s3 c env path data objs)) (snd (upload_to_s3 c env path data objs)).
Proof.
  unfold upload_to_s3. destruct (_ <=? _); [|apply put_attempts_uploads]. unfold upload_multipart.
  destruct (_ =? 0); [done|]. destruct (refusal _ _); [done|]. destruct (me_start _); [done|].
  destruct (put_parts _ _ _); [done|].
  destruct (put_uploads path data (me_complete (ue_multipart env)) objs) as [Hne Heq].
  split; [done|]. cbn [fst snd]. destruct (me_complete (ue_multipart env)); [intros _; by apply Heq|done].
Qed.
End uploads.

(** ** The invariant of a writer *)

Section invariant.
Context `{HC : Codecs} `{!CodecLaws HC} `{HP : ObjectPaths} `{!ObjectPathLaws HP} `{HJ : JsonMaps}.

(** The offset after the last of the records. *)
Definition next_offset (rs : list Record_) : Z := match list.last rs with Some r => r_offset r + 1 | None => 0 end.

(** What the catalog says of a stored segment, and the object it points at. *)
Definition describes (prefix t : string) (p : Z) (ch : list Record_) (s : SegmentInfo) : Prop :=
  si_base_offset s = first_offset ch /\ si_end_offset s = final_offset ch
  /\ si_s3_key s = segment_key prefix t p (first_offset ch).

Definition object_holds (prefix t : string) (p : Z) (objs : object_map) (ch : list Record_) : Prop :=
  exists out, objs !! path_from (segment_key prefix t p (first_offset ch)) = Some out
    /\ (len out < 2 ^ 63 -> opens out ch).

(** The stored part of the log is [committed], segment by segment, and the watermark is the
    offset after it. *)
Record store_ok (org t : string) (p : Z) (prefix : string) (committed : list (list Record_)) (wd : world)
  : Prop := {
  so_rows : Forall2 (describes prefix t p) committed (partition_rows org t p (catalog wd));
  so_objects : Forall (object_holds prefix t p (objects wd)) committed;
  so_records : Forall (fun ch => ch <> [] /\ Forall record_ok ch) committed;
  so_order : increasing (concat committed);
  so_mark : partitions (catalog wd) !! (org, t, p) = Some (next_offset (concat committed));
  so_bound : next_offset (concat committed) < 2 ^ 63
}.

(** The open segment holds [pending], with offsets in [lo, hi). *)
Record pending_ok (lo hi : Z) (pending : list Record_) (s : Writer.SegmentWriter) : Prop := {
  po_holds : holds pending s;
  po_records : Forall record_ok pending;
  po_order : increasing pending;
  po_range : Forall (fun r => lo <= r_offset r < hi) pending;
  po_lo : 0 <= lo <= hi
}.

Definition wf (committed : list (list Record_)) (pending : list Record_) (w : PartitionWriter) (wd : world)
  : Prop :=
  store_ok (org_id w) (topic w) (partition_id w) (s3_data_prefix w) committed wd
  /\ pending_ok (next_offset (concat committed)) (current_offset w) pending (current_segment w)
  /\ 0 <= partition_id w < 2 ^ 31 /\ current_offset w < 2 ^ 63.

Lemma pending_push lo o p s r :
  pending_ok lo o p s -> r_offset r = o -> record_ok r ->
  exists s', Writer.append s r = (s', Ok ()) /\ pending_ok lo (o + 1) (p ++ [r]) s'.
Proof.
  intros [H1 H2 H3 H4 H5] Ho Hr. destruct (holds_append p s r H1) as (s' & Ha & Hs').
  exists s'. split; [done|]. split; [done| | | |lia].
  - apply Forall_app. by split; [|constructor].
  - apply StronglySorted_app. split; [|split; [done|repeat constructor]].
    intros a b Ha' ->%list_elem_of_singleton. pose proof (proj1 (Forall_forall _ _) H4 a Ha'). simpl in *. lia.
  - apply Forall_app. split; [|constructor; [lia|constructor]].
    apply (Forall_impl _ _ _ H4). lia.
Qed.

Lemma pending_wider lo o o' p s : o <= o' -> pending_ok lo o p s -> pending_ok lo o' p s.
Proof.
  intros Ho [H1 H2 H3 H4 H5]. split; [done..| |lia]. apply (Forall_impl _ _ _ H4). lia.
Qed.

Lemma pending_new lo hi : 0 <= lo <= hi -> pending_ok lo hi [] (Writer.new Lz4).
Proof. intros. split; [done|done|constructor|constructor|done]. Qed.

(** ** Rolling *)

Lemma first_final ch : increasing ch -> ch <> [] -> Forall record_ok ch ->
  in_u 64 (first_offset ch) /\ first_offset ch <= final_offset ch /\ next_offset ch = final_offset ch + 1
  /\ forall r, r ∈ ch -> first_offset ch <= r_offset r.
Proof.
  intros Hi Hne Hok. destruct ch as [|r0 ch]; [done|]. unfold first_offset. simpl.
  apply StronglySorted_inv in Hi as [_ Hall]. unfold final_offset, next_offset.
  assert (Hle : forall r, r ∈ r0 :: ch -> r_offset r0 <= r_offset r).
  { intros r [-> |Hr]%elem_of_cons; [lia|]. pose proof (proj1 (Forall_forall _ _) Hall r Hr). simpl in *. lia. }
  destruct (list.last (r0 :: ch)) as [r|] eqn:Hl; [|by apply last_None in Hl].
  split; [by apply Forall_cons in Hok as [[? _] _]|]. split; [|done].
  apply Hle. apply last_Some in Hl as [l' ->]. apply elem_of_app. right. by apply list_elem_of_singleton.
Qed.

Lemma next_offset_nonneg rs : Forall record_ok rs -> 0 <= next_offset rs.
Proof.
  intros Hok. unfold next_offset. destruct (list.last rs) as [r|] eqn:Hl; [|done].
  apply last_Some in Hl as [l ->]. apply Forall_app in Hok as [_ [[[? _] _] _]%Forall_cons]. lia.
Qed.

Lemma next_offset_app a ch : ch <> [] -> next_offset (a ++ ch) = next_offset ch.
Proof. intros Hne. unfold next_offset. destruct ch as [|r ch _] using rev_ind; [done|]. by rewrite app_assoc, !last_snoc. Qed.

Lemma next_offset_above rs r : increasing rs -> r ∈ rs -> r_offset r < next_offset rs.
Proof.
  intros Hi Hr. unfold next_offset. destruct rs as [|x rs _] using rev_ind; [by apply not_elem_of_nil in Hr|].
  rewrite last_snoc. apply elem_of_app in Hr as [Hr| ->%list_elem_of_singleton]; [|lia].
  apply StronglySorted_app in Hi as (H & _ & _). pose proof (H r x Hr ltac:(by apply list_elem_of_singleton)). simpl in *. lia.
Qed.

Lemma committed_first committed ch :
  Forall (fun ch => ch <> [] /\ Forall record_ok ch) committed -> increasing (concat committed) ->
  ch ∈ committed ->
  in_u 64 (first_offset ch) /\ first_offset ch < next_offset (concat committed).
Proof.
  intros Hok Hi Hch. pose proof (proj1 (Forall_forall _ _) Hok ch Hch) as [Hne Hr].
  destruct ch as [|r0 ch]; [done|]. apply Forall_cons in Hr as [[Ho _] _]. split; [done|].
  apply next_offset_above; [done|]. apply list_elem_of_In, in_concat. exists (r0 :: ch).
  split; [by apply list_elem_of_In|by left].
Qed.

(** An upload of a segment beyond the log leaves the stored segments alone. *)
Lemma store_ok_upload org t p prefix committed wd objs b data r :
  store_ok org t p prefix committed wd ->
  uploads (path_from (segment_key prefix t p b)) data (objects wd) objs r ->
  in_u 64 b -> next_offset (concat committed) <= b ->
  store_ok org t p prefix committed (mk_world objs (catalog wd) (wal_dir wd)).
Proof.
  intros [H1 H2 H3 H4 H5 H6] [Hne _] Hb Hle. split; try done. simpl.
  apply Forall_forall. intros ch Hch. pose proof (proj1 (Forall_forall _ _) H2 ch Hch) as (out & Hout & Hd).
  exists out. split; [|done]. rewrite Hne; [done|]. intros Heq.
  destruct (committed_first committed ch H3 H4 Hch) as [Hu Hlt].
  apply segment_path_inj in Heq; [lia|done|done].
Qed.

Lemma describe_fits prefix t p committed rows :
  Forall2 (describes prefix t p) committed rows ->
  Forall (fun ch => ch <> [] /\ Forall record_ok ch) committed -> increasing (concat committed) ->
  StronglySorted base_lt rows
  /\ Forall (fun s => si_base_offset s < next_offset (concat committed)) rows.
Proof.
  intros H2 Hok Hi. split.
  - revert Hok Hi. induction H2 as [|ch s committed rows (Hs & _) H2 IH]; [constructor|].
    intros [[Hne Hr] Hok]%Forall_cons Hi. simpl in Hi. apply StronglySorted_app in Hi as (Hlt & Hi1 & Hi2).
    constructor; [by apply IH|]. apply Forall_forall. intros s' Hs'.
    apply list_elem_of_lookup in Hs' as [i Hs'].
    destruct (Forall2_lookup_r _ _ _ _ _ H2 Hs') as (ch' & Hch' & Hd & _).
    assert (Hin : ch' ∈ committed) by (by eapply list_elem_of_lookup_2).
    unfold base_lt. rewrite Hs, Hd. destruct ch as [|r0 ch]; [done|].
    pose proof (proj1 (Forall_forall _ _) Hok ch' Hin) as [Hne' _]. destruct ch' as [|r0' ch']; [done|].
    apply Hlt; [by left|]. apply list_elem_of_In, in_concat. exists (r0' :: ch').
    split; [by apply list_elem_of_In|by left].
  - apply Forall_forall. intros s Hs. apply list_elem_of_lookup in Hs as [i Hs].
    destruct (Forall2_lookup_r _ _ _ _ _ H2 Hs) as (ch & Hch & Hd & _). rewrite Hd.
    apply (committed_first committed ch); [done|done|by eapply list_elem_of_lookup_2].
Qed.

(** Registering the uploaded segment extends the stored log by its records. *)
Lemma store_ok_register org t p prefix committed ch wd info d' :
  store_ok org t p prefix committed wd ->
  add_segment_and_update_watermark org info (wrap 64 (final_offset ch + 1)) (catalog wd) = (d', Ok ()) ->
  describes prefix t p ch info -> si_topic info = t -> si_partition_id info = p -> 0 <= p < 2 ^ 31 ->
  object_holds prefix t p (objects wd) ch ->
  ch <> [] -> Forall record_ok ch -> increasing ch ->
  Forall (fun r => next_offset (concat committed) <= r_offset r < 2 ^ 63 - 1) ch ->
  store_ok org t p prefix (committed ++ [ch]) (mk_world (objects wd) d' (wal_dir wd)).
Proof.
  intros [H1 H2 H3 H4 H5 H6] Hadd (Hb & He & Hk) Ht Hp Hpr Hobj Hne Hok Hi Hrange.
  destruct (first_final ch Hi Hne Hok) as (Hfu & Hle & Hnext & _).
  assert (Hr : next_offset (concat committed) <= first_offset ch < 2 ^ 63 - 1
               /\ final_offset ch < 2 ^ 63 - 1).
  { split.
    - destruct ch as [|r0 ch]; [done|]. apply Forall_cons in Hrange as [? _]. done.
    - unfold final_offset. destruct (list.last ch) as [r|] eqn:Hl; [|lia].
      apply last_Some in Hl as [l' ->]. apply Forall_app in Hrange as [_ [? _]%Forall_cons]. lia. }
  assert (Hsw : forall x, 0 <= x < 2 ^ 63 -> swrap 64 x = x).
  { intros x Hx. apply swrap_small; [lia|]. unfold in_i. lia. }
  unfold in_u in Hfu. destruct (describe_fits _ _ _ _ _ H1 H3 H4) as [Hss Hbelow].
  destruct (register_segment org info _ _ d' Hadd) as [Hrows Hparts].
  - unfold in_i. lia.
  - by subst t p.
  - rewrite Hb, Hsw by lia. subst t p. apply (Forall_impl _ _ _ Hbelow). lia.
  - subst t p. assert (Hcat : concat (committed ++ [ch]) = concat committed ++ ch)
      by (rewrite concat_app; simpl; by rewrite app_nil_r).
    assert (Hmark : next_offset (concat (committed ++ [ch])) = final_offset ch + 1)
      by (by rewrite Hcat, next_offset_app).
    split; cbn [catalog objects].
    + rewrite Hrows. apply Forall2_app; [done|]. constructor; [|constructor].
      unfold describes, segment_row. simpl. rewrite Hb, He, Hk, !Hsw by lia. done.
    + apply Forall_app. by split; [|constructor].
    + apply Forall_app. by split; [|constructor].
    + rewrite Hcat. apply StronglySorted_app. split; [|done]. intros a b Ha Hbb.
      pose proof (next_offset_above _ a H4 Ha). pose proof (proj1 (Forall_forall _ _) Hrange b Hbb). simpl in *. lia.
    + rewrite Hmark, Hparts by (by eexists). f_equal. rewrite wrap_small by (unfold in_u; lia). apply Hsw. lia.
    + rewrite Hmark. lia.
Qed.

(** What a writer never changes. *)
Definition ident (w : PartitionWriter) : string * string * Z * string * WriteConfig :=
  (org_id w, topic w, partition_id w, s3_data_prefix w, config w).

(** The log of the writer after a truncation, and the result of it. *)
Definition truncates (sched : list round_env) (w w' : PartitionWriter) (res : outcome StorageError ()) : Prop :=
  match wal w with
  | None => wal w' = None /\ res = Ok ()
  | Some h => wal w' = Some (fst (truncate sched h)) /\ res = snd (truncate sched h)
  end.

(** The stale files that are removed go from the directory, nothing comes. *)
Definition dir_shrinks (wd wd' : world) : Prop := wal_dir wd' ⊆ wal_dir wd.

Lemma settle_spec env w wd w' wd' res :
  settle env w wd = (w', wd', res) ->
  ident w' = ident w /\ current_offset w' = current_offset w /\ current_segment w' = current_segment w
  /\ buffered_records w' = [] /\ truncates (re_sched env) w w' res
  /\ objects wd' = objects wd /\ catalog wd' = catalog wd /\ dir_shrinks wd wd'.
Proof.
  unfold settle, truncates, ident, dir_shrinks. cbn [wal set_buffered].
  destruct (wal w) as [h|] eqn:Hw; [destruct (truncate (re_sched env) h) as [h' [[]|e|]] eqn:Ht|];
    cbn; intros [= <- <- <-]; cbn; rewrite ?Hw, ?Ht; (split_and!; try done; intros x [_ Hx]%list_elem_of_filter; done).
Qed.

(** Rolling a segment, whatever happens: either the segment is stored, and then the result is
    that of truncating the log, or the call fails and the segment is dropped. *)
Lemma roll_segment_wf committed pending env w wd w' wd' res :
  wf committed pending w wd -> pending <> [] -> len pending < 2 ^ 32 ->
  roll_segment env w wd = (w', wd', res) ->
  ident w' = ident w /\ current_offset w' = current_offset w /\ dir_shrinks wd wd' /\
  ((wf (committed ++ [pending]) [] w' wd' /\ buffered_records w' = [] /\ truncates (re_sched env) w w' res)
   \/ (res <> Ok () /\ wf committed [] w' wd' /\ buffered_records w' = buffered_records w /\ wal w' = wal w)).
Proof.
  intros (Hs & Hp & Hid & Hcur) Hne Hlen. unfold roll_segment.
  destruct (holds_finish _ _ (po_holds _ _ _ _ Hp) Hne (po_records _ _ _ _ Hp) Hlen) as (Hbase & Hlast & out & Hfin & Hdec).
  cbn [set_segment current_segment]. rewrite Hbase, Hlast, Hfin. cbn zeta iota.
  set (info := describe _ _ _ _ _ _).
  pose proof (upload_to_s3_uploads (config w) (re_upload env) (path_from (si_s3_key info)) out (objects wd)) as Hup.
  cbn [config set_segment].
  destruct (upload_to_s3 _ _ _ _ _) as [objs uploaded]. cbn [fst snd] in Hup.
  destruct (first_final pending (po_order _ _ _ _ Hp) Hne (po_records _ _ _ _ Hp)) as (Hfu & _ & Hnext & Hge).
  assert (Hlo : next_offset (concat committed) <= first_offset pending).
  { destruct pending as [|r0 pending]; [done|]. by destruct (proj1 (Forall_cons _ _ _) (po_range _ _ _ _ Hp)) as [[? _] _]. }
  pose proof (store_ok_upload _ _ _ _ _ _ _ _ _ _ Hs Hup Hfu Hlo) as Hs1.
  assert (Hdrop : wf committed [] (set_segment (Writer.new Lz4) w) (mk_world objs (catalog wd) (wal_dir wd))).
  { split; [done|]. split; [|done]. apply pending_new. apply Hp. }
  assert (Hfail : forall r, r <> Ok () ->
    (set_segment (Writer.new Lz4) w, mk_world objs (catalog wd) (wal_dir wd), r) = (w', wd', res) ->
    ident w' = ident w /\ current_offset w' = current_offset w /\ dir_shrinks wd wd' /\
    ((wf (committed ++ [pending]) [] w' wd' /\ buffered_records w' = [] /\ truncates (re_sched env) w w' res)
     \/ (res <> Ok () /\ wf committed [] w' wd' /\ buffered_records w' = buffered_records w /\ wal w' = wal w))).
  { intros r Hr [= <- <- <-]. split; [done|]. split; [done|].
    split; [by intros x|]. right. by split_and!. }
  destruct uploaded as [[]|e|]; [|by apply Hfail..].
  destruct (attempt _ _ _) as [d registered] eqn:Hatt. unfold attempt in Hatt.
  destruct (re_db env) as [e|]; [injection Hatt as <- <-; by apply Hfail|].
  destruct registered as [[]|e|]; [|apply register_fails in Hatt; [|done]; subst d; by apply Hfail..].
  intros Hset. apply settle_spec in Hset as (H1 & H2 & H3 & H4 & H5 & H6 & H7 & H8).
  split; [done|]. split; [done|]. split; [done|]. left. split; [|done].
  assert (Hst : store_ok (org_id w) (topic w) (partition_id w) (s3_data_prefix w) (committed ++ [pending])
                  (mk_world objs d (wal_dir wd))).
  { apply (store_ok_register _ _ _ _ _ pending (mk_world objs (catalog wd) (wal_dir wd)) info); try done.
    - exists out. split; [|done]. by apply Hup.
    - apply Hp.
    - apply Hp.
    - apply (Forall_impl _ _ _ (po_range _ _ _ _ Hp)). lia. }
  injection H1 as Ho Ht Hpi Hpre Hc. unfold wf. rewrite Ho, Ht, Hpi, Hpre, H2, H3. cbn.
  assert (Hcat : concat (committed ++ [pending]) = concat committed ++ pending)
    by (rewrite concat_app; simpl; by rewrite app_nil_r).
  destruct Hst as [S1 S2 S3 S4 S5 S6]. split; [split; [by rewrite H7|by rewrite H6|done|done|by rewrite H7|done]|].
  split; [|done]. apply pending_new. rewrite Hcat, next_offset_app, Hnext by done.
  destruct (list.last pending) as [r|] eqn:Hl; [|by apply last_None in Hl].
  unfold final_offset. rewrite Hl. apply last_Some in Hl as [l' Hl]. pose proof (po_range _ _ _ _ Hp) as Hr.
  pose proof (po_lo _ _ _ _ Hp). rewrite Hl in Hr. apply Forall_app in Hr as [_ [? _]%Forall_cons]. lia.
Qed.

(** ** Appending *)

(** Keys and values the log can frame, and a 64-bit timestamp. *)
Definition input_ok (x : option bytes * bytes * Z) : Prop :=
  in_u 64 x.2 /\ 20 + len (Format.key_bytes x.1.1) + len x.1.2 < 2 ^ 32.

(** The records of the inputs, from an offset on. *)
Fixpoint number (o : Z) (xs : list input) : list Record_ :=
  match xs with [] => [] | x :: xs => mk_record o x.2 x.1.1 x.1.2 :: number (o + 1) xs end.

Lemma length_number o xs : length (number o xs) = length xs.
Proof. revert o. induction xs as [|x xs IH]; intros o; simpl; [done|]. by rewrite IH. Qed.

Lemma number_snoc o xs x : number o (xs ++ [x]) = number o xs ++ [mk_record (o + len xs) x.2 x.1.1 x.1.2].
Proof.
  revert o. induction xs as [|y xs IH]; intros o; simpl; [by rewrite Z.add_0_r|]. rewrite IH.
  replace (o + 1 + len xs) with (o + Z.of_nat (S (length xs))) by lia. done.
Qed.

Lemma record_ok_input o x : input_ok x -> 0 <= o < 2 ^ 63 -> record_ok (mk_record o x.2 x.1.1 x.1.2).
Proof.
  intros [Ht Hl] Ho. unfold record_ok, in_u in *. simpl. split; [lia|]. split; [lia|].
  unfold Format.key_bytes in Hl. split; [destruct x.1.1; simpl in Hl; lia|].
  destruct x.1.1; simpl in Hl; lia.
Qed.

(** The fields [push] leaves alone. *)
Definition kept (w w' : PartitionWriter) : Prop :=
  ident w' = ident w /\ current_offset w' = current_offset w /\ wal w' = wal w.

Lemma push_spec lo o p w x :
  pending_ok lo o p (current_segment w) -> input_ok x -> o < 2 ^ 63 ->
  exists w', push (mk_record o x.2 x.1.1 x.1.2) w = (w', Ok ()) /\ kept w w'
    /\ buffered_records w' = buffered_records w ++ [mk_record o x.2 x.1.1 x.1.2]
    /\ pending_ok lo (o + 1) (p ++ [mk_record o x.2 x.1.1 x.1.2]) (current_segment w').
Proof.
  intros Hp Hx Ho. set (r := mk_record _ _ _ _).
  destruct (pending_push lo o p (current_segment w) r Hp eq_refl) as (s' & Ha & Hs').
  { apply record_ok_input; [done|]. pose proof (po_lo _ _ _ _ Hp). lia. }
  eexists. unfold push. cbn [current_segment set_buffered set_estimate]. rewrite Ha. by split_and!.
Qed.

Lemma push_all_spec xs lo o p w :
  pending_ok lo o p (current_segment w) -> Forall input_ok xs -> o + len xs <= 2 ^ 63 ->
  exists w', push_all o xs w = (w', Ok ()) /\ kept w w'
    /\ buffered_records w' = buffered_records w ++ number o xs
    /\ pending_ok lo (o + len xs) (p ++ number o xs) (current_segment w').
Proof.
  revert o p w. induction xs as [|[[k v] ts] xs IH]; intros o p w Hp Hxs Ho; cbn [push_all number length].
  - exists w. rewrite !app_nil_r, Z.add_0_r. by split_and!.
  - apply Forall_cons in Hxs as [Hx Hxs]. cbn [length] in Ho.
    destruct (push_spec lo o p w (k, v, ts) Hp Hx ltac:(lia)) as (w1 & Hpush & (Hi & Hc & Hw) & Hb & Hp1).
    cbn [fst snd] in Hpush, Hb, Hp1 |- *. rewrite Hpush.
    pose proof (po_lo _ _ _ _ Hp) as Hlo.
    destruct (decide (xs = [])) as [-> |Hne].
    { exists w1. cbn [push_all number length]. replace (o + Z.of_nat 1) with (o + 1) by lia. by split_and!. }
    assert (0 < len xs) by (destruct xs; [done|simpl; lia]).
    rewrite (wrap_small 64 (o + 1)) by (unfold in_u; lia).
    destruct (IH (o + 1) _ w1 Hp1 Hxs ltac:(lia)) as (w2 & Hall & (Hi2 & Hc2 & Hw2) & Hb2 & Hp2).
    exists w2. split; [done|]. split; [unfold kept; by rewrite Hi2, Hc2, Hw2|].
    split; [by rewrite Hb2, Hb, <- app_assoc|]. rewrite <- app_assoc in Hp2.
    replace (o + Z.of_nat (S (length xs))) with (o + 1 + len xs) by lia. done.
Qed.

(** What an append writes to the log. *)
Definition logs (data : bytes) (count : Z) (sched : list round_env) (w w' : PartitionWriter)
    (res : outcome StorageError ()) : Prop :=
  match wal w with
  | None => wal w' = None /\ res = Ok ()
  | Some h =>
      let h' := send (Task.Append data count) h in
      let '(h', r) := if sync_append h' then flush_batch sched h' else (h', Ok ()) in
      wal w' = Some h' /\ res = r
  end.

(** What an append of [xs] does, with the bytes it logs: the offsets are taken in any case,
    the records join the segment and the buffer when the log has accepted them. *)
Definition appends (committed : list (list Record_)) (pending : list Record_) (xs : list input)
    (data : bytes) (sched : list round_env) (w w' : PartitionWriter) (wd : world)
    (res : outcome StorageError (list Z)) : Prop :=
  ident w' = ident w /\ current_offset w' = current_offset w + len xs
  /\ exists logged, logs data (len xs) sched w w' logged /\
     match logged with
     | Ok _ => res = Ok (seqZ (current_offset w) (len xs))
               /\ wf committed (pending ++ number (current_offset w) xs) w' wd
               /\ buffered_records w' = buffered_records w ++ number (current_offset w) xs
     | _ => (forall l, res <> Ok l) /\ wf committed pending w' wd /\ buffered_records w' = buffered_records w
     end.

Lemma append_batch_spec committed pending xs env w wd :
  wf committed pending w wd -> xs <> [] -> Forall input_ok xs -> current_offset w + len xs < 2 ^ 63 ->
  let '(w', res) := append_batch xs env w in
  appends committed pending xs (Format.serialize_batch (map fst xs) (ae_now env)) (ae_sched env) w w' wd res.
Proof.
  intros (Hs & Hp & Hid & Hcur) Hne Hxs Hb. unfold append_batch.
  destruct xs as [|x0 xs0] eqn:Hx; [done|]. rewrite <- Hx in *. clear x0 xs0 Hx.
  pose proof (po_lo _ _ _ _ Hp) as Hlo.
  assert (Hoff : map (fun i => wrap 64 (current_offset w + i)) (seqZ 0 (len xs)) = seqZ (current_offset w) (len xs)).
  { transitivity (map (Z.add (current_offset w)) (seqZ 0 (len xs)));
      [|etransitivity; [apply fmap_add_seqZ|f_equal; lia]].
    apply map_ext_in. intros i Hi%list_elem_of_In%elem_of_seqZ. apply wrap_small. unfold in_u. lia. }
  rewrite Hoff. rewrite (wrap_small 64 (current_offset w + len xs)) by (unfold in_u; lia).
  set (w0 := set_offset _ w).
  assert (Hlog : forall w1 logged,
    (match wal w0 with
     | None => (w0, Ok ())
     | Some h => let '(h, res) := WalHandle.append_batch (map fst xs) (ae_now env) (ae_sched env) h in (set_wal (Some h) w0, res)
     end) = (w1, logged) ->
    w1 = set_wal (wal w1) w0 /\ logs (Format.serialize_batch (map fst xs) (ae_now env)) (len xs) (ae_sched env) w w1 logged).
  { intros w1 logged. unfold logs. change (wal w0) with (wal w).
    destruct (wal w) as [h|] eqn:Hw.
    - destruct xs as [|x xs]; [done|]. cbn [map WalHandle.append_batch]. cbn [length]. rewrite length_map.
      destruct (if sync_append _ then _ else _) as [h' r] eqn:Hf. intros [= <- <-]. done.
    - intros [= <- <-]. split; [|by rewrite <- Hw]. unfold set_wal, w0, set_offset. simpl. by rewrite Hw. }
  destruct (match wal w0 with None => _ | _ => _ end) as [w1 logged] eqn:Hl.
  destruct (Hlog _ _ eq_refl) as [Hw1 Hlogs]. clear Hlog Hl.
  assert (Hseg : current_segment w1 = current_segment w /\ buffered_records w1 = buffered_records w
                 /\ ident w1 = ident w /\ current_offset w1 = current_offset w + len xs)
    by (rewrite Hw1; done). destruct Hseg as (Hseg & Hbuf & Hi & Hc).
  assert (Hwf : forall p' w2, ident w2 = ident w -> current_offset w2 = current_offset w + len xs ->
    pending_ok (next_offset (concat committed)) (current_offset w2) p' (current_segment w2) ->
    wf committed p' w2 wd).
  { intros p' w2 Hi2 Hc2 Hp2. injection Hi2 as Ho Ht Hpi Hpre _. unfold wf. rewrite Ho, Ht, Hpi, Hpre.
    split_and!; try done; lia. }
  destruct logged as [[]|e|].
  - destruct (push_all_spec xs _ (current_offset w) pending w1 ltac:(by rewrite Hseg) Hxs ltac:(lia))
      as (w2 & Hpush & (Hi2 & Hc2 & Hw2) & Hb2 & Hp2).
    rewrite Hpush. split; [by rewrite Hi2|]. split; [by rewrite Hc2|].
    exists (Ok ()). split; [unfold logs in *; by rewrite Hw2|]. split; [done|].
    split; [apply Hwf; [by rewrite Hi2|by rewrite Hc2|by rewrite Hc2, Hc]|by rewrite Hb2, Hbuf].
  - split; [done|]. split; [done|]. exists (Err e). split; [done|]. split; [done|].
    split; [apply Hwf; [done|done|]|done]. rewrite Hseg. apply (pending_wider _ (current_offset w)); [lia|done].
  - split; [done|]. split; [done|]. exists Panic. split; [done|]. split; [done|].
    split; [apply Hwf; [done|done|]|done]. rewrite Hseg. apply (pending_wider _ (current_offset w)); [lia|done].
Qed.
End invariant.
