(* ===== verification/PartitionLogFacts.v ===== *)
(** * The log of a partition

    What the calls of a partition writer ([PartitionWriter]) do to the log a reader sees: the
    records of the stored segments, decoded from the object store, and the buffered ones
    after them. *)

From coqutil Require Import Byte.
From stdpp Require Import pretty sorting.
From S2P Require Import Prelude Core External Segment SegmentFacts Wal WalFacts StorageError WalHandle MetadataError Catalog CatalogFacts PartitionWriter PartitionWriterFacts.

Section log.
Context `{HC : Codecs} `{!CodecLaws HC} `{HP : ObjectPaths} `{!ObjectPathLaws HP} `{HJ : JsonMaps}.

(** ** Reading *)

Definition read_segment (wd : world) (s : SegmentInfo) : option (list Record_) :=
  out ← objects wd !! path_from (si_s3_key s); decode_object out.

(** The records of all segments the catalog lists for the partition, in its order. *)
Definition stored_log (org t : string) (p : Z) (wd : world) : option (list Record_) :=
  (fun l => concat l) <$> mapM (read_segment wd) (get_segments org t p (catalog wd)).

(** No object exceeds what a Rust buffer can hold. *)
Definition objects_fit (wd : world) : Prop := forall k out, objects wd !! k = Some out -> len out < 2 ^ 63.

(** Each segment decodes to its records. *)
Lemma store_ok_chunks org t p prefix committed wd :
  store_ok org t p prefix committed wd -> objects_fit wd ->
  mapM (read_segment wd) (get_segments org t p (catalog wd)) = Some (map (map normalise) committed).
Proof.
  intros [H2 Ho Hok Hi Hm Hb] Hfit.
  change (get_segments org t p (catalog wd)) with (map segment_of_row (partition_rows org t p (catalog wd))).
  clear Hi Hm Hb. revert Ho Hok. induction H2 as [|ch s committed rows (_ & _ & Hk) _ IH]; [done|].
  intros [(out & Hout & Hd) Ho]%Forall_cons [_ Hok]%Forall_cons. cbn [map mapM].
  assert (Hr : read_segment wd (segment_of_row s) = Some (map normalise ch)).
  { unfold read_segment. simpl. rewrite Hk, Hout. simpl. apply (Hd (Hfit _ _ Hout)). }
  rewrite Hr. simpl. by rewrite (IH Ho Hok).
Qed.

Lemma store_ok_log org t p prefix committed wd :
  store_ok org t p prefix committed wd -> objects_fit wd ->
  stored_log org t p wd = Some (map normalise (concat committed)).
Proof.
  intros Hst Hfit. unfold stored_log. rewrite (store_ok_chunks org t p prefix committed wd Hst Hfit). simpl. f_equal. by rewrite concat_map.
Qed.

Lemma read_buffered_spec start n w :
  increasing (buffered_records w) ->
  read_buffered start n w = take n (filter (fun r => start <= r_offset r) (buffered_records w)).
Proof.
  unfold read_buffered. generalize (buffered_records w) as l. intros l Hi. f_equal.
  induction Hi as [|r l Hi IH Hr]; [done|]. rewrite filter_cons.
  destruct (Z.ltb_spec (r_offset r) start).
  - by rewrite decide_False by lia.
  - rewrite decide_True by lia. f_equal. symmetry. apply filter_all. intros x Hx. pose proof (proj1 (Forall_forall _ _) Hr x Hx). simpl in *. lia.
Qed.

(** ** Calls *)

Inductive call : Type :=
| CAppend (x : input) (env : append_env)
| CBatch (xs : list input) (env : append_env)
| CFlush (now : Z) (env : roll_env)
| CFlushDurable (env : roll_env)
| CTick (t : tick).

Inductive answer : Type :=
| Appended (r : outcome StorageError (list Z))
| Flushed (r : outcome StorageError ())
| Ticked.

Definition forget {A} (r : outcome StorageError A) : outcome StorageError () :=
  match r with Ok _ => Ok () | Err e => Err e | Panic => Panic end.

Definition perform_call (c : call) (w : PartitionWriter) (wd : world) : PartitionWriter * world * answer :=
  match c with
  | CAppend (k, v, ts) env =>
      let '(w, r) := append k v ts env w in
      (w, wd, Appended (match r with Ok o => Ok [o] | Err e => Err e | Panic => Panic end))
  | CBatch xs env => let '(w, r) := append_batch xs env w in (w, wd, Appended r)
  | CFlush now env => let '(w, wd, r) := flush now env w wd in (w, wd, Flushed r)
  | CFlushDurable env => let '(w, wd, r) := flush_durable env w wd in (w, wd, Flushed (forget r))
  | CTick t => (set_wal (background t <$> wal w) w, wd, Ticked)
  end.

Definition inputs (c : call) : list input :=
  match c with CAppend x _ => [x] | CBatch xs _ => xs | _ => [] end.

(** The records a client knows to be accepted: what it sent, under the offsets returned. *)
Definition acked (c : call) (a : answer) : list Record_ :=
  match a with
  | Appended (Ok offsets) => zip_with (fun o (x : input) => mk_record o x.2 x.1.1 x.1.2) offsets (inputs c)
  | _ => []
  end.

Definition flush_failed (a : answer) : bool :=
  match a with Flushed (Ok _) => false | Flushed _ => true | _ => false end.

(** The calls in order: the acknowledged records, and whether a flush failed. *)
Fixpoint run (cs : list call) (w : PartitionWriter) (wd : world) : PartitionWriter * world * list Record_ * bool :=
  match cs with
  | [] => (w, wd, [], false)
  | c :: cs =>
      let '(w, wd, a) := perform_call c w wd in
      let '(w, wd, log, failed) := run cs w wd in
      (w, wd, acked c a ++ log, flush_failed a || failed)
  end.

Lemma zip_number o xs :
  zip_with (fun o (x : input) => mk_record o x.2 x.1.1 x.1.2) (seqZ o (len xs)) xs = number o xs.
Proof.
  revert o. induction xs as [|x xs IH]; intros o; [done|]. cbn [length].
  rewrite seqZ_cons by lia. cbn [zip_with number]. f_equal.
  replace (Z.pred (Z.of_nat (S (length xs)))) with (len xs) by lia. apply IH.
Qed.

(** A single append is a batch of one. *)
Lemma append_batch_of_one k v ts env w :
  append k v ts env w =
  let '(w', r) := append_batch [(k, v, ts)] env w in
  (w', match r with Ok _ => Ok (current_offset w) | Err e => Err e | Panic => Panic end).
Proof.
  unfold append, append_batch. cbn [map fst].
  replace (wrap 64 (current_offset w + len [(k, v, ts)])) with (wrap 64 (current_offset w + 1)) by done.
  change (wal (set_offset _ w)) with (wal w). destruct (wal w) as [h|].
  - unfold WalHandle.append, WalHandle.append_batch.
    assert (Hser : Format.serialize_batch [(k, v)] (ae_now env) = Format.serialize_record k v (ae_now env))
      by (unfold Format.serialize_batch; cbn [map concat]; by rewrite app_nil_r).
    rewrite Hser. change (len [(k, v)]) with 1. destruct (if sync_append _ then _ else _) as [h' [[]|e|]]; [|done..].
    cbn [push_all]. by destruct (push _ _) as [w' [[]|e|]].
  - cbn [push_all]. by destruct (push _ _) as [w' [[]|e|]].
Qed.

(** ** The calls preserve the log *)

(** [A] are the records acknowledged so far; as long as no flush has failed ([ok]) they are
    the stored ones and the buffered ones, and in any case nothing else is stored. *)
Record log_inv (ok : bool) (A : list Record_) (w : PartitionWriter) (wd : world)
    (committed : list (list Record_)) (pending : list Record_) : Prop := {
  li_wf : wf committed pending w wd;
  li_sub : (concat committed ++ pending) `sublist_of` A;
  li_order : increasing A;
  li_below : Forall (fun r => r_offset r < current_offset w) A;
  li_buffered : buffered_records w `sublist_of` A;
  li_exact : ok = true -> A = concat committed ++ pending /\ buffered_records w = pending
}.

Lemma increasing_snoc A o xs :
  increasing A -> Forall (fun r => r_offset r < o) A -> increasing (A ++ number o xs).
Proof.
  intros Hi Hb. revert A o Hi Hb. induction xs as [|x xs IH]; intros A o Hi Hb; cbn [number]; [by rewrite app_nil_r|].
  replace (A ++ mk_record o x.2 x.1.1 x.1.2 :: number (o + 1) xs)
    with ((A ++ [mk_record o x.2 x.1.1 x.1.2]) ++ number (o + 1) xs) by (by rewrite <- app_assoc).
  apply IH.
  - apply StronglySorted_app. split; [|split; [done|repeat constructor]].
    intros a b Ha ->%list_elem_of_singleton. by apply (proj1 (Forall_forall _ _) Hb).
  - apply Forall_app. split; [|constructor; [simpl; lia|constructor]]. apply (Forall_impl _ _ _ Hb). lia.
Qed.

Lemma number_below o xs : Forall (fun r => r_offset r < o + len xs) (number o xs).
Proof.
  revert o. induction xs as [|x xs IH]; intros o; constructor.
  - cbn [length r_offset]. lia.
  - specialize (IH (o + 1)). apply (Forall_impl _ _ _ IH). cbn [length]. intros r. lia.
Qed.

(** A batch, or a single append as a batch of one. *)
Lemma log_inv_append ok A w wd committed pending xs env w' r :
  log_inv ok A w wd committed pending -> xs <> [] -> Forall input_ok xs ->
  current_offset w + len xs < 2 ^ 63 -> append_batch xs env w = (w', r) ->
  ident w' = ident w /\ current_offset w' = current_offset w + len xs
  /\ match r with
     | Ok l => l = seqZ (current_offset w) (len xs)
               /\ log_inv ok (A ++ number (current_offset w) xs) w' wd committed (pending ++ number (current_offset w) xs)
     | _ => log_inv ok A w' wd committed pending
     end.
Proof.
  intros [H1 H2 H3 H4 H5 H6] Hne Hxs Hb Ha.
  pose proof (append_batch_spec committed pending xs env w wd H1 Hne Hxs Hb) as Hs. rewrite Ha in Hs.
  destruct Hs as (Hi & Hc & logged & _ & Hl). split; [done|]. split; [done|].
  assert (Hlater : Forall (fun r => r_offset r < current_offset w') A)
    by (apply (Forall_impl _ _ _ H4); intros ?; lia).
  destruct logged as [[]|e|].
  - destruct Hl as (-> & Hwf & Hbuf). split; [done|]. split; [done| | | | |].
    + rewrite app_assoc. by apply sublist_app.
    + by apply increasing_snoc.
    + apply Forall_app. split; [done|]. rewrite Hc. apply number_below.
    + rewrite Hbuf. by apply sublist_app.
    + intros Hok. destruct (H6 Hok) as [-> Hp]. by rewrite Hbuf, Hp, app_assoc.
  - destruct Hl as (Hno & Hwf & Hbuf).
    assert (log_inv ok A w' wd committed pending) by (split; try done; by rewrite Hbuf).
    destruct r as [l|e'|]; [by destruct (Hno l)|done|done].
  - destruct Hl as (Hno & Hwf & Hbuf).
    assert (log_inv ok A w' wd committed pending) by (split; try done; by rewrite Hbuf).
    destruct r as [l|e'|]; [by destruct (Hno l)|done|done].
Qed.

Lemma log_inv_roll ok A w wd committed pending env w' wd' r :
  log_inv ok A w wd committed pending -> pending <> [] -> len pending < 2 ^ 32 ->
  roll_segment env w wd = (w', wd', r) ->
  ident w' = ident w /\ current_offset w' = current_offset w
  /\ exists committed' pending', log_inv (ok && negb (flush_failed (Flushed r))) A w' wd' committed' pending'.
Proof.
  intros [H1 H2 H3 H4 H5 H6] Hne Hlen Hroll.
  destruct (roll_segment_wf _ _ _ _ _ _ _ _ H1 Hne Hlen Hroll) as (Hi & Hc & _ & Hcase).
  split; [done|]. split; [done|].
  destruct Hcase as [(Hwf & Hbuf & _)|(Hr & Hwf & Hbuf & _)].
  - exists (committed ++ [pending]), [].
    assert (Hcat : concat (committed ++ [pending]) ++ [] = concat committed ++ pending)
      by (rewrite concat_app; simpl; by rewrite !app_nil_r).
    split; try done.
    + by rewrite Hcat.
    + by rewrite Hc.
    + rewrite Hbuf. apply sublist_nil_l.
    + rewrite Hcat, Hbuf. intros [Hok _]%andb_true_iff. by destruct (H6 Hok) as [-> _].
  - exists committed, []. split; try done.
    + transitivity (concat committed ++ pending); [|done]. apply sublist_app; [done|apply sublist_nil_l].
    + by rewrite Hc.
    + by rewrite Hbuf.
    + destruct r as [[]|e|]; [by destruct Hr|by rewrite andb_false_r..].
Qed.

Lemma log_inv_call ok A w wd committed pending c w' wd' a :
  log_inv ok A w wd committed pending -> Forall input_ok (inputs c) ->
  len A < 2 ^ 32 -> current_offset w + len (inputs c) < 2 ^ 63 ->
  perform_call c w wd = (w', wd', a) ->
  ident w' = ident w /\ current_offset w' = current_offset w + len (inputs c)
  /\ exists committed' pending',
       log_inv (ok && negb (flush_failed a)) (A ++ acked c a) w' wd' committed' pending'.
Proof.
  intros HI Hin Hlen Hb Hcall.
  assert (Hpl : len pending < 2 ^ 32).
  { pose proof (sublist_length _ _ (li_sub _ _ _ _ _ _ HI)) as Hl. rewrite length_app in Hl. lia. }
  assert (Hcount : Writer.record_count (current_segment w) = len pending).
  { destruct (li_wf _ _ _ _ _ _ HI) as (_ & Hp & _). by apply holds_count; [apply Hp|]. }
  assert (Hroll : forall env r, (w', wd', r) = (if len pending >? 0 then roll_segment env w wd else (w, wd, Ok ())) ->
    ident w' = ident w /\ current_offset w' = current_offset w + 0
    /\ exists c' p', log_inv (ok && negb (flush_failed (Flushed r))) (A ++ []) w' wd' c' p').
  { intros env r Hr. rewrite app_nil_r, Z.add_0_r. destruct (Z.gtb_spec (len pending) 0).
    - apply (log_inv_roll ok A w wd committed pending env); [done|by destruct pending|done|done].
    - injection Hr as -> -> ->. rewrite andb_true_r. split_and!; [done|done|by exists committed, pending]. }
  destruct c as [[[k v] ts] env|xs env|now env|env|t]; cbn [perform_call inputs length] in *.
  - rewrite append_batch_of_one in Hcall. destruct (append_batch _ _ _) as [w1 r] eqn:Ha.
    apply (log_inv_append ok A w wd committed pending) in Ha as (Hi & Hc & Hr); [|done..].
    destruct r as [l|e|]; injection Hcall as <- <- <-; cbn [flush_failed acked inputs]; rewrite andb_true_r;
      (split; [done|split; [done|]]).
    + destruct Hr as [_ Hr]. by eexists _, _.
    + rewrite app_nil_r. by eexists _, _.
    + rewrite app_nil_r. by eexists _, _.
  - destruct (decide (xs = [])) as [-> |Hne].
    { injection Hcall as <- <- <-. cbn [flush_failed acked inputs zip_with]. rewrite andb_true_r, app_nil_r, Z.add_0_r.
      split_and!; [done|done|by exists committed, pending]. }
    destruct (append_batch xs env w) as [w1 r] eqn:Ha.
    apply (log_inv_append ok A w wd committed pending) in Ha as (Hi & Hc & Hr); [|done..].
    injection Hcall as <- <- <-. cbn [flush_failed]. rewrite andb_true_r. split; [done|]. split; [done|].
    destruct r as [l|e|]; cbn [acked inputs].
    + destruct Hr as [-> Hr]. rewrite zip_number. by eexists _, _.
    + rewrite app_nil_r. by eexists _, _.
    + rewrite app_nil_r. by eexists _, _.
  - destruct (flush now env w wd) as [[w1 wd1] r] eqn:Hf. injection Hcall as <- <- <-. cbn [acked].
    unfold flush in Hf. rewrite Hcount in Hf.
    destruct (should_roll_segment now w); rewrite ?andb_true_r, ?andb_false_r in Hf; [by apply (Hroll env)|].
    injection Hf as <- <- <-. cbn [flush_failed]. rewrite andb_true_r, app_nil_r, Z.add_0_r.
    split_and!; [done|done|by exists committed, pending].
  - destruct (flush_durable env w wd) as [[w1 wd1] r] eqn:Hf. injection Hcall as <- <- <-. cbn [acked].
    unfold flush_durable in Hf. rewrite Hcount in Hf. apply (Hroll env).
    destruct (len pending >? 0); [|by injection Hf as <- <- <-].
    by destruct (roll_segment env w wd) as [[w2 wd2] [[]|e|]]; injection Hf as <- <- <-.
  - injection Hcall as <- <- <-. cbn [flush_failed acked]. rewrite andb_true_r, app_nil_r, Z.add_0_r.
    split_and!; [done|done|]. exists committed, pending. destruct HI. by split.
Qed.

Definition run_inputs (cs : list call) : list input := concat (map inputs cs).

Lemma acked_length c a : (length (acked c a) <= length (inputs c))%nat.
Proof. unfold acked. destruct a as [[l| |]| |]; simpl; try lia. rewrite length_zip_with. lia. Qed.

Lemma log_inv_run cs ok A w wd committed pending w' wd' log failed :
  log_inv ok A w wd committed pending -> Forall input_ok (run_inputs cs) ->
  len A + len (run_inputs cs) < 2 ^ 32 -> current_offset w + len (run_inputs cs) < 2 ^ 63 ->
  run cs w wd = (w', wd', log, failed) ->
  ident w' = ident w
  /\ exists committed' pending', log_inv (ok && negb failed) (A ++ log) w' wd' committed' pending'.
Proof.
  revert ok A w wd committed pending log failed.
  induction cs as [|c cs IH]; intros ok A w wd committed pending log failed HI Hin Hlen Hb Hrun.
  - injection Hrun as <- <- <- <-. rewrite app_nil_r, andb_true_r. split; [done|by eexists _, _].
  - unfold run_inputs in *. cbn [map concat] in *. rewrite length_app in Hlen, Hb.
    apply Forall_app in Hin as [Hin1 Hin2]. cbn [run] in Hrun.
    destruct (perform_call c w wd) as [[w1 wd1] a] eqn:Hcall.
    destruct (run cs w1 wd1) as [[[w2 wd2] log2] failed2] eqn:Hr. injection Hrun as <- <- <- <-.
    destruct (log_inv_call ok A w wd committed pending c w1 wd1 a HI Hin1 ltac:(lia) ltac:(lia) Hcall)
      as (Hi & Hc & c1 & p1 & HI1).
    pose proof (acked_length c a). rewrite <- Hi.
    destruct (IH _ _ _ _ _ _ _ _ HI1 Hin2 ltac:(rewrite length_app; lia) ltac:(lia) Hr) as (Hi2 & c2 & p2 & HI2).
    split; [done|]. exists c2, p2. by rewrite negb_orb, andb_assoc, app_assoc.
Qed.

(** ** Opening a writer *)

Definition winput (x : Format.WALRecord) : input := (Format.w_key x, Format.w_value x, Format.w_timestamp x).

Lemma replay_spec rs lo o pending s b :
  pending_ok lo o pending s -> Forall input_ok (map winput rs) -> o + len rs < 2 ^ 63 ->
  exists s', replay rs o s b = Ok (o + len rs, s', b ++ number o (map winput rs))
    /\ pending_ok lo (o + len rs) (pending ++ number o (map winput rs)) s'.
Proof.
  revert o pending s b. induction rs as [|x rs IH]; intros o pending s b Hp Hin Hb.
  - exists s. cbn [replay map number length]. by rewrite !app_nil_r, Z.add_0_r.
  - cbn [map] in Hin. apply Forall_cons in Hin as [Hx Hin]. cbn [length] in Hb.
    pose proof (po_lo _ _ _ _ Hp). cbn [replay map number].
    destruct (pending_push lo o pending s (mk_record o (Format.w_timestamp x) (Format.w_key x) (Format.w_value x)) Hp eq_refl)
      as (s1 & Ha & Hp1); [apply (record_ok_input o (winput x)); [done|lia]|].
    rewrite Ha, wrap_small by (unfold in_u; lia).
    destruct (IH (o + 1) _ s1 (b ++ [mk_record o (Format.w_timestamp x) (Format.w_key x) (Format.w_value x)]) Hp1 Hin
                ltac:(lia)) as (s' & Hr & Hs').
    exists s'. cbn [length]. replace (o + Z.of_nat (S (length rs))) with (o + 1 + len rs) by lia.
    rewrite Hr. by rewrite <- !app_assoc in *.
Qed.

Lemma scan_empty t p c env wd : wal_dir wd = [] -> scan_others t p c env wd = Ok ([], []).
Proof. intros Hd. unfold scan_others. rewrite Hd. destruct (agent_id c), (ne_listed env); done. Qed.

(** The records a new writer finds in its file. *)
Definition recovered (cfg : WriteConfig) (rs : list Format.WALRecord) : list input :=
  match wal_config cfg with Some _ => map winput rs | None => [] end.

(** A new writer goes on after the stored log, with the records of the file as its buffer;
    only the database or the file system can keep it from opening. *)
Lemma new_spec org t p cfg prefix own_file rs env wd committed :
  store_ok org t p prefix committed wd -> 0 <= p < 2 ^ 31 -> wal_dir wd = [] ->
  Format.read_wal_file own_file = Ok rs -> Forall input_ok (map winput rs) ->
  next_offset (concat committed) + len rs < 2 ^ 63 ->
  match new org t p cfg prefix own_file env wd with
  | Ok w =>
      ident w = (org, t, p, prefix, cfg)
      /\ wf committed (number (next_offset (concat committed)) (recovered cfg rs)) w wd
      /\ buffered_records w = number (next_offset (concat committed)) (recovered cfg rs)
      /\ current_offset w = next_offset (concat committed) + len (recovered cfg rs)
      /\ wal w = (fun c => WalHandle.open c own_file) <$> wal_config cfg
  | _ => ne_db env <> None \/ ne_open env <> None
  end.
Proof.
  intros Hs Hp Hdir Hread Hin Hb. unfold new. destruct (ne_db env) as [e|]; [by left|].
  set (o := next_offset (concat committed)) in *.
  assert (Ho : 0 <= o).
  { unfold o, next_offset. destruct (list.last (concat committed)) as [r|] eqn:Hl; [|lia].
    apply last_Some in Hl as [l Hl]. pose proof (so_records _ _ _ _ _ _ Hs) as Hr.
    assert (Hall : Forall record_ok (concat committed)).
    { clear -Hr. induction Hr as [|ch cs [_ Hch] _ IH]; [constructor|]. by apply Forall_app. }
    rewrite Hl in Hall. apply Forall_app in Hall as [_ [(Hu & _) _]%Forall_cons]. unfold in_u in Hu. lia. }
  assert (Hpart : get_partition org t p (catalog wd) = Some (mk_partition t p o)).
  { unfold get_partition. rewrite (so_mark _ _ _ _ _ _ Hs). simpl. fold o. rewrite wrap_small; [done|].
    pose proof (so_bound _ _ _ _ _ _ Hs). unfold in_u. fold o in H. lia. }
  rewrite Hpart. cbn [ok_or mbind outcome_bind p_high_watermark].
  assert (Hrep : forall rs', Forall input_ok (map winput rs') -> o + len rs' < 2 ^ 63 -> exists s',
    replay rs' o (Writer.new Lz4) [] = Ok (o + len rs', s', number o (map winput rs'))
    /\ pending_ok o (o + len rs') (number o (map winput rs')) s').
  { intros rs' Hrs Hb'. by apply (replay_spec rs' o o [] (Writer.new Lz4) []); [apply pending_new; lia|..]. }
  unfold recovered. destruct (wal_config cfg) as [c|] eqn:Hcfg.
  - rewrite scan_empty by done. cbn [mbind outcome_bind].
    destruct (ne_open env) as [e|]; [by right|]. unfold recover.
    rewrite quiet_flush by done.
    change (Task.file (task (WalHandle.open c own_file))) with own_file. rewrite Hread. cbn [mbind outcome_bind app].
    destruct (Hrep rs Hin Hb) as (s' & Hr & Hpo). rewrite Hr. cbn [mbind outcome_bind].
    split; [done|]. rewrite length_map. split; [|by rewrite Hcfg || done].
    split; [done|]. split; [done|]. split; [done|]. cbn. lia.
  - cbn [mbind outcome_bind]. destruct (Hrep [] ltac:(constructor) ltac:(simpl; simpl in Hb; lia)) as (s' & Hr & Hpo).
    rewrite Hr. cbn [mbind outcome_bind]. split; [done|].
    split; [|done]. split; [done|]. split; [done|]. split; [done|]. cbn. lia.
Qed.

(** A partition as [create_topic] leaves it. *)
Definition fresh (org t : string) (p : Z) (wd : world) : Prop :=
  partitions (catalog wd) !! (org, t, p) = Some 0 /\ partition_rows org t p (catalog wd) = [].

Lemma fresh_store_ok org t p prefix wd : fresh org t p wd -> store_ok org t p prefix [] wd.
Proof. intros [Hm Hr]. split; [by rewrite Hr|done|done|constructor|done|done]. Qed.

(** What a run of a writer on a new partition leaves. *)
Lemma fresh_run org t p cfg prefix env cs wd w w' wd' log failed :
  fresh org t p wd -> 0 <= p < 2 ^ 31 -> wal_dir wd = [] ->
  new org t p cfg prefix [] env wd = Ok w ->
  Forall input_ok (run_inputs cs) -> len (run_inputs cs) < 2 ^ 32 ->
  run cs w wd = (w', wd', log, failed) ->
  exists committed pending,
    store_ok org t p prefix committed wd'
    /\ (concat committed ++ pending) `sublist_of` log /\ increasing log
    /\ buffered_records w' `sublist_of` log
    /\ (failed = false -> log = concat committed ++ pending /\ buffered_records w' = pending).
Proof.
  intros Hf Hp Hdir Hnew Hin Hlen Hrun. pose proof (fresh_store_ok org t p prefix wd Hf) as Hs.
  pose proof (new_spec org t p cfg prefix [] [] env wd [] Hs Hp Hdir eq_refl ltac:(constructor)) as Hn.
  rewrite Hnew in Hn. destruct Hn as (Hi & Hwf & Hbuf & Hcur & _); [done|].
  assert (Hrec : recovered cfg [] = []) by (unfold recovered; by destruct (wal_config cfg)).
  rewrite Hrec in Hwf, Hbuf, Hcur. cbn in Hwf, Hbuf, Hcur.
  assert (HI : log_inv true [] w wd [] []).
  { split; [done|done|constructor|constructor|by rewrite Hbuf|done]. }
  destruct (log_inv_run cs true [] w wd [] [] w' wd' log failed HI Hin ltac:(cbn; lia) ltac:(lia) Hrun)
    as (Hi' & committed & pending & [(Hs' & Hp' & _) H2 H3 H4 H5 H6]).
  rewrite Hi in Hi'. injection Hi' as Ho Ht Hpi Hpre _. rewrite Ho, Ht, Hpi, Hpre in Hs'. cbn [app] in *.
  exists committed, pending. split; [done|]. split; [done|]. split; [done|]. split; [done|]. by intros ->; apply H6.
Qed.

(** C16: the log of a partition.  Take any calls of a writer opened on a new partition, with
    any outcome of every access to the object store, the throttle, the database and the log
    file.  At the end the stored segments decode to records that were acknowledged, under
    the offsets they were acknowledged with, in strictly increasing order; the watermark is
    the offset after them.  As long as no flush has failed nothing is missing: the
    acknowledged records are exactly the stored ones followed by the buffered ones, and
    reading the buffer gives those from the requested offset on. *)
Theorem partition_log org t p cfg prefix env cs wd w w' wd' log failed :
  fresh org t p wd -> 0 <= p < 2 ^ 31 -> wal_dir wd = [] ->
  new org t p cfg prefix [] env wd = Ok w ->
  Forall input_ok (run_inputs cs) -> len (run_inputs cs) < 2 ^ 32 ->
  run cs w wd = (w', wd', log, failed) -> objects_fit wd' ->
  exists stored,
    stored_log org t p wd' = Some (map normalise stored)
    /\ stored `sublist_of` log /\ increasing log
    /\ get_partition org t p (catalog wd') = Some (mk_partition t p (next_offset stored))
    /\ (forall start n, read_buffered start n w' = take n (filter (fun r => start <= r_offset r) (buffered_records w')))
    /\ (failed = false -> log = stored ++ buffered_records w').
Proof.
  intros Hf Hp Hdir Hnew Hin Hlen Hrun Hfit.
  destruct (fresh_run org t p cfg prefix env cs wd w w' wd' log failed Hf Hp Hdir Hnew Hin Hlen Hrun)
    as (committed & pending & Hs' & H2 & H3 & H5 & H6).
  exists (concat committed). split; [by eapply store_ok_log|].
  split; [transitivity (concat committed ++ pending); [by apply sublist_inserts_r|done]|]. split; [done|]. split.
  { unfold get_partition. rewrite (so_mark _ _ _ _ _ _ Hs'). simpl. rewrite wrap_small; [done|].
    pose proof (so_bound _ _ _ _ _ _ Hs'). unfold in_u. split; [|lia]. apply next_offset_nonneg, Forall_concat.
    apply (Forall_impl _ _ _ (so_records _ _ _ _ _ _ Hs')). by intros ch [_ ?]. }
  split.
  - intros start n. apply read_buffered_spec. clear -H3 H5.
    induction H5 as [|r l k H5 IH|r l k H5 IH]; [constructor| |].
    + apply StronglySorted_inv in H3 as [H3 Hr]. constructor; [by apply IH|].
      apply Forall_forall. intros x Hx. apply (proj1 (Forall_forall _ _) Hr). by eapply sublist_subseteq.
    + apply StronglySorted_inv in H3 as [H3 _]. by apply IH.
  - intros ->. destruct (H6 eq_refl) as [-> ->]. done.
Qed.

(** ** Batches *)

(** One append after the other. *)
Fixpoint append_each (xs : list input) (env : append_env) (w : PartitionWriter)
  : PartitionWriter * outcome StorageError (list Z) :=
  match xs with
  | [] => (w, Ok [])
  | (k, v, ts) :: xs =>
      match append k v ts env w with
      | (w, Ok o) => let '(w, r) := append_each xs env w in (w, os ← r; Ok (o :: os))
      | (w, Err e) => (w, Err e)
      | (w, Panic) => (w, Panic)
      end
  end.

(** The log of the writer, when there is one, is flushed on every append and can be written. *)
Definition sync_log (w : PartitionWriter) : Prop := forall h, wal w = Some h -> idle h.

Definition logged (xs : list input) (now : Z) (w : PartitionWriter) : option WAL :=
  match wal w with
  | None => None
  | Some h => match xs with [] => Some h | _ => Some (written h (Format.serialize_batch (map fst xs) now)) end
  end.

Lemma push_all_other o xs h q w :
  push_all o xs (set_wal h (set_offset q w)) =
  let '(w', r) := push_all o xs w in (set_wal h (set_offset q w'), r).
Proof.
  revert o w. induction xs as [|[[k v] ts] xs IH]; intros o w; [done|]. cbn [push_all].
  assert (Hp : forall r, push r (set_wal h (set_offset q w)) =
    let '(w', res) := push r w in (set_wal h (set_offset q w'), res)).
  { intros r. unfold push. cbn. by destruct (Writer.append _ _). }
  rewrite Hp. destruct (push _ w) as [w1 [[]|e|]]; [apply IH|done|done].
Qed.

Lemma append_batch_sync xs env w :
  xs <> [] -> sync_log w -> writes_ok (ae_sched env) ->
  append_batch xs env w =
  let '(w', r) := push_all (current_offset w) xs w in
  (set_wal (logged xs (ae_now env) w) (set_offset (wrap 64 (current_offset w + len xs)) w'),
   match r with
   | Ok _ => Ok (map (fun i => wrap 64 (current_offset w + i)) (seqZ 0 (len xs)))
   | Err e => Err e
   | Panic => Panic
   end).
Proof.
  intros Hne Hsync Hok. unfold append_batch, logged. destruct xs as [|x xs]; [done|].
  change (wal (set_offset _ w)) with (wal w). destruct (wal w) as [h|] eqn:Hw.
  - assert (Hb : WalHandle.append_batch (map fst (x :: xs)) (ae_now env) (ae_sched env) h
                 = (written h (Format.serialize_batch (map fst (x :: xs)) (ae_now env)), Ok ())).
    { unfold WalHandle.append_batch. cbn [map]. rewrite (id_sync _ (Hsync h Hw) : sync_append (send _ h) = true).
      apply idle_append; [by apply Hsync|simpl; lia|by apply serialize_batch_nonempty|done]. }
    rewrite Hb. rewrite push_all_other. by destruct (push_all _ _ w) as [w' [[]|e|]].
  - replace (set_offset _ w) with (set_wal None (set_offset (wrap 64 (current_offset w + len (x :: xs))) w)) at 1
      by (unfold set_wal, set_offset; simpl; by rewrite Hw).
    rewrite push_all_other. by destruct (push_all _ _ w) as [w' [[]|e|]].
Qed.

Lemma written_app h a b : written (written h a) b = written h (a ++ b).
Proof.
  unfold written, Task.maybe_sync, Task.set_state. cbn. rewrite <- app_assoc, length_app. f_equal. f_equal; [lia|].
  by destruct (Task.sync_on_flush (task h)).
Qed.

Lemma serialize_batch_app a b now :
  Format.serialize_batch (a ++ b) now = Format.serialize_batch a now ++ Format.serialize_batch b now.
Proof. unfold Format.serialize_batch. by rewrite map_app, concat_app. Qed.

(** [append_batch] is [append] repeated: with a log that is flushed on every append and
    can be written, or without a log, both leave the same writer, log file included, and
    return the same offsets, which are consecutive. *)
Theorem append_batch_each xs env w wd committed pending :
  wf committed pending w wd -> Forall input_ok xs -> current_offset w + len xs < 2 ^ 63 ->
  sync_log w -> writes_ok (ae_sched env) ->
  append_batch xs env w = append_each xs env w
  /\ snd (append_batch xs env w) = Ok (seqZ (current_offset w) (len xs)).
Proof.
  revert w pending. induction xs as [|[[k v] ts] xs IH]; intros w pending Hwf Hin Hb Hsync Hok; [done|].
  pose proof (append_batch_spec committed pending ((k, v, ts) :: xs) env w wd Hwf ltac:(discriminate) Hin Hb) as Hall.
  pose proof (append_batch_sync ((k, v, ts) :: xs) env w ltac:(discriminate) Hsync Hok) as Hs.
  destruct Hwf as (Hst & Hpo & Hid & Hcur).
  destruct (push_all_spec _ _ _ _ _ Hpo Hin ltac:(lia)) as (w2 & Hpush & _). rewrite Hpush in Hs.
  apply Forall_cons in Hin as [Hx Hin]. pose proof (po_lo _ _ _ _ Hpo) as Hlo. cbn [length] in Hb.
  assert (Hsnd : snd (append_batch ((k, v, ts) :: xs) env w) = Ok (seqZ (current_offset w) (len ((k, v, ts) :: xs)))).
  { rewrite Hs in Hall |- *. destruct Hall as (_ & _ & lg & _ & Hall).
    destruct lg as [[]|e|]; [by destruct Hall as [-> _]|destruct Hall as [Hno _]; by destruct (Hno _ eq_refl)..]. }
  split; [|done]. cbn [append_each]. rewrite append_batch_of_one.
  pose proof (append_batch_spec committed pending [(k, v, ts)] env w wd (conj Hst (conj Hpo (conj Hid Hcur))) ltac:(discriminate)
                ltac:(by constructor) ltac:(simpl; lia)) as H1.
  rewrite (append_batch_sync [(k, v, ts)] env w ltac:(discriminate) Hsync Hok) in H1 |- *.
  destruct (push_all_spec [(k, v, ts)] _ _ _ _ Hpo ltac:(by constructor) ltac:(simpl; lia)) as (w1 & Hp1 & (Hi1 & Hc1 & Hw1) & _ & _).
  rewrite Hp1 in H1 |- *. change (len [(k, v, ts)]) with 1 in *.
  set (w1' := set_wal (logged [(k, v, ts)] (ae_now env) w) (set_offset (wrap 64 (current_offset w + 1)) w1)) in *.
  destruct H1 as (_ & Hc1' & lg & _ & H1). change (current_offset w1' = current_offset w + 1) in Hc1'.
  destruct lg as [[]|e|]; [|destruct H1 as [Hno _]; by destruct (Hno _ eq_refl)..]. destruct H1 as (_ & Hwf1 & _).
  assert (Hsync1 : sync_log w1').
  { intros h. unfold w1'. cbn. unfold logged. destruct (wal w) as [h0|] eqn:Hw; [|done].
    intros [= <-]. by apply idle_written, Hsync. }
  destruct (IH w1' _ Hwf1 Hin ltac:(lia) Hsync1 Hok) as [Heach Hoff]. rewrite <- Heach.
  destruct (append_batch xs env w1') as [w3 r3] eqn:Hrest. cbn [snd] in Hoff. subst r3.
  rewrite Hs. cbn [snd] in Hsnd. rewrite Hs in Hsnd. cbn [snd] in Hsnd. rewrite Hsnd.
  assert (Hofs : Ok (seqZ (current_offset w) (len ((k, v, ts) :: xs)))
                 = os ← (Ok (seqZ (current_offset w1') (len xs)) : outcome StorageError (list Z)); Ok (current_offset w :: os)).
  { cbn [mbind outcome_bind length]. rewrite Hc1', seqZ_cons by lia. repeat f_equal. lia. }
  rewrite <- Hofs. f_equal. clear Hofs Hsnd Hs Hall Heach.
  cbn [push_all] in Hp1, Hpush. destruct (push _ w) as [w1p [[]|e|]]; [|discriminate Hp1..].
  injection Hp1 as ->. rewrite (wrap_small 64 (current_offset w + 1)) in Hpush by (unfold in_u; lia).
  destruct (decide (xs = [])) as [-> |Hne].
  - injection Hrest as <-. injection Hpush as <-. done.
  - rewrite (append_batch_sync xs env w1' Hne Hsync1 Hok) in Hrest.
    unfold w1' in Hrest at 1 2. cbn [current_offset set_wal set_offset] in Hrest.
    rewrite (wrap_small 64 (current_offset w + 1)) in Hrest by (unfold in_u; lia).
    rewrite push_all_other, Hpush in Hrest. injection Hrest as <- _.
    replace (len ((k, v, ts) :: xs)) with (1 + len xs) by (simpl length; lia). rewrite Z.add_assoc.
    change (current_offset w1') with (wrap 64 (current_offset w + 1)).
    rewrite (wrap_small 64 (current_offset w + 1)) by (unfold in_u; lia).
    unfold logged, w1'. cbn [wal set_wal]. unfold logged.
    destruct (wal w) as [h|]; [|done]. destruct xs as [|x xs]; [done|]. rewrite written_app.
    by rewrite <- (serialize_batch_app [(k, v)]).
Qed.
End log.
