(* ===== verification/PartitionRecoveryFacts.v ===== *)
(** * Crashes, restarts and failed flushes of a partition writer

    With a log that is flushed on every append, a writer that stops after a failed flush
    loses no acknowledged record; one that goes on loses them. *)

From coqutil Require Import Byte.
From stdpp Require Import pretty sorting.
From S2P Require Import Prelude Core External Segment SegmentFacts Wal WalFacts StorageError WalHandle MetadataError Catalog CatalogFacts PartitionWriter PartitionWriterFacts PartitionLogFacts.

(** ** What of a record survives: its key and value.  The log has a time of its own, and does
    not tell an empty key from none. *)

Abbreviation key_value := (option bytes * bytes)%type.
Definition norm_key (k : option bytes) : option bytes := match k with Some [] => None | k => k end.
Definition kv (r : Record_) : key_value := (norm_key (r_key r), r_value r).
Definition wkv (x : Format.WALRecord) : key_value := (norm_key (Format.w_key x), Format.w_value x).

Lemma kv_normalise rs : map kv (map normalise rs) = map kv rs.
Proof.
  induction rs as [|r rs IH]; [done|]. cbn [map]. rewrite IH. f_equal. unfold kv, normalise. cbn [r_key r_value].
  f_equal. by destruct (r_key r) as [[|]|].
Qed.

Lemma wkv_normalise rs : map wkv (map wal_normalise rs) = map wkv rs.
Proof.
  induction rs as [|r rs IH]; [done|]. cbn [map]. rewrite IH. f_equal. unfold wkv, wal_normalise.
  cbn [Format.w_key Format.w_value]. f_equal. by destruct (Format.w_key r) as [[|]|].
Qed.

Section recovery.
Context `{HC : Codecs} `{!CodecLaws HC} `{HP : ObjectPaths} `{!ObjectPathLaws HP} `{HJ : JsonMaps}.

(** The records an append logs, and the bytes they make. *)
Definition wal_records (now : Z) (xs : list input) : list Format.WALRecord :=
  map (fun x => Format.mk_wal_record x.1.1 x.1.2 now) xs.

Lemma wal_records_bytes now xs :
  Format.serialize_batch (map fst xs) now = concat (map wal_bytes (wal_records now xs)).
Proof.
  unfold Format.serialize_batch, wal_records. rewrite !map_map. f_equal. apply map_ext. by intros [[k v] ts].
Qed.

Lemma wal_records_ok now xs : in_u 64 now -> Forall input_ok xs -> Forall wal_ok (wal_records now xs).
Proof. intros Hn Hxs. induction Hxs as [|x xs [_ Hx] _ IH]; constructor; [by split|done]. Qed.

Lemma wal_records_kv now o xs : map wkv (wal_records now xs) = map kv (number o xs).
Proof. revert o. induction xs as [|x xs IH]; intros o; [done|]. cbn. f_equal. apply IH. Qed.

Lemma replayed_kv o rs : map kv (number o (map winput rs)) = map wkv rs.
Proof. revert o. induction rs as [|x rs IH]; intros o; [done|]. cbn. f_equal. apply IH. Qed.

Lemma normalised_inputs_ok rs : Forall wal_ok rs -> Forall input_ok (map winput (map wal_normalise rs)).
Proof.
  induction 1 as [|x rs [Ht Hl] _ IH]; constructor; [|done]. split; [done|]. cbn.
  destruct (Format.w_key x) as [[|b k]|]; done.
Qed.

(** ** A node that stops when a flush fails

    [Up] is a process with a writer; [Down] has the log file only, as the system shows it and as the disk is known to hold it.
    The end of the process, or the drop of the writer, leaves the file: what the task has queued or batched is lost.
    A crash of the machine keeps of the file what was synced.  Of the writes since then it leaves all ([Whole]), or, behind
    what was synced, any bytes in place of any part of them ([Torn]).  The entry of the file in its directory is taken to
    survive; the code does not sync the directory. *)

Inductive node : Type := Down (own_file disk : bytes) | Up (w : PartitionWriter).

Inductive survival : Type := Whole | Torn (tail : bytes).

Definition left_on_disk (s : survival) (file disk : bytes) : bytes :=
  match s with Whole => file | Torn tail => disk ++ firstn (length file - length disk) tail end.

Definition node_file (nd : node) : bytes :=
  match nd with
  | Down f _ => f
  | Up w => match wal w with Some h => Task.file (task h) | None => [] end
  end.

Definition node_disk (nd : node) : bytes :=
  match nd with
  | Down _ d => d
  | Up w => match wal w with Some h => Task.synced (task h) | None => [] end
  end.

(** The system can know the file better than the disk does when a writer opens it. *)
Definition with_disk (d : bytes) (w : PartitionWriter) : PartitionWriter :=
  match wal w with
  | Some h =>
      let k := task h in
      set_wal (Some (mk_wal (Task.mk_wal_writer (Task.file k) (Task.batch k) (Task.batch_count k) (Task.current_size k)
        (Task.batch_max_records k) (Task.batch_max_bytes k) (Task.sync_on_flush k) d) (queue h) (sync_append h))) w
  | None => w
  end.

(** A call, the end of the process, a crash of the machine, and the start of a process. *)
Inductive event : Type := Call (c : call) | Kill | Crash (s : survival) | Restart (env : new_env).

Variables (org t : string) (p : Z) (cfg : WriteConfig) (prefix : string).

Definition node_step (ev : event) (nd : node) (wd : world) : node * world * list Record_ :=
  match ev, nd with
  | Call c, Up w =>
      let '(w, wd, a) := perform_call c w wd in
      (if flush_failed a then Down (node_file (Up w)) (node_disk (Up w)) else Up w, wd, acked c a)
  | Call _, Down _ _ => (nd, wd, [])
  | Kill, _ => (Down (node_file nd) (node_disk nd), wd, [])
  | Crash s, _ => let f := left_on_disk s (node_file nd) (node_disk nd) in (Down f f, wd, [])
  | Restart env, _ =>
      (match new org t p cfg prefix (node_file nd) env wd with
       | Ok w => Up (with_disk (node_disk nd) w)
       | _ => Down (node_file nd) (node_disk nd)
       end, wd, [])
  end.

Fixpoint run_node (evs : list event) (nd : node) (wd : world) : node * world * list Record_ :=
  match evs with
  | [] => (nd, wd, [])
  | ev :: evs =>
      let '(nd, wd, a) := node_step ev nd wd in
      let '(nd, wd, log) := run_node evs nd wd in
      (nd, wd, a ++ log)
  end.

Definition event_inputs (ev : event) : list input := match ev with Call c => inputs c | _ => [] end.
Definition node_inputs (evs : list event) : list input := concat (map event_inputs evs).

(** The clock is a 64-bit time and the log file can be written; everything else may fail. *)
Definition event_ok (ev : event) : Prop :=
  Forall input_ok (event_inputs ev)
  /\ match ev with
     | Call (CAppend _ env) | Call (CBatch _ env) => in_u 64 (ae_now env) /\ writes_ok (ae_sched env)
     | _ => True
     end.

(** A writer in sync with the log file, which holds at least what it has pending. *)
Record up_inv (A2 : list key_value) (L : list Format.WALRecord) (committed : list (list Record_)) (K : Z)
    (w : PartitionWriter) (wd : world) : Prop := {
  ui_ident : ident w = (org, t, p, prefix, cfg);
  ui_wal : exists h, wal w = Some h /\ idle h /\ Task.sync_on_flush (task h) = true;
  ui_offset : current_offset w <= K;
  ui_pending : exists pending, wf committed pending w wd /\ A2 `sublist_of` map kv pending
                 /\ (length pending <= length L)%nat
}.

(** The acknowledged records [A] are in the stored segments ([A1]) or in the file ([A2]). *)
Record node_inv (n K : Z) (A : list key_value) (nd : node) (wd : world)
    (A1 A2 : list key_value) (L : list Format.WALRecord) (committed : list (list Record_)) : Prop := {
  ni_split : A = A1 ++ A2;
  ni_stored : A1 `sublist_of` map kv (concat committed);
  ni_logged : A2 `sublist_of` map wkv L;
  ni_file : node_file nd = concat (map wal_bytes L);
  ni_records : Forall wal_ok L;
  ni_store : store_ok org t p prefix committed wd;
  ni_length : len L <= n;
  ni_next : next_offset (concat committed) <= K;
  ni_disk : node_disk nd = node_file nd
            \/ A2 = [] /\ L = [] /\ exists L', node_disk nd = concat (map wal_bytes L') /\ Forall wal_ok L' /\ len L' <= n;
  ni_dir : wal_dir wd = [];
  ni_up : match nd with Down _ _ => True | Up w => up_inv A2 L committed K w wd end
}.

Definition safe (n K : Z) (A : list key_value) (nd : node) (wd : world) : Prop :=
  exists A1 A2 L committed, node_inv n K A nd wd A1 A2 L committed.

Lemma safe_down n K A nd wd : safe n K A nd wd -> safe n K A (Down (node_file nd) (node_disk nd)) wd.
Proof. intros (A1 & A2 & L & c & [? ? ? ? ? ? ? ? ? ? _]). exists A1, A2, L, c. by split. Qed.

(** The acknowledged records that are not stored survive a crash of the machine. *)
Lemma safe_crash n K A nd wd s :
  safe n K A nd wd -> let f := left_on_disk s (node_file nd) (node_disk nd) in safe n K A (Down f f) wd.
Proof.
  intros (A1 & A2 & L & c & [H1 H2 H3 H4 H5 H6 H7 H8 Hd H9 _]). cbv zeta.
  destruct Hd as [Hd|(-> & -> & L' & Hd & Hok & Hl)].
  - assert (Hf : left_on_disk s (node_file nd) (node_disk nd) = node_file nd).
    { destruct s as [|tail]; [done|]. cbn. by rewrite Hd, Nat.sub_diag, app_nil_r. }
    rewrite Hf. exists A1, A2, L, c. split; try done. by left.
  - cbn in H4. destruct s as [|tail]; cbn [left_on_disk].
    + exists A1, [], [], c. split; try done. by left.
    + rewrite H4, Nat.sub_0_l, app_nil_r. exists A1, [], L', c. split; try done; [apply sublist_nil_l|by left].
Qed.

Lemma safe_wider n K n' K' A nd wd : n <= n' -> K <= K' -> safe n K A nd wd -> safe n' K' A nd wd.
Proof.
  intros Hn HK (A1 & A2 & L & c & [H1 H2 H3 H4 H5 H6 H7 H8 Hd H9 H10]). exists A1, A2, L, c.
  split; try done; try lia.
  { destruct Hd as [?|(? & ? & L' & ? & ? & ?)]; [by left|right]. split; [done|]. split; [done|]. exists L'. split_and!; [done|done|lia]. }
  destruct nd as [|w]; [done|]. destruct H10 as [U1 U2 U3 U4]. split; try done. lia.
Qed.

Lemma safe_append n K A w wd xs env w' r :
  safe n K A (Up w) wd -> xs <> [] -> Forall input_ok xs -> in_u 64 (ae_now env) -> writes_ok (ae_sched env) ->
  K + len xs < 2 ^ 63 -> append_batch xs env w = (w', r) ->
  r = Ok (seqZ (current_offset w) (len xs))
  /\ safe (n + len xs) (K + len xs) (A ++ map kv (number (current_offset w) xs)) (Up w') wd.
Proof.
  intros (A1 & A2 & L & c & [-> H2 H3 H4 H5 H6 H7 H8 Hd H9 [U1 (h & Hh & Hidle & Hpol) U3 (pending & Hwf & Hsub & Hlen)]])
    Hne Hxs Hnow Hok HK Ha.
  pose proof (append_batch_spec c pending xs env w wd Hwf Hne Hxs ltac:(lia)) as Hs. rewrite Ha in Hs.
  destruct Hs as (Hi & Hc & lg & Hlogs & Hs). unfold logs in Hlogs. rewrite Hh in Hlogs.
  assert (Hsync : sync_append (send (Task.Append (Format.serialize_batch (map fst xs) (ae_now env)) (len xs)) h) = true)
    by apply Hidle.
  rewrite Hsync, idle_append in Hlogs; [|done|destruct xs; [done|simpl; lia]
    |apply serialize_batch_nonempty; by destruct xs|done].
  destruct Hlogs as [Hw' ->]. destruct Hs as (-> & Hwf' & Hbuf). split; [done|].
  exists A1, (A2 ++ map kv (number (current_offset w) xs)), (L ++ wal_records (ae_now env) xs), c.
  cbn [node_file] in H4. rewrite Hh in H4. split.
  - by rewrite app_assoc.
  - done.
  - rewrite map_app, (wal_records_kv _ (current_offset w)). by apply sublist_app.
  - cbn [node_file]. rewrite Hw'. cbn. rewrite H4, wal_records_bytes, map_app, concat_app. done.
  - apply Forall_app. split; [done|by apply wal_records_ok].
  - done.
  - unfold wal_records. rewrite length_app, length_map. lia.
  - lia.
  - left. cbn [node_disk node_file]. rewrite Hw'. cbn. by rewrite Hpol.
  - done.
  - split; [by rewrite Hi|exists (written h (Format.serialize_batch (map fst xs) (ae_now env))); split_and!; [done|by apply idle_written|done]|lia|].
    exists (pending ++ number (current_offset w) xs). split; [done|]. split; [rewrite map_app; by apply sublist_app|].
    unfold wal_records. rewrite !length_app, length_number, length_map. lia.
Qed.

Lemma safe_roll n K A w wd env w' wd' r :
  safe n K A (Up w) wd -> n < 2 ^ 32 -> (Writer.record_count (current_segment w) >? 0) = true ->
  roll_segment env w wd = (w', wd', r) ->
  safe n K A (match r with Ok _ => Up w' | _ => Down (node_file (Up w')) (node_disk (Up w')) end) wd'.
Proof.
  intros (A1 & A2 & L & c & [-> H2 H3 H4 H5 H6 H7 H8 Hd H9 [U1 (h & Hh & Hidle & Hpol) U3 (pending & Hwf & Hsub & Hlen)]]) Hn Hcount Hroll.
  pose proof Hwf as (Hst & Hpo & Hid & Hcur).
  rewrite (holds_count pending) in Hcount by (apply Hpo || lia).
  assert (Hne : pending <> []) by (by destruct pending).
  destruct (roll_segment_wf c pending env w wd w' wd' r Hwf Hne ltac:(lia) Hroll) as (Hi & Hc & Hdir & Hcase).
  assert (Hd' : wal_dir wd' = []) by (unfold dir_shrinks in Hdir; rewrite H9 in Hdir; by apply list_nil_subseteq in Hdir).
  rewrite U1 in Hi. injection Hi as Ho Ht Hp Hpre Hcfg. cbn [node_file] in H4. rewrite Hh in H4.
  cbn [node_file node_disk] in Hd. rewrite Hh in Hd.
  destruct Hcase as [(Hwf2 & _ & Htr)|(Hr & Hwf2 & _ & Hwal)].
  - unfold truncates in Htr. rewrite Hh in Htr. pose proof (idle_truncate (re_sched env) h Hidle) as Hit.
    destruct (truncate (re_sched env) h) as [h' r']. destruct Htr as [Hw' ->]. destruct Hit as (Hidle' & Hfile & Hpol' & Hsyn).
    cbn [fst snd] in *. rewrite Hpol in Hpol'.
    assert (Hdown : forall L', L' = [] /\ Task.file (task h') = [] \/ L' = L /\ Task.file (task h') = Task.file (task h) ->
      Task.synced (task h') = Task.file (task h')
      \/ [] = ([] : list key_value) /\ L' = [] /\ exists L'', Task.synced (task h') = concat (map wal_bytes L'') /\ Forall wal_ok L'' /\ len L'' <= n).
    { intros L' HL'. destruct Hsyn as [Hsyn|[Hsyn1 Hsyn2]]; [|left; congruence].
      destruct HL' as [[-> Hf']|[-> Hf']]; destruct Hd as [Hd|(_ & -> & L'' & Hd & Hok'' & Hl'')].
      - right. split; [done|]. split; [done|]. exists L. rewrite Hsyn, Hd. done.
      - right. split; [done|]. split; [done|]. exists L''. by rewrite Hsyn.
      - left. congruence.
      - right. split; [done|]. split; [done|]. exists L''. by rewrite Hsyn. }
    assert (Hcat : concat (c ++ [pending]) = concat c ++ pending) by (rewrite concat_app; simpl; by rewrite app_nil_r).
    assert (Hstored : (A1 ++ A2) `sublist_of` map kv (concat (c ++ [pending])))
      by (rewrite Hcat, map_app; by apply sublist_app).
    destruct Hwf2 as (Hst2 & Hpo2 & Hid2 & Hcur2). rewrite Ho, Ht, Hp, Hpre in Hst2.
    assert (Hnext : next_offset (concat (c ++ [pending])) <= K).
    { pose proof (po_lo _ _ _ _ Hpo2). lia. }
    destruct Hfile as [Hfile|[Hfile [e ->]]].
    + exists (A1 ++ A2), [], [], (c ++ [pending]). split; try done.
      * by rewrite app_nil_r.
      * destruct r' as [[]|e|]; cbn [node_file]; by rewrite Hw', ?Hfile.
      * pose proof (Zle_0_nat (length L)). simpl. lia.
      * destruct r' as [[]|e|]; cbn [node_file node_disk]; rewrite Hw'; by apply Hdown; left.
      * destruct r' as [[]|e|]; [|done|done]. split; [unfold ident; by rewrite Ho, Ht, Hp, Hpre, Hcfg|by exists h'|lia|].
        exists []. split; [|done]. unfold wf. rewrite Ho, Ht, Hp, Hpre. by rewrite Hp in Hid2.
    + exists (A1 ++ A2), [], L, (c ++ [pending]). split; try done.
      * by rewrite app_nil_r.
      * apply sublist_nil_l.
      * cbn [node_file]. by rewrite Hw', Hfile.
      * cbn [node_file node_disk]. rewrite Hw'. by apply Hdown; right.
  - destruct Hwf2 as (Hst2 & _). rewrite Ho, Ht, Hp, Hpre in Hst2.
    assert (Hf : node_file (Up w') = concat (map wal_bytes L)) by (cbn [node_file]; by rewrite Hwal, Hh).
    assert (Hf2 : node_disk (Up w') = Task.synced (task h) /\ node_file (Up w') = Task.file (task h)) by (cbn; by rewrite Hwal, Hh).
    destruct Hf2 as [Hf2 Hf3]. rewrite <- Hf2, <- Hf3 in Hd.
    exists A1, A2, L, c. destruct r as [[]|e|]; [by destruct Hr|by split|by split].
Qed.

(** From here on the writer has a log that is flushed on every append. *)
Variables (wc : WALConfig) (Hwc : wal_config cfg = Some wc) (Hsync : batch_enabled wc = false) (Hpolicy : sync_policy wc <> Never).
Hypothesis (Hp : 0 <= p < 2 ^ 31).

(** Opening on the file of a safe node: the writer buffers exactly the records of the file. *)
Lemma safe_new n K A f d wd env :
  safe n K A (Down f d) wd -> 0 <= n -> K + n < 2 ^ 63 ->
  match new org t p cfg prefix f env wd with
  | Ok w => safe n (K + n) A (Up (with_disk d w)) wd
            /\ exists rs, Format.read_wal_file f = Ok rs /\ map kv (buffered_records w) = map wkv rs
  | _ => ne_db env <> None \/ ne_open env <> None
  end.
Proof.
  intros (A1 & A2 & L & c & [H1 H2 H3 H4 H5 H6 H7 H8 Hd H9 _]) Hn HK. cbn [node_file node_disk] in H4, Hd.
  assert (Hread : Format.read_wal_file f = Ok (map wal_normalise L)) by (rewrite H4; by apply read_records).
  pose proof (new_spec org t p cfg prefix f (map wal_normalise L) env wd c H6 Hp H9 Hread
                (normalised_inputs_ok L H5) ltac:(rewrite length_map; lia)) as Hnew.
  destruct (new org t p cfg prefix f env wd) as [w|e|]; [|done|done].
  unfold recovered in Hnew. rewrite Hwc in Hnew. destruct Hnew as (Hi & Hwf & Hbuf & Hcur & Hw).
  assert (Hkv : forall o, map kv (number o (map winput (map wal_normalise L))) = map wkv L)
    by (intros o; by rewrite replayed_kv, wkv_normalise).
  split.
  - unfold with_disk. rewrite Hw. cbn [WalHandle.open]. 
    exists A1, A2, L, c. split; try done; [lia|].
    split; [done|eexists; split; [done|]; split; [by destruct (idle_open wc f Hsync)|]| |].
    + cbn. by destruct (sync_policy wc).
    + cbn. rewrite Hcur, !length_map. lia.
    + eexists. split; [exact Hwf|]. rewrite Hkv. split; [done|].
      by rewrite length_number, !length_map.
  - exists (map wal_normalise L). split; [done|]. by rewrite Hbuf, Hkv, wkv_normalise.
Qed.

Lemma flush_of_empty n K A w wd :
  safe n K A (Up w) wd -> n < 2 ^ 32 ->
  Writer.record_count (current_segment w) = 0 \/ (Writer.record_count (current_segment w) >? 0) = true.
Proof.
  intros (A1 & A2 & L & c & [_ _ _ _ _ _ H7 _ _ _ [_ _ _ (pending & (_ & Hpo & _) & _ & Hlen)]]) Hn.
  rewrite (holds_count pending) by (apply Hpo || lia). destruct pending; [by left|right; done].
Qed.

Lemma safe_step ev n K A nd wd nd' wd' a :
  safe n K A nd wd -> event_ok ev -> 0 <= n -> n < 2 ^ 32 -> K + Z.max n (len (event_inputs ev)) < 2 ^ 63 ->
  node_step ev nd wd = (nd', wd', a) ->
  safe (n + len (event_inputs ev)) (K + Z.max n (len (event_inputs ev))) (A ++ map kv a) nd' wd'.
Proof.
  intros HS [Hin Hev] Hn0 Hn HK Hstep.
  assert (Hw0 : forall nd0 wd0, safe n K A nd0 wd0 -> safe (n + len (event_inputs ev)) (K + Z.max n (len (event_inputs ev))) A nd0 wd0).
  { intros nd0 wd0. apply safe_wider; lia. }
  destruct ev as [c| |s|env]; cbn [node_step] in Hstep.
  - destruct nd as [f d|w]; [injection Hstep as <- <- <-; rewrite app_nil_r; by apply Hw0|].
    destruct (perform_call c w wd) as [[w1 wd1] r] eqn:Hcall. injection Hstep as <- <- <-.
    assert (Happ : forall xs env r1 w2, xs <> [] -> event_inputs (Call c) = xs -> Forall input_ok xs ->
      in_u 64 (ae_now env) -> writes_ok (ae_sched env) -> append_batch xs env w = (w2, r1) ->
      r1 = Ok (seqZ (current_offset w) (len xs))
      /\ safe (n + len xs) (K + Z.max n (len xs)) (A ++ map kv (number (current_offset w) xs)) (Up w2) wd).
    { intros xs env r1 w2 Hne Heq Hxs Hnow Hok Ha. rewrite Heq in HK.
      destruct (safe_append n K A w wd xs env w2 r1 HS Hne Hxs Hnow Hok ltac:(lia) Ha) as [-> HS'].
      split; [done|]. revert HS'. apply safe_wider; lia. }
    assert (Hroll : forall env w2 wd2 (r2 : outcome StorageError ()),
      (if Writer.record_count (current_segment w) >? 0 then roll_segment env w wd else (w, wd, Ok ())) = (w2, wd2, r2) ->
      safe n K A (if flush_failed (Flushed r2) then Down (node_file (Up w2)) (node_disk (Up w2)) else Up w2) wd2).
    { intros env w2 wd2 r2 Hr. destruct (flush_of_empty n K A w wd HS Hn) as [H0|H0].
      - rewrite H0 in Hr. by injection Hr as <- <- <-.
      - rewrite H0 in Hr. pose proof (safe_roll n K A w wd env w2 wd2 r2 HS Hn H0 Hr) as HS'.
        by destruct r2 as [[]|e|]. }
    destruct c as [[[k v] ts] env|xs env|now env|env|tk]; cbn [perform_call event_inputs inputs] in *.
    + rewrite append_batch_of_one in Hcall. destruct (append_batch _ _ _) as [w2 r2] eqn:Ha.
      destruct Hev as [Hnow Hok].
      destruct (Happ [(k, v, ts)] _ _ _ ltac:(discriminate) eq_refl Hin Hnow Hok Ha) as [-> HS']. injection Hcall as <- <- <-.
      cbn [acked flush_failed]. exact HS'.
    + destruct (append_batch xs env w) as [w2 r2] eqn:Ha. injection Hcall as <- <- <-. cbn [flush_failed].
      destruct (decide (xs = [])) as [-> |Hne].
      * injection Ha as <- <-. cbn. rewrite app_nil_r. by apply Hw0.
      * destruct Hev as [Hnow Hok]. destruct (Happ _ _ _ _ Hne eq_refl Hin Hnow Hok Ha) as [-> HS'].
        cbn [acked inputs]. rewrite zip_number. exact HS'.
    + destruct (flush now env w wd) as [[w2 wd2] r2] eqn:Hf. injection Hcall as <- <- <-.
      cbn [acked]. rewrite app_nil_r. apply Hw0. unfold flush in Hf.
      destruct (should_roll_segment now w); [rewrite andb_true_r in Hf; by apply (Hroll env)|].
      rewrite andb_false_r in Hf. by injection Hf as <- <- <-.
    + destruct (flush_durable env w wd) as [[w2 wd2] r2] eqn:Hf. injection Hcall as <- <- <-.
      cbn [acked]. rewrite app_nil_r. apply Hw0. unfold flush_durable in Hf. apply (Hroll env).
      destruct (Writer.record_count (current_segment w) >? 0); [|by injection Hf as <- <- <-].
      by destruct (roll_segment env w wd) as [[w3 wd3] [[]|e|]]; injection Hf as <- <- <-.
    + injection Hcall as <- <- <-. cbn [acked flush_failed]. rewrite app_nil_r. apply Hw0.
      pose proof HS as (A1 & A2 & L & c & [_ _ _ _ _ _ _ _ _ _ [_ (h & Hh & Hidle & _) _ _]]).
      rewrite Hh. cbn. rewrite idle_background by done. rewrite <- Hh. by destruct w.
  - injection Hstep as <- <- <-. rewrite app_nil_r. by apply Hw0, safe_down.
  - injection Hstep as <- <- <-. rewrite app_nil_r. by apply Hw0, safe_crash.
  - injection Hstep as <- <- <-. rewrite app_nil_r. cbn [event_inputs length] in *.
    pose proof (safe_new n K A _ _ wd env (safe_down _ _ _ _ _ HS) Hn0 ltac:(lia)) as Hnew.
    destruct (new org t p cfg prefix (node_file nd) env wd); [|by apply Hw0, safe_down..].
    destruct Hnew as [HS' _]. revert HS'. apply safe_wider; lia.
Qed.

Lemma safe_run evs n K A nd wd nd' wd' log N :
  safe n K A nd wd -> Forall event_ok evs -> 0 <= n -> n + len (node_inputs evs) <= N -> N < 2 ^ 32 ->
  K + len evs * N < 2 ^ 63 -> run_node evs nd wd = (nd', wd', log) ->
  safe N (K + len evs * N) (A ++ map kv log) nd' wd'.
Proof.
  revert n K A nd wd log. induction evs as [|ev evs IH]; intros n K A nd wd log HS Hok Hn HN HN2 HK Hrun.
  - injection Hrun as <- <- <-. cbn. rewrite app_nil_r, Z.add_0_r. revert HS. apply safe_wider; simpl in HN; lia.
  - apply Forall_cons in Hok as [Hev Hok]. unfold node_inputs in *. cbn [map concat] in HN. rewrite length_app in HN.
    cbn [run_node] in Hrun. destruct (node_step ev nd wd) as [[nd1 wd1] a] eqn:Hstep.
    destruct (run_node evs nd1 wd1) as [[nd2 wd2] log2] eqn:Hr. injection Hrun as <- <- <-.
    replace (len (ev :: evs)) with (1 + len evs) in * by (simpl length; lia).
    assert (HS1 : safe (n + len (event_inputs ev)) (K + N) (A ++ map kv a) nd1 wd1).
    { pose proof (safe_step ev n K A nd wd nd1 wd1 a HS Hev Hn ltac:(lia) ltac:(nia) Hstep) as HS1.
      revert HS1. apply safe_wider; lia. }
    pose proof (IH _ _ _ _ _ _ HS1 Hok ltac:(lia) ltac:(lia) HN2 ltac:(nia) Hr) as HS2.
    rewrite map_app, app_assoc. revert HS2. apply safe_wider; lia.
Qed.

End recovery.

Section failed_flush.
Context `{HC : Codecs} `{!CodecLaws HC} `{HP : ObjectPaths} `{!ObjectPathLaws HP} `{HJ : JsonMaps}.

(** A writer that goes on after a failed flush loses acknowledged records.  The failed
    flush has taken the segment away; the records are still read from the buffer and kept
    in the log file.  The next flush that succeeds stores the records appended since, and
    with that empties the buffer and the file: the records before are nowhere. *)
Theorem failed_flush_loses committed pending w wd env1 w1 wd1 e k v ts aenv w2 o env2 w3 wd3 r :
  wf committed pending w wd -> pending <> [] -> buffered_records w = pending -> len pending < 2 ^ 32 ->
  current_offset w + 1 < 2 ^ 63 -> input_ok (k, v, ts) -> sync_log w -> writes_ok (ae_sched aenv) ->
  flush_durable env1 w wd = (w1, wd1, Err e) -> buffered_records w1 <> [] ->
  append k v ts aenv w1 = (w2, Ok o) ->
  flush_durable env2 w2 wd1 = (w3, wd3, Ok r) -> objects_fit wd3 ->
  stored_log (org_id w) (topic w) (partition_id w) wd3 =
    Some (map normalise (concat committed ++ [mk_record o ts k v]))
  /\ o = current_offset w /\ buffered_records w1 = pending /\ buffered_records w3 = []
  /\ forall h, wal w3 = Some h -> Task.file (task h) = [].
Proof.
  intros Hwf Hne Hbuf Hlen Hcur Hin Hsync Hok Hf1 Hb1 Happ Hf2 Hfit.
  pose proof Hwf as (_ & Hpo & _). unfold flush_durable in Hf1, Hf2.
  rewrite (holds_count pending) in Hf1 by (apply Hpo || done).
  assert (Hpos : (len pending >? 0) = true) by (destruct pending; done). rewrite Hpos in Hf1.
  destruct (roll_segment env1 w wd) as [[w1' wd1'] r1] eqn:Hr1.
  assert (w1' = w1 /\ wd1' = wd1) as [-> ->] by (destruct r1 as [[]|?|]; by injection Hf1).
  destruct (roll_segment_wf _ _ _ _ _ _ _ _ Hwf Hne Hlen Hr1) as (Hi1 & Hc1 & _ & [(_ & Hb & _)|(_ & Hwf1 & Hb & Hw1)]); [done|].
  rewrite append_batch_of_one in Happ. destruct (append_batch _ _ w1) as [w2' ra] eqn:Ha.
  pose proof (append_batch_spec committed [] [(k, v, ts)] aenv w1 wd1 Hwf1 ltac:(discriminate) ltac:(by constructor)
                ltac:(simpl; lia)) as Hs. rewrite Ha in Hs.
  destruct Hs as (Hi2 & _ & lg & Hlogs & Hs).
  assert (Hra : exists l, ra = Ok l) by (destruct ra; try discriminate Happ; by eexists). destruct Hra as [l ->].
  injection Happ as <- <-. destruct lg as [[]|?|]; [|destruct Hs as [Hno _]; by destruct (Hno l)..].
  destruct Hs as (_ & Hwf2 & _). pose proof Hwf2 as (_ & Hpo2 & _). cbn [app number fst snd] in Hwf2, Hpo2.
  assert (Hidle : forall h, wal w2' = Some h -> idle h).
  { intros h Hh. unfold logs in Hlogs. rewrite Hw1 in Hlogs. destruct (wal w) as [h0|] eqn:Hw; [|destruct Hlogs; congruence].
    pose proof (Hsync h0 Hw) as Hid0.
    rewrite (id_sync _ Hid0 : sync_append (send _ h0) = true) in Hlogs.
    rewrite idle_append in Hlogs; [|done|simpl; lia|by apply serialize_batch_nonempty|done].
    destruct Hlogs as [Hlogs _]. rewrite Hh in Hlogs. injection Hlogs as ->. by apply idle_written. }
  rewrite (holds_count [mk_record (current_offset w1) ts k v]) in Hf2 by (apply Hpo2 || done).
  cbn [length] in Hf2. change (Z.of_nat 1 >? 0) with true in Hf2.
  destruct (roll_segment env2 w2' wd1) as [[w3' wd3'] r3] eqn:Hr3.
  assert (w3' = w3 /\ wd3' = wd3 /\ r3 = Ok ()) as (-> & -> & ->).
  { destruct r3 as [[]|?|]; try discriminate Hf2. by injection Hf2 as -> ->. }
  destruct (roll_segment_wf _ _ _ _ _ _ _ _ Hwf2 ltac:(discriminate) ltac:(done) Hr3)
    as (Hi3 & _ & _ & [(Hwf3 & Hb3 & Htr)|(Hno & _)]); [|done].
  rewrite Hi2, Hi1 in Hi3. injection Hi3 as Ho Ht Hp Hpre _. destruct Hwf3 as (Hst3 & _).
  rewrite Ho, Ht, Hp, Hpre in Hst3. split_and!.
  - rewrite (store_ok_log _ _ _ _ _ _ Hst3 Hfit). rewrite concat_app. simpl. by rewrite Hc1.
  - done.
  - by rewrite Hb.
  - done.
  - intros h Hh. unfold truncates in Htr. destruct (wal w2') as [h2|] eqn:Hw2; [|destruct Htr; congruence].
    pose proof (idle_truncate (re_sched env2) h2 (Hidle h2 eq_refl)) as Hit.
    destruct (truncate (re_sched env2) h2) as [h' r']. destruct Htr as [Hw3 Hr']. cbn [fst snd] in *.
    rewrite Hh in Hw3. injection Hw3 as ->. destruct Hit as (_ & [Hit|[_ [err Hit]]] & _); [done|].
    by rewrite Hit in Hr'.
Qed.
End failed_flush.
