(* ===== verification/PartitionExamples.v ===== *)
(** * The partition writer at work

    A topic with one partition, and runs of its writer that show the theorems of
    [PartitionLogFacts] and [PartitionRecoveryFacts] on concrete inputs. *)

From coqutil Require Import Byte.
From S2P Require Import Prelude Core External Segment Wal StorageError WalHandle MetadataError Catalog CatalogFacts PartitionWriter PartitionWriterFacts PartitionLogFacts PartitionRecoveryFacts.

Definition acme_db : db :=
  fst (create_topic_for_org "acme" (mk_topic_config "orders" 1 None Delete ∅) 5
         (ensure_organization "acme" empty_db)).
Definition acme : world := mk_world ∅ acme_db [].

Definition good_put : put_env := mk_put_env Allow PutOk.
Definition bad_put : put_env := mk_put_env Allow (PutErr "503 SlowDown" false).
Definition no_multipart : multipart_env := mk_multipart_env Allow None (fun _ => None) PutOk.
Definition roll (put_with : put_env) (now : Z) : roll_env :=
  mk_roll_env now (mk_upload_env (fun _ => put_with) no_multipart) now None [] (fun _ => true) now.
Definition opening : new_env := mk_new_env None true None [] 0.
Definition clock (now : Z) : append_env := mk_append_env now [].

Definition order (n : Byte.byte) (ts : Z) : input := (Some [n], [n; n], ts).

Ltac by_computation := vm_compute; reflexivity.
Ltac inputs_fit := repeat (constructor; [split; [unfold in_u; simpl; lia|simpl; lia]|]); constructor.

Lemma acme_fresh : fresh "acme" "orders" 0 acme.
Proof. split; by_computation. Qed.

(** Calls that all work; the last flush is too early to roll. *)
Definition calls : list call :=
  [CAppend (order Init.Byte.x01 10) (clock 11);
   CBatch [order Init.Byte.x02 12; (None, [Init.Byte.x09], 13)] (clock 14);
   CFlushDurable (roll good_put 20);
   CAppend (order Init.Byte.x03 21) (clock 22);
   CFlush 23 (roll good_put 23)].

Definition fits_now (wd : world) : bool := bool_decide (map_Forall (fun _ out => len out < 2 ^ 63) (objects wd)).

Lemma fits_now_fits wd : fits_now wd = true -> objects_fit wd.
Proof. intros H%bool_decide_eq_true_1 k out Hk. by apply (H k out). Qed.

Lemma partition_log_witness :
  exists w' wd' log stored,
    stored_log "acme" "orders" 0 wd' = Some (map SegmentFacts.normalise stored)
    /\ length stored = 3%nat /\ log = stored ++ buffered_records w' /\ length log = 4%nat.
Proof.
  destruct (new "acme" "orders" 0 default_write_config "data" [] opening acme) as [w|e|] eqn:Hnew;
    [|exfalso; apply (f_equal (fun r => match r with Ok _ => true | _ => false end)) in Hnew; vm_compute in Hnew;
      discriminate Hnew..].
  destruct (run calls w acme) as [[[w' wd'] log] failed] eqn:Hrun.
  assert (Hfacts : match new "acme" "orders" 0 default_write_config "data" [] opening acme with
                   | Ok w => let '(w', wd', log, failed) := run calls w acme in
                             fits_now wd' && negb failed && (length log =? 4)%nat
                             && (length (buffered_records w') =? 1)%nat
                   | _ => false
                   end = true) by by_computation.
  rewrite Hnew, Hrun in Hfacts.
  apply andb_true_iff in Hfacts as [[[Hfit Hfail%negb_true_iff]%andb_true_iff Hlog%Nat.eqb_eq]%andb_true_iff Hb%Nat.eqb_eq].
  destruct (partition_log "acme" "orders" 0 default_write_config "data" opening calls acme w w' wd' log failed)
    as (stored & Hst & _ & _ & _ & _ & Hexact).
  - exact acme_fresh.
  - lia.
  - reflexivity.
  - exact Hnew.
  - inputs_fit.
  - reflexivity.
  - exact Hrun.
  - by apply fits_now_fits.
  - exists w', wd', log, stored. split; [exact Hst|]. specialize (Hexact Hfail).
    split; [|by split]. rewrite Hexact, length_app, Hb in Hlog. lia.
Defined.

(** The writer opened on the new partition. *)
Lemma opened w :
  new "acme" "orders" 0 default_write_config "data" [] opening acme = Ok w ->
  wf [] [] w acme /\ buffered_records w = [] /\ current_offset w = 0 /\ sync_log w
  /\ ident w = ("acme"%string, "orders"%string, 0, "data"%string, default_write_config).
Proof.
  intros Hnew. pose proof (new_spec "acme" "orders" 0 default_write_config "data" [] [] opening acme []
    (fresh_store_ok _ _ _ _ _ acme_fresh) ltac:(lia) eq_refl eq_refl ltac:(constructor) ltac:(reflexivity)) as H.
  rewrite Hnew in H. destruct H as (Hi & Hwf & Hb & Hc & Hw). split; [exact Hwf|]. split; [exact Hb|].
  split; [exact Hc|]. split; [|exact Hi]. intros h Hh. rewrite Hw in Hh. cbn in Hh. injection Hh as <-.
  by apply idle_open.
Qed.

Lemma opens : exists w, new "acme" "orders" 0 default_write_config "data" [] opening acme = Ok w.
Proof.
  destruct (new "acme" "orders" 0 default_write_config "data" [] opening acme) as [w|e|] eqn:Hnew; [by exists w|..];
    exfalso; apply (f_equal (fun r => match r with Ok _ => true | _ => false end)) in Hnew; vm_compute in Hnew;
    discriminate Hnew.
Qed.

Lemma append_batch_each_witness :
  exists w, append_batch [order Init.Byte.x01 10; order Init.Byte.x02 11] (clock 12) w
            = append_each [order Init.Byte.x01 10; order Init.Byte.x02 11] (clock 12) w
            /\ snd (append_batch [order Init.Byte.x01 10; order Init.Byte.x02 11] (clock 12) w) = Ok [0; 1].
Proof.
  destruct opens as [w Hnew]. destruct (opened w Hnew) as (Hwf & _ & Hc & Hs & _). exists w.
  destruct (append_batch_each [order Init.Byte.x01 10; order Init.Byte.x02 11] (clock 12) w acme [] [] Hwf)
    as [H1 H2]; [inputs_fit|rewrite Hc; reflexivity|exact Hs|constructor|].
  split; [exact H1|]. rewrite H2, Hc. reflexivity.
Defined.

(** Two records, a failed flush, a restart that recovers them, a third record, a flush, a
    fourth record and a crash of the machine. *)
Definition life : list event :=
  [Restart opening; Call (CAppend (order Init.Byte.x01 10) (clock 11));
   Call (CAppend (order Init.Byte.x02 12) (clock 13)); Call (CFlushDurable (roll bad_put 20)); Kill;
   Restart opening; Call (CAppend (order Init.Byte.x03 21) (clock 22));
   Call (CFlushDurable (roll good_put 23)); Call (CAppend (order Init.Byte.x04 24) (clock 25)); Crash (Torn [Init.Byte.x07])].


Lemma failed_flush_loses_witness :
  exists w3 wd3,
    stored_log "acme" "orders" 0 wd3 = Some [mk_record 1 12 (Some [Init.Byte.x02]) [Init.Byte.x02; Init.Byte.x02]]
    /\ buffered_records w3 = [].
Proof.
  destruct opens as [w0 Hnew]. destruct (opened w0 Hnew) as (Hwf0 & Hb0 & Hc0 & Hs0 & Hi0).
  destruct (append_batch [order Init.Byte.x01 10] (clock 11) w0) as [w r] eqn:Ha.
  destruct (flush_durable (roll bad_put 20) w acme) as [[w1 wd1] r1] eqn:Hf1.
  destruct (append (Some [Init.Byte.x02]) [Init.Byte.x02; Init.Byte.x02] 12 (clock 13) w1) as [w2 r2] eqn:Happ.
  destruct (flush_durable (roll good_put 20) w2 wd1) as [[w3 wd3] r3] eqn:Hf2.
  assert (Hfacts : match new "acme" "orders" 0 default_write_config "data" [] opening acme with
    | Ok w0 =>
        let '(w, r) := append_batch [order Init.Byte.x01 10] (clock 11) w0 in
        let '(w1, wd1, r1) := flush_durable (roll bad_put 20) w acme in
        let '(w2, r2) := append (Some [Init.Byte.x02]) [Init.Byte.x02; Init.Byte.x02] 12 (clock 13) w1 in
        let '(w3, wd3, r3) := flush_durable (roll good_put 20) w2 wd1 in
        (match r with Ok _ => true | _ => false end, match r1 with Err _ => true | _ => false end,
         match r2 with Ok _ => true | _ => false end, match r3 with Ok _ => true | _ => false end,
         negb (length (buffered_records w1) =? 0)%nat, fits_now wd3)
    | _ => (false, false, false, false, false, false)
    end = (true, true, true, true, true, true)) by by_computation.
  rewrite Hnew, Ha, Hf1, Happ, Hf2 in Hfacts.
  destruct r as [l|?|]; try discriminate Hfacts. destruct r1 as [?|e|]; try discriminate Hfacts.
  destruct r2 as [o|?|]; try discriminate Hfacts. destruct r3 as [r3|?|]; try discriminate Hfacts.
  injection Hfacts as Hb1 Hfit.
  pose proof (append_batch_spec [] [] [order Init.Byte.x01 10] (clock 11) w0 acme Hwf0 ltac:(discriminate)
                ltac:(inputs_fit) ltac:(rewrite Hc0; reflexivity)) as Hspec. rewrite Ha in Hspec.
  destruct Hspec as (Hi & Hc & lg & Hlogs & Hspec).
  destruct lg as [[]|?|]; [|destruct Hspec as [Hno _]; by destruct (Hno l)..].
  destruct Hspec as (_ & Hwf & Hb). rewrite Hb0 in Hb. rewrite Hc0 in Hb, Hc, Hwf.
  rewrite Hi0 in Hi. injection Hi as Ho Ht Hp _ _.
  cbn [app number order fst snd] in Hwf, Hb.
  destruct (failed_flush_loses [] [mk_record 0 10 (Some [Init.Byte.x01]) [Init.Byte.x01; Init.Byte.x01]] w acme (roll bad_put 20) w1 wd1 e (Some [Init.Byte.x02]) [Init.Byte.x02; Init.Byte.x02] 12 (clock 13)
    w2 o (roll good_put 20) w3 wd3 r3 Hwf ltac:(discriminate) Hb) as (Hst & Hoff & _ & Hb3 & _).
  - reflexivity.
  - rewrite Hc. reflexivity.
  - split; [unfold in_u; simpl; lia|reflexivity].
  - pose proof (append_batch_sync [order Init.Byte.x01 10] (clock 11) w0 ltac:(discriminate) Hs0 ltac:(constructor)) as Hab.
    rewrite Ha in Hab. destruct (push_all _ _ w0) as [wp rp]. injection Hab as -> _.
    intros h. cbn. unfold logged. destruct (wal w0) as [h0|] eqn:Hw0; [|done]. intros [= <-]. by apply idle_written, Hs0.
  - constructor.
  - exact Hf1.
  - by destruct (buffered_records w1).
  - exact Happ.
  - exact Hf2.
  - by apply fits_now_fits.
  - exists w3, wd3. rewrite Ho, Ht, Hp in Hst. split; [|exact Hb3]. rewrite Hst, Hoff, Hc. reflexivity.
Defined.
