(* ===== verification/TopicWriter.v ===== *)
(** * Topic writers and batched durable flushes (crates/streamhouse-storage/src/writer.rs)

    [TopicWriter] routes records to the writers of the partitions; [DurableFlushTask] answers
    many flush requests with one flush.  The facts about both are at the end. *)

From coqutil Require Import Byte.
From stdpp Require Import pretty.
From S2P Require Import Prelude Core External Segment SegmentFacts StorageError WalHandle Catalog CatalogFacts PartitionWriter PartitionWriterFacts PartitionLogFacts PartitionExamples.

(** [DefaultHasher] fed with the bytes of a key: a 64-bit value, and no more is promised. *)
Class KeyHash := key_hash : bytes -> Z.
Class KeyHashLaws `(KeyHash) : Prop := key_hash_u64 k : in_u 64 (key_hash k).

#[export] Instance toy_hash : KeyHash := fun k => wrap 64 (foldr (fun b a => 31 * a + byte.unsigned b) 7 k).
#[export] Instance toy_hash_laws : KeyHashLaws toy_hash.
Proof. intros k. apply wrap_in_u. lia. Qed.

Section topic.
Context `{HC : Codecs} `{HP : ObjectPaths} `{HJ : JsonMaps} `{HH : KeyHash}.

Record TopicWriter : Type := mk_topic_writer {
  tw_topic : string;
  tw_partitions : list PartitionWriter;
  round_robin_counter : Z
}.

(** [resolve_s3_prefix]: of the organization the database names for the topic, if any. *)
Definition resolve_s3_prefix (organization : option string) : string :=
  match organization with
  | Some org_id => if bool_decide (org_id = EmptyString) then "data" else "org-" +:+ org_id +:+ "/data"
  | None => "data"
  end.

(** [TopicWriter::new]: one writer per partition, each over its own file. *)
Fixpoint open_partitions (org_id topic : string) (config : WriteConfig) (prefix : string)
    (files : Z -> bytes) (env : Z -> new_env) (n : nat) (partition_id : Z) (wd : world)
  : outcome StorageError (list PartitionWriter) :=
  match n with
  | O => Ok []
  | S n =>
      writer ← PartitionWriter.new org_id topic partition_id config prefix (files partition_id) (env partition_id) wd;
      rest ← open_partitions org_id topic config prefix files env n (partition_id + 1) wd;
      Ok (writer :: rest)
  end.

Definition new (org_id topic : string) (partition_count : Z) (config : WriteConfig) (organization : option string)
    (files : Z -> bytes) (env : Z -> new_env) (wd : world) : outcome StorageError TopicWriter :=
  partitions ← open_partitions org_id topic config (resolve_s3_prefix organization) files env
                 (Z.to_nat partition_count) 0 wd;
  Ok (mk_topic_writer topic partitions 0).

(** [select_partition]: by the hash of the key, or round robin.  [%] panics on no partitions. *)
Definition select_partition (key : option bytes) (w : TopicWriter) : TopicWriter * outcome StorageError Z :=
  let n := len (tw_partitions w) in
  match key with
  | Some k => (w, if n =? 0 then Panic else Ok (wrap 32 (key_hash k mod n)))
  | None =>
      let partition := round_robin_counter w in
      let w := mk_topic_writer (tw_topic w) (tw_partitions w) (wrap 32 (partition + 1)) in
      (w, if wrap 32 n =? 0 then Panic else Ok (partition mod wrap 32 n))
  end.

Definition append (key : option bytes) (value : bytes) (timestamp : option Z) (now : Z) (env : append_env)
    (w : TopicWriter) : TopicWriter * outcome StorageError (Z * Z) :=
  match select_partition key w with
  | (w, Ok partition_id) =>
      let timestamp := default (wrap 64 now) timestamp in
      match tw_partitions w !! Z.to_nat partition_id with
      | Some writer =>
          let '(writer, r) := PartitionWriter.append key value timestamp env writer in
          (mk_topic_writer (tw_topic w) (<[Z.to_nat partition_id := writer]> (tw_partitions w)) (round_robin_counter w),
           offset ← r; Ok (partition_id, offset))
      | None => (w, Panic)
      end
  | (w, Err e) => (w, Err e)
  | (w, Panic) => (w, Panic)
  end.

(** [flush]: the first error ends the loop. *)
Fixpoint flush_each (now : Z -> Z) (env : Z -> roll_env) (i : Z) (ws : list PartitionWriter) (wd : world)
  : list PartitionWriter * world * outcome StorageError () :=
  match ws with
  | [] => ([], wd, Ok ())
  | w :: ws =>
      match PartitionWriter.flush (now i) (env i) w wd with
      | (w, wd, Ok _) =>
          let '(ws, wd, r) := flush_each now env (i + 1) ws wd in (w :: ws, wd, r)
      | (w, wd, failure) => (w :: ws, wd, failure)
      end
  end.

Definition flush (now : Z -> Z) (env : Z -> roll_env) (w : TopicWriter) (wd : world)
  : TopicWriter * world * outcome StorageError () :=
  let '(ws, wd, r) := flush_each now env 0 (tw_partitions w) wd in
  (mk_topic_writer (tw_topic w) ws (round_robin_counter w), wd, r).

(** ** Durable flushes *)

Inductive DurableFlushCmd : Type := WaitForFlush (waiter : nat) | Shutdown.

(** How a batch window ends: it expires, and the commands ready by then are drained without
    waiting, or a shutdown or the end of the channel interrupts it. *)
Inductive window_end : Type := Expired (ready : list DurableFlushCmd) | Interrupted.

(** What the task receives, from one wait for a first command to the next: a waiter, those
    that join it and the end of the window, or a shutdown (or the end of the channel). *)
Inductive round : Type := Batch (first : nat) (others : list nat) (ending : window_end) | Stop.

(** The waiters after draining, and whether a shutdown was among the commands. *)
Fixpoint drain_ready (ready : list DurableFlushCmd) (waiters : list nat) : list nat * bool :=
  match ready with
  | [] => (waiters, false)
  | WaitForFlush tx :: ready => drain_ready ready (waiters ++ [tx])
  | Shutdown :: _ => (waiters, true)
  end.

(** [do_flush]: one flush for all the waiters, and its result to each of them (as a text; the
    error itself here). *)
Definition do_flush (env : roll_env) (waiters : list nat) (w : PartitionWriter) (wd : world)
  : PartitionWriter * world * list (nat * outcome StorageError ()) :=
  match waiters with
  | [] => (w, wd, [])
  | _ :: _ =>
      let '(w, wd, result) := flush_durable env w wd in
      let response := match result with Ok _ => Ok () | Err e => Err e | Panic => Panic end in
      (w, wd, map (fun tx => (tx, response)) waiters)
  end.

(** [run]: the answers, in order, and whether the task has returned. *)
Fixpoint run_rounds (env : nat -> roll_env) (n : nat) (rounds : list round) (w : PartitionWriter) (wd : world)
  : PartitionWriter * world * list (nat * outcome StorageError ()) * bool :=
  match rounds with
  | [] => (w, wd, [], false)
  | Stop :: _ => (w, wd, [], true)
  | Batch first others ending :: rounds =>
      let '(waiters, stop) :=
        match ending with
        | Interrupted => (first :: others, true)
        | Expired ready => drain_ready ready (first :: others)
        end in
      let '(w, wd, out) := do_flush (env n) waiters w wd in
      if stop then (w, wd, out, true)
      else
        let '(w, wd, outs, stopped) := run_rounds env (S n) rounds w wd in
        (w, wd, out ++ outs, stopped)
  end.
End topic.

(** ** Facts *)

Section topic_facts.
Context `{HC : Codecs} `{!CodecLaws HC} `{HP : ObjectPaths} `{!ObjectPathLaws HP} `{HJ : JsonMaps}
  `{HH : KeyHash} `{!KeyHashLaws HH}.

(** The number of partitions of a topic is a positive 32-bit count. *)
Definition counted (w : TopicWriter) : Prop := 0 < len (tw_partitions w) < 2 ^ 32 /\ in_u 32 (round_robin_counter w).

Lemma select_partition_spec key w :
  counted w ->
  let n := len (tw_partitions w) in
  select_partition key w =
    match key with
    | Some k => (w, Ok (key_hash k mod n))
    | None => (mk_topic_writer (tw_topic w) (tw_partitions w) (wrap 32 (round_robin_counter w + 1)),
               Ok (round_robin_counter w mod n))
    end.
Proof.
  intros [Hn Hc] n. unfold select_partition. fold n in Hn |- *.
  assert (Hw : wrap 32 n = n) by (apply wrap_small; unfold in_u; lia). rewrite Hw.
  assert (Hz : (n =? 0) = false) by (apply Z.eqb_neq; lia). rewrite Hz. destruct key as [k|]; [|done].
  rewrite wrap_small; [done|]. pose proof (Z.mod_pos_bound (key_hash k) n ltac:(lia)). unfold in_u. lia.
Qed.

(** Where a record goes.  With a key, the partition depends on the key and the number of
    partitions only, so equal keys share a partition; without one, the counter decides and
    moves on.  The partition exists, its writer does the append, and all others are left
    alone; a missing time is the present. *)
Theorem topic_append_spec key value ts now env w :
  counted w ->
  exists partition_id writer,
    partition_id = (match key with Some k => key_hash k | None => round_robin_counter w end) mod len (tw_partitions w)
    /\ tw_partitions w !! Z.to_nat partition_id = Some writer
    /\ let '(writer', r) := PartitionWriter.append key value (default (wrap 64 now) ts) env writer in
       let '(w', r') := append key value ts now env w in
       r' = (match r with Ok o => Ok (partition_id, o) | Err e => Err e | Panic => Panic end)
       /\ tw_partitions w' !! Z.to_nat partition_id = Some writer'
       /\ (forall i, i <> Z.to_nat partition_id -> tw_partitions w' !! i = tw_partitions w !! i)
       /\ counted w'.
Proof.
  intros Hc. pose proof Hc as [Hn Hcu].
  set (i := match key with Some k => key_hash k | None => round_robin_counter w end mod len (tw_partitions w)).
  assert (Hi : 0 <= i < len (tw_partitions w)) by (apply Z.mod_pos_bound; lia).
  assert (Hlt : (Z.to_nat i < length (tw_partitions w))%nat) by lia.
  destruct (lookup_lt_is_Some_2 (tw_partitions w) (Z.to_nat i) Hlt) as [writer Hw].
  exists i, writer. split; [done|]. split; [done|].
  destruct (PartitionWriter.append key value (default (wrap 64 now) ts) env writer) as [writer' r] eqn:Ha.
  unfold append. rewrite (select_partition_spec key w Hc).
  assert (Hcounted : forall c, in_u 32 c ->
    counted (mk_topic_writer (tw_topic w) (<[Z.to_nat i:=writer']> (tw_partitions w)) c)).
  { intros c Hcr. split; [simpl; by rewrite length_insert|done]. }
  destruct key as [k|]; cbn [tw_partitions round_robin_counter tw_topic];
    fold i; rewrite Hw, Ha; cbn [tw_partitions];
    (split; [by destruct r|split; [by rewrite list_lookup_insert_eq|split;
      [intros j Hj; by rewrite list_lookup_insert_ne|apply Hcounted]]]).
  - done.
  - apply wrap_in_u. lia.
Qed.

(** ** Durable flushes *)

(** The waiters of each batch the task serves. *)
Fixpoint served (rounds : list round) : list (list nat) :=
  match rounds with
  | Batch first others Interrupted :: _ => [first :: others]
  | Batch first others (Expired ready) :: rounds =>
      let '(waiters, stop) := drain_ready ready (first :: others) in
      waiters :: (if stop then [] else served rounds)
  | _ => []
  end.

Lemma drain_ready_nonempty ready ws : ws <> [] -> fst (drain_ready ready ws) <> [].
Proof.
  revert ws. induction ready as [|[tx|] ready IH]; intros ws Hws; simpl; [done| |done].
  apply IH. by destruct ws.
Qed.

(** The flushes behind the answers: one per batch, in order. *)
Fixpoint flushes (env : nat -> roll_env) (n : nat) (k : nat) (w : PartitionWriter) (wd : world)
  : list (outcome StorageError ()) :=
  match k with
  | O => []
  | S k =>
      let '(w, wd, r) := flush_durable (env n) w wd in
      forget r :: flushes env (S n) k w wd
  end.

(** Every request for a durable flush that the task takes is answered exactly once, in
    order, and all requests of a batch with the result of the one flush that is made for
    the batch, after the last of them arrived. *)
Theorem durable_flush_batches env n rounds w wd :
  let '(_, _, replies, _) := run_rounds env n rounds w wd in
  replies = concat (zip_with (fun ws r => map (fun tx => (tx, r)) ws) (served rounds)
                      (flushes env n (length (served rounds)) w wd)).
Proof.
  revert n w wd. induction rounds as [|[first others ending|] rounds IH]; intros n w wd; [done| |done].
  cbn [run_rounds served].
  assert (Hflush : forall ws w wd, ws <> [] ->
    do_flush (env n) ws w wd =
    let '(w, wd, r) := flush_durable (env n) w wd in (w, wd, map (fun tx => (tx, forget r)) ws)).
  { intros ws w0 wd0 Hws. destruct ws; [done|]. done. }
  destruct ending as [ready|].
  - pose proof (drain_ready_nonempty ready (first :: others) ltac:(discriminate)) as Hne.
    destruct (drain_ready ready (first :: others)) as [ws stop]. cbn [fst] in Hne. rewrite Hflush by done.
    destruct stop; cbn [length flushes]; destruct (flush_durable (env n) w wd) as [[w1 wd1] r].
    + cbn. by rewrite app_nil_r.
    + specialize (IH (S n) w1 wd1). destruct (run_rounds env (S n) rounds w1 wd1) as [[[w2 wd2] outs] st].
      cbn [zip_with concat]. by rewrite IH.
  - rewrite Hflush by done. cbn [length flushes]. destruct (flush_durable (env n) w wd) as [[w1 wd1] r].
    cbn. by rewrite app_nil_r.
Qed.

(** C21: what a positive answer means.  On a writer with no failed flush so far, when a waiter
    is told that the flush has succeeded, every record acknowledged before is in the stored
    segments, and the buffer is empty. *)
Theorem durable_answer env waiters tx A w wd w' wd' replies committed pending :
  log_inv true A w wd committed pending -> len A < 2 ^ 32 -> objects_fit wd' ->
  do_flush env waiters w wd = (w', wd', replies) -> (tx, Ok ()) ∈ replies ->
  stored_log (org_id w) (topic w) (partition_id w) wd' = Some (map normalise A) /\ buffered_records w' = [].
Proof.
  intros HI Hlen Hfit Hflush Hin. destruct waiters as [|tx0 waiters];
    [injection Hflush as <- <- <-; by apply not_elem_of_nil in Hin|].
  unfold do_flush in Hflush. destruct (flush_durable env w wd) as [[w1 wd1] r] eqn:Hf.
  injection Hflush as -> -> <-.
  assert (Hr : exists o, r = Ok o).
  { destruct r as [o|e|]; [by exists o|..]; exfalso;
      (apply elem_of_cons in Hin as [Heq|Hin]; [discriminate Heq|]);
      apply list_elem_of_fmap in Hin as (t & Heq & _); discriminate Heq. }
  destruct Hr as [o ->]. clear Hin. unfold flush_durable in Hf.
  pose proof (li_wf _ _ _ _ _ _ HI) as Hwf. pose proof Hwf as (Hst & Hpo & _).
  destruct (li_exact _ _ _ _ _ _ HI eq_refl) as [-> Hbuf].
  rewrite length_app in Hlen. rewrite (holds_count pending) in Hf by (apply Hpo || lia).
  destruct (Z.gtb_spec (len pending) 0).
  - destruct (roll_segment env w wd) as [[w2 wd2] [[]|e|]] eqn:Hroll; try discriminate Hf.
    injection Hf as -> -> _.
    destruct (roll_segment_wf _ _ _ _ _ _ _ _ Hwf ltac:(by destruct pending) ltac:(lia) Hroll)
      as (Hi & _ & _ & [(Hwf' & Hb & _)|(Hno & _)]); [|done].
    injection Hi as Ho Ht Hp Hpre _. destruct Hwf' as (Hst' & _). rewrite Ho, Ht, Hp, Hpre in Hst'.
    rewrite (store_ok_log _ _ _ _ _ _ Hst' Hfit), concat_app. simpl. by rewrite app_nil_r.
  - injection Hf as <- <- _. destruct pending; [|simpl in *; lia]. rewrite app_nil_r.
    split; [by rewrite (store_ok_log _ _ _ _ _ _ Hst Hfit)|done].
Qed.
End topic_facts.

(** ** Witnesses *)

Lemma topic_append_spec_witness :
  exists w, let '(w', r) := append (Some [Init.Byte.x01]) [Init.Byte.x02] None 77 (clock 78) w in
            r = Ok (0, 0) /\ length (tw_partitions w') = 1%nat.
Proof.
  destruct opens as [pw Hnew]. destruct (opened pw Hnew) as (Hwf & _ & Hc & Hs & _).
  exists (mk_topic_writer "orders" [pw] 4294967295).
  destruct (topic_append_spec (Some [Init.Byte.x01]) [Init.Byte.x02] None 77 (clock 78) (mk_topic_writer "orders" [pw] 4294967295))
    as (i & writer & Hi & Hw & H); [split; [simpl; lia|unfold in_u; simpl; lia]|].
  cbn [tw_partitions] in Hi, Hw. assert (i = 0) as -> by (subst i; vm_compute; reflexivity).
  injection Hw as <-.
  pose proof (append_batch_spec [] [] [(Some [Init.Byte.x01], [Init.Byte.x02], 77)] (clock 78) pw acme Hwf
    ltac:(discriminate) ltac:(inputs_fit) ltac:(rewrite Hc; reflexivity)) as Hb.
  pose proof (append_batch_sync [(Some [Init.Byte.x01], [Init.Byte.x02], 77)] (clock 78) pw ltac:(discriminate) Hs
    ltac:(constructor)) as Hsy.
  destruct (push_all_spec [(Some [Init.Byte.x01], [Init.Byte.x02], 77)] _ _ _ _ (proj1 (proj2 Hwf)) ltac:(inputs_fit)
    ltac:(rewrite Hc; cbn [length]; lia)) as (w2 & Hpush & _).
  rewrite Hpush in Hsy. change (wrap 64 77) with 77 in H. change (default 77 None) with 77 in H.
  rewrite append_batch_of_one, Hsy in H. rewrite Hc in H.
  destruct (append _ _ _ _ _ _) as [w' r] eqn:Hap. destruct H as (Hr & _ & _ & _).
  split; [exact Hr|]. unfold append in Hap. cbn [select_partition tw_partitions length] in Hap.
  destruct (_ =? _); [injection Hap as <- _; reflexivity|].
  destruct ([pw] !! _); [|injection Hap as <- _; reflexivity].
  destruct (PartitionWriter.append _ _ _ _ _). injection Hap as <- _. reflexivity.
Defined.

Lemma durable_answer_witness :
  exists w' wd', stored_log "acme" "orders" 0 wd' =
                   Some [mk_record 0 10 (Some [Init.Byte.x01]) [Init.Byte.x01; Init.Byte.x01]]
                 /\ buffered_records w' = [].
Proof.
  destruct opens as [w0 Hnew]. destruct (opened w0 Hnew) as (Hwf0 & Hb0 & Hc0 & _ & Hi0).
  destruct (append_batch [order Init.Byte.x01 10] (clock 11) w0) as [w r] eqn:Ha.
  destruct (do_flush (roll good_put 20) [7%nat; 8%nat] w acme) as [[w' wd'] replies] eqn:Hf.
  assert (Hfacts : match PartitionWriter.new "acme" "orders" 0 default_write_config "data" [] opening acme with
    | Ok w0 =>
        let '(w, r) := append_batch [order Init.Byte.x01 10] (clock 11) w0 in
        let '(w', wd', replies) := do_flush (roll good_put 20) [7%nat; 8%nat] w acme in
        Some (match r with Ok _ => true | _ => false end, replies, fits_now wd')
    | _ => None
    end = Some (true, [(7%nat, Ok ()); (8%nat, Ok ())], true)) by by_computation.
  rewrite Hnew, Ha, Hf in Hfacts. destruct r as [l|?|]; try discriminate Hfacts. injection Hfacts as Hrep Hfit.
  assert (HI0 : log_inv true [] w0 acme [] []).
  { split; [exact Hwf0|reflexivity|constructor|constructor|by rewrite Hb0|done]. }
  destruct (log_inv_append true [] w0 acme [] [] [order Init.Byte.x01 10] (clock 11) w (Ok l) HI0) as (Hi & _ & _ & HI);
    [discriminate|inputs_fit|rewrite Hc0; reflexivity|exact Ha|].
  rewrite Hi0 in Hi. injection Hi as Ho Ht Hp _ _. rewrite Hc0 in HI. cbn [app number] in HI.
  destruct (durable_answer (roll good_put 20) [7%nat; 8%nat] 8%nat _ w acme w' wd' replies [] _ HI) as [Hst Hb].
  - reflexivity.
  - by apply fits_now_fits.
  - exact Hf.
  - rewrite Hrep. apply elem_of_cons. right. by apply list_elem_of_singleton.
  - exists w', wd'. rewrite Ho, Ht, Hp in Hst. by split.
Defined.
