(* ===== verification/SchemaTypes.v ===== *)
(** * Schemas and their storage (crates/streamhouse-schema-registry: types.rs, error.rs, the
    trait of storage.rs)

    [SchemaStorage] is the interface between the registry and its storage; what the registry
    relies on is [SchemaStorageLaws]. *)

From S2P Require Import Prelude.

Inductive SchemaFormat : Type := Avro | Protobuf | Json.
Inductive CompatibilityMode : Type :=
| Backward | Forward | Full | BackwardTransitive | ForwardTransitive | FullTransitive | NoCheck.

#[export] Instance SchemaFormat_eq_dec : EqDecision SchemaFormat.
Proof. solve_decision. Defined.
#[export] Instance CompatibilityMode_eq_dec : EqDecision CompatibilityMode.
Proof. solve_decision. Defined.

Definition format_as_str (f : SchemaFormat) : string :=
  match f with Avro => "AVRO" | Protobuf => "PROTOBUF" | Json => "JSON" end.

Record SchemaReference : Type := mk_schema_reference { sr_name : string; sr_subject : string; sr_version : Z }.
Record SchemaMetadata : Type := mk_schema_metadata {
  sm_properties : gmap string string; sm_tags : list string; sm_ruleset : option string }.
Definition no_metadata : SchemaMetadata := mk_schema_metadata ∅ [] None.

Record Schema : Type := mk_schema {
  sc_id : Z;
  sc_subject : string;
  sc_version : Z;
  sc_type : SchemaFormat;
  sc_schema : string;
  sc_references : list SchemaReference;
  sc_metadata : SchemaMetadata
}.

Record SubjectConfig : Type := mk_subject_config { cf_subject : string; cf_compatibility : CompatibilityMode }.

Record RegisterSchemaRequest : Type := mk_register_request {
  rq_schema : string;
  rq_schema_type : option SchemaFormat;
  rq_references : list SchemaReference;
  rq_metadata : option SchemaMetadata
}.

(** Foreign errors are kept as texts. *)
Inductive SchemaError : Type :=
| SchemaNotFound (subject : string) (version : Z)
| SubjectNotFound (subject : string)
| InvalidSchema (msg : string)
| IncompatibleSchema (msg : string)
| SchemaAlreadyExists (id : Z)
| InvalidFormat (msg : string)
| InvalidCompatibilityMode (msg : string)
| SerializationError (msg : string)
| DeserializationError (msg : string)
| SchemaStorageError (msg : string)
| SchemaIoError (msg : string)
| SchemaJsonError (msg : string)
| SchemaDatabaseError (msg : string).

Abbreviation result A := (outcome SchemaError A).

(** How the calls to a remote storage fail from now on: not at all, before they have any
    effect, or after it, when only the answer is lost. *)
Inductive fault : Type := NoFault | Refused (e : SchemaError) | Lost (e : SchemaError).

(** The trait: reads leave the storage as it is.  [st_fault] is not a call but the
    environment's. *)
Class SchemaStorage (St : Type) := {
  st_fault : fault -> St -> St;
  st_register : Schema -> string -> St -> St * result Z;
  st_by_id : Z -> St -> result (option Schema);
  st_by_version : string -> Z -> string -> St -> result (option Schema);
  st_latest : string -> string -> St -> result (option Schema);
  st_versions : string -> string -> St -> result (list Z);
  st_subjects : string -> St -> result (list string);
  st_delete_subject : string -> string -> St -> St * result (list Z);
  st_delete_version : string -> Z -> string -> St -> St * result Z;
  st_exists : string -> string -> string -> St -> result (option Z);
  st_config : string -> string -> St -> result (option SubjectConfig);
  st_set_config : SubjectConfig -> string -> St -> St * result ();
  st_global : St -> result CompatibilityMode;
  st_set_global : CompatibilityMode -> St -> St * result ()
}.

(** What a client of the registry relies on: an id names one schema text for ever.  [names]
    are the texts of all ids given out so far, [n] the registrations the ids suffice for, and
    [text_ok] the texts a storage can tell apart. *)
Class SchemaStorageLaws (St : Type) `{SchemaStorage St} := {
  text_ok : string -> Prop;
  named : nat -> gmap Z string -> St -> Prop;
  named_fault n names st f : named n names st -> named n names (st_fault f st);
  named_fewer n names st : named (S n) names st -> named n names st;
  named_register n names st s org st' r :
    named (S n) names st -> text_ok (sc_schema s) -> st_register s org st = (st', r) ->
    exists names', names ⊆ names' /\ named n names' st'
      /\ (forall id, r = Ok id -> names' !! id = Some (sc_schema s));
  named_delete_subject n names st subject org :
    named n names st -> named n names (fst (st_delete_subject subject org st));
  named_delete_version n names st subject version org :
    named n names st -> named n names (fst (st_delete_version subject version org st));
  named_set_config n names st c org : named n names st -> named n names (fst (st_set_config c org st));
  named_set_global n names st m : named n names st -> named n names (fst (st_set_global m st));
  named_by_id n names st id s :
    named n names st -> st_by_id id st = Ok (Some s) -> sc_id s = id /\ names !! id = Some (sc_schema s);
  named_by_version n names st subject version org s :
    named n names st -> st_by_version subject version org st = Ok (Some s) ->
    names !! sc_id s = Some (sc_schema s) /\ sc_subject s = subject /\ sc_version s = version;
  named_latest n names st subject org s :
    named n names st -> st_latest subject org st = Ok (Some s) ->
    names !! sc_id s = Some (sc_schema s) /\ sc_subject s = subject;
  named_exists n names st subject text org id :
    named n names st -> text_ok text -> st_exists subject text org st = Ok (Some id) -> names !! id = Some text
}.
