(* ===== verification/SchemaCompat.v ===== *)
(** * Compatibility of schemas (crates/streamhouse-schema-registry/src/compatibility.rs)

    The parsers of Avro, Protobuf and JSON are third-party code: each is a parameter that
    turns a text into the values the checks look at. *)

From stdpp Require Import pretty.
From S2P Require Import Prelude StorageError SchemaTypes.

(** ** Avro *)

(** What the code sees of an [apache_avro::Schema]. *)
Record avro_field_of (A : Type) : Type := mk_avro_field { af_name : string; af_schema : A; af_default : bool }.
Arguments mk_avro_field {A}.
Arguments af_name {A}.
Arguments af_schema {A}.
Arguments af_default {A}.

Inductive avro_view_of (A : Type) : Type :=
| AString | AInt | ALong | AFloat | ADouble | ABoolean | ABytes
| ARecord (name : string) (fields : list (avro_field_of A))
| AOther.
Arguments AString {A}.
Arguments AInt {A}.
Arguments ALong {A}.
Arguments AFloat {A}.
Arguments ADouble {A}.
Arguments ABoolean {A}.
Arguments ABytes {A}.
Arguments ARecord {A}.
Arguments AOther {A}.

Class AvroLib := {
  avro : Type;
  avro_eqb : avro -> avro -> bool;
  avro_view : avro -> avro_view_of avro;
  (** [Schema::parse_str]: the text of the error, or the schema. *)
  avro_parse_str : string -> string + avro
}.

Section avro.
Context `{AvroLib}.

Definition schemas_compatible (schema1 schema2 : avro) : bool :=
  match avro_view schema1, avro_view schema2 with
  | AString, AString | AInt, AInt | ALong, ALong | AFloat, AFloat | ADouble, ADouble
  | ABoolean, ABoolean | ABytes, ABytes => true
  | ALong, AInt => true
  | ADouble, AFloat => true
  | _, _ => false
  end.

Definition field_compatible (writer_fields : list (avro_field_of avro)) (reader_field : avro_field_of avro) : bool :=
  match List.find (fun f => bool_decide (af_name f = af_name reader_field)) writer_fields with
  | Some wf => schemas_compatible (af_schema reader_field) (af_schema wf)
  | None => af_default reader_field
  end.

Definition check_avro_backward_compatible (reader_schema writer_schema : avro) : result bool :=
  if avro_eqb reader_schema writer_schema then Ok true
  else
    match avro_view reader_schema, avro_view writer_schema with
    | ARecord r_name r_fields, ARecord w_name w_fields =>
        if negb (bool_decide (r_name = w_name)) then Ok false
        else Ok (forallb (field_compatible w_fields) r_fields)
    | _, _ => Ok (schemas_compatible reader_schema writer_schema)
    end.

(** Both directions, the second only when the first gives an answer. *)
Definition both_ways {A} (check : A -> A -> result bool) (a b : A) : result bool :=
  backward ← check a b;
  forward ← check b a;
  Ok (backward && forward).

Definition by_mode {A} (check : A -> A -> result bool) (existing_schema new_schema : A) (mode : CompatibilityMode)
  : result bool :=
  match mode with
  | Backward | BackwardTransitive => check existing_schema new_schema
  | Forward | ForwardTransitive => check new_schema existing_schema
  | Full | FullTransitive => both_ways check existing_schema new_schema
  | NoCheck => Ok true
  end.

(** [parse(text).map_err(|e| InvalidSchema(format!("Invalid .. schema: {e}")))]. *)
Definition parsed {A} (what : string) (r : string + A) : result A :=
  match r with inl e => Err (InvalidSchema ("Invalid " +:+ what +:+ " schema: " +:+ e)) | inr a => Ok a end.

Definition check_avro_compatibility (existing : Schema) (new_schema : string) (mode : CompatibilityMode) : result bool :=
  existing_schema ← parsed "existing Avro" (avro_parse_str (sc_schema existing));
  new_schema ← parsed "new Avro" (avro_parse_str new_schema);
  by_mode check_avro_backward_compatible existing_schema new_schema mode.
End avro.

(** ** Protobuf *)

(** The fields the code reads of the descriptor messages of [prost_types]. *)
Record field_descriptor : Type := mk_field_descriptor {
  fd_name : option string; fd_number : option Z; fd_label : option Z; fd_type : option Z }.
Record message_descriptor : Type := mk_message_descriptor { md_name : option string; md_field : list field_descriptor }.
Record file_descriptor : Type := mk_file_descriptor { fl_message_type : list message_descriptor }.

(** [FileDescriptorSet::decode]: the text of the error, or the files. *)
Class ProtobufLib := decode_fds : string -> string + list file_descriptor.

(** The numbers of [field_descriptor_proto::Type] and [Label], of which 1 to 18 are types. *)
Definition TYPE_DOUBLE : Z := 1.
Definition TYPE_FLOAT : Z := 2.
Definition TYPE_INT64 : Z := 3.
Definition TYPE_UINT64 : Z := 4.
Definition TYPE_INT32 : Z := 5.
Definition TYPE_STRING : Z := 9.
Definition TYPE_BYTES : Z := 12.
Definition TYPE_UINT32 : Z := 13.
Definition TYPE_SINT32 : Z := 17.
Definition TYPE_SINT64 : Z := 18.
Definition LABEL_REQUIRED : Z := 2.
Definition type_try_from (v : Z) : option Z := if (1 <=? v) && (v <=? 18) then Some v else None.

Definition protobuf_types_compatible (reader_type writer_type : Z) : bool :=
  (reader_type =? writer_type)
  || bool_decide ((reader_type, writer_type) ∈
       [(TYPE_INT64, TYPE_INT32); (TYPE_INT64, TYPE_SINT32); (TYPE_SINT64, TYPE_SINT32);
        (TYPE_UINT64, TYPE_UINT32); (TYPE_DOUBLE, TYPE_FLOAT);
        (TYPE_STRING, TYPE_BYTES); (TYPE_BYTES, TYPE_STRING)]).

(** The fields by number; a later field takes the place of an earlier one. *)
Definition fields_by_number (fields : list field_descriptor) : gmap Z field_descriptor :=
  foldl (fun m f => match fd_number f with Some n => <[n := f]> m | None => m end) ∅ fields.

Definition required (f : field_descriptor) : bool := bool_decide (fd_label f = Some LABEL_REQUIRED).

Definition reader_field_ok (writer_fields : gmap Z field_descriptor) (number : Z) (reader_field : field_descriptor)
  : bool :=
  match writer_fields !! number with
  | Some writer_field =>
      match fd_type reader_field ≫= type_try_from, fd_type writer_field ≫= type_try_from with
      | Some reader_type, Some writer_type => protobuf_types_compatible reader_type writer_type
      | _, _ => true
      end
  | None => negb (required reader_field)
  end.

(** The first message of the first file only.  The maps are iterated in no particular order,
    which makes no difference to the answer. *)
Definition check_protobuf_backward_compatible (writer_fds reader_fds : list file_descriptor) : result bool :=
  match writer_fds, reader_fds with
  | writer_file :: _, reader_file :: _ =>
      match fl_message_type writer_file, fl_message_type reader_file with
      | writer_msg :: _, reader_msg :: _ =>
          if negb (bool_decide (md_name writer_msg = md_name reader_msg)) then Ok false
          else
            let writer_fields := fields_by_number (md_field writer_msg) in
            let reader_fields := fields_by_number (md_field reader_msg) in
            Ok (forallb (fun e => reader_field_ok writer_fields e.1 e.2) (map_to_list reader_fields)
                && forallb (fun e => negb (bool_decide (reader_fields !! e.1 = None) && required e.2))
                     (map_to_list writer_fields))
      | _, _ => Ok true
      end
  | _, _ => Ok true
  end.

Definition check_protobuf_compatibility `{ProtobufLib} (existing : Schema) (new_schema : string)
    (mode : CompatibilityMode) : result bool :=
  existing_fds ← parsed "existing Protobuf" (decode_fds (sc_schema existing));
  new_fds ← parsed "new Protobuf" (decode_fds new_schema);
  by_mode check_protobuf_backward_compatible existing_fds new_fds mode.

(** ** JSON *)

(** [serde_json::Value]; an object is a list of entries with distinct keys, in the order of
    the keys. *)
#[warnings="-register-all"]
Inductive json (N : Type) : Type :=
| JNull
| JBool (b : bool)
| JNumber (n : N)
| JString (s : string)
| JArray (l : list (json N))
| JObject (fields : list (string * json N)).
Arguments JNull {N}.
Arguments JBool {N}.
Arguments JNumber {N}.
Arguments JString {N}.
Arguments JArray {N}.
Arguments JObject {N}.

Class JsonLib := {
  json_number : Type;
  json_number_eq_dec :: EqDecision json_number;
  (** [serde_json::from_str]: the text of the error, or the value. *)
  value_from_str : string -> string + json json_number
}.

Section json.
Context `{JsonLib}.

Abbreviation value := (json json_number).

Fixpoint json_eqb (a b : value) : bool :=
  match a, b with
  | JNull, JNull => true
  | JBool x, JBool y => Bool.eqb x y
  | JNumber x, JNumber y => bool_decide (x = y)
  | JString x, JString y => bool_decide (x = y)
  | JArray x, JArray y =>
      (fix all2 x y := match x, y with
                       | [], [] => true
                       | a :: x, b :: y => json_eqb a b && all2 x y
                       | _, _ => false
                       end) x y
  | JObject x, JObject y =>
      (fix all2 x y := match x, y with
                       | [], [] => true
                       | (k, a) :: x, (l, b) :: y => bool_decide (k = l) && json_eqb a b && all2 x y
                       | _, _ => false
                       end) x y
  | _, _ => false
  end.

(** [Map::get]. *)
Fixpoint get (k : string) (fields : list (string * value)) : option value :=
  match fields with
  | [] => None
  | (l, v) :: fields => if bool_decide (k = l) then Some v else get k fields
  end.

Definition as_str (v : value) : option string := match v with JString s => Some s | _ => None end.
Definition as_array (v : value) : option (list value) := match v with JArray l => Some l | _ => None end.
Definition as_object (v : value) : option (list (string * value)) := match v with JObject o => Some o | _ => None end.
Definition contains (l : list value) (v : value) : bool := existsb (fun x => json_eqb x v) l.

(** The names under "required". *)
Definition required_set (obj : list (string * value)) : gset string :=
  match get "required" obj with
  | Some v => match as_array v with Some l => list_to_set (omap as_str l) | None => ∅ end
  | None => ∅
  end.

Definition json_types_compatible (old_type new_type : value) : bool :=
  json_eqb old_type new_type
  || match as_array old_type, as_array new_type with
     | Some old_types, Some new_types => forallb (contains new_types) old_types
     | Some old_types, None => contains old_types new_type
     | None, Some new_types => contains new_types old_type
     | None, None =>
         match as_str old_type, as_str new_type with
         | Some a, Some b => (bool_decide (a = "integer"%string) && bool_decide (b = "number"%string))
                             || bool_decide (a = b)
         | _, _ => false
         end
     end.

Definition not_an_object : SchemaError := InvalidSchema "Schema must be an object".

(** The recursion is on the old schema, into the first entry "properties".  The entry
    "additionalProperties" only leads to a log message. *)
Fixpoint check_json_backward_compatible (old_schema new_schema : value) : result bool :=
  match old_schema, new_schema with
  | JObject old_obj, JObject new_obj =>
      if negb (bool_decide (required_set new_obj ⊆ required_set old_obj)) then Ok false
      else if match get "type" old_obj, get "type" new_obj with
              | Some old_type, Some new_type => negb (json_types_compatible old_type new_type)
              | _, _ => false
              end then Ok false
      else
        (fix properties old_fields :=
           match old_fields with
           | [] => Ok true
           | (k, old_props) :: old_fields =>
               if bool_decide ("properties"%string = k) then
                 match old_props, get "properties" new_obj with
                 | JObject old_p, Some (JObject new_p) =>
                     (fix each old_p :=
                        match old_p with
                        | [] => Ok true
                        | (prop_name, old_prop_schema) :: old_p =>
                            match get prop_name new_p with
                            | Some new_prop_schema =>
                                ok ← check_json_backward_compatible old_prop_schema new_prop_schema;
                                if negb ok then Ok false else each old_p
                            | None => each old_p
                            end
                        end) old_p
                 | _, _ => Ok true
                 end
               else properties old_fields
           end) old_obj
  | _, _ => Err not_an_object
  end.

Definition check_json_compatibility (existing : Schema) (new_schema : string) (mode : CompatibilityMode) : result bool :=
  existing_json ← parsed "existing JSON" (value_from_str (sc_schema existing));
  new_json ← parsed "new JSON" (value_from_str new_schema);
  by_mode check_json_backward_compatible existing_json new_json mode.
End json.

(** ** All formats *)

(** [{:?}]. *)
Definition format_debug (f : SchemaFormat) : string :=
  match f with Avro => "Avro" | Protobuf => "Protobuf" | Json => "Json" end.

Definition format_mismatch (expected got : SchemaFormat) : SchemaError :=
  IncompatibleSchema ("Schema format mismatch: expected " +:+ format_debug expected +:+ ", got " +:+ format_debug got).

Definition check_compatibility `{AvroLib} `{ProtobufLib} `{JsonLib} (existing : Schema) (new_schema : string)
    (new_format : SchemaFormat) (mode : CompatibilityMode) : result bool :=
  if negb (bool_decide (sc_type existing = new_format)) then Err (format_mismatch (sc_type existing) new_format)
  else
    match sc_type existing with
    | Avro => check_avro_compatibility existing new_schema mode
    | Protobuf => check_protobuf_compatibility existing new_schema mode
    | Json => check_json_compatibility existing new_schema mode
    end.

(** ** Facts *)

(** ** Avro *)

Section avro.
Context `{AvroLib}.

Lemma find_field name (fs : list (avro_field_of avro)) :
  NoDup (map af_name fs) -> forall f, f ∈ fs -> af_name f = name ->
  List.find (fun g => bool_decide (af_name g = name)) fs = Some f.
Proof.
  induction fs as [|g fs IH]; intros Hnd f Hf Hname; [by apply not_elem_of_nil in Hf|].
  cbn [List.find]. apply NoDup_cons in Hnd as [Hg Hnd]. case_bool_decide as Hgn.
  - apply elem_of_cons in Hf as [-> |Hf]; [done|]. destruct Hg. rewrite Hgn, <- Hname.
    by apply list_elem_of_fmap_2.
  - apply elem_of_cons in Hf as [-> |Hf]; [done|]. by apply IH.
Qed.

Lemma find_missing name (fs : list (avro_field_of avro)) :
  name ∉ map af_name fs -> List.find (fun g => bool_decide (af_name g = name)) fs = None.
Proof.
  induction fs as [|g fs IH]; intros Hn; [done|]. cbn in *. apply not_elem_of_cons in Hn as [Hg Hn].
  rewrite bool_decide_false by done. by apply IH.
Qed.

Lemma find_app_l name (fs gs : list (avro_field_of avro)) f :
  List.find (fun g => bool_decide (af_name g = name)) fs = Some f ->
  List.find (fun g => bool_decide (af_name g = name)) (fs ++ gs) = Some f.
Proof. induction fs as [|g fs IH]; [done|]. cbn. case_bool_decide; [done|apply IH]. Qed.

(** The Avro check looks the wrong way.  A field without default that is added to a record
    passes in mode BACKWARD and fails in mode FORWARD, and one that is removed fails in mode
    BACKWARD and passes in mode FORWARD; documented is the opposite: in mode BACKWARD the new
    schema must be able to read what the old one has written, where it has no value for an
    added field without default. *)
Theorem avro_modes_swapped without with_extra name fields extra (small big : Schema) small_text big_text :
  avro_parse_str small_text = inr without -> avro_parse_str big_text = inr with_extra ->
  sc_schema small = small_text -> sc_schema big = big_text ->
  avro_view without = ARecord name fields -> avro_view with_extra = ARecord name (fields ++ [extra]) ->
  avro_eqb without with_extra = false -> avro_eqb with_extra without = false ->
  NoDup (map af_name fields) -> af_name extra ∉ map af_name fields -> af_default extra = false ->
  Forall (fun f => schemas_compatible (af_schema f) (af_schema f) = true) fields ->
  check_avro_compatibility small big_text Backward = Ok true
  /\ check_avro_compatibility small big_text Forward = Ok false
  /\ check_avro_compatibility big small_text Backward = Ok false
  /\ check_avro_compatibility big small_text Forward = Ok true.
Proof.
  intros Hp1 Hp2 Hs1 Hs2 Hv1 Hv2 He1 He2 Hnd Hextra Hdef Hself.
  assert (Hadd : check_avro_backward_compatible without with_extra = Ok true).
  { unfold check_avro_backward_compatible. rewrite He1, Hv1, Hv2, bool_decide_true by done. cbn.
    f_equal. apply forallb_forall. intros f Hf%list_elem_of_In. unfold field_compatible.
    rewrite (find_app_l _ fields [extra] f); [by apply (proj1 (Forall_forall _ _) Hself)|].
    by apply find_field. }
  assert (Hmiss : check_avro_backward_compatible with_extra without = Ok false).
  { unfold check_avro_backward_compatible. rewrite He2, Hv1, Hv2, bool_decide_true by done. cbn.
    rewrite forallb_app. cbn. unfold field_compatible at 2. rewrite find_missing by done. rewrite Hdef.
    by rewrite andb_false_r. }
  unfold check_avro_compatibility. rewrite Hs1, Hs2, Hp1, Hp2. cbn. by rewrite Hadd, Hmiss.
Qed.
End avro.

(** ** JSON *)

Section json.
Context `{JsonLib}.
Abbreviation value := (json json_number).

Fixpoint json_size (v : value) : nat :=
  match v with
  | JArray l => S ((fix sum l := match l with [] => 0 | x :: l => json_size x + sum l end)%nat l)
  | JObject o => S ((fix sum o := match o with [] => 0 | e :: o => json_size e.2 + sum o end)%nat o)
  | _ => 1
  end.

Lemma get_size k o v : get k o = Some v -> (json_size v < json_size (JObject o))%nat.
Proof.
  induction o as [|[l x] o IH]; [done|]. cbn [get]. case_bool_decide; cbn in *; [|intros Hv; specialize (IH Hv); lia].
  intros [= ->]. lia.
Qed.

Lemma json_eqb_refl v : json_eqb v v = true.
Proof.
  remember (json_size v) as n eqn:Hn. assert (Hle : (json_size v <= n)%nat) by lia. clear Hn.
  revert v Hle. induction n as [|n IH]; intros v Hle; [destruct v; cbn in Hle; lia|].
  destruct v as [|b|x|s|l|o]; cbn [json_eqb]; [done|by destruct b|by apply bool_decide_eq_true_2..| |].
  - cbn in Hle. assert (Hl : (((fix sum l := match l with [] => 0 | x :: l => json_size x + sum l end) l) <= n)%nat) by lia.
    clear Hle. induction l as [|x l IHl]; [done|]. rewrite IH by lia. apply IHl. lia.
  - cbn in Hle. assert (Ho : (((fix sum o := match o with [] => 0 | e :: o => json_size e.2 + sum o end) o) <= n)%nat) by lia.
    clear Hle. induction o as [|[k x] o IHo]; [done|]. cbn [snd] in Ho. rewrite IH, bool_decide_true by (done || lia).
    apply IHo. lia.
Qed.

Lemma json_eqb_eq v w : json_eqb v w = true -> v = w.
Proof.
  remember (json_size v) as n eqn:Hn. assert (Hle : (json_size v <= n)%nat) by lia. clear Hn.
  revert v w Hle. induction n as [|n IH]; intros v w Hle; [destruct v; cbn in Hle; lia|].
  destruct v as [|b|x|s|l|o]; destruct w as [|b'|x'|s'|l'|o']; cbn [json_eqb]; try done.
  - by intros ->%eqb_prop.
  - by intros ->%bool_decide_eq_true_1.
  - by intros ->%bool_decide_eq_true_1.
  - intros He. f_equal. cbn in Hle.
    assert (Hl : (((fix sum l := match l with [] => 0 | x :: l => json_size x + sum l end) l) <= n)%nat) by lia.
    clear Hle. revert l' He. induction l as [|x l IHl]; intros [|y l'] He; try done.
    apply andb_true_iff in He as [Hx He]. f_equal; [by apply IH; [lia|]|apply IHl; [lia|done]].
  - intros He. f_equal. cbn in Hle.
    assert (Ho : (((fix sum o := match o with [] => 0 | e :: o => json_size e.2 + sum o end) o) <= n)%nat) by lia.
    clear Hle. revert o' He. induction o as [|[k x] o IHo]; intros [|[k' y] o'] He; try done. cbn [snd] in Ho.
    apply andb_true_iff in He as [[->%bool_decide_eq_true_1 Hx]%andb_true_iff He].
    f_equal; [f_equal; by apply IH; [lia|]|apply IHo; [lia|done]].
Qed.

(** The check on the properties that both schemas have. *)
Fixpoint check_each (old_p new_p : list (string * value)) : result bool :=
  match old_p with
  | [] => Ok true
  | (prop_name, old_prop_schema) :: old_p =>
      match get prop_name new_p with
      | Some new_prop_schema =>
          ok ← check_json_backward_compatible old_prop_schema new_prop_schema;
          if negb ok then Ok false else check_each old_p new_p
      | None => check_each old_p new_p
      end
  end.

Definition types_ok (o n : list (string * value)) : bool :=
  match get "type" o, get "type" n with
  | Some old_type, Some new_type => json_types_compatible old_type new_type
  | _, _ => true
  end.

Lemma check_json_unfold o n :
  check_json_backward_compatible (JObject o) (JObject n) =
  if negb (bool_decide (required_set n ⊆ required_set o)) then Ok false
  else if negb (types_ok o n) then Ok false
  else match get "properties" o, get "properties" n with
       | Some (JObject old_p), Some (JObject new_p) => check_each old_p new_p
       | _, _ => Ok true
       end.
Proof.
  cbn [check_json_backward_compatible]. destruct (negb (bool_decide _)); [done|]. unfold types_ok.
  destruct (get "type" o) as [ot|], (get "type" n) as [nt|]; cbn [negb];
    try destruct (negb (json_types_compatible ot nt)); try done;
    (induction o as [|[k v] o IH]; [done|]; cbn [get]; case_bool_decide; [|apply IH];
     destruct v as [| | | | |old_p]; try done; destruct (get "properties" n) as [[| | | | |new_p]|]; try done;
     induction old_p as [|[p s] old_p IHp]; [done|]; cbn [check_each];
     destruct (get p new_p); [destruct (check_json_backward_compatible _ _) as [[]|e|]; try done; apply IHp|apply IHp]).
Qed.

(** *** What the check means

    [valid] is the meaning of a JSON schema: of the entries "type", "required", "properties" and
    "additionalProperties" as the specification of JSON Schema has it; what all other entries ("enum", "items", "minimum" and so on)
    ask of a value is a parameter.  Schemas with "patternProperties" or references are left out. *)
Context (is_integer : json_number -> bool) (others : list (string * value) -> value -> bool).

Definition has_type (t : string) (x : value) : bool :=
  match x with
  | JNull => bool_decide (t = "null"%string)
  | JBool _ => bool_decide (t = "boolean"%string)
  | JNumber n => bool_decide (t = "number"%string) || (bool_decide (t = "integer"%string) && is_integer n)
  | JString _ => bool_decide (t = "string"%string)
  | JArray _ => bool_decide (t = "array"%string)
  | JObject _ => bool_decide (t = "object"%string)
  end.

Definition type_allows (ty x : value) : bool :=
  match ty with
  | JString t => has_type t x
  | JArray ts => existsb (fun t => match t with JString t => has_type t x | _ => false end) ts
  | _ => false
  end.

(** The entry under "properties" for a key. *)
Definition property (k : string) (o : list (string * value)) : option value :=
  match get "properties" o with Some (JObject p) => get k p | _ => None end.

(** The schema for the value of a key. *)
Definition governs (k : string) (o : list (string * value)) : option value :=
  match property k o with Some sub => Some sub | None => get "additionalProperties" o end.

Definition type_valid (o : list (string * value)) (x : value) : bool :=
  match get "type" o with Some ty => type_allows ty x | None => true end.

Definition required_valid (o fields : list (string * value)) : bool :=
  bool_decide (set_Forall (fun k => is_Some (get k fields)) (required_set o)).

Fixpoint valid (schema x : value) : bool :=
  match schema with
  | JObject o =>
      type_valid o x && others o x &&
      match x with
      | JObject fields =>
          required_valid o fields &&
          (fix each fields := match fields with
                              | [] => true
                              | (k, v) :: fields =>
                                  match governs k o with Some sub => valid sub v | None => true end && each fields
                              end) fields
      | _ => true
      end
  | JBool b => b
  | _ => false
  end.

(** What the check leaves to its users: the new schema says nothing of a type or a property of which the old one says nothing, and
    does not take one type out of a list of types; it restricts other properties as the old one does, and then does not drop a property, or not at all;
    and its other entries, which the check does not look at, ask no more of a value. *)
Inductive tracked : value -> value -> Prop :=
| tracked_object o n :
    match get "type" o, get "type" n with
    | _, None => True
    | None, Some _ => False
    | Some old_type, Some new_type => is_Some (as_array old_type) -> is_Some (as_array new_type)
    end ->
    (forall k, is_Some (property k n) -> is_Some (property k o)) ->
    (forall a, get "additionalProperties" n = Some a -> a = JBool true
       \/ get "additionalProperties" o = Some a /\ forall k, is_Some (property k o) -> is_Some (property k n)) ->
    (forall x, others o x = true -> others n x = true) ->
    (forall k old_sub new_sub, property k o = Some old_sub -> property k n = Some new_sub -> tracked old_sub new_sub) ->
    tracked (JObject o) (JObject n).

Lemma contains_elem l v : contains l v = true <-> v ∈ l.
Proof.
  unfold contains. rewrite existsb_exists. split.
  - intros (w & Hw%list_elem_of_In & He%json_eqb_eq). by subst w.
  - intros Hv. exists v. split; [by apply list_elem_of_In|apply json_eqb_refl].
Qed.

Lemma type_allows_elem ts t x : JString t ∈ ts -> has_type t x = true -> type_allows (JArray ts) x = true.
Proof. intros Ht Hx. apply existsb_exists. exists (JString t). split; [by apply list_elem_of_In|done]. Qed.

Lemma types_compatible_sound old_type new_type x :
  json_types_compatible old_type new_type = true ->
  (is_Some (as_array old_type) -> is_Some (as_array new_type)) ->
  type_allows old_type x = true -> type_allows new_type x = true.
Proof.
  intros Hc Harr Hx. unfold json_types_compatible in Hc. apply orb_true_iff in Hc as [->%json_eqb_eq|Hc]; [done|].
  destruct old_type as [| | |t|ts|]; try done; cbn in Hc.
  - destruct new_type as [| | |u|us|]; try done; cbn in Hc.
    + apply orb_true_iff in Hc as [[->%bool_decide_eq_true_1 ->%bool_decide_eq_true_1]%andb_true_iff| ->%bool_decide_eq_true_1];
        [by destruct x|done].
    + apply contains_elem in Hc. by apply (type_allows_elem us t).
  - cbn in Harr. destruct (as_array new_type) as [us|] eqn:Hn; [|by destruct Harr].
    destruct new_type as [| | | |us'|]; try done. injection Hn as ->.
    apply existsb_exists in Hx as (t & Ht%list_elem_of_In & Hx). destruct t as [| | |t| |]; try done.
    apply (type_allows_elem us t); [|done]. apply contains_elem.
    by apply (proj1 (forallb_forall _ _) Hc), list_elem_of_In.
Qed.

Lemma check_each_sound old_p new_p k old_sub new_sub :
  check_each old_p new_p = Ok true -> get k old_p = Some old_sub -> get k new_p = Some new_sub ->
  check_json_backward_compatible old_sub new_sub = Ok true.
Proof.
  intros Hc Hold Hnew. induction old_p as [|[l s] old_p IH]; [done|]. cbn [check_each get] in *.
  case_bool_decide.
  - injection Hold as ->. subst l. rewrite Hnew in Hc.
    by destruct (check_json_backward_compatible old_sub new_sub) as [[]| |].
  - apply IH; [|done]. destruct (get l new_p); [|done].
    by destruct (check_json_backward_compatible _ _) as [[]| |].
Qed.

Lemma check_object_sound o n :
  check_json_backward_compatible (JObject o) (JObject n) = Ok true ->
  required_set n ⊆ required_set o /\ types_ok o n = true
  /\ forall k old_sub new_sub, property k o = Some old_sub -> property k n = Some new_sub ->
       check_json_backward_compatible old_sub new_sub = Ok true.
Proof.
  rewrite check_json_unfold. case_bool_decide as Hreq; [|done]. cbn [negb]. intros Hc. split; [done|].
  destruct (types_ok o n); [|done]. cbn [negb] in Hc. split; [done|]. intros k old_sub new_sub. unfold property.
  destruct (get "properties" o) as [[| | | | |old_p]|]; try done.
  destruct (get "properties" n) as [[| | | | |new_p]|]; try done. by apply check_each_sound.
Qed.

(** C35: a JSON schema that passes the check in mode BACKWARD accepts all data that the old
    schema accepted, as long as it does not restrict data in one of the ways that the check does not look at: a type or a
    property of which the old schema said nothing, one type taken out of a list of types, other properties restricted by "additionalProperties", or
    any other entry asking more of a value.  Such a schema can pass and reject data that the old one accepted.  Schemas have no "patternProperties" and no references. *)
Theorem json_check_sound old_schema new_schema x :
  check_json_backward_compatible old_schema new_schema = Ok true -> tracked old_schema new_schema ->
  valid old_schema x = true -> valid new_schema x = true.
Proof.
  remember (json_size x) as m eqn:Hm. assert (Hle : (json_size x <= m)%nat) by lia. clear Hm.
  revert x Hle old_schema new_schema. induction m as [|m IH]; intros x Hle old new Hc Ht Hx; [destruct x; cbn in Hle; lia|].
  destruct Ht as [o n Htype Hprops Hadd Hothers Hsubs].
  apply check_object_sound in Hc as (Hreq & Htypes & Hsub).
  assert (Hty : type_valid o x = true -> type_valid n x = true).
  { unfold type_valid. unfold types_ok in Htypes. destruct (get "type" n) as [nt|]; [|done].
    destruct (get "type" o) as [ot|]; [|done]. by apply types_compatible_sound. }
  destruct x as [| | | | |fields]; cbn [valid] in *;
    try (rewrite andb_true_r in *; apply andb_true_iff in Hx as [Htx Hox]; apply andb_true_iff; split; [by apply Hty|by apply Hothers]).
  apply andb_true_iff in Hx as [[Htx Hox]%andb_true_iff [Hrv Hx]%andb_true_iff]. rewrite (Hty Htx), (Hothers _ Hox). cbn [andb].
  apply andb_true_iff. split.
  - apply bool_decide_eq_true_1 in Hrv. apply bool_decide_eq_true_2. intros k Hk. by apply Hrv, Hreq.
  - cbn in Hle. clear Hrv Hty Htx Hox. assert (Hf : (((fix sum o := match o with [] => 0 | e :: o => json_size e.2 + sum o end) fields) <= m)%nat) by lia.
    clear Hle. induction fields as [|[k v] fields IHf]; [done|]. cbn [snd] in Hf.
    apply andb_true_iff in Hx as [Hv Hx]. apply andb_true_iff. split; [|apply IHf; [done|lia]].
    unfold governs in *. destruct (property k n) as [new_sub|] eqn:Hn.
    + destruct (Hprops k (ex_intro _ new_sub Hn)) as [old_sub Ho].
      rewrite Ho in Hv. apply (IH v ltac:(lia) old_sub new_sub); [by apply (Hsub k)|by apply (Hsubs k)|done].
    + destruct (get "additionalProperties" n) as [a|] eqn:Ha; [|done]. destruct (Hadd a eq_refl) as [-> |[Hoa Hdrop]]; [by destruct v|].
      destruct (property k o) as [old_sub|] eqn:Ho; [destruct (Hdrop k); [by eexists|congruence]|]. by rewrite Hoa in Hv.
Qed.

(** Schemas that pass without tracking: a type is taken out of a list of types, a property gets a type, and other properties are refused. *)
Lemma json_check_gaps :
  let passes old new x := check_json_backward_compatible old new = Ok true /\ valid old x = true /\ valid new x = false in
  let object_of p := JObject [("properties"%string, JObject p)] in
  (forall o x, others o x = true) ->
  passes (JObject [("type"%string, JArray [JString "string"; JString "null"])]) (JObject [("type"%string, JString "string")]) JNull
  /\ passes (object_of []) (object_of [("a"%string, JObject [("type"%string, JString "string")])]) (JObject [("a"%string, JNull)])
  /\ passes (JObject [("type"%string, JString "object")]) (JObject [("type"%string, JString "object"); ("additionalProperties"%string, JBool false)])
       (JObject [("a"%string, JNull)]).
Proof. intros passes object_of Ho. unfold passes. cbn [valid object_of]. rewrite !Ho. by vm_compute. Qed.
End json.
