(* ===== verification/SchemaMemory.v ===== *)
(** * The schema storage in memory
    (crates/streamhouse-schema-registry/src/storage.rs, [MemorySchemaStorage])

    The maps behind the locks, one function per method, each without a step of another call
    between its locks; ids and versions are i32. *)

From stdpp Require Import sorting.
From S2P Require Import Prelude SchemaTypes.

Record MemorySchemaStorage : Type := mk_memory {
  next_id : Z;
  schemas_by_id : gmap Z Schema;
  (** subject to pairs of version and id *)
  subject_versions : gmap string (list (Z * Z));
  subject_configs : gmap string SubjectConfig;
  global_compat : CompatibilityMode
}.

Definition new : MemorySchemaStorage := mk_memory 1 ∅ ∅ ∅ Backward.

Definition set_schemas by_id versions (m : MemorySchemaStorage) : MemorySchemaStorage :=
  mk_memory (next_id m) by_id versions (subject_configs m) (global_compat m).

Definition generate_id (m : MemorySchemaStorage) : MemorySchemaStorage * Z :=
  (mk_memory (swrap 32 (next_id m + 1)) (schemas_by_id m) (subject_versions m) (subject_configs m) (global_compat m),
   next_id m).

(** The last of the entries with the greatest key ([max_by_key]). *)
Definition max_by_key {A} (key : A -> Z) (l : list A) : option A :=
  foldl (fun m a => match m with Some b => if key b <=? key a then Some a else m | None => Some a end) None l.

Definition with_id_version (id version : Z) (s : Schema) : Schema :=
  mk_schema id (sc_subject s) version (sc_type s) (sc_schema s) (sc_references s) (sc_metadata s).

(** The first version of the subject whose schema has this text. *)
Fixpoint find_text (by_id : gmap Z Schema) (text : string) (v : list (Z * Z)) : option Z :=
  match v with
  | [] => None
  | (_, id) :: v =>
      match by_id !! id with
      | Some s => if bool_decide (sc_schema s = text) then Some id else find_text by_id text v
      | None => find_text by_id text v
      end
  end.

Definition schema_exists (subject schema_str _org_id : string) (m : MemorySchemaStorage) : result (option Z) :=
  Ok (match subject_versions m !! subject with
      | Some v => find_text (schemas_by_id m) schema_str v
      | None => None
      end).

Definition next_version (subject : string) (m : MemorySchemaStorage) : Z :=
  match subject_versions m !! subject with
  | Some v => swrap 32 (default 0 (max_by_key id (map fst v)) + 1)
  | None => 1
  end.

Definition register_schema (schema : Schema) (_org_id : string) (m : MemorySchemaStorage)
  : MemorySchemaStorage * result Z :=
  match schema_exists (sc_subject schema) (sc_schema schema) _org_id m with
  | Ok (Some existing_id) => (m, Ok existing_id)
  | Ok None =>
      let '(m, id) := generate_id m in
      let version := next_version (sc_subject schema) m in
      let schema := with_id_version id version schema in
      (set_schemas (<[id := schema]> (schemas_by_id m))
         (<[sc_subject schema := default [] (subject_versions m !! sc_subject schema) ++ [(version, id)]]>
            (subject_versions m)) m,
       Ok id)
  | Err e => (m, Err e)
  | Panic => (m, Panic)
  end.

Definition get_schema_by_id (id : Z) (m : MemorySchemaStorage) : result (option Schema) := Ok (schemas_by_id m !! id).

Definition get_schema_by_subject_version (subject : string) (version : Z) (_org_id : string) (m : MemorySchemaStorage)
  : result (option Schema) :=
  Ok (v ← subject_versions m !! subject;
      e ← List.find (fun e => e.1 =? version) v;
      schemas_by_id m !! e.2).

Definition get_latest_schema (subject _org_id : string) (m : MemorySchemaStorage) : result (option Schema) :=
  Ok (v ← subject_versions m !! subject;
      e ← max_by_key fst v;
      schemas_by_id m !! e.2).

Definition get_versions (subject _org_id : string) (m : MemorySchemaStorage) : result (list Z) :=
  Ok (match subject_versions m !! subject with
      | Some v => merge_sort Z.le (map fst v)
      | None => []
      end).

Definition get_subjects (_org_id : string) (m : MemorySchemaStorage) : result (list string) :=
  Ok (merge_sort String.le (map fst (map_to_list (subject_versions m)))).

Definition delete_subject (subject _org_id : string) (m : MemorySchemaStorage)
  : MemorySchemaStorage * result (list Z) :=
  let removed_versions := default [] (subject_versions m !! subject) in
  (set_schemas (foldl (fun by_id e => delete e.2 by_id) (schemas_by_id m) removed_versions)
     (delete subject (subject_versions m)) m,
   Ok (map fst removed_versions)).

(** The id of the first entry with the version, and the entries without it. *)
Fixpoint remove_version (version : Z) (v : list (Z * Z)) : option (Z * list (Z * Z)) :=
  match v with
  | [] => None
  | (ver, id) :: v =>
      if ver =? version then Some (id, v)
      else '(sid, v) ← remove_version version v; Some (sid, (ver, id) :: v)
  end.

(** A subject of which the last version is deleted stays, without versions. *)
Definition delete_version (subject : string) (version : Z) (_org_id : string) (m : MemorySchemaStorage)
  : MemorySchemaStorage * result Z :=
  (match subject_versions m !! subject ≫= remove_version version with
   | Some (sid, v) => set_schemas (delete sid (schemas_by_id m)) (<[subject := v]> (subject_versions m)) m
   | None => m
   end, Ok version).

Definition get_subject_config (subject _org_id : string) (m : MemorySchemaStorage) : result (option SubjectConfig) :=
  Ok (subject_configs m !! subject).

Definition set_subject_config (config : SubjectConfig) (_org_id : string) (m : MemorySchemaStorage)
  : MemorySchemaStorage * result () :=
  (mk_memory (next_id m) (schemas_by_id m) (subject_versions m)
     (<[cf_subject config := config]> (subject_configs m)) (global_compat m), Ok ()).

Definition get_global_compatibility (m : MemorySchemaStorage) : result CompatibilityMode := Ok (global_compat m).

Definition set_global_compatibility (mode : CompatibilityMode) (m : MemorySchemaStorage)
  : MemorySchemaStorage * result () :=
  (mk_memory (next_id m) (schemas_by_id m) (subject_versions m) (subject_configs m) mode, Ok ()).

#[export] Instance memory_storage : SchemaStorage MemorySchemaStorage := {|
  st_fault _ m := m;
  st_register := register_schema; st_by_id := get_schema_by_id; st_by_version := get_schema_by_subject_version;
  st_latest := get_latest_schema; st_versions := get_versions; st_subjects := get_subjects;
  st_delete_subject := delete_subject; st_delete_version := delete_version; st_exists := schema_exists;
  st_config := get_subject_config; st_set_config := set_subject_config;
  st_global := get_global_compatibility; st_set_global := set_global_compatibility |}.

(** ** Facts *)

Lemma max_by_key_in {A} (key : A -> Z) (l : list A) a : max_by_key key l = Some a -> a ∈ l.
Proof.
  enough (Hg : forall m, foldl (fun m a => match m with Some b => if key b <=? key a then Some a else m
            | None => Some a end) m l = Some a -> a ∈ l \/ m = Some a).
  { intros Ha. by destruct (Hg None Ha). }
  induction l as [|b l IH]; intros m Ha; [by right|]. cbn in Ha. apply IH in Ha as [Ha|Ha]; [left; by right|].
  destruct m as [c|]; [destruct (key c <=? key b); [|by right]|]; injection Ha as ->; left; by left.
Qed.

Lemma max_by_key_some {A} (key : A -> Z) (l : list A) : l <> [] -> is_Some (max_by_key key l).
Proof.
  enough (Hg : forall m, m <> None \/ l <> [] -> is_Some (foldl (fun m a => match m with Some b =>
            if key b <=? key a then Some a else m | None => Some a end) m l)) by (intros Hl; apply Hg; by right).
  induction l as [|b l IH]; intros m Hm; [destruct Hm; [by destruct m|done]|].
  cbn. apply IH. left. destruct m as [c|]; [by destruct (key c <=? key b)|done].
Qed.

Lemma max_by_key_max {A} (key : A -> Z) (l : list A) a :
  max_by_key key l = Some a -> forall b, b ∈ l -> key b <= key a.
Proof.
  enough (Hg : forall m, foldl (fun m a => match m with Some b => if key b <=? key a then Some a else m
            | None => Some a end) m l = Some a -> forall b, b ∈ l \/ m = Some b -> key b <= key a).
  { intros Ha b Hb. apply (Hg None); [done|by left]. }
  induction l as [|c l IH]; intros m Ha b Hb; cbn in Ha.
  - destruct Hb as [Hb|Hb]; [by apply not_elem_of_nil in Hb|]. replace b with a by congruence. lia.
  - specialize (IH _ Ha). destruct Hb as [[-> |Hb]%elem_of_cons| ->].
    + destruct m as [d|]; [|by apply IH; right]. destruct (Z.leb_spec (key d) (key c)); [by apply IH; right|].
      specialize (IH d (or_intror eq_refl)). lia.
    + by apply IH; left.
    + destruct (Z.leb_spec (key b) (key c)); [|by apply IH; right].
      specialize (IH c (or_intror eq_refl)). lia.
Qed.

Lemma find_text_some by_id text v id :
  find_text by_id text v = Some id -> exists s, by_id !! id = Some s /\ sc_schema s = text.
Proof.
  induction v as [|[ver i] v IH]; [done|]. cbn. destruct (by_id !! i) as [s|] eqn:Hi; [|done].
  case_bool_decide; [|done]. intros [= ->]. by exists s.
Qed.

Lemma remove_version_incl version v id v' :
  remove_version version v = Some (id, v') -> forall e, e ∈ v' -> e ∈ v.
Proof.
  revert v'. induction v as [|[ver i] v IH]; intros v' Hr; [done|]. cbn in Hr. destruct (ver =? version).
  - injection Hr as -> ->. intros e He. by right.
  - destruct (remove_version version v) as [[j w]|]; [|done]. cbn in Hr. injection Hr as -> <-.
    intros e [-> |He]%elem_of_cons; [by left|right; by apply (IH w)].
Qed.

Lemma foldl_delete_lookup {A} (l : list A) (f : A -> Z) (m : gmap Z Schema) i s :
  foldl (fun m e => delete (f e) m) m l !! i = Some s -> m !! i = Some s.
Proof.
  revert m. induction l as [|a l IH]; intros m Hl; [done|]. cbn in Hl. apply IH in Hl.
  by apply lookup_delete_Some in Hl as [_ Hl].
Qed.

(** An entry of a subject leads to the schema it was made for. *)
Definition entry_ok (m : MemorySchemaStorage) (subject : string) (e : Z * Z) : Prop :=
  e.2 < next_id m /\ forall s, schemas_by_id m !! e.2 = Some s -> sc_subject s = subject /\ sc_version s = e.1.

Definition mem_named (n : nat) (names : gmap Z string) (m : MemorySchemaStorage) : Prop :=
  (1 <= next_id m /\ next_id m + Z.of_nat n <= 2 ^ 31 - 1)
  /\ (forall id s, schemas_by_id m !! id = Some s -> sc_id s = id /\ names !! id = Some (sc_schema s))
  /\ (forall id t, names !! id = Some t -> id < next_id m)
  /\ (forall subject v e, subject_versions m !! subject = Some v -> e ∈ v -> entry_ok m subject e).

(** Taking schemas and versions away. *)
Lemma mem_named_shrink n names m by_id versions :
  mem_named n names m ->
  (forall i s, by_id !! i = Some s -> schemas_by_id m !! i = Some s) ->
  (forall subject v e, versions !! subject = Some v -> e ∈ v ->
     exists w, subject_versions m !! subject = Some w /\ e ∈ w) ->
  mem_named n names (set_schemas by_id versions m).
Proof.
  intros (Hid & Hby & Hn & Hent) Hb Hv. split; [done|]. split; [by intros id s Hs; apply Hby, Hb|]. split; [done|].
  intros subject v e Hs He. destruct (Hv subject v e Hs He) as (w & Hw & Hew).
  destruct (Hent subject w e Hw Hew) as [Hlt He']. split; [done|]. intros s Hl. by apply He', Hb.
Qed.

Lemma mem_register n names m s org m' r :
  mem_named (S n) names m -> register_schema s org m = (m', r) ->
  exists names', names ⊆ names' /\ mem_named n names' m'
    /\ (forall id, r = Ok id -> names' !! id = Some (sc_schema s)).
Proof.
  intros (Hid & Hby & Hn & Hent) Hr. unfold register_schema, schema_exists in Hr.
  assert (Hex : forall v id, subject_versions m !! sc_subject s = Some v ->
            find_text (schemas_by_id m) (sc_schema s) v = Some id -> names !! id = Some (sc_schema s)).
  { intros v id _ Hf. apply find_text_some in Hf as (t & Ht & <-). by apply Hby. }
  destruct (match subject_versions m !! sc_subject s with Some v => _ | None => None end) as [id|] eqn:Hf.
  - injection Hr as <- <-. exists names. split; [done|]. split; [split; [lia|done]|]. intros id' [= <-].
    destruct (subject_versions m !! sc_subject s) as [v|] eqn:Hv; [by apply (Hex v)|done].
  - unfold generate_id in Hr. injection Hr as <- <-. exists (<[next_id m := sc_schema s]> names).
    assert (Hfresh : forall i t, names !! i = Some t -> i <> next_id m) by (intros i t Hi ->; apply Hn in Hi; lia).
    cbn [sc_subject with_id_version]. split; [|split; [split; [|split; [|split]]|]].
    + apply insert_subseteq. destruct (names !! next_id m) as [t|] eqn:Ht; [by destruct (Hfresh _ _ Ht)|done].
    + cbn. rewrite swrap_small by (unfold in_i; lia). lia.
    + cbn. intros i t [[<- <-]|[Hi Ht]]%lookup_insert_Some; [by rewrite lookup_insert_eq|].
      rewrite lookup_insert_ne by done. by apply Hby.
    + cbn. rewrite swrap_small by (unfold in_i; lia).
      intros i t [[<- <-]|[Hi Ht]]%lookup_insert_Some; [lia|]. apply Hn in Ht. lia.
    + assert (Hkeep : forall subject v e, subject_versions m !! subject = Some v -> e ∈ v ->
                e.2 < next_id m + 1 /\ forall t, <[next_id m := with_id_version (next_id m)
                    (next_version (sc_subject s) (fst (generate_id m))) s]> (schemas_by_id m) !! e.2 = Some t ->
                sc_subject t = subject /\ sc_version t = e.1).
      { intros subject v e Hv He. destruct (Hent subject v e Hv He) as [Hlt He']. split; [lia|].
        intros t Ht. rewrite lookup_insert_ne in Ht by lia. by apply He'. }
      unfold entry_ok. cbn. rewrite swrap_small by (unfold in_i; lia).
      intros subject v e [[<- <-]|[Hs Hv]]%lookup_insert_Some He; [|by apply (Hkeep subject v e)].
      apply elem_of_app in He as [He|He%list_elem_of_singleton].
      * destruct (subject_versions m !! sc_subject s) as [v|] eqn:Hv; [|by apply not_elem_of_nil in He].
        by apply (Hkeep (sc_subject s) v e).
      * subst e. cbn. split; [lia|]. intros t. rewrite lookup_insert_eq. by intros [= <-].
    + intros i [= <-]. by rewrite lookup_insert_eq.
Qed.

Lemma mem_by_version n names m subject version org s :
  mem_named n names m -> get_schema_by_subject_version subject version org m = Ok (Some s) ->
  names !! sc_id s = Some (sc_schema s) /\ sc_subject s = subject /\ sc_version s = version.
Proof.
  intros (_ & Hby & _ & Hent) Hg. unfold get_schema_by_subject_version in Hg.
  destruct (subject_versions m !! subject) as [v|] eqn:Hv; [|done]. cbn in Hg.
  destruct (List.find _ v) as [e|] eqn:Hf; [|done]. cbn in Hg. injection Hg as Hs.
  apply find_some in Hf as [He%list_elem_of_In Hver]. destruct (Hent subject v e Hv He) as [_ He'].
  destruct (He' s Hs) as [Hsub Hv']. destruct (Hby _ _ Hs) as [Hid Hn]. rewrite Hid. split; [done|]. split; [done|]. lia.
Qed.

Lemma mem_latest n names m subject org s :
  mem_named n names m -> get_latest_schema subject org m = Ok (Some s) ->
  names !! sc_id s = Some (sc_schema s) /\ sc_subject s = subject.
Proof.
  intros (_ & Hby & _ & Hent) Hg. unfold get_latest_schema in Hg.
  destruct (subject_versions m !! subject) as [v|] eqn:Hv; [|done]. cbn in Hg.
  destruct (max_by_key fst v) as [e|] eqn:Hm; [|done]. cbn in Hg. injection Hg as Hs.
  apply max_by_key_in in Hm. destruct (Hent subject v e Hv Hm) as [_ He'].
  destruct (He' s Hs) as [Hsub _]. destruct (Hby _ _ Hs) as [Hid Hn]. by rewrite Hid.
Qed.

Lemma mem_delete_subject n names m subject org :
  mem_named n names m -> mem_named n names (fst (delete_subject subject org m)).
Proof.
  intros Hm. apply mem_named_shrink; [done|intros i s; apply foldl_delete_lookup|].
  intros t v e [_ Hv]%lookup_delete_Some He. by exists v.
Qed.

Lemma mem_delete_version n names m subject version org :
  mem_named n names m -> mem_named n names (fst (delete_version subject version org m)).
Proof.
  intros Hm. cbn. destruct (subject_versions m !! subject) as [v|] eqn:Hv; [|done]. cbn.
  destruct (remove_version version v) as [[sid w]|] eqn:Hr; [|done].
  apply mem_named_shrink; [done|by intros i s [_ Hs]%lookup_delete_Some|].
  intros t u e [[<- <-]|[Ht Hu]]%lookup_insert_Some He; [|by exists u].
  exists v. split; [done|]. by apply (remove_version_incl version v sid w).
Qed.

#[local] Obligation Tactic := idtac.

#[export] Program Instance memory_laws : SchemaStorageLaws MemorySchemaStorage := {|
  text_ok _ := True; named := mem_named |}.
Next Obligation. done. Qed.
Next Obligation. intros n names m (Hid & Hm). split; [lia|done]. Qed.
Next Obligation. intros n names m s org m' r Hm _. by apply mem_register. Qed.
Next Obligation. intros n names m subject org. apply mem_delete_subject. Qed.
Next Obligation. intros n names m subject version org. apply mem_delete_version. Qed.
Next Obligation. done. Qed.
Next Obligation. done. Qed.
Next Obligation. intros n names m id s (_ & Hby & _) [= Hs]. by apply Hby. Qed.
Next Obligation. intros n names m subject version org s. apply mem_by_version. Qed.
Next Obligation. intros n names m subject org s. apply mem_latest. Qed.
Next Obligation.
  intros n names m subject text org id (_ & Hby & _) _ He. cbn in He. unfold schema_exists in He.
  destruct (subject_versions m !! subject) as [v|]; [|done]. injection He as He.
  apply find_text_some in He as (s & Hs & <-). by apply Hby.
Qed.

Lemma mem_named_new n : Z.of_nat n <= 2 ^ 31 - 2 -> mem_named n ∅ new.
Proof. intros Hn. split; [cbn; lia|]. by split. Qed.
