(* ===== verification/SchemaPostgres.v ===== *)
(** * The schema storage on PostgreSQL
    (crates/streamhouse-schema-registry/src/storage_postgres.rs, with the tables of
    crates/streamhouse-metadata/migrations-postgres/001_schema.sql)

    Each SQL statement is translated to what it does to the rows, with the keys of the
    tables.  Times and the column [id] of [schema_registry_versions], which no query reads,
    are left out. *)

From stdpp Require Import sorting.
From S2P Require Import Prelude Core MetadataError Catalog SchemaTypes SchemaMemory.

(** What the code uses of other code: SHA-256 in hexadecimal, [Uuid::parse_str], and of the
    server whether a text fits VARCHAR(255), the order in which it finds the rows of a query
    without ORDER BY, and its order of texts. *)
Class SchemaDb := {
  sha256_hex : string -> string;
  parse_uuid : string -> option string;
  nil_uuid : string;
  fits_varchar_255 : string -> bool;
  scan : forall {A}, list A -> list A;
  order_by_text : list string -> list string
}.

(** [tellable] are texts among which there is no collision of hashes. *)
Class SchemaDbLaws `(SchemaDb) := {
  tellable : string -> Prop;
  sha256_tells a b : tellable a -> tellable b -> sha256_hex a = sha256_hex b -> a = b;
  scan_perm {A} (l : list A) : scan l ≡ₚ l;
  order_by_text_perm l : order_by_text l ≡ₚ l
}.

Record schema_row : Type := mk_schema_row {
  s_id : Z; s_format : string; s_definition : string; s_hash : string; s_organization : string }.
Record version_row : Type := mk_version_row {
  v_subject : string; v_version : Z; v_schema_id : Z; v_organization : string }.

(** [schema_registry_schemas] with the next value of its sequence,
    [schema_registry_versions], [schema_registry_subject_config] (mode and organization by
    subject) and the one row of [schema_registry_global_config]. *)
Record PostgresSchemaStorage : Type := mk_postgres {
  pg_fault : fault;
  pg_organizations : gset string;
  next_schema_id : Z;
  pg_schemas : list schema_row;
  pg_versions : list version_row;
  pg_configs : gmap string (string * string);
  pg_global : string
}.

Definition set_fault f (d : PostgresSchemaStorage) : PostgresSchemaStorage :=
  mk_postgres f (pg_organizations d) (next_schema_id d) (pg_schemas d) (pg_versions d) (pg_configs d) (pg_global d).
Definition set_rows next schemas versions (d : PostgresSchemaStorage) : PostgresSchemaStorage :=
  mk_postgres (pg_fault d) (pg_organizations d) next schemas versions (pg_configs d) (pg_global d).
Definition set_configs configs global (d : PostgresSchemaStorage) : PostgresSchemaStorage :=
  mk_postgres (pg_fault d) (pg_organizations d) (next_schema_id d) (pg_schemas d) (pg_versions d) configs global.

Definition format_to_string (format : SchemaFormat) : string :=
  match format with Avro => "avro" | Protobuf => "protobuf" | Json => "json" end.

Definition string_to_format (s : string) : result SchemaFormat :=
  let t := to_lowercase s in
  if bool_decide (t = "avro"%string) then Ok Avro
  else if bool_decide (t = "protobuf"%string) then Ok Protobuf
  else if bool_decide (t = "json"%string) then Ok Json
  else Err (InvalidFormat s).

Definition compatibility_to_string (mode : CompatibilityMode) : string :=
  match mode with
  | Backward => "backward" | Forward => "forward" | Full => "full"
  | BackwardTransitive => "backward_transitive" | ForwardTransitive => "forward_transitive"
  | FullTransitive => "full_transitive" | NoCheck => "none"
  end.

Definition string_to_compatibility (s : string) : result CompatibilityMode :=
  let t := to_lowercase s in
  if bool_decide (t = "backward"%string) then Ok Backward
  else if bool_decide (t = "forward"%string) then Ok Forward
  else if bool_decide (t = "full"%string) then Ok Full
  else if bool_decide (t = "backward_transitive"%string) then Ok BackwardTransitive
  else if bool_decide (t = "forward_transitive"%string) then Ok ForwardTransitive
  else if bool_decide (t = "full_transitive"%string) then Ok FullTransitive
  else if bool_decide (t = "none"%string) then Ok NoCheck
  else Err (InvalidCompatibilityMode s).

Definition violates (constraint : string) : SchemaError := SchemaDatabaseError ("violates constraint " +:+ constraint).

Section postgres.
Context `{SchemaDb}.

Abbreviation storage := PostgresSchemaStorage.

Definition compute_hash (schema_definition : string) : string := sha256_hex schema_definition.
Definition parsed_org_id (org_id : string) : string := default nil_uuid (parse_uuid org_id).

(** [schema_registry_schemas s JOIN schema_registry_versions v ON s.id = v.schema_id WHERE ..]. *)
Definition join (cond : schema_row -> version_row -> bool) (d : storage) : list (schema_row * version_row) :=
  scan (filter (fun r => (s_id r.1 =? v_schema_id r.2) && cond r.1 r.2 = true)
          (s ← pg_schemas d; v ← pg_versions d; [(s, v)])).

Definition to_schema (r : schema_row * version_row) : result Schema :=
  format ← string_to_format (s_format r.1);
  Ok (mk_schema (s_id r.1) (v_subject r.2) (v_version r.2) format (s_definition r.1) [] no_metadata).

Definition to_optional_schema (r : option (schema_row * version_row)) : result (option Schema) :=
  match r with Some r => s ← to_schema r; Ok (Some s) | None => Ok None end.

Definition in_subject (subject org_id : string) (v : version_row) : bool :=
  bool_decide (v_subject v = subject) && bool_decide (v_organization v = parsed_org_id org_id).

Definition get_schema_by_id (id : Z) (d : storage) : result (option Schema) :=
  to_optional_schema (max_by_key (fun r => v_version r.2) (join (fun s _ => s_id s =? id) d)).

Definition get_schema_by_subject_version (subject : string) (version : Z) (org_id : string) (d : storage)
  : result (option Schema) :=
  to_optional_schema (head (join (fun _ v => in_subject subject org_id v && (v_version v =? version)) d)).

Definition get_latest_schema (subject org_id : string) (d : storage) : result (option Schema) :=
  to_optional_schema (max_by_key (fun r => v_version r.2) (join (fun _ v => in_subject subject org_id v) d)).

Definition get_versions (subject org_id : string) (d : storage) : result (list Z) :=
  Ok (merge_sort Z.le (map v_version (filter (fun v => in_subject subject org_id v = true) (pg_versions d)))).

Definition get_subjects (org_id : string) (d : storage) : result (list string) :=
  Ok (order_by_text (remove_dups (map v_subject
        (filter (fun v => v_organization v = parsed_org_id org_id) (pg_versions d))))).

Definition schema_exists (subject schema org_id : string) (d : storage) : result (option Z) :=
  Ok (r ← head (join (fun s v => in_subject subject org_id v && bool_decide (s_hash s = compute_hash schema)) d);
      Some (s_id r.1)).

(** INSERT INTO schema_registry_schemas .. ON CONFLICT (schema_hash) .. RETURNING id *)
Definition insert_schema (schema : Schema) (org : string) (d : storage) : result (list schema_row * Z) :=
  let hash := compute_hash (sc_schema schema) in
  if 2 ^ 31 - 1 <? next_schema_id d then Err (SchemaDatabaseError "nextval: reached maximum value of sequence")
  else
    match List.find (fun r => bool_decide (s_hash r = hash)) (pg_schemas d) with
    | Some r => Ok (pg_schemas d, s_id r)
    | None =>
        if negb (bool_decide (org ∈ pg_organizations d)) then Err (violates "organization_id_fkey")
        else
          let id := next_schema_id d in
          Ok (pg_schemas d ++ [mk_schema_row id (format_to_string (sc_type schema)) (sc_schema schema) hash org], id)
    end.

(** INSERT INTO schema_registry_versions .. *)
Definition insert_version (row : version_row) (d : storage) : result (list version_row) :=
  if negb (fits_varchar_255 (v_subject row)) then
    Err (SchemaDatabaseError "value too long for type character varying(255)")
  else if existsb (fun v => bool_decide (v_subject v = v_subject row) && (v_version v =? v_version row)) (pg_versions d)
  then Err (violates "subject_version_key")
  else if negb (bool_decide (v_organization row ∈ pg_organizations d)) then Err (violates "organization_id_fkey")
  else Ok (pg_versions d ++ [row]).

(** A transaction that fails leaves no rows, but has taken a value from the sequence. *)
Definition register_schema (schema : Schema) (org_id : string) (d : storage) : storage * result Z :=
  let refused e := (d, Err e) in
  match schema_exists (sc_subject schema) (sc_schema schema) org_id d,
        get_latest_schema (sc_subject schema) org_id d with
  | Ok (Some existing_id), _ => (d, Ok existing_id)
  | Ok None, Ok latest =>
      let version := match latest with Some latest => swrap 32 (sc_version latest + 1) | None => 1 end in
      let org := parsed_org_id org_id in
      let next := if 2 ^ 31 - 1 <? next_schema_id d then next_schema_id d else next_schema_id d + 1 in
      match
        '(schemas, schema_id) ← insert_schema schema org d;
        versions ← insert_version (mk_version_row (sc_subject schema) version schema_id org) d;
        Ok (schemas, versions, schema_id)
      with
      | Ok (schemas, versions, schema_id) => (set_rows next schemas versions d, Ok schema_id)
      | Err e => (set_rows next (pg_schemas d) (pg_versions d) d, Err e)
      | Panic => (d, Panic)
      end
  | Err e, _ | Ok None, Err e => refused e
  | Panic, _ | Ok None, Panic => (d, Panic)
  end.

Definition delete_versions (cond : version_row -> bool) (d : storage) : storage :=
  set_rows (next_schema_id d) (pg_schemas d) (filter (fun v => cond v = false) (pg_versions d)) d.

(** The schemas stay. *)
Definition delete_subject (subject org_id : string) (d : storage) : storage * result (list Z) :=
  (delete_versions (in_subject subject org_id) d, get_versions subject org_id d).

Definition delete_version (subject : string) (version : Z) (org_id : string) (d : storage) : storage * result Z :=
  (delete_versions (fun v => in_subject subject org_id v && (v_version v =? version)) d, Ok version).

(** The organization is not looked at. *)
Definition get_subject_config (subject _org_id : string) (d : storage) : result (option SubjectConfig) :=
  match pg_configs d !! subject with
  | Some (compatibility_str, _) =>
      mode ← string_to_compatibility compatibility_str;
      Ok (Some (mk_subject_config subject mode))
  | None => Ok None
  end.

Definition set_subject_config (config : SubjectConfig) (org_id : string) (d : storage) : storage * result () :=
  let mode := compatibility_to_string (cf_compatibility config) in
  match pg_configs d !! cf_subject config with
  | Some (_, org) => (set_configs (<[cf_subject config := (mode, org)]> (pg_configs d)) (pg_global d) d, Ok ())
  | None =>
      if negb (fits_varchar_255 (cf_subject config)) then
        (d, Err (SchemaDatabaseError "value too long for type character varying(255)"))
      else if negb (bool_decide (parsed_org_id org_id ∈ pg_organizations d)) then
        (d, Err (violates "organization_id_fkey"))
      else (set_configs (<[cf_subject config := (mode, parsed_org_id org_id)]> (pg_configs d)) (pg_global d) d, Ok ())
  end.

Definition get_global_compatibility (d : storage) : result CompatibilityMode := string_to_compatibility (pg_global d).

Definition set_global_compatibility (mode : CompatibilityMode) (d : storage) : storage * result () :=
  (set_configs (pg_configs d) (compatibility_to_string mode) d, Ok ()).

(** A call to the server, which can fail. *)
Definition remote_read {A} (query : storage -> result A) (d : storage) : result A :=
  match pg_fault d with NoFault => query d | Refused e | Lost e => Err e end.
Definition remote_write {A} (query : storage -> storage * result A) (d : storage) : storage * result A :=
  match pg_fault d with NoFault => query d | Refused e => (d, Err e) | Lost e => (fst (query d), Err e) end.

#[export] Instance postgres_storage : SchemaStorage PostgresSchemaStorage := {|
  st_fault := set_fault;
  st_register s org := remote_write (register_schema s org);
  st_by_id i := remote_read (get_schema_by_id i);
  st_by_version subject version org := remote_read (get_schema_by_subject_version subject version org);
  st_latest subject org := remote_read (get_latest_schema subject org);
  st_versions subject org := remote_read (get_versions subject org);
  st_subjects org := remote_read (get_subjects org);
  st_delete_subject subject org := remote_write (delete_subject subject org);
  st_delete_version subject version org := remote_write (delete_version subject version org);
  st_exists subject text org := remote_read (schema_exists subject text org);
  st_config subject org := remote_read (get_subject_config subject org);
  st_set_config c org := remote_write (set_subject_config c org);
  st_global := remote_read get_global_compatibility;
  st_set_global mode := remote_write (set_global_compatibility mode) |}.
End postgres.

(** ** Facts *)

Lemma format_roundtrip f : string_to_format (format_to_string f) = Ok f.
Proof. by destruct f; vm_compute. Qed.

Lemma compatibility_roundtrip m : string_to_compatibility (compatibility_to_string m) = Ok m.
Proof. by destruct m; vm_compute. Qed.

Section postgres.
Context `{Laws : SchemaDbLaws}.

Lemma elem_of_join cond d s v :
  (s, v) ∈ join cond d <->
  s ∈ pg_schemas d /\ v ∈ pg_versions d /\ s_id s = v_schema_id v /\ cond s v = true.
Proof.
  unfold join. rewrite scan_perm, list_elem_of_filter. cbn. rewrite andb_true_iff, Z.eqb_eq.
  rewrite list_elem_of_bind. setoid_rewrite list_elem_of_bind. setoid_rewrite list_elem_of_singleton.
  split; [intros ((Hid & Hc) & s' & (v' & [= -> ->] & Hv) & Hs); by split_and!|].
  intros (Hs & Hv & Hid & Hc). split; [by split|]. exists s. split; [|done]. by exists v.
Qed.

Lemma to_optional_some r s :
  to_optional_schema r = Ok (Some s) ->
  exists sv, r = Some sv /\ sc_id s = s_id sv.1 /\ sc_schema s = s_definition sv.1
    /\ sc_subject s = v_subject sv.2 /\ sc_version s = v_version sv.2.
Proof.
  destruct r as [sv|]; [|done]. cbn. unfold to_schema.
  destruct (string_to_format (s_format sv.1)); [|done..]. intros [= <-]. by exists sv.
Qed.

Lemma in_subject_true subject org v :
  in_subject subject org v = true <-> v_subject v = subject /\ v_organization v = parsed_org_id org.
Proof. unfold in_subject. by rewrite andb_true_iff, !bool_decide_eq_true. Qed.

Definition row_ok (names : gmap Z string) (s : schema_row) : Prop :=
  names !! s_id s = Some (s_definition s) /\ s_hash s = compute_hash (s_definition s) /\ tellable (s_definition s).

Definition pg_named (n : nat) (names : gmap Z string) (d : PostgresSchemaStorage) : Prop :=
  (forall s, s ∈ pg_schemas d -> row_ok names s) /\ (forall id t, names !! id = Some t -> id < next_schema_id d).

Lemma pg_named_rows n names d versions :
  pg_named n names d -> pg_named n names (set_rows (next_schema_id d) (pg_schemas d) versions d).
Proof. done. Qed.

Lemma row_of_hash names n d r text :
  pg_named n names d -> tellable text -> r ∈ pg_schemas d -> s_hash r = compute_hash text ->
  names !! s_id r = Some text.
Proof.
  intros [Hrows _] Ht Hr Hh. destruct (Hrows r Hr) as (Hn & Hd & Ht'). rewrite Hn. f_equal.
  apply sha256_tells; [done..|]. unfold compute_hash in *. congruence.
Qed.

Lemma pg_exists n names d subject text org id :
  pg_named n names d -> tellable text -> schema_exists subject text org d = Ok (Some id) -> names !! id = Some text.
Proof.
  intros Hd Ht He. unfold schema_exists in He. destruct (head _) as [[s v]|] eqn:Hh; [|done].
  injection He as <-. apply head_elem, elem_of_join in Hh as (Hs & _ & _ & Hc).
  apply andb_true_iff in Hc as [_ Hc%bool_decide_eq_true_1]. by apply (row_of_hash names n d).
Qed.

Lemma pg_register n names d s org d' r :
  pg_named n names d -> tellable (sc_schema s) -> register_schema s org d = (d', r) ->
  exists names', names ⊆ names' /\ pg_named n names' d'
    /\ (forall id, r = Ok id -> names' !! id = Some (sc_schema s)).
Proof.
  intros Hd Ht Hr. unfold register_schema in Hr.
  assert (Hseq : forall f : result Z, (forall id, f = Ok id -> names !! id = Some (sc_schema s)) ->
            forall next vs, next_schema_id d <= next -> exists names', names ⊆ names'
            /\ pg_named n names' (set_rows next (pg_schemas d) vs d)
            /\ (forall id, f = Ok id -> names' !! id = Some (sc_schema s))).
  { intros f Hf next vs Hle. exists names. split; [done|]. split; [|done]. destruct Hd as [Hrows Hlt].
    split; [done|]. intros i t Hi. apply Hlt in Hi. cbn. lia. }
  assert (Hsame : forall f : result Z, (forall id, f = Ok id -> names !! id = Some (sc_schema s)) ->
            exists names', names ⊆ names' /\ pg_named n names' d
            /\ (forall id, f = Ok id -> names' !! id = Some (sc_schema s))) by (intros f Hf; by exists names).
  destruct (schema_exists _ _ _ _) as [[eid|]|e|] eqn:Hex.
  - injection Hr as <- <-. apply Hsame. intros id [= <-]. by apply (pg_exists n names d (sc_subject s) _ org).
  - destruct (get_latest_schema _ _ _) as [latest|e|]; [|injection Hr as <- <-; by apply Hsame..].
    unfold insert_schema in Hr. destruct (2 ^ 31 - 1 <? next_schema_id d) eqn:Hmax.
    { cbn [mbind outcome_bind] in Hr. injection Hr as <- <-. by apply Hseq; [|lia]. }
    destruct (List.find _ _) as [row|] eqn:Hf.
    + cbn [mbind outcome_bind] in Hr. apply find_some in Hf as [Hin%list_elem_of_In Hh%bool_decide_eq_true_1].
      destruct (insert_version _ _) as [vs|e|]; injection Hr as <- <-; [apply Hseq; [|lia]|by apply Hseq; [|lia]|by apply Hsame].
      intros id [= <-]. by apply (row_of_hash names n d).
    + destruct (negb _); cbn [mbind outcome_bind] in Hr; [injection Hr as <- <-; by apply Hseq; [|lia]|].
      destruct (insert_version _ _) as [vs|e|]; injection Hr as <- <-; [|by apply Hseq; [|lia]|by apply Hsame].
      destruct Hd as [Hrows Hlt]. exists (<[next_schema_id d := sc_schema s]> names).
      assert (Hsub : names ⊆ <[next_schema_id d := sc_schema s]> names).
      { apply insert_subseteq. destruct (names !! next_schema_id d) as [t|] eqn:Hn; [|done]. apply Hlt in Hn. lia. }
      split; [done|]. split; [split|intros i [= <-]; by rewrite lookup_insert_eq].
      * cbn. intros r' [Hr'| ->%list_elem_of_singleton]%elem_of_app; [|split; [apply lookup_insert_eq|done]].
        destruct (Hrows r' Hr') as (Hn & Hh). split; [|done]. by apply (lookup_weaken _ _ _ _ Hn).
      * intros i t [[<- <-]|[_ Hi]]%lookup_insert_Some; [cbn; lia|]. apply Hlt in Hi. cbn. lia.
  - injection Hr as <- <-. by apply Hsame.
  - injection Hr as <- <-. by apply Hsame.
Qed.

Lemma pg_read_row n names d cond r s :
  pg_named n names d -> to_optional_schema r = Ok (Some s) -> (forall sv, r = Some sv -> sv ∈ join cond d) ->
  names !! sc_id s = Some (sc_schema s)
  /\ exists sv, sc_id s = s_id sv.1 /\ sc_subject s = v_subject sv.2 /\ sc_version s = v_version sv.2
       /\ cond sv.1 sv.2 = true.
Proof.
  intros [Hrows _] Hs Hin. apply to_optional_some in Hs as ([row v] & -> & Hid & Hdef & Hsub & Hver).
  specialize (Hin _ eq_refl). apply elem_of_join in Hin as (Hr & _ & _ & Hc). cbn in *.
  rewrite Hid, Hdef. split; [by apply Hrows|]. by exists (row, v).
Qed.

Lemma pg_by_id n names d id s :
  pg_named n names d -> get_schema_by_id id d = Ok (Some s) -> sc_id s = id /\ names !! id = Some (sc_schema s).
Proof.
  intros Hd Hg.
  destruct (pg_read_row n names d (fun s _ => s_id s =? id) _ s Hd Hg) as (Hn & sv & Hid & _ & _ & Hc).
  { intros sv Hsv. by apply max_by_key_in in Hsv. }
  assert (sc_id s = id) as <- by lia. done.
Qed.

Lemma pg_by_version n names d subject version org s :
  pg_named n names d -> get_schema_by_subject_version subject version org d = Ok (Some s) ->
  names !! sc_id s = Some (sc_schema s) /\ sc_subject s = subject /\ sc_version s = version.
Proof.
  intros Hd Hg.
  destruct (pg_read_row n names d (fun _ v => in_subject subject org v && (v_version v =? version)) _ s Hd Hg)
    as (Hn & sv & _ & Hsub & Hver & Hc); [by intros sv Hsv%head_elem|].
  apply andb_true_iff in Hc as [[Hc _]%in_subject_true Hv]. split; [done|]. split; [congruence|lia].
Qed.

Lemma pg_latest n names d subject org s :
  pg_named n names d -> get_latest_schema subject org d = Ok (Some s) ->
  names !! sc_id s = Some (sc_schema s) /\ sc_subject s = subject.
Proof.
  intros Hd Hg.
  destruct (pg_read_row n names d (fun _ v => in_subject subject org v) _ s Hd Hg)
    as (Hn & sv & _ & Hsub & _ & Hc); [by intros sv Hsv%max_by_key_in|].
  apply in_subject_true in Hc as [Hc _]. split; [done|congruence].
Qed.

Lemma read_ok {A} (q : PostgresSchemaStorage -> result A) d a : remote_read q d = Ok a -> q d = Ok a.
Proof. unfold remote_read. by destruct (pg_fault d). Qed.

Lemma write_state {A} (P : PostgresSchemaStorage -> Prop) (q : PostgresSchemaStorage -> PostgresSchemaStorage * result A) d :
  P d -> P (fst (q d)) -> P (fst (remote_write q d)).
Proof. unfold remote_write. by destruct (pg_fault d). Qed.

Lemma pg_set_config n names d c org : pg_named n names d -> pg_named n names (fst (set_subject_config c org d)).
Proof.
  intros Hd. unfold set_subject_config. destruct (pg_configs d !! _) as [[]|]; [done|].
  by repeat case_match.
Qed.

#[local] Obligation Tactic := idtac.

#[export] Program Instance postgres_laws : SchemaStorageLaws PostgresSchemaStorage := {|
  text_ok := tellable; named := pg_named |}.
Next Obligation. done. Qed.
Next Obligation. done. Qed.
Next Obligation.
  intros n names d s org d' r Hd Ht Hr. cbn in Hr. unfold remote_write in Hr. destruct (pg_fault d) as [|e|e].
  - by apply (pg_register n names d s org d' r).
  - injection Hr as <- <-. by exists names.
  - destruct (register_schema s org d) as [d2 r2] eqn:Hr2. injection Hr as <- <-.
    destruct (pg_register n names d s org d2 r2) as (names' & Hsub & Hd' & _); [done..|]. by exists names'.
Qed.
Next Obligation. intros n names d subject org Hd. by apply (write_state (pg_named n names)). Qed.
Next Obligation. intros n names d subject version org Hd. by apply (write_state (pg_named n names)). Qed.
Next Obligation.
  intros n names d c org Hd. apply (write_state (pg_named n names)); [done|by apply pg_set_config].
Qed.
Next Obligation. intros n names d m Hd. by apply (write_state (pg_named n names)). Qed.
Next Obligation. intros n names d id s Hd Hr%read_ok. by apply (pg_by_id n names d). Qed.
Next Obligation. intros n names d subject version org s Hd Hr%read_ok. by apply (pg_by_version n names d _ _ org). Qed.
Next Obligation. intros n names d subject org s Hd Hr%read_ok. by apply (pg_latest n names d _ org). Qed.
Next Obligation. intros n names d subject text org id Hd Ht Hr%read_ok. by apply (pg_exists n names d subject _ org). Qed.
End postgres.
