(* ===== verification/SchemaRegistry.v ===== *)
(** * The schema registry (crates/streamhouse-schema-registry: registry.rs, api.rs, serde.rs)

    The registry over any storage, its two caches, and the handlers of the HTTP service.  A
    call is one step; the caches forget entries between the steps, by age or for lack of
    room. *)

From Stdlib Require Import Ascii.
From stdpp Require Import pretty.
From S2P Require Import Prelude SchemaTypes SchemaCompat.

(** ** The texts that are accepted *)

Fixpoint count_char (c : Ascii.ascii) (s : string) : nat :=
  match s with
  | EmptyString => 0
  | String a s => ((if bool_decide (a = c) then 1 else 0) + count_char c s)%nat
  end.

Definition invalid (what e : string) : SchemaError := InvalidSchema ("Invalid " +:+ what +:+ " schema: " +:+ e).

Section registry.
Context `{AvroLib} `{ProtobufLib} `{JsonLib}.

(** The code first trims the Protobuf text of white space, which is in no text looked for. *)
Definition validate_schema (schema : string) (format : SchemaFormat) : result () :=
  match format with
  | Avro => match avro_parse_str schema with inl e => Err (invalid "Avro" e) | inr _ => Ok () end
  | Protobuf =>
      if bool_decide (schema = ""%string) then Err (InvalidSchema "Empty Protobuf schema")
      else if negb (str_contains "syntax" schema) then
        Err (InvalidSchema "Protobuf schema missing 'syntax' declaration")
      else if negb (str_contains "message" schema) && negb (str_contains "enum" schema) then
        Err (InvalidSchema "Protobuf schema must contain at least one message or enum definition")
      else if negb (count_char "{"%char schema =? count_char "}"%char schema)%nat then
        Err (InvalidSchema "Protobuf schema has unbalanced braces")
      else if (count_char "{"%char schema =? 0)%nat then
        Err (InvalidSchema "Protobuf schema has no message or enum bodies")
      else Ok ()
  | Json =>
      match value_from_str schema with
      | inl e => Err (invalid "JSON" e)
      | inr (JObject o) =>
          match get "$schema" o, get "type" o with
          | None, None => Err (InvalidSchema "Not a valid JSON Schema (missing $schema or type)")
          | _, _ => Ok ()
          end
      | inr _ => Err (InvalidSchema "Not a valid JSON Schema (missing $schema or type)")
      end
  end.

(** ** The registry *)

Context {St : Type} `{!SchemaStorage St}.

Record SchemaRegistry : Type := mk_registry {
  rg_storage : St;
  schema_cache : gmap Z Schema;
  subject_cache : gmap string Schema
}.

Definition set_storage st (r : SchemaRegistry) : SchemaRegistry := mk_registry st (schema_cache r) (subject_cache r).
Definition cache_schema id s (r : SchemaRegistry) : SchemaRegistry :=
  mk_registry (rg_storage r) (<[id := s]> (schema_cache r)) (subject_cache r).
Definition cache_subject subject s (r : SchemaRegistry) : SchemaRegistry :=
  mk_registry (rg_storage r) (schema_cache r) (<[subject := s]> (subject_cache r)).
Definition invalidate subject (r : SchemaRegistry) : SchemaRegistry :=
  mk_registry (rg_storage r) (schema_cache r) (delete subject (subject_cache r)).

(** Entries whose time is over, or for which there is no room. *)
Definition forget (ids : list Z) (subjects : list string) (r : SchemaRegistry) : SchemaRegistry :=
  mk_registry (rg_storage r) (foldr delete (schema_cache r) ids) (foldr delete (subject_cache r) subjects).

Definition new (storage : St) : SchemaRegistry := mk_registry storage ∅ ∅.

Definition get_compatibility_mode (subject org_id : string) (r : SchemaRegistry) : result CompatibilityMode :=
  config ← st_config subject org_id (rg_storage r);
  match config with
  | Some config => Ok (cf_compatibility config)
  | None => st_global (rg_storage r)
  end.

(** [{:?}]. *)
Definition mode_debug (m : CompatibilityMode) : string :=
  match m with
  | Backward => "Backward" | Forward => "Forward" | Full => "Full"
  | BackwardTransitive => "BackwardTransitive" | ForwardTransitive => "ForwardTransitive"
  | FullTransitive => "FullTransitive" | NoCheck => "None"
  end.

Definition not_compatible (version : Z) (m : CompatibilityMode) : SchemaError :=
  IncompatibleSchema ("New schema is not compatible with version " +:+ pretty version +:+ " under "
    +:+ mode_debug m +:+ " mode").

(** The check against the latest version. *)
Definition check_latest (subject schema : string) (schema_type : SchemaFormat) (org_id : string) (r : SchemaRegistry)
  : result () :=
  latest ← st_latest subject org_id (rg_storage r);
  match latest with
  | None => Ok ()
  | Some latest =>
      compatibility ← get_compatibility_mode subject org_id r;
      ok ← check_compatibility latest schema schema_type compatibility;
      if negb ok then Err (not_compatible (sc_version latest) compatibility) else Ok ()
  end.

Definition new_schema (subject : string) (request : RegisterSchemaRequest) : Schema :=
  mk_schema 0 subject 0 (default Avro (rq_schema_type request)) (rq_schema request) (rq_references request)
    (default no_metadata (rq_metadata request)).

(** What precedes the registration: the id of the text, if the subject has it. *)
Definition admit_schema (subject : string) (request : RegisterSchemaRequest) (org_id : string) (r : SchemaRegistry)
  : result (option Z) :=
  let schema_type := default Avro (rq_schema_type request) in
  _ ← validate_schema (rq_schema request) schema_type;
  _ ← check_latest subject (rq_schema request) schema_type org_id r;
  st_exists subject (rq_schema request) org_id (rg_storage r).

Definition register_schema (subject : string) (request : RegisterSchemaRequest) (org_id : string) (r : SchemaRegistry)
  : SchemaRegistry * result Z :=
  match admit_schema subject request org_id r with
  | Ok (Some existing_id) => (r, Ok existing_id)
  | Ok None =>
      match st_register (new_schema subject request) org_id (rg_storage r) with
      | (st, Ok id) => (invalidate subject (set_storage st r), Ok id)
      | (st, e) => (set_storage st r, e)
      end
  | Err e => (r, Err e)
  | Panic => (r, Panic)
  end.

Definition or_not_found {A} (e : SchemaError) (o : result (option A)) : result A := a ← o; ok_or e a.

Definition id_not_found (id : Z) : SchemaError := SchemaNotFound ("id:" +:+ pretty id) 0.

Definition get_schema_by_id (id : Z) (r : SchemaRegistry) : SchemaRegistry * result Schema :=
  match schema_cache r !! id with
  | Some schema => (r, Ok schema)
  | None =>
      match or_not_found (id_not_found id) (st_by_id id (rg_storage r)) with
      | Ok schema => (cache_schema id schema r, Ok schema)
      | e => (r, e)
      end
  end.

Definition get_schema (subject : string) (version : Z) (org_id : string) (r : SchemaRegistry)
  : SchemaRegistry * result Schema :=
  match or_not_found (SchemaNotFound subject version) (st_by_version subject version org_id (rg_storage r)) with
  | Ok schema => (cache_schema (sc_id schema) schema r, Ok schema)
  | e => (r, e)
  end.

(** The cache is by subject only. *)
Definition get_latest_schema (subject org_id : string) (r : SchemaRegistry) : SchemaRegistry * result Schema :=
  match subject_cache r !! subject with
  | Some schema => (r, Ok schema)
  | None =>
      match or_not_found (SubjectNotFound subject) (st_latest subject org_id (rg_storage r)) with
      | Ok schema => (cache_schema (sc_id schema) schema (cache_subject subject schema r), Ok schema)
      | e => (r, e)
      end
  end.

(** A call of the storage, after which a success takes the subject out of the cache. *)
Definition then_invalidate {A} (subject : string) (c : St * result A) (r : SchemaRegistry)
  : SchemaRegistry * result A :=
  match c with
  | (st, Ok a) => (invalidate subject (set_storage st r), Ok a)
  | (st, e) => (set_storage st r, e)
  end.

Definition delete_subject (subject org_id : string) (r : SchemaRegistry) : SchemaRegistry * result (list Z) :=
  then_invalidate subject (st_delete_subject subject org_id (rg_storage r)) r.
Definition delete_version (subject : string) (version : Z) (org_id : string) (r : SchemaRegistry)
  : SchemaRegistry * result Z :=
  then_invalidate subject (st_delete_version subject version org_id (rg_storage r)) r.

Definition get_versions (subject org_id : string) (r : SchemaRegistry) : result (list Z) :=
  st_versions subject org_id (rg_storage r).
Definition get_subjects (org_id : string) (r : SchemaRegistry) : result (list string) :=
  st_subjects org_id (rg_storage r).
Definition get_subject_config (subject org_id : string) (r : SchemaRegistry) : result (option SubjectConfig) :=
  st_config subject org_id (rg_storage r).
Definition get_global_compatibility (r : SchemaRegistry) : result CompatibilityMode := st_global (rg_storage r).

Definition set_subject_compatibility (subject : string) (mode : CompatibilityMode) (org_id : string)
    (r : SchemaRegistry) : SchemaRegistry * result () :=
  let '(st, a) := st_set_config (mk_subject_config subject mode) org_id (rg_storage r) in (set_storage st r, a).
Definition set_global_compatibility (mode : CompatibilityMode) (r : SchemaRegistry) : SchemaRegistry * result () :=
  let '(st, a) := st_set_global mode (rg_storage r) in (set_storage st r, a).
End registry.

Arguments SchemaRegistry : clear implicits.

(** ** The HTTP service (api.rs) *)

Record SchemaResponse : Type := mk_schema_response {
  rs_subject : string; rs_version : Z; rs_id : Z; rs_schema : string; rs_type : SchemaFormat;
  rs_references : list SchemaReference }.

Definition schema_response (s : Schema) : SchemaResponse :=
  mk_schema_response (sc_subject s) (sc_version s) (sc_id s) (sc_schema s) (sc_type s) (sc_references s).

(** The routes with what is extracted from their paths and bodies. *)
Inductive request : Type :=
| ListSubjects
| ListVersions (subject : string)
| RegisterSchema (subject : string) (body : RegisterSchemaRequest)
| GetSchemaByVersion (subject version : string)
| GetSchemaById (id : Z)
| DeleteSubject (subject : string)
| DeleteSchemaVersion (subject : string) (version : Z)
| GetGlobalConfig
| SetGlobalConfig (mode : CompatibilityMode)
| GetSubjectConfig (subject : string)
| SetSubjectConfig (subject : string) (mode : CompatibilityMode)
| HealthCheck.

Inductive answer : Type :=
| ASubjects (subjects : list string)
| AVersions (versions : list Z)
| AId (id : Z)
| ASchema (schema : SchemaResponse)
| AVersion (version : Z)
| AMode (mode : CompatibilityMode)
| AHealthy.

Definition missing_org : SchemaError := InvalidFormat "Missing x-organization-id header".

(** [str::parse::<i32>]. *)
Definition digit_value (a : Ascii.ascii) : option Z :=
  let n := Z.of_N (Ascii.N_of_ascii a) in if (48 <=? n) && (n <=? 57) then Some (n - 48) else None.
Fixpoint digits_value (acc : Z) (s : string) : option Z :=
  match s with
  | EmptyString => Some acc
  | String a s => d ← digit_value a; digits_value (10 * acc + d) s
  end.
Definition unsigned_value (s : string) : option Z := if bool_decide (s = ""%string) then None else digits_value 0 s.
Definition parse_i32 (s : string) : option Z :=
  v ← match s with
      | String "-" t => v ← unsigned_value t; Some (- v)
      | String "+" t => unsigned_value t
      | _ => unsigned_value s
      end;
  if (- 2 ^ 31 <=? v) && (v <? 2 ^ 31) then Some v else None.

Section api.
Context `{AvroLib} `{ProtobufLib} `{JsonLib} {St : Type} `{!SchemaStorage St}.

Abbreviation registry := (SchemaRegistry St).

(** [f(..)?] and the answer made of the value. *)
Definition answering {A} (f : A -> answer) (c : registry * result A) : registry * result answer :=
  (c.1, match c.2 with Ok a => Ok (f a) | Err e => Err e | Panic => Panic end).

Definition get_schema_by_version (subject version org_id : string) (r : registry) : registry * result Schema :=
  if bool_decide (version = "latest"%string) then get_latest_schema subject org_id r
  else
    match parse_i32 version with
    | Some version_num => get_schema subject version_num org_id r
    | None => (r, Err (InvalidFormat ("Invalid version: " +:+ version)))
    end.

Definition subject_config (subject org_id : string) (r : registry) : result CompatibilityMode :=
  config ← get_subject_config subject org_id r;
  match config with
  | Some config => Ok (cf_compatibility config)
  | None => get_global_compatibility r
  end.

(** The handlers; [header] is the text of the header "x-organization-id", if it has one. *)
Definition handle (header : option string) (q : request) (r : registry) : registry * result answer :=
  let with_org (f : string -> registry * result answer) :=
    match header with Some org_id => f org_id | None => (r, Err missing_org) end in
  match q with
  | ListSubjects => with_org (fun org_id => answering ASubjects (r, get_subjects org_id r))
  | ListVersions subject => with_org (fun org_id => answering AVersions (r, get_versions subject org_id r))
  | RegisterSchema subject body => with_org (fun org_id => answering AId (register_schema subject body org_id r))
  | GetSchemaByVersion subject version =>
      with_org (fun org_id => answering (fun s => ASchema (schema_response s)) (get_schema_by_version subject version org_id r))
  | GetSchemaById id => answering (fun s => ASchema (schema_response s)) (get_schema_by_id id r)
  | DeleteSubject subject => with_org (fun org_id => answering AVersions (delete_subject subject org_id r))
  | DeleteSchemaVersion subject version =>
      with_org (fun org_id => answering AVersion (delete_version subject version org_id r))
  | GetGlobalConfig => answering AMode (r, get_global_compatibility r)
  | SetGlobalConfig mode => answering (fun _ => AMode mode) (set_global_compatibility mode r)
  | GetSubjectConfig subject => with_org (fun org_id => answering AMode (r, subject_config subject org_id r))
  | SetSubjectConfig subject mode =>
      with_org (fun org_id => answering (fun _ => AMode mode) (set_subject_compatibility subject mode org_id r))
  | HealthCheck => (r, Ok AHealthy)
  end.

(** What happens to a running service: requests, and what the environment does. *)
Inductive event : Type :=
| Request (header : option string) (q : request)
| Forget (ids : list Z) (subjects : list string)
| Fault (f : fault).

Definition serve1 (e : event) (r : registry) : registry * list (request * result answer) :=
  match e with
  | Request header q => let '(r, a) := handle header q r in (r, [(q, a)])
  | Forget ids subjects => (forget ids subjects r, [])
  | Fault f => (set_storage (st_fault f (rg_storage r)) r, [])
  end.

Fixpoint serve (es : list event) (r : registry) : registry * list (request * result answer) :=
  match es with
  | [] => (r, [])
  | e :: es => let '(r, l) := serve1 e r in let '(r, l') := serve es r in (r, l ++ l')
  end.
End api.

(** [Display], of the errors that [into_response] does not take apart. *)
Definition error_text (e : SchemaError) : string :=
  match e with
  | SchemaNotFound subject version => "Schema not found: " +:+ subject +:+ " version " +:+ pretty version
  | SubjectNotFound subject => "Subject not found: " +:+ subject
  | InvalidSchema m => "Invalid schema: " +:+ m
  | IncompatibleSchema m => "Schema compatibility error: " +:+ m
  | SchemaAlreadyExists id => "Schema already exists with ID " +:+ pretty id
  | InvalidFormat m => "Invalid schema format: " +:+ m
  | InvalidCompatibilityMode m => "Invalid compatibility mode: " +:+ m
  | SerializationError m => "Serialization error: " +:+ m
  | DeserializationError m => "Deserialization error: " +:+ m
  | SchemaStorageError m => "Storage error: " +:+ m
  | SchemaIoError m => "I/O error: " +:+ m
  | SchemaJsonError m => "JSON error: " +:+ m
  | SchemaDatabaseError m => "Database error: " +:+ m
  end.

(** Status, code and message. *)
Definition into_response (e : SchemaError) : Z * Z * string :=
  match e with
  | SchemaNotFound _ _ => (404, 40401, error_text e)
  | SubjectNotFound _ => (404, 40401, error_text e)
  | InvalidSchema m => (422, 42201, m)
  | IncompatibleSchema m => (409, 409, m)
  | SchemaAlreadyExists _ => (409, 409, error_text e)
  | InvalidFormat m => (400, 400, m)
  | _ => (500, 50001, error_text e)
  end.

(** ** Messages with the id of their schema (serde.rs) *)

Definition MAGIC_BYTE : Z := 0.

Definition serialize_with_schema_id (schema_id : Z) (data : bytes) : bytes :=
  [byte_of MAGIC_BYTE] ++ put_be 4 schema_id ++ data.

(** [{:02x}]. *)
Definition hex_digit (v : Z) : string :=
  match v with
  | 10 => "a" | 11 => "b" | 12 => "c" | 13 => "d" | 14 => "e" | 15 => "f" | _ => pretty v
  end.

Definition deserialize_with_schema_id (data : bytes) : result (Z * bytes) :=
  match data with
  | m :: rest =>
      match get_be 4 rest with
      | None => Err (DeserializationError "Data too short to contain schema ID")
      | Some (id, payload) =>
          if negb (byte.unsigned m =? MAGIC_BYTE) then
            Err (DeserializationError ("Invalid magic byte: expected 0x00, got 0x"
                   +:+ hex_digit (byte.unsigned m / 16) +:+ hex_digit (byte.unsigned m mod 16)))
          else Ok (swrap 32 id, payload)
      end
  | [] => Err (DeserializationError "Data too short to contain schema ID")
  end.
