(* ===== verification/SchemaRegistryFacts.v ===== *)
(** * Facts about the schema registry

    Proved against the interface [SchemaStorageLaws], which both storages implement. *)

From S2P Require Import Prelude SchemaTypes SchemaCompat SchemaMemory SchemaRegistry.

Section registry.
Context `{AvroLib} `{ProtobufLib} `{JsonLib} {St : Type} `{Laws : SchemaStorageLaws St}.
Abbreviation registry := (SchemaRegistry St).

(** The caches hold schemas as the storage has given them. *)
Definition cached_ok (names : gmap Z string) (r : registry) : Prop :=
  (forall id s, schema_cache r !! id = Some s -> sc_id s = id /\ names !! id = Some (sc_schema s))
  /\ (forall subject s, subject_cache r !! subject = Some s -> names !! sc_id s = Some (sc_schema s)).

Definition reg_ok (n : nat) (names : gmap Z string) (r : registry) : Prop :=
  named n names (rg_storage r) /\ cached_ok names r.

Lemma cached_ok_mono names names' r : names ⊆ names' -> cached_ok names r -> cached_ok names' r.
Proof.
  intros Hsub [Hs Hl]. split.
  - intros i s Hc. apply Hs in Hc as [Hid Hn]. split; [done|]. by apply (lookup_weaken names).
  - intros subject s Hc. apply Hl in Hc. by apply (lookup_weaken names).
Qed.

Lemma cached_cache_schema names s r :
  cached_ok names r -> names !! sc_id s = Some (sc_schema s) -> cached_ok names (cache_schema (sc_id s) s r).
Proof.
  intros [Hs Hl] Hn. split; [|done]. by cbn; intros i t [[<- <-]|[_ Hc]]%lookup_insert_Some; [|apply Hs].
Qed.

Lemma cached_cache_subject names subject s r :
  cached_ok names r -> names !! sc_id s = Some (sc_schema s) -> cached_ok names (cache_subject subject s r).
Proof.
  intros [Hs Hl] Hn. split; [done|]. by cbn; intros u t [[<- <-]|[_ Hc]]%lookup_insert_Some; [|apply (Hl u)].
Qed.

Lemma cached_invalidate names subject r : cached_ok names r -> cached_ok names (invalidate subject r).
Proof. intros [Hs Hl]. split; [done|]. cbn. intros u t [_ Hc]%lookup_delete_Some. by apply (Hl u). Qed.

Lemma foldr_delete_some {K} `{Countable K} {A} (l : list K) (m : gmap K A) k a :
  foldr delete m l !! k = Some a -> m !! k = Some a.
Proof. induction l as [|x l IH]; [done|]. cbn. intros [_ Hc]%lookup_delete_Some. by apply IH. Qed.

Lemma cached_forget names ids subjects r : cached_ok names r -> cached_ok names (forget ids subjects r).
Proof.
  intros [Hs Hl]. split; [intros i s Hc%foldr_delete_some; by apply Hs|].
  intros u s Hc%foldr_delete_some. by apply (Hl u).
Qed.

(** A call keeps the invariant, with the texts its answer reports. *)
Definition call_ok {A} (n : nat) (names : gmap Z string) (says : A -> list (Z * string)) (c : registry * result A)
  : Prop :=
  exists names', names ⊆ names' /\ reg_ok n names' c.1
    /\ forall a, c.2 = Ok a -> forall p, p ∈ says a -> names' !! p.1 = Some p.2.

Lemma reg_ok_fewer n names r : reg_ok (S n) names r -> reg_ok n names r.
Proof. intros [Hn Hc]. split; [by apply named_fewer|done]. Qed.

Lemma call_same {A} n names (says : A -> list (Z * string)) r a :
  reg_ok (S n) names r -> (forall b, a = Ok b -> says b = []) -> call_ok n names says (r, a).
Proof.
  intros Hr Hs. exists names. split; [done|]. split; [by apply reg_ok_fewer|].
  cbn. intros b Hb p Hp. rewrite (Hs b Hb) in Hp. by apply not_elem_of_nil in Hp.
Qed.

Lemma call_answering {A} n names (says : A -> list (Z * string)) says' (f : A -> answer) c :
  (forall a, says' (f a) = says a) -> call_ok n names says c -> call_ok n names says' (answering f c).
Proof.
  intros Hf (names' & Hsub & Hr & Hs). exists names'. split; [done|]. split; [done|]. cbn.
  destruct (c.2) as [a|e|]; [|done..]. intros b [= <-] p. rewrite Hf. by apply (Hs a).
Qed.

Lemma call_invalidating {A} n names (says : A -> list (Z * string)) subject (c : St * result A) r :
  reg_ok (S n) names r -> named n names (fst c) -> (forall a, says a = []) ->
  call_ok n names says (then_invalidate subject c r).
Proof.
  intros [_ Hc] Hn Hs. exists names. split; [done|]. unfold then_invalidate.
  split.
  - destruct c as [st [a|e|]]; (split; [done|]); [by apply cached_invalidate|done..].
  - intros a _ p. rewrite Hs. by intros ?%not_elem_of_nil.
Qed.

Lemma call_setting {A} n names (says : A -> list (Z * string)) (c : St * result A) r :
  reg_ok (S n) names r -> named n names (fst c) -> (forall a, says a = []) ->
  call_ok n names says (let '(st, a) := c in (set_storage st r, a)).
Proof.
  intros [_ Hc] Hn Hs. exists names. split; [done|]. destruct c as [st a]. split; [done|].
  cbn. intros b _ p. rewrite Hs. by intros ?%not_elem_of_nil.
Qed.

Definition says_schema (s : Schema) : list (Z * string) := [(sc_id s, sc_schema s)].

Lemma call_says n names r s :
  reg_ok (S n) names r -> names !! sc_id s = Some (sc_schema s) -> call_ok n names says_schema (r, Ok s).
Proof.
  intros Hr Hs. exists names. split; [done|]. split; [by apply reg_ok_fewer|].
  by intros a [= <-] p ->%list_elem_of_singleton.
Qed.

Lemma or_not_found_ok {A} e (o : result (option A)) a : or_not_found e o = Ok a -> o = Ok (Some a).
Proof. destruct o as [[b|]|f|]; cbn; congruence. Qed.

Lemma call_by_id n names r id : reg_ok (S n) names r -> call_ok n names says_schema (get_schema_by_id id r).
Proof.
  intros Hr. unfold get_schema_by_id. destruct (schema_cache r !! id) as [s|] eqn:Hc.
  - destruct Hr as [Hn [Hs Hl]]. pose proof (Hs id s Hc) as [Hid Ht].
    apply call_says; [done|]. by rewrite Hid.
  - destruct (or_not_found _ _) as [s|e|] eqn:Ho; [|by apply call_same..]. apply or_not_found_ok in Ho.
    destruct Hr as [Hn Hca]. apply (named_by_id (S n) names) in Ho as [Hid Ht]; [|done]. subst id.
    apply call_says; [split; [done|by apply cached_cache_schema]|done].
Qed.

Lemma call_get_schema n names r subject version org :
  reg_ok (S n) names r -> call_ok n names says_schema (get_schema subject version org r).
Proof.
  intros Hr. unfold get_schema. destruct (or_not_found _ _) as [s|e|] eqn:Ho; [|by apply call_same..].
  apply or_not_found_ok in Ho. destruct Hr as [Hn Hca].
  apply (named_by_version (S n) names) in Ho as (Ht & _); [|done].
  apply call_says; [split; [done|by apply cached_cache_schema]|done].
Qed.

Lemma call_latest n names r subject org :
  reg_ok (S n) names r -> call_ok n names says_schema (get_latest_schema subject org r).
Proof.
  intros Hr. unfold get_latest_schema. destruct (subject_cache r !! subject) as [s|] eqn:Hc.
  - apply call_says; [done|]. destruct Hr as [Hn [Hs Hl]]. by apply (Hl subject).
  - destruct (or_not_found _ _) as [s|e|] eqn:Ho; [|by apply call_same..]. apply or_not_found_ok in Ho.
    destruct Hr as [Hn Hca]. apply (named_latest (S n) names) in Ho as [Ht _]; [|done].
    apply call_says; [|done]. split; [done|]. by apply cached_cache_schema, Ht; apply cached_cache_subject.
Qed.

Lemma admit_exists subject body org (r : registry) o :
  admit_schema subject body org r = Ok o -> st_exists subject (rq_schema body) org (rg_storage r) = Ok o.
Proof. unfold admit_schema. by intros (_ & _ & (_ & _ & Ho)%bind_Ok_inv)%bind_Ok_inv. Qed.

Lemma call_register n names r subject body org :
  reg_ok (S n) names r -> text_ok (rq_schema body) ->
  call_ok n names (fun id => [(id, rq_schema body)]) (register_schema subject body org r).
Proof.
  intros Hr Htx. unfold register_schema. destruct (admit_schema subject body org r) as [[id|]|e|] eqn:Ha.
  - apply admit_exists, (named_exists (S n) names) in Ha; [|by destruct Hr|done]. exists names. split; [done|].
    split; [by apply reg_ok_fewer|]. by intros a [= <-] p ->%list_elem_of_singleton.
  - destruct (st_register _ _ _) as [st a] eqn:Hreg. destruct Hr as [Hn Hc].
    destruct (named_register n names _ (new_schema subject body) _ _ _ Hn Htx Hreg) as (names' & Hsub & Hn' & Hid).
    exists names'. split; [done|]. apply (cached_ok_mono names names') in Hc; [|done].
    destruct a as [id|e|]; (split; [split; [done|]|]); try done; [by apply cached_invalidate|].
    intros a [= <-] p ->%list_elem_of_singleton. by apply Hid.
  - by apply call_same.
  - by apply call_same.
Qed.

(** The texts that an answer gives for ids. *)
Definition says (q : request) (a : answer) : list (Z * string) :=
  match q, a with
  | RegisterSchema _ body, AId id => [(id, rq_schema body)]
  | _, ASchema s => [(rs_id s, rs_schema s)]
  | _, _ => []
  end.

Definition request_ok (q : request) : Prop := forall subject body, q = RegisterSchema subject body -> text_ok (rq_schema body).

Lemma call_handle n names header q r :
  reg_ok (S n) names r -> request_ok q -> call_ok n names (says q) (handle header q r).
Proof.
  intros Hr Hq.
  assert (Hno : call_ok n names (says q) (r, Err missing_org)) by by apply call_same.
  unfold handle. destruct q as [|subject|subject body|subject version|id|subject|subject version| |mode|subject|subject mode|];
    try (destruct header as [org|]; [|done]).
  1, 2, 8, 10: eapply (call_answering _ _ (fun _ => [])); [done|by apply call_same].
  - eapply call_answering; [|by eapply call_register, Hq]. done.
  - eapply call_answering; [|unfold get_schema_by_version; case_bool_decide; [by apply call_latest|]].
    { done. }
    destruct (parse_i32 version) as [v|]; [by apply call_get_schema|by apply call_same].
  - eapply call_answering; [|by apply call_by_id]. done.
  - eapply (call_answering _ _ (fun _ => [])); [done|]. apply call_invalidating; [done| |done].
    apply named_delete_subject. by apply reg_ok_fewer in Hr as [].
  - eapply (call_answering _ _ (fun _ => [])); [done|]. apply call_invalidating; [done| |done].
    apply named_delete_version. by apply reg_ok_fewer in Hr as [].
  - eapply (call_answering _ _ (fun _ => [])); [done|]. apply call_setting; [done| |done].
    apply named_set_global. by apply reg_ok_fewer in Hr as [].
  - eapply (call_answering _ _ (fun _ => [])); [done|]. apply call_setting; [done| |done].
    apply named_set_config. by apply reg_ok_fewer in Hr as [].
  - apply call_same; [done|]. by intros b [= <-].
Qed.

Definition event_ok (e : event) : Prop := match e with Request _ q => request_ok q | _ => True end.

(** All texts of a log. *)
Definition said (l : list (request * result answer)) : list (Z * string) :=
  l ≫= fun e => match e.2 with Ok a => says e.1 a | _ => [] end.

Lemma serve1_ok n names e r :
  reg_ok (S n) names r -> event_ok e ->
  exists names', names ⊆ names' /\ reg_ok n names' (serve1 e r).1
    /\ forall p, p ∈ said (serve1 e r).2 -> names' !! p.1 = Some p.2.
Proof.
  intros Hr He. destruct e as [header q|ids subjects|f]; cbn.
  - destruct (call_handle n names header q r Hr He) as (names' & Hsub & Hr' & Hs). exists names'.
    destruct (handle header q r) as [r' a]. split; [done|]. split; [done|]. cbn. rewrite app_nil_r.
    destruct a as [a|e|]; [by apply Hs|by intros p ?%not_elem_of_nil..].
  - exists names. split; [done|]. apply reg_ok_fewer in Hr as [Hn Hc].
    split; [split; [done|by apply cached_forget]|by intros p ?%not_elem_of_nil].
  - exists names. split; [done|]. apply reg_ok_fewer in Hr as [Hn Hc].
    split; [split; [by apply named_fault|done]|by intros p ?%not_elem_of_nil].
Qed.

Lemma serve_ok es : forall names r, reg_ok (length es) names r -> Forall event_ok es ->
  exists names', names ⊆ names' /\ reg_ok 0 names' (serve es r).1
    /\ forall p, p ∈ said (serve es r).2 -> names' !! p.1 = Some p.2.
Proof.
  induction es as [|e es IH]; intros names r Hr Hes.
  - exists names. split; [done|]. split; [done|]. by intros p ?%not_elem_of_nil.
  - apply Forall_cons in Hes as [He Hes]. destruct (serve1_ok _ names e r Hr He) as (names1 & Hsub1 & Hr1 & Hs1).
    cbn. destruct (serve1 e r) as [r1 l1]. destruct (IH names1 r1 Hr1 Hes) as (names2 & Hsub2 & Hr2 & Hs2).
    destruct (serve es r1) as [r2 l2]. exists names2. split; [by trans names1|]. split; [done|]. cbn in *.
    unfold said in *. intros p. rewrite bind_app, elem_of_app. intros [Hp|Hp]; [|by apply Hs2].
    apply (lookup_weaken names1); [by apply Hs1|done].
Qed.

(** C34: an id names one schema for ever: in whatever order requests of any organizations,
    evictions from the caches and failures of the storage follow each other, no two answers
    (to registrations and to the three ways of reading a schema, cached or not, before and
    after deletions) give two texts for one id.  Proved against the laws of the storage, which
    both storages have: for the one in memory as long as ids do not run out of 31 bits, for
    the one on PostgreSQL as long as no hashes collide. *)
Theorem stable_ids es names r :
  reg_ok (length es) names r -> Forall event_ok es ->
  forall id text text', (id, text) ∈ said (serve es r).2 -> (id, text') ∈ said (serve es r).2 -> text = text'.
Proof.
  intros Hr Hes id text text' Ht Ht'. destruct (serve_ok es names r Hr Hes) as (names' & _ & _ & Hs).
  apply Hs in Ht, Ht'. cbn in *. congruence.
Qed.
End registry.
