(* ===== verification/SchemaRegistryProps.v ===== *)
(** * What the schema registry promises, storage by storage

    Reading what was registered (storage in memory), the tenants of the storage on
    PostgreSQL, the caches, and messages with the id of their schema. *)

From S2P Require Import Prelude SchemaTypes SchemaCompat SchemaMemory SchemaPostgres SchemaRegistry SchemaRegistryFacts.

(** ** Reading what was registered *)

Lemma max_by_key_snoc {A} (key : A -> Z) l a :
  (forall b, b ∈ l -> key b <= key a) -> max_by_key key (l ++ [a]) = Some a.
Proof.
  intros Hle. pose proof (max_by_key_in key l) as Hin. unfold max_by_key in *. rewrite foldl_snoc.
  destruct (foldl _ None l) as [b|]; [|done]. specialize (Hle b (Hin b eq_refl)). by destruct (Z.leb_spec (key b) (key a)); [|lia].
Qed.

(** The versions of a subject leave room for one more. *)
Definition versions_fit (subject : string) (m : MemorySchemaStorage) : Prop :=
  forall v e, subject_versions m !! subject = Some v -> e ∈ v -> 0 <= e.1 < 2 ^ 31 - 1.

Lemma next_version_above subject m :
  versions_fit subject m ->
  forall v e, subject_versions m !! subject = Some v -> e ∈ v -> e.1 < next_version subject m.
Proof.
  intros Hfit v e Hv He. unfold next_version. rewrite Hv.
  assert (Hin : e.1 ∈ map fst v) by by apply elem_of_map.
  assert (Hne : map fst v <> []) by (intros Hn; rewrite Hn in Hin; by apply not_elem_of_nil in Hin).
  destruct (max_by_key_some id _ Hne) as [b Hb]. rewrite Hb. cbn [default].
  pose proof (max_by_key_max id _ b Hb _ Hin) as Hle. apply max_by_key_in in Hb.
  apply list_elem_of_In, in_map_iff in Hb as (e' & <- & He'%list_elem_of_In).
  pose proof (Hfit v e' Hv He'). unfold id in *. cbn [default from_option].
  rewrite swrap_small by (unfold in_i; lia). lia.
Qed.

Lemma find_version_snoc v version i :
  (forall e : Z * Z, e ∈ v -> e.1 < version) ->
  List.find (fun e => e.1 =? version) (v ++ [(version, i)]) = Some (version, i).
Proof.
  induction v as [|e v IH]; intros Hlt; cbn.
  - by rewrite Z.eqb_refl.
  - pose proof (Hlt e (list_elem_of_here _ _)). destruct (Z.eqb_spec e.1 version); [lia|].
    apply IH. intros e' He'. apply Hlt. by right.
Qed.

Section memory.
Context `{AvroLib} `{ProtobufLib} `{JsonLib}.
Abbreviation registry := (SchemaRegistry MemorySchemaStorage).

(** What is registered can be read: a text that passes the checks and that the subject
    does not have yet gets the next id and the next version, and is then the answer by id,
    by version and as the latest of the subject, whatever the caches held before. *)
Theorem register_then_read n names (r : registry) subject body org org' :
  reg_ok (S n) names r -> versions_fit subject (rg_storage r) ->
  admit_schema subject body org r = Ok None ->
  let id := next_id (rg_storage r) in
  let version := next_version subject (rg_storage r) in
  let schema := with_id_version id version (new_schema subject body) in
  let '(r', a) := register_schema subject body org r in
  a = Ok id
  /\ (get_latest_schema subject org' r').2 = Ok schema
  /\ (get_schema_by_id id r').2 = Ok schema
  /\ (get_schema subject version org' r').2 = Ok schema.
Proof.
  intros [Hm [Hcs Hcl]] Hfit Hadmit id version schema. unfold register_schema. rewrite Hadmit.
  pose proof (admit_exists _ _ _ _ _ Hadmit) as Hex.
  pose proof (next_version_above _ _ Hfit) as Hab.
  destruct Hm as (Hid & Hby & Hn & Hent). cbn -[SchemaMemory.schema_exists]. unfold SchemaMemory.register_schema.
  cbn -[SchemaMemory.schema_exists]. rewrite (Hex : SchemaMemory.schema_exists _ _ _ _ = _).
  fold id. change (next_version subject _) with version.
  change (with_id_version id version (new_schema subject body)) with schema.
  set (v := default [] (subject_versions (rg_storage r) !! subject)).
  assert (Hlt : forall e, e ∈ v -> e.1 < version).
  { intros e He. unfold v in He. destruct (subject_versions _ !! subject) as [w|] eqn:Hw; [|by apply not_elem_of_nil in He].
    by apply (Hab w). }
  split; [done|]. split; [|split].
  - unfold get_latest_schema. cbn. rewrite lookup_delete_eq. unfold SchemaMemory.get_latest_schema. cbn.
    rewrite lookup_insert_eq. cbn. rewrite (max_by_key_snoc fst v (version, id)); [|intros e He; apply Z.lt_le_incl, Hlt, He].
    cbn. by rewrite lookup_insert_eq.
  - unfold get_schema_by_id. cbn. destruct (schema_cache r !! id) as [s|] eqn:Hc.
    + apply Hcs in Hc as [_ Hc]. apply Hn in Hc. unfold id in Hc. lia.
    + unfold SchemaMemory.get_schema_by_id. cbn. by rewrite lookup_insert_eq.
  - unfold get_schema. cbn. unfold get_schema_by_subject_version. cbn. rewrite lookup_insert_eq. cbn.
    rewrite find_version_snoc by done. cbn. by rewrite lookup_insert_eq.
Qed.
End memory.

(** ** Tenants *)

Section tenants.
Context `{AvroLib} `{ProtobufLib} `{JsonLib} {St : Type} `{!SchemaStorage St}.

Lemma latest_cached (r : SchemaRegistry St) subject org s :
  (get_latest_schema subject org r).2 = Ok s -> subject_cache (get_latest_schema subject org r).1 !! subject = Some s.
Proof.
  unfold get_latest_schema. destruct (subject_cache r !! subject) as [t|] eqn:Hc; cbn; [congruence|].
  destruct (or_not_found _ _) as [t|e|]; cbn; [|done..]. rewrite lookup_insert_eq. congruence.
Qed.

(** The cache of latest schemas is shared by the organizations: what one organization has
    asked for is the answer to every other one that asks for a subject of the same name,
    whatever the storage has for it. *)
Theorem latest_crosses_tenants (r : SchemaRegistry St) subject org other s :
  (get_latest_schema subject org r).2 = Ok s ->
  let r' := (get_latest_schema subject org r).1 in
  forall st, (get_latest_schema subject other (set_storage st r')).2 = Ok s.
Proof.
  intros Hs%latest_cached r' st. unfold get_latest_schema. change (subject_cache r' !! subject = Some s) in Hs. cbn [subject_cache set_storage]. by rewrite Hs.
Qed.
End tenants.

Section postgres.
Context `{Laws : SchemaDbLaws}.

Lemma join_nil cond d : (forall s v, v ∈ pg_versions d -> cond s v = false) -> join cond d = [].
Proof.
  intros Hc. destruct (join cond d) as [|[s v] l] eqn:Hj; [done|].
  assert (Hin : (s, v) ∈ join cond d) by (rewrite Hj; by left).
  apply elem_of_join in Hin as (_ & Hv & _ & Ht). by rewrite Hc in Ht.
Qed.

(** Versions on PostgreSQL are unique over all organizations: once a subject has version 1
    in one organization, no other organization can register a first schema under that
    subject. *)
Theorem subject_taken (d : PostgresSchemaStorage) v s org :
  v ∈ pg_versions d -> v_subject v = sc_subject s -> v_version v = 1 ->
  (forall w, w ∈ pg_versions d -> v_subject w = sc_subject s -> v_organization w <> parsed_org_id org) ->
  let '(d', a) := SchemaPostgres.register_schema s org d in
  (exists e, a = Err e) /\ pg_schemas d' = pg_schemas d /\ pg_versions d' = pg_versions d.
Proof.
  intros Hv Hsub Hver Hnone.
  assert (Hno : forall w, w ∈ pg_versions d -> in_subject (sc_subject s) org w = false).
  { intros w Hw. apply not_true_iff_false. intros [Hs Ho]%in_subject_true. by apply (Hnone w). }
  unfold SchemaPostgres.register_schema, schema_exists, SchemaPostgres.get_latest_schema.
  rewrite join_nil by (intros t w Hw; by rewrite Hno). rewrite join_nil by (intros t w Hw; by rewrite Hno).
  cbn [head mbind option_bind max_by_key foldl to_optional_schema].
  assert (Hins : forall i o, exists e, insert_version (mk_version_row (sc_subject s) 1 i o) d = Err e).
  { intros i o. unfold insert_version. destruct (negb (fits_varchar_255 _)); [by eexists|].
    rewrite (proj2 (existsb_exists _ _)); [by eexists|]. exists v. split; [by apply list_elem_of_In|].
    cbn. by rewrite bool_decide_true, Hver. }
  destruct (insert_schema s (parsed_org_id org) d) as [[schemas i]|e|] eqn:Hi; cbn [mbind outcome_bind].
  - destruct (Hins i (parsed_org_id org)) as [e He]. rewrite He. cbn. by split; [eexists|].
  - by split; [eexists|].
  - unfold insert_schema in Hi. by repeat case_match.
Qed.
End postgres.

(** ** Messages *)

(** A message is read as the id and the data it was made of, and only such messages are
    read. *)
Theorem framing_roundtrip id data buf :
  in_i 32 id ->
  deserialize_with_schema_id (serialize_with_schema_id id data) = Ok (id, data)
  /\ (deserialize_with_schema_id buf = Ok (id, data) -> buf = serialize_with_schema_id id data).
Proof.
  intros Hid.
  assert (Hput : put_be 4 id = put_be 4 (wrap 32 id)).
  { unfold put_be. f_equal. apply (le_split_mod id 4). }
  assert (Hwrap : swrap 32 (wrap 32 id) = id).
  { rewrite <- (swrap_small 32 id) at 2 by done. unfold swrap, wrap. by rewrite Zmod_mod. }
  split.
  - unfold serialize_with_schema_id, deserialize_with_schema_id. cbn [app].
    rewrite Hput, get_be_put by (apply wrap_in_u; lia). cbn. by rewrite Hwrap.
  - unfold deserialize_with_schema_id. destruct buf as [|m rest]; [done|].
    destruct (get_be 4 rest) as [[i payload]|] eqn:Hg; [|done]. apply get_be_bound in Hg as [Hi ->].
    destruct (Z.eqb_spec (byte.unsigned m) MAGIC_BYTE) as [Hm|]; [|done]. cbn. intros [= <- <-].
    unfold serialize_with_schema_id. cbn [app]. f_equal.
    + by rewrite <- Hm; unfold byte_of; rewrite byte.of_Z_unsigned.
    + f_equal. rewrite Hput. f_equal. unfold wrap. rewrite <- (Z.mod_small i (2 ^ 32)) at 1 by done.
      unfold swrap. case_match; [by rewrite Zmod_mod|]. 
      replace (i mod 2 ^ 32 - 2 ^ 32) with (i mod 2 ^ 32 + (-1) * 2 ^ 32) by lia. by rewrite Z.mod_add, Zmod_mod.
Qed.
