(* ===== verification/SchemaExamples.v ===== *)
(** * The schema registry on concrete inputs

    Small stand-ins for the parsers and the server, and every property of the registry that
    has hypotheses at an input that meets them. *)

From S2P Require Import Prelude SchemaTypes SchemaCompat SchemaMemory SchemaPostgres SchemaRegistry SchemaRegistryFacts SchemaRegistryProps.

(** ** Stand-ins *)

(** Records of strings: the names of the fields, with or without a default. *)
Inductive toy_avro : Type := ToyString | ToyRecord (fields : list (string * bool)).

#[export] Instance toy_avro_eq_dec : EqDecision toy_avro.
Proof. solve_decision. Defined.

#[export] Instance toy_avro_lib : AvroLib := {|
  avro := toy_avro;
  avro_eqb a b := bool_decide (a = b);
  avro_view a := match a with
                 | ToyString => AString
                 | ToyRecord fields => ARecord "R" (map (fun f => mk_avro_field f.1 ToyString f.2) fields)
                 end;
  avro_parse_str s :=
    if bool_decide (s = "A"%string) then inr (ToyRecord [("x"%string, false)])
    else if bool_decide (s = "B"%string) then inr (ToyRecord [("x"%string, false); ("y"%string, false)])
    else inl "unknown"%string |}.
#[export] Instance toy_protobuf_lib : ProtobufLib := fun _ => inr [].
#[export] Instance toy_json_lib : JsonLib := {| json_number := Z; value_from_str _ := inl "unknown"%string |}.
#[export] Instance toy_schema_db : SchemaDb := {|
  sha256_hex s := s; parse_uuid s := Some s; nil_uuid := "nil"; fits_varchar_255 _ := true;
  scan _ l := l; order_by_text l := l |}.
#[export] Instance toy_schema_db_laws : SchemaDbLaws toy_schema_db.
Proof. by apply (Build_SchemaDbLaws toy_schema_db (fun _ => True)). Defined.

Definition register (text : string) : RegisterSchemaRequest := mk_register_request text None [] None.
Definition avro_schema (id version : Z) (text : string) : Schema := mk_schema id "s" version Avro text [] no_metadata.

(** ** Compatibility *)

Lemma avro_modes_swapped_witness :
  check_avro_compatibility (avro_schema 1 1 "A") "B" Backward = Ok true
  /\ check_avro_compatibility (avro_schema 1 1 "A") "B" Forward = Ok false
  /\ check_avro_compatibility (avro_schema 1 1 "B") "A" Backward = Ok false
  /\ check_avro_compatibility (avro_schema 1 1 "B") "A" Forward = Ok true.
Proof.
  apply (@avro_modes_swapped toy_avro_lib (ToyRecord [("x"%string, false)]) (ToyRecord [("x"%string, false); ("y"%string, false)]) "R"
           [mk_avro_field "x" ToyString false] (mk_avro_field "y" ToyString false)); try reflexivity.
  - apply NoDup_singleton.
  - cbn. intros Hy%list_elem_of_singleton. discriminate.
  - by repeat constructor.
Defined.

(** A property that was required becomes optional, and an integer becomes a number; other properties stay refused.
    Of the other entries "enum" is looked at. *)
Abbreviation toy_json := (json (json_number (JsonLib := toy_json_lib))).
Definition an_integer : toy_json := JObject [("type"%string, JString "integer")].
Definition a_number : toy_json := JObject [("type"%string, JString "number")].
Definition json_old : toy_json :=
  JObject [("properties"%string, JObject [("a"%string, an_integer)]); ("required"%string, JArray [JString "a"]);
           ("type"%string, JString "object"); ("additionalProperties"%string, JBool false)].
Definition json_new : toy_json :=
  JObject [("properties"%string, JObject [("a"%string, a_number)]); ("type"%string, JString "object");
           ("additionalProperties"%string, JBool false)].
Definition enum_only (o : list (string * toy_json)) (x : toy_json) : bool :=
  match get "enum" o with Some (JArray vs) => contains vs x | _ => true end.
Definition json_instance : toy_json := JObject [("a"%string, JNumber (N := Z) 1)].

Lemma json_check_sound_witness :
  check_json_backward_compatible json_old json_new = Ok true
  /\ valid (fun _ => true) enum_only json_new json_instance = true
  /\ valid (fun _ => true) enum_only json_new (JObject [("b"%string, JNull)]) = false.
Proof.
  split; [by vm_compute|]. split; [|by vm_compute].
  apply (@json_check_sound toy_json_lib (fun _ => true) enum_only json_old json_new json_instance); [by vm_compute| |by vm_compute].
  constructor.
  - vm_compute. by intros [t Ht].
  - intros k. change (is_Some (if bool_decide (k = "a"%string) then Some a_number else None) ->
                      is_Some (if bool_decide (k = "a"%string) then Some an_integer else None)).
    case_bool_decide; [by eexists|done].
  - intros a [= <-]. right. split; [done|]. intros k.
    change (is_Some (if bool_decide (k = "a"%string) then Some an_integer else None) ->
            is_Some (if bool_decide (k = "a"%string) then Some a_number else None)).
    case_bool_decide; [by eexists|done].
  - done.
  - intros k os ns.
    change ((if bool_decide (k = "a"%string) then Some an_integer else None) = Some os ->
            (if bool_decide (k = "a"%string) then Some a_number else None) = Some ns -> tracked enum_only os ns).
    case_bool_decide; [|done]. intros [= <-] [= <-].
    constructor; [vm_compute; by intros [t Ht]|by intros l [s Hs]|done..].
Defined.

(** ** The registry *)

Definition story : list event :=
  [Request (Some "o1"%string) (RegisterSchema "s" (register "A"));
   Request (Some "o1"%string) (RegisterSchema "s" (register "B"));
   Request (Some "o1"%string) (GetSchemaByVersion "s" "latest");
   Request None (GetSchemaById 1);
   Request (Some "o1"%string) (RegisterSchema "s" (register "unknown"));
   Request (Some "o1"%string) (DeleteSubject "s");
   Forget [2] ["s"%string];
   Request (Some "o1"%string) (RegisterSchema "s" (register "A"));
   Request None (GetSchemaById 1)].

Definition db : PostgresSchemaStorage := mk_postgres NoFault {["o1"%string; "o2"%string]} 1 [] [] ∅ "backward".

Lemma stable_ids_witness :
  (said (serve story (new SchemaMemory.new)).2
     = [(1, "A"%string); (2, "B"%string); (2, "B"%string); (1, "A"%string); (3, "A"%string); (1, "A"%string)]
   /\ forall id text text', (id, text) ∈ said (serve story (new SchemaMemory.new)).2 ->
        (id, text') ∈ said (serve story (new SchemaMemory.new)).2 -> text = text')
  /\ (said (serve story (new db)).2
        = [(1, "A"%string); (2, "B"%string); (2, "B"%string); (1, "A"%string); (1, "A"%string); (1, "A"%string)]
      /\ forall id text text', (id, text) ∈ said (serve story (new db)).2 ->
           (id, text') ∈ said (serve story (new db)).2 -> text = text').
Proof.
  split; (split; [vm_compute; reflexivity|]).
  - apply (stable_ids story ∅ (new SchemaMemory.new)).
    + split; [by apply mem_named_new|by split].
    + by repeat constructor.
  - apply (stable_ids story ∅ (new db)).
    + split; [split; [by intros s Hs%not_elem_of_nil|done]|by split].
    + by repeat constructor.
Defined.

Lemma register_then_read_witness :
  let r : SchemaRegistry MemorySchemaStorage := (register_schema "s" (register "A") "o1" (new SchemaMemory.new)).1 in
  admit_schema "s" (register "B") "o1" r = Ok None
  /\ (get_latest_schema "s" "o2" (register_schema "s" (register "B") "o1" r).1).2 = Ok (avro_schema 2 2 "B").
Proof.
  set (r := (register_schema "s" (register "A") "o1" (new SchemaMemory.new)).1 : SchemaRegistry MemorySchemaStorage).
  assert (Ha : admit_schema "s" (register "B") "o1" r = Ok None) by (vm_compute; reflexivity).
  split; [exact Ha|].
  assert (Hby : schemas_by_id (rg_storage r) = {[1 := avro_schema 1 1 "A"]}) by (vm_compute; reflexivity).
  assert (Hvs : subject_versions (rg_storage r) = {["s"%string := [(1, 1)]]}) by (vm_compute; reflexivity).
  assert (Hcs : schema_cache r = ∅) by (vm_compute; reflexivity).
  assert (Hss : subject_cache r = ∅) by (vm_compute; reflexivity).
  assert (Hok : reg_ok 1 {[1 := "A"%string]} r).
  { split; [split; [|split; [|split]]|split].
    - vm_compute. split; discriminate.
    - intros id s. rewrite Hby. rewrite lookup_singleton_Some. intros [<- <-]. by vm_compute.
    - intros id t. rewrite lookup_singleton_Some. intros [<- _]. vm_compute. reflexivity.
    - intros subject v e. rewrite Hvs, lookup_singleton_Some. intros [<- <-] ->%list_elem_of_singleton.
      split; [vm_compute; reflexivity|]. intros s. rewrite Hby. cbn [snd]. rewrite lookup_singleton_Some.
      by intros [_ <-].
    - intros id s. by rewrite Hcs, lookup_empty.
    - intros subject s. by rewrite Hss, lookup_empty. }
  assert (Hfit : versions_fit "s" (rg_storage r)).
  { intros v e. rewrite Hvs, lookup_singleton_Some. by intros [_ <-] ->%list_elem_of_singleton. }
  pose proof (register_then_read 0 {[1 := "A"%string]} r "s" (register "B") "o1" "o2" Hok Hfit Ha) as Hread.
  cbv beta zeta in Hread. destruct (register_schema "s" (register "B") "o1" r) as [r' a]. cbn [fst].
  destruct Hread as (_ & Hl & _). rewrite Hl. vm_compute. reflexivity.
Defined.

Lemma latest_crosses_tenants_witness :
  let r := (register_schema "s" (register "A") "o1" (new db)).1 in
  (get_latest_schema "s" "o1" r).2 = Ok (avro_schema 1 1 "A")
  /\ (or_not_found (SubjectNotFound "s") (st_latest "s" "o2" (rg_storage r)) = Err (SubjectNotFound "s"))
  /\ (get_latest_schema "s" "o2" (get_latest_schema "s" "o1" r).1).2 = Ok (avro_schema 1 1 "A").
Proof.
  split; [vm_compute; reflexivity|]. split; [vm_compute; reflexivity|].
  set (r := (register_schema "s" (register "A") "o1" (new db)).1).
  assert (Hs : (get_latest_schema "s" "o1" r).2 = Ok (avro_schema 1 1 "A")) by (vm_compute; reflexivity).
  apply (latest_crosses_tenants r "s" "o1" "o2" (avro_schema 1 1 "A") Hs (rg_storage (get_latest_schema "s" "o1" r).1)).
Defined.

Lemma subject_taken_witness :
  let d := (SchemaPostgres.register_schema (avro_schema 0 0 "A") "o1" db).1 in
  exists e, (SchemaPostgres.register_schema (avro_schema 0 0 "B") "o2" d).2 = Err e.
Proof.
  set (d := (SchemaPostgres.register_schema (avro_schema 0 0 "A") "o1" db).1).
  assert (Hv : pg_versions d = [mk_version_row "s" 1 1 "o1"]) by (vm_compute; reflexivity).
  pose proof (subject_taken d (mk_version_row "s" 1 1 "o1") (avro_schema 0 0 "B") "o2"
    ltac:(rewrite Hv; by left) eq_refl eq_refl) as Ht.
  cbv zeta. destruct (SchemaPostgres.register_schema _ "o2" d) as [d' a].
  destruct Ht as [He _]; [|exact He].
  intros w. rewrite Hv. by intros ->%list_elem_of_singleton.
Defined.

Lemma framing_roundtrip_witness :
  deserialize_with_schema_id (serialize_with_schema_id (-7) [byte_of 1; byte_of 2]) = Ok (-7, [byte_of 1; byte_of 2]).
Proof. by apply (framing_roundtrip (-7) [byte_of 1; byte_of 2] []). Defined.

(** ** What goes wrong *)

(** A text that a subject has already is refused, although it has an id, when it is not
    compatible with the latest version. *)
Lemma known_text_refused :
  let r : SchemaRegistry MemorySchemaStorage :=
    (register_schema "s" (register "B") "o1" (register_schema "s" (register "A") "o1" (new SchemaMemory.new)).1).1 in
  st_exists "s" "A" "o1" (rg_storage r) = Ok (Some 1)
  /\ (register_schema "s" (register "A") "o1" r).2 = Err (not_compatible 2 Backward).
Proof. by vm_compute. Qed.

(** A subject whose versions are all deleted is still listed, and starts again with version
    1. *)
Lemma emptied_subject_listed :
  let r : SchemaRegistry MemorySchemaStorage := (register_schema "s" (register "A") "o1" (new SchemaMemory.new)).1 in
  let r := (delete_version "s" 1 "o1" r).1 in
  get_subjects "o1" r = Ok ["s"%string] /\ get_versions "s" "o1" r = Ok []
  /\ (get_schema "s" 1 "o1" (register_schema "s" (register "B") "o1" r).1).2 = Ok (avro_schema 2 1 "B").
Proof. by vm_compute. Qed.

(** In mode NONE a schema of another format is refused. *)
Lemma none_still_checks :
  check_compatibility (avro_schema 1 1 "A") "{}" Json NoCheck = Err (format_mismatch Avro Json).
Proof. by vm_compute. Qed.

Example parse_i32_min : parse_i32 "-2147483648" = Some (-2147483648) /\ parse_i32 "2147483648" = None
  /\ parse_i32 "+7" = Some 7 /\ parse_i32 "-" = None /\ parse_i32 "" = None.
Proof. by vm_compute. Qed.
