(* ===== verification/Lease.v ===== *)
(** * Partition leases (crates/streamhouse-metadata/src/store.rs, postgres.rs and
      crates/streamhouse-agent/src/lease_manager.rs)

    [Store] is the lease tables of the metadata store: one function per method, each SQL
    statement translated to what it does to the rows.  [Manager] is the lease manager of an
    agent: a cache of leases in front of the store.  Times are milliseconds. *)

From stdpp Require Import pretty functions.
From S2P Require Import Prelude HashMap MetadataError.

Inductive AgentError : Type :=
| NotStarted | AlreadyStarted | LeaseHeldByOther (m : string)
| LeaseExpired (topic : string) (partition : Z) | StaleEpoch (expected actual : Z)
| AMetadata (e : MetadataError) | AStorage (m : string) | AIo (m : string) | AJoin (m : string).

(** (topic, partition) *)
Abbreviation pkey := (string * Z)%type.

(** [map_err(AgentError::Metadata)]. *)
Definition lift {A} (r : outcome MetadataError A) : outcome AgentError A :=
  match r with Ok a => Ok a | Err e => Err (AMetadata e) | Panic => Panic end.

Record PartitionLease : Type := mk_lease {
  organization_id : string;
  l_topic : string;
  l_partition_id : Z;
  leader_agent_id : string;
  lease_expires_at : Z;
  acquired_at : Z;
  l_epoch : Z
}.

Inductive LeaseTransferState : Type :=
| Pending | Accepted | Completing | Completed | Rejected | TimedOut | Failed.

#[export] Instance transfer_state_eq_dec : EqDecision LeaseTransferState.
Proof. solve_decision. Defined.

Inductive LeaderChangeReason : Type :=
| RLeaseExpired | GracefulHandoff | AgentCrash | RRebalance | Initial.

Record LeaseTransfer : Type := mk_transfer {
  transfer_id : string;
  t_topic : string;
  t_partition_id : Z;
  from_agent_id : string;
  to_agent_id : string;
  from_epoch : Z;
  t_state : LeaseTransferState;
  reason : LeaderChangeReason;
  initiated_at : Z;
  completed_at : option Z;
  timeout_at : Z;
  last_flushed_offset : option Z;
  high_watermark : option Z;
  t_error : option string
}.

Definition part_name (topic : string) (partition_id : Z) : string :=
  topic +:+ "/" +:+ pretty partition_id.

Module Store.

(** A row of [leader_changes], without its running number. *)
Record LeaderChange : Type := mk_change {
  c_key : pkey;
  c_from : option string;
  c_to : string;
  c_reason : LeaderChangeReason;
  c_epoch : Z;
  c_gap_ms : Z;
  c_at : Z
}.

Record store : Type := mk_store {
  partition_leases : gmap pkey PartitionLease;
  lease_transfers : gmap string LeaseTransfer;
  leader_changes : list LeaderChange
}.

Definition set_lease (k : pkey) (l : PartitionLease) (s : store) : store :=
  mk_store (<[k := l]> (partition_leases s)) (lease_transfers s) (leader_changes s).
Definition set_transfer (t : LeaseTransfer) (s : store) : store :=
  mk_store (partition_leases s) (<[transfer_id t := t]> (lease_transfers s)) (leader_changes s).

(** The INSERT ... ON CONFLICT DO UPDATE of [acquire_partition_lease]. *)
Definition upsert_lease (org topic : string) (partition_id : Z) (agent : string)
    (lease_duration_ms now_ms : Z) (s : store) : store :=
  let k := (topic, partition_id) in
  let expires_at := swrap 64 (now_ms + lease_duration_ms) in
  match partition_leases s !! k with
  | None => set_lease k (mk_lease org topic partition_id agent expires_at now_ms 1) s
  | Some l =>
      if bool_decide (leader_agent_id l = agent) || (lease_expires_at l <? now_ms)
      then set_lease k (mk_lease (organization_id l) (l_topic l) (l_partition_id l) agent expires_at
                          now_ms (l_epoch l + 1)) s
      else s
  end.

Definition get_partition_lease (topic : string) (partition_id now_ms : Z) (s : store)
  : option PartitionLease :=
  l ← partition_leases s !! (topic, partition_id);
  if now_ms <? lease_expires_at l then Some l else None.

(** The check of the row read back. *)
Definition verify_lease (topic : string) (partition_id : Z) (agent : string)
    (lease : option PartitionLease) : outcome MetadataError PartitionLease :=
  match lease with
  | Some lease =>
      if bool_decide (leader_agent_id lease = agent) then Ok lease
      else Err (ConflictError ("Partition " +:+ part_name topic partition_id
                               +:+ " is already leased to another agent"))
  | None => Err (NotFoundError ("Lease for partition " +:+ part_name topic partition_id
                                +:+ " not found after acquisition"))
  end.

(** [now1] is the clock of the statement that acquires, [now2] of the one that reads back. *)
Definition acquire_partition_lease (org topic : string) (partition_id : Z) (agent : string)
    (lease_duration_ms now1 now2 : Z) (s : store) : store * outcome MetadataError PartitionLease :=
  let s := upsert_lease org topic partition_id agent lease_duration_ms now1 s in
  (s, verify_lease topic partition_id agent (get_partition_lease topic partition_id now2 s)).

(** DELETE ... WHERE leader_agent_id = agent. *)
Definition delete_lease (topic : string) (partition_id : Z) (agent : string) (s : store) : store :=
  match partition_leases s !! (topic, partition_id) with
  | Some l =>
      if bool_decide (leader_agent_id l = agent)
      then mk_store (delete (topic, partition_id) (partition_leases s)) (lease_transfers s)
             (leader_changes s)
      else s
  | None => s
  end.

Definition release_partition_lease (topic : string) (partition_id : Z) (agent : string) (s : store)
  : store * outcome MetadataError unit :=
  let held := match partition_leases s !! (topic, partition_id) with
              | Some l => bool_decide (leader_agent_id l = agent)
              | None => false
              end in
  (delete_lease topic partition_id agent s,
   if held then Ok tt
   else Err (NotFoundError ("No lease found for partition " +:+ part_name topic partition_id
                            +:+ " held by agent " +:+ agent))).

(** ** Transfers *)

Definition in_progress (s : LeaseTransferState) : bool :=
  match s with Pending | Accepted | Completing => true | _ => false end.

Definition transfer_exists (topic : string) (partition_id : Z) (s : store) : bool :=
  negb (bool_decide (filter (fun e => t_topic e.2 = topic /\ t_partition_id e.2 = partition_id
                                      /\ in_progress (t_state e.2) = true) (lease_transfers s) = ∅)).

(** [id] is the fresh UUID. *)
Definition initiate_lease_transfer (id topic : string) (partition_id : Z) (from to : string)
    (reason : LeaderChangeReason) (timeout_ms now : Z) (s : store)
  : store * outcome MetadataError LeaseTransfer :=
  match get_partition_lease topic partition_id now s with
  | None => (s, Err (NotFoundError ("No lease found for partition " +:+ part_name topic partition_id)))
  | Some l =>
      if negb (bool_decide (leader_agent_id l = from))
      then (s, Err (ConflictError ("Partition " +:+ part_name topic partition_id
                                   +:+ " is not held by agent " +:+ from)))
      else if transfer_exists topic partition_id s
      then (s, Err (ConflictError ("A transfer is already in progress for partition "
                                   +:+ part_name topic partition_id)))
      else
        let t := mk_transfer id topic partition_id from to (l_epoch l) Pending reason now None
                   (swrap 64 (now + timeout_ms)) None None None in
        (set_transfer t s, Ok t)
  end.

Definition with_state (st : LeaseTransferState) (t : LeaseTransfer) : LeaseTransfer :=
  mk_transfer (transfer_id t) (t_topic t) (t_partition_id t) (from_agent_id t) (to_agent_id t)
    (from_epoch t) st (reason t) (initiated_at t) (completed_at t) (timeout_at t)
    (last_flushed_offset t) (high_watermark t) (t_error t).

(** The debug print of a state ([{:?}]). *)
Definition debug_state (s : LeaseTransferState) : string :=
  match s with
  | Pending => "Pending" | Accepted => "Accepted" | Completing => "Completing"
  | Completed => "Completed" | Rejected => "Rejected" | TimedOut => "TimedOut" | Failed => "Failed"
  end.

Definition accept_lease_transfer (id agent : string) (now : Z) (s : store)
  : store * outcome MetadataError LeaseTransfer :=
  match lease_transfers s !! id with
  | None => (s, Err (NotFoundError ("Transfer " +:+ id +:+ " not found")))
  | Some t =>
      if negb (bool_decide (t_state t = Pending))
      then (s, Err (ConflictError ("Transfer " +:+ id +:+ " is in state " +:+ debug_state (t_state t)
                                   +:+ ", not pending")))
      else if negb (bool_decide (to_agent_id t = agent))
      then (s, Err (ConflictError ("Transfer " +:+ id +:+ " is for agent " +:+ to_agent_id t
                                   +:+ ", not " +:+ agent)))
      else if now >? timeout_at t
      then (s, Err (ConflictError ("Transfer " +:+ id +:+ " has timed out")))
      else (set_transfer (with_state Accepted t) s, Ok (with_state Accepted t))
  end.

(** [complete_lease_transfer] of the SQLite store: one database transaction. *)
Definition complete_lease_transfer (id : string) (flushed watermark now : Z) (s : store)
  : store * outcome MetadataError PartitionLease :=
  match lease_transfers s !! id with
  | None => (s, Err (NotFoundError ("Transfer " +:+ id +:+ " not found")))
  | Some t =>
      if negb (bool_decide (t_state t = Accepted))
      then (s, Err (ConflictError ("Transfer " +:+ id +:+ " is in state " +:+ debug_state (t_state t)
                                   +:+ ", not accepted")))
      else
        let new_epoch := from_epoch t + 1 in
        let expires := swrap 64 (now + 30000) in
        let k := (t_topic t, t_partition_id t) in
        let done := mk_transfer id (t_topic t) (t_partition_id t) (from_agent_id t) (to_agent_id t)
                      (from_epoch t) Completed (reason t) (initiated_at t) (Some now) (timeout_at t)
                      (Some flushed) (Some watermark) (t_error t) in
        let leases :=
          match partition_leases s !! k with
          | Some l =>
              <[k := mk_lease (organization_id l) (l_topic l) (l_partition_id l) (to_agent_id t)
                       expires now new_epoch]> (partition_leases s)
          | None => partition_leases s
          end in
        (mk_store leases (<[id := done]> (lease_transfers s))
           (leader_changes s ++ [mk_change k (Some (from_agent_id t)) (to_agent_id t) (reason t) new_epoch 0 now]),
         Ok (mk_lease "" (t_topic t) (t_partition_id t) (to_agent_id t) expires now new_epoch))
  end.

(** [complete_lease_transfer] of the PostgreSQL store, a sequence of statements: the transfer
    is marked completed, then the lease is acquired like any other. *)
Definition pg_complete_lease_transfer (uuid_error : string -> option string) (id : string)
    (flushed watermark now : Z) (s : store) : store * outcome MetadataError PartitionLease :=
  match lease_transfers s !! id with
  | None => (s, Err (NotFoundError ("Transfer " +:+ id +:+ " not found")))
  | Some t =>
      if negb (bool_decide (t_state t = Accepted))
      then (s, Err (ConflictError ("Transfer " +:+ id +:+ " is not in accepted state")))
      else
        let done := mk_transfer id (t_topic t) (t_partition_id t) (from_agent_id t) (to_agent_id t)
                      (from_epoch t) Completed (reason t) (initiated_at t) (Some now) (timeout_at t)
                      (Some flushed) (Some watermark) (t_error t) in
        let s := mk_store (partition_leases s) (<[id := done]> (lease_transfers s)) (leader_changes s) in
        let org := match get_partition_lease (t_topic t) (t_partition_id t) now s with
                   | Some l => organization_id l
                   | None => ""%string
                   end in
        match uuid_error org with
        | Some e => (s, Err (InternalError ("invalid organization_id '" +:+ org +:+ "': " +:+ e)))
        | None =>
            acquire_partition_lease org (t_topic t) (t_partition_id t) (to_agent_id t) 30000 now now s
        end
  end.

Definition reject_lease_transfer (id : string) (why : string) (now : Z) (s : store)
  : store * outcome MetadataError unit :=
  match lease_transfers s !! id with
  | Some t =>
      match t_state t with
      | Pending | Accepted =>
          (set_transfer (mk_transfer id (t_topic t) (t_partition_id t) (from_agent_id t)
             (to_agent_id t) (from_epoch t) Rejected (reason t) (initiated_at t) (Some now)
             (timeout_at t) (last_flushed_offset t) (high_watermark t) (Some why)) s, Ok tt)
      | _ => (s, Err (ConflictError ("Transfer " +:+ id +:+ " not found or already completed")))
      end
  | None => (s, Err (ConflictError ("Transfer " +:+ id +:+ " not found or already completed")))
  end.

(** Pending and accepted transfers past their time-out are closed; the number of rows. *)
Definition cleanup_timed_out_transfers (now : Z) (s : store) : store * outcome MetadataError Z :=
  let late t := match t_state t with Pending | Accepted => timeout_at t <? now | _ => false end in
  let close t :=
    if late t
    then mk_transfer (transfer_id t) (t_topic t) (t_partition_id t) (from_agent_id t) (to_agent_id t)
           (from_epoch t) TimedOut (reason t) (initiated_at t) (Some now) (timeout_at t)
           (last_flushed_offset t) (high_watermark t) (Some "Transfer timed out"%string)
    else t in
  (mk_store (partition_leases s) (close <$> lease_transfers s) (leader_changes s),
   Ok (Z.of_nat (size (filter (fun e => late e.2 = true) (lease_transfers s))))).

(** The row of a leader change that is reported; an empty name of the old leader is NULL. *)
Definition leader_change (topic : string) (partition_id : Z) (from : option string) (to : string)
    (reason : LeaderChangeReason) (epoch gap_ms now : Z) : LeaderChange :=
  let from_agent := default ""%string from in
  mk_change (topic, partition_id) (if bool_decide (from_agent = ""%string) then None else Some from_agent) to reason epoch gap_ms now.

Definition record_leader_change (topic : string) (partition_id : Z) (from : option string) (to : string)
    (reason : LeaderChangeReason) (epoch gap_ms now : Z) (s : store) : store * outcome MetadataError unit :=
  (mk_store (partition_leases s) (lease_transfers s)
     (leader_changes s ++ [leader_change topic partition_id from to reason epoch gap_ms now]), Ok tt).

End Store.

(** ** The lease manager of an agent *)

Module Manager.

Definition DEFAULT_LEASE_DURATION_MS : Z := 300000.

Record CachedLease : Type := mk_cached {
  topic : string;
  partition_id : Z;
  epoch : Z;
  expires_at : Z
}.

Abbreviation cache := (gmap pkey CachedLease).

Definition is_expired (expires_at now : Z) : bool := expires_at <=? now.

(** What the outside world answers during one call: the organization of the topic, a failure
    of the database before the lease statement runs, the clock when the cache is read, when
    the lease statement runs, and when the lease is read back. *)
Record env : Type := mk_env {
  e_org : outcome MetadataError (option string);
  e_db : option MetadataError;
  e_now0 : Z;
  e_now1 : Z;
  e_now2 : Z
}.

(** The state an agent works on: the shared store and its own cache. *)
Abbreviation world := (Store.store * cache)%type.

Definition cached (l : PartitionLease) (k : pkey) : CachedLease :=
  mk_cached (fst k) (snd k) (l_epoch l) (lease_expires_at l).

(** [acquire_lease] and [renew_lease], which differ in the verb of a message. *)
Definition obtain (verb agent : string) (k : pkey) (e : env) (w : world)
  : world * outcome AgentError PartitionLease :=
  let '(s, c) := w in
  match e_org e with
  | Err err => (w, Err (AMetadata err))
  | Panic => (w, Panic)
  | Ok None =>
      (w, Err (AMetadata (InternalError ("Topic '" +:+ fst k +:+ "' has no organization ID — cannot "
                                         +:+ verb +:+ " lease"))))
  | Ok (Some org) =>
      match e_db e with
      | Some err => (w, Err (AMetadata err))
      | None =>
          let '(s, r) := Store.acquire_partition_lease org (fst k) (snd k) agent
                           DEFAULT_LEASE_DURATION_MS (e_now1 e) (e_now2 e) s in
          match r with
          | Ok l => ((s, <[k := cached l k]> c), Ok l)
          | Err err => ((s, c), Err (AMetadata err))
          | Panic => ((s, c), Panic)
          end
      end
  end.

Definition acquire_lease (agent : string) (k : pkey) (e : env) (w : world)
  : world * outcome AgentError Z :=
  let '(w, r) := obtain "acquire" agent k e w in (w, l_epoch <$> r).

Definition renew_lease (agent : string) (k : pkey) (e : env) (w : world)
  : world * outcome AgentError unit :=
  let '(w, r) := obtain "renew" agent k e w in (w, (fun _ => tt) <$> r).

(** [get_epoch]: the epoch of a lease that has not expired. *)
Definition get_epoch (k : pkey) (now : Z) (c : cache) : option Z :=
  l ← c !! k;
  if is_expired (expires_at l) now then None else Some (epoch l).

Definition ensure_lease (agent : string) (k : pkey) (e : env) (w : world)
  : world * outcome AgentError Z :=
  match get_epoch k (e_now0 e) (snd w) with
  | Some epoch => (w, Ok epoch)
  | None => acquire_lease agent k e w
  end.

Definition release_lease (agent : string) (k : pkey) (e : env) (w : world)
  : world * outcome AgentError unit :=
  let '(s, c) := w in
  let c := delete k c in
  match e_db e with
  | Some err => ((s, c), Err (AMetadata err))
  | None =>
      let '(s, r) := Store.release_partition_lease (fst k) (snd k) agent s in ((s, c), lift r)
  end.

Definition validate_epoch (k : pkey) (expected_epoch now : Z) (c : cache) : outcome AgentError unit :=
  match get_epoch k now c with
  | Some current_epoch =>
      if current_epoch =? expected_epoch then Ok tt else Err (StaleEpoch expected_epoch current_epoch)
  | None => Err (LeaseExpired (fst k) (snd k))
  end.

(** One lease of a renewal round; [now] is the clock after a failure. *)
Definition renew_one (agent : string) (w : world) (k : pkey) (e : env) (now : Z) : world :=
  let '(w, r) := renew_lease agent k e w in
  match r with
  | Ok _ => w
  | _ =>
      let '(s, c) := w in
      let should_evict := match c !! k with
                          | None => true
                          | Some l => is_expired (expires_at l) now
                          end in
      if should_evict then (s, delete k c) else (s, c)
  end.

Section iterating.
Context `{HashOrder}.

Definition release_all_leases (agent : string) (envs : pkey -> env) (w : world) : world :=
  foldl (fun w k => fst (release_lease agent k (envs k) w)) w (map fst (iter (snd w))).

Definition get_active_leases (now : Z) (c : cache) : list (string * Z * Z) :=
  map (fun l => (topic l, partition_id l, epoch l))
    (filter (fun l => is_expired (expires_at l) now = false) (map snd (iter c))).

(** One round of the renewal task. *)
Definition renewal_round (agent : string) (now : Z) (envs : pkey -> env) (later : pkey -> Z)
    (w : world) : world :=
  let leases_to_renew :=
    map fst (filter (fun e => is_expired (expires_at e.2) now = false) (iter (snd w))) in
  foldl (fun w k => renew_one agent w k (envs k) (later k)) w leases_to_renew.

(** ** Transfers; [id] is the fresh UUID of the store *)

Definition initiate_transfer (agent id : string) (k : pkey) (to : string) (why : LeaderChangeReason)
    (timeout_ms : Z) (e : env) (now : Z) (w : world) : world * outcome AgentError string :=
  let '((s, c), r) := ensure_lease agent k e w in
  match r with
  | Ok _ =>
      let '(s, r) := Store.initiate_lease_transfer id (fst k) (snd k) agent to why timeout_ms now s in
      ((s, c), transfer_id <$> lift r)
  | Err err => ((s, c), Err err)
  | Panic => ((s, c), Panic)
  end.

(** [complete] is [complete_lease_transfer] of the store the agent is configured with. *)
Definition complete_transfer
    (complete : Store.store -> Store.store * outcome MetadataError PartitionLease) (w : world)
  : world * outcome AgentError unit :=
  let '(s, c) := w in
  let '(s, r) := complete s in
  match r with
  | Ok l => ((s, delete (l_topic l, l_partition_id l) c), Ok tt)
  | Err err => ((s, c), Err (AMetadata err))
  | Panic => ((s, c), Panic)
  end.

Definition accept_transfer (agent id : string) (now : Z) (w : world) : world * outcome AgentError unit :=
  let '(s, c) := w in
  let '(s, r) := Store.accept_lease_transfer id agent now s in ((s, c), (fun _ => tt) <$> lift r).

Definition reject_transfer (id why : string) (now : Z) (w : world) : world * outcome AgentError unit :=
  let '(s, c) := w in
  let '(s, r) := Store.reject_lease_transfer id why now s in ((s, c), lift r).

(** [enumerate()] over the leases: the [i]-th goes to the agent [i % n]. *)
Fixpoint transfer_loop (agent : string) (ids : pkey -> string) (agents : list string) (timeout_ms : Z)
    (envs : pkey -> env) (now : pkey -> Z) (i : nat) (keys : list pkey) (w : world) : world :=
  match keys with
  | [] => w
  | k :: keys =>
      let target := default ""%string (agents !! (i mod length agents)%nat) in
      let '(w, r) := initiate_transfer agent (ids k) k target GracefulHandoff timeout_ms (envs k) (now k) w in
      let w := match r with
               | Ok _ => w
               | _ => fst (release_lease agent k (envs k) w)
               end in
      transfer_loop agent ids agents timeout_ms envs now (S i) keys w
  end.

Definition transfer_all_leases (agent : string) (ids : pkey -> string) (agents : list string)
    (timeout_ms : Z) (envs : pkey -> env) (now : pkey -> Z) (w : world) : world :=
  let leases := map fst (iter (snd w)) in
  if bool_decide (leases = []) then w
  else if bool_decide (agents = []) then release_all_leases agent envs w
  else transfer_loop agent ids agents timeout_ms envs now 0 leases w.
End iterating.

End Manager.


(** ** Agents that share the store

    The calls of several agents, and of several tasks of one agent, interleave between the
    statements they send to the database and the accesses to the cache.  All clocks agree;
    a clock never steps back.  Anything may happen to the other tables, so transfers may begin, be accepted,
    be rejected and time out; the call that completes a transfer, which writes a row of the leases, is not among the steps. *)

Module Cluster.

(** What is left to do of a call in flight: [Acquiring] is [acquire_lease] or [renew_lease]
    before its statement, [ReadBack] before the lease is read back, [Caching] before the
    lease goes to the cache; [Deleting] is [release_lease] before its statement. *)
Inductive task : Type :=
| Acquiring (org : string) (k : pkey)
| ReadBack (k : pkey)
| Caching (k : pkey) (l : PartitionLease)
| Deleting (k : pkey).

Definition task_key (t : task) : pkey :=
  match t with Acquiring _ k => k | ReadBack k => k | Caching k _ => k | Deleting k => k end.

Record cluster : Type := mk_cluster {
  clock : Z;
  db : Store.store;
  caches : string -> Manager.cache;
  tasks : string -> list task
}.

(** The next action of a task of agent [a]: the store, the cache, and what is left to do. *)
Definition run_task (a : string) (now : Z) (t : task) (s : Store.store) (c : Manager.cache)
  : Store.store * Manager.cache * list task :=
  match t with
  | Acquiring org k =>
      (Store.upsert_lease org (fst k) (snd k) a Manager.DEFAULT_LEASE_DURATION_MS now s, c, [ReadBack k])
  | ReadBack k =>
      match Store.verify_lease (fst k) (snd k) a (Store.get_partition_lease (fst k) (snd k) now s) with
      | Ok l => (s, c, [Caching k l])
      | _ => (s, c, [])
      end
  | Caching k l => (s, <[k := Manager.cached l k]> c, [])
  | Deleting k => (Store.delete_lease (fst k) (snd k) a s, c, [])
  end.

(** [allow ts t]: whether a call that starts with [t] may start while [ts] are in flight. *)
Inductive step (allow : list task -> task -> Prop) : cluster -> cluster -> Prop :=
| step_tick now' now s c ts : now <= now' ->
    step allow (mk_cluster now s c ts) (mk_cluster now' s c ts)
| step_acquire a org k now s c ts : allow (ts a) (Acquiring org k) ->
    step allow (mk_cluster now s c ts) (mk_cluster now s c (<[a := ts a ++ [Acquiring org k]]> ts))
| step_release a k now s c ts : allow (ts a) (Deleting k) ->
    step allow (mk_cluster now s c ts)
      (mk_cluster now s (<[a := delete k (c a)]> c) (<[a := ts a ++ [Deleting k]]> ts))
| step_run a before t after now s c ts s' c' rest :
    ts a = before ++ t :: after -> run_task a now t s (c a) = (s', c', rest) ->
    step allow (mk_cluster now s c ts)
      (mk_cluster now s' (<[a := c']> c) (<[a := before ++ rest ++ after]> ts))
| step_fail a before t after now s c ts :
    ts a = before ++ t :: after ->
    step allow (mk_cluster now s c ts) (mk_cluster now s c (<[a := before ++ after]> ts))
| step_evict a k l now s c ts :
    c a !! k = Some l -> Manager.is_expired (Manager.expires_at l) now = true ->
    step allow (mk_cluster now s c ts) (mk_cluster now s (<[a := delete k (c a)]> c) ts)
| step_other now s s' c ts : Store.partition_leases s' = Store.partition_leases s ->
    step allow (mk_cluster now s c ts) (mk_cluster now s' c ts)
| step_crash a now s c ts :
    step allow (mk_cluster now s c ts) (mk_cluster now s (<[a := ∅]> c) (<[a := []]> ts)).

(** The code starts calls without a restriction. *)
Definition unrestricted (ts : list task) (t : task) : Prop := True.

(** A release of a lease does not overlap another call of the agent on the same lease. *)
Definition exclusive (ts : list task) (t : task) : Prop :=
  forall t', t' ∈ ts -> task_key t' = task_key t ->
    match t, t' with Deleting _, _ => False | _, Deleting _ => False | _, _ => True end.

Definition empty_store : Store.store := Store.mk_store ∅ ∅ [].

Definition start (now : Z) : cluster := mk_cluster now empty_store (fun _ => ∅) (fun _ => []).

(** Agent [a] believes that it leads [k]. *)
Definition leads (s : cluster) (a : string) (k : pkey) : Prop :=
  is_Some (Manager.get_epoch k (clock s) (caches s a)).

End Cluster.
