(* ===== verification/LeaseFacts.v ===== *)
(** * Facts about partition leases

    Of the rows of the store ([StoreFacts]), of the agents that share it ([ClusterFacts], [EpochFacts]) and of the calls of one
    lease manager ([CallFacts]). *)

From stdpp Require Import pretty functions.
From S2P Require Import Prelude HashMap MetadataError Lease.

(** ** The lease statements *)

Module StoreFacts.
Import Store.

Section rows.
Implicit Types s : store.

Lemma upsert_other org t p a d now s k :
  k <> (t, p) -> partition_leases (upsert_lease org t p a d now s) !! k = partition_leases s !! k.
Proof.
  intros Hk. unfold upsert_lease.
  repeat case_match; simpl; try done; by rewrite lookup_insert_ne.
Qed.

(** The row of the key after the statement. *)
Lemma upsert_row org t p a d now s :
  partition_leases (upsert_lease org t p a d now s) !! (t, p) =
  Some match partition_leases s !! (t, p) with
       | None => mk_lease org t p a (swrap 64 (now + d)) now 1
       | Some l =>
           if bool_decide (leader_agent_id l = a) || (lease_expires_at l <? now)
           then mk_lease (organization_id l) (l_topic l) (l_partition_id l) a (swrap 64 (now + d)) now
                  (l_epoch l + 1)
           else l
       end.
Proof.
  unfold upsert_lease. destruct (partition_leases s !! (t, p)) as [l|] eqn:He; simpl.
  - destruct (_ || _); simpl; [by rewrite lookup_insert_eq|done].
  - by rewrite lookup_insert_eq.
Qed.

Lemma delete_lease_row t p a s k :
  partition_leases (delete_lease t p a s) !! k =
  match partition_leases s !! k with
  | Some l => if bool_decide (k = (t, p) /\ leader_agent_id l = a) then None else Some l
  | None => None
  end.
Proof.
  unfold delete_lease. destruct (decide (k = (t, p))) as [->|Hk].
  - destruct (partition_leases s !! (t, p)) as [l|] eqn:He; [|done].
    destruct (decide (leader_agent_id l = a)) as [Ha|Ha].
    + rewrite !bool_decide_true by done. simpl. by rewrite lookup_delete_eq.
    + rewrite !bool_decide_false by (intros ?; intuition). done.
  - assert (Hd : partition_leases (delete_lease t p a s) !! k = partition_leases s !! k).
    { unfold delete_lease. repeat case_match; simpl; try done. by rewrite lookup_delete_ne. }
    unfold delete_lease in Hd. rewrite Hd. destruct (partition_leases s !! k); [|done].
    rewrite bool_decide_false by (intros [? _]; done). done.
Qed.

Lemma get_lease_Some t p now s l :
  get_partition_lease t p now s = Some l <->
  partition_leases s !! (t, p) = Some l /\ now < lease_expires_at l.
Proof.
  unfold get_partition_lease. destruct (partition_leases s !! (t, p)) as [l'|] eqn:He; simpl.
  - destruct (Z.ltb_spec now (lease_expires_at l')); split.
    + by intros [= <-].
    + by intros [[= <-] _].
    + done.
    + intros [[= <-] ?]. lia.
  - split; [done|by intros [? _]].
Qed.

Lemma verify_Ok t p a o l :
  verify_lease t p a o = Ok l <-> o = Some l /\ leader_agent_id l = a.
Proof.
  destruct o as [l'|]; simpl; [|split; [done|by intros [? _]]].
  case_bool_decide; (split; [intros [= ?]|intros [[= ?] ?]]); subst; done.
Qed.
End rows.
End StoreFacts.

(** ** Mutual exclusion *)

Module ClusterFacts.
Import Store Manager Cluster StoreFacts.

(** Agent [a] is the leader of the row of [k], until [e] at least. *)
Definition holds (s : store) (a : string) (k : pkey) (e : Z) : Prop :=
  exists l, partition_leases s !! k = Some l /\ leader_agent_id l = a /\ e <= lease_expires_at l.

Record lease_inv (s : cluster) : Prop := {
  inv_rows k l : partition_leases (db s) !! k = Some l ->
    lease_expires_at l <= clock s + DEFAULT_LEASE_DURATION_MS;
  inv_cached a k c : caches s a !! k = Some c -> clock s < Manager.expires_at c ->
    holds (db s) a k (Manager.expires_at c);
  inv_caching a k l : Caching k l ∈ tasks s a -> clock s < lease_expires_at l ->
    holds (db s) a k (lease_expires_at l);
  inv_deleting a k : Deleting k ∈ tasks s a ->
    caches s a !! k = None /\ forall t, t ∈ tasks s a -> task_key t = k -> t = Deleting k
}.

(** The clock leaves room for the expiry time of a lease. *)
Definition in_range (s : cluster) : Prop := 0 <= clock s /\ clock s + DEFAULT_LEASE_DURATION_MS < 2 ^ 63.

Lemma expiry_in_range now :
  0 <= now -> now + DEFAULT_LEASE_DURATION_MS < 2 ^ 63 ->
  swrap 64 (now + DEFAULT_LEASE_DURATION_MS) = now + DEFAULT_LEASE_DURATION_MS.
Proof.
  intros ??. apply swrap_small; [lia|]. unfold in_i, DEFAULT_LEASE_DURATION_MS in *.
  change (2 ^ (64 - 1)) with (2 ^ 63). lia.
Qed.

(** Whoever holds a lease that has not expired keeps it when someone acquires. *)
Lemma upsert_holds org k a now s b k' e :
  0 <= now -> now + DEFAULT_LEASE_DURATION_MS < 2 ^ 63 -> now < e ->
  (forall k l, partition_leases s !! k = Some l -> lease_expires_at l <= now + DEFAULT_LEASE_DURATION_MS) ->
  holds s b k' e ->
  holds (upsert_lease org (fst k) (snd k) a DEFAULT_LEASE_DURATION_MS now s) b k' e.
Proof.
  intros H0 Hr He Hrows (l & Hl & Hb & Hle). destruct k as [t p]. simpl.
  destruct (decide (k' = (t, p))) as [->|Hk]; [|exists l; by rewrite upsert_other].
  pose proof (Hrows _ _ Hl) as Hbound.
  pose proof (upsert_row org t p a DEFAULT_LEASE_DURATION_MS now s) as Hrow. rewrite Hl in Hrow.
  replace (lease_expires_at l <? now) with false in Hrow by lia.
  rewrite orb_false_r in Hrow. case_bool_decide as Ha; eexists; (split; [exact Hrow|]); simpl.
  - rewrite expiry_in_range by done. split; [congruence|lia].
  - done.
Qed.

Lemma upsert_bound org k a now s k' l :
  0 <= now -> now + DEFAULT_LEASE_DURATION_MS < 2 ^ 63 ->
  (forall k l, partition_leases s !! k = Some l -> lease_expires_at l <= now + DEFAULT_LEASE_DURATION_MS) ->
  partition_leases (upsert_lease org (fst k) (snd k) a DEFAULT_LEASE_DURATION_MS now s) !! k' = Some l ->
  lease_expires_at l <= now + DEFAULT_LEASE_DURATION_MS.
Proof.
  intros H0 Hr Hrows. destruct k as [t p]. simpl.
  destruct (decide (k' = (t, p))) as [->|Hk]; [|rewrite upsert_other by done; apply Hrows].
  rewrite upsert_row. intros [= <-].
  destruct (partition_leases s !! (t, p)) as [l'|] eqn:Hl'; [destruct (_ || _)|];
    simpl; rewrite ?expiry_in_range by done; try lia. by apply (Hrows (t, p)).
Qed.

Lemma delete_holds k a s b k' e :
  (b, k') <> (a, k) -> holds s b k' e -> holds (delete_lease (fst k) (snd k) a s) b k' e.
Proof.
  intros Hne (l & Hl & Hb & Hle). exists l. split; [|done].
  rewrite delete_lease_row, Hl. rewrite bool_decide_false; [done|].
  destruct k as [t p]. simpl. intros [-> Ha]. apply Hne. congruence.
Qed.

(** What an action of agent [a] leaves of the claims of the agents. *)
Lemma run_holds a now t s c s' c' rest b k e :
  0 <= now -> now + DEFAULT_LEASE_DURATION_MS < 2 ^ 63 -> now < e ->
  (forall k l, partition_leases s !! k = Some l -> lease_expires_at l <= now + DEFAULT_LEASE_DURATION_MS) ->
  run_task a now t s c = (s', c', rest) -> ~ (t = Deleting k /\ b = a) ->
  holds s b k e -> holds s' b k e.
Proof.
  intros H0 Hr He Hrows Hrun Hnd Hh. destruct t as [org k'|k'|k' l|k']; simpl in Hrun.
  - injection Hrun as <- <- <-. by apply upsert_holds.
  - by destruct (verify_lease _ _ _ _); injection Hrun as <- <- <-.
  - by injection Hrun as <- <- <-.
  - injection Hrun as <- <- <-. apply delete_holds; [|done]. intros [= -> ->]. by apply Hnd.
Qed.

Lemma run_rows a now t s c s' c' rest k l :
  0 <= now -> now + DEFAULT_LEASE_DURATION_MS < 2 ^ 63 ->
  (forall k l, partition_leases s !! k = Some l -> lease_expires_at l <= now + DEFAULT_LEASE_DURATION_MS) ->
  run_task a now t s c = (s', c', rest) -> partition_leases s' !! k = Some l ->
  lease_expires_at l <= now + DEFAULT_LEASE_DURATION_MS.
Proof.
  intros H0 Hr Hrows Hrun Hl. destruct t as [org k'|k'|k' l'|k']; simpl in Hrun.
  - injection Hrun as <- <- <-. by eapply upsert_bound.
  - destruct (verify_lease _ _ _ _); injection Hrun as <- <- <-; eauto.
  - injection Hrun as <- <- <-. eauto.
  - injection Hrun as <- <- <-. rewrite delete_lease_row in Hl.
    destruct (partition_leases s !! k) as [l'|] eqn:Hk; [|done].
    case_bool_decide; simplify_eq. eauto.
Qed.

(** The tasks an action leaves: at most one, for the same lease, and no release. *)
Lemma run_rest a now t s c s' c' rest t' :
  run_task a now t s c = (s', c', rest) -> t' ∈ rest ->
  task_key t' = task_key t /\ t <> Deleting (task_key t) /\
  match t' with
  | Caching k l => partition_leases s' !! k = Some l /\ leader_agent_id l = a
  | Deleting _ => False
  | _ => True
  end.
Proof.
  intros Hrun Hin. destruct t as [org k|k|k l|k]; simpl in Hrun.
  - injection Hrun as <- <- <-. by apply list_elem_of_singleton in Hin as ->.
  - destruct (verify_lease _ _ _ _) as [l|?|] eqn:Hv; injection Hrun as <- <- <-;
      try by apply not_elem_of_nil in Hin.
    apply list_elem_of_singleton in Hin as ->. simpl. split; [done|]. split; [done|].
    apply verify_Ok in Hv as [Hg Hl]. apply get_lease_Some in Hg as [Hg _]. by destruct k.
  - injection Hrun as <- <- <-. by apply not_elem_of_nil in Hin.
  - injection Hrun as <- <- <-. by apply not_elem_of_nil in Hin.
Qed.

(** A cache entry after an action is an old one or the lease just cached. *)
Lemma run_cache a now t s c s' c' rest k :
  run_task a now t s c = (s', c', rest) ->
  c' !! k = c !! k \/ exists l, t = Caching k l /\ c' !! k = Some (cached l k).
Proof.
  intros Hrun. destruct t as [org k'|k'|k' l|k']; simpl in Hrun.
  - injection Hrun as <- <- <-. by left.
  - left. by destruct (verify_lease _ _ _ _); injection Hrun as <- <- <-.
  - injection Hrun as <- <- <-. destruct (decide (k' = k)) as [->|Hk].
    + right. exists l. by rewrite lookup_insert_eq.
    + left. by rewrite lookup_insert_ne.
  - injection Hrun as <- <- <-. by left.
Qed.

Lemma elem_of_run (t : task) before rest after :
  t ∈ before ++ rest ++ after <-> t ∈ rest \/ t ∈ before ++ after.
Proof. rewrite !elem_of_app. tauto. Qed.

Lemma elem_of_middle (t t' : task) before after :
  t' ∈ before ++ after -> t' ∈ before ++ t :: after.
Proof. rewrite !elem_of_app, elem_of_cons. tauto. Qed.

Lemma inv_run a before t after now s c ts s' c' rest :
  in_range (mk_cluster now s c ts) -> lease_inv (mk_cluster now s c ts) ->
  ts a = before ++ t :: after -> run_task a now t s (c a) = (s', c', rest) ->
  lease_inv (mk_cluster now s' (<[a := c']> c) (<[a := before ++ rest ++ after]> ts)).
Proof.
  intros [H0 Hr] [Hrows Hcached Hcaching Hdel] Hts Hrun; simpl in *.
  assert (Ht : t ∈ ts a) by (rewrite Hts, elem_of_app, elem_of_cons; tauto).
  assert (Hold : forall t', t' ∈ before ++ after -> t' ∈ ts a)
    by (intros t' Ht'; rewrite Hts; by apply elem_of_middle).
  assert (Hkeep : forall b k e, now < e -> ~ (t = Deleting k /\ b = a) -> holds s b k e -> holds s' b k e)
    by (intros b k e He; eapply run_holds; eauto).
  split; simpl.
  - intros k l Hl. by eapply run_rows.
  - intros b k x Hx Hlt. destruct (decide (b = a)) as [->|Hb].
    + rewrite fn_lookup_insert in Hx. destruct (run_cache _ _ _ _ _ _ _ _ k Hrun) as [Hk|(l & -> & Hk)].
      * apply Hkeep; [done| |apply Hcached; congruence].
        intros [-> _]. apply Hdel in Ht as [Hn _]. congruence.
      * rewrite Hk in Hx. injection Hx as <-. simpl in *.
        apply Hkeep; [done| |by apply Hcaching]. by intros [? _].
    + rewrite fn_lookup_insert_ne in Hx by done.
      apply Hkeep; [done| |by apply Hcached]. by intros [_ ?].
  - intros b k l Hin Hlt. destruct (decide (b = a)) as [->|Hb].
    + rewrite fn_lookup_insert in Hin. apply elem_of_run in Hin as [Hin|Hin].
      * destruct (run_rest _ _ _ _ _ _ _ _ _ Hrun Hin) as (_ & _ & Hl & Ha). by exists l.
      * apply Hkeep; [done| |apply Hcaching; auto].
        intros [-> _]. apply Hdel in Ht as [_ Hall]. by specialize (Hall _ (Hold _ Hin) eq_refl).
    + rewrite fn_lookup_insert_ne in Hin by done.
      apply Hkeep; [done| |by apply Hcaching]. by intros [_ ?].
  - intros b k Hin. destruct (decide (b = a)) as [->|Hb]; [|rewrite !fn_lookup_insert_ne in * by done; auto].
    rewrite !fn_lookup_insert in *. apply elem_of_run in Hin as [Hin|Hin];
      [by destruct (run_rest _ _ _ _ _ _ _ _ _ Hrun Hin) as (_ & _ & [])|].
    destruct (Hdel a k (Hold _ Hin)) as [Hn Hall]. split.
    + destruct (run_cache _ _ _ _ _ _ _ _ k Hrun) as [->|(l & -> & _)]; [done|].
      by specialize (Hall _ Ht eq_refl).
    + intros t' Ht' Hk. apply elem_of_run in Ht' as [Ht'|Ht']; [|by apply Hall; [apply Hold|]].
      destruct (run_rest _ _ _ _ _ _ _ _ _ Hrun Ht') as (Hkey & Hne & _).
      rewrite Hkey in Hk. subst k. exfalso. apply Hne. by apply Hall.
Qed.

Lemma inv_tick now now' s c ts :
  now <= now' -> lease_inv (mk_cluster now s c ts) -> lease_inv (mk_cluster now' s c ts).
Proof.
  intros Hle [Hrows Hcached Hcaching Hdel]. split; simpl in *; [| | |done].
  - intros k l Hl. specialize (Hrows k l Hl). lia.
  - intros a k x Hx Hlt. apply Hcached; [done|lia].
  - intros a k l Hl Hlt. apply Hcaching; [done|lia].
Qed.

(** Starting a call, giving one up, forgetting a lease: the rows stay, the tasks are old ones
    or a fresh one, and a cache only loses entries. *)
Lemma inv_shrink a c' ts' now s c ts :
  (forall k x, c' !! k = Some x -> c a !! k = Some x) ->
  (forall t, t ∈ ts' -> t ∈ ts a \/ match t with Caching _ _ => False | _ => True end) ->
  (forall k, Deleting k ∈ ts' -> c' !! k = None /\ forall t, t ∈ ts' -> task_key t = k -> t = Deleting k) ->
  lease_inv (mk_cluster now s c ts) ->
  lease_inv (mk_cluster now s (<[a := c']> c) (<[a := ts']> ts)).
Proof.
  intros Hc Hts Hnew [Hrows Hcached Hcaching Hdel]. split; simpl in *; [done| | |];
    intros b k; (destruct (decide (b = a)) as [->|Hb];
                 [rewrite ?fn_lookup_insert|rewrite ?fn_lookup_insert_ne by done; auto]).
  - intros x Hx. apply Hcached. auto.
  - intros l Hl. destruct (Hts _ Hl) as [?|[]]. by apply Hcaching.
  - apply Hnew.
Qed.

Lemma inv_start a t c' now s c ts :
  exclusive (ts a) t -> match t with Caching _ _ => False | _ => True end ->
  (forall k x, c' !! k = Some x -> c a !! k = Some x) ->
  (forall k, t = Deleting k -> c' !! k = None) ->
  lease_inv (mk_cluster now s c ts) ->
  lease_inv (mk_cluster now s (<[a := c']> c) (<[a := ts a ++ [t]]> ts)).
Proof.
  intros Hex Ht Hc Hn Hinv. apply inv_shrink; [done| | |done].
  - intros t' [Ht'|Ht']%elem_of_app; [by left|]. apply list_elem_of_singleton in Ht' as ->. by right.
  - pose proof (inv_deleting _ Hinv a) as Hdel. simpl in Hdel.
    intros k [Hk|Hk]%elem_of_app.
    + destruct (Hdel k Hk) as [Hnone Hall]. split.
      * destruct (c' !! k) as [x|] eqn:Hx; [|done]. apply Hc in Hx. congruence.
      * intros t' [Ht'|Ht']%elem_of_app Hkey; [by apply Hall|].
        apply list_elem_of_singleton in Ht' as ->. exfalso. specialize (Hex _ Hk (eq_sym Hkey)).
        by destruct t.
    + apply list_elem_of_singleton in Hk as <-. split; [by apply Hn|].
      intros t' [Ht'|Ht']%elem_of_app Hkey; [|by apply list_elem_of_singleton in Ht' as ->].
      by destruct (Hex _ Ht' Hkey).
Qed.

Lemma lookup_delete_sub (c : Manager.cache) k k' x : delete k c !! k' = Some x -> c !! k' = Some x.
Proof. by intros [_ ?]%lookup_delete_Some. Qed.

Lemma insert_same {A} (f : string -> A) a b : <[a := f a]> f b = f b.
Proof. destruct (decide (b = a)) as [->|?]; [apply fn_lookup_insert|by apply fn_lookup_insert_ne]. Qed.

(** The invariant reads the tables of an agent pointwise. *)
Lemma inv_ext now s c c' ts ts' :
  (forall a, c a = c' a) -> (forall a, ts a = ts' a) ->
  lease_inv (mk_cluster now s c ts) -> lease_inv (mk_cluster now s c' ts').
Proof.
  intros Hc Hts [Hrows Hcached Hcaching Hdel]. split; simpl in *; [done| | |]; intros a k;
    rewrite <- ?Hc, <- ?Hts; auto.
Qed.

(** Of the store the invariant reads the leases only. *)
Lemma inv_leases now s s' c ts :
  partition_leases s' = partition_leases s -> lease_inv (mk_cluster now s c ts) -> lease_inv (mk_cluster now s' c ts).
Proof.
  intros Hs [Hrows Hcached Hcaching Hdel]. unfold holds in *. split; simpl in *; rewrite ?Hs; [done| | |done]; intros a k x Hx Ht; unfold holds; rewrite Hs; eauto.
Qed.

Lemma inv_step s s' :
  in_range s -> lease_inv s -> step exclusive s s' -> lease_inv s'.
Proof.
  intros Hr Hinv Hstep. destruct Hstep.
  - by eapply inv_tick.
  - eapply inv_ext; [apply (insert_same c a)|done|]. by apply inv_start.
  - apply inv_start; [done..| | |done].
    + intros k' x. apply lookup_delete_sub.
    + intros k' [= <-]. apply lookup_delete_eq.
  - by eapply inv_run.
  - eapply inv_ext; [apply (insert_same c a)|done|].
    assert (Hold : forall t', t' ∈ before ++ after -> t' ∈ ts a).
    { intros t' Ht'. rewrite H. by apply elem_of_middle. }
    apply inv_shrink; [done|auto| |done].
    intros k Hk. destruct (inv_deleting _ Hinv a k (Hold _ Hk)) as [Hn Hall].
    split; [done|]. intros t' Ht' ?. apply Hall; auto.
  - eapply inv_ext; [done|apply (insert_same ts a)|].
    apply inv_shrink; [intros k' x; apply lookup_delete_sub|by left| |done].
    intros k' Hk'. destruct (inv_deleting _ Hinv a k' Hk') as [Hn Hall]. simpl in *.
    split; [|done]. rewrite lookup_delete_None. by right.
  - by eapply inv_leases.
  - apply inv_shrink; [done|by intros ? ?%not_elem_of_nil|by intros ? ?%not_elem_of_nil|done].
Qed.

Lemma step_clock allow s s' : step allow s s' -> clock s <= clock s'.
Proof. destruct 1; simpl; lia. Qed.

Lemma inv_reachable now s :
  0 <= now -> steps (step exclusive) (start now) s -> in_range s -> lease_inv s.
Proof.
  intros Hnow Hsteps [_ Hr].
  assert (Hi : 0 <= clock s /\ (clock s + DEFAULT_LEASE_DURATION_MS < 2 ^ 63 -> lease_inv s)).
  { revert Hsteps. apply (steps_invariant _
      (fun s => 0 <= clock s /\ (clock s + DEFAULT_LEASE_DURATION_MS < 2 ^ 63 -> lease_inv s))).
    - intros a b [H0 Ha] Hab. pose proof (step_clock _ _ _ Hab). split; [lia|]. intros Hb.
      eapply inv_step; [|apply Ha|exact Hab]; unfold in_range; lia.
    - split; [done|]. intros _. split; simpl; [by intros|by intros| |].
      + by intros ??? ?%not_elem_of_nil.
      + by intros ?? ?%not_elem_of_nil. }
  by apply Hi.
Qed.

Lemma leads_row s a k :
  lease_inv s -> leads s a k -> exists l, partition_leases (db s) !! k = Some l /\ leader_agent_id l = a.
Proof.
  intros Hinv [e He]. unfold get_epoch in He.
  destruct (caches s a !! k) as [c|] eqn:Hc; [|done]. simpl in He. unfold is_expired in He.
  destruct (Z.leb_spec (Manager.expires_at c) (clock s)); [done|].
  destruct (inv_cached _ Hinv a k c Hc) as (l & Hl & Ha & _); [lia|]. by exists l.
Qed.

End ClusterFacts.

(** ** Schedules, and what goes wrong without exclusion *)

Module ScheduleFacts.
Import Store Manager Cluster StoreFacts.

Inductive action : Type :=
| ATick (now : Z)
| AAcquire (a org : string) (k : pkey)
| ARelease (a : string) (k : pkey)
| ARun (a : string) (i : nat).

Definition exclusiveb (ts : list task) (t : task) : bool :=
  forallb (fun t' => bool_decide (task_key t' <> task_key t)
                     || match t, t' with Deleting _, _ | _, Deleting _ => false | _, _ => true end) ts.

Lemma exclusiveb_ok ts t : exclusiveb ts t = true -> exclusive ts t.
Proof.
  unfold exclusiveb. rewrite forallb_forall. intros Hall t' Hin Hk.
  apply list_elem_of_In in Hin. specialize (Hall _ Hin). rewrite bool_decide_false in Hall by auto.
  by destruct t, t'.
Qed.

Definition act (check : list task -> task -> bool) (x : action) (s : cluster) : option cluster :=
  let '(mk_cluster now st c ts) := s in
  match x with
  | ATick now' => if now <=? now' then Some (mk_cluster now' st c ts) else None
  | AAcquire a org k =>
      if check (ts a) (Acquiring org k)
      then Some (mk_cluster now st c (<[a := ts a ++ [Acquiring org k]]> ts)) else None
  | ARelease a k =>
      if check (ts a) (Deleting k)
      then Some (mk_cluster now st (<[a := delete k (c a)]> c) (<[a := ts a ++ [Deleting k]]> ts))
      else None
  | ARun a i =>
      match ts a !! i with
      | Some t =>
          let '(st', c', rest) := run_task a now t st (c a) in
          Some (mk_cluster now st' (<[a := c']> c)
                  (<[a := take i (ts a) ++ rest ++ drop (S i) (ts a)]> ts))
      | None => None
      end
  end.

Fixpoint acts (check : list task -> task -> bool) (xs : list action) (s : cluster) : option cluster :=
  match xs with
  | [] => Some s
  | x :: xs => s ← act check x s; acts check xs s
  end.

Lemma act_step check allow x s s' :
  (forall ts t, check ts t = true -> allow ts t) -> act check x s = Some s' -> step allow s s'.
Proof.
  intros Hc Hx. destruct s as [now st c ts], x as [now'|a org k|a k|a i]; simpl in Hx.
  - destruct (Z.leb_spec now now'); simplify_eq. by constructor.
  - destruct (check _ _) eqn:He; simplify_eq. constructor. auto.
  - destruct (check _ _) eqn:He; simplify_eq. constructor. auto.
  - destruct (ts a !! i) as [t|] eqn:Ht; [|done].
    destruct (run_task a now t st (c a)) as [[st' c'] rest] eqn:Hrun. simplify_eq.
    eapply step_run; [|done]. symmetry. by apply take_drop_middle.
Qed.

Lemma acts_steps check allow xs s s' :
  (forall ts t, check ts t = true -> allow ts t) -> acts check xs s = Some s' -> steps (step allow) s s'.
Proof.
  intros Hc. revert s. induction xs as [|x xs IH]; intros s Hx; simpl in Hx.
  - simplify_eq. constructor.
  - destruct (act check x s) as [s1|] eqn:H1; [|done].
    eapply steps_trans; [|by apply IH]. eapply steps_step; [constructor|]. by eapply act_step.
Qed.

(** One call of [acquire_lease], alone. *)
Definition acquire_now (a : string) (k : pkey) : list action :=
  [AAcquire a "org" k; ARun a 0; ARun a 0; ARun a 0].

(** What a concrete schedule reaches. *)
Lemma reached check allow xs s0 (P : cluster -> bool) :
  (forall ts t, check ts t = true -> allow ts t) ->
  match acts check xs s0 with Some s => P s | None => false end = true ->
  exists s, steps (step allow) s0 s /\ P s = true.
Proof.
  intros Hc HP. destruct (acts check xs s0) as [s|] eqn:Hs; [|done].
  exists s. split; [by eapply acts_steps|done].
Qed.

Definition leadsb (s : cluster) (a : string) (k : pkey) : bool :=
  match get_epoch k (clock s) (caches s a) with Some _ => true | None => false end.

Lemma leadsb_leads s a k : leadsb s a k = true -> leads s a k.
Proof. unfold leadsb, leads. destruct (get_epoch _ _ _) as [e|]; [by exists e|done]. Qed.


(** Without that proviso, which the code does not enforce, mutual exclusion fails: the
    renewal task reads its lease back, the same agent releases the lease, another agent
    acquires it, and the renewal caches the lease it read.  Both agents then believe that
    they lead the partition, 1 ms after the start.  The same happens to an acquisition that
    starts before the statement of a release has run. *)
Theorem lease_release_race :
  let k := ("orders"%string, 0) in
  (exists s, steps (step unrestricted) (start 0) s
             /\ clock s <= 1 /\ leads s "agent-1" k /\ leads s "agent-2" k) /\
  (exists s, steps (step unrestricted) (start 0) s
             /\ clock s <= 1 /\ leads s "agent-1" k /\ leads s "agent-2" k
             /\ tasks s "agent-1" = [] /\ tasks s "agent-2" = []).
Proof.
  intros k. split.
  - edestruct (reached (fun _ _ => true) unrestricted
      (acquire_now "agent-1" k ++
       [ATick 1; AAcquire "agent-1" "org" k; ARun "agent-1" 0; ARun "agent-1" 0;
        ARelease "agent-1" k; ARun "agent-1" 1] ++ acquire_now "agent-2" k ++ [ARun "agent-1" 0]) (start 0)
      (fun s => (clock s <=? 1) && leadsb s "agent-1" k && leadsb s "agent-2" k))
      as (s & Hs & HP); [done|by vm_compute|].
    exists s. apply andb_true_iff in HP as [[Hc H1]%andb_true_iff H2].
    split; [done|]. split; [lia|]. split; by apply leadsb_leads.
  - edestruct (reached (fun _ _ => true) unrestricted
      (acquire_now "agent-1" k ++
       [ATick 1; ARelease "agent-1" k; AAcquire "agent-1" "org" k; ARun "agent-1" 1; ARun "agent-1" 1;
        ARun "agent-1" 1; ARun "agent-1" 0] ++ acquire_now "agent-2" k) (start 0)
      (fun s => (clock s <=? 1) && leadsb s "agent-1" k && leadsb s "agent-2" k
                && (length (tasks s "agent-1") =? 0)%nat && (length (tasks s "agent-2") =? 0)%nat))
      as (s & Hs & HP); [done|by vm_compute|].
    exists s. apply andb_true_iff in HP as [[[[Hc H1]%andb_true_iff H2]%andb_true_iff H3]%andb_true_iff H4].
    split; [done|]. split; [lia|]. split; [by apply leadsb_leads|]. split; [by apply leadsb_leads|].
    split; apply length_zero_iff_nil; by apply Nat.eqb_eq.
Qed.

(** A lease that is released and acquired again starts over with epoch 1: the epoch of a
    new leader equals the one an older leader was given, so a write stamped with the older
    epoch is not told apart. *)
Theorem release_restarts_epochs :
  let k := ("orders"%string, 0) in
  exists s1 s2, steps (step exclusive) (start 0) s1 /\ steps (step exclusive) s1 s2
    /\ get_epoch k (clock s1) (caches s1 "agent-1") = Some 1
    /\ get_epoch k (clock s2) (caches s2 "agent-2") = Some 1
    /\ validate_epoch k 1 (clock s2) (caches s2 "agent-2") = Ok tt.
Proof.
  intros k.
  edestruct (reached exclusiveb exclusive (acquire_now "agent-1" k) (start 0)
    (fun s1 => bool_decide (get_epoch k (clock s1) (caches s1 "agent-1") = Some 1)
      && match acts exclusiveb ([ATick 1; ARelease "agent-1" k; ARun "agent-1" 0] ++ acquire_now "agent-2" k) s1 with
         | Some s2 => bool_decide (get_epoch k (clock s2) (caches s2 "agent-2") = Some 1)
         | None => false
         end)) as (s1 & Hs1 & HP); [apply exclusiveb_ok|by vm_compute|].
  apply andb_true_iff in HP as [H1%bool_decide_eq_true HP].
  apply (reached _ exclusive _ _ (fun s2 => bool_decide (get_epoch k (clock s2) (caches s2 "agent-2") = Some 1)))
    in HP as (s2 & Hs2 & H2%bool_decide_eq_true); [|apply exclusiveb_ok].
  exists s1, s2. unfold validate_epoch. by rewrite H1, H2.
Qed.
End ScheduleFacts.

(** ** Acquisition and epochs *)

Module EpochFacts.
Import Store Manager Cluster StoreFacts ScheduleFacts.

(** Acquiring a lease, on every branch.  A free partition is leased with epoch 1; the
    leader, and anybody once the lease has expired, gets it with the next epoch; otherwise
    the table is as it was and the call fails: with a conflict, or as not found when the
    lease runs out just now or while the call is reading it back. *)
Theorem acquire_partition_lease_spec org topic partition agent duration now1 now2 s :
  now2 < now1 + duration < 2 ^ 63 -> 0 <= now1 <= now2 ->
  let key := (topic, partition) in
  let fresh org t p e := mk_lease org t p agent (now1 + duration) now1 e in
  acquire_partition_lease org topic partition agent duration now1 now2 s =
  match partition_leases s !! key with
  | None => let l := fresh org topic partition 1 in (set_lease key l s, Ok l)
  | Some old =>
      if decide (leader_agent_id old = agent \/ lease_expires_at old < now1)
      then let l := fresh (organization_id old) (l_topic old) (l_partition_id old) (l_epoch old + 1) in
           (set_lease key l s, Ok l)
      else (s, if now2 <? lease_expires_at old
               then Err (ConflictError ("Partition " +:+ part_name topic partition
                                        +:+ " is already leased to another agent"))
               else Err (NotFoundError ("Lease for partition " +:+ part_name topic partition
                                        +:+ " not found after acquisition")))
  end.
Proof.
  intros Hd Hn. cbv zeta. set (key := (topic, partition)).
  unfold acquire_partition_lease, upsert_lease. fold key. cbv zeta.
  rewrite (swrap_small 64 (now1 + duration)) by (unfold in_i; lia).
  assert (Hget : forall l, lease_expires_at l = now1 + duration -> leader_agent_id l = agent ->
    verify_lease topic partition agent (get_partition_lease topic partition now2 (set_lease key l s)) = Ok l).
  { intros l Hl Ha. apply verify_Ok. split; [|done]. apply get_lease_Some. simpl.
    rewrite lookup_insert_eq. split; [done|lia]. }
  destruct (partition_leases s !! key) as [old|] eqn:Hold; [|by rewrite Hget].
  assert (Hb : bool_decide (leader_agent_id old = agent) || (lease_expires_at old <? now1)
               = bool_decide (leader_agent_id old = agent \/ lease_expires_at old < now1)).
  { rewrite bool_decide_or. f_equal. apply eq_true_iff_eq. rewrite bool_decide_eq_true. lia. }
  rewrite Hb. destruct (decide _) as [Hyes|Hno].
  - rewrite bool_decide_true by done. by rewrite Hget.
  - rewrite bool_decide_false by done. f_equal. unfold get_partition_lease. fold key. rewrite Hold. simpl.
    destruct (now2 <? lease_expires_at old); simpl; [|done]. by rewrite bool_decide_false by tauto.
Qed.

Lemma acquire_partition_lease_spec_witness :
  snd (acquire_partition_lease "org" "orders" 0 "agent-1" 300000 1000 1001 empty_store)
  = Ok (mk_lease "org" "orders" 0 "agent-1" 301000 1000 1).
Proof.
  rewrite (acquire_partition_lease_spec "org" "orders" 0 "agent-1" 300000 1000 1001 empty_store);
    [vm_compute; reflexivity|lia|lia].
Defined.

(** ** Epochs tell leaders apart as long as nothing is released *)

Definition no_release (ts : list task) (t : task) : Prop :=
  match t with Deleting _ => False | _ => True end.

(** Agent [a] was given epoch [e]: the row has moved on since, or [a] is the leader. *)
Definition given (s : store) (a : string) (k : pkey) (e : Z) : Prop :=
  exists l, partition_leases s !! k = Some l /\ (e < l_epoch l \/ e = l_epoch l /\ leader_agent_id l = a).

(** Agent [a] has epoch [e] in its cache or on its way there. *)
Definition token (s : cluster) (a : string) (k : pkey) (e : Z) : Prop :=
  (exists c, caches s a !! k = Some c /\ epoch c = e) \/
  (exists l, Caching k l ∈ tasks s a /\ l_epoch l = e).

Record epoch_inv (s : cluster) : Prop := {
  inv_given a k e : token s a k e -> given (db s) a k e;
  inv_unique a b k e : token s a k e -> token s b k e -> a = b;
  inv_no_release a k : Deleting k ∉ tasks s a
}.

Lemma upsert_given org k a d now s b k' e :
  given s b k' e -> given (upsert_lease org (fst k) (snd k) a d now s) b k' e.
Proof.
  intros (l & Hl & He). destruct k as [t p]. simpl. unfold given.
  destruct (decide (k' = (t, p))) as [->|Hk]; [|rewrite upsert_other by done; by exists l].
  rewrite upsert_row, Hl. destruct (_ || _); eexists; (split; [done|]); simpl; [lia|done].
Qed.

Lemma run_given a now t s c s' c' rest b k e :
  run_task a now t s c = (s', c', rest) -> t <> Deleting (task_key t) ->
  given s b k e -> given s' b k e.
Proof.
  intros Hrun Ht Hg. destruct t as [org k'|k'|k' l|k']; simpl in Hrun.
  - injection Hrun as <- <- <-. by apply upsert_given.
  - by destruct (verify_lease _ _ _ _); injection Hrun as <- <- <-.
  - by injection Hrun as <- <- <-.
  - done.
Qed.

(** An action makes no epoch known but the one of the row it reads back. *)
Lemma run_token a before t after now s c ts s' c' rest b k e :
  ts a = before ++ t :: after -> run_task a now t s (c a) = (s', c', rest) ->
  token (mk_cluster now s' (<[a := c']> c) (<[a := before ++ rest ++ after]> ts)) b k e ->
  token (mk_cluster now s c ts) b k e \/
  (b = a /\ exists l, partition_leases s' !! k = Some l /\ l_epoch l = e /\ leader_agent_id l = a).
Proof.
  intros Hts Hrun Htok. unfold token in *. simpl in *.
  destruct (decide (b = a)) as [->|Hb]; [|rewrite !fn_lookup_insert_ne in Htok by done; by left].
  rewrite !fn_lookup_insert in Htok. destruct Htok as [(x & Hx & He)|(l & Hl & He)].
  - left. destruct (ClusterFacts.run_cache _ _ _ _ _ _ _ _ k Hrun) as [Hk|(l & -> & Hk)].
    + left. exists x. by rewrite <- Hk.
    + right. exists l. rewrite Hts, elem_of_app, elem_of_cons. split; [tauto|].
      rewrite Hk in Hx. by injection Hx as <-.
  - apply ClusterFacts.elem_of_run in Hl as [Hl|Hl].
    + right. split; [done|]. destruct (ClusterFacts.run_rest _ _ _ _ _ _ _ _ _ Hrun Hl) as (_ & _ & Hr & Ha).
      by exists l.
    + left. right. exists l. split; [|done]. rewrite Hts. by apply ClusterFacts.elem_of_middle.
Qed.

Lemma epoch_inv_run a before t after now s c ts s' c' rest :
  epoch_inv (mk_cluster now s c ts) ->
  ts a = before ++ t :: after -> run_task a now t s (c a) = (s', c', rest) ->
  epoch_inv (mk_cluster now s' (<[a := c']> c) (<[a := before ++ rest ++ after]> ts)).
Proof.
  intros [Hg Hu Hn] Hts Hrun; simpl in *.
  assert (Hin : t ∈ ts a) by (rewrite Hts, elem_of_app, elem_of_cons; tauto).
  assert (Hnd : t <> Deleting (task_key t)) by (intros E; rewrite E in Hin; by apply Hn in Hin).
  assert (Hnew : forall b k l, token (mk_cluster now s c ts) b k (l_epoch l) ->
    partition_leases s' !! k = Some l -> leader_agent_id l = b).
  { intros b k l Htok Hl. apply Hg in Htok. eapply run_given in Htok as (l' & Hl' & He); [|done..].
    assert (l' = l) as -> by congruence. destruct He as [He|[_ He]]; [lia|done]. }
  split; simpl.
  - intros b k e Htok. destruct (run_token _ _ _ _ _ _ _ _ _ _ _ _ _ _ Hts Hrun Htok)
      as [Ht|(-> & l & Hl & He & Ha)]; [by eapply run_given; eauto|]. exists l. auto.
  - intros b b' k e Hb Hb'.
    destruct (run_token _ _ _ _ _ _ _ _ _ _ _ _ _ _ Hts Hrun Hb) as [Ht|(-> & l & Hl & He & Ha)],
      (run_token _ _ _ _ _ _ _ _ _ _ _ _ _ _ Hts Hrun Hb') as [Ht'|(-> & l' & Hl' & He' & Ha')];
      [by eapply Hu; eauto| | |done]; subst e; [rewrite <- Ha'; symmetry|rewrite <- Ha]; eauto.
  - intros b k Hd. destruct (decide (b = a)) as [->|Hb].
    + rewrite fn_lookup_insert in Hd. apply ClusterFacts.elem_of_run in Hd as [Hd|Hd].
      * by destruct (ClusterFacts.run_rest _ _ _ _ _ _ _ _ _ Hrun Hd) as (_ & _ & []).
      * apply (Hn a k). rewrite Hts. by apply ClusterFacts.elem_of_middle.
    + rewrite fn_lookup_insert_ne in Hd by done. by apply (Hn b k).
Qed.

(** A state with the same rows that knows fewer epochs and has no release in flight. *)
Lemma epoch_inv_fewer s s' :
  db s' = db s -> (forall a k e, token s' a k e -> token s a k e) ->
  (forall a k, Deleting k ∈ tasks s' a -> Deleting k ∈ tasks s a) -> epoch_inv s -> epoch_inv s'.
Proof.
  intros Hdb Htok Hdel [Hg Hu Hn]. split.
  - rewrite Hdb. auto.
  - eauto.
  - intros a k Hd. apply (Hn a k), Hdel, Hd.
Qed.

Lemma epoch_inv_tables a c' ts' now s c ts :
  (forall k x, c' !! k = Some x -> c a !! k = Some x) ->
  (forall t, t ∈ ts' -> t ∈ ts a \/ match t with Caching _ _ | Deleting _ => False | _ => True end) ->
  epoch_inv (mk_cluster now s c ts) ->
  epoch_inv (mk_cluster now s (<[a := c']> c) (<[a := ts']> ts)).
Proof.
  intros Hc Hts. apply epoch_inv_fewer; [done| |].
  - intros b k e. unfold token. simpl.
    destruct (decide (b = a)) as [->|Hb]; [|by rewrite !fn_lookup_insert_ne by done].
    rewrite !fn_lookup_insert. intros [(x & Hx & He)|(l & Hl & He)].
    + left. exists x. auto.
    + right. exists l. destruct (Hts _ Hl) as [?|[]]. done.
  - intros b k. simpl. destruct (decide (b = a)) as [->|Hb]; [|by rewrite fn_lookup_insert_ne by done].
    rewrite fn_lookup_insert. intros Hd. by destruct (Hts _ Hd).
Qed.

Lemma epoch_inv_ext now s c c' ts ts' :
  (forall a, c a = c' a) -> (forall a, ts a = ts' a) ->
  epoch_inv (mk_cluster now s c ts) -> epoch_inv (mk_cluster now s c' ts').
Proof.
  intros Hc Hts. apply epoch_inv_fewer; [done| |]; intros a k; unfold token; simpl; by rewrite <- Hts, <- ?Hc.
Qed.

Lemma epoch_inv_leases now s s' c ts :
  partition_leases s' = partition_leases s -> epoch_inv (mk_cluster now s c ts) -> epoch_inv (mk_cluster now s' c ts).
Proof.
  intros Hs [Hg Hu Hn]. split; [|exact Hu|exact Hn].
  intros a k e Ht. destruct (Hg a k e Ht) as (l & Hl & He). exists l. cbn [db] in *. by rewrite Hs.
Qed.

Lemma epoch_inv_step s s' : epoch_inv s -> step no_release s s' -> epoch_inv s'.
Proof.
  intros Hinv Hstep. destruct Hstep.
  - by destruct Hinv.
  - eapply epoch_inv_ext; [apply (ClusterFacts.insert_same c a)|done|].
    apply epoch_inv_tables; [done| |done].
    intros t [Ht|Ht]%elem_of_app; [by left|]. apply list_elem_of_singleton in Ht as ->. by right.
  - done.
  - by eapply epoch_inv_run.
  - eapply epoch_inv_ext; [apply (ClusterFacts.insert_same c a)|done|].
    apply epoch_inv_tables; [done| |done].
    intros t' Ht'. left. rewrite H. by apply ClusterFacts.elem_of_middle.
  - eapply epoch_inv_ext; [done|apply (ClusterFacts.insert_same ts a)|].
    apply epoch_inv_tables; [|by left|done]. intros k' x. apply ClusterFacts.lookup_delete_sub.
  - by eapply epoch_inv_leases.
  - apply epoch_inv_tables; [done|by intros ? ?%not_elem_of_nil|done].
Qed.

Lemma epoch_inv_reachable now s : steps (step no_release) (start now) s -> epoch_inv s.
Proof.
  apply (steps_invariant _ epoch_inv); [intros x y; apply epoch_inv_step|].
  split; simpl; [| |by intros ?? ?%not_elem_of_nil];
    intros ?; [|intros ?]; intros ?? [(? & ? & ?)|(? & ?%not_elem_of_nil & ?)]; done.
Qed.

(** C20: fencing.  As long as no lease is released and no transfer of a lease is completed (both can give out an epoch twice),
    an epoch belongs to one agent for good: whatever the interleaving of acquisitions, renewals, failures, crashes and expiries, with one clock that
    does not step back, two agents that have
    a lease of a partition in their caches, expired or not, with the same epoch are the
    same agent, and no cached epoch is above the one in the store. *)
Theorem epochs_fence now s a b k c c' :
  steps (step no_release) (start now) s ->
  caches s a !! k = Some c -> caches s b !! k = Some c' ->
  (epoch c = epoch c' -> a = b) /\
  exists l, partition_leases (db s) !! k = Some l /\ epoch c <= l_epoch l /\ epoch c' <= l_epoch l.
Proof.
  intros Hsteps%epoch_inv_reachable Ha Hb.
  assert (Hta : token s a k (epoch c)) by (left; by exists c).
  assert (Htb : token s b k (epoch c')) by (left; by exists c').
  split; [intros Heq; rewrite Heq in Hta; by eapply inv_unique|].
  destruct (inv_given _ Hsteps _ _ _ Hta) as (l & Hl & He), (inv_given _ Hsteps _ _ _ Htb) as (l' & Hl' & He').
  assert (l' = l) as -> by congruence. exists l. split; [done|lia].
Qed.

Lemma epochs_fence_witness :
  let k := ("orders"%string, 0) in
  exists s c c', caches s "agent-1" !! k = Some c /\ caches s "agent-2" !! k = Some c'
                 /\ epoch c <> epoch c'.
Proof.
  intros k.
  destruct (reached (fun _ t => match t with Deleting _ => false | _ => true end) no_release
    (acquire_now "agent-1" k ++ [ATick 400000] ++ acquire_now "agent-2" k) (start 0)
    (fun s => bool_decide (is_Some (caches s "agent-1" !! k) /\ is_Some (caches s "agent-2" !! k))))
    as (s & Hs & HP); [by intros ? []|vm_compute; reflexivity|].
  apply bool_decide_eq_true in HP as [[c Hc] [c' Hc']].
  exists s, c, c'. split; [exact Hc|]. split; [exact Hc'|]. intros He.
  assert (Hab := proj1 (epochs_fence 0 s "agent-1" "agent-2" k c c' Hs Hc Hc') He). discriminate Hab.
Defined.

(** A renewal, which leaves the leader where it is, takes the next epoch, so the epoch
    the leader was writing with is refused as stale right after. *)
Theorem renewal_stales_epoch agent k org now1 now2 s c l :
  partition_leases s !! k = Some l -> leader_agent_id l = agent ->
  0 <= now1 <= now2 -> now2 < now1 + DEFAULT_LEASE_DURATION_MS < 2 ^ 63 ->
  let '((s', c'), r) := renew_lease agent k (mk_env (Ok (Some org)) None now1 now1 now2) (s, c) in
  r = Ok tt
  /\ (leader_agent_id <$> partition_leases s' !! k) = Some agent
  /\ get_epoch k now2 c' = Some (l_epoch l + 1)
  /\ validate_epoch k (l_epoch l) now2 c' = Err (StaleEpoch (l_epoch l) (l_epoch l + 1)).
Proof.
  intros Hl Ha Hn Hd. destruct k as [t p]. unfold renew_lease, obtain.
  cbn [e_org e_db e_now1 e_now2 fst snd]. rewrite acquire_partition_lease_spec by done. rewrite Hl. rewrite decide_True by auto. simpl.
  unfold validate_epoch, get_epoch. rewrite !lookup_insert_eq. simpl. unfold is_expired. simpl.
  replace (_ <=? now2) with false by lia. replace (l_epoch l + 1 =? l_epoch l) with false by lia. done.
Qed.

Lemma renewal_stales_epoch_witness :
  let l := mk_lease "org" "orders" 0 "agent-1" 301000 1000 7 in
  let s := set_lease ("orders"%string, 0) l empty_store in
  snd (renew_lease "agent-1" ("orders"%string, 0) (mk_env (Ok (Some "org"%string)) None 11000 11000 11001) (s, ∅))
  = Ok tt.
Proof.
  intros l s.
  pose proof (renewal_stales_epoch "agent-1" ("orders"%string, 0) "org" 11000 11001 s ∅ l) as H.
  destruct (renew_lease _ _ _ _) as [[s' c'] r].
  destruct H as [Hr _]; [reflexivity|reflexivity|lia|unfold DEFAULT_LEASE_DURATION_MS; lia|exact Hr].
Defined.
End EpochFacts.

(** ** The calls of a lease manager are runs of the cluster *)

Module CallFacts.
Import Store Manager Cluster StoreFacts EpochFacts.

(** From [s], agent [a] alone gets to [w] by time [now]. *)
Definition performs (a : string) (s : cluster) (w : world) (now : Z) : Prop :=
  exists s', steps (step exclusive) s s' /\ (db s', caches s' a) = w /\ tasks s' a = []
             /\ clock s <= clock s' <= now
             /\ forall b, b <> a -> caches s' b = caches s b /\ tasks s' b = tasks s b.

Lemma performs_nothing a s now : tasks s a = [] -> clock s <= now -> performs a s (db s, caches s a) now.
Proof. intros Ht Hn. exists s. repeat split; try done; try lia. constructor. Qed.

Lemma step_run_first a now s c ts t s' c' rest :
  ts a = [t] -> run_task a now t s (c a) = (s', c', rest) ->
  step exclusive (mk_cluster now s c ts) (mk_cluster now s' (<[a := c']> c) (<[a := rest]> ts)).
Proof. intros Hts Hrun. rewrite <- (app_nil_r rest). by apply (step_run _ a [] t []). Qed.

Lemma exclusive_nil t : exclusive [] t.
Proof. by intros t' ?%not_elem_of_nil. Qed.

Lemma obtain_performs verb a k e s :
  tasks s a = [] -> clock s <= e_now1 e <= e_now2 e ->
  performs a s (fst (obtain verb a k e (db s, caches s a))) (e_now2 e).
Proof.
  intros Ht Hc. destruct s as [now st c ts]. simpl in *. unfold obtain.
  destruct (e_org e) as [[org|]|err|]; try (apply performs_nothing; simpl; [done|lia]).
  destruct (e_db e) as [err|]; [apply performs_nothing; simpl; [done|lia]|].
  unfold acquire_partition_lease.
  set (st1 := upsert_lease _ _ _ _ _ _ _).
  set (ts1 := <[a := [Acquiring org k]]> ts).
  set (c1 := <[a := c a]> c). set (ts2 := <[a := [ReadBack k]]> ts1).
  assert (Hsteps : steps (step exclusive) (mk_cluster now st c ts) (mk_cluster (e_now2 e) st1 c1 ts2)).
  { eapply steps_step; [eapply steps_step; [eapply steps_step;
      [eapply steps_step; [apply steps_refl|]|]|]|].
    - apply (step_tick _ (e_now1 e)). lia.
    - apply (step_acquire _ a org k). rewrite Ht. apply exclusive_nil.
    - rewrite Ht. apply (step_run_first a _ _ _ _ (Acquiring org k)); [apply fn_lookup_insert|].
      reflexivity.
    - apply (step_tick _ (e_now2 e)). lia. }
  assert (Hc1 : c1 a = c a) by apply fn_lookup_insert.
  assert (Hts2 : ts2 a = [ReadBack k]) by apply fn_lookup_insert.
  destruct (verify_lease (fst k) (snd k) a (get_partition_lease (fst k) (snd k) (e_now2 e) st1))
    as [l|err|] eqn:Hv; simpl.
  - set (c2 := <[a := c1 a]> c1). set (ts3 := <[a := [Caching k l]]> ts2).
    exists (mk_cluster (e_now2 e) st1 (<[a := <[k := cached l k]> (c a)]> c2) (<[a := []]> ts3)).
    assert (Hc2 : c2 a = c a) by (unfold c2; by rewrite fn_lookup_insert).
    split; [|simpl; rewrite !fn_lookup_insert; repeat split; try done; try lia].
    + eapply steps_step; [eapply steps_step; [exact Hsteps|]|].
      * apply (step_run_first a _ _ _ _ (ReadBack k)); [done|]. unfold run_task. by rewrite Hv.
      * apply (step_run_first a _ _ _ _ (Caching k l)); [apply fn_lookup_insert|].
        simpl. by rewrite fn_lookup_insert, Hc1.
    + unfold c2, c1. by rewrite !fn_lookup_insert_ne by done.
    + unfold ts3, ts2, ts1. by rewrite !fn_lookup_insert_ne by done.
  - exists (mk_cluster (e_now2 e) st1 (<[a := c1 a]> c1) (<[a := []]> ts2)).
    split; [|simpl; rewrite !fn_lookup_insert, ?Hc1; repeat split; try done; try lia].
    + eapply steps_step; [exact Hsteps|].
      apply (step_run_first a _ _ _ _ (ReadBack k)); [done|]. unfold run_task. by rewrite Hv.
    + unfold c1. by rewrite !fn_lookup_insert_ne by done.
    + unfold ts2, ts1. by rewrite !fn_lookup_insert_ne by done.
  - unfold verify_lease in Hv. by repeat case_match.
Qed.

Lemma release_performs a k e s :
  tasks s a = [] -> performs a s (fst (release_lease a k e (db s, caches s a))) (clock s).
Proof.
  intros Ht. destruct s as [now st c ts]. simpl in *. unfold release_lease.
  set (c1 := <[a := delete k (c a)]> c). set (ts1 := <[a := [Deleting k]]> ts).
  assert (Hstart : step exclusive (mk_cluster now st c ts) (mk_cluster now st c1 ts1)).
  { pose proof (step_release exclusive a k now st c ts) as Hs. rewrite Ht in Hs. apply Hs, exclusive_nil. }
  assert (Hc1 : c1 a = delete k (c a)) by apply fn_lookup_insert.
  assert (Hts1 : ts1 a = [Deleting k]) by apply fn_lookup_insert.
  assert (Hone : steps (step exclusive) (mk_cluster now st c ts) (mk_cluster now st c1 ts1)).
  { eapply steps_step; [apply steps_refl|exact Hstart]. }
  destruct (e_db e) as [err|]; simpl.
  - exists (mk_cluster now st c1 (<[a := []]> ts1)).
    split; [|simpl; rewrite !fn_lookup_insert, ?Hc1; repeat split; try done; try lia].
    + eapply steps_step; [exact Hone|]. by apply (step_fail _ a [] (Deleting k) []).
    + unfold c1. by rewrite !fn_lookup_insert_ne by done.
    + unfold ts1. by rewrite !fn_lookup_insert_ne by done.
  - exists (mk_cluster now (delete_lease (fst k) (snd k) a st) (<[a := c1 a]> c1) (<[a := []]> ts1)).
    split; [|simpl; rewrite !fn_lookup_insert, ?Hc1; repeat split; try done; try lia].
    + eapply steps_step; [exact Hone|]. by apply (step_run_first a _ _ _ _ (Deleting k)).
    + unfold c1. by rewrite !fn_lookup_insert_ne by done.
    + unfold ts1. by rewrite !fn_lookup_insert_ne by done.
Qed.

(** ** What the calls answer *)

(** The epoch that the next lease of [k] gets. *)
Definition next_epoch (k : pkey) (s : store) : Z :=
  match partition_leases s !! k with Some l => l_epoch l + 1 | None => 1 end.

(** Nobody else has a lease of [k] that has not expired. *)
Definition grantable (a : string) (k : pkey) (now : Z) (s : store) : Prop :=
  match partition_leases s !! k with Some l => leader_agent_id l = a \/ lease_expires_at l < now | None => True end.

(** The call succeeds when the lease can be granted and nothing fails; then agent [a] has a valid lease in the
    store, with the next epoch, and in its cache.  When it does not succeed the cache is as it was, and the store
    too where the lease cannot be granted. *)
Definition obtained {A : Type} (a : string) (k : pkey) (e : env) (w w' : world) (r : outcome AgentError A) : Prop :=
  (match r with
   | Ok _ => exists l, partition_leases w'.1 !! k = Some l /\ leader_agent_id l = a /\ l_epoch l = next_epoch k w.1
               /\ e_now2 e < lease_expires_at l /\ w'.2 = <[k := cached l k]> w.2
   | _ => w'.2 = w.2
   end)
  /\ (~ grantable a k (e_now1 e) w.1 -> w' = w /\ forall x, r <> Ok x)
  /\ (forall org, e_org e = Ok (Some org) -> e_db e = None -> 0 <= e_now1 e -> e_now2 e < e_now1 e + DEFAULT_LEASE_DURATION_MS < 2 ^ 63 ->
      grantable a k (e_now1 e) w.1 -> exists x, r = Ok x).

Definition held (a : string) (k : pkey) (s : store) : Prop :=
  exists l, partition_leases s !! k = Some l /\ leader_agent_id l = a.

Lemma upsert_kept org k a d now s : ~ grantable a k now s -> upsert_lease org (fst k) (snd k) a d now s = s.
Proof.
  unfold grantable, upsert_lease. rewrite <- surjective_pairing. destruct (partition_leases s !! k) as [l|]; [|tauto]. intros Hn.
  rewrite bool_decide_false by tauto. destruct (Z.ltb_spec (lease_expires_at l) now); [|done]. exfalso. apply Hn. by right.
Qed.

(** A lease that is read back belongs to the statement just run. *)
Lemma verified_row org k a d now1 now2 s l :
  snd (acquire_partition_lease org (fst k) (snd k) a d now1 now2 s) = Ok l ->
  grantable a k now1 s /\ partition_leases (upsert_lease org (fst k) (snd k) a d now1 s) !! k = Some l
  /\ leader_agent_id l = a /\ l_epoch l = next_epoch k s /\ now2 < lease_expires_at l.
Proof.
  unfold acquire_partition_lease. cbn [snd]. intros [[Hrow Hlt]%get_lease_Some Ha]%verify_Ok. rewrite <- surjective_pairing in Hrow.
  assert (Hg : grantable a k now1 s).
  { unfold grantable. pose proof (upsert_row org (fst k) (snd k) a d now1 s) as Hr. rewrite <- surjective_pairing, Hrow in Hr.
    destruct (partition_leases s !! k) as [l'|]; [|done]. case_bool_decide; [by left|]. cbn [orb] in Hr.
    destruct (Z.ltb_spec (lease_expires_at l') now1); [by right|]. injection Hr as ->. by left. }
  split; [done|]. split; [done|]. split; [done|]. split; [|done]. unfold next_epoch, grantable in *.
  pose proof (upsert_row org (fst k) (snd k) a d now1 s) as Hr. rewrite <- surjective_pairing, Hrow in Hr.
  destruct (partition_leases s !! k) as [l'|]; [|by injection Hr as ->].
  destruct (bool_decide_reflect (leader_agent_id l' = a)); [cbn [orb] in Hr; by injection Hr as ->|]. cbn [orb] in Hr.
  destruct (Z.ltb_spec (lease_expires_at l') now1); [by injection Hr as ->|]. destruct Hg; [done|lia].
Qed.

Lemma obtain_obtained verb a k e w : e_now1 e <= e_now2 e -> obtained a k e w (fst (obtain verb a k e w)) (snd (obtain verb a k e w)).
Proof.
  intros Hn. destruct w as [st c]. unfold obtain.
  destruct (e_org e) as [[org|]|err|] eqn:Horg.
  2-4: split; [done|split; [done|intros; congruence]].
  destruct (e_db e) as [err|] eqn:Hdb; [split; [done|split; [done|intros; congruence]]|].
  destruct (acquire_partition_lease _ _ _ _ _ _ _ st) as [st' r] eqn:Hacq.
  pose proof (f_equal fst Hacq) as Hst. cbn [fst acquire_partition_lease] in Hst.
  split; [|split].
  - destruct r as [l|err|]; [|done..]. pose proof (f_equal snd Hacq) as Hr. cbn [snd] in Hr.
    apply verified_row in Hr as (_ & Hrow & Ha & He & Hlt). exists l. cbn [fst snd]. by rewrite <- Hst.
  - intros Hng. cbn [fst] in Hng. pose proof (f_equal snd Hacq) as Hr. cbn [snd] in Hr.
    destruct r as [l|err|]; [by apply verified_row in Hr as [Hg _]| |]; (split; [|done]); cbn [fst snd]; rewrite <- Hst; f_equal; by apply upsert_kept.
  - intros org' _ _ H0 Hr Hg. rewrite acquire_partition_lease_spec in Hacq by lia. cbv zeta in Hacq. rewrite <- surjective_pairing in Hacq.
    unfold grantable in Hg. cbn [fst] in Hg. destruct (partition_leases st !! k) as [old|].
    + rewrite decide_True in Hacq by done. injection Hacq as _ <-. by eexists.
    + injection Hacq as _ <-. by eexists.
Qed.

Lemma obtain_epoch verb a k e w w' l : obtain verb a k e w = (w', Ok l) -> l_epoch l = next_epoch k w.1.
Proof.
  destruct w as [st c]. unfold obtain. destruct (e_org e) as [[org|]|err|]; [|done..]. destruct (e_db e); [done|].
  destruct (acquire_partition_lease _ _ _ _ _ _ _ st) as [st' r] eqn:Hacq. destruct r as [l'|err|]; [|done..]. intros [= _ <-].
  apply (f_equal snd) in Hacq. cbn [snd] in Hacq. by apply verified_row in Hacq as (_ & _ & _ & He & _).
Qed.

Lemma obtained_map {A B : Type} (f : A -> B) a k e w w' r : obtained a k e w w' r -> obtained a k e w w' (f <$> r).
Proof.
  intros (H1 & H2 & H3). split; [by destruct r|]. split.
  - intros Hg. destruct (H2 Hg) as [-> Hr]. split; [done|]. intros x. destruct r as [y| |]; [|done..]. by destruct (Hr y).
  - intros org Ho Hd H0 Hb Hg. destruct (H3 org Ho Hd H0 Hb Hg) as [x ->]. by exists (f x).
Qed.

Lemma release_answer a k e w :
  let '(w', r) := release_lease a k e w in
  w'.2 = delete k w.2 /\
  match e_db e with
  | Some err => w'.1 = w.1 /\ r = Err (AMetadata err)
  | None => (held a k w.1 -> r = Ok tt /\ partition_leases w'.1 = delete k (partition_leases w.1))
            /\ (~ held a k w.1 -> w'.1 = w.1 /\ exists m, r = Err (AMetadata (NotFoundError m)))
  end.
Proof.
  destruct w as [st c]. unfold release_lease. destruct (e_db e); [done|]. unfold release_partition_lease, delete_lease, held.
  rewrite <- surjective_pairing. cbn [fst snd]. split; [done|]. destruct (partition_leases st !! k) as [l|]; cbn [lift].
  - case_bool_decide as Ha; cbn [fst]; (split; intros Hh); [done| | |].
    + exfalso. apply Hh. by exists l.
    + destruct Hh as (l' & [= ->] & ?). done.
    + split; [done|]. by eexists.
  - split; [by intros (l & ? & _)|]. intros _. split; [done|]. by eexists.
Qed.

Lemma renew_one_performs a k e s now :
  tasks s a = [] -> clock s <= e_now1 e <= e_now2 e -> e_now2 e <= now ->
  performs a s (renew_one a (db s, caches s a) k e now) now.
Proof.
  intros Ht Hc Hnow. unfold renew_one, renew_lease. pose proof (obtain_performs "renew" a k e s Ht Hc) as Hp.
  destruct (obtain _ _ _ _ _) as [[s1 c1] r]. simpl in Hp.
  destruct Hp as (s' & Hsteps & Hw & Htasks & Hclock & Hoth). injection Hw as Hdb Hca.
  assert (Hkeep : performs a s (s1, c1) now).
  { exists s'. rewrite Hdb, Hca. repeat split; try done; try lia; by apply Hoth. }
  assert (Hevict : forall x, c1 !! k = Some x -> is_expired (Manager.expires_at x) now = true ->
            performs a s (s1, delete k c1) now).
  { intros x Hx He. destruct s' as [now' st' c' ts']. simpl in *. subst st' c1.
    exists (mk_cluster now s1 (<[a := delete k (c' a)]> c') ts'). split; [|simpl; split].
    - eapply steps_step; [eapply steps_step; [exact Hsteps|]|].
      + apply (step_tick _ now). lia.
      + by eapply step_evict.
    - by rewrite fn_lookup_insert.
    - split; [done|]. split; [lia|]. intros b Hb. rewrite fn_lookup_insert_ne by done. by apply Hoth. }
  destruct r as [[]|err|]; simpl; [done| |];
    (destruct (c1 !! k) as [x|] eqn:Hx; [destruct (is_expired _ _) eqn:He; [by eapply Hevict|done]|]);
    by rewrite delete_id.
Qed.

(** A lease of a renewal round: renewed, or, when that fails, forgotten once it has expired. *)
Definition renewed_or_evicted (a : string) (k : pkey) (e : env) (now : Z) (w w' : world) : Prop :=
  let '(w1, r) := renew_lease a k e w in
  w'.1 = w1.1 /\ match r with
                 | Ok _ => w'.2 = w1.2
                 | _ => w'.2 = match w.2 !! k with
                               | Some l => if is_expired (Manager.expires_at l) now then delete k w.2 else w.2
                               | None => w.2
                               end
                 end.

Lemma renew_one_spec a k e now w : e_now1 e <= e_now2 e -> renewed_or_evicted a k e now w (renew_one a w k e now).
Proof.
  intros Hn. unfold renewed_or_evicted, renew_one, renew_lease. pose proof (obtain_obtained "renew" a k e w Hn) as [Ho _].
  destruct (obtain "renew" a k e w) as [[s1 c1] r]. cbn [fst snd] in Ho.
  destruct r as [l|err|]; cbn [fmap outcome_fmap]; [done| |]; subst c1;
    (destruct (w.2 !! k) as [x|] eqn:Hx; [by destruct (is_expired _ _)|split; [done|]; cbn; by rewrite delete_id]).
Qed.

(** C22: the calls of a lease manager, made while the agent has no other call in flight, are runs of the
    cluster, so its guarantees hold for the calls as they are written; and they answer for what they did.  Acquiring and renewing succeed
    when nobody else has a valid lease and nothing fails: then the agent has a valid lease with the next epoch, in the store and in its cache, and
    acquiring answers that epoch; else the cache stays.  Ensuring answers the epoch of a cached lease that has not expired and does
    nothing, and acquires otherwise.  Releasing forgets the lease, and deletes the row where the agent is its leader.  A lease of a renewal round is
    renewed, or forgotten if that fails and it has expired.  The other agents stay as they are. *)
Theorem manager_calls_are_steps a k e s now :
  tasks s a = [] -> clock s <= e_now1 e <= e_now2 e -> e_now2 e <= now ->
  let w := (db s, caches s a) in
  (let '(w', r) := acquire_lease a k e w in
   performs a s w' (e_now2 e) /\ obtained a k e w w' r /\ forall epoch, r = Ok epoch -> epoch = next_epoch k (db s)) /\
  (let '(w', r) := renew_lease a k e w in performs a s w' (e_now2 e) /\ obtained a k e w w' r) /\
  (let '(w', r) := ensure_lease a k e w in
   performs a s w' (e_now2 e) /\
   match get_epoch k (e_now0 e) (caches s a) with
   | Some epoch => w' = w /\ r = Ok epoch
   | None => obtained a k e w w' r /\ forall epoch, r = Ok epoch -> epoch = next_epoch k (db s)
   end) /\
  (let '(w', r) := release_lease a k e w in
   performs a s w' (clock s) /\ w'.2 = delete k (caches s a) /\
   match e_db e with
   | Some err => w'.1 = db s /\ r = Err (AMetadata err)
   | None => (held a k (db s) -> r = Ok tt /\ partition_leases w'.1 = delete k (partition_leases (db s)))
             /\ (~ held a k (db s) -> w'.1 = db s /\ exists m, r = Err (AMetadata (NotFoundError m)))
   end) /\
  performs a s (renew_one a w k e now) now /\ renewed_or_evicted a k e now w (renew_one a w k e now).
Proof.
  intros Ht Hc Hnow w.
  assert (Hacq : let '(w', r) := acquire_lease a k e w in
    performs a s w' (e_now2 e) /\ obtained a k e w w' r /\ forall epoch, r = Ok epoch -> epoch = next_epoch k (db s)).
  { unfold acquire_lease. pose proof (obtain_performs "acquire" a k e s Ht Hc) as Hp. fold w in Hp.
    pose proof (obtain_obtained "acquire" a k e w ltac:(lia)) as Ho. destruct (obtain _ _ _ _ w) as [w' r] eqn:Hob. cbn [fst snd] in *.
    split; [done|]. split; [by apply obtained_map|]. intros epoch Hr. destruct r as [l| |]; [|done..]. injection Hr as <-.
    by apply (obtain_epoch "acquire" a k e w w'). }
  split; [exact Hacq|]. split.
  { unfold renew_lease. pose proof (obtain_performs "renew" a k e s Ht Hc) as Hp. fold w in Hp.
    pose proof (obtain_obtained "renew" a k e w ltac:(lia)) as Ho. destruct (obtain _ _ _ _ w) as [w' r]. split; [done|]. by apply obtained_map. }
  split.
  { unfold ensure_lease. cbn [snd w]. destruct (get_epoch k (e_now0 e) (caches s a)) as [epoch|].
    - split; [|done]. apply performs_nothing; [done|lia].
    - fold w. destruct (acquire_lease a k e w) as [w' r]. by destruct Hacq as (? & ? & ?). }
  split.
  { pose proof (release_performs a k e s Ht) as Hp. pose proof (release_answer a k e w) as Hr. fold w in Hp.
    destruct (release_lease a k e w) as [w' r]. done. }
  split; [by apply renew_one_performs|apply renew_one_spec; lia].
Qed.

Lemma manager_calls_are_steps_witness :
  let w := (empty_store, ∅) in
  let e := mk_env (Ok (Some "org"%string)) None 6 6 7 in
  let '(w', r) := acquire_lease "agent-1" ("orders"%string, 0) e w in
  r = Ok 1 /\ performs "agent-1" (start 5) w' 7 /\ obtained "agent-1" ("orders"%string, 0) e w w' r.
Proof.
  intros w e.
  destruct (manager_calls_are_steps "agent-1" ("orders"%string, 0) e (start 5) 8 eq_refl ltac:(simpl; lia) ltac:(simpl; lia)) as [H _].
  change (db (start 5), caches (start 5) "agent-1") with w in H.
  assert (Hr : snd (acquire_lease "agent-1" ("orders"%string, 0) e w) = Ok 1) by (vm_compute; reflexivity).
  destruct (acquire_lease "agent-1" ("orders"%string, 0) e w) as [w' r]. destruct H as (Hp & Ho & _). split; [exact Hr|]. split; [exact Hp|exact Ho].
Defined.
End CallFacts.
