(* ===== verification/LeaseTransferFacts.v ===== *)
(** * Facts about lease transfers

    Their life cycle, the record of leader changes, and the leases that a completed transfer gives. *)

From stdpp Require Import pretty.
From S2P Require Import Prelude HashMap MetadataError Lease LeaseFacts.

Module TransferFacts.
Import Store StoreFacts.

(** A call that works on the tables; [OInitiate] carries the fresh UUID. *)
Inductive op : Type :=
| OAcquire (org t : string) (p : Z) (a : string) (d now1 now2 : Z)
| ORelease (t : string) (p : Z) (a : string)
| OInitiate (id t : string) (p : Z) (from to : string) (why : LeaderChangeReason) (timeout now : Z)
| OAccept (id a : string) (now : Z)
| OComplete (id : string) (flushed watermark now : Z)
| OReject (id why : string) (now : Z)
| OCleanup (now : Z)
| ORecord (t : string) (p : Z) (from : option string) (to : string) (why : LeaderChangeReason) (epoch gap_ms now : Z).

Definition perform (o : op) (s : store) : store :=
  match o with
  | OAcquire org t p a d now1 now2 => fst (acquire_partition_lease org t p a d now1 now2 s)
  | ORelease t p a => fst (release_partition_lease t p a s)
  | OInitiate id t p from to why timeout now =>
      fst (initiate_lease_transfer id t p from to why timeout now s)
  | OAccept id a now => fst (accept_lease_transfer id a now s)
  | OComplete id flushed watermark now => fst (complete_lease_transfer id flushed watermark now s)
  | OReject id why now => fst (reject_lease_transfer id why now s)
  | OCleanup now => fst (cleanup_timed_out_transfers now s)
  | ORecord t p from to why epoch gap_ms now => fst (record_leader_change t p from to why epoch gap_ms now s)
  end.

(** The leader change that a call reports. *)
Definition reported (o : op) : list LeaderChange :=
  match o with ORecord t p from to why epoch gap_ms now => [leader_change t p from to why epoch gap_ms now] | _ => [] end.

(** The UUIDs of new transfers are new. *)
Definition fresh (o : op) (s : store) : Prop :=
  match o with OInitiate id _ _ _ _ _ _ _ => lease_transfers s !! id = None | _ => True end.

(** One call after another, each to its end. *)
Inductive run : list op -> store -> Prop :=
| run_start : run [] Cluster.empty_store
| run_op os o s : run os s -> fresh o s -> run (os ++ [o]) (perform o s).

(** ** The life of a transfer *)

Definition edge (x y : LeaseTransferState) : bool :=
  match x, y with
  | Pending, Accepted | Accepted, Completed | Pending, Rejected | Accepted, Rejected
  | Pending, TimedOut | Accepted, TimedOut => true
  | _, _ => false
  end.

(** What never changes of a transfer. *)
Definition identity (t : LeaseTransfer) :=
  (transfer_id t, t_topic t, t_partition_id t, from_agent_id t, to_agent_id t, from_epoch t,
   reason t, initiated_at t, timeout_at t).

Definition evolves (t t' : LeaseTransfer) : Prop :=
  t' = t \/ identity t' = identity t /\ edge (t_state t) (t_state t') = true.

(** The leader change a completed transfer stands for. *)
Definition change_of (t : LeaseTransfer) : option LeaderChange :=
  if bool_decide (t_state t = Completed)
  then Some (mk_change (t_topic t, t_partition_id t) (Some (from_agent_id t)) (to_agent_id t) (reason t)
               (from_epoch t + 1) 0 (default 0 (completed_at t)))
  else None.

Lemma release_tables t p a s :
  lease_transfers (fst (release_partition_lease t p a s)) = lease_transfers s
  /\ leader_changes (fst (release_partition_lease t p a s)) = leader_changes s.
Proof. simpl. unfold delete_lease. by repeat case_match. Qed.

Lemma acquire_tables org t p a d now1 now2 s :
  lease_transfers (fst (acquire_partition_lease org t p a d now1 now2 s)) = lease_transfers s
  /\ leader_changes (fst (acquire_partition_lease org t p a d now1 now2 s)) = leader_changes s.
Proof. simpl. unfold upsert_lease. by repeat case_match. Qed.

Lemma transfer_exists_spec t p s :
  transfer_exists t p s = false ->
  forall id x, lease_transfers s !! id = Some x -> t_topic x = t -> t_partition_id x = p ->
  in_progress (t_state x) = false.
Proof.
  unfold transfer_exists. rewrite negb_false_iff, bool_decide_eq_true. intros He id x Hx Ht Hp.
  destruct (in_progress (t_state x)) eqn:Hi; [|done].
  by destruct (proj1 (map_empty_filter _ _) He id x Hx).
Qed.

(** What one call does to the transfers: one is new, or every transfer stays or takes an
    edge. *)
Lemma perform_transfers o s :
  (forall id x, lease_transfers s !! id = Some x -> transfer_id x = id) ->
  fresh o s ->
  (exists id x, lease_transfers s !! id = None
     /\ lease_transfers (perform o s) = <[id := x]> (lease_transfers s)
     /\ transfer_id x = id /\ t_state x = Pending
     /\ transfer_exists (t_topic x) (t_partition_id x) s = false) \/
  (forall id, match lease_transfers s !! id, lease_transfers (perform o s) !! id with
              | Some x, Some x' => evolves x x'
              | None, None => True
              | _, _ => False
              end).
Proof.
  intros Hid Hf.
  assert (Hrefl : forall m : gmap string LeaseTransfer, forall id,
    match m !! id, m !! id with Some x, Some x' => evolves x x' | None, None => True | _, _ => False end).
  { intros m id. destruct (m !! id); [by left|done]. }
  assert (Hset : forall id x y, lease_transfers s !! id = Some x -> evolves x y ->
    forall id', match lease_transfers s !! id', <[id := y]> (lease_transfers s) !! id' with
                | Some x, Some x' => evolves x x' | None, None => True | _, _ => False end).
  { intros id x y Hx Hy id'. destruct (decide (id' = id)) as [->|Hne].
    - by rewrite Hx, lookup_insert_eq.
    - rewrite lookup_insert_ne by done. apply Hrefl. }
  destruct o as [org t p a d now1 now2|t p a|id t p from to why timeout now|id a now|id fl wm now|id why now|now|t p from to why epoch gap_ms now];
    unfold perform.
  - right. rewrite (proj1 (acquire_tables _ _ _ _ _ _ _ _)). apply Hrefl.
  - right. rewrite (proj1 (release_tables _ _ _ _)). apply Hrefl.
  - unfold initiate_lease_transfer. destruct (get_partition_lease _ _ _ _) as [l|]; [|right; apply Hrefl].
    destruct (negb _); [right; apply Hrefl|].
    destruct (transfer_exists t p s) eqn:He; [right; apply Hrefl|].
    left. exists id. eexists. split; [done|]. split; [done|]. done.
  - right. unfold accept_lease_transfer. destruct (lease_transfers s !! id) as [x|] eqn:Hx; [|apply Hrefl].
    case_bool_decide as Hp; simpl; [|apply Hrefl]. case_bool_decide; simpl; [|apply Hrefl].
    destruct (now >? timeout_at x); [apply Hrefl|]. simpl. rewrite (Hid _ _ Hx).
    apply (Hset _ x); [done|]. right. split; [done|]. simpl. by rewrite Hp.
  - right. unfold complete_lease_transfer. destruct (lease_transfers s !! id) as [x|] eqn:Hx; [|apply Hrefl].
    case_bool_decide as Hp; simpl; [|apply Hrefl].
    apply (Hset _ x); [done|]. right. unfold identity. simpl. rewrite (Hid _ _ Hx), Hp. done.
  - right. unfold reject_lease_transfer. destruct (lease_transfers s !! id) as [x|] eqn:Hx; [|apply Hrefl].
    destruct (t_state x) eqn:Hp; simpl; try exact (Hrefl _);
      (apply (Hset _ x); [done|]; right; unfold identity; simpl; rewrite (Hid _ _ Hx), Hp; done).
  - right. simpl. intros id. rewrite lookup_fmap. destruct (lease_transfers s !! id) as [x|]; [|done]. simpl.
    unfold evolves. destruct (t_state x) eqn:Hp; try by left.
    all: destruct (timeout_at x <? now); [right|by left]; done.
  - right. apply Hrefl.
Qed.

(** The leader changes after a call: those of before, the one that it reports, and one for a transfer it completes. *)
Lemma perform_changes o s :
  (forall id x, lease_transfers s !! id = Some x -> transfer_id x = id) ->
  fresh o s ->
  (leader_changes (perform o s) = leader_changes s ++ reported o
   /\ omap change_of (lease_transfers (perform o s)) = omap change_of (lease_transfers s)) \/
  (exists id c, omap change_of (lease_transfers s) !! id = None
     /\ omap change_of (lease_transfers (perform o s)) = <[id := c]> (omap change_of (lease_transfers s))
     /\ leader_changes (perform o s) = leader_changes s ++ [c] /\ reported o = []).
Proof.
  intros Hid Hf.
  assert (Hset : forall id y, change_of y = None ->
    match lease_transfers s !! id with Some x => change_of x = None | None => True end ->
    omap change_of (<[id := y]> (lease_transfers s)) = omap change_of (lease_transfers s)).
  { intros id y Hy Hx. rewrite omap_insert, Hy. apply delete_id. rewrite lookup_omap.
    by destruct (lease_transfers s !! id). }
  destruct o as [org t p a d now1 now2|t p a|id t p from to why timeout now|id a now|id fl wm now|id why now|now|t p from to why epoch gap_ms now];
    unfold perform.
  1-7: cbn [reported]; rewrite ?app_nil_r.
  - left. by rewrite (proj1 (acquire_tables _ _ _ _ _ _ _ _)), (proj2 (acquire_tables _ _ _ _ _ _ _ _)).
  - left. by rewrite (proj1 (release_tables _ _ _ _)), (proj2 (release_tables _ _ _ _)).
  - left. unfold initiate_lease_transfer. repeat case_match; simpl; try done.
    split; [done|]. apply Hset; [done|]. by rewrite Hf.
  - left. unfold accept_lease_transfer. destruct (lease_transfers s !! id) as [x|] eqn:Hx; [|done].
    case_bool_decide as Hp; simpl; [|done]. repeat case_match; simpl; try done.
    split; [done|]. rewrite (Hid _ _ Hx). apply Hset; [done|]. rewrite Hx. unfold change_of. by rewrite Hp.
  - unfold complete_lease_transfer. destruct (lease_transfers s !! id) as [x|] eqn:Hx; [|by left].
    case_bool_decide as Hp; simpl; [|by left].
    right. exists id. eexists. split; [|split; [|done]].
    + rewrite lookup_omap, Hx. simpl. unfold change_of. by rewrite Hp.
    + by rewrite omap_insert.
  - left. unfold reject_lease_transfer. destruct (lease_transfers s !! id) as [x|] eqn:Hx; [|done].
    destruct (t_state x) eqn:Hp; simpl; try done; (split; [done|];
      apply Hset; [done|]; rewrite Hx; unfold change_of; by rewrite Hp).
  - left. split; [done|]. simpl. apply map_eq. intros id. rewrite !lookup_omap, lookup_fmap.
    destruct (lease_transfers s !! id) as [x|]; [|done]. simpl. unfold change_of.
    destruct (t_state x) eqn:Hp; simpl; rewrite ?Hp; try done;
      destruct (timeout_at x <? now); simpl; by rewrite ?Hp.
  - by left.
Qed.

Record transfer_inv (os : list op) (s : store) : Prop := {
  inv_ids id x : lease_transfers s !! id = Some x -> transfer_id x = id;
  inv_single id id' x x' :
    lease_transfers s !! id = Some x -> lease_transfers s !! id' = Some x' ->
    in_progress (t_state x) = true -> in_progress (t_state x') = true ->
    t_topic x = t_topic x' -> t_partition_id x = t_partition_id x' -> id = id';
  inv_changes : leader_changes s ≡ₚ (map_to_list (omap change_of (lease_transfers s))).*2 ++ concat (map reported os)
}.

Lemma evolves_back x y :
  evolves x y ->
  transfer_id y = transfer_id x /\ t_topic y = t_topic x /\ t_partition_id y = t_partition_id x /\
  (in_progress (t_state y) = true -> in_progress (t_state x) = true).
Proof.
  intros [->|[Hid He]]; [done|]. unfold identity in Hid. injection Hid as -> -> -> _ _ _ _ _ _.
  split; [done|]. split; [done|]. split; [done|]. by destruct (t_state x).
Qed.

Lemma transfer_inv_perform os o s : transfer_inv os s -> fresh o s -> transfer_inv (os ++ [o]) (perform o s).
Proof.
  intros [Hids Hone Hch] Hf. split.
  - intros id y Hy. destruct (perform_transfers o s Hids Hf) as [(i & x & Hi & Hm & Hx & _)|Hev].
    + rewrite Hm in Hy. apply lookup_insert_Some in Hy as [[<- <-]|[_ Hy]]; [done|]. by apply Hids.
    + specialize (Hev id). rewrite Hy in Hev. destruct (lease_transfers s !! id) as [x|] eqn:Hx; [|done].
      apply evolves_back in Hev as [-> _]. by apply Hids.
  - intros id id' y y' Hy Hy' Hp Hp' Ht Hk.
    destruct (perform_transfers o s Hids Hf) as [(i & x & Hi & Hm & Hx & Hst & He)|Hev].
    + pose proof (transfer_exists_spec _ _ _ He) as Hfree. rewrite Hm in Hy, Hy'.
      apply lookup_insert_Some in Hy as [[<- <-]|[_ Hy]],
        Hy' as [[<- <-]|[_ Hy']]; [done| | |by eapply Hone].
      * assert (in_progress (t_state y') = false) by (eapply Hfree; eauto). congruence.
      * assert (in_progress (t_state y) = false) by (eapply Hfree; eauto). congruence.
    + pose proof (Hev id) as H1. pose proof (Hev id') as H2. rewrite Hy in H1. rewrite Hy' in H2.
      destruct (lease_transfers s !! id) as [x|] eqn:Hx; [|done].
      destruct (lease_transfers s !! id') as [x'|] eqn:Hx'; [|done].
      apply evolves_back in H1 as (_ & Ht1 & Hk1 & H1), H2 as (_ & Ht2 & Hk2 & H2).
      eapply Hone; eauto; congruence.
  - rewrite map_app, concat_app. cbn [map concat]. rewrite app_nil_r.
    destruct (perform_changes o s Hids Hf) as [[-> ->]|(id & c & Hn & -> & -> & ->)].
    + by rewrite Hch, app_assoc.
    + rewrite map_to_list_insert, app_nil_r by done. cbn [fmap list_fmap snd app]. rewrite Hch. symmetry. apply Permutation_cons_append.
Qed.

Lemma run_inv os s : run os s -> transfer_inv os s.
Proof.
  induction 1 as [|os o s Hrun IH Hf]; [|by apply transfer_inv_perform].
  split; simpl; [by intros|by intros|by rewrite omap_empty, map_to_list_empty].
Qed.

(** C23: the transfer protocol of the SQLite store.  Whatever sequence of calls is made, each to its end before the next, a partition has at most
    one transfer in progress; a transfer keeps its agents, its partition, its epoch and its
    deadline, and its state follows the life cycle: pending, accepted, completed, or
    rejected or timed out from the first two, for good; and the leader changes in the table
    are exactly those of the completed transfers, once each, with the epoch after the
    one the transfer began with, and those that were reported with [record_leader_change]. *)
Theorem transfer_protocol os s :
  run os s ->
  (forall id id' x x', lease_transfers s !! id = Some x -> lease_transfers s !! id' = Some x' ->
     in_progress (t_state x) = true -> in_progress (t_state x') = true ->
     (t_topic x, t_partition_id x) = (t_topic x', t_partition_id x') -> id = id') /\
  (forall o id x, fresh o s -> lease_transfers s !! id = Some x ->
     exists x', lease_transfers (perform o s) !! id = Some x' /\ evolves x x') /\
  leader_changes s ≡ₚ (map_to_list (omap change_of (lease_transfers s))).*2 ++ concat (map reported os).
Proof.
  intros Hrun%run_inv. split; [|split].
  - intros id id' x x' Hx Hx' Hp Hp' [= Ht Hk]. by eapply inv_single.
  - intros o id x Hf Hx. destruct (perform_transfers o s (inv_ids _ _ Hrun) Hf) as [(i & y & Hi & Hm & _)|Hev].
    + exists x. split; [|by left]. rewrite Hm. rewrite lookup_insert_ne; [done|congruence].
    + specialize (Hev id). rewrite Hx in Hev. destruct (lease_transfers (perform o s) !! id) as [y|]; [|done].
      by exists y.
  - apply Hrun.
Qed.

(** A transfer of orders/0 from agent-1, whose lease has run out meanwhile, to agent-2;
    agent-3 has acquired the lease. *)
Definition overtaken : list op :=
  [OAcquire "org" "orders" 0 "agent-1" 300000 0 0;
   OInitiate "t1" "orders" 0 "agent-1" "agent-2" GracefulHandoff 600000 10;
   OAccept "t1" "agent-2" 20;
   OAcquire "org" "orders" 0 "agent-3" 300000 300001 300001].

Definition performs (os : list op) : store := foldl (fun s o => perform o s) Cluster.empty_store os.

Lemma run_extends os' os o s : run os s -> fresh o s -> os' = os ++ [o] -> run os' (perform o s).
Proof. intros Hrun Hf ->. by apply run_op. Qed.

Lemma overtaken_run : run overtaken (performs overtaken).
Proof.
  unfold performs, overtaken. cbn [foldl].
  eapply (run_extends _ [_; _; _]); [|by vm_compute|reflexivity]. eapply (run_extends _ [_; _]); [|by vm_compute|reflexivity].
  eapply (run_extends _ [_]); [|by vm_compute|reflexivity]. eapply (run_extends _ []); [apply run_start|by vm_compute|reflexivity].
Qed.

Lemma transfer_protocol_witness :
  let os := (overtaken ++ [OComplete "t1" 41 42 300002]) ++ [ORecord "orders" 0 (Some ""%string) "agent-1" Initial 1 0 300003] in
  exists s, run os s /\ (leader_changes s ≡ₚ (map_to_list (omap change_of (lease_transfers s))).*2 ++ concat (map reported os))
  /\ map (fun c => (c_from c, c_to c, c_epoch c)) (leader_changes s) = [(Some "agent-1"%string, "agent-2"%string, 2); (None, "agent-1"%string, 1)].
Proof.
  intros os. eexists. assert (Hrun : run os (perform (ORecord "orders" 0 (Some ""%string) "agent-1" Initial 1 0 300003) (perform (OComplete "t1" 41 42 300002) (performs overtaken))))
    by (apply run_op; [apply run_op; [exact overtaken_run|exact I]|exact I]).
  split; [exact Hrun|]. split; [exact (proj2 (proj2 (transfer_protocol _ _ Hrun)))|vm_compute; reflexivity].
Defined.

(** Completing a transfer does not look at the lease.  When the lease of the old leader
    has run out during the transfer and a third agent has acquired it, the call still
    succeeds and hands the partition of the third agent, whose lease is valid and cached,
    to the target, with the very epoch the third agent holds. *)
Theorem complete_takes_any_lease :
  exists os s, run os s /\
    (exists c, get_partition_lease "orders" 0 300002 s = Some c
       /\ leader_agent_id c = "agent-3"%string /\ l_epoch c = 2) /\
    (exists l, snd (complete_lease_transfer "t1" 41 42 300002 s) = Ok l
       /\ leader_agent_id l = "agent-2"%string /\ l_epoch l = 2) /\
    (exists l, get_partition_lease "orders" 0 300003 (fst (complete_lease_transfer "t1" 41 42 300002 s)) = Some l
       /\ leader_agent_id l = "agent-2"%string /\ l_epoch l = 2).
Proof.
  exists overtaken, (performs overtaken). split; [apply overtaken_run|].
  split; [|split]; eexists; (split; [vm_compute; reflexivity|done]).
Qed.

(** The two stores disagree on completing an accepted transfer while the lease of the
    old leader is valid, as it is in a graceful hand-over.  SQLite moves the lease to the
    target; PostgreSQL tries to acquire it like anybody, fails with a conflict and leaves
    the lease with the old leader, but the transfer is marked as completed all the same,
    so it can neither be completed again nor rejected. *)
Theorem stores_disagree_on_completion uuid_error id flushed watermark now s t l :
  lease_transfers s !! id = Some t -> t_state t = Accepted -> transfer_id t = id ->
  partition_leases s !! (t_topic t, t_partition_id t) = Some l ->
  leader_agent_id l = from_agent_id t -> to_agent_id t <> from_agent_id t ->
  0 <= now < lease_expires_at l -> now + 30000 < 2 ^ 63 -> uuid_error (organization_id l) = None ->
  (exists l', snd (complete_lease_transfer id flushed watermark now s) = Ok l'
     /\ leader_agent_id l' = to_agent_id t) /\
  let '(s', r) := pg_complete_lease_transfer uuid_error id flushed watermark now s in
  r = Err (ConflictError ("Partition " +:+ part_name (t_topic t) (t_partition_id t)
                          +:+ " is already leased to another agent"))
  /\ partition_leases s' = partition_leases s
  /\ (t_state <$> lease_transfers s' !! id) = Some Completed
  /\ (exists e, snd (pg_complete_lease_transfer uuid_error id flushed watermark now s') = Err e)
  /\ forall why, exists e, snd (reject_lease_transfer id why now s') = Err e.
Proof.
  intros Ht Hst Hid Hl Hfrom Hto Hn Hr Hu. split.
  { unfold complete_lease_transfer. rewrite Ht. rewrite bool_decide_true by done. by eexists. }
  unfold pg_complete_lease_transfer at 1. rewrite Ht. rewrite bool_decide_true by done. cbn [negb].
  set (s1 := mk_store _ _ _).
  assert (Hg : get_partition_lease (t_topic t) (t_partition_id t) now s1 = Some l)
    by (apply get_lease_Some; simpl; split; [done|lia]).
  rewrite Hg, Hu. rewrite EpochFacts.acquire_partition_lease_spec by lia.
  assert (Hl1 : partition_leases s1 !! (t_topic t, t_partition_id t) = Some l) by done.
  rewrite Hl1, decide_False by (intros [Ha|Ha]; [congruence|lia]).
  replace (now <? lease_expires_at l) with true by lia.
  assert (Ht1 : exists t1, lease_transfers s1 !! id = Some t1 /\ t_state t1 = Completed)
    by (eexists; split; [apply lookup_insert_eq|done]).
  destruct Ht1 as (t1 & Ht1 & Hc). split; [done|]. split; [done|]. split; [by rewrite Ht1; simpl; rewrite Hc|].
  split; [unfold pg_complete_lease_transfer|unfold reject_lease_transfer; intros why];
    rewrite Ht1; [rewrite bool_decide_false by congruence|rewrite Hc]; by eexists.
Qed.

Lemma stores_disagree_on_completion_witness :
  exists e, snd (pg_complete_lease_transfer (fun _ => None) "t1" 41 42 30 (performs (take 3 overtaken))) = Err e.
Proof.
  set (s := performs (take 3 overtaken)).
  assert (Ht : exists t, lease_transfers s !! "t1"%string = Some t /\ t_state t = Accepted
    /\ transfer_id t = "t1"%string /\ t_topic t = "orders"%string /\ t_partition_id t = 0
    /\ from_agent_id t = "agent-1"%string /\ to_agent_id t = "agent-2"%string)
    by (eexists; split; [vm_compute; reflexivity|repeat split]).
  destruct Ht as (t & Ht & Hst & Hid & Htop & Hp & Hfrom & Hto).
  destruct (stores_disagree_on_completion (fun _ => None) "t1" 41 42 30 s t
    (mk_lease "org" "orders" 0 "agent-1" 300000 0 1)) as [_ Hpg];
    [exact Ht|exact Hst|exact Hid|rewrite Htop, Hp; vm_compute; reflexivity|symmetry; exact Hfrom
    |rewrite Hto, Hfrom; discriminate|simpl; lia|lia|reflexivity|].
  destruct (pg_complete_lease_transfer _ _ _ _ _ s) as [s' r]. destruct Hpg as [-> _]. eexists. reflexivity.
Defined.
End TransferFacts.
