(* ===== verification/Assigner.v ===== *)
(** * Partition assignment (crates/streamhouse-agent/src/assigner.rs)

    The rebalance task of an agent: it computes which partitions of its topics are its own
    from the listing of the live agents, and releases and ensures leases accordingly.  A
    [HashSet] is a finite set; the listings of agents and topics are answers of the metadata
    store.  Leases are those of [Lease]. *)

From stdpp Require Import sorting.
From S2P Require Import Prelude HashMap MetadataError Lease LeaseFacts.

(** ** Orders *)

(** The derived order of (topic, partition). *)
Definition pkey_le (x y : pkey) : Prop :=
  if decide (x.1 = y.1) then x.2 <= y.2 else String.le x.1 y.1.

#[export] Instance pkey_le_dec : RelDecision pkey_le.
Proof. intros x y. unfold pkey_le. destruct (decide _); apply _. Defined.

Definition sort_agents (ids : list string) : list string := merge_sort String.le ids.
Definition sort_partitions (ps : list pkey) : list pkey := merge_sort pkey_le ps.

(** ** State *)

Record AssignmentStats : Type := mk_stats {
  rebalance_count : Z;
  assignments_gained : Z;
  assignments_lost : Z;
  last_rebalance_ms : Z
}.

Record AssignerState : Type := mk_assigner {
  assigned_partitions : gset pkey;
  agent_topology : gmap string Z;
  stats : AssignmentStats
}.

Definition new_state : AssignerState := mk_assigner ∅ ∅ (mk_stats 0 0 0 0).

(** ** The assignment *)

(** [sorted_ids.iter().enumerate()] collected into a map. *)
Definition topology (agent_ids : list string) : gmap string Z :=
  insert_all (imap (fun i id => (id, Z.of_nat i)) (sort_agents agent_ids)) ∅.

(** [for partition_id in 0..partition_count]. *)
Definition partitions_of (topic : string) (partition_count : Z) : list pkey :=
  map (fun p => (topic, p)) (seqZ 0 partition_count).

(** What [get_topic] answers: the number of partitions of a topic. *)
Abbreviation topic_source := (string -> outcome MetadataError (option Z)).

(** The partitions of the topics; a topic that is not found is skipped. *)
Fixpoint all_partitions (get_topic : topic_source) (topics : list string)
  : outcome MetadataError (list pkey) :=
  match topics with
  | [] => Ok []
  | name :: topics =>
      match get_topic name with
      | Ok answer =>
          match all_partitions get_topic topics with
          | Ok rest => Ok (match answer with Some n => partitions_of name n | None => [] end ++ rest)
          | failure => failure
          end
      | Err e => Err e
      | Panic => Panic
      end
  end.

(** The same when an error counts as a missing topic. *)
Definition check_partitions (get_topic : topic_source) (topics : list string) : list pkey :=
  flat_map (fun name => match get_topic name with Ok (Some n) => partitions_of name n | _ => [] end) topics.

(** The loop over the sorted partitions: the [i]-th belongs to the agent [i % num_agents]. *)
Fixpoint pick (me : string) (sorted_agents : list string) (i : nat) (partitions : list pkey)
    (acc : gset pkey) : gset pkey :=
  match partitions with
  | [] => acc
  | k :: partitions =>
      pick me sorted_agents (S i) partitions
        (if bool_decide (sorted_agents !! (i mod length sorted_agents)%nat = Some me)
         then {[k]} ∪ acc else acc)
  end.

Definition assignment (me : string) (agent_ids : list string) (partitions : list pkey) : gset pkey :=
  pick me (sort_agents agent_ids) 0 (sort_partitions partitions) ∅.

(** ** Rebalancing *)

(** The answers of the outside world during one rebalance. *)
Record inputs : Type := mk_inputs {
  list_agents : outcome MetadataError (list string);
  get_topic_check : topic_source;
  get_topic : topic_source;
  release_env : pkey -> Manager.env;
  ensure_env : pkey -> Manager.env;
  timestamp : Z
}.

Section rebalancing.
Context `{HashOrder}.

(** A [HashSet] in its iteration order. *)
Definition iter_set (X : gset pkey) : list pkey := map fst (iter (gset_to_gmap tt X)).

Definition release_each (me : string) (envs : pkey -> Manager.env) (ks : list pkey)
    (w : Manager.world) : Manager.world :=
  foldl (fun w k => fst (Manager.release_lease me k (envs k) w)) w ks.

Definition ensure_each (me : string) (envs : pkey -> Manager.env) (ks : list pkey)
    (w : Manager.world) : Manager.world :=
  foldl (fun w k => fst (Manager.ensure_lease me k (envs k) w)) w ks.

Definition perform_rebalance (me : string) (topics : list string) (x : inputs)
    (st : AssignerState) (w : Manager.world)
  : AssignerState * Manager.world * outcome AgentError unit :=
  match list_agents x with
  | Err e => (st, w, Err (AMetadata e))
  | Panic => (st, w, Panic)
  | Ok [] => (st, w, Ok tt)
  | Ok agent_ids =>
      let topology_changed := negb (bool_decide (topology agent_ids = agent_topology st)) in
      let all_mine := assignment me agent_ids (check_partitions (get_topic_check x) topics) in
      let has_missing_leases := negb (bool_decide (all_mine = assigned_partitions st)) in
      if negb topology_changed && negb has_missing_leases then (st, w, Ok tt)
      else
        match all_partitions (get_topic x) topics with
        | Err e => (st, w, Err (AMetadata e))
        | Panic => (st, w, Panic)
        | Ok partitions =>
            let new_assignment := assignment me agent_ids partitions in
            let to_acquire := iter_set (new_assignment ∖ assigned_partitions st) in
            let to_release := iter_set (assigned_partitions st ∖ new_assignment) in
            let w := release_each me (release_env x) to_release w in
            let w := ensure_each me (ensure_env x) to_acquire w in
            let s := stats st in
            (mk_assigner new_assignment (topology agent_ids)
               (mk_stats (wrap 64 (rebalance_count s + 1))
                  (wrap 64 (assignments_gained s + Z.of_nat (length to_acquire)))
                  (wrap 64 (assignments_lost s + Z.of_nat (length to_release)))
                  (timestamp x)), w, Ok tt)
        end
  end.

(** [stop]: after the task is aborted, every assigned partition is released. *)
Definition stop (me : string) (envs : pkey -> Manager.env) (st : AssignerState) (w : Manager.world)
  : Manager.world :=
  release_each me envs (iter_set (assigned_partitions st)) w.

Definition get_stats (st : AssignerState) : AssignmentStats := stats st.
Definition get_assigned_partitions (st : AssignerState) : list pkey := iter_set (assigned_partitions st).
End rebalancing.

(** ** Facts *)

(** ** Sorting *)

#[export] Instance pkey_le_po : PartialOrder pkey_le.
Proof.
  split; [split|].
  - intros x. unfold pkey_le. by rewrite decide_True.
  - intros x y z. unfold pkey_le. repeat case_decide; try congruence; try lia.
    + intros Hxy Hyz. exfalso. destruct (String.le_po) as [_ Hanti].
      assert (x.1 = y.1); [|congruence]. apply Hanti; [done|congruence].
    + by etrans.
  - intros x y. unfold pkey_le. repeat case_decide; try congruence.
    + intros ??. destruct x, y; simpl in *; f_equal; [done|lia].
    + intros Hxy Hyx. destruct (String.le_po) as [_ Hanti]. by destruct (Hanti _ _ Hxy Hyx).
Qed.

#[export] Instance pkey_le_total : Total pkey_le.
Proof.
  intros x y. unfold pkey_le. repeat case_decide; try congruence; [lia|]. apply String.le_total.
Qed.

Lemma merge_sort_unique {A} (R : relation A) `{!RelDecision R, !PartialOrder R, !Total R} l l' :
  l ≡ₚ l' -> merge_sort R l = merge_sort R l'.
Proof.
  intros Hp. apply (Sorted_unique R); [apply Sorted_merge_sort, _..|].
  by rewrite !merge_sort_Permutation.
Qed.

Lemma sort_agents_perm l : sort_agents l ≡ₚ l.
Proof. apply merge_sort_Permutation. Qed.
Lemma sort_partitions_perm l : sort_partitions l ≡ₚ l.
Proof. apply merge_sort_Permutation. Qed.
Lemma sort_agents_unique l l' : l ≡ₚ l' -> sort_agents l = sort_agents l'.
Proof. apply merge_sort_unique; apply _. Qed.
Lemma sort_partitions_unique l l' : l ≡ₚ l' -> sort_partitions l = sort_partitions l'.
Proof. apply merge_sort_unique; apply _. Qed.

(** ** The assignment *)

Section picking.
Context (me : string) (agents : list string).

Lemma elem_of_pick ps i acc k :
  k ∈ pick me agents i ps acc <->
  k ∈ acc \/ exists j, ps !! j = Some k /\ agents !! ((i + j) mod length agents)%nat = Some me.
Proof.
  revert i acc. induction ps as [|k' ps IH]; intros i acc; simpl.
  - split; [by left|]. intros [?|(j & Hj & _)]; [done|]. by rewrite lookup_nil in Hj.
  - rewrite IH. assert (Hacc : k ∈ (if bool_decide (agents !! (i mod length agents)%nat = Some me)
        then {[k']} ∪ acc else acc) <-> k ∈ acc \/ k = k' /\ agents !! (i mod length agents)%nat = Some me).
    { case_bool_decide; [rewrite elem_of_union, elem_of_singleton; tauto|tauto]. }
    rewrite Hacc. split.
    + intros [[?|[-> Hi]]|(j & Hj & Ha)]; [by left| |].
      * right. exists 0%nat. by rewrite Nat.add_0_r.
      * right. exists (S j). by rewrite Nat.add_succ_r.
    + intros [?|([|j] & Hj & Ha)]; [by left; left| |].
      * left. right. rewrite Nat.add_0_r in Ha. simpl in Hj. by injection Hj as ->.
      * right. exists j. by rewrite Nat.add_succ_r in Ha.
Qed.

Lemma size_pick ps i acc :
  NoDup ps -> (forall k, k ∈ ps -> k ∉ acc) ->
  size (pick me agents i ps acc) =
  (size acc + length (filter (fun j => agents !! (j mod length agents)%nat = Some me) (seq i (length ps))))%nat.
Proof.
  revert i acc. induction ps as [|k ps IH]; intros i acc Hnd Hacc; simpl; [lia|].
  apply NoDup_cons in Hnd as [Hk Hnd]. rewrite IH; [|done|].
  - rewrite filter_cons. case_bool_decide as Hm; [rewrite decide_True by done|by rewrite decide_False by done].
    rewrite size_union; [rewrite size_singleton; simpl; lia|].
    apply disjoint_singleton_l, Hacc. left.
  - intros k' Hk'. assert (k' ∉ acc) by (apply Hacc; by right).
    case_bool_decide; [|done]. rewrite elem_of_union, elem_of_singleton. intros [->|?]; done.
Qed.
End picking.

Lemma elem_of_assignment me agents ps k :
  k ∈ assignment me agents ps <->
  exists j, sort_partitions ps !! j = Some k
            /\ sort_agents agents !! (j mod length (sort_agents agents))%nat = Some me.
Proof.
  unfold assignment. rewrite elem_of_pick. split; [|by right].
  intros [?%not_elem_of_empty|?]; done.
Qed.

(** How often a residue occurs. *)
Lemma count_residue n j m :
  (j < n)%nat ->
  length (filter (fun i => (i mod n)%nat = j) (seq 0 m)) = ((m + n - 1 - j) / n)%nat.
Proof.
  intros Hj. induction m as [|m IH].
  - simpl. symmetry. apply Nat.div_small. lia.
  - rewrite seq_S, filter_app, length_app, IH. change (0 + m)%nat with m.
    assert (Hm := Nat.div_mod m n ltac:(lia)). assert (Hr := Nat.mod_upper_bound m n ltac:(lia)).
    set (q := (m / n)%nat) in *. set (r := (m mod n)%nat) in *. rewrite filter_cons, filter_nil.
    case_decide as He; cbn [length].
    + assert (Ha : ((m + n - 1 - j) / n = q)%nat)
        by (symmetry; apply (Nat.div_unique _ _ _ (r + n - 1 - j)); lia).
      assert (Hb : ((S (m + n - 1 - j)) / n = S q)%nat)
        by (symmetry; apply (Nat.div_unique _ _ _ 0); [lia|rewrite Nat.mul_succ_r; lia]).
      replace (S m + n - 1 - j)%nat with (S (m + n - 1 - j)) by lia. rewrite Ha, Hb. lia.
    + destruct (Nat.le_gt_cases r j) as [Hle|Hgt].
      * assert (Ha : ((m + n - 1 - j) / n = q)%nat)
          by (symmetry; apply (Nat.div_unique _ _ _ (r + n - 1 - j)); lia).
        assert (Hb : ((S m + n - 1 - j) / n = q)%nat)
          by (symmetry; apply (Nat.div_unique _ _ _ (r + n - j)); lia). rewrite Ha, Hb. lia.
      * assert (Ha : ((m + n - 1 - j) / n = S q)%nat)
          by (symmetry; apply (Nat.div_unique _ _ _ (r - 1 - j)); [lia|rewrite Nat.mul_succ_r; lia]).
        assert (Hb : ((S m + n - 1 - j) / n = S q)%nat)
          by (symmetry; apply (Nat.div_unique _ _ _ (r - j)); [lia|rewrite Nat.mul_succ_r; lia]). rewrite Ha, Hb. lia.
Qed.

Lemma size_assignment me agents ps j :
  NoDup agents -> NoDup ps -> sort_agents agents !! j = Some me ->
  size (assignment me agents ps) = ((length ps + length agents - 1 - j) / length agents)%nat.
Proof.
  intros Hna Hnp Hj. assert (Hlt := lookup_lt_Some _ _ _ Hj). unfold assignment.
  rewrite size_pick; [|by rewrite sort_partitions_perm|intros ??; apply not_elem_of_empty].
  rewrite size_empty. simpl. rewrite sort_agents_perm in Hlt.
  rewrite (Permutation_length (sort_partitions_perm ps)), (Permutation_length (sort_agents_perm agents)).
  rewrite <- count_residue by done. f_equal. apply list_filter_iff. intros i.
  split; [|by intros ->]. intros Hi.
  eapply NoDup_lookup; [|exact Hi|exact Hj]. by rewrite sort_agents_perm.
Qed.

(** C30: the agents that work from the same listing divide the partitions among them, without
    talking to each other: every partition belongs to exactly one listed agent, an agent
    that is not listed gets nothing, only partitions of the topics are assigned, two agents
    differ by at most one partition, and the order in which the store lists agents and
    topics does not matter. *)
Theorem assignments_partition agents ps :
  NoDup agents -> NoDup ps -> agents <> [] ->
  (forall k, k ∈ ps -> exists a, a ∈ agents /\ forall b, k ∈ assignment b agents ps <-> b = a) /\
  (forall a k, k ∈ assignment a agents ps -> a ∈ agents /\ k ∈ ps) /\
  (forall a b, a ∈ agents -> b ∈ agents ->
     (size (assignment a agents ps) <= S (size (assignment b agents ps)))%nat) /\
  (forall a agents' ps', agents ≡ₚ agents' -> ps ≡ₚ ps' ->
     assignment a agents' ps' = assignment a agents ps).
Proof.
  intros Hna Hnp Hne.
  assert (Hlen : (0 < length (sort_agents agents))%nat).
  { rewrite (Permutation_length (sort_agents_perm agents)). by destruct agents; [|simpl; lia]. }
  split; [|split; [|split]].
  - intros k Hk. rewrite <- (sort_partitions_perm ps) in Hk. apply list_elem_of_lookup in Hk as [j Hj].
    destruct (lookup_lt_is_Some_2 (sort_agents agents) (j mod length (sort_agents agents))) as [a Ha].
    { apply Nat.mod_upper_bound. lia. }
    exists a. split; [rewrite <- (sort_agents_perm agents); by eapply list_elem_of_lookup_2|].
    intros b. rewrite elem_of_assignment. split; [|intros ->; by exists j].
    intros (j' & Hj' & Hb).
    assert (j' = j) as -> by (apply (NoDup_lookup (sort_partitions ps) _ _ k); [by rewrite sort_partitions_perm|done..]).
    congruence.
  - intros a k (j & Hj & Ha)%elem_of_assignment.
    rewrite <- (sort_agents_perm agents), <- (sort_partitions_perm ps).
    split; by eapply list_elem_of_lookup_2.
  - intros a b Ha Hb. rewrite <- (sort_agents_perm agents) in Ha, Hb.
    apply list_elem_of_lookup in Ha as [i Hi], Hb as [j Hj].
    rewrite (size_assignment a agents ps i), (size_assignment b agents ps j) by done.
    assert (Hij : (i < length agents /\ j < length agents)%nat).
    { rewrite <- (Permutation_length (sort_agents_perm agents)).
      split; by eapply lookup_lt_Some. }
    transitivity ((length ps + length agents - 1) / length agents)%nat; [apply Nat.Div0.div_le_mono; lia|].
    transitivity ((length ps + length agents - 1 - j + 1 * length agents) / length agents)%nat;
      [apply Nat.Div0.div_le_mono; lia|rewrite Nat.div_add by lia; lia].
  - intros a agents' ps' Hpa Hpp. unfold assignment.
    by rewrite (sort_agents_unique _ _ Hpa), (sort_partitions_unique _ _ Hpp).
Qed.

Lemma assignments_partition_witness :
  (size (assignment "agent-1" ["agent-2"; "agent-1"]%string (partitions_of "orders" 5)) <= 3)%nat.
Proof.
  assert (Hn : NoDup ["agent-2"; "agent-1"]%string) by (apply NoDup_ListNoDup; repeat constructor; simpl; intuition discriminate).
  assert (Hp : NoDup (partitions_of "orders" 5)) by (apply (bool_decide_eq_true_1 _); vm_compute; reflexivity).
  destruct (assignments_partition ["agent-2"; "agent-1"]%string (partitions_of "orders" 5) Hn Hp ltac:(discriminate))
    as (_ & _ & Hs & _).
  transitivity (S (size (assignment "agent-2" ["agent-2"; "agent-1"]%string (partitions_of "orders" 5)))).
  - apply Hs; [right; left|left].
  - vm_compute. repeat constructor.
Defined.

(** ** Rebalancing *)

Section rebalance_facts.
Context `{HashOrder}.

Lemma elem_of_iter_set X k : k ∈ iter_set X <-> k ∈ X.
Proof.
  unfold iter_set. rewrite list_elem_of_fmap. split.
  - intros ([k' u] & -> & Hin%elem_of_iter). by apply lookup_gset_to_gmap_Some in Hin as [? _].
  - intros Hk. exists (k, tt). split; [done|]. apply elem_of_iter.
    by apply lookup_gset_to_gmap_Some.
Qed.

Lemma iter_set_NoDup X : NoDup (iter_set X).
Proof. apply iter_NoDup. Qed.

(** When the topics can be read, both passes over them see the same partitions. *)
Lemma check_partitions_ok get topics ps :
  all_partitions get topics = Ok ps -> check_partitions get topics = ps.
Proof.
  unfold check_partitions. revert ps. induction topics as [|t topics IH]; simpl; intros ps Hps; [by injection Hps|].
  destruct (get t) as [n| |]; [|done..]. destruct (all_partitions get topics) as [rest| |]; [|done..].
  injection Hps as <-. by rewrite (IH rest).
Qed.

(** A rebalance of a readable store records the share, whether it skips or not. *)
Lemma rebalance_share me topics x st w agents ps :
  list_agents x = Ok agents -> agents <> [] -> get_topic_check x = get_topic x ->
  all_partitions (get_topic x) topics = Ok ps ->
  let '(st', w', r) := perform_rebalance me topics x st w in
  r = Ok tt /\ assigned_partitions st' = assignment me agents ps /\ agent_topology st' = topology agents.
Proof.
  intros Hl Hne Hsame Hps. unfold perform_rebalance. rewrite Hl.
  destruct agents as [|a0 agents]; [done|]. rewrite Hsame, Hps, (check_partitions_ok _ _ _ Hps).
  destruct (_ && _) eqn:Hskip; [|done].
  apply andb_true_iff in Hskip as [Ht Hm]. rewrite negb_involutive in Ht, Hm.
  apply bool_decide_eq_true in Ht, Hm. done.
Qed.

(** What a rebalance leaves.  When the store lists agents and answers for the topics, the
    call succeeds and the assignment recorded is the agent's share for that listing,
    whether it was skipped or not; so agents whose last rebalance saw the same listing
    record disjoint shares that cover all partitions.  A failure of the store, or an empty
    listing, leaves the state and the leases as they are. *)
Theorem rebalance_records_share me topics x st w :
  match list_agents x with
  | Ok [] => perform_rebalance me topics x st w = (st, w, Ok tt)
  | Err e => perform_rebalance me topics x st w = (st, w, Err (AMetadata e))
  | Panic => True
  | Ok agents =>
      get_topic_check x = get_topic x ->
      match all_partitions (get_topic x) topics with
      | Ok ps =>
          let '(st', w', r) := perform_rebalance me topics x st w in
          r = Ok tt /\ assigned_partitions st' = assignment me agents ps
          /\ agent_topology st' = topology agents
      | Err e => forall st' w', perform_rebalance me topics x st w = (st', w', Ok tt) -> st' = st /\ w' = w
      | Panic => True
      end
  end.
Proof.
  destruct (list_agents x) as [[|a0 agents]|e|] eqn:Hl; [..|done];
    [by unfold perform_rebalance; rewrite Hl| |by unfold perform_rebalance; rewrite Hl].
  intros Hsame. destruct (all_partitions (get_topic x) topics) as [ps|e|] eqn:Hps; [| |done].
  - by apply rebalance_share.
  - intros st' w' Hr. unfold perform_rebalance in Hr. rewrite Hl, Hps in Hr.
    destruct (_ && _); [by injection Hr as -> ->|done].
Qed.

(** A rebalance that succeeded is never repeated while the listing and the topics stay as
    they are, whatever became of its leases: a partition whose lease could not be acquired,
    because another agent held it then, is recorded as assigned like the others, so the
    next rebalances find nothing missing and do not try again, even after the other
    agent's lease has run out. *)
Theorem rebalance_does_not_retry me topics x y st w st' w' w2 agents ps :
  list_agents x = Ok agents -> list_agents y = Ok agents -> agents <> [] ->
  get_topic_check x = get_topic x -> get_topic_check y = get_topic x ->
  all_partitions (get_topic x) topics = Ok ps ->
  perform_rebalance me topics x st w = (st', w', Ok tt) ->
  perform_rebalance me topics y st' w2 = (st', w2, Ok tt).
Proof.
  intros Hx Hy Hne Hsx Hsy Hps Hr.
  pose proof (rebalance_share me topics x st w agents ps Hx Hne Hsx Hps) as Hspec. rewrite Hr in Hspec.
  destruct Hspec as (_ & Ha & Ht). destruct agents as [|a0 agents]; [done|].
  unfold perform_rebalance. rewrite Hy, Hsy, (check_partitions_ok _ _ _ Hps), Ha, Ht.
  by rewrite !bool_decide_true by done.
Qed.

(** ** Releasing *)

Lemma release_each_row me envs ks s c k :
  (forall k, Manager.e_db (envs k) = None) ->
  Store.partition_leases (fst (release_each me envs ks (s, c))) !! k =
  match Store.partition_leases s !! k with
  | Some l => if decide (k ∈ ks /\ leader_agent_id l = me) then None else Some l
  | None => None
  end.
Proof.
  intros Hdb. revert s c. unfold release_each. induction ks as [|k' ks IH]; intros s c; cbn [foldl fst].
  - destruct (Store.partition_leases s !! k); [|done]. rewrite decide_False; [done|]. by intros [?%not_elem_of_nil _].
  - cbn [Manager.release_lease]. rewrite Hdb. cbn [fst snd Store.release_partition_lease]. rewrite IH, StoreFacts.delete_lease_row. destruct k' as [t p]. cbn [fst snd].
    destruct (Store.partition_leases s !! k) as [l|]; [|done].
    case_bool_decide as Hk.
    + destruct Hk as [-> Hl]. rewrite decide_True; [done|]. split; [left|done].
    + destruct (decide (leader_agent_id l = me)) as [Hl|Hl];
        [|by rewrite !decide_False by tauto].
      assert (Hne : k <> (t, p)) by tauto.
      destruct (decide (k ∈ ks /\ _)) as [[Hin _]|Hno]; [by rewrite decide_True by (split; [by right|done])|].
      rewrite decide_False; [done|]. rewrite elem_of_cons. tauto.
Qed.

Lemma release_each_cache me envs ks s c k :
  snd (release_each me envs ks (s, c)) !! k = if decide (k ∈ ks) then None else c !! k.
Proof.
  revert s c. unfold release_each. induction ks as [|k' ks IH]; intros s c; cbn [foldl].
  - by rewrite decide_False by apply not_elem_of_nil.
  - assert (Hstep : exists s', fst (Manager.release_lease me k' (envs k') (s, c)) = (s', delete k' c)).
    { simpl. destruct (Manager.e_db _); by eexists. }
    destruct Hstep as [s' Hs']. rewrite Hs', IH. destruct (decide (k = k')) as [->|Hne].
    + rewrite lookup_delete_eq, (decide_True (P := k' ∈ k' :: ks)) by left. by case_decide.
    + rewrite lookup_delete_ne by done.
      destruct (decide (k ∈ ks)); [by rewrite decide_True by (by right)|].
      rewrite decide_False; [done|]. rewrite elem_of_cons. tauto.
Qed.

Lemma release_each_transfers me envs ks s c :
  Store.lease_transfers (fst (release_each me envs ks (s, c))) = Store.lease_transfers s.
Proof.
  revert s c. unfold release_each. induction ks as [|k' ks IH]; intros s c; simpl; [done|].
  destruct (Manager.e_db (envs k')); simpl; rewrite IH; [done|].
  unfold Store.delete_lease. destruct (_ !! _); [|done]. by destruct (bool_decide _).
Qed.

(** Stopping hands everything over: when the store can be reached, afterwards the agent
    leads no assigned partition in the store and caches none of their leases, and every
    other row and cached lease is as it was. *)
Theorem stop_releases me envs st s c k :
  (forall k, Manager.e_db (envs k) = None) ->
  let '(s', c') := stop me envs st (s, c) in
  Store.partition_leases s' !! k =
    match Store.partition_leases s !! k with
    | Some l => if decide (k ∈ assigned_partitions st /\ leader_agent_id l = me) then None else Some l
    | None => None
    end
  /\ c' !! k = (if decide (k ∈ assigned_partitions st) then None else c !! k)
  /\ Store.lease_transfers s' = Store.lease_transfers s.
Proof.
  intros Hdb. unfold stop. set (ks := iter_set (assigned_partitions st)).
  pose proof (release_each_row me envs ks s c k Hdb) as Hrow.
  pose proof (release_each_cache me envs ks s c k) as Hcache.
  assert (Hin : forall P : Prop, k ∈ ks /\ P <-> k ∈ assigned_partitions st /\ P)
    by (intros P; unfold ks; by rewrite elem_of_iter_set).
  pose proof (release_each_transfers me envs ks s c) as Ht.
  destruct (release_each me envs ks (s, c)) as [s' c']. simpl in *.
  split; [|split; [|done]].
  - rewrite Hrow. destruct (Store.partition_leases s !! k) as [l|]; [|done].
    apply decide_ext, Hin.
  - rewrite Hcache. apply decide_ext. unfold ks. apply elem_of_iter_set.
Qed.
End rebalance_facts.

(** agent-1 and agent-2 are in the group; agent-1 still leads both partitions. *)
Definition two_agents (now : Z) : inputs :=
  let e := Manager.mk_env (Ok (Some "org"%string)) None now now now in
  mk_inputs (Ok ["agent-1"; "agent-2"]%string) (fun _ => Ok (Some 2)) (fun _ => Ok (Some 2))
    (fun _ => e) (fun _ => e) now.

Definition led_by_1 : Store.store :=
  fst (ensure_each "agent-1" (ensure_env (two_agents 0)) (partitions_of "orders" 2) (Cluster.empty_store, ∅)).

Lemma rebalance_does_not_retry_witness :
  let k := ("orders"%string, 1) in
  exists st w, perform_rebalance "agent-2" ["orders"%string] (two_agents 1000) new_state (led_by_1, ∅) = (st, w, Ok tt)
    /\ k ∈ assigned_partitions st /\ snd w !! k = None
    (* after the lease of agent-1 has run out *)
    /\ perform_rebalance "agent-2" ["orders"%string] (two_agents 400000) st w = (st, w, Ok tt)
    /\ Store.get_partition_lease "orders" 1 400000 (fst w) = None.
Proof.
  intros k.
  assert (Hv : (let '((st, w), r) := perform_rebalance "agent-2" ["orders"%string] (two_agents 1000) new_state (led_by_1, ∅) in
      match r with Ok _ => true | _ => false end
      && bool_decide (k ∈ assigned_partitions st /\ snd w !! k = None
                      /\ Store.get_partition_lease "orders" 1 400000 (fst w) = None)) = true)
    by (vm_compute; reflexivity).
  destruct (perform_rebalance "agent-2" ["orders"%string] (two_agents 1000) new_state (led_by_1, ∅))
    as [[st w] r] eqn:Hr.
  apply andb_true_iff in Hv as [Hok Hv]. apply bool_decide_eq_true_1 in Hv as (Hin & Hc & Hg).
  destruct r as [[]| |]; [|discriminate Hok..].
  exists st, w. split; [reflexivity|]. split; [exact Hin|]. split; [exact Hc|]. split; [|exact Hg].
  exact (rebalance_does_not_retry "agent-2" ["orders"%string] (two_agents 1000) (two_agents 400000) new_state
    (led_by_1, ∅) st w w ["agent-1"; "agent-2"]%string _ eq_refl eq_refl ltac:(discriminate) eq_refl eq_refl eq_refl Hr).
Defined.

Lemma stop_releases_witness :
  Store.partition_leases (fst (stop "agent-1" (fun _ => Manager.mk_env (Ok None) None 1 1 1)
    (mk_assigner {[("orders"%string, 0)]} ∅ (mk_stats 1 1 0 0)) (led_by_1, ∅))) !! ("orders"%string, 0) = None.
Proof.
  pose proof (stop_releases "agent-1" (fun _ => Manager.mk_env (Ok None) None 1 1 1)
    (mk_assigner {[("orders"%string, 0)]} ∅ (mk_stats 1 1 0 0)) led_by_1 ∅ ("orders"%string, 0) (fun _ => eq_refl)) as Hs.
  destruct (stop _ _ _ _) as [s' c']. destruct Hs as (Hrow & _). cbn [fst]. rewrite Hrow. vm_compute. reflexivity.
Defined.

Lemma rebalance_records_share_witness :
  assigned_partitions (fst (fst (perform_rebalance "agent-2" ["orders"%string] (two_agents 1000) new_state (led_by_1, ∅))))
  = {[("orders"%string, 1)]}.
Proof.
  pose proof (rebalance_records_share "agent-2" ["orders"%string] (two_agents 1000) new_state (led_by_1, ∅)) as Hs.
  change (list_agents (two_agents 1000)) with (Ok ["agent-1"; "agent-2"]%string : outcome MetadataError _) in Hs.
  specialize (Hs eq_refl).
  change (all_partitions (get_topic (two_agents 1000)) ["orders"%string])
    with (Ok (partitions_of "orders" 2) : outcome MetadataError _) in Hs.
  destruct (perform_rebalance _ _ _ _ _) as [[st w] r]. destruct Hs as (_ & Ha & _).
  cbn [fst]. rewrite Ha. vm_compute. reflexivity.
Defined.
