(* ===== verification/Rebalancer.v ===== *)
(** * Plans to move partitions between nodes (crates/streamhouse-agent/src/rebalancer.rs)

    A [HashMap] is a finite map with the iteration order of [HashOrder].  The throughputs of a
    node are carried as they are: nothing computes with them. *)

From stdpp Require Import sorting pretty.
From S2P Require Import Prelude HashMap MetadataError Lease Assigner.

Inductive RebalanceStrategy : Type := RoundRobin | LeastLoaded | ConsistentHash | StickyAssignment.

#[export] Instance RebalanceStrategy_eq_dec : EqDecision RebalanceStrategy.
Proof. solve_decision. Defined.

Record NodeLoad (F64 : Type) : Type := mk_node_load {
  nl_partition_count : Z; nl_bytes_per_sec : F64; nl_records_per_sec : F64 }.
Arguments mk_node_load {F64}.

Record RebalanceConfig (F64 : Type) : Type := mk_rebalance_config {
  max_concurrent_movements : nat; rack_aware : bool; imbalance_threshold : F64 }.
Arguments mk_rebalance_config {F64}.
Arguments max_concurrent_movements {F64}.

Record PartitionMovement : Type := mk_movement {
  mv_topic : string; mv_partition_id : Z; mv_from_node : option string; mv_to_node : string }.

Record RebalancePlan : Type := mk_plan {
  movements : list PartitionMovement;
  pl_strategy : RebalanceStrategy;
  was_balanced : bool;
  partitions_unchanged : nat;
  total_partitions : nat
}.

(** [hash_string]: the hash of the standard library, of which no algorithm is documented. *)
Class StringHash := hash_string : string -> Z.

Section rebalancer.
Context `{HashOrder} `{StringHash} {F64 : Type}.

Record PartitionRebalancer : Type := mk_rebalancer {
  strategy : RebalanceStrategy;
  config : RebalanceConfig F64;
  node_loads : gmap string (NodeLoad F64);
  current_assignment : gmap pkey string
}.

Definition set_current a (r : PartitionRebalancer) : PartitionRebalancer :=
  mk_rebalancer (strategy r) (config r) (node_loads r) a.

Definition with_config (s : RebalanceStrategy) (c : RebalanceConfig F64) : PartitionRebalancer := mk_rebalancer s c ∅ ∅.

Definition add_node (node_id : string) (load : NodeLoad F64) (r : PartitionRebalancer) : PartitionRebalancer :=
  mk_rebalancer (strategy r) (config r) (<[node_id := load]> (node_loads r)) (current_assignment r).
Definition remove_node (node_id : string) (r : PartitionRebalancer) : PartitionRebalancer :=
  mk_rebalancer (strategy r) (config r) (delete node_id (node_loads r)) (current_assignment r).
Definition set_assignment (topic : string) (partition_id : Z) (node_id : string) (r : PartitionRebalancer)
  : PartitionRebalancer :=
  set_current (<[(topic, partition_id) := node_id]> (current_assignment r)) r.

(** ** The strategies, for a rebalancer that has nodes *)

Definition nodes (r : PartitionRebalancer) : list string := sort_agents (map fst (iter (node_loads r))).
Definition partitions (r : PartitionRebalancer) : list pkey := sort_partitions (map fst (iter (current_assignment r))).

Fixpoint round_robin (nodes : list string) (i : nat) (keys : list pkey) (assignment : gmap pkey string)
  : gmap pkey string :=
  match keys with
  | [] => assignment
  | k :: keys => round_robin nodes (S i) keys (<[k := nth (i mod length nodes)%nat nodes EmptyString]> assignment)
  end.

Definition assign_round_robin (r : PartitionRebalancer) : gmap pkey string := round_robin (nodes r) 0 (partitions r) ∅.

(** The order of counts, and of names where the counts are equal. *)
Definition load_le (a b : string * Z) : Prop := if decide (a.2 = b.2) then String.le a.1 b.1 else a.2 <= b.2.
#[export] Instance load_le_dec : RelDecision load_le.
Proof. intros a b. unfold load_le. destruct (decide _); apply _. Defined.

(** [load_counts.iter().min_by(..)]. *)
Definition best_node (load_counts : gmap string Z) : string :=
  match iter load_counts with
  | [] => EmptyString
  | e :: l => (foldl (fun m x => if decide (load_le m x) then m else x) e l).1
  end.

Definition count_one (n : string) (load_counts : gmap string Z) : gmap string Z :=
  alter (fun c => wrap 32 (c + 1)) n load_counts.

Fixpoint to_best (keys : list pkey) (load_counts : gmap string Z) (assignment : gmap pkey string) : gmap pkey string :=
  match keys with
  | [] => assignment
  | k :: keys =>
      let best := best_node load_counts in
      to_best keys (count_one best load_counts) (<[k := best]> assignment)
  end.

Definition no_load (r : PartitionRebalancer) : gmap string Z := list_to_map (map (fun n => (n, 0)) (nodes r)).

Definition assign_least_loaded (r : PartitionRebalancer) : gmap pkey string := to_best (partitions r) (no_load r) ∅.

Definition hash_key (k : pkey) : string := k.1 +:+ ":" +:+ pretty k.2.

Definition assign_consistent_hash (r : PartitionRebalancer) : gmap pkey string :=
  foldl (fun assignment k =>
           let idx := Z.to_nat (hash_string (hash_key k) mod Z.of_nat (length (nodes r))) in
           <[k := nth idx (nodes r) EmptyString]> assignment) ∅ (partitions r).

(** First the partitions on nodes that exist, then the others. *)
Fixpoint keep_valid (r : PartitionRebalancer) (keys : list pkey) (assignment : gmap pkey string)
    (load_counts : gmap string Z) (unassigned : list pkey) : gmap pkey string * gmap string Z * list pkey :=
  match keys with
  | [] => (assignment, load_counts, unassigned)
  | k :: keys =>
      match current_assignment r !! k with
      | Some current_node =>
          if bool_decide (is_Some (node_loads r !! current_node))
          then keep_valid r keys (<[k := current_node]> assignment) (count_one current_node load_counts) unassigned
          else keep_valid r keys assignment load_counts (unassigned ++ [k])
      | None => keep_valid r keys assignment load_counts (unassigned ++ [k])
      end
  end.

Definition assign_sticky (r : PartitionRebalancer) : gmap pkey string :=
  let '(assignment, load_counts, unassigned) := keep_valid r (partitions r) ∅ (no_load r) [] in
  to_best unassigned load_counts assignment.

Definition new_assignment (r : PartitionRebalancer) : gmap pkey string :=
  match strategy r with
  | RoundRobin => assign_round_robin r
  | LeastLoaded => assign_least_loaded r
  | ConsistentHash => assign_consistent_hash r
  | StickyAssignment => assign_sticky r
  end.

(** ** Plans *)

Definition stays (r : PartitionRebalancer) (e : pkey * string) : bool :=
  bool_decide (current_assignment r !! e.1 = Some e.2).

Definition movement (r : PartitionRebalancer) (e : pkey * string) : PartitionMovement :=
  mk_movement e.1.1 e.1.2 (current_assignment r !! e.1) e.2.

Definition all_movements (r : PartitionRebalancer) : list PartitionMovement :=
  map (movement r) (filter (fun e => stays r e = false) (iter (new_assignment r))).

Definition compute_rebalance (r : PartitionRebalancer) : RebalancePlan :=
  let total := size (current_assignment r) in
  if bool_decide (node_loads r = ∅) then mk_plan [] (strategy r) true total total
  else
    let moves := all_movements r in
    mk_plan (take (max_concurrent_movements (config r)) moves) (strategy r) (bool_decide (moves = []))
      (length (filter (fun e => stays r e = true) (iter (new_assignment r)))) total.

Definition execute_plan (plan : RebalancePlan) (r : PartitionRebalancer) : PartitionRebalancer :=
  set_current (foldl (fun a m => <[(mv_topic m, mv_partition_id m) := mv_to_node m]> a) (current_assignment r)
                 (movements plan)) r.

(** A round of the usage the module describes: compute a plan and execute it. *)
Definition round (r : PartitionRebalancer) : PartitionRebalancer := execute_plan (compute_rebalance r) r.
End rebalancer.

Arguments PartitionRebalancer : clear implicits.

(** ** Facts *)

#[local] Open Scope nat_scope.

Section rebalancer.
Context `{HashOrder} `{StringHash} {F64 : Type}.
Abbreviation rebalancer := (PartitionRebalancer F64).
Implicit Types r : rebalancer.

(** ** Nodes and partitions *)

Lemma elem_of_nodes r n : n ∈ nodes r <-> is_Some (node_loads r !! n).
Proof.
  unfold nodes. rewrite sort_agents_perm, list_elem_of_fmap. split.
  - intros ([m l] & -> & Hm%elem_of_iter). by exists l.
  - intros [l Hl]. exists (n, l). split; [done|]. by apply elem_of_iter.
Qed.

Lemma elem_of_partitions r k : k ∈ partitions r <-> is_Some (current_assignment r !! k).
Proof.
  unfold partitions. rewrite sort_partitions_perm, list_elem_of_fmap. split.
  - intros ([m l] & -> & Hm%elem_of_iter). by exists l.
  - intros [l Hl]. exists (k, l). split; [done|]. by apply elem_of_iter.
Qed.

Lemma NoDup_nodes r : NoDup (nodes r).
Proof. unfold nodes. rewrite sort_agents_perm. apply iter_NoDup. Qed.
Lemma NoDup_partitions r : NoDup (partitions r).
Proof. unfold partitions. rewrite sort_partitions_perm. apply iter_NoDup. Qed.

Lemma length_partitions r : length (partitions r) = size (current_assignment r).
Proof. unfold partitions. rewrite sort_partitions_perm, length_map. apply length_iter. Qed.

Lemma length_nodes r : length (nodes r) = size (node_loads r).
Proof. unfold nodes. rewrite sort_agents_perm, length_map. apply length_iter. Qed.

Lemma nodes_nonempty r : node_loads r <> ∅ -> 0 < length (nodes r).
Proof.
  rewrite length_nodes. intros Hn. destruct (decide (size (node_loads r) = 0)) as [Hs|]; [|lia].
  by apply map_size_empty_iff in Hs.
Qed.

(** The target depends on the names of the nodes and the partitions only, unless the strategy
    is sticky. *)
Lemma partitions_dom r r' : dom (current_assignment r) = dom (current_assignment r') -> partitions r = partitions r'.
Proof.
  intros Hd. unfold partitions. apply sort_partitions_unique. apply NoDup_Permutation; [apply iter_NoDup..|].
  intros k. assert (Hk : forall s : rebalancer, k ∈ map fst (iter (current_assignment s)) <-> k ∈ dom (current_assignment s)).
  { intros s. rewrite elem_of_dom, <- elem_of_partitions. unfold partitions. by rewrite sort_partitions_perm. }
  by rewrite !Hk, Hd.
Qed.

(** ** The node with the least load *)

#[local] Instance load_le_total : Total load_le.
Proof.
  intros a b. unfold load_le. repeat case_decide; try congruence; [apply String.le_total|lia].
Qed.

#[local] Instance load_le_po : PreOrder load_le.
Proof.
  split.
  - intros a. unfold load_le. by rewrite decide_True.
  - intros a b c. unfold load_le. repeat case_decide; try congruence; try lia. intros. by etrans.
Qed.

Lemma foldl_min_spec (l : list (string * Z)) e :
  let m := foldl (fun m x => if decide (load_le m x) then m else x) e l in
  m ∈ e :: l /\ forall x, x ∈ e :: l -> load_le m x.
Proof.
  revert e. induction l as [|y l IH]; intros e; cbn.
  - split; [by left|]. intros x ->%list_elem_of_singleton. done.
  - destruct (IH (if decide (load_le e y) then e else y)) as [Hin Hle]. split.
    + apply elem_of_cons in Hin as [Hin|Hin]; [|by right; right]. rewrite Hin. case_decide; [left|right; left].
    + intros x Hx. assert (Hey : load_le (if decide (load_le e y) then e else y) e
                               /\ load_le (if decide (load_le e y) then e else y) y).
      { case_decide; [by split|]. split; [|done]. destruct (total load_le e y); done. }
      apply elem_of_cons in Hx as [-> |[-> |Hx]%elem_of_cons].
      * trans (if decide (load_le e y) then e else y); [by apply Hle; left|apply Hey].
      * trans (if decide (load_le e y) then e else y); [by apply Hle; left|apply Hey].
      * apply Hle. by right.
Qed.

Lemma best_node_spec counts :
  counts <> ∅ ->
  exists c, counts !! best_node counts = Some c
    /\ forall n d, counts !! n = Some d -> load_le (best_node counts, c) (n, d).
Proof.
  intros Hc. unfold best_node. destruct (iter counts) as [|e l] eqn:Hi.
  - destruct Hc. apply map_size_empty_inv. by rewrite <- length_iter, Hi.
  - destruct (foldl_min_spec l e) as [Hin Hle]. rewrite <- Hi in Hin, Hle.
    destruct (foldl _ e l) as [b c] eqn:Hf. exists c. split; [by apply elem_of_iter|].
    intros n d Hn. by apply Hle, elem_of_iter.
Qed.

(** ** What the strategies assign *)

(** Every partition to a node of the list. *)
Definition assigns (ns : list string) (keys : list pkey) (a : gmap pkey string) : Prop :=
  (forall k, is_Some (a !! k) <-> k ∈ keys) /\ (forall k n, a !! k = Some n -> n ∈ ns).

Lemma assigns_nil ns : assigns ns [] ∅.
Proof.
  split; [|done]. intros k. rewrite lookup_empty. split; [by intros []|by intros ?%not_elem_of_nil].
Qed.

Lemma assigns_insert ns done_ a k n :
  assigns ns done_ a -> n ∈ ns -> assigns ns (k :: done_) (<[k := n]> a).
Proof.
  intros [Hd Hn] Hin. split.
  - intros l. rewrite lookup_insert_is_Some', elem_of_cons, Hd. split; intros [->|Hl]; auto.
  - intros l m [[_ <-]|[_ Hl]]%lookup_insert_Some; [done|by apply (Hn l)].
Qed.

Lemma assigns_perm ns keys keys' a : (forall k, k ∈ keys <-> k ∈ keys') -> assigns ns keys a -> assigns ns keys' a.
Proof. intros Hk [Hd Hn]. split; [|done]. intros k. by rewrite <- Hk. Qed.

Lemma round_robin_assigns ns i keys done_ a :
  0 < length ns -> assigns ns done_ a -> assigns ns (keys ++ done_) (round_robin ns i keys a).
Proof.
  intros Hns. revert i done_ a. induction keys as [|k keys IH]; intros i done_ a Ha; [done|]. cbn.
  apply (assigns_perm _ (keys ++ k :: done_)); [intros l; rewrite elem_of_cons, !elem_of_app, elem_of_cons; tauto|].
  apply IH, assigns_insert; [done|]. apply list_elem_of_In, nth_In, Nat.mod_upper_bound. lia.
Qed.

Lemma best_in ns counts : dom counts = list_to_set ns -> 0 < length ns -> best_node counts ∈ ns.
Proof.
  intros Hd Hns. destruct (best_node_spec counts) as (c & Hc & _).
  - intros ->. destruct ns as [|n ns]; [cbn in Hns; lia|]. rewrite dom_empty_L in Hd. set_solver.
  - apply elem_of_dom_2 in Hc. rewrite Hd in Hc. by apply elem_of_list_to_set in Hc.
Qed.

Lemma dom_count_one n (counts : gmap string Z) : dom (count_one n counts) = dom counts.
Proof. apply dom_alter_L. Qed.

Lemma to_best_assigns ns keys counts done_ a :
  dom counts = list_to_set ns -> 0 < length ns -> assigns ns done_ a -> assigns ns (keys ++ done_) (to_best keys counts a).
Proof.
  intros Hd Hns. revert counts Hd done_ a. induction keys as [|k keys IH]; intros counts Hd done_ a Ha; [done|]. cbn.
  apply (assigns_perm _ (keys ++ k :: done_)); [intros l; rewrite elem_of_cons, !elem_of_app, elem_of_cons; tauto|].
  apply IH; [by rewrite dom_count_one|]. apply assigns_insert; [done|by apply best_in].
Qed.

Lemma to_best_keeps keys counts a k : k ∉ keys -> to_best keys counts a !! k = a !! k.
Proof.
  revert counts a. induction keys as [|l keys IH]; intros counts a Hk; [done|]. cbn.
  apply not_elem_of_cons in Hk as [Hl Hk]. rewrite IH by done. by apply lookup_insert_ne.
Qed.

Lemma dom_no_load r : dom (no_load r) = list_to_set (nodes r).
Proof.
  unfold no_load. rewrite dom_list_to_map_L. f_equal. by rewrite <- list_fmap_compose, list_fmap_id.
Qed.

(** The partition is on a node that exists. *)
Definition live r (k : pkey) : Prop :=
  match current_assignment r !! k with Some n => is_Some (node_loads r !! n) | None => False end.
#[local] Instance live_dec r k : Decision (live r k).
Proof. unfold live. destruct (current_assignment r !! k); apply _. Defined.

Lemma keep_valid_spec r keys : forall a counts unassigned,
  keep_valid r keys a counts unassigned =
  (foldl (fun a k => match current_assignment r !! k with Some n => <[k := n]> a | None => a end) a
     (filter (live r) keys),
   foldl (fun c k => match current_assignment r !! k with Some n => count_one n c | None => c end) counts
     (filter (live r) keys),
   unassigned ++ filter (fun k => ~ live r k) keys).
Proof.
  induction keys as [|k keys IH]; intros a counts un; cbn [keep_valid]; [by rewrite app_nil_r|].
  destruct (decide (live r k)) as [Hl|Hl].
  - rewrite (filter_cons_True (live r)), (filter_cons_False (fun k => ~ live r k)) by (done || tauto). cbn [foldl].
    unfold live in Hl. destruct (current_assignment r !! k) as [n|]; [|done]. rewrite bool_decide_true by done. apply IH.
  - rewrite (filter_cons_False (live r)), (filter_cons_True (fun k => ~ live r k)) by done.
    unfold live in Hl. destruct (current_assignment r !! k) as [n|]; [rewrite bool_decide_false by done|];
      rewrite IH; by rewrite <- app_assoc.
Qed.

Lemma foldl_live_lookup r (keys : list pkey) (a : gmap pkey string) k :
  foldl (fun a k => match current_assignment r !! k with Some n => <[k := n]> a | None => a end) a
    (filter (live r) keys) !! k
  = if decide (live r k /\ k ∈ keys) then current_assignment r !! k else a !! k.
Proof.
  revert a. induction keys as [|l keys IH]; intros a.
  - rewrite decide_False; [done|]. by intros [_ ?%not_elem_of_nil].
  - destruct (decide (live r l)) as [Hl|Hl]; [rewrite filter_cons_True|rewrite filter_cons_False]; try done; cbn [foldl].
    + rewrite IH. destruct (decide (live r k /\ k ∈ keys)) as [[Hk Hin]|Hk].
      * rewrite decide_True; [done|]. split; [done|by right].
      * pose proof Hl as Hl'. unfold live in Hl'. destruct (current_assignment r !! l) as [n|] eqn:Hn; [|done].
        destruct (decide (k = l)) as [-> |Hne]; [rewrite decide_True by (split; [done|by left]); by rewrite lookup_insert_eq, Hn|].
        rewrite lookup_insert_ne by done. rewrite decide_False; [done|].
        intros [Hlk Hin]. apply elem_of_cons in Hin as [|Hin]; [done|by apply Hk].
    + rewrite IH. apply (f_equal (fun x => x)). destruct (decide (live r k /\ k ∈ keys)) as [[Hk Hin]|Hk].
      * rewrite decide_True; [done|]. split; [done|by right].
      * rewrite decide_False; [done|]. intros [Hlk [-> |Hin]%elem_of_cons]; [done|by apply Hk].
Qed.

Lemma dom_count_live r (keys : list pkey) (counts : gmap string Z) :
  dom (foldl (fun c k => match current_assignment r !! k with Some n => count_one n c | None => c end) counts keys)
  = dom counts.
Proof.
  revert counts. induction keys as [|k keys IH]; intros counts; [done|]. cbn. rewrite IH.
  destruct (current_assignment r !! k); [apply dom_count_one|done].
Qed.

(** ** The targets *)

Lemma sticky_assigns r : 0 < length (nodes r) -> assigns (nodes r) (partitions r) (assign_sticky r).
Proof.
  intros Hn. unfold assign_sticky. rewrite keep_valid_spec. cbn [app].
  apply (assigns_perm _ (filter (fun k => ~ live r k) (partitions r) ++ filter (live r) (partitions r))).
  { intros k. rewrite elem_of_app, !list_elem_of_filter. destruct (decide (live r k)); tauto. }
  apply to_best_assigns; [rewrite dom_count_live; apply dom_no_load|done|]. split.
  - intros k. rewrite foldl_live_lookup, list_elem_of_filter, lookup_empty. case_decide as Hk.
    + split; [done|]. intros _. unfold live in Hk. by destruct (current_assignment r !! k), Hk.
    + split; [by intros []|done].
  - intros k n. rewrite foldl_live_lookup, lookup_empty. case_decide as Hk; [|done].
    intros Hc. destruct Hk as [Hl _]. unfold live in Hl. rewrite Hc in Hl. by apply elem_of_nodes.
Qed.

Lemma sticky_keeps r k : live r k -> assign_sticky r !! k = current_assignment r !! k.
Proof.
  intros Hl. unfold assign_sticky. rewrite keep_valid_spec. cbn [app].
  rewrite to_best_keeps by (rewrite list_elem_of_filter; tauto). rewrite foldl_live_lookup.
  rewrite decide_True; [done|]. split; [done|]. apply elem_of_partitions. unfold live in Hl.
  by destruct (current_assignment r !! k).
Qed.

Lemma consistent_hash_assigns r : 0 < length (nodes r) -> assigns (nodes r) (partitions r) (assign_consistent_hash r).
Proof.
  intros Hn. unfold assign_consistent_hash.
  assert (Hg : forall keys done_ a, assigns (nodes r) done_ a -> assigns (nodes r) (keys ++ done_)
    (foldl (fun assignment k =>
           let idx := Z.to_nat (hash_string (hash_key k) mod Z.of_nat (length (nodes r))) in
           <[k := nth idx (nodes r) EmptyString]> assignment) a keys)).
  { induction keys as [|k keys IH]; intros done_ a Ha; [done|]. cbn.
    apply (assigns_perm _ (keys ++ k :: done_)); [intros l; rewrite elem_of_cons, !elem_of_app, elem_of_cons; tauto|].
    apply IH, assigns_insert; [done|]. apply list_elem_of_In, nth_In.
    assert (Hpos : (0 < Z.of_nat (length (nodes r)))%Z) by lia.
    pose proof (Z.mod_pos_bound (hash_string (hash_key k)) _ Hpos). lia. }
  pose proof (Hg (partitions r) [] ∅ (assigns_nil _)) as Ha. by rewrite app_nil_r in Ha.
Qed.

Lemma target_assigns r : node_loads r <> ∅ -> assigns (nodes r) (partitions r) (new_assignment r).
Proof.
  intros Hn%nodes_nonempty. unfold new_assignment. destruct (strategy r).
  - pose proof (round_robin_assigns (nodes r) 0 (partitions r) [] ∅ Hn (assigns_nil _)) as Ha. by rewrite app_nil_r in Ha.
  - pose proof (to_best_assigns (nodes r) (partitions r) (no_load r) [] ∅ (dom_no_load r) Hn (assigns_nil _)) as Ha.
    by rewrite app_nil_r in Ha.
  - by apply consistent_hash_assigns.
  - by apply sticky_assigns.
Qed.

Lemma target_dom r : node_loads r <> ∅ -> dom (new_assignment r) = dom (current_assignment r).
Proof.
  intros Hn. destruct (target_assigns r Hn) as [Hd _]. apply set_eq. intros k.
  by rewrite !elem_of_dom, Hd, elem_of_partitions.
Qed.

(** For the other strategies the target depends on names alone. *)
Lemma target_stable r a :
  strategy r <> StickyAssignment -> dom a = dom (current_assignment r) -> new_assignment (set_current a r) = new_assignment r.
Proof.
  intros Hs Hd. assert (Hp : partitions (set_current a r) = partitions r) by by apply partitions_dom.
  unfold new_assignment. change (strategy (set_current a r)) with (strategy r).
  unfold assign_round_robin, assign_least_loaded, assign_consistent_hash, no_load.
  change (nodes (set_current a r)) with (nodes r). rewrite Hp. by destruct (strategy r).
Qed.

(** ** Rounds *)

(** The partitions that are not where the plan wants them. *)
Definition misplaced r : gset pkey := filter (fun k => current_assignment r !! k <> new_assignment r !! k) (dom (current_assignment r)).

Definition move_key (m : PartitionMovement) : pkey := (mv_topic m, mv_partition_id m).

Lemma elem_of_all_movements r m :
  m ∈ all_movements r <-> exists k n, m = movement r (k, n) /\ new_assignment r !! k = Some n /\ current_assignment r !! k <> Some n.
Proof.
  unfold all_movements. rewrite list_elem_of_fmap. split.
  - intros ([k n] & -> & [Hs Hi%elem_of_iter]%list_elem_of_filter). exists k, n. split; [done|]. split; [done|].
    by apply bool_decide_eq_false_1 in Hs.
  - intros (k & n & -> & Hn & Hc). exists (k, n). split; [done|]. apply list_elem_of_filter.
    split; [by apply bool_decide_eq_false_2|by apply elem_of_iter].
Qed.

Lemma move_keys r :
  node_loads r <> ∅ ->
  NoDup (map move_key (all_movements r)) /\ forall k, k ∈ map move_key (all_movements r) <-> k ∈ misplaced r.
Proof.
  intros Hn. split.
  - unfold all_movements. rewrite map_map.
    rewrite (map_ext _ fst) by (intros [[t p] n]; done). apply (sublist_NoDup _ (iter (new_assignment r)).*1); [apply iter_NoDup|].
    apply fmap_sublist, sublist_filter.
  - intros k. rewrite list_elem_of_fmap. unfold misplaced. rewrite elem_of_filter, elem_of_dom. split.
    + intros (m & -> & (l & n & -> & Ht & Hc)%elem_of_all_movements). destruct l as [t p].
      change (move_key (movement r ((t, p), n))) with (t, p). rewrite Ht. split; [done|]. apply elem_of_dom. rewrite <- (target_dom r Hn). apply elem_of_dom. by eexists.
    + intros [Hne Hd]. assert (Hd' : is_Some (new_assignment r !! k)) by (by apply elem_of_dom; rewrite (target_dom r Hn); apply elem_of_dom).
      destruct Hd' as [n Ht]. exists (movement r (k, n)). split; [by destruct k|]. apply elem_of_all_movements.
      exists k, n. split; [done|]. split; [done|]. by rewrite Ht in Hne.
Qed.

Definition taken r : list PartitionMovement := take (max_concurrent_movements (config r)) (all_movements r).

Lemma elem_of_taken r m : m ∈ taken r -> m ∈ all_movements r.
Proof. unfold taken. intros Hm. rewrite <- (take_drop (max_concurrent_movements (config r)) (all_movements r)). apply elem_of_app. by left. Qed.

Lemma execute_lookup r (ms : list PartitionMovement) (a : gmap pkey string) k :
  NoDup (map move_key ms) ->
  (forall m, m ∈ ms -> m ∈ all_movements r) ->
  foldl (fun a m => <[(mv_topic m, mv_partition_id m) := mv_to_node m]> a) a ms !! k
  = if decide (k ∈ map move_key ms) then new_assignment r !! k else a !! k.
Proof.
  revert a. induction ms as [|m ms IH]; intros a Hnd Hall; [done|].
  cbn [map foldl]. apply NoDup_cons in Hnd as [Hm Hnd]. rewrite IH; [|done|intros m' Hm'; apply Hall; by right].
  destruct (proj1 (elem_of_all_movements r m) (Hall m (list_elem_of_here _ _))) as ([t p] & n & -> & Ht & _).
  cbn in *. destruct (decide (k ∈ map move_key ms)) as [Hk|Hk].
  - rewrite decide_True by (by right). done.
  - destruct (decide (k = (t, p))) as [-> |Hne].
    + rewrite decide_True by (by left). by rewrite lookup_insert_eq, Ht.
    + rewrite lookup_insert_ne by done. rewrite decide_False; [done|]. by intros [|]%elem_of_cons.
Qed.

Lemma round_current r :
  node_loads r <> ∅ ->
  forall k, current_assignment (round r) !! k
    = if decide (k ∈ map move_key (taken r)) then new_assignment r !! k else current_assignment r !! k.
Proof.
  intros Hn k. unfold round, execute_plan, compute_rebalance. rewrite bool_decide_false by done. cbn.
  apply execute_lookup; [|apply elem_of_taken]. destruct (move_keys r Hn) as [Hnd _].
  apply (sublist_NoDup _ _ Hnd), fmap_sublist, sublist_take.
Qed.

Lemma round_nodes r : node_loads (round r) = node_loads r /\ strategy (round r) = strategy r /\ config (round r) = config r.
Proof. done. Qed.

Lemma taken_misplaced r k : node_loads r <> ∅ -> k ∈ map move_key (taken r) -> k ∈ misplaced r.
Proof.
  intros Hn (m & -> & Hm%elem_of_taken)%list_elem_of_fmap. apply (move_keys r Hn).
  by apply list_elem_of_fmap_2.
Qed.

Lemma round_dom r : node_loads r <> ∅ -> dom (current_assignment (round r)) = dom (current_assignment r).
Proof.
  intros Hn. apply set_eq. intros k. rewrite !elem_of_dom, (round_current r Hn). case_decide as Hk; [|done].
  apply (taken_misplaced r k Hn), elem_of_filter in Hk as [_ Hk]. rewrite <- !elem_of_dom in *. by rewrite (target_dom r Hn).
Qed.

Lemma elem_of_misplaced r k :
  k ∈ misplaced r <-> k ∈ dom (current_assignment r) /\ current_assignment r !! k <> new_assignment r !! k.
Proof. unfold misplaced. rewrite elem_of_filter. tauto. Qed.

(** A partition is misplaced for the sticky strategy when its node is gone. *)
Lemma sticky_misplaced r k :
  node_loads r <> ∅ -> strategy r = StickyAssignment ->
  k ∈ misplaced r <-> k ∈ dom (current_assignment r) /\ ~ live r k.
Proof.
  intros Hn Hs. rewrite elem_of_misplaced. destruct (target_assigns r Hn) as [Hd Ht].
  assert (Hkeep : live r k -> new_assignment r !! k = current_assignment r !! k).
  { intros Hl. unfold new_assignment. rewrite Hs. by apply sticky_keeps. }
  split; intros [Hk Hne]; (split; [done|]).
  - intros Hl. by apply Hne; rewrite Hkeep.
  - intros He. apply Hne. rewrite elem_of_dom in Hk. destruct Hk as [n Hk]. unfold live. rewrite Hk.
    apply elem_of_nodes. apply (Ht k). congruence.
Qed.

Lemma misplaced_round r : node_loads r <> ∅ -> misplaced (round r) = misplaced r ∖ list_to_set (map move_key (taken r)).
Proof.
  intros Hn. apply set_eq. intros k. rewrite elem_of_difference, elem_of_list_to_set.
  destruct (decide (strategy r = StickyAssignment)) as [Hs|Hs].
  - rewrite !sticky_misplaced by done. rewrite (round_dom r Hn). unfold live at 1.
    rewrite (round_current r Hn). change (node_loads (round r)) with (node_loads r). case_decide as Hk.
    + split; [|tauto]. intros [Hd Hl]. destruct Hl. rewrite <- (target_dom r Hn), elem_of_dom in Hd.
      destruct Hd as [n Hn']. rewrite Hn'. apply elem_of_nodes. by apply (target_assigns r Hn) in Hn'.
    + unfold live. tauto.
  - assert (Ht : new_assignment (round r) = new_assignment r).
    { change (round r) with (set_current (current_assignment (round r)) r).
      apply target_stable; [done|by apply round_dom]. }
    rewrite !elem_of_misplaced, (round_dom r Hn), Ht, (round_current r Hn). case_decide as Hk; [|tauto].
    split; [by intros []|]. tauto.
Qed.

Lemma size_round r :
  node_loads r <> ∅ -> size (misplaced (round r)) = size (misplaced r) - max_concurrent_movements (config r).
Proof.
  intros Hn. rewrite (misplaced_round r Hn). destruct (move_keys r Hn) as [Hnd Hin].
  assert (Hm : misplaced r = list_to_set (map move_key (all_movements r))).
  { apply set_eq. intros k. by rewrite elem_of_list_to_set, Hin. }
  rewrite size_difference.
  - assert (Hndt : NoDup (map move_key (taken r))) by apply (sublist_NoDup _ _ Hnd), fmap_sublist, sublist_take.
    rewrite (size_list_to_set _ Hndt), Hm, (size_list_to_set _ Hnd), !length_map.
    unfold taken. rewrite length_take. lia.
  - intros k Hk%elem_of_list_to_set. by apply (taken_misplaced r).
Qed.

Lemma rounds_nodes r n :
  node_loads (Nat.iter n round r) = node_loads r /\ config (Nat.iter n round r) = config r
  /\ strategy (Nat.iter n round r) = strategy r.
Proof. induction n as [|n IH]; [done|]. cbn. by destruct IH as (<- & <- & <-). Qed.

Lemma size_rounds r n :
  node_loads r <> ∅ ->
  size (misplaced (Nat.iter n round r)) = size (misplaced r) - n * max_concurrent_movements (config r).
Proof.
  intros Hn. induction n as [|n IH]; [cbn; lia|]. rewrite Nat.iter_succ.
  destruct (rounds_nodes r n) as (Hl & Hc & _). rewrite size_round by by rewrite Hl. rewrite Hc, IH. lia.
Qed.

Lemma rounds_dom r n : node_loads r <> ∅ -> dom (current_assignment (Nat.iter n round r)) = dom (current_assignment r).
Proof.
  intros Hn. induction n as [|n IH]; [done|]. rewrite Nat.iter_succ. destruct (rounds_nodes r n) as (Hl & _).
  by rewrite round_dom, IH by by rewrite Hl.
Qed.

Lemma rounds_target r n :
  node_loads r <> ∅ -> strategy r <> StickyAssignment -> new_assignment (Nat.iter n round r) = new_assignment r.
Proof.
  intros Hn Hs. destruct (rounds_nodes r n) as (Hl & Hc & Hst).
  assert (Heq : Nat.iter n round r = set_current (current_assignment (Nat.iter n round r)) r).
  { destruct (Nat.iter n round r) as [s c l a], r as [s' c' l' a']. cbn in *. by subst. }
  rewrite Heq. apply target_stable; [done|by apply rounds_dom].
Qed.

Lemma rounds_live r n k node :
  node_loads r <> ∅ -> strategy r = StickyAssignment -> current_assignment r !! k = Some node ->
  is_Some (node_loads r !! node) -> current_assignment (Nat.iter n round r) !! k = Some node.
Proof.
  intros Hn Hs Hk Hlive. induction n as [|n IH]; [done|]. rewrite Nat.iter_succ.
  destruct (rounds_nodes r n) as (Hl & _ & Hst). rewrite round_current by by rewrite Hl.
  case_decide as Ht; [|done]. apply taken_misplaced, sticky_misplaced in Ht as [_ Hd]; [|by rewrite ?Hl, ?Hst..].
  destruct Hd. unfold live. by rewrite IH, Hl.
Qed.

Lemma no_misplaced r : misplaced r = ∅ -> node_loads r <> ∅ -> current_assignment r = new_assignment r.
Proof.
  intros Hm Hn. apply map_eq. intros k. destruct (decide (current_assignment r !! k = new_assignment r !! k)) as [|Hne]; [done|].
  assert (Hd : k ∉ dom (current_assignment r)).
  { intros Hd. assert (Hk : k ∈ misplaced r) by by apply elem_of_misplaced. rewrite Hm in Hk. set_solver. }
  pose proof Hd as Hd'. rewrite <- (target_dom r Hn) in Hd'. apply not_elem_of_dom in Hd, Hd'. congruence.
Qed.

Lemma balanced_plan r :
  node_loads r <> ∅ -> was_balanced (compute_rebalance r) = true <-> misplaced r = ∅.
Proof.
  intros Hn. unfold compute_rebalance. rewrite bool_decide_false by done. cbn. rewrite bool_decide_eq_true.
  destruct (move_keys r Hn) as [_ Hin]. split.
  - intros Hm. apply elem_of_equiv_empty_L. intros k. rewrite <- Hin, Hm. apply not_elem_of_nil.
  - intros Hm. destruct (all_movements r) as [|m ms]; [done|].
    assert (Hk : move_key m ∈ misplaced r) by (apply Hin; left). rewrite Hm in Hk. set_solver.
Qed.

(** Rebalancing converges: while the nodes stay as they are, rounds of computing a plan and
    executing it bring every partition to a node that exists, with at most
    [max_concurrent_movements] movements in each round and none to spare: after as many rounds
    as it takes to cover the misplaced partitions the plan is empty, and not before.  The
    sticky strategy moves no partition whose node exists; the others end in the assignment
    they aimed at from the start. *)
Theorem rebalance_converges r rounds :
  node_loads r <> ∅ ->
  let r' := Nat.iter rounds round r in
  length (movements (compute_rebalance r)) <= max_concurrent_movements (config r)
  /\ (was_balanced (compute_rebalance r') = true
      <-> size (misplaced r) <= rounds * max_concurrent_movements (config r))
  /\ (was_balanced (compute_rebalance r') = true ->
      (forall k, k ∈ dom (current_assignment r) -> live r' k)
      /\ dom (current_assignment r') = dom (current_assignment r)
      /\ (strategy r <> StickyAssignment -> current_assignment r' = new_assignment r)
      /\ (strategy r = StickyAssignment -> forall k, live r k -> current_assignment r' !! k = current_assignment r !! k)).
Proof.
  intros Hn r'. destruct (rounds_nodes r rounds) as (Hl & Hc & Hst). fold r' in Hl, Hc, Hst.
  assert (Hn' : node_loads r' <> ∅) by by rewrite Hl.
  split; [|split].
  - unfold compute_rebalance. rewrite bool_decide_false by done. cbn. rewrite length_take. lia.
  - rewrite (balanced_plan r' Hn').
    assert (He : misplaced r' = ∅ <-> size (misplaced r') = 0).
    { split; [by intros ->|]. intros Hs. by apply size_empty_inv, leibniz_equiv in Hs. }
    rewrite He. unfold r'. rewrite (size_rounds r _ Hn). lia.
  - rewrite (balanced_plan r' Hn'). intros Hm. pose proof (no_misplaced r' Hm Hn') as Hcur.
    assert (Hdom : dom (current_assignment r') = dom (current_assignment r)) by by apply rounds_dom.
    split; [|split; [done|split]].
    + intros k Hk. rewrite <- Hdom in Hk. unfold live. apply elem_of_dom in Hk as [n Hk]. rewrite Hk.
      apply elem_of_nodes. rewrite Hcur in Hk. by apply (target_assigns r' Hn') in Hk.
    + intros Hs. rewrite Hcur. by apply rounds_target.
    + intros Hs k Hk. unfold live in Hk. destruct (current_assignment r !! k) as [n|] eqn:Hkn; [|done].
      by apply rounds_live.
Qed.

(** ** Even targets *)

(** What the [j]-th of [m] nodes has after [i] partitions were dealt in turn. *)
Definition dealt (m i j : nat) : nat := i / m + (if decide (j < i mod m) then 1 else 0).

Lemma dealt_succ m i j :
  0 < m -> j < m -> dealt m (S i) j = dealt m i j + (if decide (j = i mod m) then 1 else 0).
Proof.
  intros Hm Hj. unfold dealt. pose proof (Nat.mod_upper_bound i m ltac:(lia)) as Hr.
  pose proof (Nat.div_mod_eq i m) as Hi. destruct (decide (S (i mod m) = m)) as [Hlast|Hlast].
  - rewrite <- (Nat.div_unique (S i) m (S (i / m)) 0) by lia. rewrite <- (Nat.mod_unique (S i) m (S (i / m)) 0) by lia.
    rewrite (decide_False (P := j < 0)) by lia. repeat case_decide; lia.
  - rewrite <- (Nat.div_unique (S i) m (i / m) (S (i mod m))) by lia.
    rewrite <- (Nat.mod_unique (S i) m (i / m) (S (i mod m))) by lia. repeat case_decide; lia.
Qed.

Lemma nth_lookup_Some (ns : list string) i n : ns !! i = Some n -> nth i ns EmptyString = n.
Proof. intros Hi. rewrite nth_lookup, Hi. done. Qed.

Lemma turn_lookup (ns : list string) i : 0 < length ns -> ns !! (i mod length ns) = Some (nth (i mod length ns) ns EmptyString).
Proof.
  intros Hm. destruct (lookup_lt_is_Some_2 ns (i mod length ns)) as [n Hn]; [apply Nat.mod_upper_bound; lia|].
  by rewrite (nth_lookup_Some _ _ _ Hn).
Qed.

Lemma sorted_lookup (ns : list string) j k a b :
  StronglySorted String.le ns -> j <= k -> ns !! j = Some a -> ns !! k = Some b -> String.le a b.
Proof.
  intros Hs Hle Ha Hb. destruct (decide (j = k)) as [-> |Hne].
  - assert (a = b) as -> by congruence. done.
  - revert j k Hle Hne Ha Hb. induction Hs as [|n ns Hs IH Hall]; intros [|j] [|k] Hle Hne Ha Hb; try done; try lia.
    + injection Ha as ->. cbn in Hb. rewrite Forall_forall in Hall. apply Hall. by apply (list_elem_of_lookup_2 _ k).
    + apply (IH j k); try done; lia.
Qed.

(** Counts as they are when partitions are dealt in turn. *)
Definition in_turn (ns : list string) (i : nat) (counts : gmap string Z) : Prop :=
  dom counts = list_to_set ns /\ forall j n, ns !! j = Some n -> counts !! n = Some (Z.of_nat (dealt (length ns) i j)).

Lemma best_in_turn ns i counts :
  StronglySorted String.le ns -> 0 < length ns -> in_turn ns i counts -> best_node counts = nth (i mod length ns) ns EmptyString.
Proof.
  intros Hs Hm [Hd Hc]. pose proof (turn_lookup ns i Hm) as Hn. set (n := nth (i mod length ns) ns EmptyString) in *.
  destruct (best_node_spec counts) as (c & Hb & Hle).
  { intros ->. pose proof (Hc _ _ Hn) as Hx. by rewrite lookup_empty in Hx. }
  pose proof (elem_of_dom_2 _ _ _ Hb) as Hin. rewrite Hd in Hin. apply elem_of_list_to_set, list_elem_of_lookup in Hin as [j Hj].
  pose proof (Hc j _ Hj) as Hcj. pose proof (Hc _ _ Hn) as Hcn. specialize (Hle n _ Hcn).
  assert (c = Z.of_nat (dealt (length ns) i j)) as -> by congruence.
  unfold load_le, dealt in Hle. cbn in Hle. rewrite (decide_False (P := i mod length ns < i mod length ns)) in Hle by lia.
  destruct (decide (j < i mod length ns)) as [Hlt|Hlt]; [rewrite decide_False in Hle by lia; lia|].
  rewrite decide_True in Hle by lia. destruct String.le_po as [_ Hanti]. apply Hanti; [done|].
  by apply (sorted_lookup ns (i mod length ns) j); [|lia|..].
Qed.

Lemma count_in_turn ns i counts :
  NoDup ns -> 0 < length ns -> (Z.of_nat (S i) < 2 ^ 32)%Z -> in_turn ns i counts ->
  in_turn ns (S i) (count_one (nth (i mod length ns) ns EmptyString) counts).
Proof.
  intros Hnd Hm Hi [Hd Hc]. split; [by rewrite dom_count_one|]. intros j n Hj.
  pose proof (turn_lookup ns i Hm) as Hn. set (t := nth (i mod length ns) ns EmptyString) in *.
  rewrite dealt_succ by (done || by apply (lookup_lt_Some _ _ n)). unfold count_one.
  destruct (decide (j = i mod length ns)) as [-> |Hne].
  - assert (n = t) as -> by congruence. rewrite lookup_alter_eq, (Hc _ _ Hj). cbn. f_equal.
    rewrite wrap_small; [lia|]. unfold in_u, dealt. rewrite decide_False by lia.
    pose proof (Nat.Div0.div_le_upper_bound i (length ns) i). nia.
  - rewrite lookup_alter_ne; [by rewrite (Hc _ _ Hj), Nat.add_0_r|]. intros ->. apply Hne. by apply (NoDup_lookup ns _ _ n).
Qed.

Lemma to_best_in_turn ns keys i counts a :
  NoDup ns -> StronglySorted String.le ns -> 0 < length ns -> (Z.of_nat (i + length keys) < 2 ^ 32)%Z ->
  in_turn ns i counts -> to_best keys counts a = round_robin ns i keys a.
Proof.
  intros Hnd Hs Hm. revert i counts a. induction keys as [|k keys IH]; intros i counts a Hi Ht; [done|]. cbn in *.
  rewrite (best_in_turn ns i counts) by done. apply IH; [lia|]. apply count_in_turn; [done..|lia|done].
Qed.

Lemma round_robin_count ns n j : NoDup ns -> ns !! j = Some n -> forall keys i (a : gmap pkey string),
  NoDup keys -> (forall k, k ∈ keys -> a !! k = None) ->
  size (filter (fun e : pkey * string => e.2 = n) a) = dealt (length ns) i j ->
  size (filter (fun e : pkey * string => e.2 = n) (round_robin ns i keys a)) = dealt (length ns) (i + length keys) j.
Proof.
  intros Hnd Hj. pose proof (lookup_lt_Some _ _ _ Hj) as Hlt.
  induction keys as [|k keys IH]; intros i a Hk Ha Hc; cbn [round_robin length]; [by rewrite Nat.add_0_r|].
  apply NoDup_cons in Hk as [Hkn Hk]. replace (i + S (length keys)) with (S i + length keys) by lia. apply IH; [done| |].
  - intros l Hl. rewrite lookup_insert_ne by (intros ->; done). apply Ha. by right.
  - rewrite dealt_succ by lia. pose proof (turn_lookup ns i ltac:(lia)) as Hn.
    assert (Hka : a !! k = None) by (apply Ha; left). case_decide as Hi.
    + assert (nth (i mod length ns) ns EmptyString = n) as -> by (subst j; congruence).
      rewrite map_filter_insert_True by done. rewrite map_size_insert_None; [lia|].
      apply map_lookup_filter_None. by left.
    + rewrite map_filter_insert_not'; [lia| |by rewrite Hka]. cbn. intros Heq. apply Hi.
      rewrite Heq in Hn. by apply (NoDup_lookup ns _ _ n).
Qed.

(** The strategies "round robin" and "least loaded" are one: both deal the partitions, in
    order of their names, to the nodes in turn, whatever loads are reported, so that of [m]
    nodes the first [size mod m] get one partition more than the others. *)
Theorem least_loaded_is_round_robin r :
  node_loads r <> ∅ -> (Z.of_nat (size (current_assignment r)) < 2 ^ 32)%Z ->
  assign_least_loaded r = assign_round_robin r
  /\ forall j n, nodes r !! j = Some n ->
       size (filter (fun e : pkey * string => e.2 = n) (assign_round_robin r))
       = dealt (length (nodes r)) (size (current_assignment r)) j.
Proof.
  intros Hn%nodes_nonempty Hs. rewrite <- length_partitions in *. split.
  - apply (to_best_in_turn (nodes r)); [apply NoDup_nodes| |done|done|].
    + unfold nodes, sort_agents. apply StronglySorted_merge_sort; apply _.
    + split; [apply dom_no_load|]. intros j n Hj. unfold dealt. rewrite Nat.Div0.div_0_l, Nat.Div0.mod_0_l.
      rewrite decide_False by lia. unfold no_load. apply elem_of_list_to_map_1.
      * rewrite map_map. cbn. rewrite map_id. apply NoDup_nodes.
      * apply list_elem_of_fmap. exists n. split; [done|]. by apply (list_elem_of_lookup_2 _ j).
  - intros j n Hj. apply (round_robin_count (nodes r) n j (NoDup_nodes r) Hj _ 0); [apply NoDup_partitions|done|].
    unfold dealt. rewrite Nat.Div0.div_0_l, Nat.Div0.mod_0_l, decide_False by lia. by rewrite map_filter_empty.
Qed.
End rebalancer.

(** ** Witnesses *)

#[export] Instance toy_hash : StringHash := fun s => Z.of_nat (String.length s).

Definition three_nodes (s : RebalanceStrategy) : PartitionRebalancer unit :=
  set_assignment "t" 0 "n0" (set_assignment "t" 1 "n0" (set_assignment "t" 2 "n1" (set_assignment "t" 3 "n0"
    (add_node "n3" (mk_node_load 7 tt tt) (add_node "n1" (mk_node_load 0 tt tt) (add_node "n2" (mk_node_load 0 tt tt)
      (with_config s (mk_rebalance_config 2 false tt)))))))).

Lemma rebalance_converges_witness :
  let r := three_nodes StickyAssignment in
  was_balanced (compute_rebalance (Nat.iter 1 round r)) = false
  /\ was_balanced (compute_rebalance (Nat.iter 2 round r)) = true
  /\ current_assignment (Nat.iter 2 round r) !! ("t"%string, 2%Z) = Some "n1"%string.
Proof.
  set (r := three_nodes StickyAssignment).
  assert (Hn : node_loads r <> ∅) by (intros Hn; apply (f_equal (lookup "n1"%string)) in Hn; discriminate).
  split; [vm_compute; reflexivity|].
  assert (Hb : was_balanced (compute_rebalance (Nat.iter 2 round r)) = true).
  { apply (proj1 (proj2 (rebalance_converges r 2 Hn))). apply Nat.leb_le. vm_compute. reflexivity. }
  split; [exact Hb|].
  destruct (proj2 (proj2 (rebalance_converges r 2 Hn)) Hb) as (_ & _ & _ & Hs).
  rewrite (Hs eq_refl ("t"%string, 2%Z)); [vm_compute; reflexivity|]. vm_compute. by eexists.
Defined.

Lemma least_loaded_is_round_robin_witness :
  let r := three_nodes LeastLoaded in
  assign_least_loaded r = assign_round_robin r
  /\ size (filter (fun e : pkey * string => e.2 = "n1"%string) (assign_round_robin r)) = 2.
Proof.
  set (r := three_nodes LeastLoaded).
  assert (Hn : node_loads r <> ∅) by (intros Hn; apply (f_equal (lookup "n1"%string)) in Hn; discriminate).
  assert (Hs : (Z.of_nat (size (current_assignment r)) < 2 ^ 32)%Z) by (apply Z.ltb_lt; vm_compute; reflexivity).
  destruct (least_loaded_is_round_robin r Hn Hs) as [Heq Heven]. split; [exact Heq|].
  rewrite (Heven 0 "n1"%string ltac:(vm_compute; reflexivity)). vm_compute. reflexivity.
Defined.
