(* ===== verification/WriterPool.v ===== *)
(** * The pool of partition writers (crates/streamhouse-storage/src/writer_pool.rs)

    One writer per organization, topic and partition, opened at its first use.  The pool holds
    the writers by reference and a writer is used under its lock, so the map of the pool is
    also where their state lives ([put_writer]).  Snapshots of the metadata are not
    modelled. *)

From S2P Require Import Prelude HashMap Core External Segment StorageError WalHandle Catalog PartitionWriter TopicWriter.

Section pool.
Context `{HashOrder} `{HC : Codecs} `{HP : ObjectPaths} `{HJ : JsonMaps}.

Abbreviation writer_key := (string * string * Z)%type.

(** The handles of the flush tasks: where there is one, its task has the pool's writer. *)
Record WriterPool : Type := mk_writer_pool {
  writers : gmap writer_key PartitionWriter;
  durable_flush_handles : gset writer_key;
  wp_config : WriteConfig
}.

Definition new (config : WriteConfig) : WriterPool := mk_writer_pool ∅ ∅ config.

(** The writer after a call that had its lock. *)
Definition put_writer (key : writer_key) (w : PartitionWriter) (p : WriterPool) : WriterPool :=
  mk_writer_pool (<[key := w]> (writers p)) (durable_flush_handles p) (wp_config p).

Definition pool_prefix (org_id : string) : string :=
  if bool_decide (org_id = EmptyString) then "data" else "org-" +:+ org_id +:+ "/data".

(** [file]: the log file of the partition that the new writer finds. *)
Definition get_writer (org_id topic : string) (partition : Z) (file : bytes) (env : new_env) (wd : world) (p : WriterPool)
  : WriterPool * outcome StorageError PartitionWriter :=
  let key := (org_id, topic, partition) in
  match writers p !! key with
  | Some writer => (p, Ok writer)
  | None =>
      match PartitionWriter.new org_id topic partition (wp_config p) (pool_prefix org_id) file env wd with
      | Ok writer => (put_writer key writer p, Ok writer)
      | Err e => (p, Err e)
      | Panic => (p, Panic)
      end
  end.

Definition read_buffered (org_id topic : string) (partition start_offset : Z) (max_records : nat) (p : WriterPool)
  : list Record_ :=
  match writers p !! (org_id, topic, partition) with
  | Some writer => PartitionWriter.read_buffered start_offset max_records writer
  | None => []
  end.

(** A flush of the task: it answers all who wait for it alike, this request among them. *)
Definition task_flush (key : writer_key) (env : roll_env) (w : PartitionWriter) (wd : world) (p : WriterPool)
  : WriterPool * world * outcome StorageError () :=
  let '(w, wd, answers) := do_flush env [0%nat] w wd in
  (put_writer key w p, wd, match answers with (_, r) :: _ => r | [] => Ok () end).

(** The handle is made at the first request. *)
Definition request_durable_flush (org_id topic : string) (partition : Z) (file : bytes) (open_env : new_env) (env : roll_env)
    (wd : world) (p : WriterPool) : WriterPool * world * outcome StorageError () :=
  let key := (org_id, topic, partition) in
  let '(p, writer) := get_writer org_id topic partition file open_env wd p in
  match writer with
  | Ok writer =>
      let p := mk_writer_pool (writers p) ({[key]} ∪ durable_flush_handles p) (wp_config p) in
      task_flush key env writer wd p
  | Err e => (p, wd, Err e)
  | Panic => (p, wd, Panic)
  end.

(** Failures are only counted; a panic ends the task. *)
Fixpoint flush_writers (env : writer_key -> roll_env) (ws : list (writer_key * PartitionWriter)) (wd : world) (p : WriterPool)
  : WriterPool * world * outcome StorageError () :=
  match ws with
  | [] => (p, wd, Ok ())
  | (key, w) :: ws =>
      match flush_durable (env key) w wd with
      | (w, wd, Panic) => (put_writer key w p, wd, Panic)
      | (w, wd, _) => flush_writers env ws wd (put_writer key w p)
      end
  end.

Definition flush_all (env : writer_key -> roll_env) (wd : world) (p : WriterPool) : WriterPool * world * outcome StorageError () :=
  flush_writers env (iter (writers p)) wd p.

Definition writer_count (p : WriterPool) : nat := size (writers p).

Definition shutdown (env : writer_key -> roll_env) (wd : world) (p : WriterPool) : WriterPool * world * outcome StorageError () :=
  flush_all env wd p.
End pool.
