(* ===== verification/ProducerStore.v ===== *)
(** * Producers, sequences and transactions of the metadata store (crates/streamhouse-metadata/src/store.rs)

    The tables behind exactly-once producing in the SQLite store, one function per method, each
    SQL statement being what it does to the rows, with the keys and cascades of the
    migrations.  Left out are the columns that no query reads back, the identifiers of
    markers and the metadata of a producer.  Texts go into most statements by [format!]
    between quotes: a statement means what is written here when they hold no quote
    ([unquoted]); what the database makes of it otherwise is a parameter ([SqlText]). *)

From stdpp Require Import pretty sorting.
From S2P Require Import Prelude HashMap MetadataError.

Inductive ProducerState : Type := Active | Fenced | Expired.

#[export] Instance ProducerState_eq_dec : EqDecision ProducerState.
Proof. solve_decision. Defined.

Inductive TransactionState : Type := Ongoing | Preparing | Committed | Aborted.

#[export] Instance TransactionState_eq_dec : EqDecision TransactionState.
Proof. solve_decision. Defined.

Inductive TransactionMarkerType : Type := Commit | Abort.

#[export] Instance TransactionMarkerType_eq_dec : EqDecision TransactionMarkerType.
Proof. solve_decision. Defined.

Record InitProducerConfig : Type := mk_init_producer {
  ip_transactional_id : option string; ip_organization_id : option string }.

Record Producer : Type := mk_producer {
  pr_id : string;
  pr_organization_id : option string;
  pr_transactional_id : option string;
  pr_epoch : Z;
  pr_state : ProducerState;
  pr_created_at : Z;
  pr_last_heartbeat : Z;
  pr_numeric_id : option Z
}.

Record Transaction : Type := mk_transaction {
  tx_transaction_id : string;
  tx_producer_id : string;
  tx_state : TransactionState;
  tx_timeout_ms : Z;
  tx_started_at : Z;
  tx_completed_at : option Z
}.

Record TransactionPartition : Type := mk_txn_partition {
  tpa_transaction_id : string;
  tpa_topic : string;
  tpa_partition_id : Z;
  tpa_first_offset : Z;
  tpa_last_offset : Z
}.

Record TransactionMarker : Type := mk_marker {
  mk_transaction_id : string;
  mk_topic : string;
  mk_partition_id : Z;
  mk_offset : Z;
  mk_marker_type : TransactionMarkerType;
  mk_timestamp : Z
}.

(** ** Tables: producers and transactions by their id, a transaction with its organization,
    sequences by producer, topic and partition, stable offsets by topic and partition. *)
Record db : Type := mk_db {
  producers : gmap string Producer;
  next_id : Z;
  producer_sequences : gmap (string * string * Z) Z;
  transactions : gmap string (Transaction * option string);
  transaction_partitions : gmap (string * string * Z) (Z * Z);
  transaction_markers : list TransactionMarker;
  partition_lso : gmap (string * Z) Z
}.

Definition empty_db : db := mk_db ∅ 1 ∅ ∅ ∅ [] ∅.

Definition set_producers x (d : db) : db :=
  mk_db x (next_id d) (producer_sequences d) (transactions d) (transaction_partitions d) (transaction_markers d) (partition_lso d).
Definition set_sequences x (d : db) : db :=
  mk_db (producers d) (next_id d) x (transactions d) (transaction_partitions d) (transaction_markers d) (partition_lso d).
Definition set_transactions x (d : db) : db :=
  mk_db (producers d) (next_id d) (producer_sequences d) x (transaction_partitions d) (transaction_markers d) (partition_lso d).
Definition set_txn_partitions x (d : db) : db :=
  mk_db (producers d) (next_id d) (producer_sequences d) (transactions d) x (transaction_markers d) (partition_lso d).
Definition set_markers x l (d : db) : db :=
  mk_db (producers d) (next_id d) (producer_sequences d) (transactions d) (transaction_partitions d) x l.

(** ** Texts in statements *)

Class SqlText := other_statement : forall {A : Type}, list string -> db -> db * outcome MetadataError A.

Fixpoint unquoted (s : string) : bool :=
  match s with EmptyString => true | String a s => negb (bool_decide (a = Ascii.ascii_of_nat 39)) && unquoted s end.

Definition foreign_key_error : MetadataError := DatabaseError "FOREIGN KEY constraint failed".
Definition unique_error : MetadataError := DatabaseError "UNIQUE constraint failed".

(** [NULLIF(text, '')]. *)
Definition nullif (s : option string) : option string :=
  match s with Some s => if bool_decide (s = ""%string) then None else Some s | None => None end.

Section store.
Context `{HashOrder} `{SqlText}.

Definition quoted {A} (texts : list string) (run : db -> db * outcome MetadataError A) (d : db)
  : db * outcome MetadataError A :=
  if forallb unquoted texts then run d else other_statement texts d.

Definition optional (s : option string) : list string := match s with Some s => [s] | None => [] end.

(** ** Producers *)

Definition get_producer (producer_id : string) (d : db) : db * outcome MetadataError (option Producer) :=
  quoted [producer_id] (fun d => (d, Ok (producers d !! producer_id))) d.

(** The first of the rows, in whatever order they come. *)
Definition get_producer_by_transactional_id (transactional_id : string) (organization_id : option string) (d : db)
  : db * outcome MetadataError (option Producer) :=
  quoted (transactional_id :: optional organization_id)
    (fun d => (d, Ok (head (filter (fun p => pr_transactional_id p = Some transactional_id
                                              /\ pr_organization_id p = organization_id)
                              (map snd (iter (producers d))))))) d.

Definition get_producer_by_numeric_id (numeric_id : Z) (d : db) : db * outcome MetadataError (option Producer) :=
  (d, Ok (head (filter (fun p => pr_numeric_id p = Some numeric_id) (map snd (iter (producers d)))))).

Definition set_epoch (epoch now : Z) (p : Producer) : Producer :=
  mk_producer (pr_id p) (pr_organization_id p) (pr_transactional_id p) epoch Active (pr_created_at p) now (pr_numeric_id p).

(** UPDATE producers SET epoch, for a producer that was read before. *)
Definition bump_epoch (producer : Producer) (now : Z) (d : db) : db * outcome MetadataError Producer :=
  let new_epoch := wrap 32 (pr_epoch producer + 1) in
  (set_producers (alter (set_epoch new_epoch now) (pr_id producer) (producers d)) d, Ok (set_epoch new_epoch now producer)).

(** The pair of organization and transactional id is unique where neither is NULL. *)
Definition same_transactional (p q : Producer) : bool :=
  match pr_organization_id p, pr_transactional_id p, pr_organization_id q, pr_transactional_id q with
  | Some o, Some t, Some o', Some t' => bool_decide (o = o' /\ t = t')
  | _, _, _, _ => false
  end.

Definition insert_producer (config : InitProducerConfig) (producer_id : string) (now : Z) (d : db)
  : db * outcome MetadataError Producer :=
  let p org txn := mk_producer producer_id org txn 0 Active now now None in
  let row := p (nullif (ip_organization_id config)) (nullif (ip_transactional_id config)) in
  quoted (optional (ip_organization_id config) ++ optional (ip_transactional_id config))
    (fun d =>
       if bool_decide (is_Some (producers d !! producer_id))
          || existsb (same_transactional row) (map snd (iter (producers d)))
       then (d, Err unique_error)
       else (set_producers (<[producer_id := row]> (producers d)) d,
             Ok (p (ip_organization_id config) (ip_transactional_id config)))) d.

(** The look-up of [init_producer], and what follows it. *)
Definition init_lookup (config : InitProducerConfig) (d : db) : db * outcome MetadataError (option Producer) :=
  match ip_transactional_id config with
  | Some transactional_id => get_producer_by_transactional_id transactional_id (ip_organization_id config) d
  | None => (d, Ok None)
  end.

Definition init_finish (config : InitProducerConfig) (existing : option Producer) (producer_id : string) (now : Z) (d : db)
  : db * outcome MetadataError Producer :=
  match existing with
  | Some producer => bump_epoch producer now d
  | None => insert_producer config producer_id now d
  end.

Definition init_producer (config : InitProducerConfig) (producer_id : string) (now : Z) (d : db)
  : db * outcome MetadataError Producer :=
  match init_lookup config d with
  | (d, Ok existing) => init_finish config existing producer_id now d
  | (d, Err e) => (d, Err e)
  | (d, Panic) => (d, Panic)
  end.

Definition update_producer_heartbeat (producer_id : string) (now : Z) (d : db) : db * outcome MetadataError () :=
  quoted [producer_id]
    (fun d => (set_producers (alter (fun p => mk_producer (pr_id p) (pr_organization_id p) (pr_transactional_id p)
                 (pr_epoch p) (pr_state p) (pr_created_at p) now (pr_numeric_id p)) producer_id (producers d)) d, Ok ())) d.

Definition fence_producer (producer_id : string) (d : db) : db * outcome MetadataError () :=
  quoted [producer_id]
    (fun d =>
       match producers d !! producer_id with
       | None => (d, Err (NotFoundError ("Producer " +:+ producer_id +:+ " not found")))
       | Some _ =>
           (set_producers (alter (fun p => mk_producer (pr_id p) (pr_organization_id p) (pr_transactional_id p)
              (pr_epoch p) Fenced (pr_created_at p) (pr_last_heartbeat p) (pr_numeric_id p)) producer_id (producers d)) d, Ok ())
       end) d.

(** What refers to a transaction goes with it, and what refers to a producer. *)
Definition delete_transactions (doomed : gset string) (d : db) : db :=
  set_markers (filter (fun m => mk_transaction_id m ∉ doomed) (transaction_markers d)) (partition_lso d)
    (set_txn_partitions (filter (fun e => e.1.1.1 ∉ doomed) (transaction_partitions d))
       (set_transactions (filter (fun e => e.1 ∉ doomed) (transactions d)) d)).

Definition delete_producers (doomed : gset string) (d : db) : db :=
  let lost := dom (filter (fun e => tx_producer_id e.2.1 ∈ doomed) (transactions d)) in
  delete_transactions lost
    (set_sequences (filter (fun e => e.1.1.1 ∉ doomed) (producer_sequences d))
       (set_producers (filter (fun e => e.1 ∉ doomed) (producers d)) d)).

Definition cleanup_expired_producers (timeout_ms now : Z) (d : db) : db * outcome MetadataError Z :=
  let cutoff := swrap 64 (now - timeout_ms) in
  let doomed := filter (fun e => pr_last_heartbeat e.2 < cutoff /\ pr_state e.2 <> Active) (producers d) in
  (delete_producers (dom doomed) d, Ok (Z.of_nat (size doomed))).

Definition allocate_numeric_producer_id (producer_id : string) (d : db) : db * outcome MetadataError Z :=
  let numeric_id := next_id d in
  let d := mk_db (producers d) (next_id d + 1) (producer_sequences d) (transactions d) (transaction_partitions d)
             (transaction_markers d) (partition_lso d) in
  quoted [producer_id]
    (fun d =>
       if existsb (fun e => bool_decide (pr_numeric_id e.2 = Some numeric_id /\ e.1 <> producer_id)) (iter (producers d))
       then (d, Err unique_error)
       else (set_producers (alter (fun p => mk_producer (pr_id p) (pr_organization_id p) (pr_transactional_id p) (pr_epoch p)
               (pr_state p) (pr_created_at p) (pr_last_heartbeat p) (Some numeric_id)) producer_id (producers d)) d,
             Ok numeric_id)) d.

(** ** Sequences *)

Definition get_producer_sequence (producer_id topic : string) (partition_id : Z) (d : db)
  : db * outcome MetadataError (option Z) :=
  quoted [producer_id; topic] (fun d => (d, Ok (producer_sequences d !! (producer_id, topic, partition_id)))) d.

(** INSERT .. ON CONFLICT DO UPDATE; the producer must exist. *)
Definition put_sequence {A} (a : A) (producer_id topic : string) (partition_id sequence : Z) (d : db)
  : db * outcome MetadataError A :=
  if bool_decide (is_Some (producers d !! producer_id))
  then (set_sequences (<[(producer_id, topic, partition_id) := sequence]> (producer_sequences d)) d, Ok a)
  else (d, Err foreign_key_error).

Definition update_producer_sequence (producer_id topic : string) (partition_id sequence : Z) (d : db)
  : db * outcome MetadataError () :=
  quoted [producer_id; topic] (put_sequence () producer_id topic partition_id sequence) d.

Definition sequence_gap (expected got : Z) : MetadataError :=
  MSequenceError ("Sequence gap: expected " +:+ pretty expected +:+ ", got " +:+ pretty got).

Definition check_and_update_sequence (producer_id topic : string) (partition_id base_sequence record_count : Z) (d : db)
  : db * outcome MetadataError bool :=
  quoted [producer_id; topic]
    (fun d =>
       let last_sequence := default (-1) (producer_sequences d !! (producer_id, topic, partition_id)) in
       if base_sequence <=? last_sequence then (d, Ok false)
       else if base_sequence >? last_sequence + 1 then (d, Err (sequence_gap (last_sequence + 1) base_sequence))
       else put_sequence true producer_id topic partition_id (swrap 64 (base_sequence + record_count - 1)) d) d.

(** ** Transactions *)

(** Every call inserts a new transaction. *)
Definition insert_transaction (organization : option string) (transaction_id producer_id : string) (timeout_ms now : Z)
    (d : db) : db * outcome MetadataError Transaction :=
  let row := mk_transaction transaction_id producer_id Ongoing timeout_ms now None in
  if bool_decide (is_Some (transactions d !! transaction_id)) then (d, Err unique_error)
  else if bool_decide (is_Some (producers d !! producer_id))
  then (set_transactions (<[transaction_id := (row, organization)]> (transactions d)) d, Ok row)
  else (d, Err foreign_key_error).

Definition begin_transaction (producer_id transaction_id : string) (timeout_ms now : Z) (d : db)
  : db * outcome MetadataError Transaction :=
  quoted [producer_id] (insert_transaction None transaction_id producer_id timeout_ms now) d.

Definition begin_transaction_for_org (org_id producer_id transaction_id : string) (timeout_ms now : Z) (d : db)
  : db * outcome MetadataError Transaction :=
  insert_transaction (Some org_id) transaction_id producer_id timeout_ms now d.

Definition get_transaction (transaction_id : string) (d : db) : db * outcome MetadataError (option Transaction) :=
  quoted [transaction_id] (fun d => (d, Ok (fst <$> transactions d !! transaction_id))) d.

(** The rows of a condition on the organization, where there is one. *)
Definition in_org (org_id organization : option string) : bool :=
  match org_id with Some o => bool_decide (organization = Some o) | None => true end.

Definition get_transaction_for_org (org_id transaction_id : string) (d : db) : option Transaction :=
  '(t, organization) ← transactions d !! transaction_id;
  if in_org (Some org_id) organization then Some t else None.

(** ON CONFLICT DO NOTHING. *)
Definition insert_txn_partition (transaction_id topic : string) (partition_id first_offset : Z) (d : db)
  : db * outcome MetadataError () :=
  let k := (transaction_id, topic, partition_id) in
  match transaction_partitions d !! k with
  | Some _ => (d, Ok ())
  | None =>
      if bool_decide (is_Some (transactions d !! transaction_id))
      then (set_txn_partitions (<[k := (first_offset, first_offset)]> (transaction_partitions d)) d, Ok ())
      else (d, Err foreign_key_error)
  end.

Definition add_transaction_partition (transaction_id topic : string) (partition_id first_offset : Z) (d : db)
  : db * outcome MetadataError () :=
  quoted [transaction_id; topic] (insert_txn_partition transaction_id topic partition_id first_offset) d.

Definition not_in_org (transaction_id org_id : string) : MetadataError :=
  MTransactionError ("Transaction " +:+ transaction_id +:+ " not found for organization " +:+ org_id).

Definition add_transaction_partition_for_org (org_id transaction_id topic : string) (partition_id first_offset : Z) (d : db)
  : db * outcome MetadataError () :=
  match get_transaction_for_org org_id transaction_id d with
  | None => (d, Err (not_in_org transaction_id org_id))
  | Some _ => add_transaction_partition transaction_id topic partition_id first_offset d
  end.

Definition update_transaction_partition_offset (transaction_id topic : string) (partition_id last_offset : Z) (d : db)
  : db * outcome MetadataError () :=
  quoted [transaction_id; topic]
    (fun d => (set_txn_partitions (alter (fun o => (o.1, last_offset)) (transaction_id, topic, partition_id)
                                     (transaction_partitions d)) d, Ok ())) d.

(** ORDER BY topic, partition_id. *)
Definition tpa_le (a b : TransactionPartition) : Prop :=
  if decide (tpa_topic a = tpa_topic b) then tpa_partition_id a <= tpa_partition_id b
  else String.le (tpa_topic a) (tpa_topic b).
#[export] Instance tpa_le_dec : RelDecision tpa_le.
Proof. intros a b. unfold tpa_le. destruct (decide _); apply _. Defined.

Definition txn_partition_rows (transaction_id : string) (d : db) : list TransactionPartition :=
  merge_sort tpa_le
    (map (fun e => mk_txn_partition e.1.1.1 e.1.1.2 e.1.2 e.2.1 e.2.2)
       (filter (fun e => e.1.1.1 = transaction_id) (iter (transaction_partitions d)))).

Definition get_transaction_partitions (transaction_id : string) (d : db)
  : db * outcome MetadataError (list TransactionPartition) :=
  quoted [transaction_id] (fun d => (d, Ok (txn_partition_rows transaction_id d))) d.

Definition get_transaction_partitions_for_org (org_id transaction_id : string) (d : db) : list TransactionPartition :=
  match get_transaction_for_org org_id transaction_id d with
  | Some _ => txn_partition_rows transaction_id d
  | None => []
  end.

(** UPDATE transactions SET state, for a row in one of the states. *)
Definition set_state (s : TransactionState) (completed : option Z) (t : Transaction) : Transaction :=
  mk_transaction (tx_transaction_id t) (tx_producer_id t) s (tx_timeout_ms t) (tx_started_at t) completed.

Definition undecided (t : Transaction) : bool :=
  match tx_state t with Ongoing | Preparing => true | _ => false end.

(** The rows that a statement with these conditions changes. *)
Definition find_transaction (org_id : option string) (transaction_id : string) (p : Transaction -> bool) (d : db)
  : option (Transaction * option string) :=
  '(t, organization) ← transactions d !! transaction_id;
  if in_org org_id organization && p t then Some (t, organization) else None.

Definition prepare (org_id : option string) (transaction_id : string) (d : db) : db * outcome MetadataError () :=
  match find_transaction org_id transaction_id (fun t => bool_decide (tx_state t = Ongoing)) d with
  | None => (d, Err (MTransactionError ("Transaction " +:+ transaction_id +:+ " is not in ongoing state")))
  | Some (t, organization) =>
      (set_transactions (<[transaction_id := (set_state Preparing (tx_completed_at t) t, organization)]> (transactions d)) d, Ok ())
  end.

Definition prepare_transaction (transaction_id : string) (d : db) : db * outcome MetadataError () :=
  quoted [transaction_id] (prepare None transaction_id) d.
Definition prepare_transaction_for_org (org_id transaction_id : string) (d : db) : db * outcome MetadataError () :=
  prepare (Some org_id) transaction_id d.

(** A marker, and the stable offset, which only grows, even when the transaction aborts. *)
Definition mark (transaction_id : string) (kind : TransactionMarkerType) (now : Z) (d : db) (p : TransactionPartition) : db :=
  let k := (tpa_topic p, tpa_partition_id p) in
  let stable := tpa_last_offset p + 1 in
  set_markers (transaction_markers d ++ [mk_marker transaction_id (tpa_topic p) (tpa_partition_id p) (tpa_last_offset p) kind now])
    (<[k := match partition_lso d !! k with Some lso => Z.max lso stable | None => stable end]> (partition_lso d)) d.

(** The transaction of the database that decides: the state, then each partition. *)
Definition decide_txn (org_id : option string) (transaction_id : string) (s : TransactionState) (kind : TransactionMarkerType)
    (refused : string) (partitions : list TransactionPartition) (now : Z) (d : db) : db * outcome MetadataError () :=
  match find_transaction org_id transaction_id undecided d with
  | None => (d, Err (MTransactionError ("Transaction " +:+ transaction_id +:+ " cannot be " +:+ refused)))
  | Some (t, organization) =>
      quoted (map tpa_topic partitions)
        (fun d => (foldl (mark transaction_id kind now)
                     (set_transactions (<[transaction_id := (set_state s (Some now) t, organization)]> (transactions d)) d)
                     partitions, Ok ())) d
  end.

(** The partitions are read before. *)
Definition end_transaction (org_id : option string) (transaction_id : string) (s : TransactionState)
    (kind : TransactionMarkerType) (refused : string) (now : Z) (d : db) : db * outcome MetadataError () :=
  match get_transaction_partitions transaction_id d with
  | (d, Ok partitions) =>
      quoted [transaction_id] (decide_txn org_id transaction_id s kind refused partitions now) d
  | (d, Err e) => (d, Err e)
  | (d, Panic) => (d, Panic)
  end.

Definition commit_transaction (transaction_id : string) (now : Z) (d : db) : db * outcome MetadataError Z :=
  let '(d, r) := end_transaction None transaction_id Committed Commit "committed" now d in (d, _ ← r; Ok now).
Definition abort_transaction (transaction_id : string) (now : Z) (d : db) : db * outcome MetadataError () :=
  end_transaction None transaction_id Aborted Abort "aborted" now d.
Definition commit_transaction_for_org (org_id transaction_id : string) (now : Z) (d : db) : db * outcome MetadataError Z :=
  let '(d, r) := end_transaction (Some org_id) transaction_id Committed Commit "committed" now d in (d, _ ← r; Ok now).
Definition abort_transaction_for_org (org_id transaction_id : string) (now : Z) (d : db) : db * outcome MetadataError () :=
  end_transaction (Some org_id) transaction_id Aborted Abort "aborted" now d.

Definition cleanup_completed_transactions (max_age_ms now : Z) (d : db) : db * outcome MetadataError Z :=
  let cutoff := swrap 64 (now - max_age_ms) in
  let old (t : Transaction) := match tx_completed_at t with Some completed_at => completed_at <? cutoff | None => false end in
  let doomed := filter (fun e => old e.2.1 = true) (transactions d) in
  (delete_transactions (dom doomed) d, Ok (Z.of_nat (size doomed))).

(** ** Markers and stable offsets *)

Definition add_transaction_marker (marker : TransactionMarker) (d : db) : db * outcome MetadataError () :=
  quoted [mk_transaction_id marker; mk_topic marker]
    (fun d =>
       if bool_decide (is_Some (transactions d !! mk_transaction_id marker))
       then (set_markers (transaction_markers d ++ [marker]) (partition_lso d) d, Ok ())
       else (d, Err foreign_key_error)) d.

Definition by_offset (a b : TransactionMarker) : Prop := mk_offset a <= mk_offset b.
#[export] Instance by_offset_dec : RelDecision by_offset.
Proof. intros a b. unfold by_offset. apply _. Defined.

Definition get_transaction_markers (topic : string) (partition_id min_offset : Z) (d : db)
  : db * outcome MetadataError (list TransactionMarker) :=
  quoted [topic]
    (fun d => (d, Ok (merge_sort by_offset
       (filter (fun m => mk_topic m = topic /\ mk_partition_id m = partition_id /\ min_offset <= mk_offset m)
          (transaction_markers d))))) d.

Definition get_last_stable_offset (topic : string) (partition_id : Z) (d : db) : db * outcome MetadataError Z :=
  quoted [topic] (fun d => (d, Ok (match partition_lso d !! (topic, partition_id) with Some lso => wrap 64 lso | None => 0 end))) d.

Definition update_last_stable_offset (topic : string) (partition_id lso : Z) (d : db) : db * outcome MetadataError () :=
  quoted [topic]
    (fun d => (set_markers (transaction_markers d) (<[(topic, partition_id) := lso]> (partition_lso d)) d, Ok ())) d.
End store.

(** A database that refuses such statements, for the witnesses. *)
#[export] Instance strict_sql : SqlText := fun _ _ d => (d, Err (DatabaseError "syntax error")).
