(* ===== verification/ProduceService.v ===== *)
(** * The produce path of an agent (crates/streamhouse-agent/src/grpc_service.rs)

    What the gRPC service of an agent does with a request of a producer: the lease, the
    sequence of an idempotent producer, the writer, the durable flush, the bookkeeping of
    the transaction.  The metadata store is the tables of [ProducerStore]; the leases, the
    clock and failures are arguments. *)

From stdpp Require Import pretty.
From S2P Require Import Prelude HashMap Core External Segment MetadataError StorageError WalHandle Catalog PartitionWriter TopicWriter WriterPool Lease ProducerStore.

(** [tonic::Status]: the codes that the service uses, each with its message. *)
Inductive Status : Type :=
| InvalidArgument (m : string) | NotFound (m : string) | FailedPrecondition (m : string)
| Internal (m : string) | ResourceExhausted (m : string) | Unavailable (m : string).

Record ProduceRequest : Type := mk_produce_request {
  rq_topic : string;
  rq_partition : Z;
  rq_records : list input;
  rq_ack_mode : Z;
  rq_producer_id : option string;
  rq_producer_epoch : option Z;
  rq_base_sequence : option Z;
  rq_transaction_id : option string
}.

Record ProduceResponse : Type := mk_produce_response {
  rs_base_offset : Z;
  rs_record_count : Z;
  rs_duplicates_filtered : bool
}.

Record HeartbeatResponse : Type := mk_heartbeat_response { hb_valid : bool; hb_error : option string }.

(** A call of the metadata store, which can fail before it does anything. *)
Definition try_call {D A} (fail : option MetadataError) (call : D -> D * outcome MetadataError A) (d : D)
  : D * outcome MetadataError A :=
  match fail with Some e => (d, Err e) | None => call d end.

(** What a request meets: the row of the lease, the clock, failures of the metadata store,
    what opening a writer finds, the append, the flush. *)
Record produce_env : Type := mk_produce_env {
  pe_lease : outcome MetadataError (option PartitionLease);
  pe_now : Z;
  pe_producer : option MetadataError;
  pe_sequence : option MetadataError;
  pe_file : bytes;
  pe_open : new_env;
  pe_append : append_env;
  pe_flush : roll_env;
  pe_add : option MetadataError;
  pe_update : option MetadataError
}.

Section service.
Context `{HashOrder} `{SqlText} `{HC : Codecs} `{HP : ObjectPaths} `{HJ : JsonMaps}.

Record ProducerServiceImpl : Type := mk_service {
  writer_pool : WriterPool;
  agent_id : string;
  shutting_down : bool
}.

(** The service, what the writers share, and the tables of producers. *)
Record state : Type := mk_state { service : ProducerServiceImpl; shared : world; store : db }.

Definition set_pool (p : WriterPool) (wd : world) (s : state) : state :=
  mk_state (mk_service p (agent_id (service s)) (shutting_down (service s))) wd (store s).
Definition set_store (d : db) (s : state) : state := mk_state (service s) (shared s) d.

Definition shutdown (s : state) : state :=
  mk_state (mk_service (writer_pool (service s)) (agent_id (service s)) true) (shared s) (store s).

(** ** Admission *)

Definition unknown_producer (producer_id : string) : string := "Unknown producer ID: " +:+ producer_id.
Definition epoch_mismatch (expected got : Z) : string :=
  "Producer epoch mismatch: expected " +:+ pretty expected +:+ ", got " +:+ pretty got.
Definition get_failed (e : MetadataError) : Status := Internal ("Failed to get producer: " +:+ metadata_error_text e).

Definition validate_idempotent (producer_id : string) (producer_epoch base_sequence : Z) (topic : string)
    (partition record_count : Z) (env : produce_env) (d : db) : db * outcome Status bool :=
  match try_call (pe_producer env) (get_producer producer_id) d with
  | (d, Ok (Some producer)) =>
      if bool_decide (pr_state producer = Fenced)
      then (d, Err (FailedPrecondition ("Producer " +:+ producer_id +:+ " has been fenced")))
      else if bool_decide (pr_state producer = Expired)
      then (d, Err (FailedPrecondition ("Producer " +:+ producer_id +:+ " has expired")))
      else if negb (pr_epoch producer =? producer_epoch)
      then (d, Err (FailedPrecondition (epoch_mismatch (pr_epoch producer) producer_epoch)))
      else
        match try_call (pe_sequence env) (check_and_update_sequence producer_id topic partition base_sequence record_count) d with
        | (d, Ok valid) => (d, Ok valid)
        | (d, Err e) => (d, Err (FailedPrecondition ("Sequence validation failed: " +:+ metadata_error_text e)))
        | (d, Panic) => (d, Panic)
        end
  | (d, Ok None) => (d, Err (FailedPrecondition (unknown_producer producer_id)))
  | (d, Err e) => (d, Err (get_failed e))
  | (d, Panic) => (d, Panic)
  end.

Definition place (topic : string) (partition : Z) : string := topic +:+ "/" +:+ pretty partition.

Definition validate_lease (topic : string) (partition : Z) (env : produce_env) (s : state) : outcome Status () :=
  match pe_lease env with
  | Ok (Some lease) =>
      if negb (bool_decide (leader_agent_id lease = agent_id (service s)))
      then Err (NotFound ("Agent doesn't hold lease for partition " +:+ place topic partition
                            +:+ " (held by " +:+ leader_agent_id lease +:+ ")"))
      else if lease_expires_at lease <=? pe_now env
      then Err (FailedPrecondition ("Lease expired for partition " +:+ place topic partition))
      else Ok ()
  | Ok None => Err (NotFound ("No lease exists for partition " +:+ place topic partition))
  | Err e => Err (Internal ("Failed to check lease: " +:+ metadata_error_text e))
  | Panic => Panic
  end.

(** The beginning of [produce], to the decision whether to write. *)
Definition admission (org_id : option string) (req : ProduceRequest) (env : produce_env) (s : state)
  : state * outcome Status (string * bool) :=
  if shutting_down (service s) then (s, Err (Unavailable "Agent is shutting down"))
  else
    match org_id with
    | None | Some EmptyString =>
        (s, Err (InvalidArgument "Missing x-organization-id metadata. Organization ID is required."))
    | Some org_id =>
        if bool_decide (rq_topic req = EmptyString) then (s, Err (InvalidArgument "Topic name is required"))
        else if bool_decide (rq_records req = []) then (s, Err (InvalidArgument "At least one record is required"))
        else
          match validate_lease (rq_topic req) (rq_partition req) env s with
          | Ok _ =>
              match rq_producer_id req with
              | Some producer_id =>
                  let '(d, valid) :=
                    validate_idempotent producer_id (default 0 (rq_producer_epoch req)) (default 0 (rq_base_sequence req))
                      (rq_topic req) (rq_partition req) (wrap 32 (len (rq_records req))) env (store s) in
                  (set_store d s, should_write ← valid; Ok (org_id, should_write))
              | None => (s, Ok (org_id, true))
              end
          | Err e => (s, Err e)
          | Panic => (s, Panic)
          end
    end.

(** ** Writing *)

Definition append_status (e : StorageError) : Status :=
  let error_msg := storage_error_text e in
  if str_contains "S3 operation rate limited" error_msg
  then ResourceExhausted "S3 rate limit exceeded - please slow down"
  else if str_contains "S3 circuit breaker open" error_msg
  then Unavailable "S3 service is temporarily unavailable - circuit breaker open"
  else Internal ("Failed to append batch: " +:+ error_msg).

(** The writer and the append under its lock; the first offset and the number of records. *)
Definition write (org_id : string) (req : ProduceRequest) (env : produce_env) (s : state)
  : state * outcome Status (Z * Z) :=
  let '(p, writer) :=
    get_writer org_id (rq_topic req) (rq_partition req) (pe_file env) (pe_open env) (shared s) (writer_pool (service s)) in
  match writer with
  | Ok writer =>
      let '(writer, appended) := append_batch (rq_records req) (pe_append env) writer in
      let s := set_pool (put_writer (org_id, rq_topic req, rq_partition req) writer p) (shared s) s in
      match appended with
      | Ok (base :: rest) => (s, Ok (base, len (base :: rest)))
      | Ok [] => (s, Err (Internal "No offsets returned from batch append"))
      | Err e => (s, Err (append_status e))
      | Panic => (s, Panic)
      end
  | Err e => (set_pool p (shared s) s, Err (Internal ("Failed to get writer: " +:+ storage_error_text e)))
  | Panic => (set_pool p (shared s) s, Panic)
  end.

(** Failures of the two calls are logged. *)
Definition track (req : ProduceRequest) (base_offset last_offset : Z) (env : produce_env) (s : state) : state :=
  match rq_transaction_id req with
  | None => s
  | Some transaction_id =>
      let d := fst (try_call (pe_add env)
                      (add_transaction_partition transaction_id (rq_topic req) (rq_partition req) base_offset) (store s)) in
      let d := fst (try_call (pe_update env)
                      (update_transaction_partition_offset transaction_id (rq_topic req) (rq_partition req) last_offset) d) in
      set_store d s
  end.

(** The end of [produce], for a batch that is to be written. *)
Definition deliver (org_id : string) (req : ProduceRequest) (env : produce_env) (s : state)
  : state * outcome Status ProduceResponse :=
  match write org_id req env s with
  | (s, Ok (base_offset, record_count)) =>
      let '(s, flushed) :=
        if rq_ack_mode req =? 1 then
          let '(p, wd, r) := request_durable_flush org_id (rq_topic req) (rq_partition req) (pe_file env) (pe_open env)
                               (pe_flush env) (shared s) (writer_pool (service s)) in
          (set_pool p wd s, map_err (fun e => Internal ("Failed durable flush: " +:+ storage_error_text e)) r)
        else (s, Ok ()) in
      match flushed with
      | Ok _ =>
          let s := track req base_offset (wrap 64 (base_offset + record_count - 1)) env s in
          (s, Ok (mk_produce_response base_offset (wrap 32 record_count) false))
      | Err e => (s, Err e)
      | Panic => (s, Panic)
      end
  | (s, Err e) => (s, Err e)
  | (s, Panic) => (s, Panic)
  end.

(** A duplicate is acknowledged, with no offset. *)
Definition duplicate_response (req : ProduceRequest) : ProduceResponse :=
  mk_produce_response 0 (wrap 32 (len (rq_records req))) true.

Definition produce (org_id : option string) (req : ProduceRequest) (env : produce_env) (s : state)
  : state * outcome Status ProduceResponse :=
  match admission org_id req env s with
  | (s, Ok (org_id, true)) => deliver org_id req env s
  | (s, Ok (_, false)) => (s, Ok (duplicate_response req))
  | (s, Err e) => (s, Err e)
  | (s, Panic) => (s, Panic)
  end.

(** ** Producers and transactions *)

Definition init_producer (config : InitProducerConfig) (uuid : string) (now : Z) (fail : option MetadataError) (d : db)
  : db * outcome Status (string * Z) :=
  match try_call fail (ProducerStore.init_producer config uuid now) d with
  | (d, Ok producer) => (d, Ok (pr_id producer, pr_epoch producer))
  | (d, Err e) => (d, Err (Internal ("Failed to initialize producer: " +:+ metadata_error_text e)))
  | (d, Panic) => (d, Panic)
  end.

(** The producer of a request, at the epoch of the request. *)
Definition known_producer (producer_id : string) (producer_epoch : Z) (fail : option MetadataError) (d : db)
  : db * outcome Status Producer :=
  match try_call fail (get_producer producer_id) d with
  | (d, Ok (Some producer)) =>
      (d, if pr_epoch producer =? producer_epoch then Ok producer
          else Err (FailedPrecondition (epoch_mismatch (pr_epoch producer) producer_epoch)))
  | (d, Ok None) => (d, Err (NotFound ("Unknown producer: " +:+ producer_id)))
  | (d, Err e) => (d, Err (get_failed e))
  | (d, Panic) => (d, Panic)
  end.

(** A call of the store after the producer is known, its error under a heading. *)
Definition then_call {A} (heading : string) (fail : option MetadataError) (call : db -> db * outcome MetadataError A)
    (r : db * outcome Status ()) : db * outcome Status A :=
  match r with
  | (d, Ok _) =>
      let '(d, r) := try_call fail call d in (d, map_err (fun e => Internal (heading +:+ metadata_error_text e)) r)
  | (d, Err e) => (d, Err e)
  | (d, Panic) => (d, Panic)
  end.

Definition begin_transaction (producer_id : string) (producer_epoch timeout_ms : Z) (uuid : string) (now : Z)
    (fail fail' : option MetadataError) (d : db) : db * outcome Status string :=
  let '(d, known) := known_producer producer_id producer_epoch fail d in
  let '(d, r) :=
    then_call "Failed to begin transaction: " fail' (ProducerStore.begin_transaction producer_id uuid timeout_ms now)
      (d, producer ← known;
          if negb (bool_decide (pr_state producer = Active))
          then Err (FailedPrecondition ("Producer " +:+ producer_id +:+ " is not active")) else Ok ()) in
  (d, txn ← r; Ok (tx_transaction_id txn)).

Definition commit_transaction (producer_id : string) (producer_epoch : Z) (transaction_id : string) (now : Z)
    (fail fail' : option MetadataError) (d : db) : db * outcome Status Z :=
  let '(d, known) := known_producer producer_id producer_epoch fail d in
  let '(d, r) :=
    then_call "Failed to commit transaction: " fail' (ProducerStore.commit_transaction transaction_id now) (d, _ ← known; Ok ()) in
  (d, commit_timestamp ← r; Ok (wrap 64 commit_timestamp)).

Definition abort_transaction (producer_id : string) (producer_epoch : Z) (transaction_id : string) (now : Z)
    (fail fail' : option MetadataError) (d : db) : db * outcome Status () :=
  let '(d, known) := known_producer producer_id producer_epoch fail d in
  then_call "Failed to abort transaction: " fail' (ProducerStore.abort_transaction transaction_id now) (d, _ ← known; Ok ()).

Definition state_debug (s : ProducerState) : string :=
  match s with Active => "Active" | Fenced => "Fenced" | Expired => "Expired" end.

(** A failure of the update is logged. *)
Definition heartbeat (producer_id : string) (producer_epoch now : Z) (fail fail' : option MetadataError) (d : db)
  : db * outcome Status HeartbeatResponse :=
  match try_call fail (get_producer producer_id) d with
  | (d, Ok (Some producer)) =>
      if negb (pr_epoch producer =? producer_epoch)
      then (d, Ok (mk_heartbeat_response false (Some (epoch_mismatch (pr_epoch producer) producer_epoch))))
      else if negb (bool_decide (pr_state producer = Active))
      then (d, Ok (mk_heartbeat_response false (Some ("Producer " +:+ producer_id +:+ " is " +:+ state_debug (pr_state producer)))))
      else
        (fst (try_call fail' (update_producer_heartbeat producer_id now) d), Ok (mk_heartbeat_response true None))
  | (d, Ok None) => (d, Ok (mk_heartbeat_response false (Some ("Unknown producer: " +:+ producer_id))))
  | (d, Err e) => (d, Err (get_failed e))
  | (d, Panic) => (d, Panic)
  end.
End service.
