(* ===== verification/AgentRouter.v ===== *)
(** * Routing to the agent of a partition (crates/streamhouse-client/src/agent_router.rs)

    The router finds the agent that holds the lease of a partition, through a cache, and calls
    its produce service; when the lease has moved it tries again.  The agents are behind an
    interface ([Agents]); the clocks and the answers of the metadata store are arguments, one
    record for each attempt. *)

From stdpp Require Import pretty.
From S2P Require Import Prelude MetadataError StorageError PartitionWriter Lease ProduceService.

(** The agents of a cluster: a call of the service at an address, with the value of the header
    of the organization.  [S] is their state, [E] what a call meets. *)
Class Agents (S E : Type) := call_agent : string -> option string -> ProduceRequest -> E -> S -> S * outcome Status ProduceResponse.

(** Third-party texts: a status, and what becomes of a text as the value of a header. *)
Class GrpcTexts := {
  status_text : Status -> string;
  metadata_value : string -> option string
}.

Inductive AgentRouterError : Type :=
| NoLeaseHolder (topic : string) (partition : Z)
| LeaseExpired (topic : string) (partition : Z)
| LeaseMoved (topic : string) (partition : Z) (reason : string)
| RMetadataError (m : string)
| AgentNotFound (agent_id : string)
| GrpcError (status : Status)
| TransportError (m : string).

Record CachedLease : Type := mk_cached_lease { cl_agent_id : string; cl_agent_address : string; cl_fetched_at : Z }.

(** The connections by address, the leases by topic and partition. *)
Record AgentRouter : Type := mk_router { connections : gset string; lease_cache : gmap (string * Z) CachedLease }.

Definition new : AgentRouter := mk_router ∅ ∅.

(** Milliseconds. *)
Definition LEASE_CACHE_TTL : Z := 5000.

(** What an attempt meets: the monotonic clock, the answers of the metadata store for the lease of a partition and
    for the address of an agent, the clock, the error of a new connection, and the call. *)
Record attempt_env (E : Type) : Type := mk_attempt_env {
  at_instant : Z;
  at_lease : string -> Z -> outcome MetadataError (option PartitionLease);
  at_now : Z;
  at_agent : string -> outcome MetadataError (option string);
  at_connect : option string;
  at_call : E
}.
Arguments mk_attempt_env {E}. Arguments at_instant {E}. Arguments at_lease {E}. Arguments at_now {E}.
Arguments at_agent {E}. Arguments at_connect {E}. Arguments at_call {E}.

(** [str::starts_with]. *)
Definition starts_with (prefix s : string) : bool := String.prefix prefix s.

Section router.
Context `{GrpcTexts} {S E : Type} `{!Agents S E}.

Definition router_error_text (e : AgentRouterError) : string :=
  match e with
  | NoLeaseHolder t p => "No lease holder for " +:+ t +:+ "/" +:+ pretty p
  | LeaseExpired t p => "Lease expired for " +:+ t +:+ "/" +:+ pretty p
  | LeaseMoved t p reason => "Lease moved for " +:+ t +:+ "/" +:+ pretty p +:+ " -- retried and still failed: " +:+ reason
  | RMetadataError m => "Metadata lookup failed: " +:+ m
  | AgentNotFound id => "Agent not found in registry: " +:+ id
  | GrpcError status => "gRPC error from agent: " +:+ status_text status
  | TransportError m => "Transport error: " +:+ m
  end.

Definition is_lease_moved_error (e : AgentRouterError) : bool :=
  match e with
  | GrpcError (NotFound _) | GrpcError (FailedPrecondition _) => true
  | LeaseExpired _ _ | NoLeaseHolder _ _ => true
  | _ => false
  end.

Definition invalidate_lease_cache (topic : string) (partition : Z) (r : AgentRouter) : AgentRouter :=
  mk_router (connections r) (delete (topic, partition) (lease_cache r)).

(** The address with a scheme. *)
Definition with_scheme (address : string) : string :=
  if starts_with "http://" address || starts_with "https://" address then address else "http://" +:+ address.

Definition resolve_agent_for_partition (topic : string) (partition : Z) (env : attempt_env E) (r : AgentRouter)
  : AgentRouter * outcome AgentRouterError (string * string) :=
  let look_up :=
    match at_lease env topic partition with
    | Err e => (r, Err (RMetadataError (metadata_error_text e)))
    | Panic => (r, Panic)
    | Ok None => (r, Err (NoLeaseHolder topic partition))
    | Ok (Some lease) =>
        if lease_expires_at lease <=? at_now env then (r, Err (LeaseExpired topic partition))
        else
          match at_agent env (leader_agent_id lease) with
          | Err e => (r, Err (RMetadataError (metadata_error_text e)))
          | Panic => (r, Panic)
          | Ok None => (r, Err (AgentNotFound (leader_agent_id lease)))
          | Ok (Some agent_address) =>
              let address := with_scheme agent_address in
              (mk_router (connections r)
                 (<[(topic, partition) := mk_cached_lease (leader_agent_id lease) address (at_instant env)]> (lease_cache r)),
               Ok (leader_agent_id lease, address))
          end
    end in
  match lease_cache r !! (topic, partition) with
  | Some entry =>
      if at_instant env - cl_fetched_at entry <? LEASE_CACHE_TTL then (r, Ok (cl_agent_id entry, cl_agent_address entry)) else look_up
  | None => look_up
  end.

Definition get_or_create_client (address : string) (env : attempt_env E) (r : AgentRouter) : AgentRouter * outcome AgentRouterError () :=
  if bool_decide (address ∈ connections r) then (r, Ok ())
  else match at_connect env with
       | Some e => (r, Err (TransportError e))
       | None => (mk_router ({[address]} ∪ connections r) (lease_cache r), Ok ())
       end.

Definition try_produce (org_id : string) (req : ProduceRequest) (env : attempt_env E) (r : AgentRouter) (s : S)
  : AgentRouter * S * outcome AgentRouterError ProduceResponse :=
  match resolve_agent_for_partition (rq_topic req) (rq_partition req) env r with
  | (r, Ok (_, address)) =>
      match get_or_create_client address env r with
      | (r, Ok _) =>
          let header := Some (default ""%string (metadata_value org_id)) in
          let '(s, response) := call_agent address header req (at_call env) s in
          (r, s, map_err GrpcError response)
      | (r, Err e) => (r, s, Err e)
      | (r, Panic) => (r, s, Panic)
      end
  | (r, Err e) => (r, s, Err e)
  | (r, Panic) => (r, s, Panic)
  end.

Definition MAX_RETRIES : nat := 3.

(** The attempts from [attempt] on, [left] of them after it. *)
Fixpoint attempts (left_ : nat) (attempt : nat) (org_id : string) (req : ProduceRequest) (envs : nat -> attempt_env E)
    (r : AgentRouter) (s : S) : AgentRouter * S * outcome AgentRouterError ProduceResponse :=
  let r := if (0 <? attempt)%nat then invalidate_lease_cache (rq_topic req) (rq_partition req) r else r in
  match try_produce org_id req (envs attempt) r s with
  | (r, s, Ok response) => (r, s, Ok response)
  | (r, s, Err e) =>
      if is_lease_moved_error e then
        match left_ with
        | O => (r, s, Err (LeaseMoved (rq_topic req) (rq_partition req) (router_error_text e)))
        | Datatypes.S left_ => attempts left_ (Datatypes.S attempt) org_id req envs r s
        end
      else (r, s, Err e)
  | (r, s, Panic) => (r, s, Panic)
  end.

Definition produce (org_id : string) (req : ProduceRequest) (envs : nat -> attempt_env E) (r : AgentRouter) (s : S)
  : AgentRouter * S * outcome AgentRouterError ProduceResponse :=
  attempts MAX_RETRIES 0 org_id req envs r s.

Definition produce_single (org_id topic : string) (partition : Z) (key : option bytes) (value : bytes) (timestamp ack_mode : Z)
    (envs : nat -> attempt_env E) (r : AgentRouter) (s : S) : AgentRouter * S * outcome AgentRouterError ProduceResponse :=
  produce org_id (mk_produce_request topic partition [(key, value, timestamp)] ack_mode None None None None) envs r s.

Definition shutdown (r : AgentRouter) : AgentRouter := mk_router ∅ ∅.
End router.

(** One agent that listens at its address, behind a network that can lose requests and answers; nobody listens at
    any other address, and a call there gets a status of the network. *)
Class Listening := { listens : string; unreachable : string -> Status }.

Section one_agent.
Context `{HL : Listening}.
Context `{HH : HashMap.HashOrder} `{HS : ProducerStore.SqlText} `{HC : External.Codecs} `{HP : ObjectPaths} `{HJ : Catalog.JsonMaps}.

Inductive delivery : Type := Arrives | RequestLost (e : Status) | AnswerLost (e : Status).

#[export] Instance one_agent : Agents state (delivery * produce_env) := fun address org_id req env s =>
  if negb (bool_decide (address = listens)) then (s, Err (unreachable address)) else
  match env.1 with
  | Arrives => ProduceService.produce org_id req env.2 s
  | RequestLost e => (s, Err e)
  | AnswerLost e => (fst (ProduceService.produce org_id req env.2 s), Err e)
  end.
End one_agent.
