(* ===== verification/ProduceFacts.v ===== *)
(** * Facts about producing

    Requests of many producers on one partition of an agent, in any interleaving of their
    admission and their writing, beside any other calls of the tables of producers. *)

From S2P Require Import Prelude HashMap Core External Segment MetadataError StorageError WalHandle Catalog PartitionWriter PartitionWriterFacts PartitionLogFacts TopicWriter WriterPool Lease ProducerStore ProduceService.

(** ** Sequences *)

(** Batches, each a first sequence number and a length, one directly after the other. *)
Fixpoint tiles (from : Z) (l : list (Z * Z)) : Prop :=
  match l with [] => True | (base, count) :: l => base = from /\ tiles (from + count) l end.

Definition count_all (l : list (Z * Z)) : Z := foldr (fun b n => b.2 + n) 0 l.

Lemma count_all_cons b l : count_all (b :: l) = b.2 + count_all l.
Proof. done. Qed.

Lemma count_all_app l l' : count_all (l ++ l') = count_all l + count_all l'.
Proof. induction l as [|b l IH]; [done|]. cbn [app]. rewrite !count_all_cons. lia. Qed.

Lemma tiles_snoc from l b : tiles from l -> b.1 = from + count_all l -> tiles from (l ++ [b]).
Proof.
  revert from. induction l as [|[base count] l IH]; intros from Hl Hb.
  - destruct b as [base count]. cbn in *. split; [lia|done].
  - destruct Hl as [-> Hl]. rewrite count_all_cons in Hb. cbn [snd] in Hb. split; [done|]. apply IH; [done|lia].
Qed.

(** The calls of the tables of producers that other requests make. *)
Inductive store_call : Type :=
| SInit (config : InitProducerConfig) (uuid : string) (now : Z)
| SFence (producer_id : string)
| SHeartbeat (producer_id : string) (now : Z)
| SExpire (timeout_ms now : Z)
| SAllocate (producer_id : string)
| SBegin (producer_id uuid : string) (timeout_ms now : Z)
| SCommit (transaction_id : string) (now : Z)
| SAbort (transaction_id : string) (now : Z)
| SForget (max_age_ms now : Z).

Section calls.
Context `{HashOrder} `{SqlText}.

Definition perform_store (c : store_call) (d : db) : db :=
  match c with
  | SInit config uuid now => fst (ProducerStore.init_producer config uuid now d)
  | SFence id => fst (fence_producer id d)
  | SHeartbeat id now => fst (update_producer_heartbeat id now d)
  | SExpire timeout_ms now => fst (cleanup_expired_producers timeout_ms now d)
  | SAllocate id => fst (allocate_numeric_producer_id id d)
  | SBegin id uuid timeout_ms now => fst (ProducerStore.begin_transaction id uuid timeout_ms now d)
  | SCommit id now => fst (ProducerStore.commit_transaction id now d)
  | SAbort id now => fst (ProducerStore.abort_transaction id now d)
  | SForget max_age_ms now => fst (cleanup_completed_transactions max_age_ms now d)
  end.

(** The texts that a call puts into statements. *)
Definition texts (c : store_call) : list string :=
  match c with
  | SInit config _ _ => optional (ip_organization_id config) ++ optional (ip_transactional_id config)
  | SFence id | SHeartbeat id _ | SAllocate id | SBegin id _ _ _ | SCommit id _ | SAbort id _ => [id]
  | _ => []
  end.

(** What a call may do to producers and sequences: producers change and go, their sequences
    with them, and no new producer has the id; partitions of transactions go. *)
Record benign (pid : string) (d d' : db) : Prop := {
  be_producer : is_Some (producers d' !! pid) -> is_Some (producers d !! pid);
  be_sequences t p : is_Some (producers d' !! pid) ->
    producer_sequences d' !! (pid, t, p) = producer_sequences d !! (pid, t, p);
  be_partitions k : is_Some (transaction_partitions d' !! k) -> is_Some (transaction_partitions d !! k)
}.

Lemma benign_refl pid d : benign pid d d.
Proof. by split. Qed.

Lemma benign_trans pid d d' d'' : benign pid d d' -> benign pid d' d'' -> benign pid d d''.
Proof.
  intros [H1 H2 H3] [H1' H2' H3']. split.
  - intros Hs. by apply H1, H1'.
  - intros t p Hs. rewrite H2' by done. by apply H2, H1'.
  - intros k Hs. by apply H3, H3'.
Qed.

Lemma benign_same pid d d' :
  producers d' = producers d -> producer_sequences d' = producer_sequences d ->
  (forall k, is_Some (transaction_partitions d' !! k) -> is_Some (transaction_partitions d !! k)) -> benign pid d d'.
Proof. intros H1 H2 H3. by split; rewrite ?H1, ?H2. Qed.

Lemma benign_alter pid d f id : benign pid d (set_producers (alter f id (producers d)) d).
Proof.
  split; [|done|done]. cbn. intros Hs. destruct (decide (id = pid)) as [-> |Hne].
  - rewrite lookup_alter_eq in Hs. by destruct (producers d !! pid).
  - by rewrite lookup_alter_ne in Hs.
Qed.

Lemma quoted_run {A} l (run : db -> db * outcome MetadataError A) d : forallb unquoted l = true -> quoted l run d = run d.
Proof. intros Hl. unfold quoted. by rewrite Hl. Qed.

Lemma benign_quoted {A} pid l (run : db -> db * outcome MetadataError A) d :
  forallb unquoted l = true -> benign pid d (fst (run d)) -> benign pid d (fst (quoted l run d)).
Proof. intros Hl Hk. by rewrite quoted_run. Qed.

Lemma benign_delete_transactions pid l d : benign pid d (delete_transactions l d).
Proof. apply benign_same; [done|done|]. intros k [x [Hx _]%map_lookup_filter_Some]. by exists x. Qed.

Lemma benign_delete_producers pid l d : benign pid d (delete_producers l d).
Proof.
  unfold delete_producers. eapply benign_trans; [|apply benign_delete_transactions]. split; [| |done].
  - intros [x [Hx Hin]%map_lookup_filter_Some]. by exists x.
  - intros t p [x [Hx Hin]%map_lookup_filter_Some]. cbn in *.
    destruct (producer_sequences d !! (pid, t, p)) as [n|] eqn:Hn.
    + by apply map_lookup_filter_Some.
    + apply map_lookup_filter_None. by left.
Qed.

(** Every partition of a commit leaves producers and sequences alone. *)
Lemma mark_same id kind now ps d :
  producers (foldl (mark id kind now) d ps) = producers d
  /\ producer_sequences (foldl (mark id kind now) d ps) = producer_sequences d
  /\ transaction_partitions (foldl (mark id kind now) d ps) = transaction_partitions d.
Proof. revert d. induction ps as [|p ps IH]; intros d; [done|]. cbn [foldl]. by destruct (IH (mark id kind now d p)) as (-> & -> & ->). Qed.

Lemma benign_init pid config uuid now d :
  uuid <> pid -> forallb unquoted (texts (SInit config uuid now)) = true ->
  benign pid d (fst (ProducerStore.init_producer config uuid now d)).
Proof.
  intros Hne Ht. unfold ProducerStore.init_producer, init_lookup, init_finish.
  assert (Hins : benign pid d (fst (insert_producer config uuid now d))).
  { apply benign_quoted; [done|]. destruct (_ || _); [apply benign_refl|]. split; [|done|done].
    cbn. by rewrite lookup_insert_ne by done. }
  destruct (ip_transactional_id config) as [txn|] eqn:Htx; [|exact Hins].
  unfold get_producer_by_transactional_id. rewrite quoted_run.
  - destruct (head _); [apply benign_alter|exact Hins].
  - cbn [texts] in Ht. rewrite Htx, forallb_app in Ht. cbn in *. by destruct (unquoted txn), (forallb _ _).
Qed.

(** No topic with a quote gets into the table, whose rows go into statements. *)
Definition clean (d : db) : Prop := forall k, is_Some (transaction_partitions d !! k) -> unquoted k.1.2 = true.

Lemma clean_rows id d : clean d -> forallb unquoted (map tpa_topic (txn_partition_rows id d)) = true.
Proof.
  intros Hc. apply forallb_forall. intros topic Hin. apply list_elem_of_In, list_elem_of_fmap in Hin as (p & -> & Hp).
  unfold txn_partition_rows in Hp. rewrite sorting.merge_sort_Permutation in Hp.
  apply list_elem_of_fmap in Hp as ([k o] & -> & [_ Hk]%list_elem_of_filter). apply elem_of_iter in Hk.
  cbn. apply Hc. by exists o.
Qed.

Lemma benign_end pid org id s kind refused now d :
  clean d -> unquoted id = true -> benign pid d (fst (end_transaction org id s kind refused now d)).
Proof.
  intros Hc Hid. unfold end_transaction, get_transaction_partitions.
  assert (Hl : forallb unquoted [id] = true) by (cbn; by rewrite Hid).
  rewrite (quoted_run [id]) by done. rewrite (quoted_run [id]) by done. unfold decide_txn.
  destruct (find_transaction _ _ _ _) as [[t o]|]; [|apply benign_refl]. rewrite quoted_run by by apply clean_rows. cbn [fst].
  match goal with |- benign pid d (foldl _ ?e _) => destruct (mark_same id kind now (txn_partition_rows id d) e) as (H1 & H2 & H3) end.
  apply benign_same; [by rewrite H1|by rewrite H2|by rewrite H3].
Qed.

Lemma benign_store pid c d :
  clean d -> forallb unquoted (texts c) = true -> (forall config now, c <> SInit config pid now) ->
  benign pid d (perform_store c d).
Proof.
  intros Hc Ht Hnew. destruct c; cbn [perform_store].
  - apply benign_init; [|done]. intros ->. by apply (Hnew config now).
  - apply benign_quoted; [done|]. destruct (producers d !! _); [apply benign_alter|apply benign_refl].
  - apply benign_quoted; [done|]. apply benign_alter.
  - apply benign_delete_producers.
  - unfold allocate_numeric_producer_id. eapply (benign_trans _ _ (mk_db _ _ _ _ _ _ _)); [|apply benign_quoted; [done|]].
    + by apply benign_same.
    + destruct (existsb _ _); [apply benign_refl|]. apply benign_alter.
  - apply benign_quoted; [done|]. unfold insert_transaction. by repeat case_bool_decide; apply benign_same.
  - unfold ProducerStore.commit_transaction.
    pose proof (benign_end pid None transaction_id Committed Commit "committed" now d Hc) as Hb.
    destruct (end_transaction _ _ _ _ _ _ _) as [d' r]. apply Hb. cbn in Ht. by destruct (unquoted _).
  - apply benign_end; [done|]. cbn in Ht. by destruct (unquoted _).
  - apply benign_delete_transactions.
Qed.

Lemma benign_clean pid d d' : benign pid d d' -> clean d -> clean d'.
Proof. intros Hb Hc k Hk. by apply Hc, (be_partitions _ _ _ Hb). Qed.
End calls.

(** ** The system: one partition of one agent *)

Section system.
Context `{HashOrder} `{SqlText} `{HC : Codecs} `{!CodecLaws HC} `{HP : ObjectPaths} `{!ObjectPathLaws HP} `{HJ : JsonMaps}.
Context (org t : string) (p : Z).

(** A request is admitted, and later the agent writes it: requests that wait overtake each
    other.  Beside them the background flush, and other calls of the metadata store. *)
Inductive event : Type :=
| Admit (req : ProduceRequest) (env : produce_env)
| Deliver (i : nat) (env : produce_env)
| FlushAll (env : roll_env)
| Other (c : store_call).

(** The state, and what happened: the requests that were admitted, those written and those
    that were not, both in the order they were tried, and whether a flush failed. *)
Record sys : Type := mk_sys {
  st : state;
  waiting : list ProduceRequest;
  admitted : list ProduceRequest;
  written : list ProduceRequest;
  lost : list ProduceRequest;
  sent : list ProduceRequest;
  flush_failed : bool
}.

Definition key : string * string * Z := (org, t, p).

Definition step (e : event) (x : sys) : sys :=
  match e with
  | Admit req env =>
      match admission (Some org) req env (st x) with
      | (s, Ok (_, true)) => mk_sys s (waiting x ++ [req]) (admitted x ++ [req]) (written x) (lost x) (sent x) (flush_failed x)
      | (s, _) => mk_sys s (waiting x) (admitted x) (written x) (lost x) (sent x) (flush_failed x)
      end
  | Deliver i env =>
      match waiting x !! i with
      | None => x
      | Some req =>
          let '(s, answer) := deliver org req env (st x) in
          let ok := match snd (write org req env (st x)) with Ok _ => true | _ => false end in
          mk_sys s (delete i (waiting x)) (admitted x)
            (if ok then written x ++ [req] else written x) (if ok then lost x else lost x ++ [req]) (sent x ++ [req])
            (flush_failed x || (ok && match answer with Ok _ => false | _ => true end))
      end
  | FlushAll env =>
      let '(pool, wd, r) := flush_all (fun _ => env) (shared (st x)) (writer_pool (service (st x))) in
      let failed := match writers (writer_pool (service (st x))) !! key with
                    | Some w => match snd (flush_durable env w (shared (st x))) with Ok _ => false | _ => true end
                    | None => false
                    end in
      mk_sys (set_pool pool wd (st x)) (waiting x) (admitted x) (written x) (lost x) (sent x) (flush_failed x || failed)
  | Other c =>
      mk_sys (set_store (perform_store c (store (st x))) (st x)) (waiting x) (admitted x) (written x) (lost x) (sent x)
        (flush_failed x)
  end.

Definition batch_of (req : ProduceRequest) : Z * Z := (default 0 (rq_base_sequence req), len (rq_records req)).

(** The admitted batches of a producer. *)
Definition batches (pid : string) (l : list ProduceRequest) : list (Z * Z) :=
  map batch_of (filter (fun req => rq_producer_id req = Some pid) l).

(** Requests for the partition, whose texts hold no quote. *)
Record request_ok (req : ProduceRequest) : Prop := {
  ro_topic : rq_topic req = t;
  ro_partition : rq_partition req = p;
  ro_texts : forallb unquoted (optional (rq_producer_id req) ++ optional (rq_transaction_id req)) = true;
  ro_sequence : default 0 (rq_base_sequence req) + len (rq_records req) < 2 ^ 63;
  ro_records : Forall input_ok (rq_records req)
}.

Definition event_ok (pid : string) (e : event) : Prop :=
  match e with
  | Admit req _ => request_ok req
  | Deliver _ env => pe_file env = []
  | FlushAll _ => True
  | Other c => forallb unquoted (texts c) = true /\ forall config now, c <> SInit config pid now
  end.

(** ** Admission *)

Lemma admit_spec req env s :
  request_ok req -> unquoted t = true -> len (rq_records req) < 2 ^ 32 ->
  let '(s', r) := admission (Some org) req env s in
  service s' = service s /\ shared s' = shared s /\
  match r with
  | Ok (o, true) =>
      o = org /\
      match rq_producer_id req with
      | None => store s' = store s
      | Some q =>
          let k := (q, t, p) in
          let base := default 0 (rq_base_sequence req) in
          is_Some (producers (store s) !! q)
          /\ base = default (-1) (producer_sequences (store s) !! k) + 1
          /\ store s' = set_sequences (<[k := swrap 64 (base + len (rq_records req) - 1)]> (producer_sequences (store s))) (store s)
      end
  | _ => store s' = store s
  end.
Proof.
  intros [Ht Hp Htx _ _] Hut Hlen. unfold admission. destruct (shutting_down _); [done|].
  destruct org as [|a o] eqn:Horg; [done|]. rewrite <- Horg. case_bool_decide; [done|]. case_bool_decide; [done|].
  destruct (validate_lease _ _ _ _); [|done|done]. destruct (rq_producer_id req) as [q|]; [|done].
  rewrite Ht, Hp. rewrite wrap_small by (unfold in_u; lia).
  assert (Hq : unquoted q = true) by (cbn in Htx; by destruct (unquoted q)).
  unfold validate_idempotent, try_call, get_producer. destruct (pe_producer env); [done|].
  rewrite quoted_run by (cbn; by rewrite Hq). destruct (producers (store s) !! q) as [pr|] eqn:Hpr; [|done].
  do 2 (case_bool_decide; [done|]). destruct (negb _); [done|]. destruct (pe_sequence env); [done|].
  unfold check_and_update_sequence. rewrite quoted_run by (cbn; by rewrite Hq, Hut).
  destruct (Z.leb_spec (default 0 (rq_base_sequence req)) (default (-1) (producer_sequences (store s) !! (q, t, p)))); [done|].
  destruct (Z.gtb_spec (default 0 (rq_base_sequence req)) (default (-1) (producer_sequences (store s) !! (q, t, p)) + 1)); [done|].
  unfold put_sequence. rewrite Hpr. rewrite bool_decide_eq_true_2 by by eexists. cbn.
  split; [done|]. split; [done|]. split; [done|]. split; [by eexists|]. split; [lia|done].
Qed.

(** The sequence of a producer is the number of its records that were admitted. *)
Record sequence_inv (pid : string) (x : sys) : Prop := {
  sq_tiles : tiles 0 (batches pid (admitted x));
  sq_last : is_Some (producers (store (st x)) !! pid) ->
    default (-1) (producer_sequences (store (st x)) !! (pid, t, p)) = count_all (batches pid (admitted x)) - 1;
  sq_clean : clean (store (st x))
}.

Lemma batches_snoc pid l req :
  batches pid (l ++ [req]) = batches pid l ++ (if decide (rq_producer_id req = Some pid) then [batch_of req] else []).
Proof. unfold batches. rewrite filter_app, map_app, filter_cons, filter_nil. by case_decide. Qed.

Lemma write_store req env s : store (fst (write org req env s)) = store s.
Proof.
  unfold write. destruct (get_writer _ _ _ _ _ _ _) as [pool [w|e|]]; [|done..].
  destruct (append_batch _ _ w) as [w' [[|b l]|e|]]; done.
Qed.

(** The bookkeeping of a transaction: its partition is of the request. *)
Lemma track_benign pid req base last env s :
  request_ok req -> unquoted t = true -> clean (store s) ->
  (is_Some (producers (store (track req base last env s)) !! pid) -> is_Some (producers (store s) !! pid))
  /\ (forall k, producer_sequences (store (track req base last env s)) !! k = producer_sequences (store s) !! k)
  /\ clean (store (track req base last env s)).
Proof.
  intros [Ht Hp Htx _ _] Hut Hc. unfold track. destruct (rq_transaction_id req) as [id|]; [|done]. rewrite Ht.
  assert (Hid : unquoted id = true) by (cbn in Htx; rewrite forallb_app in Htx; cbn in Htx; by destruct (unquoted id), (forallb _ _)).
  assert (Hl : forallb unquoted [id; t] = true) by (cbn; by rewrite Hid, Hut).
  unfold try_call, add_transaction_partition, update_transaction_partition_offset. rewrite !quoted_run by done.
  set (d1 := fst (match pe_add env with Some e => (store s, Err e) | None => insert_txn_partition id t (rq_partition req) base (store s) end)).
  assert (H1 : producers d1 = producers (store s) /\ producer_sequences d1 = producer_sequences (store s) /\ clean d1).
  { unfold d1. destruct (pe_add env); [done|]. unfold insert_txn_partition.
    destruct (transaction_partitions (store s) !! _); [done|]. case_bool_decide; [|done]. split; [done|]. split; [done|].
    intros k Hk. cbn in Hk. destruct (decide ((id, t, rq_partition req) = k)) as [<- |Hne]; [done|].
    rewrite lookup_insert_ne in Hk by done. by apply Hc. }
  destruct H1 as (E1 & E2 & Hc1). destruct (pe_update env); cbn [store set_store fst].
  - by rewrite E1, E2.
  - cbn [producers producer_sequences set_txn_partitions]. rewrite E1, E2. split; [done|]. split; [done|].
    intros k Hk. cbn in Hk. rewrite lookup_alter_is_Some in Hk. by apply Hc1.
Qed.

Lemma deliver_benign pid req env s :
  request_ok req -> unquoted t = true -> clean (store s) ->
  let s' := fst (deliver org req env s) in
  (is_Some (producers (store s') !! pid) -> is_Some (producers (store s) !! pid))
  /\ (forall k, producer_sequences (store s') !! k = producer_sequences (store s) !! k)
  /\ clean (store s').
Proof.
  intros Hr Hut Hc. cbv zeta. unfold deliver. pose proof (write_store req env s) as Hw.
  destruct (write org req env s) as [s1 [[base n]|e|]]; cbn [fst] in *; [|by rewrite Hw..].
  set (next := if rq_ack_mode req =? 1 then _ else _).
  assert (Hn : store (fst next) = store s1).
  { unfold next. destruct (_ =? _); [|done]. by destruct (request_durable_flush _ _ _ _ _ _ _ _) as [[pool wd] r]. }
  destruct next as [s2 [[]|e|]]; cbn [fst] in Hn |- *; [|by rewrite Hn, Hw..].
  destruct (track_benign pid req base (wrap 64 (base + n - 1)) env s2 Hr Hut) as (H1 & H2 & H3); [by rewrite Hn, Hw|].
  rewrite Hn, Hw in H1, H2. by split.
Qed.

Lemma sequence_step pid e x :
  unquoted t = true -> event_ok pid e -> Forall request_ok (waiting x) ->
  match e with Admit req _ => len (rq_records req) < 2 ^ 32 | _ => True end ->
  sequence_inv pid x -> sequence_inv pid (step e x) /\ Forall request_ok (waiting (step e x)).
Proof.
  intros Hut Hok Hwait Hlen [Ht Hl Hc]. destruct e as [req env|i env|env|c]; cbn [step].
  - pose proof (admit_spec req env (st x) Hok Hut Hlen) as Ha.
    destruct (admission (Some org) req env (st x)) as [s [[o [|]]|err|]]; destruct Ha as (_ & _ & Ha);
      [|split; [split; cbn; by rewrite ?Ha|done]..].
    destruct Ha as [_ Ha]. split; [|by apply Forall_app; split; [|constructor]].
    assert (Hpid : rq_producer_id req = Some pid ->
              batch_of req = (count_all (batches pid (admitted x)), len (rq_records req))
              /\ is_Some (producers (store (st x)) !! pid)
              /\ store s = set_sequences (<[(pid, t, p) := count_all (batches pid (admitted x)) + len (rq_records req) - 1]>
                             (producer_sequences (store (st x)))) (store (st x))).
    { intros He. rewrite He in Ha. destruct Ha as (Hs & Hb & ->). rewrite (Hl Hs) in Hb.
      pose proof (ro_sequence _ Hok) as Hsq. unfold batch_of. split; [f_equal; lia|]. split; [done|].
      rewrite swrap_small; [by replace (default 0 (rq_base_sequence req)) with (count_all (batches pid (admitted x))) by lia|lia|].
      assert (Hpos : 0 <= count_all (batches pid (admitted x))).
      { unfold batches. clear. induction (filter _ _) as [|r l IH]; [done|]. cbn [map]. rewrite count_all_cons. cbn [batch_of snd]. lia. }
      unfold in_i. change (2 ^ (64 - 1)) with (2 ^ 63). lia. }
    split; cbn [admitted st].
    + rewrite batches_snoc. case_decide as He; [|by rewrite app_nil_r]. destruct (Hpid He) as (-> & _).
      apply tiles_snoc; [done|cbn; lia].
    + rewrite batches_snoc, count_all_app. case_decide as He.
      * destruct (Hpid He) as (-> & _ & ->). intros _. cbn [producer_sequences set_sequences]. rewrite lookup_insert_eq. cbn. lia.
      * cbn. rewrite Z.add_0_r. destruct (rq_producer_id req) as [q|]; [|by rewrite Ha].
        destruct Ha as (_ & _ & ->). cbn. rewrite lookup_insert_ne by congruence. done.
    + destruct (rq_producer_id req) as [q|]; [|by rewrite Ha]. by destruct Ha as (_ & _ & ->).
  - destruct (waiting x !! i) as [req|] eqn:Hi; [|by split].
    assert (Hr : request_ok req) by (by eapply Forall_lookup_1).
    destruct (deliver_benign pid req env (st x) Hr Hut Hc) as (H1 & H2 & H3).
    destruct (deliver org req env (st x)) as [s answer]. cbn [fst] in *.
    assert (Hrest : Forall request_ok (delete i (waiting x))) by (by apply Forall_delete).
    split; [|done]. split; cbn [admitted st]; [done| |done]. intros Hs. rewrite H2. auto.
  - destruct (flush_all _ _ _) as [[pool wd] r]. split; [by split|done].
  - destruct Hok as [Hq Hnew]. pose proof (benign_store pid c _ Hc Hq Hnew) as Hb. split; [|done].
    split; cbn [admitted st set_store store]; [done| |by eapply benign_clean].
    intros Hs. rewrite (be_sequences _ _ _ Hb) by done. by apply Hl, (be_producer _ _ _ Hb).
Qed.

(** ** The writer of the partition *)

Definition input_of (r : Record_) : input := (r_key r, r_value r, r_timestamp r).

Lemma acked_inputs xs offsets env :
  length offsets = length xs -> map input_of (acked (CBatch xs env) (Appended (Ok offsets))) = xs.
Proof.
  cbn [acked inputs]. revert offsets. induction xs as [|[[k v] ts] xs IH]; intros [|o offsets] Hl; try done.
  injection Hl as Hl. cbn [zip_with map]. by rewrite (IH offsets Hl).
Qed.

Lemma append_batch_length xs env w w' offsets : append_batch xs env w = (w', Ok offsets) -> length offsets = length xs.
Proof.
  unfold append_batch. destruct xs as [|x xs]; [by intros [= _ <-]|].
  destruct (match wal _ with None => _ | Some h => _ end) as [w1 [[]|e|]]; [|done..].
  destruct (push_all _ _ w1) as [w2 [[]|e|]]; [|done..]. intros [= _ <-]. rewrite length_map, length_seqZ. apply Nat2Z.id.
Qed.

Lemma run_app cs cs' w wd w1 wd1 log failed w2 wd2 log' failed' :
  run cs w wd = (w1, wd1, log, failed) -> run cs' w1 wd1 = (w2, wd2, log', failed') ->
  run (cs ++ cs') w wd = (w2, wd2, log ++ log', failed || failed').
Proof.
  revert w wd log failed. induction cs as [|c cs IH]; intros w wd log failed H1 H2.
  - injection H1 as <- <- <- <-. exact H2.
  - cbn [run app] in *. destruct (perform_call c w wd) as [[w3 wd3] a].
    destruct (run cs w3 wd3) as [[[w4 wd4] log4] failed4] eqn:Hr. injection H1 as <- <- <- <-.
    rewrite (IH _ _ _ _ Hr H2). by rewrite app_assoc, orb_assoc.
Qed.

Abbreviation pool_of s := (writer_pool (service s)).

Lemma track_same req base last env s :
  service (track req base last env s) = service s /\ shared (track req base last env s) = shared s.
Proof. unfold track. by destruct (rq_transaction_id req). Qed.

Lemma run_batch xs env w w' r wd :
  append_batch xs env w = (w', r) -> run [CBatch xs env] w wd = (w', wd, acked (CBatch xs env) (Appended r), false).
Proof. intros Ha. cbn [run perform_call]. rewrite Ha. by rewrite app_nil_r. Qed.

Lemma run_batch_flush xs env fenv w w' r wd w2 wd2 flushed :
  append_batch xs env w = (w', r) -> flush_durable fenv w' wd = (w2, wd2, flushed) ->
  run [CBatch xs env; CFlushDurable fenv] w wd =
  (w2, wd2, acked (CBatch xs env) (Appended r), match flushed with Ok _ => false | _ => true end).
Proof. intros Ha Hf. cbn [run perform_call]. rewrite Ha, Hf. cbn. rewrite app_nil_r. by destruct flushed. Qed.

Lemma batch_inputs xs env rest : run_inputs (CBatch xs env :: rest) = xs ++ run_inputs rest.
Proof. done. Qed.

(** A write is a call of the writer. *)
Lemma write_calls req env s w :
  request_ok req -> writers (pool_of s) = {[key := w]} ->
  let '(s', r) := write org req env s in
  exists w' a,
    append_batch (rq_records req) (pe_append env) w = (w', a)
    /\ s' = set_pool (mk_writer_pool {[key := w']} (durable_flush_handles (pool_of s)) (wp_config (pool_of s))) (shared s) s
    /\ match r with Ok _ => exists os, a = Ok os | _ => acked (CBatch (rq_records req) (pe_append env)) (Appended a) = [] end.
Proof.
  intros [Ht Hp _ _ _] Hw. unfold write, get_writer. rewrite Ht, Hp. fold key. rewrite Hw, lookup_singleton_eq.
  destruct (append_batch (rq_records req) (pe_append env) w) as [w1 a]. unfold put_writer. rewrite Hw, insert_singleton_eq.
  destruct a as [[|base rest]|e|]; exists w1; eexists; (split; [done|]); (split; [done|]); try done. by eexists.
Qed.

(** A delivery is calls of the writer. *)
Lemma deliver_calls req env s w :
  request_ok req -> writers (pool_of s) = {[key := w]} ->
  let '(s', answer) := deliver org req env s in
  exists cs w' log failed,
    run cs w (shared s) = (w', shared s', log, failed)
    /\ writers (pool_of s') = {[key := w']} /\ wp_config (pool_of s') = wp_config (pool_of s)
    /\ run_inputs cs = rq_records req
    /\ match snd (write org req env s) with
       | Ok _ => map input_of log = rq_records req /\ failed = match answer with Ok _ => false | _ => true end
       | _ => log = [] /\ failed = false
       end.
Proof.
  intros Hr Hw. pose proof (write_calls req env s w Hr Hw) as Hwrite. unfold deliver.
  destruct (write org req env s) as [s1 r1]. destruct Hwrite as (w1 & a & Ha & -> & Hres). cbn [snd].
  set (batch := CBatch (rq_records req) (pe_append env)) in *.
  assert (Hin : run_inputs [batch] = rq_records req) by apply app_nil_r.
  pose proof (run_batch _ _ _ _ _ (shared s) Ha) as Hrun1. fold batch in Hrun1.
  destruct r1 as [[base n]|e|].
  2, 3: exists [batch], w1, [], false; rewrite Hrun1, Hres; by split_and!.
  destruct Hres as [offsets ->]. pose proof (acked_inputs _ _ (pe_append env) (append_batch_length _ _ _ _ _ Ha)) as Hlog.
  fold batch in Hlog. destruct (rq_ack_mode req =? 1).
  - unfold request_durable_flush, get_writer. destruct Hr as [Ht Hp _ _ _]. rewrite Ht, Hp. fold key.
    cbn [service set_pool writer_pool writers shared]. rewrite lookup_singleton_eq. unfold task_flush, do_flush.
    destruct (flush_durable (pe_flush env) w1 (shared s)) as [[w2 wd2] flushed] eqn:Hf.
    pose proof (run_batch_flush _ _ _ _ _ _ _ _ _ _ Ha Hf) as Hrun. fold batch in Hrun.
    assert (Hin2 : run_inputs [batch; CFlushDurable (pe_flush env)] = rq_records req) by apply app_nil_r.
    assert (Hput : forall d c, writers (put_writer key w2 (mk_writer_pool {[key := w1]} d c)) = {[key := w2]})
      by (intros d c; unfold key; cbn; apply insert_singleton_eq).
    destruct flushed as [x|e|]; cbn [map map_err]; eexists [batch; CFlushDurable (pe_flush env)], w2, _, _;
      (split; [try (rewrite (proj2 (track_same _ _ _ _ _))); exact Hrun|]);
      (split; [try (rewrite (proj1 (track_same _ _ _ _ _))); apply Hput|]);
      (split; [try (rewrite (proj1 (track_same _ _ _ _ _))); done|]); by split.
  - exists [batch], w1, (acked batch (Appended (Ok offsets))), false.
    rewrite (proj2 (track_same _ _ _ _ _)), (proj1 (track_same _ _ _ _ _)).
    split; [done|]. by split_and!.
Qed.

(** The writer has been called, since it was opened, with the batches that were written. *)
Definition called (cfg : WriteConfig) (wd : world) (x : sys) : Prop :=
  exists w0 open_env cs w log,
    PartitionWriter.new org t p cfg (pool_prefix org) [] open_env wd = Ok w0
    /\ run cs w0 wd = (w, shared (st x), log, flush_failed x)
    /\ writers (pool_of (st x)) = {[key := w]}
    /\ map input_of log = concat (map rq_records (written x))
    /\ run_inputs cs `sublist_of` concat (map rq_records (sent x)).

Definition unopened (wd : world) (x : sys) : Prop :=
  writers (pool_of (st x)) = ∅ /\ shared (st x) = wd /\ written x = [] /\ flush_failed x = false.

Definition writer_inv (cfg : WriteConfig) (wd : world) (x : sys) : Prop :=
  wp_config (pool_of (st x)) = cfg /\ (unopened wd x \/ called cfg wd x).

(** Opening the writer first changes nothing of a delivery. *)
Lemma deliver_opens req env s :
  request_ok req -> writers (pool_of s) = ∅ -> pe_file env = [] ->
  match PartitionWriter.new org t p (wp_config (pool_of s)) (pool_prefix org) [] (pe_open env) (shared s) with
  | Ok w => let s1 := set_pool (put_writer key w (pool_of s)) (shared s) s in
            deliver org req env s = deliver org req env s1 /\ snd (write org req env s) = snd (write org req env s1)
  | _ => exists r, write org req env s = (s, r) /\ deliver org req env s = (s, match r with Err e => Err e | _ => Panic end)
         /\ match r with Ok _ => False | _ => True end
  end.
Proof.
  intros [Ht Hp _ _ _] Hw Hfile. unfold deliver, write, get_writer. rewrite Ht, Hp, Hfile. fold key. rewrite Hw, lookup_empty.
  assert (Hsame : set_pool (pool_of s) (shared s) s = s) by (destruct s as [[]]; done).
  destruct (PartitionWriter.new _ _ _ _ _ _ _ _) as [w|e|]; [|rewrite Hsame; by eexists..].
  cbn [service set_pool writer_pool writers put_writer shared]. rewrite lookup_insert_eq. split; done.
Qed.

Lemma called_deliver cfg wd x req env s' answer :
  request_ok req -> called cfg wd x -> deliver org req env (st x) = (s', answer) ->
  let ok := match snd (write org req env (st x)) with Ok _ => true | _ => false end in
  forall rest adm,
  called cfg wd
    (mk_sys s' rest adm (if ok then written x ++ [req] else written x) (if ok then lost x else lost x ++ [req]) (sent x ++ [req])
       (flush_failed x || (ok && match answer with Ok _ => false | _ => true end)))
  /\ wp_config (pool_of s') = wp_config (pool_of (st x)).
Proof.
  intros Hr (w0 & oe & cs & w & log & Hnew & Hrun & Hw & Hlog & Hin) Hd ok rest adm.
  pose proof (deliver_calls req env (st x) w Hr Hw) as Hc. rewrite Hd in Hc.
  destruct Hc as (cs' & w' & log' & failed & Hrun' & Hw' & Hcfg & Hin' & Hres). split; [|done].
  exists w0, oe, (cs ++ cs'), w', (log ++ log'). split; [done|]. cbn [st written lost sent flush_failed].
  assert (Hins : run_inputs (cs ++ cs') `sublist_of` concat (map rq_records (sent x ++ [req]))).
  { unfold run_inputs in *. rewrite !map_app, !concat_app. cbn. rewrite app_nil_r, Hin'. by apply sublist_app. }
  rewrite (run_app _ _ _ _ _ _ _ _ _ _ _ _ Hrun Hrun'). unfold ok.
  destruct (snd (write _ _ _ _)) as [b|e|]; destruct Hres as [Hl Hf]; rewrite map_app, Hlog, Hl.
  - split; [by rewrite Hf|]. split; [done|]. split; [|done].
    rewrite !map_app, concat_app. cbn. by rewrite app_nil_r.
  - split; [by rewrite Hf|]. split; [done|]. split; [by rewrite app_nil_r|done].
  - split; [by rewrite Hf|]. split; [done|]. split; [by rewrite app_nil_r|done].
Qed.

Lemma iter_singleton {A} (k : string * string * Z) (a : A) : iter {[k := a]} = [(k, a)].
Proof.
  pose proof (iter_perm {[k := a]}) as Hp. rewrite map_to_list_singleton in Hp. by apply Permutation_singleton_r in Hp.
Qed.

Lemma iter_empty {A} : iter (∅ : gmap (string * string * Z) A) = [].
Proof. pose proof (iter_perm (∅ : gmap (string * string * Z) A)) as Hp. rewrite map_to_list_empty in Hp. by apply Permutation_nil_r in Hp. Qed.

Lemma writer_flush cfg wd env x : writer_inv cfg wd x -> writer_inv cfg wd (step (FlushAll env) x).
Proof.
  intros [Hcfg [(Hw & Hs & Hwr & Hf)|(w0 & oe & cs & w & log & Hnew & Hrun & Hw & Hlog & Hin)]]; cbn [step].
  - unfold flush_all. rewrite Hw, iter_empty, lookup_empty. cbn. split; [done|]. left.
    unfold unopened. cbn. by rewrite Hw, Hs, Hwr, Hf.
  - unfold flush_all. rewrite Hw, iter_singleton, lookup_singleton_eq. cbn [flush_writers].
    destruct (flush_durable env w (shared (st x))) as [[w' wd'] r] eqn:Hflush.
    assert (Hput : writers (put_writer key w' (pool_of (st x))) = {[key := w']}) by (cbn; by rewrite Hw, insert_singleton_eq).
    assert (Hcall : run (cs ++ [CFlushDurable env]) w0 wd =
              (w', wd', log, flush_failed x || match r with Ok _ => false | _ => true end)).
    { rewrite <- (app_nil_r log). eapply run_app; [done|]. cbn [run perform_call]. rewrite Hflush. cbn. by destruct r. }
    assert (Hins : run_inputs (cs ++ [CFlushDurable env]) = run_inputs cs).
    { unfold run_inputs. rewrite map_app, concat_app. cbn. by rewrite app_nil_r. }
    destruct r as [o|e|]; (split; [done|right]); exists w0, oe, (cs ++ [CFlushDurable env]), w', log;
      cbn [st flush_failed written sent set_pool shared service writer_pool]; rewrite Hins; by split_and!.
Qed.

Lemma writer_step pid cfg wd e x :
  unquoted t = true -> event_ok pid e -> Forall request_ok (waiting x) ->
  match e with Admit req _ => len (rq_records req) < 2 ^ 32 | _ => True end ->
  writer_inv cfg wd x -> writer_inv cfg wd (step e x).
Proof.
  intros Hut Hok Hwait Hlen HI. destruct e as [req env|i env|env|c]; [| |by apply writer_flush|exact HI]; cbn [step].
  - pose proof (admit_spec req env (st x) Hok Hut Hlen) as Ha.
    destruct (admission (Some org) req env (st x)) as [s r]. destruct Ha as (Hsv & Hsh & _).
    destruct HI as [Hcfg HI].
    destruct r as [[o [|]]|err|]; (split; [cbn; by rewrite Hsv|]);
      (destruct HI as [HI|HI]; [left|right]); unfold unopened, called in *; cbn [st written sent flush_failed] in *; by rewrite Hsv, Hsh.
  - destruct (waiting x !! i) as [req|] eqn:Hi; [|done].
    assert (Hr : request_ok req) by (by eapply Forall_lookup_1).
    destruct HI as [Hcfg [(Hw & Hs & Hwr & Hf)|HI]].
    + pose proof (deliver_opens req env (st x) Hr Hw Hok) as Ho. rewrite Hcfg, Hs in Ho.
      destruct (PartitionWriter.new org t p cfg (pool_prefix org) [] (pe_open env) wd) as [w|e|] eqn:Hnew.
      * destruct Ho as [Hd Hwrite]. rewrite Hd, Hwrite.
        set (s1 := set_pool (put_writer key w (pool_of (st x))) wd (st x)) in *.
        assert (Hcalled : called cfg wd (mk_sys s1 (waiting x) (admitted x) (written x) (lost x) (sent x) (flush_failed x))).
        { exists w, (pe_open env), [], w, []. cbn [st written sent flush_failed]. rewrite Hwr, Hf. split; [done|].
          split; [done|]. split; [cbn; by rewrite Hw|]. split; [done|]. apply sublist_nil_l. }
        destruct (deliver org req env s1) as [s' answer] eqn:Hdel.
        destruct (called_deliver cfg wd _ req env s' answer Hr Hcalled Hdel (delete i (waiting x)) (admitted x)) as [Hc Hc'].
        split; [cbn [st]; rewrite Hc'; done|]. right. exact Hc.
      * destruct Ho as (r & Hwrite & -> & Hr'). rewrite Hwrite. cbn [snd].
        destruct r; [done|..]; (split; [done|]); left; unfold unopened; cbn; by rewrite Hwr, Hf, Hw, Hs.
      * destruct Ho as (r & Hwrite & -> & Hr'). rewrite Hwrite. cbn [snd].
        destruct r; [done|..]; (split; [done|]); left; unfold unopened; cbn; by rewrite Hwr, Hf, Hw, Hs.
    + destruct (deliver org req env (st x)) as [s' answer] eqn:Hdel.
      destruct (called_deliver cfg wd _ req env s' answer Hr HI Hdel (delete i (waiting x)) (admitted x)) as [Hc Hc'].
      split; [cbn [st]; by rewrite Hc'|]. right. exact Hc.
Qed.

(** ** Counting *)

Definition counted (x : sys) : Prop :=
  written x ++ lost x ≡ₚ sent x /\ waiting x ++ sent x ≡ₚ admitted x.

Lemma counted_step e x : counted x -> counted (step e x).
Proof.
  intros [H1 H2]. destruct e as [req env|i env|env|c]; cbn [step]; [| | |done].
  - destruct (admission (Some org) req env (st x)) as [s [[o [|]]|e|]]; [|done..]. split; [done|]. cbn.
    rewrite <- H2. rewrite <- !app_assoc. apply Permutation_app_head, Permutation_app_comm.
  - destruct (waiting x !! i) as [req|] eqn:Hi; [|done]. destruct (deliver _ _ _ _) as [s answer].
    apply delete_Permutation in Hi. split; cbn [written lost sent waiting admitted].
    + destruct (snd (write _ _ _ _)).
      * rewrite <- H1, <- !app_assoc. apply Permutation_app_head, Permutation_app_comm.
      * by rewrite app_assoc, H1.
      * by rewrite app_assoc, H1.
    + etrans; [|exact H2]. rewrite app_assoc. etrans; [apply Permutation_app_comm|]. cbn.
      change (req :: delete i (waiting x) ++ sent x) with ((req :: delete i (waiting x)) ++ sent x). by rewrite <- Hi.
  - by destruct (flush_all _ _ _) as [[pool wd] r].
Qed.

Definition requests (es : list event) : list ProduceRequest :=
  concat (map (fun e => match e with Admit req _ => [req] | _ => [] end) es).

Lemma admitted_step e x : admitted (step e x) `sublist_of` admitted x ++ requests [e].
Proof.
  destruct e as [req env|i env|env|c]; cbn [step].
  - destruct (admission (Some org) req env (st x)) as [s [[o [|]]|err|]]; cbn; [done|by apply sublist_inserts_r..].
  - cbn. rewrite app_nil_r. destruct (waiting x !! i); [|done]. by destruct (deliver _ _ _ _).
  - cbn. rewrite app_nil_r. by destruct (flush_all _ _ _) as [[pool wd] r].
  - cbn. by rewrite app_nil_r.
Qed.

Definition size_of (l : list ProduceRequest) : Z := len (concat (map rq_records l)).

Lemma size_of_perm l l' : l ≡ₚ l' -> size_of l = size_of l'.
Proof. intros Hp. unfold size_of. f_equal. apply Permutation_length. by rewrite Hp. Qed.

Lemma records_of_sublist l l' i :
  l `sublist_of` l' -> i ∈ concat (map rq_records l) -> i ∈ concat (map rq_records l').
Proof.
  intros Hl. rewrite !list_elem_of_In, !in_concat. intros (rs & [r [<- Hr]]%in_map_iff & Hi).
  exists (rq_records r). split; [|done]. apply in_map, list_elem_of_In, (sublist_subseteq _ _ Hl), list_elem_of_In, Hr.
Qed.

Lemma requests_ok pid es : Forall (event_ok pid) es -> Forall request_ok (requests es).
Proof.
  induction 1 as [|e es He _ IH]; [done|]. change (requests (e :: es)) with (requests ([e] ++ es)).
  unfold requests in *. rewrite map_app, concat_app. apply Forall_app. split; [|done].
  destruct e; cbn; [by constructor|done..].
Qed.

Lemma requests_input_ok pid es i :
  Forall (event_ok pid) es -> i ∈ concat (map rq_records (requests es)) -> input_ok i.
Proof.
  intros Hes%requests_ok. rewrite list_elem_of_In, in_concat. intros (rs & [r [<- Hr]]%in_map_iff & Hi).
  rewrite Forall_forall in Hes. specialize (Hes r ltac:(by apply list_elem_of_In)).
  pose proof (ro_records _ Hes) as Hall. rewrite Forall_forall in Hall. by apply Hall, list_elem_of_In.
Qed.

Lemma size_of_sublist l l' : l `sublist_of` l' -> size_of l <= size_of l'.
Proof. unfold size_of. induction 1; cbn; rewrite ?length_app; lia. Qed.

Lemma size_of_app l l' : size_of (l ++ l') = size_of l + size_of l'.
Proof. unfold size_of. rewrite map_app, concat_app, length_app. lia. Qed.

(** All the invariants, along a run. *)
Lemma system_inv pid cfg wd es x :
  unquoted t = true -> Forall (event_ok pid) es -> Forall request_ok (waiting x) -> size_of (requests es) < 2 ^ 32 ->
  sequence_inv pid x -> writer_inv cfg wd x -> counted x ->
  let x' := foldl (fun x e => step e x) x es in
  sequence_inv pid x' /\ writer_inv cfg wd x' /\ counted x' /\ admitted x' `sublist_of` admitted x ++ requests es.
Proof.
  intros Hut Hes. revert x. induction Hes as [|e es He Hes IH]; intros x Hwait Hsize Hs Hw Hc.
  - cbn. by rewrite app_nil_r.
  - cbn [foldl]. change (requests (e :: es)) with (requests ([e] ++ es)) in *.
    assert (Hsplit : requests ([e] ++ es) = requests [e] ++ requests es) by (unfold requests; by rewrite map_app, concat_app).
    rewrite Hsplit, size_of_app in Hsize.
    assert (Hlen : match e with Admit req _ => len (rq_records req) < 2 ^ 32 | _ => True end).
    { destruct e as [req env| | |]; [|done..]. unfold size_of in Hsize. cbn in Hsize. rewrite app_nil_r in Hsize. lia. }
    destruct (sequence_step pid e x Hut He Hwait Hlen Hs) as [Hs' Hwait'].
    destruct (IH (step e x)) as (H1 & H2 & H3 & H4); [done| |done| |by apply counted_step|].
    + unfold size_of in *. lia.
    + by apply (writer_step pid).
    + split; [done|]. split; [done|]. split; [done|]. rewrite H4, Hsplit, app_assoc.
      by apply sublist_app; [apply admitted_step|].
Qed.

Definition buffered (s : state) : list Record_ :=
  match writers (pool_of s) !! key with Some w => buffered_records w | None => [] end.

Definition start (agent : string) (cfg : WriteConfig) (wd : world) (d : db) : sys :=
  mk_sys (mk_state (mk_service (WriterPool.new cfg) agent false) wd d) [] [] [] [] [] false.

End system.

(** ** Sending again *)

Section again.
Context `{HashOrder} `{SqlText} `{HC : Codecs} `{HP : ObjectPaths} `{HJ : JsonMaps}.

(** Requests only write to the writer's pool and to the partitions of transactions. *)
Lemma track_producers req base last env s :
  forallb unquoted (optional (rq_transaction_id req)) = true -> unquoted (rq_topic req) = true ->
  producers (store (track req base last env s)) = producers (store s)
  /\ producer_sequences (store (track req base last env s)) = producer_sequences (store s)
  /\ service (track req base last env s) = service s.
Proof.
  intros Hid Ht. unfold track. destruct (rq_transaction_id req) as [id|]; [|done].
  assert (Hl : forallb unquoted [id; rq_topic req] = true) by (cbn in *; by rewrite Ht, !andb_true_r in *).
  unfold try_call, add_transaction_partition, update_transaction_partition_offset. rewrite !quoted_run by done.
  set (d1 := fst (match pe_add env with Some e => _ | None => _ end)).
  assert (H1 : producers d1 = producers (store s) /\ producer_sequences d1 = producer_sequences (store s)).
  { unfold d1. destruct (pe_add env); [done|]. unfold insert_txn_partition.
    destruct (transaction_partitions (store s) !! _); [done|]. by case_bool_decide. }
  destruct H1 as [H1 H2]. split; [|split; [|done]]; cbn [store set_store]; by destruct (pe_update env).
Qed.

Lemma write_service org req env s :
  shutting_down (service (fst (write org req env s))) = shutting_down (service s)
  /\ agent_id (service (fst (write org req env s))) = agent_id (service s).
Proof.
  unfold write. destruct (get_writer _ _ _ _ _ _ _) as [pool [w|e|]]; [|done..].
  by destruct (append_batch _ _ w) as [w' [[|b l]|e|]].
Qed.

Lemma deliver_keeps org req env s :
  forallb unquoted (optional (rq_transaction_id req)) = true -> unquoted (rq_topic req) = true ->
  let s' := fst (deliver org req env s) in
  producers (store s') = producers (store s) /\ producer_sequences (store s') = producer_sequences (store s)
  /\ shutting_down (service s') = shutting_down (service s) /\ agent_id (service s') = agent_id (service s).
Proof.
  intros Hid Ht. cbv zeta. unfold deliver. pose proof (write_store org req env s) as Hw.
  destruct (write_service org req env s) as [Hsh Hag].
  destruct (write org req env s) as [s1 [[base n]|e|]]; cbn [fst] in *; [|by rewrite Hw..].
  set (next := if rq_ack_mode req =? 1 then _ else _).
  assert (Hn : store (fst next) = store s1 /\ shutting_down (service (fst next)) = shutting_down (service s1)
               /\ agent_id (service (fst next)) = agent_id (service s1)).
  { unfold next. destruct (_ =? _); [|done]. by destruct (request_durable_flush _ _ _ _ _ _ _ _) as [[pool wd] r]. }
  destruct next as [s2 [[]|e|]]; cbn [fst] in Hn |- *; destruct Hn as (Hn & Hn' & Hn''); [|by rewrite Hn, Hw, Hn', Hn''..].
  destruct (track_producers req base (wrap 64 (base + n - 1)) env s2 Hid Ht) as (H1 & H2 & H3).
  by rewrite H1, H2, H3, Hn, Hn', Hn'', Hw.
Qed.

(** A batch of an idempotent producer that was admitted is below the sequence from then on. *)
Lemma admitted_is_known org req q env s s1 o :
  rq_producer_id req = Some q -> forallb unquoted [q; rq_topic req] = true -> rq_records req <> [] ->
  len (rq_records req) < 2 ^ 32 -> - 2 ^ 63 <= default 0 (rq_base_sequence req) ->
  default 0 (rq_base_sequence req) + len (rq_records req) <= 2 ^ 63 ->
  admission org req env s = (s1, Ok (o, true)) ->
  org = Some o /\ o <> ""%string /\ rq_topic req <> ""%string /\ shutting_down (service s) = false /\ service s1 = service s
  /\ (exists pr, producers (store s1) !! q = Some pr /\ pr_state pr = Active /\ pr_epoch pr = default 0 (rq_producer_epoch req))
  /\ exists n, producer_sequences (store s1) !! (q, rq_topic req, rq_partition req) = Some n
               /\ default 0 (rq_base_sequence req) <= n.
Proof.
  intros Hq Hquot Hne Hlen Hb Hb'. unfold admission. destruct (shutting_down _) eqn:Hsd; [done|].
  destruct org as [[|a org]|]; [done| |done]. case_bool_decide as Ht; [done|]. case_bool_decide; [done|].
  destruct (validate_lease _ _ _ _); [|done|done]. rewrite Hq. rewrite wrap_small by (unfold in_u; lia).
  unfold validate_idempotent, try_call, get_producer. destruct (pe_producer env); [done|].
  rewrite quoted_run by (cbn in *; by destruct (unquoted q)).
  destruct (producers (store s) !! q) as [pr|] eqn:Hpr; [|done].
  case_bool_decide as Hst; [done|]. case_bool_decide as Hst'; [done|].
  destruct (Z.eqb_spec (pr_epoch pr) (default 0 (rq_producer_epoch req))) as [Hep|]; [|done]. cbn [negb].
  destruct (pe_sequence env); [done|]. unfold check_and_update_sequence. rewrite quoted_run by done.
  destruct (_ <=? _) eqn:Hle; [done|]. destruct (_ >? _) eqn:Hgt; [done|].
  unfold put_sequence. rewrite Hpr, bool_decide_eq_true_2 by by eexists. intros [= <- <-].
  split; [done|]. split; [done|]. split; [done|]. split; [done|]. split; [done|]. split.
  - exists pr. split; [done|]. split; [by destruct (pr_state pr)|done].
  - cbn. rewrite lookup_insert_eq. eexists. split; [done|].
    assert (Hpos : 1 <= len (rq_records req)) by (destruct (rq_records req); [done|cbn [length]; lia]).
    rewrite swrap_small; [lia|lia|]. unfold in_i. change (2 ^ (64 - 1)) with (2 ^ 63). lia.
Qed.

(** Sending a batch again.  Once a batch of an idempotent producer has been admitted, the
    same request is answered as a duplicate, successfully and without any effect, as long as
    the agent holds the lease and its store answers: so a batch whose answer was lost is not
    written twice.  But the sequence is taken before the write, so it is answered like
    that also when the write failed and the batch is nowhere. *)
Theorem batch_sent_again org q req env env' s s1 s2 o r :
  rq_producer_id req = Some q -> forallb unquoted (q :: rq_topic req :: optional (rq_transaction_id req)) = true ->
  len (rq_records req) < 2 ^ 32 -> - 2 ^ 63 <= default 0 (rq_base_sequence req) ->
  default 0 (rq_base_sequence req) + len (rq_records req) <= 2 ^ 63 ->
  admission org req env s = (s1, Ok (o, true)) -> deliver o req env s1 = (s2, r) ->
  validate_lease (rq_topic req) (rq_partition req) env' s2 = Ok () -> pe_producer env' = None -> pe_sequence env' = None ->
  produce org req env' s2 = (s2, Ok (duplicate_response req)).
Proof.
  intros Hq Hquot Hlen Hb Hb' Had Hdel Hlease Hp Hs.
  assert (Hq2 : forallb unquoted [q; rq_topic req] = true) by (cbn in *; by destruct (unquoted q), (unquoted (rq_topic req))).
  assert (Hq1 : forallb unquoted [q] = true) by (cbn in *; by destruct (unquoted q)).
  assert (Hqt : forallb unquoted (optional (rq_transaction_id req)) = true) by (cbn in *; by destruct (unquoted q), (unquoted (rq_topic req))).
  assert (Hne : rq_records req <> []).
  { intros He. revert Had. unfold admission. destruct (shutting_down _); [done|]. destruct org as [[|a org]|]; [done| |done].
    case_bool_decide; [done|]. by rewrite (bool_decide_eq_true_2 _ He). }
  destruct (admitted_is_known org req q env s s1 o Hq Hq2 Hne Hlen Hb Hb' Had)
    as (-> & Ho & Ht & Hsd & Hsv & (pr & Hpr & Hst & Hep) & n & Hn & Hle).
  pose proof (deliver_keeps o req env s1 Hqt ltac:(cbn in Hquot; by destruct (unquoted q), (unquoted (rq_topic req)))) as Hk.
  rewrite Hdel in Hk. destruct Hk as (K1 & K2 & K3 & _). cbn [fst] in *.
  unfold produce, admission. rewrite K3, Hsv, Hsd. destruct o as [|a o]; [done|].
  rewrite (bool_decide_eq_false_2 _ Ht), (bool_decide_eq_false_2 _ Hne), Hlease, Hq.
  unfold validate_idempotent, try_call, get_producer. rewrite Hp, (quoted_run [q]) by done. rewrite K1, Hpr, Hst, Hep, Z.eqb_refl, Hs.
  cbn [negb bool_decide decide ProducerState_eq_dec]. unfold check_and_update_sequence. rewrite quoted_run by done.
  rewrite K2, Hn. change (default (-1) (Some n)) with n. rewrite (proj2 (Z.leb_le _ _) Hle). by destruct s2.
Qed.
End again.
