(* ===== verification/ProducerFacts.v ===== *)
(** * Facts about producers and transactions

    The calls of [ProducerStore] in any order: epochs of a transactional producer, decisions
    of transactions, markers and stable offsets. *)

From stdpp Require Import sorting.
From S2P Require Import Prelude HashMap MetadataError ProducerStore ProduceService ProduceFacts.

(** ** Epochs *)

Section epochs.
Context `{HashOrder} `{SqlText}.

(** Rows are stored under their ids. *)
Definition keyed (d : db) : Prop := forall id p, producers d !! id = Some p -> pr_id p = id.

Definition transactional (org txn : string) : InitProducerConfig := mk_init_producer (Some txn) (Some org).

(** At most one row of the organization has the id. *)
Definition one_row (org txn : string) (d : db) : Prop :=
  forall i j p q, producers d !! i = Some p -> producers d !! j = Some q ->
    pr_organization_id p = Some org -> pr_transactional_id p = Some txn ->
    pr_organization_id q = Some org -> pr_transactional_id q = Some txn -> i = j.

Lemma head_iter {A} (P : A -> Prop) `{forall x, Decision (P x)} (m : gmap string A) :
  match head (filter P (map snd (iter m))) with
  | Some a => P a /\ exists k, m !! k = Some a
  | None => forall k a, m !! k = Some a -> ~ P a
  end.
Proof.
  destruct (filter P (map snd (iter m))) as [|a l] eqn:Hf; cbn.
  - intros k a Hk Ha. assert (Hin : a ∈ filter P (map snd (iter m))).
    { apply list_elem_of_filter. split; [done|]. apply list_elem_of_fmap. exists (k, a). split; [done|]. by apply elem_of_iter. }
    rewrite Hf in Hin. by apply not_elem_of_nil in Hin.
  - assert (Hin : a ∈ filter P (map snd (iter m))) by (rewrite Hf; left).
    apply list_elem_of_filter in Hin as [Ha Hin]. split; [done|].
    apply list_elem_of_fmap in Hin as ([k b] & -> & Hk). exists k. by apply elem_of_iter.
Qed.

(** What [init_producer] finds: the row of the organization. *)
Lemma init_lookup_spec org txn d :
  forallb unquoted [txn; org] = true ->
  exists existing, init_lookup (transactional org txn) d = (d, Ok existing) /\
  match existing with
  | Some p => pr_transactional_id p = Some txn /\ pr_organization_id p = Some org /\ exists k, producers d !! k = Some p
  | None => forall k p, producers d !! k = Some p -> ~ (pr_transactional_id p = Some txn /\ pr_organization_id p = Some org)
  end.
Proof.
  intros Hq. unfold init_lookup, transactional, get_producer_by_transactional_id. cbn [ip_transactional_id ip_organization_id optional].
  rewrite quoted_run by done. eexists. split; [done|].
  pose proof (head_iter (fun p => pr_transactional_id p = Some txn /\ pr_organization_id p = Some org) (producers d)) as Hh.
  destruct (head _) as [p|]; [|exact Hh]. destruct Hh as [[H1 H2] H3]. done.
Qed.

(** A successful initialisation leaves one row, with the epoch it returns. *)
Lemma init_spec org txn uuid now d d' p :
  forallb unquoted [txn; org] = true -> org <> ""%string -> txn <> ""%string -> keyed d -> one_row org txn d ->
  ProducerStore.init_producer (transactional org txn) uuid now d = (d', Ok p) ->
  keyed d' /\ one_row org txn d' /\ producers d' !! pr_id p = Some p
  /\ pr_organization_id p = Some org /\ pr_transactional_id p = Some txn /\ pr_state p = Active
  /\ match snd (init_lookup (transactional org txn) d) with
     | Ok (Some q) => pr_id p = pr_id q /\ pr_epoch p = wrap 32 (pr_epoch q + 1)
     | _ => pr_id p = uuid /\ pr_epoch p = 0
     end.
Proof.
  intros Hq Ho Ht Hk Hone. unfold ProducerStore.init_producer.
  destruct (init_lookup_spec org txn d Hq) as (existing & -> & Hex). cbn [snd].
  destruct existing as [q|]; cbn [init_finish].
  - destruct Hex as (Htx & Horg & k & Hkq). pose proof (Hk k q Hkq) as Hid. subst k.
    unfold bump_epoch. set (e := wrap 32 (pr_epoch q + 1)). intros [= <- <-]. split_and!; try done.
    + intros id p. cbn. destruct (decide (pr_id q = id)) as [<- |Hne].
      * rewrite lookup_alter_eq, Hkq. by intros [= <-].
      * rewrite lookup_alter_ne by done. apply Hk.
    + intros i j a b. cbn. intros Hi Hj H1 H2 H3 H4.
      assert (Hold : forall i a, alter (set_epoch e now) (pr_id q) (producers d) !! i = Some a ->
                exists a0, producers d !! i = Some a0 /\ pr_organization_id a0 = pr_organization_id a
                           /\ pr_transactional_id a0 = pr_transactional_id a).
      { intros i' a'. destruct (decide (pr_id q = i')) as [<- |Hne].
        - rewrite lookup_alter_eq, Hkq. intros [= <-]. by exists q.
        - rewrite lookup_alter_ne by done. intros Ha. by exists a'. }
      destruct (Hold i a Hi) as (a0 & Ha0 & E1 & E2), (Hold j b Hj) as (b0 & Hb0 & E3 & E4).
      apply (Hone i j a0 b0); congruence.
    + cbn. by rewrite lookup_alter_eq, Hkq.
  - unfold insert_producer. cbn [transactional ip_organization_id ip_transactional_id optional app].
    rewrite quoted_run by (cbn in *; by destruct (unquoted txn), (unquoted org)).
    destruct (bool_decide _ || _) eqn:Hdup; [done|]. apply orb_false_iff in Hdup as [Hnew%bool_decide_eq_false_1 _].
    intros [= <- <-]. cbn [nullif]. rewrite !bool_decide_eq_false_2 by done.
    split_and!; try done; cbn.
    + intros id p. cbn. destruct (decide (uuid = id)) as [<- |Hne].
      * rewrite lookup_insert_eq. by intros [= <-].
      * rewrite lookup_insert_ne by done. apply Hk.
    + intros i j a b Hi Hj H1 H2 H3 H4. cbn in Hi, Hj.
      destruct (decide (uuid = i)) as [<- |Hi'], (decide (uuid = j)) as [<- |Hj']; [done|..].
      * rewrite lookup_insert_ne in Hj by done. by destruct (Hex _ _ Hj).
      * rewrite lookup_insert_ne in Hi by done. by destruct (Hex _ _ Hi).
      * rewrite lookup_insert_ne in Hi, Hj by done. apply (Hone i j a b); done.
    + by rewrite lookup_insert_eq.
Qed.

(** What finds the row again. *)
Lemma lookup_row org txn d p :
  forallb unquoted [txn; org] = true -> one_row org txn d -> keyed d -> producers d !! pr_id p = Some p ->
  pr_organization_id p = Some org -> pr_transactional_id p = Some txn ->
  init_lookup (transactional org txn) d = (d, Ok (Some p)).
Proof.
  intros Hq Hone Hk Hp Ho Ht. destruct (init_lookup_spec org txn d Hq) as ([q|] & -> & Hex).
  - destruct Hex as (H1 & H2 & k & Hq'). pose proof (Hone _ _ _ _ Hp Hq' Ho Ht H2 H1) as Hid. congruence.
  - by destruct (Hex _ _ Hp).
Qed.

(** Fencing.  When a transactional producer is initialised again, it keeps its id and gets
    another epoch, and a batch of the earlier incarnation is refused without any effect.
    The rows keep the form that the next initialisation needs. *)
Theorem init_fences org txn uuid now d d' q p :
  forallb unquoted [txn; org; pr_id q] = true -> org <> ""%string -> txn <> ""%string -> keyed d -> one_row org txn d ->
  producers d !! pr_id q = Some q -> pr_organization_id q = Some org -> pr_transactional_id q = Some txn -> in_u 32 (pr_epoch q) ->
  ProducerStore.init_producer (transactional org txn) uuid now d = (d', Ok p) ->
  keyed d' /\ one_row org txn d' /\ producers d' !! pr_id p = Some p
  /\ pr_id p = pr_id q /\ pr_epoch p <> pr_epoch q /\ in_u 32 (pr_epoch p)
  /\ forall base topic partition count env, pe_producer env = None ->
       validate_idempotent (pr_id q) (pr_epoch q) base topic partition count env d'
       = (d', Err (FailedPrecondition (epoch_mismatch (pr_epoch p) (pr_epoch q)))).
Proof.
  intros Hq Ho Ht Hk Hone Hrow Horg Htxn Hep Hinit.
  assert (Hq2 : forallb unquoted [txn; org] = true) by (cbn in *; by destruct (unquoted txn), (unquoted org)).
  assert (Hq1 : forallb unquoted [pr_id q] = true) by (cbn in *; by destruct (unquoted txn), (unquoted org), (unquoted (pr_id q))).
  destruct (init_spec org txn uuid now d d' p Hq2 Ho Ht Hk Hone Hinit) as (H1 & H2 & H3 & _ & _ & H4 & H5).
  rewrite (lookup_row org txn d q Hq2 Hone Hk Hrow Horg Htxn) in H5. destruct H5 as [Hid He].
  assert (Hne : pr_epoch p <> pr_epoch q).
  { rewrite He. unfold in_u in Hep. unfold wrap. destruct (decide (pr_epoch q = 2 ^ 32 - 1)) as [-> |]; [done|].
    rewrite Z.mod_small; lia. }
  split; [done|]. split; [done|]. split; [done|]. split; [done|]. split; [done|]. split; [rewrite He; by apply wrap_in_u|].
  intros base topic partition count env Henv. unfold validate_idempotent, try_call, get_producer.
  rewrite Henv, quoted_run by done. rewrite <- Hid, H3, H4. cbn [bool_decide decide ProducerState_eq_dec].
  by rewrite (proj2 (Z.eqb_neq _ _) Hne).
Qed.

(** Fencing is lost between two initialisations at once: the row is read in one statement
    and written in another, so when both read it first, both get the same id and the same
    epoch, and whatever one of them may send the other may send as well. *)
Theorem concurrent_init_same_epoch org txn uuid1 now1 uuid2 now2 d d1 d2 q p1 p2 :
  forallb unquoted [txn; org] = true -> keyed d -> one_row org txn d ->
  producers d !! pr_id q = Some q -> pr_organization_id q = Some org -> pr_transactional_id q = Some txn ->
  let config := transactional org txn in
  forall found1 found2,
  init_lookup config d = (d, Ok found1) -> init_lookup config d = (d, Ok found2) ->
  init_finish config found1 uuid1 now1 d = (d1, Ok p1) -> init_finish config found2 uuid2 now2 d1 = (d2, Ok p2) ->
  pr_id p1 = pr_id p2 /\ pr_epoch p1 = pr_epoch p2 /\ producers d2 !! pr_id p2 = Some p2 /\ pr_state p2 = Active
  /\ forall base topic partition count env,
       validate_idempotent (pr_id p1) (pr_epoch p1) base topic partition count env d2
       = validate_idempotent (pr_id p2) (pr_epoch p2) base topic partition count env d2.
Proof.
  intros Hq Hk Hone Hrow Horg Htxn config found1 found2. unfold config.
  rewrite (lookup_row org txn d q Hq Hone Hk Hrow Horg Htxn). intros [= <-] [= <-].
  cbn [init_finish]. unfold bump_epoch. intros [= <- <-] [= <- <-]. cbn [pr_id pr_epoch set_epoch pr_state].
  split; [done|]. split; [done|]. split; [|by split]. cbn. by rewrite !lookup_alter_eq, Hrow.
Qed.
End epochs.

(** ** Transactions *)

(** The calls about transactions, of agents, of Kafka clients ([..ForOrg]) and of cleaners. *)
Inductive txn_call : Type :=
| Begin (organization : option string) (producer_id uuid : string) (timeout_ms now : Z)
| AddPartition (organization : option string) (id topic : string) (partition first_offset : Z)
| UpdateOffset (id topic : string) (partition last_offset : Z)
| Prepare (organization : option string) (id : string)
| CommitTxn (organization : option string) (id : string) (now : Z)
| AbortTxn (organization : option string) (id : string) (now : Z)
| Forget (max_age_ms now : Z)
| ExpireProducers (timeout_ms now : Z).

Section transactions.
Context `{HashOrder} `{SqlText}.

Definition perform (c : txn_call) (d : db) : db :=
  match c with
  | Begin None pid uuid timeout now => fst (ProducerStore.begin_transaction pid uuid timeout now d)
  | Begin (Some org) pid uuid timeout now => fst (begin_transaction_for_org org pid uuid timeout now d)
  | AddPartition None id topic partition first => fst (add_transaction_partition id topic partition first d)
  | AddPartition (Some org) id topic partition first => fst (add_transaction_partition_for_org org id topic partition first d)
  | UpdateOffset id topic partition last => fst (update_transaction_partition_offset id topic partition last d)
  | Prepare None id => fst (prepare_transaction id d)
  | Prepare (Some org) id => fst (prepare_transaction_for_org org id d)
  | CommitTxn None id now => fst (ProducerStore.commit_transaction id now d)
  | CommitTxn (Some org) id now => fst (commit_transaction_for_org org id now d)
  | AbortTxn None id now => fst (ProducerStore.abort_transaction id now d)
  | AbortTxn (Some org) id now => fst (abort_transaction_for_org org id now d)
  | Forget age now => fst (cleanup_completed_transactions age now d)
  | ExpireProducers timeout now => fst (cleanup_expired_producers timeout now d)
  end.

(** The texts of a call hold no quotes. *)
Definition call_ok (c : txn_call) : Prop :=
  match c with
  | Begin _ pid _ _ _ => unquoted pid = true
  | AddPartition _ id topic _ _ | UpdateOffset id topic _ _ => unquoted id = true /\ unquoted topic = true
  | Prepare _ id | CommitTxn _ id _ | AbortTxn _ id _ => unquoted id = true
  | _ => True
  end.

Definition kind_of (s : TransactionState) : option TransactionMarkerType :=
  match s with Committed => Some Commit | Aborted => Some Abort | _ => None end.

Definition state_of (id : string) (d : db) : option TransactionState := tx_state ∘ fst <$> transactions d !! id.

Definition marker_key (m : TransactionMarker) : string * string * Z := (mk_transaction_id m, mk_topic m, mk_partition_id m).

(** What holds between calls. *)
Record txn_inv (d : db) : Prop := {
  ti_clean : clean d;
  ti_refers : forall k, is_Some (transaction_partitions d !! k) -> is_Some (transactions d !! k.1.1);
  ti_kind : forall m, m ∈ transaction_markers d ->
    exists s, state_of (mk_transaction_id m) d = Some s /\ kind_of s = Some (mk_marker_type m);
  ti_once : NoDup (map marker_key (transaction_markers d));
  ti_stable : forall m, m ∈ transaction_markers d ->
    exists lso, partition_lso d !! (mk_topic m, mk_partition_id m) = Some lso /\ mk_offset m < lso
}.

Lemma empty_txn_inv d :
  transaction_partitions d = ∅ -> transaction_markers d = [] -> txn_inv d.
Proof.
  intros Hp Hm. split; rewrite ?Hm; try (intros m Hin; by apply not_elem_of_nil in Hin).
  - intros k [x Hx]. by rewrite Hp in Hx.
  - intros k [x Hx]. by rewrite Hp in Hx.
  - constructor.
Qed.

(** How the state of a transaction can change. *)
Definition follows (s s' : TransactionState) : Prop :=
  match s, s' with
  | Ongoing, _ => True
  | Preparing, Ongoing => False
  | Preparing, _ => True
  | s, s' => s = s'
  end.

#[export] Instance follows_preorder : PreOrder follows.
Proof. split; [by intros []|by intros [] [] []]. Qed.

(** What one call may do: states go forward or away, stable offsets go up. *)
Record forward (d d' : db) : Prop := {
  fw_state : forall id s, state_of id d = Some s -> match state_of id d' with Some s' => follows s s' | None => True end;
  fw_lso : forall k lso, partition_lso d !! k = Some lso -> exists lso', partition_lso d' !! k = Some lso' /\ lso <= lso'
}.

#[export] Instance forward_refl : Reflexive forward.
Proof. intros d. split; [|by eauto with lia]. intros id s ->. reflexivity. Qed.

(** ** One step *)

Lemma keep_step d d' :
  txn_inv d -> transactions d' = transactions d -> transaction_markers d' = transaction_markers d ->
  partition_lso d' = partition_lso d ->
  clean d' -> (forall k, is_Some (transaction_partitions d' !! k) -> is_Some (transactions d !! k.1.1)) ->
  txn_inv d' /\ forward d d'.
Proof.
  intros [H1 H2 H3 H4 H5] Ht Hm Hl Hc Hr. split; split; unfold state_of in *; rewrite ?Ht, ?Hm, ?Hl; try done.
  - intros id s ->. reflexivity.
  - eauto with lia.
Qed.

Lemma same_step d : txn_inv d -> txn_inv d /\ forward d d.
Proof. done. Qed.

Lemma insert_transaction_step org uuid pid timeout now d :
  txn_inv d -> txn_inv (fst (insert_transaction org uuid pid timeout now d)) /\ forward d (fst (insert_transaction org uuid pid timeout now d)).
Proof.
  intros [H1 H2 H3 H4 H5]. unfold insert_transaction. case_bool_decide as Hnew; [by apply same_step|].
  case_bool_decide; [|by apply same_step]. cbn [fst].
  assert (Hold : forall id, is_Some (transactions d !! id) -> uuid <> id) by (intros id Hid ->; done).
  assert (Hst : forall id s, state_of id d = Some s -> state_of id (set_transactions (<[uuid := (mk_transaction uuid pid Ongoing timeout now None, org)]> (transactions d)) d) = Some s).
  { intros id s Hs. unfold state_of in *. cbn. rewrite lookup_insert_ne; [done|]. apply Hold. destruct (transactions d !! id); [by eexists|done]. }
  split; [split|split]; try done; cbn.
  - intros k Hk. rewrite lookup_insert_ne by by apply Hold, H2. by apply H2.
  - intros m Hm. destruct (H3 m Hm) as (s & Hs & Hk). exists s. split; [|done]. by apply Hst.
  - intros id s Hs. rewrite (Hst id s Hs). reflexivity.
  - eauto with lia.
Qed.

Lemma insert_partition_step id topic partition first d :
  unquoted topic = true -> txn_inv d ->
  txn_inv (fst (insert_txn_partition id topic partition first d)) /\ forward d (fst (insert_txn_partition id topic partition first d)).
Proof.
  intros Ht HI. pose proof HI as [H1 H2 _ _ _]. unfold insert_txn_partition.
  destruct (transaction_partitions d !! _); [by apply same_step|]. case_bool_decide as Hex; [|by apply same_step].
  apply keep_step; try done; intros k; cbn; destruct (decide ((id, topic, partition) = k)) as [<- |Hne];
    try done; rewrite lookup_insert_ne by done; auto.
Qed.

Lemma update_offset_step id topic partition last d :
  txn_inv d ->
  let d' := set_txn_partitions (alter (fun o => (o.1, last)) (id, topic, partition) (transaction_partitions d)) d in
  txn_inv d' /\ forward d d'.
Proof. intros HI. pose proof HI as [H1 H2 _ _ _]. apply keep_step; try done; intros k; cbn; rewrite lookup_alter_is_Some; auto. Qed.

(** A transaction whose state goes forward, without markers. *)
Lemma put_state_step id t o s completed d :
  txn_inv d -> transactions d !! id = Some (t, o) -> kind_of (tx_state t) = None -> follows (tx_state t) s ->
  let d' := set_transactions (<[id := (set_state s completed t, o)]> (transactions d)) d in
  txn_inv d' /\ forward d d' /\ (forall m, m ∈ transaction_markers d -> mk_transaction_id m <> id).
Proof.
  intros [H1 H2 H3 H4 H5] Ht Hk Hf d'.
  assert (Hno : forall m, m ∈ transaction_markers d -> mk_transaction_id m <> id).
  { intros m Hm <-. destruct (H3 m Hm) as (s' & Hs & Hk'). unfold state_of in Hs. rewrite Ht in Hs. injection Hs as <-. cbn in Hk'. congruence. }
  split; [split|split; [split|done]]; try done; unfold d', state_of; cbn.
  - intros k Hp. destruct (decide (id = k.1.1)) as [<- |]; [by rewrite lookup_insert_eq|].
    rewrite lookup_insert_ne by done. by apply H2.
  - intros m Hm. rewrite lookup_insert_ne by by apply not_eq_sym, Hno. by apply H3.
  - intros id' s'. destruct (decide (id = id')) as [<- |].
    + rewrite lookup_insert_eq, Ht. by intros [= <-].
    + rewrite lookup_insert_ne by done. intros ->. reflexivity.
  - eauto with lia.
Qed.

Lemma find_transaction_spec org id P d t o :
  find_transaction org id P d = Some (t, o) -> transactions d !! id = Some (t, o) /\ P t = true /\ in_org org o = true.
Proof.
  unfold find_transaction. destruct (transactions d !! id) as [[t' o']|]; [|done]. cbn.
  destruct (in_org org o') eqn:Ho, (P t') eqn:Hp; [|done..]. cbn. by intros [= <- <-].
Qed.

Lemma prepare_step org id d : txn_inv d -> txn_inv (fst (prepare org id d)) /\ forward d (fst (prepare org id d)).
Proof.
  intros HI. unfold prepare. destruct (find_transaction _ _ _ _) as [[t o]|] eqn:Hf; [|done].
  apply find_transaction_spec in Hf as (Ht & Hs%bool_decide_eq_true_1 & _). cbn [fst].
  destruct (put_state_step id t o Preparing (tx_completed_at t) d HI Ht) as (H1 & H2 & _); [by rewrite Hs..|done].
Qed.

(** ** A decision *)

Definition decided_partitions (id : string) (d : db) : list (string * string * Z) :=
  map (fun p => (id, tpa_topic p, tpa_partition_id p)) (txn_partition_rows id d).

Lemma rows_in id d p :
  p ∈ txn_partition_rows id d ->
  tpa_transaction_id p = id
  /\ transaction_partitions d !! (id, tpa_topic p, tpa_partition_id p) = Some (tpa_first_offset p, tpa_last_offset p).
Proof.
  unfold txn_partition_rows. rewrite merge_sort_Permutation. intros (e & -> & [He Hin]%list_elem_of_filter)%list_elem_of_fmap.
  destruct e as [[[i topic] n] [a b]]. cbn in *. subst i. split; [done|]. by apply elem_of_iter.
Qed.

Lemma rows_unique id d : NoDup (decided_partitions id d).
Proof.
  unfold decided_partitions, txn_partition_rows.
  rewrite (Permutation_map _ (merge_sort_Permutation _ _)), map_map. cbn.
  pose proof (iter_NoDup (transaction_partitions d)) as Hn. revert Hn.
  generalize (iter (transaction_partitions d)). intros l Hl. induction l as [|[[[i topic] n] o] l IH]; [constructor|].
  cbn [map fst] in Hl. apply NoDup_cons in Hl as [Hnew Hl]. rewrite filter_cons. case_decide as Hi; [|by apply IH].
  cbn in Hi. subst i. cbn [map fst snd]. constructor; [|by apply IH].
  intros (([[i' topic'] n'] & o') & He & [Hi' Hin]%list_elem_of_filter)%list_elem_of_fmap. cbn in *. subst i'. injection He as -> ->.
  apply Hnew, list_elem_of_fmap. by exists (id, topic', n', o').
Qed.

(** Each partition gets a marker, and a stable offset above it. *)
Lemma mark_spec id kind now ps d :
  let d' := foldl (mark id kind now) d ps in
  transactions d' = transactions d
  /\ transaction_markers d' = transaction_markers d
       ++ map (fun p => mk_marker id (tpa_topic p) (tpa_partition_id p) (tpa_last_offset p) kind now) ps
  /\ (forall k lso, partition_lso d !! k = Some lso -> exists lso', partition_lso d' !! k = Some lso' /\ lso <= lso')
  /\ (forall p, p ∈ ps -> exists lso, partition_lso d' !! (tpa_topic p, tpa_partition_id p) = Some lso /\ tpa_last_offset p < lso).
Proof.
  revert d. induction ps as [|p ps IH]; intros d; cbn [foldl map].
  - rewrite app_nil_r. split; [done|]. split; [done|]. split; [by eauto with lia|]. intros p Hp. by apply not_elem_of_nil in Hp.
  - destruct (IH (mark id kind now d p)) as (H1 & H2 & H3 & H4). rewrite H1, H2. split; [done|]. split; [cbn; by rewrite <- app_assoc|].
    set (k := (tpa_topic p, tpa_partition_id p)) in *.
    assert (Hp : exists lso, partition_lso (mark id kind now d p) !! k = Some lso /\ tpa_last_offset p < lso).
    { cbn. fold k. rewrite lookup_insert_eq. eexists. split; [done|]. destruct (partition_lso d !! k); lia. }
    split.
    + intros k' lso Hk. destruct (decide (k = k')) as [<- |Hne].
      * assert (Hs : exists l, partition_lso (mark id kind now d p) !! k = Some l /\ lso <= l).
        { cbn. fold k. rewrite lookup_insert_eq, Hk. eexists. split; [done|lia]. }
        destruct Hs as (l & Hl & Hle). destruct (H3 _ _ Hl) as (l' & Hl' & Hle'). exists l'. split; [done|lia].
      * apply H3. cbn. fold k. by rewrite lookup_insert_ne.
    + intros q [-> |Hq]%elem_of_cons; [|by apply H4]. fold k. destruct Hp as (l & Hl & Hlt).
      destruct (H3 _ _ Hl) as (l' & Hl' & Hle'). exists l'. split; [done|lia].
Qed.

(** What ending a transaction does, when it answers at all. *)
Lemma end_transaction_spec org id s kind refused now d :
  clean d -> unquoted id = true ->
  end_transaction org id s kind refused now d =
  match find_transaction org id undecided d with
  | None => (d, Err (MTransactionError ("Transaction " +:+ id +:+ " cannot be " +:+ refused)))
  | Some (t, o) =>
      (foldl (mark id kind now) (set_transactions (<[id := (set_state s (Some now) t, o)]> (transactions d)) d)
         (txn_partition_rows id d), Ok ())
  end.
Proof.
  intros Hc Hid. assert (Hl : forallb unquoted [id] = true) by (cbn; by rewrite Hid).
  unfold end_transaction, get_transaction_partitions. rewrite !(quoted_run [id]) by done. unfold decide_txn.
  destruct (find_transaction _ _ _ _) as [[t o]|]; [|done]. by rewrite quoted_run by by apply clean_rows.
Qed.

Lemma decide_step org id s kind refused now d :
  unquoted id = true -> kind_of s = Some kind -> txn_inv d ->
  let d' := fst (end_transaction org id s kind refused now d) in txn_inv d' /\ forward d d'.
Proof.
  intros Hid Hkind HI. cbv zeta. rewrite end_transaction_spec by (try apply HI; done).
  destruct (find_transaction org id undecided d) as [[t o]|] eqn:Hfind; [|by apply same_step].
  apply find_transaction_spec in Hfind as (Ht & Hu & _). cbn [fst].
  destruct (put_state_step id t o s (Some now) d HI Ht) as ([I1 I2 I3 I4 I5] & [F1 F2] & Hno).
  { unfold undecided in Hu. by destruct (tx_state t). }
  { unfold undecided in Hu. destruct (tx_state t), s; try done. }
  set (d1 := set_transactions _ d) in *. set (ps := txn_partition_rows id d).
  destruct (mark_spec id kind now ps d1) as (M1 & M2 & M3 & M4).
  destruct (mark_same id kind now ps d1) as (_ & _ & M5).
  set (d2 := foldl (mark id kind now) d1 ps) in *.
  assert (Hst : state_of id d2 = Some s) by (unfold state_of; rewrite M1; cbn; by rewrite lookup_insert_eq).
  split; [split|split].
  - intros k Hk. rewrite M5 in Hk. by apply I1.
  - intros k Hk. rewrite M5 in Hk. rewrite M1. by apply I2.
  - intros m Hm. rewrite M2 in Hm. apply elem_of_app in Hm as [Hm|Hm].
    + unfold state_of. rewrite M1. by apply I3.
    + apply list_elem_of_fmap in Hm as (p & -> & Hp). exists s. by split.
  - rewrite M2, map_app, map_map. apply NoDup_app. split; [done|]. split.
    + intros k (m & -> & Hm)%list_elem_of_fmap (p & He & Hp)%list_elem_of_fmap. cbn in He.
      apply (Hno m Hm). by injection He.
    + exact (rows_unique id d).
  - intros m Hm. rewrite M2 in Hm. apply elem_of_app in Hm as [Hm|Hm].
    + destruct (I5 m Hm) as (l & Hl & Hlt). destruct (M3 _ _ Hl) as (l' & Hl' & Hle). exists l'. split; [done|lia].
    + apply list_elem_of_fmap in Hm as (p & -> & Hp). cbn. by apply M4.
  - intros i s' Hs. pose proof (F1 i s' Hs) as Hf. unfold state_of in *. by rewrite M1.
  - intros k l Hl. destruct (F2 k l Hl) as (l1 & Hl1 & Hle). destruct (M3 _ _ Hl1) as (l2 & Hl2 & Hle2). exists l2. split; [done|lia].
Qed.

Lemma delete_transactions_step doomed d :
  txn_inv d -> let d' := delete_transactions doomed d in txn_inv d' /\ forward d d'.
Proof.
  intros [H1 H2 H3 H4 H5] d'.
  assert (Hold : forall id x, (transactions d' !! id = Some x) <-> (transactions d !! id = Some x /\ id ∉ doomed))
    by (intros id x; apply map_lookup_filter_Some).
  assert (Hm : forall m, (m ∈ transaction_markers d') <-> ((mk_transaction_id m ∉ doomed) /\ (m ∈ transaction_markers d)))
    by (intros m; unfold d'; cbn; by rewrite list_elem_of_filter).
  assert (Hp : forall k x, (transaction_partitions d' !! k = Some x) <-> (transaction_partitions d !! k = Some x /\ k.1.1 ∉ doomed))
    by (intros k x; apply map_lookup_filter_Some).
  split; [split|split].
  - intros k [x [Hx _]%Hp]. by apply H1.
  - intros k [x [Hx Hd]%Hp]. destruct (H2 k (ex_intro _ x Hx)) as [y Hy]. exists y. by apply Hold.
  - intros m Hin. apply Hm in Hin as [Hd Hin]. destruct (H3 m Hin) as (s & Hs & Hk). exists s. split; [|done].
    unfold state_of in *. destruct (transactions d !! mk_transaction_id m) as [y|] eqn:Hy; [|done].
    by rewrite (proj2 (Hold _ _) (conj Hy Hd)).
  - eapply sublist_NoDup; [exact H4|]. apply (fmap_sublist marker_key), sublist_filter.
  - intros m Hin. apply H5. by apply Hm in Hin as [_ Hin].
  - intros id s Hs. unfold state_of in *. destruct (transactions d' !! id) as [y|] eqn:Hy; [|done].
    apply Hold in Hy as [Hy _]. rewrite Hy in Hs. cbn in *. by injection Hs as ->.
  - intros k l Hl. exists l. split; [done|lia].
Qed.

(** ** Any calls *)

Lemma perform_step c d : call_ok c -> txn_inv d -> txn_inv (perform c d) /\ forward d (perform c d).
Proof.
  intros Hc HI. destruct c as [[org|] pid uuid timeout now|[org|] id topic part first|id topic part last|[org|] id
    |[org|] id now|[org|] id now|age now|timeout now]; cbn [perform call_ok] in *.
  - by apply insert_transaction_step.
  - unfold ProducerStore.begin_transaction. rewrite quoted_run by (cbn; by rewrite Hc). by apply insert_transaction_step.
  - destruct Hc as [Hid Ht]. unfold add_transaction_partition_for_org. destruct (get_transaction_for_org _ _ _); [|done].
    unfold add_transaction_partition. rewrite quoted_run by (cbn; by rewrite Hid, Ht). by apply insert_partition_step.
  - destruct Hc as [Hid Ht]. unfold add_transaction_partition. rewrite quoted_run by (cbn; by rewrite Hid, Ht). by apply insert_partition_step.
  - destruct Hc as [Hid Ht]. unfold update_transaction_partition_offset. rewrite quoted_run by (cbn; by rewrite Hid, Ht).
    by apply update_offset_step.
  - by apply prepare_step.
  - unfold prepare_transaction. rewrite quoted_run by (cbn; by rewrite Hc). by apply prepare_step.
  - unfold commit_transaction_for_org.
    pose proof (decide_step (Some org) id Committed Commit "committed" now d Hc eq_refl HI) as Hs.
    by destruct (end_transaction _ _ _ _ _ _ _).
  - unfold ProducerStore.commit_transaction.
    pose proof (decide_step None id Committed Commit "committed" now d Hc eq_refl HI) as Hs. by destruct (end_transaction _ _ _ _ _ _ _).
  - by apply decide_step.
  - by apply decide_step.
  - by apply delete_transactions_step.
  - unfold cleanup_expired_producers, delete_producers. cbn [fst].
    match goal with |- txn_inv (delete_transactions ?l ?e) /\ _ =>
      destruct (delete_transactions_step l e) as [[H1 H2 H3 H4 H5] [F1 F2]]; [by destruct HI|] end.
    by split.
Qed.

Definition begins (id : string) (c : txn_call) : bool :=
  match c with Begin _ _ uuid _ _ => bool_decide (uuid = id) | _ => false end.

(** Without a new row of this id, a row that is gone stays so. *)
Lemma stays_gone c id d : call_ok c -> begins id c = false -> txn_inv d -> state_of id d = None -> state_of id (perform c d) = None.
Proof.
  intros Hc Hb HI. unfold state_of. intros Hid.
  assert (Hno : transactions d !! id = None) by (by destruct (transactions d !! id)).
  assert (Hend : forall org i s kind refused now, unquoted i = true ->
            transactions (fst (end_transaction org i s kind refused now d)) !! id = None).
  { intros org i s kind refused now Hi. rewrite end_transaction_spec by (try apply HI; done).
    destruct (find_transaction org i undecided d) as [[t o]|] eqn:Hf; [|done]. cbn [fst].
    apply find_transaction_spec in Hf as (Ht & _).
    destruct (mark_spec i kind now (txn_partition_rows i d) (set_transactions (<[i:=(set_state s (Some now) t, o)]> (transactions d)) d)) as [-> _].
    cbn. rewrite lookup_insert_ne; [done|]. congruence. }
  assert (Hprep : forall org i, transactions (fst (prepare org i d)) !! id = None).
  { intros org i. unfold prepare. destruct (find_transaction _ _ _ _) as [[t o]|] eqn:Hf; [|done].
    apply find_transaction_spec in Hf as (Ht & _). cbn. rewrite lookup_insert_ne; [done|congruence]. }
  assert (Hpart : forall i topic part first, transactions (fst (insert_txn_partition i topic part first d)) !! id = None).
  { intros i topic part first. unfold insert_txn_partition. destruct (transaction_partitions d !! _); [done|]. by case_bool_decide. }
  assert (Hins : forall org uuid pid timeout now, uuid <> id -> transactions (fst (insert_transaction org uuid pid timeout now d)) !! id = None).
  { intros org uuid pid timeout now Hne. unfold insert_transaction. repeat case_bool_decide; try done. cbn. by rewrite lookup_insert_ne. }
  assert (Hdel : forall l e, transactions e = transactions d -> transactions (delete_transactions l e) !! id = None).
  { intros l e He. apply map_lookup_filter_None. left. by rewrite He. }
  assert (Hgoal : transactions (perform c d) !! id = None); [|by rewrite Hgoal].
  destruct c as [[org|] pid uuid timeout now|[org|] i topic part first|i topic part last|[org|] i
    |[org|] i now|[org|] i now|age now|timeout now]; cbn [perform call_ok begins] in *.
  - apply bool_decide_eq_false_1 in Hb. by apply Hins.
  - apply bool_decide_eq_false_1 in Hb. unfold ProducerStore.begin_transaction. rewrite quoted_run by (cbn; by rewrite Hc). by apply Hins.
  - destruct Hc as [Hi Ht]. unfold add_transaction_partition_for_org. destruct (get_transaction_for_org _ _ _); [|done].
    unfold add_transaction_partition. rewrite quoted_run by (cbn; by rewrite Hi, Ht). apply Hpart.
  - destruct Hc as [Hi Ht]. unfold add_transaction_partition. rewrite quoted_run by (cbn; by rewrite Hi, Ht). apply Hpart.
  - destruct Hc as [Hi Ht]. unfold update_transaction_partition_offset. by rewrite quoted_run by (cbn; by rewrite Hi, Ht).
  - apply Hprep.
  - unfold prepare_transaction. rewrite quoted_run by (cbn; by rewrite Hc). apply Hprep.
  - unfold commit_transaction_for_org. pose proof (Hend (Some org) i Committed Commit "committed"%string now Hc) as Hs.
    by destruct (end_transaction _ _ _ _ _ _ _).
  - unfold ProducerStore.commit_transaction. pose proof (Hend None i Committed Commit "committed"%string now Hc) as Hs.
    by destruct (end_transaction _ _ _ _ _ _ _).
  - by apply Hend.
  - by apply Hend.
  - by apply Hdel.
  - by apply Hdel.
Qed.

Definition run_calls (cs : list txn_call) (d : db) : db := foldl (fun d c => perform c d) d cs.

Lemma run_calls_inv cs d :
  Forall call_ok cs -> txn_inv d ->
  txn_inv (run_calls cs d)
  /\ (forall k lso, partition_lso d !! k = Some lso -> exists lso', partition_lso (run_calls cs d) !! k = Some lso' /\ lso <= lso')
  /\ forall id, forallb (fun c => negb (begins id c)) cs = true ->
       match state_of id d, state_of id (run_calls cs d) with
       | Some s, Some s' => follows s s'
       | None, Some _ => False
       | _, None => True
       end.
Proof.
  intros Hcs. revert d. induction Hcs as [|c cs Hc Hcs IH]; intros d HI.
  - split; [done|]. split; [by eauto with lia|]. intros id _. cbn. destruct (state_of id d); [reflexivity|done].
  - destruct (perform_step c d Hc HI) as [HI' [F1 F2]]. destruct (IH (perform c d) HI') as (I1 & I2 & I3).
    change (run_calls (c :: cs) d) with (run_calls cs (perform c d)). split; [done|]. split.
    + intros k l Hl. destruct (F2 k l Hl) as (l1 & Hl1 & Hle). destruct (I2 k l1 Hl1) as (l2 & Hl2 & Hle2). exists l2. split; [done|lia].
    + intros id [Hb%negb_true_iff Hbs]%andb_true_iff. specialize (I3 id Hbs).
      destruct (state_of id d) as [s|] eqn:Hs.
      * specialize (F1 id s Hs). destruct (state_of id (perform c d)) as [s1|], (state_of id (run_calls cs (perform c d))) as [s2|]; try done.
        by etrans.
      * by rewrite (stays_gone c id d Hc Hb HI Hs) in I3.
Qed.

(** Transactions are decided once.  In any order of calls, a transaction goes from ongoing
    to preparing to committed or aborted and never back or across, until it is deleted; all
    its markers are of the kind of its decision, one per partition at most; the stable
    offset of a partition is above every marker in it and never falls. *)
Theorem transactions_decided_once cs d :
  transaction_partitions d = ∅ -> transaction_markers d = [] -> Forall call_ok cs ->
  let d' := run_calls cs d in
  (forall m, m ∈ transaction_markers d' ->
     exists s lso, state_of (mk_transaction_id m) d' = Some s /\ kind_of s = Some (mk_marker_type m)
       /\ partition_lso d' !! (mk_topic m, mk_partition_id m) = Some lso /\ mk_offset m < lso)
  /\ NoDup (map marker_key (transaction_markers d'))
  /\ forall cs', Forall call_ok cs' ->
       (forall k lso, partition_lso d' !! k = Some lso -> exists lso', partition_lso (run_calls cs' d') !! k = Some lso' /\ lso <= lso')
       /\ forall id, forallb (fun c => negb (begins id c)) cs' = true ->
            match state_of id d', state_of id (run_calls cs' d') with
            | Some s, Some s' => follows s s'
            | None, Some _ => False
            | _, None => True
            end.
Proof.
  intros Hp Hm Hcs d'. destruct (run_calls_inv cs d Hcs (empty_txn_inv d Hp Hm)) as (HI & _). fold d' in HI. split; [|split].
  - intros m Hin. destruct (ti_kind _ HI m Hin) as (s & Hs & Hk), (ti_stable _ HI m Hin) as (lso & Hl & Hlt). by exists s, lso.
  - apply HI.
  - intros cs' Hcs'. by destruct (run_calls_inv cs' d' Hcs' HI) as (_ & H2).
Qed.

(** What a decision does.  A commit of a transaction that is not yet decided marks every
    partition of it with its last offset, moves every stable offset above it, and leaves the
    other transactions alone; of any other transaction it is refused without effect, so a
    second decision changes nothing. *)
Theorem commit_marks_all id now d :
  unquoted id = true -> txn_inv d ->
  let '(d', r) := ProducerStore.commit_transaction id now d in
  match transactions d !! id with
  | Some (t, o) =>
      if undecided t then
        r = Ok now
        /\ transactions d' = <[id := (set_state Committed (Some now) t, o)]> (transactions d)
        /\ transaction_markers d' = transaction_markers d
             ++ map (fun p => mk_marker id (tpa_topic p) (tpa_partition_id p) (tpa_last_offset p) Commit now) (txn_partition_rows id d)
        /\ (forall topic n first last, transaction_partitions d !! (id, topic, n) = Some (first, last) ->
              (exists m, m ∈ transaction_markers d' /\ marker_key m = (id, topic, n) /\ mk_offset m = last /\ mk_marker_type m = Commit)
              /\ exists lso, partition_lso d' !! (topic, n) = Some lso /\ last < lso)
        /\ ProducerStore.commit_transaction id now d' = (d', Err (MTransactionError ("Transaction " +:+ id +:+ " cannot be committed")))
      else d' = d /\ r = Err (MTransactionError ("Transaction " +:+ id +:+ " cannot be committed"))
  | None => d' = d /\ r = Err (MTransactionError ("Transaction " +:+ id +:+ " cannot be committed"))
  end.
Proof.
  intros Hid HI. pose proof (decide_step None id Committed Commit "committed" now d Hid eq_refl HI) as Hstep.
  unfold ProducerStore.commit_transaction. rewrite end_transaction_spec in * by (try apply HI; done).
  unfold find_transaction in *. destruct (transactions d !! id) as [[t o]|] eqn:Ht; cbn in *; [|done].
  destruct (undecided t) eqn:Hu; [|done]. cbn [fst] in Hstep. destruct Hstep as [HI' _].
  set (d1 := set_transactions _ d) in *. set (ps := txn_partition_rows id d) in *.
  destruct (mark_spec id Commit now ps d1) as (M1 & M2 & _ & M4). set (d2 := foldl (mark id Commit now) d1 ps) in *.
  split; [done|]. split; [done|]. split; [done|]. split.
  - intros topic n first last Hp.
    assert (Hin : mk_txn_partition id topic n first last ∈ ps).
    { unfold ps, txn_partition_rows. rewrite merge_sort_Permutation. apply list_elem_of_fmap.
      exists ((id, topic, n), (first, last)). split; [done|]. apply list_elem_of_filter. split; [done|]. by apply elem_of_iter. }
    split; [|by apply (M4 _ Hin)]. eexists. split; [rewrite M2; apply elem_of_app; right; by apply list_elem_of_fmap_2|done].
  - rewrite end_transaction_spec by (try apply HI'; done). unfold find_transaction. rewrite M1. cbn. by rewrite lookup_insert_eq.
Qed.

(** The stable offset of a partition does not wait for the transactions that are open
    there: when one commits whose last offset is past the first of another, undecided one,
    the stable offset passes records of that other transaction. *)
Theorem commit_passes_open id id' now d t' o' t o topic n first last first' last' :
  unquoted id = true -> txn_inv d -> id <> id' ->
  transactions d !! id = Some (t, o) -> undecided t = true -> transactions d !! id' = Some (t', o') -> undecided t' = true ->
  transaction_partitions d !! (id, topic, n) = Some (first, last) ->
  transaction_partitions d !! (id', topic, n) = Some (first', last') -> first' <= last ->
  let d' := fst (ProducerStore.commit_transaction id now d) in
  transactions d' !! id' = Some (t', o')
  /\ exists lso, partition_lso d' !! (topic, n) = Some lso /\ first' < lso.
Proof.
  intros Hid HI Hne Ht Hu Ht' Hu' Hp Hp' Hle. unfold ProducerStore.commit_transaction.
  rewrite end_transaction_spec by (try apply HI; done). unfold find_transaction. rewrite Ht. cbn. rewrite Hu. cbn.
  destruct (mark_spec id Commit now (txn_partition_rows id d) (set_transactions (<[id := (set_state Committed (Some now) t, o)]> (transactions d)) d))
    as (M1 & _ & _ & M4). rewrite M1. cbn. split; [by rewrite lookup_insert_ne|].
  destruct (M4 (mk_txn_partition id topic n first last)) as (lso & Hl & Hlt).
  - unfold txn_partition_rows. rewrite merge_sort_Permutation. apply list_elem_of_fmap.
    exists ((id, topic, n), (first, last)). split; [done|]. apply list_elem_of_filter. split; [done|]. by apply elem_of_iter.
  - exists lso. cbn in *. split; [done|lia].
Qed.
End transactions.
