(* ===== verification/ProduceExamples.v ===== *)
(** * Producing at work

    The partition of [PartitionExamples] behind the service of an agent, with one idempotent
    producer, its producers and transactions, and runs that show the theorems of
    [ProduceFacts] and [ProducerFacts] on concrete inputs. *)

From coqutil Require Import Byte.
From S2P Require Import Prelude HashMap Core External Segment Wal MetadataError StorageError WalHandle Catalog CatalogFacts PartitionWriter PartitionWriterFacts PartitionLogFacts PartitionExamples WriterPool Lease ProducerStore ProduceService ProduceFacts ProducerFacts.

Definition producer : Producer := mk_producer "p1" (Some "acme"%string) None 0 Active 1 1 None.
Definition one_producer : ProducerStore.db := set_producers {["p1"%string := producer]} ProducerStore.empty_db.

Definition our_lease : PartitionLease := mk_lease "acme" "orders" 0 "agent-1" 1000 1 1.

Definition at_work (put_with : put_env) (now : Z) : produce_env :=
  mk_produce_env (Ok (Some our_lease)) now None None [] opening (clock now) (roll put_with now) None None.

(** Batches of the producer, the first in a transaction and to be flushed. *)
Definition batch_1 : ProduceRequest :=
  mk_produce_request "orders" 0 [order Init.Byte.x01 10; (None, [Init.Byte.x09], 11)] 1
    (Some "p1"%string) (Some 0) (Some 0) (Some "t1"%string).
Definition batch_2 : ProduceRequest :=
  mk_produce_request "orders" 0 [order Init.Byte.x02 12] 0 (Some "p1"%string) (Some 0) (Some 2) None.

(** The first batch is sent twice; the second overtakes it. *)
Definition run_1 : list event :=
  [Admit batch_1 (at_work good_put 20); Other (SInit (mk_init_producer (Some "tx"%string) (Some "acme"%string)) "p2" 21);
   Admit batch_1 (at_work good_put 22); Admit batch_2 (at_work good_put 23);
   Deliver 1 (at_work good_put 24); Deliver 0 (at_work good_put 25); FlushAll (roll good_put 26)].

Definition end_1 : sys := foldl (fun x e => step "acme" "orders" 0 e x) (start "agent-1" default_write_config acme one_producer) run_1.

Lemma no_partitions d : transaction_partitions d = ∅ -> clean d.
Proof. intros He k [x Hk]. by rewrite He in Hk. Qed.

Lemma run_1_ok : Forall (event_ok "orders" 0 "p1") run_1.
Proof.
  assert (request_ok "orders" 0 batch_1 /\ request_ok "orders" 0 batch_2) as [H1 H2].
  { split; split; try done; inputs_fit. }
  repeat constructor; try done; try apply H1; try apply H2.
Qed.


(** The segment of the first batch cannot be stored: the producer sends it again, and is told
    that the agent has it. *)
Definition first_try : state * outcome Status ProduceResponse :=
  produce (Some "acme"%string) batch_1 (at_work bad_put 20) (mk_state (mk_service (WriterPool.new default_write_config) "agent-1" false) acme one_producer).

Lemma batch_sent_again_witness :
  (match snd first_try with Err (Internal _) => true | _ => false end) = true
  /\ stored_log "acme" "orders" 0 (shared (fst first_try)) = Some []
  /\ produce (Some "acme"%string) batch_1 (at_work good_put 30) (fst first_try)
     = (fst first_try, Ok (mk_produce_response 0 2 true)).
Proof.
  split; [by_computation|]. split; [by_computation|].
  set (s0 := mk_state (mk_service (WriterPool.new default_write_config) "agent-1" false) acme one_producer).
  destruct (admission (Some "acme"%string) batch_1 (at_work bad_put 20) s0) as [s1 a] eqn:Had.
  assert (Ha : a = Ok ("acme"%string, true)).
  { apply (f_equal snd) in Had. cbn [snd] in Had. rewrite <- Had. by_computation. }
  subst a. destruct (deliver "acme" batch_1 (at_work bad_put 20) s1) as [s2 r] eqn:Hdel.
  assert (Hfst : fst first_try = s2).
  { unfold first_try, produce. fold s0. rewrite Had. by rewrite Hdel. }
  rewrite Hfst.
  pose proof (batch_sent_again (Some "acme"%string) "p1" batch_1 (at_work bad_put 20) (at_work good_put 30) s0 s1 s2 "acme"%string r) as Hagain.
  change (mk_produce_response 0 2 true) with (duplicate_response batch_1). apply Hagain.
  - reflexivity.
  - reflexivity.
  - cbn. lia.
  - cbn. lia.
  - cbn. lia.
  - exact Had.
  - exact Hdel.
  - rewrite <- Hfst. by_computation.
  - reflexivity.
  - reflexivity.
Defined.

(** ** Epochs *)

Definition old_epoch : Producer := mk_producer "p1" (Some "acme"%string) (Some "tx"%string) 7 Active 1 1 None.
Definition one_transactional : ProducerStore.db := set_producers {["p1"%string := old_epoch]} ProducerStore.empty_db.

Lemma one_transactional_ok : keyed one_transactional /\ one_row "acme" "tx" one_transactional.
Proof.
  split.
  - intros id p Hp. unfold one_transactional in Hp. cbn [producers set_producers] in Hp. by apply lookup_singleton_Some in Hp as [<- <-].
  - intros i j p q Hp Hq _ _ _ _. unfold one_transactional in *. cbn [producers set_producers] in *. apply lookup_singleton_Some in Hp as [<- _], Hq as [<- _]. done.
Qed.

Lemma init_fences_witness :
  let d := fst (ProducerStore.init_producer (transactional "acme" "tx") "p9" 5 one_transactional) in
  snd (validate_idempotent "p1" 7 0 "orders" 0 1 (at_work good_put 6) d) = Err (FailedPrecondition (epoch_mismatch 8 7)).
Proof.
  cbv zeta. destruct (ProducerStore.init_producer (transactional "acme" "tx") "p9" 5 one_transactional) as [d r] eqn:Hi.
  assert (Hr : r = Ok (set_epoch 8 5 old_epoch)) by (apply (f_equal snd) in Hi; cbn [snd] in Hi; rewrite <- Hi; by_computation). subst r.
  destruct one_transactional_ok as [Hk Hone].
  destruct (init_fences "acme" "tx" "p9" 5 one_transactional d old_epoch (set_epoch 8 5 old_epoch)) as (_ & _ & _ & _ & _ & _ & Hf).
  - reflexivity.
  - done.
  - done.
  - exact Hk.
  - exact Hone.
  - reflexivity.
  - reflexivity.
  - reflexivity.
  - unfold in_u. cbn. lia.
  - exact Hi.
  - exact (f_equal snd (Hf 0 "orders"%string 0 1 (at_work good_put 6) eq_refl)).
Defined.

Lemma concurrent_init_same_epoch_witness :
  let config := transactional "acme" "tx" in
  let '(d1, r1) := init_finish config (Some old_epoch) "p8" 5 one_transactional in
  let '(d2, r2) := init_finish config (Some old_epoch) "p9" 6 d1 in
  match r1, r2 with Ok p1, Ok p2 => pr_id p1 = pr_id p2 /\ pr_epoch p1 = pr_epoch p2 /\ pr_epoch p2 = 8 | _, _ => False end.
Proof.
  destruct one_transactional_ok as [Hk Hone].
  pose proof (concurrent_init_same_epoch "acme" "tx" "p8" 5 "p9" 6 one_transactional) as H.
  specialize (H _ _ old_epoch _ _ eq_refl Hk Hone eq_refl eq_refl eq_refl _ _ eq_refl eq_refl eq_refl eq_refl).
  destruct H as (H1 & H2 & _). split; [exact H1|]. split; [exact H2|]. reflexivity.
Defined.

(** ** Transactions *)

(** Two transactions of the producer write the same partition, the first from offset 0 on, the
    second at 5; the second commits, then both are decided again. *)
Definition two_open : list txn_call :=
  [Begin None "p1" "t1" 60000 1; Begin (Some "acme"%string) "p1" "t2" 60000 2; AddPartition None "t1" "orders" 0 0;
   AddPartition (Some "acme"%string) "t2" "orders" 0 5; UpdateOffset "t2" "orders" 0 7].
Definition decisions : list txn_call :=
  [CommitTxn None "t2" 10; AbortTxn None "t2" 11; Prepare None "t1"; AbortTxn None "t1" 12; CommitTxn None "t1" 13].

Lemma two_open_ok : Forall call_ok two_open.
Proof. repeat constructor. Qed.
Lemma decisions_ok : Forall call_ok decisions.
Proof. repeat constructor. Qed.

Lemma two_open_inv : txn_inv (run_calls two_open one_producer).
Proof. by destruct (run_calls_inv two_open one_producer two_open_ok (empty_txn_inv one_producer eq_refl eq_refl)). Qed.

Lemma transactions_decided_once_witness :
  let d := run_calls two_open one_producer in
  let d' := run_calls decisions d in
  (state_of "t1" d', state_of "t2" d') = (Some Aborted, Some Committed)
  /\ match state_of "t1" d, state_of "t1" d' with Some s, Some s' => follows s s' | _, _ => False end.
Proof.
  cbv zeta. split; [by_computation|].
  destruct (transactions_decided_once two_open one_producer eq_refl eq_refl two_open_ok) as (_ & _ & H).
  destruct (H decisions decisions_ok) as [_ Hs]. specialize (Hs "t1"%string eq_refl).
  assert (H1 : state_of "t1" (run_calls two_open one_producer) = Some Ongoing) by by_computation.
  assert (H2 : state_of "t1" (run_calls decisions (run_calls two_open one_producer)) = Some Aborted) by by_computation.
  rewrite H1, H2 in *. exact Hs.
Defined.

Lemma commit_marks_all_witness :
  let d := run_calls two_open one_producer in
  let d' := fst (ProducerStore.commit_transaction "t2" 10 d) in
  snd (ProducerStore.commit_transaction "t2" 10 d) = Ok 10
  /\ exists lso, partition_lso d' !! ("orders"%string, 0) = Some lso /\ 7 < lso.
Proof.
  cbv zeta. pose proof (commit_marks_all "t2" 10 (run_calls two_open one_producer) eq_refl two_open_inv) as H.
  assert (Ht : transactions (run_calls two_open one_producer) !! "t2"%string
               = Some (mk_transaction "t2" "p1" Ongoing 60000 2 None, Some "acme"%string)) by by_computation.
  rewrite Ht in H. destruct (ProducerStore.commit_transaction "t2" 10 (run_calls two_open one_producer)) as [d' r].
  cbn [undecided tx_state] in H. destruct H as (Hr & _ & _ & Hp & _). split; [exact Hr|].
  apply (Hp "orders"%string 0 5 7). by_computation.
Defined.

Lemma commit_passes_open_witness :
  let d' := fst (ProducerStore.commit_transaction "t2" 10 (run_calls two_open one_producer)) in
  state_of "t1" d' = Some Ongoing /\ exists lso, partition_lso d' !! ("orders"%string, 0) = Some lso /\ 0 < lso.
Proof.
  cbv zeta.
  destruct (commit_passes_open "t2" "t1" 10 (run_calls two_open one_producer)
    (mk_transaction "t1" "p1" Ongoing 60000 1 None) None (mk_transaction "t2" "p1" Ongoing 60000 2 None) (Some "acme"%string)
    "orders" 0 5 7 0 0) as [H1 H2].
  - reflexivity.
  - exact two_open_inv.
  - done.
  - by_computation.
  - reflexivity.
  - by_computation.
  - reflexivity.
  - by_computation.
  - by_computation.
  - lia.
  - split; [|exact H2]. unfold state_of. by rewrite H1.
Defined.
