(* ===== verification/KafkaBatch.v ===== *)
(** * Record batches of the Kafka protocol (crates/streamhouse-kafka/src/handlers/produce.rs, fetch.rs)

    The parser of the batches that producers send and the builder of those that consumers
    get.  The decompressors and the checksum are third-party code. *)

From stdpp Require Import pretty.
From S2P Require Import Prelude Core Varint Utf8 KafkaTypes KafkaCodec KafkaCodecFacts.

(** The libraries for gzip, Snappy, LZ4 and Zstandard: the data, or the text of the error. *)
Class Decompressors := decompress_with : CompressionType -> bytes -> string + bytes.

(** [crc32c::crc32c]. *)
Class Crc32c := crc32c : bytes -> Z.

Section batch.
Context `{Decompressors} `{Crc32c}.

(** ** The front of a buffer: the reads of the [bytes] crate panic when it is too short. *)

Definition get_signed (n : nat) : parser Z := fun buf =>
  '(v, buf) ← or_panic (get_be n buf); Ok (swrap (8 * Z.of_nat n) v, buf).

(** [split_to(len as usize)]. *)
Definition take_bytes (length : Z) : parser bytes := fun buf =>
  let length := wrap 64 length in
  if len buf <? length then Panic else or_panic (split_to (Z.to_nat length) buf).

(** [parse_compact_string(..).ok()]: what is left of the buffer, whether there was a text or
    not. *)
Definition skip_compact_string (buf : bytes) : bytes :=
  match parse_unsigned_varint buf with
  | Ok (length, buf) => if length =? 0 then buf else if len buf <? length - 1 then buf else drop (Z.to_nat (length - 1)) buf
  | _ => drop 10 buf
  end.

(** ** Parsing *)

Record ParsedRecord : Type := mk_parsed {
  pd_key : option bytes;
  pd_value : bytes;
  pd_headers : list (string * bytes)
}.

Record RecordBatchMeta : Type := mk_batch_meta {
  bm_producer_id : Z;
  bm_producer_epoch : Z;
  bm_base_sequence : Z;
  bm_records : list ParsedRecord
}.

(** [(result >> 1) ^ -(result & 1)] of an [i64]. *)
Definition parse_varint : parser Z := fun buf =>
  '(result, buf) ← decode_loop (Protocol "Buffer too short for varint") (Protocol "Varint too long") 0 0 buf;
  let result := swrap 64 result in
  Ok (Z.lxor (Z.shiftr result 1) (- Z.land result 1), buf).

Definition parse_header : parser (string * bytes) := fun buf =>
  '(key_len, buf) ← parse_varint buf;
  '(key, buf) ← take_bytes key_len buf;
  match from_utf8 key with
  | inl e => Err (Protocol ("Invalid header key: " +:+ display_utf8_error e))
  | inr key =>
      '(value_len, buf) ← parse_varint buf;
      '(value, buf) ← (if 0 <=? value_len then take_bytes value_len buf else Ok ([], buf));
      Ok ((key, value), buf)
  end.

Definition parse_record : parser ParsedRecord := fun buf =>
  '(_, buf) ← parse_varint buf;
  '(_, buf) ← get_signed 1 buf;
  '(_, buf) ← parse_varint buf;
  '(_, buf) ← parse_varint buf;
  '(key_length, buf) ← parse_varint buf;
  '(key, buf) ← (if 0 <=? key_length then '(k, buf) ← take_bytes key_length buf; Ok (Some k, buf) else Ok (None, buf));
  '(value_length, buf) ← parse_varint buf;
  '(value, buf) ← (if 0 <=? value_length then take_bytes value_length buf else Ok ([], buf));
  '(header_count, buf) ← parse_varint buf;
  '(headers, buf) ← parse_elements parse_header (Z.to_nat header_count) buf;
  Ok (mk_parsed key value headers, buf).

Definition decompress (data : bytes) (compression : CompressionType) : outcome KafkaError bytes :=
  match compression with
  | CtNone => Ok data
  | c => match decompress_with c data with inr data => Ok data | inl e => Err (KCompression e) end
  end.

(** A [ParsedRecord] takes 72 bytes of a [Vec]. *)
Definition parse_record_batch (data : bytes) : outcome KafkaError RecordBatchMeta :=
  if len data <? 61 then Err (Protocol "RecordBatch too short")
  else
    '(_, buf) ← get_signed 8 data;
    '(_, buf) ← get_signed 4 buf;
    '(_, buf) ← get_signed 4 buf;
    '(magic, buf) ← get_signed 1 buf;
    if negb (magic =? 2) then Err (Protocol ("Unsupported magic byte: " +:+ pretty magic))
    else
      '(_, buf) ← or_panic (get_be 4 buf);
      '(attributes, buf) ← get_signed 2 buf;
      '(_, buf) ← get_signed 4 buf;
      '(_, buf) ← get_signed 8 buf;
      '(_, buf) ← get_signed 8 buf;
      '(producer_id, buf) ← get_signed 8 buf;
      '(producer_epoch, buf) ← get_signed 2 buf;
      '(base_sequence, buf) ← get_signed 4 buf;
      '(record_count, buf) ← get_signed 4 buf;
      record_data ← decompress buf (compression_from_attributes attributes);
      _ ← with_capacity 72 (wrap 64 record_count);
      '(records, _) ← parse_elements parse_record (Z.to_nat record_count) record_data;
      Ok (mk_batch_meta producer_id producer_epoch base_sequence records).

(** ** Building *)

Definition encode_varint (buf : bytes) (value : Z) : bytes := buf ++ encode_loop 10 (zigzag value).

Definition encode_record_with_deltas (batch : bytes) (offset_delta timestamp_delta : Z) (key : option bytes) (value : bytes)
  : bytes :=
  let record := put_be 1 0 in
  let record := encode_varint record timestamp_delta in
  let record := encode_varint record offset_delta in
  let record := match key with
                | Some k => encode_varint record (len k) ++ k
                | None => encode_varint record (-1)
                end in
  let record := encode_varint record (len value) ++ value in
  let record := encode_varint record 0 in
  encode_varint batch (len record) ++ record.

(** The largest timestamp, read as an [i64]. *)
Definition max_timestamp (base_timestamp : Z) (records : list Record_) : Z :=
  match map (fun r => swrap 64 (r_timestamp r)) records with
  | [] => base_timestamp
  | t :: ts => foldl Z.max t ts
  end.

(** The length and the checksum are computed of what follows them. *)
Definition build_record_batch_from_records (base_offset base_timestamp : Z) (records : list Record_) : bytes :=
  match records with
  | [] => []
  | _ =>
      let batch := put_be 2 0 ++ put_be 4 (len records - 1) ++ put_be 8 base_timestamp
                   ++ put_be 8 (max_timestamp base_timestamp records) ++ put_be 8 (-1) ++ put_be 2 (-1)
                   ++ put_be 4 (-1) ++ put_be 4 (len records) in
      let batch := foldl (fun batch r =>
                     encode_record_with_deltas batch (swrap 32 (r_offset r - base_offset))
                       (swrap 64 (swrap 64 (r_timestamp r) - base_timestamp)) (r_key r) (r_value r)) batch records in
      let rest := put_be 4 0 ++ put_be 1 2 ++ put_be 4 (crc32c batch) ++ batch in
      put_be 8 base_offset ++ put_be 4 (len rest) ++ rest
  end.
End batch.

(** Stand-ins for the witnesses: data that is stored as it is, an additive checksum. *)
#[export] Instance toy_decompressors : Decompressors := fun _ data => inr data.
#[export] Instance toy_crc32c : Crc32c := fun b => wrap 32 (foldr (fun x a => 17 * a + byte.unsigned x) 3 b).

(** ** Facts *)

(** ** The format *)

Record client_record : Type := mk_client_record {
  c_attributes : Z;
  c_timestamp_delta : Z;
  c_offset_delta : Z;
  c_key : option bytes;
  c_value : option bytes;
  c_headers : list (string * option bytes)
}.

Record client_batch : Type := mk_client_batch {
  b_base_offset : Z;
  b_leader_epoch : Z;
  b_attributes : Z;
  b_last_offset_delta : Z;
  b_first_timestamp : Z;
  b_max_timestamp : Z;
  b_producer_id : Z;
  b_producer_epoch : Z;
  b_base_sequence : Z;
  b_records : list client_record
}.

Definition vi (v : Z) : bytes := encode_loop 10 (zigzag v).

Definition enc_opt (o : option bytes) : bytes := match o with Some b => vi (len b) ++ b | None => vi (-1) end.

Definition enc_header (h : string * option bytes) : bytes := vi (len (as_bytes h.1)) ++ as_bytes h.1 ++ enc_opt h.2.

Definition enc_body (c : client_record) : bytes :=
  put_be 1 (c_attributes c) ++ vi (c_timestamp_delta c) ++ vi (c_offset_delta c) ++ enc_opt (c_key c) ++ enc_opt (c_value c)
  ++ vi (len (c_headers c)) ++ concat (map enc_header (c_headers c)).

Definition enc_record (c : client_record) : bytes := vi (len (enc_body c)) ++ enc_body c.

Section format.
Context `{Decompressors} `{Crc32c}.

(** The records, and the batch around them, with the records as they are or compressed. *)
Definition plain (b : client_batch) : bytes := concat (map enc_record (b_records b)).

(** From the attributes on: what the checksum is of. *)
Definition enc_checked (b : client_batch) (data : bytes) : bytes :=
  put_be 2 (b_attributes b) ++ put_be 4 (b_last_offset_delta b) ++ put_be 8 (b_first_timestamp b)
  ++ put_be 8 (b_max_timestamp b) ++ put_be 8 (b_producer_id b) ++ put_be 2 (b_producer_epoch b)
  ++ put_be 4 (b_base_sequence b) ++ put_be 4 (len (b_records b)) ++ data.

Definition enc_rest (b : client_batch) (data : bytes) : bytes :=
  put_be 4 (b_leader_epoch b) ++ put_be 1 2 ++ put_be 4 (crc32c (enc_checked b data)) ++ enc_checked b data.

Definition enc_batch (b : client_batch) (data : bytes) : bytes :=
  put_be 8 (b_base_offset b) ++ put_be 4 (len (enc_rest b data)) ++ enc_rest b data.

(** ** The decoder *)

Definition bad {A} : outcome KafkaError A := Err (Protocol "").

Definition dec_int (n : nat) : parser Z := fun buf => '(v, buf) ← ok_or (Protocol "") (get_be n buf); Ok (swrap (8 * Z.of_nat n) v, buf).
Definition dec_take (n : Z) : parser bytes := fun buf => if (n <? 0) || (len buf <? n) then bad else ok_or (Protocol "") (split_to (Z.to_nat n) buf).

Definition dec_opt : parser (option bytes) := fun buf =>
  '(n, buf) ← parse_signed_varint buf;
  if n =? -1 then Ok (None, buf) else '(b, buf) ← dec_take n buf; Ok (Some b, buf).

Definition dec_header : parser (string * option bytes) := fun buf =>
  '(n, buf) ← parse_signed_varint buf;
  '(k, buf) ← dec_take n buf;
  '(v, buf) ← dec_opt buf;
  match from_utf8 k with inr k => Ok ((k, v), buf) | inl _ => bad end.

Definition dec_body : parser client_record := fun buf =>
  '(attributes, buf) ← dec_int 1 buf;
  '(timestamp_delta, buf) ← parse_signed_varint buf;
  '(offset_delta, buf) ← parse_signed_varint buf;
  '(key, buf) ← dec_opt buf;
  '(value, buf) ← dec_opt buf;
  '(n, buf) ← parse_signed_varint buf;
  if n <? 0 then bad
  else '(headers, buf) ← parse_elements dec_header (Z.to_nat n) buf;
       Ok (mk_client_record attributes timestamp_delta offset_delta key value headers, buf).

(** A record fills its length. *)
Definition dec_record : parser client_record := fun buf =>
  '(n, buf) ← parse_signed_varint buf;
  '(body, buf) ← dec_take n buf;
  '(c, trailing) ← dec_body body;
  if decide (trailing = []) then Ok (c, buf) else bad.

Definition dec_batch (buf : bytes) : outcome KafkaError client_batch :=
  '(base_offset, buf) ← dec_int 8 buf;
  '(length, buf) ← dec_int 4 buf;
  if negb (length =? len buf) then bad
  else
    '(leader_epoch, buf) ← dec_int 4 buf;
    '(magic, buf) ← dec_int 1 buf;
    '(crc, buf) ← ok_or (Protocol "") (get_be 4 buf);
    if negb (magic =? 2) || negb (crc =? crc32c buf) then bad
    else
      '(attributes, buf) ← dec_int 2 buf;
      '(last_offset_delta, buf) ← dec_int 4 buf;
      '(first_timestamp, buf) ← dec_int 8 buf;
      '(max_timestamp, buf) ← dec_int 8 buf;
      '(producer_id, buf) ← dec_int 8 buf;
      '(producer_epoch, buf) ← dec_int 2 buf;
      '(base_sequence, buf) ← dec_int 4 buf;
      '(n, buf) ← dec_int 4 buf;
      if n <? 0 then bad
      else
        '(records, trailing) ← parse_elements dec_record (Z.to_nat n) buf;
        if decide (trailing = []) then
          Ok (mk_client_batch base_offset leader_epoch attributes last_offset_delta first_timestamp max_timestamp
                producer_id producer_epoch base_sequence records)
        else bad.

(** ** Values that fit *)

Definition opt_ok (o : option bytes) : Prop := match o with Some b => len b < 2 ^ 31 | None => True end.

Record record_ok (c : client_record) : Prop := {
  co_attributes : in_i 8 (c_attributes c);
  co_timestamp : - 2 ^ 62 <= c_timestamp_delta c < 2 ^ 62;
  co_offset : in_i 32 (c_offset_delta c);
  co_key : opt_ok (c_key c);
  co_value : opt_ok (c_value c);
  co_headers : Forall (fun h => utf8 h.1 /\ len (as_bytes h.1) < 2 ^ 31 /\ opt_ok h.2) (c_headers c);
  co_count : len (c_headers c) < 2 ^ 31;
  co_length : len (enc_body c) < 2 ^ 31
}.

Record batch_ok (b : client_batch) : Prop := {
  bo_base : in_i 64 (b_base_offset b);
  bo_leader : in_i 32 (b_leader_epoch b);
  bo_attributes : in_i 16 (b_attributes b);
  bo_last : in_i 32 (b_last_offset_delta b);
  bo_first : in_i 64 (b_first_timestamp b);
  bo_max : in_i 64 (b_max_timestamp b);
  bo_producer : in_i 64 (b_producer_id b);
  bo_epoch : in_i 16 (b_producer_epoch b);
  bo_sequence : in_i 32 (b_base_sequence b);
  bo_records : Forall record_ok (b_records b);
  bo_count : len (b_records b) < 2 ^ 31;
  bo_length : len (enc_rest b (plain b)) < 2 ^ 31
}.

(** ** Fields *)

Lemma dec_int_put n v rest : (0 < n)%nat -> in_i (8 * Z.of_nat n) v -> dec_int n (put_be n v ++ rest) = Ok (v, rest).
Proof. intros Hn Hv. unfold dec_int. destruct (get_be_signed n v rest Hn Hv) as (u & -> & Hu). cbn. by rewrite Hu. Qed.

Lemma get_signed_put n v rest : (0 < n)%nat -> in_i (8 * Z.of_nat n) v -> get_signed n (put_be n v ++ rest) = Ok (v, rest).
Proof. intros Hn Hv. unfold get_signed. destruct (get_be_signed n v rest Hn Hv) as (u & -> & Hu). cbn. by rewrite Hu. Qed.

Lemma in_field4 n : - 2 ^ 31 <= n < 2 ^ 31 -> in_i (8 * Z.of_nat 4) n.
Proof. done. Qed.
Lemma in_field1 n : - 2 ^ 7 <= n < 2 ^ 7 -> in_i (8 * Z.of_nat 1) n.
Proof. done. Qed.

Lemma signed_vi v rest : in_i 64 v -> parse_signed_varint (vi v ++ rest) = Ok (v, rest).
Proof. intros Hv. exact (dec_enc signed_varint_format v rest Hv). Qed.

(** The server's parser shifts a signed number, so it needs a bit less. *)
Lemma parse_vi v rest : - 2 ^ 62 <= v < 2 ^ 62 -> parse_varint (vi v ++ rest) = Ok (v, rest).
Proof.
  intros Hv. assert (Hi : in_i 64 v) by (unfold in_i; change (2 ^ (64 - 1)) with (2 ^ 63); lia).
  pose proof (zigzag_in_u v Hi) as Hu. unfold parse_varint, vi.
  rewrite decode_encode_loop; unfold in_u in Hu; try lia. cbn [mbind outcome_bind].
  replace (0 + zigzag v * 2 ^ 0) with (zigzag v) by lia.
  assert (Hz : 0 <= zigzag v < 2 ^ 63) by (rewrite zigzag_spec by done; destruct (Z.leb_spec 0 v); lia).
  assert (Hsw : forall x, 0 <= x < 2 ^ 63 -> swrap 64 x = x).
  { intros x Hx. apply swrap_small; [lia|]. unfold in_i. change (2 ^ (64 - 1)) with (2 ^ 63). lia. }
  rewrite (Hsw _ Hz). rewrite <- (unzigzag_zigzag v Hi) at 3. rewrite <- lxor_sign_unzigzag by done.
  rewrite (Hsw (Z.shiftr (zigzag v) 1)), (Hsw (Z.land (zigzag v) 1)); [done| |].
  - rewrite land_1. pose proof (Z.mod_pos_bound (zigzag v) 2). lia.
  - rewrite Z.shiftr_div_pow2 by lia. split; [apply Z.div_pos; lia|]. apply Z.div_lt_upper_bound; lia.
Qed.

Lemma dec_take_app b rest : dec_take (len b) (b ++ rest) = Ok (b, rest).
Proof.
  unfold dec_take. rewrite ltb_false by lia. rewrite ltb_false by (rewrite length_app; lia). cbn [orb].
  by rewrite split_to_len.
Qed.

Lemma take_bytes_app b rest : len b < 2 ^ 64 -> take_bytes (len b) (b ++ rest) = Ok (b, rest).
Proof.
  intros Hb. unfold take_bytes. rewrite wrap_small by (unfold in_u; lia). rewrite ltb_false by (rewrite length_app; lia).
  by rewrite split_to_len.
Qed.

Lemma small_i64 n : - 2 ^ 62 <= n < 2 ^ 62 -> in_i 64 n.
Proof. unfold in_i. change (2 ^ (64 - 1)) with (2 ^ 63). lia. Qed.

Lemma small_len {A} (l : list A) : len l < 2 ^ 31 -> - 2 ^ 62 <= len l < 2 ^ 62.
Proof. lia. Qed.
#[local] Hint Resolve small_i64 small_len : core.

Lemma dec_opt_enc o rest : opt_ok o -> dec_opt (enc_opt o ++ rest) = Ok (o, rest).
Proof.
  intros Ho. unfold dec_opt. destruct o as [b|]; cbn [enc_opt].
  - rewrite <- app_assoc, signed_vi by auto. cbn. destruct (Z.eqb_spec (len b) (-1)); [lia|]. by rewrite dec_take_app.
  - by rewrite signed_vi by (apply small_i64; lia).
Qed.

(** ** Sequences *)

Lemma elements_enc {T} (enc : T -> bytes) (p : parser T) (l : list T) rest :
  Forall (fun x => forall rest, p (enc x ++ rest) = Ok (x, rest)) l ->
  parse_elements p (length l) (concat (map enc l) ++ rest) = Ok (l, rest).
Proof.
  intros Hl. induction Hl as [|x l Hx Hl IH]; [done|]. cbn [map concat length parse_elements].
  rewrite <- app_assoc, Hx. cbn. by rewrite IH.
Qed.

Lemma elements_map {T U} (enc : T -> bytes) (f : T -> U) (p : parser U) (l : list T) rest :
  Forall (fun x => forall rest, p (enc x ++ rest) = Ok (f x, rest)) l ->
  parse_elements p (length l) (concat (map enc l) ++ rest) = Ok (map f l, rest).
Proof.
  intros Hl. induction Hl as [|x l Hx Hl IH]; [done|]. cbn [map concat length parse_elements].
  rewrite <- app_assoc, Hx. cbn. by rewrite IH.
Qed.

(** ** The decoder reads what the encoder writes *)

Lemma dec_header_enc h rest :
  utf8 h.1 -> len (as_bytes h.1) < 2 ^ 31 -> opt_ok h.2 -> dec_header (enc_header h ++ rest) = Ok (h, rest).
Proof.
  intros Hu Hl Ho. unfold dec_header, enc_header. rewrite <- !app_assoc, signed_vi by auto. cbn [mbind outcome_bind].
  rewrite dec_take_app. cbn [mbind outcome_bind]. rewrite dec_opt_enc by done. cbn [mbind outcome_bind].
  rewrite from_utf8_as_bytes by done. by destruct h.
Qed.

Lemma dec_body_enc c rest : record_ok c -> dec_body (enc_body c ++ rest) = Ok (c, rest).
Proof.
  intros [H1 H2 H3 H4 H5 H6 H7 _]. unfold dec_body, enc_body. rewrite <- !app_assoc.
  rewrite dec_int_put by done || lia. cbn [mbind outcome_bind].
  rewrite signed_vi by auto. cbn [mbind outcome_bind].
  rewrite signed_vi by (apply small_i64; unfold in_i in H3; simpl in H3; lia). cbn [mbind outcome_bind].
  rewrite dec_opt_enc by done. cbn [mbind outcome_bind]. rewrite dec_opt_enc by done. cbn [mbind outcome_bind].
  rewrite signed_vi by auto. cbn [mbind outcome_bind]. rewrite ltb_false by lia. rewrite Nat2Z.id.
  rewrite (elements_enc enc_header dec_header); [by destruct c|].
  apply (Forall_impl _ _ _ H6). intros h (Hu & Hl & Ho) r. by apply dec_header_enc.
Qed.

Lemma dec_record_enc c rest : record_ok c -> dec_record (enc_record c ++ rest) = Ok (c, rest).
Proof.
  intros Hc. unfold dec_record, enc_record. pose proof (co_length _ Hc). rewrite <- app_assoc, signed_vi by auto. cbn [mbind outcome_bind].
  rewrite dec_take_app. cbn [mbind outcome_bind].
  rewrite <- (app_nil_r (enc_body c)), dec_body_enc by done. cbn [mbind outcome_bind]. done.
Qed.

Lemma dec_batch_enc b : (forall x, in_u 32 (crc32c x)) -> batch_ok b -> dec_batch (enc_batch b (plain b)) = Ok b.
Proof.
  intros Hcrc [H1 H2 H3 H4 H5 H6 H7 H8 H9 H10 H11 H12]. unfold dec_batch, enc_batch.
  rewrite dec_int_put by done || lia. cbn [mbind outcome_bind].
  rewrite dec_int_put by (try apply in_field4; try apply in_field1; lia). cbn [mbind outcome_bind]. rewrite Z.eqb_refl. cbn [negb].
  unfold enc_rest. rewrite dec_int_put by done || lia. cbn [mbind outcome_bind].
  rewrite dec_int_put by (try apply in_field4; try apply in_field1; lia). cbn [mbind outcome_bind].
  rewrite get_be_put by apply Hcrc. cbn [ok_or mbind outcome_bind]. rewrite !Z.eqb_refl. cbn [negb orb].
  unfold enc_checked. do 7 (rewrite dec_int_put by done || lia; cbn [mbind outcome_bind]).
  rewrite dec_int_put by (try apply in_field4; try apply in_field1; lia). cbn [mbind outcome_bind].
  rewrite ltb_false by lia. rewrite Nat2Z.id. unfold plain.
  rewrite <- (app_nil_r (concat _)), (elements_enc enc_record dec_record).
  - by destruct b.
  - apply (Forall_impl _ _ _ H10). intros c Hc r. by apply dec_record_enc.
Qed.

(** ** The server's parser *)

(** What the server keeps of a record. *)
Definition seen (c : client_record) : ParsedRecord :=
  mk_parsed (c_key c) (default [] (c_value c)) (map (fun h => (h.1, default [] h.2)) (c_headers c)).

Lemma parse_opt_key o rest :
  opt_ok o ->
  ('(n, buf) ← parse_varint (enc_opt o ++ rest);
   (if 0 <=? n then '(k, buf) ← take_bytes n buf; Ok (Some k, buf) else Ok (None, buf))) = Ok (o, rest).
Proof.
  intros Ho. destruct o as [b|]; cbn [enc_opt opt_ok] in *.
  - rewrite <- app_assoc, parse_vi by lia. cbn [mbind outcome_bind]. rewrite (proj2 (Z.leb_le 0 (len b))) by lia.
    rewrite take_bytes_app by lia. done.
  - by rewrite parse_vi by lia.
Qed.

Lemma parse_opt_value o rest :
  opt_ok o ->
  ('(n, buf) ← parse_varint (enc_opt o ++ rest);
   (if 0 <=? n then take_bytes n buf else Ok ([], buf))) = Ok (default [] o, rest).
Proof.
  intros Ho. destruct o as [b|]; cbn [enc_opt opt_ok] in *.
  - rewrite <- app_assoc, parse_vi by lia. cbn [mbind outcome_bind]. rewrite (proj2 (Z.leb_le 0 (len b))) by lia.
    by rewrite take_bytes_app by lia.
  - by rewrite parse_vi by lia.
Qed.

Lemma bind_assoc {E A B C} (x : outcome E A) (f : A -> outcome E B) (g : B -> outcome E C) :
  (x ≫= f) ≫= g = x ≫= (fun a => f a ≫= g).
Proof. by destruct x. Qed.

Lemma parse_header_enc h rest :
  utf8 h.1 -> len (as_bytes h.1) < 2 ^ 31 -> opt_ok h.2 -> parse_header (enc_header h ++ rest) = Ok ((h.1, default [] h.2), rest).
Proof.
  intros Hu Hl Ho. unfold parse_header, enc_header. rewrite <- !app_assoc, parse_vi by lia. cbn [mbind outcome_bind].
  rewrite take_bytes_app by lia. cbn [mbind outcome_bind]. rewrite from_utf8_as_bytes by done.
  pose proof (parse_opt_value h.2 rest Ho) as Hv. destruct (parse_varint _) as [[n buf]|e|]; cbn [mbind outcome_bind] in *; [|done..].
  by rewrite Hv.
Qed.

Lemma parse_record_enc c rest : record_ok c -> parse_record (enc_record c ++ rest) = Ok (seen c, rest).
Proof.
  intros [H1 H2 H3 H4 H5 H6 H7 H8]. unfold parse_record, enc_record. rewrite <- app_assoc, parse_vi by lia. cbn [mbind outcome_bind].
  unfold enc_body. rewrite <- !app_assoc. rewrite get_signed_put by done || lia. cbn [mbind outcome_bind].
  rewrite parse_vi by lia. cbn [mbind outcome_bind]. rewrite parse_vi by (unfold in_i in H3; simpl in H3; lia). cbn [mbind outcome_bind].
  match goal with |- context [enc_opt (c_key c) ++ ?r] => pose proof (parse_opt_key (c_key c) r H4) as Hk end.
  destruct (parse_varint _) as [[n buf]|e|]; cbn [mbind outcome_bind] in Hk |- *; [|done..]. rewrite Hk. cbn [mbind outcome_bind].
  match goal with |- context [enc_opt (c_value c) ++ ?r] => pose proof (parse_opt_value (c_value c) r H5) as Hv end.
  destruct (parse_varint (enc_opt _ ++ _)) as [[n' buf']|e|]; cbn [mbind outcome_bind] in Hv |- *; [|done..]. rewrite Hv. cbn [mbind outcome_bind].
  rewrite parse_vi by lia. cbn [mbind outcome_bind]. rewrite Nat2Z.id.
  rewrite (elements_map enc_header (fun h => (h.1, default [] h.2)) parse_header); [done|].
  apply (Forall_impl _ _ _ H6). intros h (Hu & Hl & Ho) r. by apply parse_header_enc.
Qed.

Lemma length_enc_checked b data : len (enc_checked b data) = 40 + len data.
Proof. unfold enc_checked. rewrite !length_app, !length_put_be. lia. Qed.

Lemma length_enc_batch b data : len (enc_batch b data) = 61 + len data.
Proof.
  unfold enc_batch, enc_rest. rewrite !length_app, !length_put_be. pose proof (length_enc_checked b data). lia.
Qed.

(** Parsing what clients send.  A batch in the format of the protocol, its records plain or
    compressed by a library that the server's library undoes, is parsed to the fields of
    the producer and, for each record in order, its key, value and headers; a null value and
    a null header become empty ones, and offsets and timestamps are dropped. *)
Theorem batch_parsed b data :
  batch_ok b -> len data < 2 ^ 30 ->
  (compression_from_attributes (b_attributes b) = CtNone /\ data = plain b
   \/ compression_from_attributes (b_attributes b) <> CtNone
      /\ decompress_with (compression_from_attributes (b_attributes b)) data = inr (plain b)) ->
  parse_record_batch (enc_batch b data)
  = Ok (mk_batch_meta (b_producer_id b) (b_producer_epoch b) (b_base_sequence b) (map seen (b_records b))).
Proof.
  intros [H1 H2 H3 H4 H5 H6 H7 H8 H9 H10 H11 H12] Hd Hc. unfold parse_record_batch.
  pose proof (length_enc_batch b data) as Hlen. rewrite ltb_false by lia.
  pose proof (length_enc_checked b data) as Hchk.
  assert (Hrest : len (enc_rest b data) = 49 + len data) by (unfold enc_rest; rewrite !length_app, !length_put_be; lia).
  unfold enc_batch. rewrite get_signed_put by done || lia. cbn [mbind outcome_bind].
  rewrite get_signed_put by (try apply in_field4; try apply in_field1; lia). cbn [mbind outcome_bind].
  unfold enc_rest. rewrite get_signed_put by done || lia. cbn [mbind outcome_bind].
  rewrite get_signed_put by (try apply in_field4; try apply in_field1; lia). cbn [mbind outcome_bind]. rewrite Z.eqb_refl. cbn [negb].
  rewrite get_be_ok by (rewrite length_app, length_put_be; lia). cbn [or_panic mbind outcome_bind].
  rewrite drop_app_length' by (by rewrite length_put_be). unfold enc_checked.
  do 7 (rewrite get_signed_put by done || lia; cbn [mbind outcome_bind]).
  rewrite get_signed_put by (try apply in_field4; try apply in_field1; lia). cbn [mbind outcome_bind].
  assert (Hdec : decompress data (compression_from_attributes (b_attributes b)) = Ok (plain b)).
  { unfold decompress. destruct Hc as [[-> ->]|[Hne Hz]]; [done|].
    destruct (compression_from_attributes _); [done|..]; by rewrite Hz. }
  rewrite Hdec. cbn [mbind outcome_bind]. unfold with_capacity. rewrite wrap_small by (unfold in_u; lia).
  rewrite gtb_false by lia. cbn [mbind outcome_bind]. rewrite Nat2Z.id. unfold plain.
  rewrite <- (app_nil_r (concat _)), (elements_map enc_record seen parse_record); [done|].
  apply (Forall_impl _ _ _ H10). intros c Hcr r. by apply parse_record_enc.
Qed.

(** ** The server's builder *)

Definition served_record (base_offset base_timestamp : Z) (r : Record_) : client_record :=
  mk_client_record 0 (swrap 64 (swrap 64 (r_timestamp r) - base_timestamp)) (swrap 32 (r_offset r - base_offset))
    (r_key r) (Some (r_value r)) [].

Definition served (base_offset base_timestamp : Z) (records : list Record_) : client_batch :=
  mk_client_batch base_offset 0 0 (len records - 1) base_timestamp (max_timestamp base_timestamp records) (-1) (-1) (-1)
    (map (served_record base_offset base_timestamp) records).

Lemma encode_record_served batch base ts r :
  encode_record_with_deltas batch (swrap 32 (r_offset r - base)) (swrap 64 (swrap 64 (r_timestamp r) - ts)) (r_key r) (r_value r)
  = batch ++ enc_record (served_record base ts r).
Proof.
  unfold encode_record_with_deltas, enc_record, encode_varint. cbn [served_record].
  assert (Hb : enc_body (served_record base ts r) =
    ((match r_key r with
      | Some k => ((put_be 1 0 ++ vi (swrap 64 (swrap 64 (r_timestamp r) - ts))) ++ vi (swrap 32 (r_offset r - base))) ++ vi (len k) ++ k
      | None => ((put_be 1 0 ++ vi (swrap 64 (swrap 64 (r_timestamp r) - ts))) ++ vi (swrap 32 (r_offset r - base))) ++ vi (-1)
      end ++ vi (len (r_value r))) ++ r_value r) ++ vi 0).
  { unfold enc_body. cbn [served_record c_attributes c_timestamp_delta c_offset_delta c_key c_value c_headers enc_opt map concat length].
    destruct (r_key r) as [k|]; cbn [enc_opt]; rewrite <- !app_assoc; cbn; by rewrite ?app_nil_r. }
  rewrite Hb. unfold vi. destruct (r_key r); by rewrite <- !app_assoc.
Qed.

Lemma build_is_enc base ts records :
  records <> [] -> build_record_batch_from_records base ts records = enc_batch (served base ts records) (plain (served base ts records)).
Proof.
  intros Hne. unfold build_record_batch_from_records. destruct records as [|r0 rs]; [done|].
  set (records := r0 :: rs) in *.
  assert (Hfold : forall l batch, foldl (fun batch r => encode_record_with_deltas batch (swrap 32 (r_offset r - base))
                     (swrap 64 (swrap 64 (r_timestamp r) - ts)) (r_key r) (r_value r)) batch l
                   = batch ++ concat (map enc_record (map (served_record base ts) l))).
  { intros l. induction l as [|r l IH]; intros batch; cbn [foldl map concat].
    - by rewrite app_nil_r.
    - by rewrite IH, encode_record_served, <- app_assoc. }
  cbv zeta. rewrite Hfold, <- !app_assoc. unfold enc_batch, enc_rest, enc_checked, plain. cbn [served b_base_offset b_leader_epoch b_attributes
    b_last_offset_delta b_first_timestamp b_max_timestamp b_producer_id b_producer_epoch b_base_sequence b_records].
  rewrite length_map. reflexivity.
Qed.

(** What a consumer makes of a batch: the offset, timestamp, key and value of each record. *)
Definition client_view (b : client_batch) : list (Z * Z * option bytes * option bytes) :=
  map (fun c => (b_base_offset b + c_offset_delta c, b_first_timestamp b + c_timestamp_delta c, c_key c, c_value c)) (b_records b).

(** The records of a batch are not longer than the batch. *)
Lemma plain_bound b c : c ∈ b_records b -> (length (enc_record c) <= length (plain b))%nat.
Proof.
  unfold plain. intros (l & l' & ->)%list_elem_of_split. rewrite map_app, concat_app. cbn. rewrite !length_app. lia.
Qed.

Lemma body_bound c :
  (length (enc_body c) <= length (enc_record c))%nat
  /\ match c_key c with Some k => (length k <= length (enc_body c))%nat | None => True end
  /\ match c_value c with Some v => (length v <= length (enc_body c))%nat | None => True end.
Proof.
  unfold enc_record. rewrite length_app. split; [lia|]. unfold enc_body. rewrite !length_app.
  destruct (c_key c), (c_value c); cbn [enc_opt]; rewrite ?length_app; split; lia || done.
Qed.

Definition servable (base : Z) (r : Record_) : Prop := base <= r_offset r < base + 2 ^ 31 /\ 0 <= r_timestamp r < 2 ^ 62.

Lemma swrap64_small x : - 2 ^ 63 <= x < 2 ^ 63 -> swrap 64 x = x.
Proof. intros Hx. by apply swrap_small. Qed.

Lemma swrap32_small x : - 2 ^ 31 <= x < 2 ^ 31 -> swrap 32 x = x.
Proof. intros Hx. by apply swrap_small. Qed.

Lemma max_timestamp_bound base records :
  0 <= base < 2 ^ 62 -> Forall (fun r => 0 <= r_timestamp r < 2 ^ 62) records -> 0 <= max_timestamp base records < 2 ^ 62.
Proof.
  intros Hb Hr. unfold max_timestamp. destruct Hr as [|r rs Hr Hrs]; [done|]. cbn [map].
  rewrite swrap64_small by lia. generalize (r_timestamp r) Hr. clear - Hrs. induction Hrs as [|x l Hx Hl IH]; intros a Ha; cbn; [lia|].
  apply IH. rewrite swrap64_small by lia. lia.
Qed.

Lemma served_ok base ts records :
  0 <= base < 2 ^ 62 -> 0 <= ts < 2 ^ 62 -> Forall (servable base) records -> records <> [] ->
  len (build_record_batch_from_records base ts records) < 2 ^ 31 -> batch_ok (served base ts records).
Proof.
  intros Hbase Hts Hr Hne Hlen. rewrite build_is_enc in Hlen by done.
  pose proof (length_enc_batch (served base ts records) (plain (served base ts records))) as Hl.
  pose proof (length_enc_checked (served base ts records) (plain (served base ts records))) as Hl'.
  assert (Hmax : 0 <= max_timestamp ts records < 2 ^ 62).
  { apply max_timestamp_bound; [done|]. apply (Forall_impl _ _ _ Hr). by intros r []. }
  assert (Hcount : len records < 2 ^ 31).
  { assert (len records <= len (plain (served base ts records))); [|lia]. unfold plain. cbn [served b_records]. clear.
    induction records as [|r l IH]; [done|]. cbn [map concat length] in *. rewrite length_app.
    assert (1 <= length (enc_record (served_record base ts r)))%nat; [|lia].
    unfold enc_record. rewrite length_app. pose proof (encode_loop_nonempty 9 (zigzag (len (enc_body (served_record base ts r))))).
    unfold vi. destruct (encode_loop 10 _); [done|cbn; lia]. }
  split; cbn [served b_base_offset b_leader_epoch b_attributes b_last_offset_delta b_first_timestamp b_max_timestamp b_producer_id
    b_producer_epoch b_base_sequence b_records]; rewrite ?length_map; unfold in_i;
    try (change (2 ^ (64 - 1)) with (2 ^ 63)); try (change (2 ^ (32 - 1)) with (2 ^ 31)); try (change (2 ^ (16 - 1)) with (2 ^ 15)); try lia.
  - apply Forall_forall. intros c Hin. pose proof (plain_bound (served base ts records) c Hin) as Hp.
    destruct (body_bound c) as (Hb & Hk & Hv). apply list_elem_of_fmap in Hin as (r & -> & Hin).
    rewrite Forall_forall in Hr. destruct (Hr r Hin) as [Ho Ht].
    split; cbn [served_record c_attributes c_timestamp_delta c_offset_delta c_key c_value c_headers] in *.
    + done.
    + rewrite (swrap64_small (r_timestamp r)) by lia. rewrite swrap64_small by lia. lia.
    + by apply swrap_in_i.
    + destruct (r_key r); cbn; [lia|done].
    + cbn. lia.
    + constructor.
    + done.
    + lia.
  - unfold enc_rest. rewrite !length_app, !length_put_be. lia.
Qed.

(** C31: what consumers are served.  The batch that the server builds of records is one that the
    protocol's decoder accepts, length and checksum included, and in it a consumer finds
    exactly the records with their offsets, timestamps, keys and values, in order. *)
Theorem batch_served base ts records :
  (forall x, in_u 32 (crc32c x)) -> 0 <= base < 2 ^ 62 -> 0 <= ts < 2 ^ 62 -> Forall (servable base) records -> records <> [] ->
  len (build_record_batch_from_records base ts records) < 2 ^ 31 ->
  exists b, dec_batch (build_record_batch_from_records base ts records) = Ok b
    /\ client_view b = map (fun r => (r_offset r, r_timestamp r, r_key r, Some (r_value r))) records
    /\ b_base_offset b = base /\ b_last_offset_delta b = len records - 1
    /\ b_max_timestamp b = max_timestamp ts records.
Proof.
  intros Hcrc Hbase Hts Hr Hne Hlen. pose proof (served_ok base ts records Hbase Hts Hr Hne Hlen) as Hok.
  exists (served base ts records). rewrite build_is_enc by done. split; [by apply dec_batch_enc|]. split; [|done].
  unfold client_view. cbn [served b_records b_base_offset b_first_timestamp]. rewrite map_map. apply map_ext_in.
  intros r Hin. apply list_elem_of_In in Hin. rewrite Forall_forall in Hr. destruct (Hr r Hin) as [Ho Ht].
  cbn [served_record c_offset_delta c_timestamp_delta c_key c_value].
  rewrite (swrap64_small (r_timestamp r)) by lia. rewrite swrap64_small by lia. rewrite swrap32_small by lia.
  do 3 f_equal; lia.
Qed.

(** Malformed batches.  Where a header announces a negative number of records, or a record a
    key longer than what is left of the batch, the parser does not answer with an error: it
    panics. *)
Theorem batch_panics b count key_length body :
  batch_ok b -> compression_from_attributes (b_attributes b) = CtNone -> len body < 2 ^ 30 ->
  let header n := put_be 8 (b_base_offset b) ++ put_be 4 0 ++ put_be 4 (b_leader_epoch b) ++ put_be 1 2 ++ put_be 4 0
    ++ put_be 2 (b_attributes b) ++ put_be 4 (b_last_offset_delta b) ++ put_be 8 (b_first_timestamp b)
    ++ put_be 8 (b_max_timestamp b) ++ put_be 8 (b_producer_id b) ++ put_be 2 (b_producer_epoch b)
    ++ put_be 4 (b_base_sequence b) ++ put_be 4 n in
  (- 2 ^ 31 <= count < 0 -> parse_record_batch (header count ++ body) = Panic)
  /\ (len body < key_length < 2 ^ 62 ->
      parse_record_batch (header 1 ++ vi 0 ++ put_be 1 0 ++ vi 0 ++ vi 0 ++ vi key_length ++ body) = Panic).
Proof.
  intros [H1 H2 H3 H4 H5 H6 H7 H8 H9 _ _ _] Hc Hb header.
  assert (Hhead : forall n rest, - 2 ^ 31 <= n < 2 ^ 31 ->
    parse_record_batch (header n ++ rest) =
      (_ ← with_capacity 72 (wrap 64 n);
       '(records, _) ← parse_elements parse_record (Z.to_nat n) rest;
       Ok (mk_batch_meta (b_producer_id b) (b_producer_epoch b) (b_base_sequence b) records))).
  { intros n rest Hn. unfold parse_record_batch, header. rewrite ltb_false by (rewrite !length_app, !length_put_be; lia).
    rewrite <- !app_assoc. rewrite get_signed_put by done || lia. cbn [mbind outcome_bind].
    rewrite get_signed_put by (try apply in_field4; lia). cbn [mbind outcome_bind].
    rewrite get_signed_put by done || lia. cbn [mbind outcome_bind].
    rewrite get_signed_put by (try apply in_field1; lia). cbn [mbind outcome_bind]. rewrite Z.eqb_refl. cbn [negb].
    rewrite get_be_ok by (rewrite length_app, length_put_be; lia). cbn [or_panic mbind outcome_bind].
    rewrite drop_app_length' by (by rewrite length_put_be).
    do 7 (rewrite get_signed_put by done || lia; cbn [mbind outcome_bind]).
    rewrite get_signed_put by (try apply in_field4; lia). cbn [mbind outcome_bind]. by rewrite Hc. }
  split.
  - intros Hcount. rewrite Hhead by lia. unfold with_capacity.
    assert (Hw : wrap 64 count = count + 2 ^ 64).
    { unfold wrap. rewrite <- (Z.mod_add _ 1) by lia. rewrite Z.mod_small; lia. }
    rewrite Hw. destruct (Z.gtb_spec ((count + 2 ^ 64) * 72) (2 ^ 63 - 1)); [done|lia].
  - intros Hk. rewrite Hhead by lia. unfold with_capacity. rewrite wrap_small by (unfold in_u; lia). rewrite gtb_false by lia.
    cbn [mbind outcome_bind]. change (Z.to_nat 1) with 1%nat. cbn [parse_elements]. unfold parse_record.
    rewrite parse_vi by lia. cbn [mbind outcome_bind]. rewrite get_signed_put by (try apply in_field1; lia). cbn [mbind outcome_bind].
    do 3 (rewrite parse_vi by lia; cbn [mbind outcome_bind]). rewrite (proj2 (Z.leb_le 0 key_length)) by lia.
    unfold take_bytes. rewrite wrap_small by (unfold in_u; lia). by rewrite (proj2 (Z.ltb_lt (len body) key_length)) by lia.
Qed.
End format.

(** ** Batches at work *)

Definition two_records : list client_record :=
  [mk_client_record 0 0 0 (Some [Init.Byte.x41]) (Some [Init.Byte.x42; Init.Byte.x43]) [("trace"%string, Some [Init.Byte.x01])];
   mk_client_record 0 5 1 None None [("empty"%string, None)]].
Definition one_batch : client_batch := mk_client_batch 0 (-1) 0 1 1000 1005 7 0 42 two_records.

Lemma one_batch_ok : batch_ok one_batch.
Proof.
  split; try (unfold in_i; cbn; lia).
  - repeat constructor; try (unfold in_i; cbn; lia); try (vm_compute; reflexivity).
  - vm_compute. reflexivity.
Qed.

Lemma batch_parsed_witness :
  parse_record_batch (enc_batch one_batch (plain one_batch))
  = Ok (mk_batch_meta 7 0 42
          [mk_parsed (Some [Init.Byte.x41]) [Init.Byte.x42; Init.Byte.x43] [("trace"%string, [Init.Byte.x01])];
           mk_parsed None [] [("empty"%string, [])]]).
Proof.
  apply (batch_parsed one_batch (plain one_batch)).
  - exact one_batch_ok.
  - vm_compute. reflexivity.
  - left. split; reflexivity.
Defined.

Definition stored_two : list Record_ :=
  [mk_record 40 1000 (Some [Init.Byte.x41]) [Init.Byte.x42]; mk_record 41 990 None [Init.Byte.x43]].

Lemma batch_served_witness :
  exists b, dec_batch (build_record_batch_from_records 40 1000 stored_two) = Ok b
    /\ client_view b = [(40, 1000, Some [Init.Byte.x41], Some [Init.Byte.x42]); (41, 990, None, Some [Init.Byte.x43])].
Proof.
  destruct (batch_served 40 1000 stored_two) as (b & Hb & Hv & _).
  - intros x. apply wrap_in_u. lia.
  - lia.
  - lia.
  - repeat constructor; cbn; lia.
  - done.
  - vm_compute. reflexivity.
  - exists b. split; [exact Hb|exact Hv].
Defined.

Lemma batch_panics_witness :
  exists data, len data < 100 /\ parse_record_batch data = Panic.
Proof.
  destruct (batch_panics one_batch (-1) 5 [] one_batch_ok eq_refl) as [H _]; [cbn; lia|].
  eexists. split; [|apply H; lia]. vm_compute. reflexivity.
Defined.
