(* ===== verification/KafkaProduce.v ===== *)
(** * Produce requests (crates/streamhouse-kafka/src/handlers/produce.rs)

    The handler parses each partition's batch, checks the sequence of an idempotent producer
    against the metadata store, and has the router send the records to the agent.  The state
    of the cluster holds the metadata store ([MetadataDb]). *)

From S2P Require Import Prelude HashMap Core MetadataError KafkaTypes KafkaCodec KafkaBatch PartitionWriter ProducerStore ProduceService AgentRouter.

(** Where the tables of producers are in a state. *)
Class MetadataDb (S : Type) := { db_of : S -> db; put_db : db -> S -> S }.

#[export] Instance agent_db `{HC : External.Codecs} `{HP : ObjectPaths} `{HJ : Catalog.JsonMaps} : MetadataDb state :=
  {| db_of := store; put_db := set_store |}.

Record PartitionProduceResponse : Type := mk_produced {
  pp_partition_index : Z;
  pp_error_code : ErrorCode.ErrorCode;
  pp_base_offset : Z;
  pp_log_append_time : Z;
  pp_log_start_offset : Z
}.

Record TopicProduceResponse : Type := mk_topic_produced { pt_name : string; pt_partitions : list PartitionProduceResponse }.

(** What a batch meets: failures of the metadata store, the clock, the attempts of the router. *)
Record records_env (E : Type) : Type := mk_records_env {
  re_lookup : option MetadataError;
  re_sequence : option MetadataError;
  re_now : Z;
  re_attempts : nat -> attempt_env E
}.
Arguments mk_records_env {E}. Arguments re_lookup {E}. Arguments re_sequence {E}. Arguments re_now {E}. Arguments re_attempts {E}.

(** The quotas of the organization, where they are enforced: the milliseconds to throttle for
    that many bytes, and whether the storage is used up. *)
Record produce_quota : Type := mk_produce_quota { pq_throttle : Z -> option Z; pq_storage_denied : bool }.

Section produce.
Context `{HashOrder} `{SqlText} `{GrpcTexts} {S E : Type} `{!Agents S E} `{!MetadataDb S} `{Decompressors}.

Definition refused (partition_id : Z) (code : ErrorCode.ErrorCode) : PartitionProduceResponse :=
  mk_produced (swrap 32 partition_id) code (-1) (-1) 0.

(** The check of an idempotent batch: the code that refuses it, if any. *)
Definition check_producer (topic : string) (partition_id : Z) (meta : RecordBatchMeta) (env : records_env E) (d : db)
  : db * outcome () (option ErrorCode.ErrorCode) :=
  match try_call (re_lookup env) (get_producer_by_numeric_id (bm_producer_id meta)) d with
  | (d, Ok (Some producer)) =>
      if negb (pr_epoch producer =? wrap 32 (bm_producer_epoch meta)) then (d, Ok (Some ErrorCode.InvalidProducerEpoch))
      else
        match try_call (re_sequence env)
                (check_and_update_sequence (pr_id producer) topic partition_id (bm_base_sequence meta)
                   (wrap 32 (len (bm_records meta)))) d with
        | (d, Ok true) => (d, Ok None)
        | (d, Ok false) => (d, Ok (Some ErrorCode.DuplicateSequenceNumber))
        | (d, Err _) => (d, Ok (Some ErrorCode.OutOfOrderSequenceNumber))
        | (d, Panic) => (d, Panic)
        end
  | (d, Ok None) => (d, Ok (Some ErrorCode.UnknownProducerId))
  | (d, Err _) => (d, Ok (Some ErrorCode.UnknownServerError))
  | (d, Panic) => (d, Panic)
  end.

(** The request to the agent: the time of the server, no headers, nothing of the producer,
    buffered acknowledgement. *)
Definition agent_request (topic : string) (partition_id : Z) (records : list ParsedRecord) (now : Z) : ProduceRequest :=
  mk_produce_request topic partition_id (map (fun r => (pd_key r, pd_value r, wrap 64 now)) records) 0 None None None None.

Definition send (org_id topic : string) (partition_id : Z) (meta : RecordBatchMeta) (env : records_env E) (r : AgentRouter) (s : S)
  : AgentRouter * S * outcome KafkaError PartitionProduceResponse :=
  match produce org_id (agent_request topic partition_id (bm_records meta) (re_now env)) (re_attempts env) r s with
  | (r, s, Ok resp) =>
      (r, s, Ok (mk_produced (swrap 32 partition_id) ErrorCode.None (swrap 64 (rs_base_offset resp)) (swrap 64 (re_now env)) 0))
  | (r, s, Err _) => (r, s, Ok (refused partition_id ErrorCode.KafkaStorageError))
  | (r, s, Panic) => (r, s, Panic)
  end.

Definition process_records (org_id topic : string) (partition_id : Z) (record_data : bytes) (env : records_env E)
    (r : AgentRouter) (s : S) : AgentRouter * S * outcome KafkaError PartitionProduceResponse :=
  match parse_record_batch record_data with
  | Err _ => (r, s, Ok (refused partition_id ErrorCode.CorruptMessage))
  | Panic => (r, s, Panic)
  | Ok meta =>
      if 0 <=? bm_producer_id meta then
        match check_producer topic partition_id meta env (db_of s) with
        | (d, Ok None) => send org_id topic partition_id meta env r (put_db d s)
        | (d, Ok (Some code)) => (r, put_db d s, Ok (refused partition_id code))
        | (d, _) => (r, put_db d s, Panic)
        end
      else send org_id topic partition_id meta env r s
  end.

Fixpoint process_partitions (org_id topic : string) (partitions : list (Z * option bytes)) (envs : nat -> records_env E)
    (r : AgentRouter) (s : S) : AgentRouter * S * outcome KafkaError (list PartitionProduceResponse) :=
  match partitions with
  | [] => (r, s, Ok [])
  | (partition_index, records) :: partitions =>
      let '(r, s, response) :=
        match records with
        | Some record_data => process_records org_id topic (wrap 32 partition_index) record_data (envs 0%nat) r s
        | None => (r, s, Ok (mk_produced partition_index ErrorCode.InvalidRecord (-1) (-1) 0))
        end in
      match response with
      | Ok response =>
          let '(r, s, rest) := process_partitions org_id topic partitions (fun i => envs (Datatypes.S i)) r s in
          (r, s, rest ← rest; Ok (response :: rest))
      | Err e => (r, s, Err e)
      | Panic => (r, s, Panic)
      end
  end.

Abbreviation topic_data := (string * list (Z * option bytes))%type.

Fixpoint process_topics (org_id : string) (topics : list topic_data) (envs : nat -> nat -> records_env E) (r : AgentRouter) (s : S)
  : AgentRouter * S * outcome KafkaError (list TopicProduceResponse) :=
  match topics with
  | [] => (r, s, Ok [])
  | (name, partitions) :: topics =>
      match process_partitions org_id name partitions (envs 0%nat) r s with
      | (r, s, Ok responses) =>
          let '(r, s, rest) := process_topics org_id topics (fun i => envs (Datatypes.S i)) r s in
          (r, s, rest ← rest; Ok (mk_topic_produced name responses :: rest))
      | (r, s, Err e) => (r, s, Err e)
      | (r, s, Panic) => (r, s, Panic)
      end
  end.

(** ** Requests *)

(** An [Option<Vec<u8>>] with an [i32] takes 32 bytes of a [Vec], a name with a [Vec] 48. *)
Definition parse_partition_flexible : parser (Z * option bytes) := fun buf =>
  '(index, buf) ← get_signed 4 buf;
  '(records, buf) ← parse_compact_nullable_bytes buf;
  buf ← skip_tagged_fields buf;
  Ok ((index, records), buf).

Definition parse_partition : parser (Z * option bytes) := fun buf =>
  '(index, buf) ← get_signed 4 buf;
  '(records, buf) ← parse_nullable_bytes buf;
  Ok ((index, records), buf).

Definition parse_topic_flexible : parser topic_data := fun buf =>
  '(name, buf) ← parse_compact_string buf;
  '(partitions, buf) ← parse_compact_array 32 parse_partition_flexible buf;
  buf ← skip_tagged_fields buf;
  Ok ((name, partitions), buf).

Definition parse_topic : parser topic_data := fun buf =>
  '(name, buf) ← parse_string buf;
  '(partitions, buf) ← parse_array 32 parse_partition buf;
  Ok ((name, partitions), buf).

(** The topics; the acknowledgements, the timeout and the transaction are not used. *)
Definition parse_request (api_version : Z) (body : bytes) : outcome KafkaError (list topic_data) :=
  if 9 <=? api_version then
    if len body <? 2 then Err (InvalidRequest "Body too short")
    else
      let body := skip_compact_string body in
      '(_, body) ← get_signed 2 body;
      '(_, body) ← get_signed 4 body;
      '(topics, body) ← parse_compact_array 48 parse_topic_flexible body;
      _ ← skip_tagged_fields body;
      Ok topics
  else
    '(_, body) ← (if 3 <=? api_version then parse_nullable_string body else Ok (None, body));
    if len body <? 6 then Err (InvalidRequest "Body too short")
    else
      '(_, body) ← get_signed 2 body;
      '(_, body) ← get_signed 4 body;
      '(topics, _) ← parse_array 48 parse_topic body;
      Ok topics.

(** ** Responses *)

Definition encode_partition_flexible (buf : bytes) (p : PartitionProduceResponse) : bytes :=
  let buf := buf ++ put_be 4 (pp_partition_index p) ++ put_be 2 (ErrorCode.as_i16 (pp_error_code p))
               ++ put_be 8 (pp_base_offset p) ++ put_be 8 (pp_log_append_time p) ++ put_be 8 (pp_log_start_offset p) in
  encode_empty_tagged_fields (encode_unsigned_varint buf 1).

Definition encode_partition (api_version : Z) (buf : bytes) (p : PartitionProduceResponse) : bytes :=
  let buf := buf ++ put_be 4 (pp_partition_index p) ++ put_be 2 (ErrorCode.as_i16 (pp_error_code p))
               ++ put_be 8 (pp_base_offset p) in
  let buf := if 2 <=? api_version then buf ++ put_be 8 (pp_log_append_time p) else buf in
  let buf := if 5 <=? api_version then buf ++ put_be 8 (pp_log_start_offset p) else buf in
  if 8 <=? api_version then buf ++ put_be 4 0 else buf.

Definition encode_response (api_version throttle_time_ms : Z) (topics : list TopicProduceResponse) : bytes :=
  if 9 <=? api_version then
    let response := encode_unsigned_varint [] (len topics + 1) in
    let response :=
      foldl (fun response topic =>
        let response := encode_compact_string response (pt_name topic) in
        let response := encode_unsigned_varint response (len (pt_partitions topic) + 1) in
        encode_empty_tagged_fields (foldl encode_partition_flexible response (pt_partitions topic))) response topics in
    encode_empty_tagged_fields (response ++ put_be 4 throttle_time_ms)
  else
    let response :=
      foldl (fun response topic =>
        let response := encode_string response (pt_name topic) ++ put_be 4 (len (pt_partitions topic)) in
        foldl (encode_partition api_version) response (pt_partitions topic)) (put_be 4 (len topics)) topics in
    if 1 <=? api_version then response ++ put_be 4 throttle_time_ms else response.

Definition total_bytes (topics : list topic_data) : Z :=
  foldl Z.add 0 (map (fun p : Z * option bytes => match p.2 with Some data => len data | None => 0 end) (concat (map snd topics))).

(** Storage is used up: every partition is refused. *)
Definition deny (topics : list topic_data) : list TopicProduceResponse :=
  map (fun t : topic_data => mk_topic_produced t.1 (map (fun p : Z * option bytes => mk_produced p.1 ErrorCode.PolicyViolation (-1) (-1) 0) t.2)) topics.

Definition handle_produce (org_id : string) (header : RequestHeader) (body : bytes) (throttle_time_ms : Z)
    (quota : option produce_quota) (envs : nat -> nat -> records_env E) (r : AgentRouter) (s : S)
  : AgentRouter * S * outcome KafkaError bytes :=
  let api_version := rh_api_version header in
  match parse_request api_version body with
  | Ok topics =>
      let bytes := total_bytes topics in
      let checked := if 0 <? bytes then quota else None in
      let throttle_time_ms :=
        match checked with
        | Some q => match pq_throttle q bytes with Some ms => Z.max throttle_time_ms ms | None => throttle_time_ms end
        | None => throttle_time_ms
        end in
      if match checked with Some q => pq_storage_denied q | None => false end
      then (r, s, Ok (encode_response api_version throttle_time_ms (deny topics)))
      else
        let '(r, s, responses) := process_topics org_id topics envs r s in
        (r, s, responses ← responses; Ok (encode_response api_version throttle_time_ms responses))
  | Err e => (r, s, Err e)
  | Panic => (r, s, Panic)
  end.
End produce.
