(* ===== verification/KafkaTxn.v ===== *)
(** * Transactions of Kafka clients (crates/streamhouse-kafka/src/handlers)

    The handlers of InitProducerId, AddPartitionsToTxn, AddOffsetsToTxn, EndTxn and
    TxnOffsetCommit (init_producer_id.rs, add_partitions_to_txn.rs, add_offsets_to_txn.rs,
    end_txn.rs, txn_offset_commit.rs) over the metadata store. *)

From S2P Require Import Prelude Utf8 HashMap MetadataError KafkaTypes KafkaCodec KafkaBatch Catalog ProducerStore ProduceService.

(** What a handler meets: failures of the calls it makes, the identifier of a new row, the
    clock of the database and its own. *)
Record txn_env : Type := mk_txn_env {
  te_producer : option MetadataError;
  te_begin : option MetadataError;
  te_uuid : string;
  te_begin_now : Z;
  te_partition : nat -> nat -> option MetadataError;
  te_rows : option MetadataError;
  te_decide : option MetadataError;
  te_decide_now : Z;
  te_now : Z;
  te_marker : nat -> option MetadataError;
  te_stable : nat -> option MetadataError
}.

Section handlers.
Context `{HashOrder} `{SqlText}.

(** ** InitProducerId *)

(** FNV-1a, without the sign bit. *)
Definition hash_producer_id (id : string) : Z :=
  Z.land (foldl (fun hash b => wrap 64 (Z.lxor hash (byte.unsigned b) * 1099511628211)) 14695981039346656037 (as_bytes id))
    9223372036854775807.

Definition parse_init (api_version : Z) (body : bytes) : outcome KafkaError (option string) :=
  if 3 <=? api_version then
    '(txn_id, body) ← parse_compact_nullable_string body;
    '(_, body) ← get_signed 4 body;
    _ ← skip_tagged_fields body;
    Ok txn_id
  else
    '(txn_id, body) ← parse_nullable_string body;
    '(_, _) ← get_signed 4 body;
    Ok txn_id.

(** The code, the producer's number and its epoch. *)
Definition init_result (org_id : string) (transactional_id : option string) (env : txn_env) (d : db)
  : db * outcome KafkaError (ErrorCode.ErrorCode * Z * Z) :=
  match try_call (te_producer env)
          (ProducerStore.init_producer (mk_init_producer transactional_id (Some org_id)) (te_uuid env) (te_begin_now env)) d with
  | (d, Ok producer) => (d, Ok (ErrorCode.None, hash_producer_id (pr_id producer), swrap 16 (pr_epoch producer)))
  | (d, Err _) => (d, Ok (ErrorCode.UnknownServerError, -1, -1))
  | (d, Panic) => (d, Panic)
  end.

Definition handle_init_producer_id (org_id : string) (header : RequestHeader) (body : bytes) (env : txn_env) (d : db)
  : db * outcome KafkaError bytes :=
  match parse_init (rh_api_version header) body with
  | Ok transactional_id =>
      let '(d, result) := init_result org_id transactional_id env d in
      (d,
       '(code, producer_id, epoch) ← result;
       let response := put_be 4 0 ++ put_be 2 (ErrorCode.as_i16 code) ++ put_be 8 producer_id ++ put_be 2 epoch in
       Ok (if 3 <=? rh_api_version header then encode_empty_tagged_fields response else response))
  | Err e => (d, Err e)
  | Panic => (d, Panic)
  end.

(** ** The transaction of a request *)

(** The producer of the transactional id, and the transaction that the store begins for it. *)
Definition open_transaction (org_id transactional_id : string) (env : txn_env) (d : db)
  : db * outcome KafkaError (ErrorCode.ErrorCode + Transaction) :=
  match try_call (te_producer env) (get_producer_by_transactional_id transactional_id (Some org_id)) d with
  | (d, Ok (Some producer)) =>
      match try_call (te_begin env) (begin_transaction_for_org org_id (pr_id producer) (te_uuid env) 60000 (te_begin_now env)) d with
      | (d, Ok transaction) => (d, Ok (inr transaction))
      | (d, Err _) => (d, Ok (inl ErrorCode.InvalidTxnState))
      | (d, Panic) => (d, Panic)
      end
  | (d, Ok None) => (d, Ok (inl ErrorCode.InvalidProducerIdMapping))
  | (d, Err _) => (d, Ok (inl ErrorCode.UnknownServerError))
  | (d, Panic) => (d, Panic)
  end.

Definition build_response (header : RequestHeader) (code : ErrorCode.ErrorCode) : bytes :=
  let response := put_be 4 0 ++ put_be 2 (ErrorCode.as_i16 code) in
  if 3 <=? rh_api_version header then encode_empty_tagged_fields response else response.

(** The codes of the partitions of each topic. *)
Definition topics_response (header : RequestHeader) (topics : list (string * list (Z * ErrorCode.ErrorCode))) : bytes :=
  let response := put_be 4 0 in
  if 3 <=? rh_api_version header then
    let response := encode_unsigned_varint response (len topics + 1) in
    encode_empty_tagged_fields
      (foldl (fun response (t : string * list (Z * ErrorCode.ErrorCode)) =>
         let response := encode_unsigned_varint (encode_compact_string response t.1) (len t.2 + 1) in
         encode_empty_tagged_fields
           (foldl (fun response p =>
              encode_empty_tagged_fields (response ++ put_be 4 p.1 ++ put_be 2 (ErrorCode.as_i16 p.2))) response t.2)) response topics)
  else
    foldl (fun response (t : string * list (Z * ErrorCode.ErrorCode)) =>
      let response := encode_string response t.1 ++ put_be 4 (len t.2) in
      foldl (fun response p => response ++ put_be 4 p.1 ++ put_be 2 (ErrorCode.as_i16 p.2)) response t.2)
      (response ++ put_be 4 (len topics)) topics.

(** ** AddPartitionsToTxn *)

(** An [i32] takes 4 bytes of a [Vec], a name with a [Vec] 48. *)
Definition parse_add_partitions (api_version : Z) (body : bytes) : outcome KafkaError (string * list (string * list Z)) :=
  if 3 <=? api_version then
    '(txn_id, body) ← parse_compact_string body;
    '(_, body) ← get_signed 8 body;
    '(_, body) ← get_signed 2 body;
    '(topics, body) ←
      parse_compact_array 48 (fun b =>
        '(name, b) ← parse_compact_string b;
        '(partitions, b) ← parse_compact_array 4 (fun b => '(i, b) ← get_signed 4 b; b ← skip_tagged_fields b; Ok (i, b)) b;
        b ← skip_tagged_fields b;
        Ok ((name, partitions), b)) body;
    _ ← skip_tagged_fields body;
    Ok (txn_id, topics)
  else
    '(txn_id, body) ← parse_string body;
    '(_, body) ← get_signed 8 body;
    '(_, body) ← get_signed 2 body;
    '(topics, _) ←
      parse_array 48 (fun b =>
        '(name, b) ← parse_string b;
        '(partitions, b) ← parse_array 4 (get_signed 4) b;
        Ok ((name, partitions), b)) body;
    Ok (txn_id, topics).

Fixpoint add_partitions (org_id transaction_id topic : string) (partitions : list Z) (fails : nat -> option MetadataError) (d : db)
  : db * outcome KafkaError (list (Z * ErrorCode.ErrorCode)) :=
  match partitions with
  | [] => (d, Ok [])
  | partition_index :: partitions =>
      match try_call (fails 0%nat)
              (add_transaction_partition_for_org org_id transaction_id topic (wrap 32 partition_index) 0) d with
      | (d, Panic) => (d, Panic)
      | (d, r) =>
          let code := match r with Ok _ => ErrorCode.None | _ => ErrorCode.UnknownServerError end in
          let '(d, rest) := add_partitions org_id transaction_id topic partitions (fun i => fails (S i)) d in
          (d, rest ← rest; Ok ((partition_index, code) :: rest))
      end
  end.

Fixpoint add_topics (org_id transaction_id : string) (topics : list (string * list Z)) (fails : nat -> nat -> option MetadataError)
    (d : db) : db * outcome KafkaError (list (string * list (Z * ErrorCode.ErrorCode))) :=
  match topics with
  | [] => (d, Ok [])
  | (name, partitions) :: topics =>
      match add_partitions org_id transaction_id name partitions (fails 0%nat) d with
      | (d, Ok codes) =>
          let '(d, rest) := add_topics org_id transaction_id topics (fun i => fails (S i)) d in
          (d, rest ← rest; Ok ((name, codes) :: rest))
      | (d, Err e) => (d, Err e)
      | (d, Panic) => (d, Panic)
      end
  end.

Definition build_error_response (header : RequestHeader) (topics : list (string * list Z)) (code : ErrorCode.ErrorCode) : bytes :=
  topics_response header (map (fun t : string * list Z => (t.1, map (fun i => (i, code)) t.2)) topics).

Definition handle_add_partitions_to_txn (org_id : string) (header : RequestHeader) (body : bytes) (env : txn_env) (d : db)
  : db * outcome KafkaError bytes :=
  match parse_add_partitions (rh_api_version header) body with
  | Ok (transactional_id, topics) =>
      match open_transaction org_id transactional_id env d with
      | (d, Ok (inr transaction)) =>
          let '(d, responses) := add_topics org_id (tx_transaction_id transaction) topics (te_partition env) d in
          (d, responses ← responses; Ok (topics_response header responses))
      | (d, Ok (inl code)) => (d, Ok (build_error_response header topics code))
      | (d, Err e) => (d, Err e)
      | (d, Panic) => (d, Panic)
      end
  | Err e => (d, Err e)
  | Panic => (d, Panic)
  end.

(** ** AddOffsetsToTxn *)

Definition simple_group_partition (group_id : string) : Z :=
  foldl (fun hash b => wrap 32 (hash * 31 + byte.unsigned b)) 0 (as_bytes group_id) mod 50.

Definition parse_add_offsets (api_version : Z) (body : bytes) : outcome KafkaError (string * string) :=
  if 3 <=? api_version then
    '(txn_id, body) ← parse_compact_string body;
    '(_, body) ← get_signed 8 body;
    '(_, body) ← get_signed 2 body;
    '(group_id, body) ← parse_compact_string body;
    _ ← skip_tagged_fields body;
    Ok (txn_id, group_id)
  else
    '(txn_id, body) ← parse_string body;
    '(_, body) ← get_signed 8 body;
    '(_, body) ← get_signed 2 body;
    '(group_id, _) ← parse_string body;
    Ok (txn_id, group_id).

Definition handle_add_offsets_to_txn (org_id : string) (header : RequestHeader) (body : bytes) (env : txn_env) (d : db)
  : db * outcome KafkaError bytes :=
  match parse_add_offsets (rh_api_version header) body with
  | Ok (transactional_id, group_id) =>
      match open_transaction org_id transactional_id env d with
      | (d, Ok (inr transaction)) =>
          match try_call (te_partition env 0%nat 0%nat)
                  (add_transaction_partition_for_org org_id (tx_transaction_id transaction) "__consumer_offsets"
                     (simple_group_partition group_id) 0) d with
          | (d, Ok _) => (d, Ok (build_response header ErrorCode.None))
          | (d, Err _) => (d, Ok (build_response header ErrorCode.UnknownServerError))
          | (d, Panic) => (d, Panic)
          end
      | (d, Ok (inl code)) => (d, Ok (build_response header code))
      | (d, Err e) => (d, Err e)
      | (d, Panic) => (d, Panic)
      end
  | Err e => (d, Err e)
  | Panic => (d, Panic)
  end.

(** ** EndTxn *)

Definition parse_end_txn (api_version : Z) (body : bytes) : outcome KafkaError (string * bool) :=
  if 3 <=? api_version then
    '(txn_id, body) ← parse_compact_string body;
    '(_, body) ← get_signed 8 body;
    '(_, body) ← get_signed 2 body;
    '(committed, body) ← get_signed 1 body;
    _ ← skip_tagged_fields body;
    Ok (txn_id, negb (committed =? 0))
  else
    '(txn_id, body) ← parse_string body;
    '(_, body) ← get_signed 8 body;
    '(_, body) ← get_signed 2 body;
    '(committed, _) ← get_signed 1 body;
    Ok (txn_id, negb (committed =? 0)).

(** A marker for the partition and, for a commit, its stable offset; failures are logged. *)
Definition write_marker (committed : bool) (transaction_id : string) (env : txn_env) (i : nat) (p : TransactionPartition) (d : db) : db :=
  let offset := wrap 64 (tpa_last_offset p + 1) in
  let d := fst (try_call (te_marker env i)
                  (add_transaction_marker (mk_marker transaction_id (tpa_topic p) (tpa_partition_id p) offset
                     (if committed then Commit else Abort) (te_now env))) d) in
  if committed
  then fst (try_call (te_stable env i) (update_last_stable_offset (tpa_topic p) (tpa_partition_id p) offset) d)
  else d.

Fixpoint write_markers (committed : bool) (transaction_id : string) (env : txn_env) (i : nat) (partitions : list TransactionPartition)
    (d : db) : db :=
  match partitions with
  | [] => d
  | p :: partitions => write_markers committed transaction_id env (S i) partitions (write_marker committed transaction_id env i p d)
  end.

(** The code of the answer. *)
Definition end_txn (org_id transactional_id : string) (committed : bool) (env : txn_env) (d : db)
  : db * outcome KafkaError ErrorCode.ErrorCode :=
  match open_transaction org_id transactional_id env d with
  | (d, Ok (inr transaction)) =>
      let id := tx_transaction_id transaction in
      match te_rows env with
      | Some _ => (d, Ok ErrorCode.UnknownServerError)
      | None =>
          let partitions := get_transaction_partitions_for_org org_id id d in
          let '(d, decided) :=
            if committed
            then let '(d, r) := try_call (te_decide env) (commit_transaction_for_org org_id id (te_decide_now env)) d in
                 (d, _ ← r; Ok ())
            else try_call (te_decide env) (abort_transaction_for_org org_id id (te_decide_now env)) d in
          match decided with
          | Ok _ => (write_markers committed id env 0 partitions d, Ok ErrorCode.None)
          | Err _ => (d, Ok ErrorCode.UnknownServerError)
          | Panic => (d, Panic)
          end
      end
  | (d, Ok (inl code)) => (d, Ok code)
  | (d, Err e) => (d, Err e)
  | (d, Panic) => (d, Panic)
  end.

Definition handle_end_txn (org_id : string) (header : RequestHeader) (body : bytes) (env : txn_env) (d : db)
  : db * outcome KafkaError bytes :=
  match parse_end_txn (rh_api_version header) body with
  | Ok (transactional_id, committed) =>
      let '(d, code) := end_txn org_id transactional_id committed env d in
      (d, code ← code; Ok (build_response header code))
  | Err e => (d, Err e)
  | Panic => (d, Panic)
  end.
End handlers.

(** ** TxnOffsetCommit: the offsets are committed at once, in the tables of [Catalog]. *)

Section offsets.
Abbreviation offset_data := (Z * Z * option string)%type.

Definition parse_offset (api_version : Z) (flexible : bool) : parser offset_data := fun b =>
  '(partition_index, b) ← get_signed 4 b;
  '(committed_offset, b) ← get_signed 8 b;
  '(_, b) ← (if 2 <=? api_version then get_signed 4 b else Ok (-1, b));
  '(metadata, b) ← (if flexible then parse_compact_nullable_string b else parse_nullable_string b);
  b ← (if flexible then skip_tagged_fields b else Ok b);
  Ok ((partition_index, committed_offset, metadata), b).

(** The partition takes 40 bytes of a [Vec]. *)
Definition parse_txn_offset_commit (api_version : Z) (body : bytes) : outcome KafkaError (string * list (string * list offset_data)) :=
  if 3 <=? api_version then
    '(_, body) ← parse_compact_string body;
    '(group_id, body) ← parse_compact_string body;
    '(_, body) ← get_signed 8 body;
    '(_, body) ← get_signed 2 body;
    '(topics, body) ←
      parse_compact_array 48 (fun b =>
        '(name, b) ← parse_compact_string b;
        '(partitions, b) ← parse_compact_array 40 (parse_offset api_version true) b;
        b ← skip_tagged_fields b;
        Ok ((name, partitions), b)) body;
    _ ← skip_tagged_fields body;
    Ok (group_id, topics)
  else
    '(_, body) ← parse_string body;
    '(group_id, body) ← parse_string body;
    '(_, body) ← get_signed 8 body;
    '(_, body) ← get_signed 2 body;
    '(topics, _) ←
      parse_array 48 (fun b =>
        '(name, b) ← parse_string b;
        '(partitions, b) ← parse_array 40 (parse_offset api_version false) b;
        Ok ((name, partitions), b)) body;
    Ok (group_id, topics).

Fixpoint commit_partitions (org_id group_id topic : string) (partitions : list offset_data) (fails : nat -> option MetadataError)
    (d : Catalog.db) : Catalog.db * outcome KafkaError (list (Z * ErrorCode.ErrorCode)) :=
  match partitions with
  | [] => (d, Ok [])
  | (partition_index, committed_offset, metadata) :: partitions =>
      match try_call (fails 0%nat)
              (commit_offset_for_org org_id group_id topic (wrap 32 partition_index) (wrap 64 committed_offset) metadata) d with
      | (d, Panic) => (d, Panic)
      | (d, r) =>
          let code := match r with Ok _ => ErrorCode.None | _ => ErrorCode.UnknownServerError end in
          let '(d, rest) := commit_partitions org_id group_id topic partitions (fun i => fails (S i)) d in
          (d, rest ← rest; Ok ((partition_index, code) :: rest))
      end
  end.

Fixpoint commit_topics (org_id group_id : string) (topics : list (string * list offset_data))
    (fails : nat -> nat -> option MetadataError) (d : Catalog.db)
  : Catalog.db * outcome KafkaError (list (string * list (Z * ErrorCode.ErrorCode))) :=
  match topics with
  | [] => (d, Ok [])
  | (name, partitions) :: topics =>
      match commit_partitions org_id group_id name partitions (fails 0%nat) d with
      | (d, Ok codes) =>
          let '(d, rest) := commit_topics org_id group_id topics (fun i => fails (S i)) d in
          (d, rest ← rest; Ok ((name, codes) :: rest))
      | (d, Err e) => (d, Err e)
      | (d, Panic) => (d, Panic)
      end
  end.

Definition handle_txn_offset_commit (org_id : string) (header : RequestHeader) (body : bytes)
    (fails : nat -> nat -> option MetadataError) (d : Catalog.db) : Catalog.db * outcome KafkaError bytes :=
  match parse_txn_offset_commit (rh_api_version header) body with
  | Ok (group_id, topics) =>
      let '(d, responses) := commit_topics org_id group_id topics fails d in
      (d, responses ← responses; Ok (topics_response header responses))
  | Err e => (d, Err e)
  | Panic => (d, Panic)
  end.
End offsets.
