(* ===== verification/KafkaProduceFacts.v ===== *)
(** * Facts about producing through Kafka

    What becomes of a client's batch on its way through the handler, the router and the agent,
    and what the handlers make of idempotent producers and of transactions. *)

From S2P Require Import Prelude HashMap Core MetadataError StorageError External Segment KafkaTypes KafkaCodec KafkaCodecFacts KafkaBatch WalHandle Catalog PartitionWriter WriterPool Lease ProducerStore ProduceService AgentRouter ProduceFacts ProducerFacts KafkaProduce KafkaTxn.

(** ** The router *)

Section router.
Context `{HO : HashOrder} `{HS : SqlText} `{HC : Codecs} `{HP : ObjectPaths} `{HJ : JsonMaps} `{GT : GrpcTexts} `{HL : Listening}.

Lemma admission_same org req env s s' r :
  admission org req env s = (s', r) -> service s' = service s /\ shared s' = shared s.
Proof.
  unfold admission. destruct (shutting_down _); [by intros [= <- _]|]. destruct org as [[|a o]|]; try by intros [= <- _].
  repeat case_bool_decide; try by intros [= <- _]. destruct (validate_lease _ _ _ _); try by intros [= <- _].
  destruct (rq_producer_id req); [|by intros [= <- _]]. destruct (validate_idempotent _ _ _ _ _ _ _ _). by intros [= <- _].
Qed.

(** Statuses that the router takes for a lease that has moved. *)
Definition moved (e : Status) : bool := is_lease_moved_error (GrpcError e).

Lemma deliver_not_moved o req env s s' e : deliver o req env s = (s', Err e) -> moved e = false.
Proof.
  unfold deliver. destruct (write o req env s) as [s1 [[base n]|e'|]] eqn:Hw; [| |done].
  - destruct (if rq_ack_mode req =? 1 then _ else _) as [s2 [u|e''|]] eqn:Hf; [done| |done]. intros [= <- <-].
    destruct (rq_ack_mode req =? 1); [|done].
    destruct (request_durable_flush _ _ _ _ _ _ _ _) as [[p wd] [x|x|]]; [done| |done]. by injection Hf as _ <-.
  - intros [= <- <-]. revert Hw. unfold write.
    destruct (get_writer _ _ _ _ _ _ _) as [p [w|e''|]]; [|by intros [= _ <-]|done].
    destruct (append_batch _ _ w) as [w' [[|b l]|e''|]]; try done; try by intros [= _ <-].
    intros [= _ <-]. unfold append_status. by repeat destruct (str_contains _ _).
Qed.

(** A call of the service writes, or answers without touching writers and log. *)
Lemma produce_cases org req env s s' r :
  ProduceService.produce org req env s = (s', r) ->
  (exists o s1, service s1 = service s /\ shared s1 = shared s /\ deliver o req env s1 = (s', r))
  \/ service s' = service s /\ shared s' = shared s /\ (forall resp, r = Ok resp -> resp = duplicate_response req).
Proof.
  unfold ProduceService.produce. destruct (admission org req env s) as [s1 a] eqn:Ha. apply admission_same in Ha as [H1 H2].
  destruct a as [[o [|]]|e|]; intros Hr.
  - left. by exists o, s1.
  - right. injection Hr as <- <-. split_and!; [done|done|]. by intros resp [= <-].
  - right. by injection Hr as <- <-.
  - right. by injection Hr as <- <-.
Qed.

(** The statuses of the network are not those of a lease. *)
Definition network_ok (env : attempt_env (delivery * produce_env)) : Prop :=
  match (at_call env).1 with Arrives => True | RequestLost e | AnswerLost e => moved e = false end.

(** One delivery of the request left this state. *)
Definition delivered (req : ProduceRequest) (s s' : state) (res : outcome AgentRouterError ProduceResponse) : Prop :=
  exists o env s1 answer, service s1 = service s /\ shared s1 = shared s /\ deliver o req env s1 = (s', answer)
    /\ (forall resp, res = Ok resp -> answer = Ok resp).

Definition untouched (req : ProduceRequest) (s s' : state) (res : outcome AgentRouterError ProduceResponse) : Prop :=
  service s' = service s /\ shared s' = shared s /\ (forall resp, res = Ok resp -> resp = duplicate_response req).

Lemma try_produce_cases org req env (r r' : AgentRouter) s s' res :
  network_ok env -> try_produce org req env r s = (r', s', res) ->
  untouched req s s' res
  \/ delivered req s s' res /\ match res with Err e => is_lease_moved_error e = false | _ => True end.
Proof.
  intros Hnet. unfold try_produce. destruct (resolve_agent_for_partition _ _ env r) as [r1 [[id address]|e|]]; try (intros [= _ <- <-]; by left).
  destruct (get_or_create_client address env r1) as [r2 [u|e|]]; try (intros [= _ <- <-]; by left).
  unfold network_ok in Hnet. unfold call_agent, one_agent. case_bool_decide; cbn [negb]; [|intros [= _ <- <-]; by left].
  destruct (at_call env) as [how penv]. cbn [fst snd] in *.
  destruct how as [|e|e].
  - destruct (ProduceService.produce _ req penv s) as [s1 answer] eqn:Hp. intros [= _ <- <-].
    destruct (produce_cases _ _ _ _ _ _ Hp) as [(o & s0 & E1 & E2 & Hd)|(E1 & E2 & E3)].
    + right. split; [|destruct answer; cbn; [done|by apply (deliver_not_moved _ _ _ _ _ _ Hd)|done]].
      exists o, penv, s0, answer. split_and!; [done|done|done|]. intros resp. by destruct answer; intros [= ->].
    + left. split_and!; [done|done|]. intros resp. destruct answer; intros [= ->]. by apply E3.
  - intros [= _ <- <-]. by left.
  - destruct (ProduceService.produce _ req penv s) as [s1 answer] eqn:Hp. intros [= _ <- <-].
    destruct (produce_cases _ _ _ _ _ _ Hp) as [(o & s0 & E1 & E2 & Hd)|(E1 & E2 & E3)].
    + right. split; [|exact Hnet]. by exists o, penv, s0, answer.
    + left. by split_and!.
Qed.

(** The router writes at most once.  However often it tries, and whatever the metadata
    store, the network and the agent do at each attempt, at most one attempt reaches the
    writer of the agent: the writers and the log afterwards are those from before, or what
    one delivery of the request left, and an acknowledgement is that delivery's or the one
    for a duplicate. *)
Theorem router_writes_once org req envs (r r' : AgentRouter) s s' res :
  (forall i, network_ok (envs i)) ->
  AgentRouter.produce org req envs r s = (r', s', res) -> untouched req s s' res \/ delivered req s s' res.
Proof.
  intros Hnet. unfold AgentRouter.produce. generalize MAX_RETRIES, 0%nat. intros n. revert r s.
  induction n as [|n IH]; intros r s attempt; cbn [attempts];
    (destruct (try_produce org req (envs attempt) _ s) as [[r1 s1] one] eqn:Htry;
     apply (try_produce_cases _ _ _ _ _ _ _ _ (Hnet attempt)) in Htry);
    destruct one as [resp|e|].
  - intros [= _ <- <-]. destruct Htry as [?|[? _]]; [by left|by right].
  - destruct Htry as [Ht|[Ht He]].
    + destruct (is_lease_moved_error e); intros [= _ <- <-]; left; by destruct Ht as (? & ? & _).
    + rewrite He. intros [= _ <- <-]. by right.
  - intros [= _ <- <-]. destruct Htry as [?|[? _]]; [by left|by right].
  - intros [= _ <- <-]. destruct Htry as [?|[? _]]; [by left|by right].
  - destruct Htry as [Ht|[Ht He]].
    + destruct (is_lease_moved_error e); [|by intros [= _ <- <-]; left]. intros Hrec. apply IH in Hrec.
      destruct Ht as (E1 & E2 & _). unfold untouched, delivered in *. by rewrite E1, E2 in Hrec.
    + rewrite He. intros [= _ <- <-]. by right.
  - intros [= _ <- <-]. destruct Htry as [?|[? _]]; [by left|by right].
Qed.
End router.

(** ** A batch on its way *)

Section batch.
Context `{HO : HashOrder} `{HS : SqlText} `{HC : Codecs} `{HP : ObjectPaths} `{HJ : JsonMaps} `{GT : GrpcTexts} `{HL : Listening}.
Context `{HD : Decompressors} `{HR : Crc32c}.

(** An attempt that finds the agent: the lease is valid and its holder is registered with the agent's address, and
    a fresh entry of the cache, if there is one, has the address too; the network works. *)
Definition finds_agent (topic : string) (p : Z) (r : AgentRouter) (env : attempt_env (delivery * produce_env)) (penv : produce_env) : Prop :=
  (exists l a, at_lease env topic p = Ok (Some l) /\ at_now env < lease_expires_at l
     /\ at_agent env (leader_agent_id l) = Ok (Some a) /\ with_scheme a = listens)
  /\ (forall entry, lease_cache r !! (topic, p) = Some entry -> at_instant env - cl_fetched_at entry < LEASE_CACHE_TTL ->
        cl_agent_address entry = listens)
  /\ at_connect env = None /\ at_call env = (Arrives, penv).

Lemma try_produce_found org req env penv r s :
  finds_agent (rq_topic req) (rq_partition req) r env penv ->
  exists r', (cl_agent_address <$> lease_cache r' !! (rq_topic req, rq_partition req) = Some listens) /\ try_produce org req env r s =
    let '(s', answer) := ProduceService.produce (Some (default ""%string (metadata_value org))) req penv s in (r', s', map_err GrpcError answer).
Proof.
  intros ((l & a & Hl & Hn & Ha & Haddr) & Hcache & Hc & Hcall). unfold try_produce, resolve_agent_for_partition. rewrite Hl, Ha, Haddr.
  destruct (Z.leb_spec (lease_expires_at l) (at_now env)); [lia|].
  set (look_up := mk_router _ _).
  assert (Hres : exists r1 id, match lease_cache r !! (rq_topic req, rq_partition req) with
     | Some entry => if at_instant env - cl_fetched_at entry <? LEASE_CACHE_TTL then (r, Ok (cl_agent_id entry, cl_agent_address entry))
                     else (look_up, Ok (leader_agent_id l, listens))
     | None => (look_up, Ok (leader_agent_id l, listens))
     end = (r1, Ok (id, listens) : outcome AgentRouterError (string * string))
     /\ cl_agent_address <$> lease_cache r1 !! (rq_topic req, rq_partition req) = Some listens).
  { assert (Hl' : cl_agent_address <$> lease_cache look_up !! (rq_topic req, rq_partition req) = Some listens).
    { unfold look_up. cbn [lease_cache]. by rewrite lookup_insert_eq. }
    destruct (lease_cache r !! _) as [entry|] eqn:He; [destruct (Z.ltb_spec (at_instant env - cl_fetched_at entry) LEASE_CACHE_TTL)|].
    - pose proof (Hcache entry eq_refl ltac:(done)) as Hin. rewrite Hin. do 2 eexists. split; [done|]. rewrite He. cbn. by rewrite Hin.
    - by do 2 eexists.
    - by do 2 eexists. }
  destruct Hres as (r1 & id & -> & Hr1). unfold get_or_create_client. rewrite Hc.
  unfold call_agent, one_agent. rewrite (bool_decide_eq_true_2 (listens = listens)) by done. cbn [negb]. rewrite Hcall. cbn [fst snd].
  case_bool_decide; eexists; (split; [|by destruct (ProduceService.produce _ _ _ _)]); exact Hr1.
Qed.

(** The records of a batch as the agent gets them: the time is the server's, the headers are
    gone, and a null value is empty. *)
Definition handed_over (now : Z) (b : client_batch) : list input :=
  map (fun c => (c_key c, default [] (c_value c), wrap 64 now)) (b_records b).

(** C32: a Kafka batch is a request to the agent.  A batch in the format of the protocol, of a
    producer that is not idempotent, reaches the agent that holds the lease as one produce
    request, for buffered acknowledgement, with the keys and values of its records in
    order; the answer carries the agent's base offset, or a storage error where the agent
    gave one.  The metadata store gives a valid lease and the address of its holder, where the agent listens and nobody
    listens elsewhere; an entry of the cache that is still fresh has that address too, and so has the one left behind; the network works, and the
    agent does not answer that the lease has moved. *)
Theorem kafka_produce_is_produce org topic p b data kenv penv r s s' answer :
  batch_ok b -> len data < 2 ^ 30 -> b_producer_id b < 0 ->
  (compression_from_attributes (b_attributes b) = CtNone /\ data = KafkaBatch.plain b
   \/ compression_from_attributes (b_attributes b) <> CtNone
      /\ decompress_with (compression_from_attributes (b_attributes b)) data = inr (KafkaBatch.plain b)) ->
  finds_agent topic p r (re_attempts kenv 0%nat) penv ->
  ProduceService.produce (Some (default ""%string (metadata_value org)))
    (mk_produce_request topic p (handed_over (re_now kenv) b) 0 None None None None) penv s = (s', answer) ->
  match answer with Err e => moved e = false | _ => True end ->
  exists r',
    cl_agent_address <$> lease_cache r' !! (topic, p) = Some listens
    /\ process_records org topic p (enc_batch b data) kenv r s =
      (r', s', match answer with
               | Ok resp => Ok (mk_produced (swrap 32 p) ErrorCode.None (swrap 64 (rs_base_offset resp)) (swrap 64 (re_now kenv)) 0)
               | Err _ => Ok (refused p ErrorCode.KafkaStorageError)
               | Panic => Panic
               end).
Proof.
  intros Hok Hlen Hid Hdata Henv Hp Hm. unfold process_records. rewrite batch_parsed by done. cbn [bm_producer_id].
  destruct (Z.leb_spec 0 (b_producer_id b)); [lia|]. unfold send. cbn [bm_records].
  assert (Hreq : agent_request topic p (map seen (b_records b)) (re_now kenv)
                 = mk_produce_request topic p (handed_over (re_now kenv) b) 0 None None None None).
  { unfold agent_request, handed_over. by rewrite map_map. }
  rewrite Hreq. unfold AgentRouter.produce, MAX_RETRIES. cbn [attempts Nat.ltb Nat.leb].
  set (req := mk_produce_request _ _ _ _ _ _ _ _) in *.
  destruct (try_produce_found org req (re_attempts kenv 0%nat) penv r s Henv) as (r' & Hr' & ->). rewrite Hp.
  exists r'. split; [exact Hr'|]. destruct answer as [resp|e|]; cbn [map_err]; [done| |done]. fold (moved e). by rewrite Hm.
Qed.

(** ** Idempotent producers *)

Definition unnumbered (d : db) : Prop := forall id p, producers d !! id = Some p -> pr_numeric_id p = None.

Lemma unnumbered_alter d f id :
  (forall p, pr_numeric_id (f p) = pr_numeric_id p) -> unnumbered d -> unnumbered (set_producers (alter f id (producers d)) d).
Proof.
  intros Hf Hu k p. cbn. destruct (decide (id = k)) as [<- |Hne].
  - rewrite lookup_alter_eq. destruct (producers d !! id) as [q|] eqn:Hq; [|done]. intros [= <-]. rewrite Hf. by apply (Hu id).
  - rewrite lookup_alter_ne by done. apply Hu.
Qed.

Lemma unnumbered_same d d' : producers d' = producers d -> unnumbered d -> unnumbered d'.
Proof. unfold unnumbered. by intros ->. Qed.

Lemma delete_producers_unnumbered l d : unnumbered d -> unnumbered (delete_producers l d).
Proof.
  intros Hu id q Hq. apply (Hu id q).
  assert (Hf : filter (fun e => e.1 ∉ l) (producers d) !! id = Some q) by exact Hq.
  by apply map_lookup_filter_Some in Hf as [Hf _].
Qed.

Lemma end_transaction_producers org id st kind why now d :
  clean d -> unquoted id = true -> producers (fst (end_transaction org id st kind why now d)) = producers d.
Proof.
  intros Hc Hid. rewrite end_transaction_spec by done.
  destruct (find_transaction org id undecided d) as [[tx o]|]; [|done]. cbn [fst].
  by destruct (mark_same id kind now (txn_partition_rows id d) (set_transactions (<[id:=(set_state st (Some now) tx, o)]> (transactions d)) d)) as (-> & _).
Qed.

Lemma unnumbered_store c d :
  clean d -> forallb unquoted (texts c) = true -> (forall id, c <> SAllocate id) -> unnumbered d -> unnumbered (perform_store c d).
Proof.
  intros Hc Hq Hno Hu.
  assert (Hq1 : forall x, forallb unquoted [x] = true -> unquoted x = true) by (intros x; cbn; by destruct (unquoted x)).
  destruct c as [config uuid now|id|id now|timeout now|id|id uuid timeout now|id now|id now|age now]; cbn [perform_store texts] in *.
  - unfold ProducerStore.init_producer, init_lookup.
    assert (Hins : unnumbered (fst (insert_producer config uuid now d))).
    { unfold insert_producer. rewrite quoted_run by done. destruct (_ || _); [done|]. intros id p. cbn.
      destruct (decide (uuid = id)) as [<- |Hne]; [rewrite lookup_insert_eq; by intros [= <-]|rewrite lookup_insert_ne by done; apply Hu]. }
    destruct (ip_transactional_id config) as [txn|] eqn:Htx; [|exact Hins].
    unfold get_producer_by_transactional_id. rewrite quoted_run.
    + destruct (head _) as [p|]; [|exact Hins]. by apply unnumbered_alter.
    + rewrite forallb_app in Hq. cbn in *. by destruct (unquoted txn), (forallb _ _).
  - unfold fence_producer. rewrite quoted_run by done. destruct (producers d !! id); [|done]. by apply unnumbered_alter.
  - unfold update_producer_heartbeat. rewrite quoted_run by done. by apply unnumbered_alter.
  - by apply delete_producers_unnumbered.
  - by destruct (Hno id).
  - unfold ProducerStore.begin_transaction. rewrite quoted_run by done. unfold insert_transaction. by repeat case_bool_decide.
  - unfold ProducerStore.commit_transaction.
    pose proof (end_transaction_producers None id Committed Commit "committed" now d Hc (Hq1 id Hq)) as Hs.
    destruct (end_transaction _ _ _ _ _ _ _) as [d' res]. by apply (unnumbered_same d).
  - apply (unnumbered_same d); [|done]. by apply end_transaction_producers, Hq1.
  - done.
Qed.

Lemma clean_store c d : clean d -> forallb unquoted (texts c) = true -> clean (perform_store c d).
Proof.
  intros Hc Hq. assert (Hlonger : forall s, String Ascii.zero s <> s).
  { intros x Hx. apply (f_equal String.length) in Hx. cbn in Hx. lia. }
  set (pid := match c with SInit _ uuid _ => String Ascii.zero uuid | _ => EmptyString end).
  apply (benign_clean pid d); [|done]. apply benign_store; [done|done|]. intros config now He.
  apply (Hlonger pid). unfold pid at 2. by rewrite He.
Qed.

(** Kafka clients cannot produce idempotently.  InitProducerId answers with a hash of the
    producer's id, but a batch is looked up by the number that only
    allocate_numeric_producer_id gives, which nothing calls.  So after any calls that the
    services do make, an idempotent batch, whatever id it carries, is refused as of an
    unknown producer, and nothing is written. *)
Theorem kafka_idempotence_refused cs d org topic p b data kenv r (s : state) :
  unnumbered d -> clean d -> Forall (fun c => forallb unquoted (texts c) = true /\ forall id, c <> SAllocate id) cs ->
  store s = foldl (fun d c => perform_store c d) d cs ->
  batch_ok b -> len data < 2 ^ 30 -> 0 <= b_producer_id b -> re_lookup kenv = None ->
  (compression_from_attributes (b_attributes b) = CtNone /\ data = KafkaBatch.plain b
   \/ compression_from_attributes (b_attributes b) <> CtNone
      /\ decompress_with (compression_from_attributes (b_attributes b)) data = inr (KafkaBatch.plain b)) ->
  process_records org topic p (enc_batch b data) kenv r s = (r, s, Ok (refused p ErrorCode.UnknownProducerId)).
Proof.
  intros Hu Hc Hcs Hs Hok Hlen Hid Hlook Hdata.
  assert (Hun : unnumbered (store s)).
  { rewrite Hs. clear Hs. revert d Hu Hc. induction Hcs as [|c cs [Hq Hno] Hcs IH]; intros d Hu Hc; [done|]. cbn [foldl].
    apply IH; [by apply unnumbered_store|by apply clean_store]. }
  unfold process_records. rewrite batch_parsed by done. cbn [bm_producer_id].
  rewrite (proj2 (Z.leb_le 0 (b_producer_id b))) by lia. unfold check_producer, try_call, get_producer_by_numeric_id. rewrite Hlook.
  change (db_of s) with (store s). cbn [bm_producer_id].
  pose proof (head_iter (fun q => pr_numeric_id q = Some (b_producer_id b)) (producers (store s))) as Hh.
  destruct (head _) as [q|].
  - destruct Hh as [Hq [k Hk]]. by rewrite (Hun k q Hk) in Hq.
  - change (put_db (store s) s) with (set_store (store s) s). by destruct s.
Qed.

(** ** Transactions *)

(** A Kafka client cannot end its transactions.  EndTxn asks the store to begin a
    transaction for the producer, expecting the one that is open, but gets a new one: so a
    commit that is answered as successful decides that empty one, and leaves every other
    transaction, the partitions that were added to them, the markers and the stable offsets
    as they were. *)
Theorem kafka_commit_is_empty org transactional_id env d d' :
  txn_inv d -> unquoted transactional_id = true -> unquoted org = true -> unquoted (te_uuid env) = true ->
  end_txn org transactional_id true env d = (d', Ok ErrorCode.None) ->
  transactions d !! te_uuid env = None
  /\ (exists t, transactions d' = <[te_uuid env := (t, Some org)]> (transactions d) /\ tx_state t = Committed)
  /\ transaction_partitions d' = transaction_partitions d
  /\ transaction_markers d' = transaction_markers d
  /\ partition_lso d' = partition_lso d.
Proof.
  intros HI Hq1 Hq2 Hq3. unfold end_txn, open_transaction.
  destruct (te_producer env); cbn [try_call]; [by intros [= _ Hx]|]. unfold get_producer_by_transactional_id.
  rewrite quoted_run by (cbn; by rewrite Hq1, Hq2). destruct (head _) as [pr|]; [|by intros [= _ Hx]].
  destruct (te_begin env); cbn [try_call]; [by intros [= _ Hx]|]. unfold begin_transaction_for_org, insert_transaction.
  case_bool_decide as Hnew; [by intros [= _ Hx]|]. case_bool_decide; [|by intros [= _ Hx]]. cbn [tx_transaction_id].
  assert (Hnone : transactions d !! te_uuid env = None) by (destruct (transactions d !! te_uuid env) eqn:He; [by destruct Hnew|done]).
  destruct (te_rows env); [by intros [= _ Hx]|].
  set (row := mk_transaction (te_uuid env) (pr_id pr) Ongoing 60000 (te_begin_now env) None).
  set (d1 := set_transactions (<[te_uuid env := (row, Some org)]> (transactions d)) d).
  assert (Hrows : txn_partition_rows (te_uuid env) d1 = []).
  { destruct (txn_partition_rows (te_uuid env) d1) as [|x l] eqn:Hr; [done|].
    assert (Hin : x ∈ txn_partition_rows (te_uuid env) d1) by (rewrite Hr; left).
    apply rows_in in Hin as [_ Hin]. destruct (ti_refers d HI (te_uuid env, tpa_topic x, tpa_partition_id x)) as [y Hy]; [by eexists|].
    cbn in Hy. by rewrite Hnone in Hy. }
  assert (Hparts : get_transaction_partitions_for_org org (te_uuid env) d1 = []).
  { unfold get_transaction_partitions_for_org. destruct (get_transaction_for_org _ _ _); [done|done]. }
  rewrite Hparts. destruct (te_decide env); cbn [try_call]; [by intros [= _ Hx]|].
  assert (HI1 : clean d1) by exact (ti_clean d HI).
  unfold commit_transaction_for_org. rewrite end_transaction_spec by done. rewrite Hrows.
  unfold find_transaction. cbn [transactions set_transactions d1]. rewrite lookup_insert_eq. cbn [mbind option_bind].
  cbn [in_org fst snd]. rewrite bool_decide_eq_true_2 by done. cbn. intros [= <-]. cbn. split; [done|]. split; [|by split].
  eexists. split; [by rewrite insert_insert_eq|done].
Qed.
End batch.
