(* ===== verification/SegmentIndex.v ===== *)
(** * The in-memory segment index (crates/streamhouse-storage/src/segment_index.rs)

    A [BTreeMap<u64, SegmentInfo>] is the list of its entries by increasing key.  The
    metadata store is behind a trait object; what its [get_segments] returns at each refresh
    is an argument of the operation, as are the clock readings. *)

From S2P Require Import Prelude Core.

(** ** Ordered maps *)

Section btree.
Context {A : Type}.
Implicit Types m : list (Z * A).

Fixpoint bt_insert (k : Z) (v : A) m : list (Z * A) :=
  match m with
  | [] => [(k, v)]
  | (k', v') :: m' =>
      if k <? k' then (k, v) :: m
      else if k =? k' then (k, v) :: m'
      else (k', v') :: bt_insert k v m'
  end.

Definition bt_remove (k : Z) m : list (Z * A) := filter (fun e => e.1 <> k) m.

(** [map.range(..=k).next_back()]. *)
Definition range_last (k : Z) m : option (Z * A) := last (filter (fun e => e.1 <= k) m).
End btree.

(** ** The index of one partition *)

(** Durations and instants in nanoseconds. *)
Record SegmentIndexConfig : Type := mk_index_config {
  refresh_interval : Z;
  max_segments : nat
}.

Definition default_config : SegmentIndexConfig := mk_index_config (30 * 1000000000) (Z.to_nat 10000).

Record SegmentIndex : Type := mk_index {
  config : SegmentIndexConfig;
  index : list (Z * SegmentInfo);
  last_refresh : option Z
}.

Definition new (c : SegmentIndexConfig) : SegmentIndex := mk_index c [] None.

Definition lookup_in_index (offset : Z) (x : SegmentIndex) : option SegmentInfo :=
  '(_, segment) ← range_last offset (index x);
  if (si_base_offset segment <=? offset) && (offset <=? si_end_offset segment)
  then Some segment else None.

Definition should_refresh (now : Z) (x : SegmentIndex) : bool :=
  match last_refresh x with
  | None => true
  | Some instant => refresh_interval (config x) <=? sat_sub now instant
  end.

Definition build (segments : list SegmentInfo) : list (Z * SegmentInfo) :=
  foldl (fun m s => bt_insert (si_base_offset s) s m) [] segments.

(** The limit on the number of segments. *)
Definition limit (max : nat) (m : list (Z * SegmentInfo)) : list (Z * SegmentInfo) :=
  if (max <? length m)%nat then
    let excess := (length m - max)%nat in
    let keys_to_remove := take excess (map fst m) in
    foldl (fun m k => bt_remove k m) m keys_to_remove
  else m.

Definition refresh {E} (segments : outcome E (list SegmentInfo)) (now : Z) (x : SegmentIndex)
  : SegmentIndex * outcome E unit :=
  match segments with
  | Ok segments =>
      (mk_index (config x) (limit (max_segments (config x)) (build segments)) (Some now), Ok tt)
  | Err e => (x, Err e)
  | Panic => (x, Panic)
  end.

(** [first] answers the refresh of an expired index, [second] the one after a miss. *)
Definition find_segment_for_offset {E} (offset now : Z)
    (first second : outcome E (list SegmentInfo)) (x : SegmentIndex)
  : SegmentIndex * outcome E (option SegmentInfo) :=
  let '(x, r) := if should_refresh now x then refresh first now x else (x, Ok tt) in
  match r with
  | Err e => (x, Err e)
  | Panic => (x, Panic)
  | Ok _ =>
      match lookup_in_index offset x with
      | Some s => (x, Ok (Some s))
      | None =>
          let '(x, r) := refresh second now x in
          match r with
          | Err e => (x, Err e)
          | Panic => (x, Panic)
          | Ok _ => (x, Ok (lookup_in_index offset x))
          end
      end
  end.

Definition segment_count (x : SegmentIndex) : Z := len (index x).

(** ** Facts *)

(** ** Ordered maps *)

Section btree_facts.
Context {A : Type}.
Implicit Types m : list (Z * A).

(** Strictly increasing keys. *)
Definition sorted m : Prop := StronglySorted Z.lt (map fst m).

Lemma sorted_cons k v m : sorted ((k, v) :: m) <-> (forall e, e ∈ m -> k < e.1) /\ sorted m.
Proof.
  unfold sorted. cbn [map fst]. split.
  - intros H. inversion H as [|? ? Hs Hf]; subst. split; [|done]. intros e He.
    rewrite List.Forall_forall in Hf. apply Hf. by apply in_map, list_elem_of_In.
  - intros [Hk Hs]. constructor; [done|]. rewrite List.Forall_forall. intros k' Hin.
    apply in_map_iff in Hin as (e & <- & He). by apply Hk, list_elem_of_In.
Qed.

Lemma elem_of_bt_insert k v m e :
  sorted m -> e ∈ bt_insert k v m <-> e = (k, v) \/ (e.1 <> k /\ e ∈ m).
Proof.
  induction m as [|[k' v'] m IH]; intros Hs; cbn [bt_insert].
  - rewrite list_elem_of_singleton, elem_of_nil. tauto.
  - apply sorted_cons in Hs as [Hk Hs]. specialize (IH Hs).
    destruct (Z.ltb_spec k k'); [|destruct (Z.eqb_spec k k') as [<-|Hne]]; rewrite !elem_of_cons, ?IH.
    + split; [|tauto]. intros [?|[->|Hin]]; [by left|right|right; specialize (Hk e Hin)];
        (split; [cbn in *; lia|tauto]).
    + split; [|intros [?|[? [->|?]]]; tauto]. intros [?|Hin]; [by left|]. right.
      split; [specialize (Hk e Hin); lia|tauto].
    + split; [intros [->|[?|?]]; [right; split; [cbn; lia|tauto]|tauto|tauto]|tauto].
Qed.

Lemma sorted_bt_insert k v m : sorted m -> sorted (bt_insert k v m).
Proof.
  induction m as [|[k' v'] m IH]; intros Hs; cbn [bt_insert].
  - apply sorted_cons. split; [|constructor]. intros e He. by apply elem_of_nil in He.
  - pose proof Hs as [Hk Hs']%sorted_cons.
    destruct (Z.ltb_spec k k'); [|destruct (Z.eqb_spec k k') as [<-|Hne]].
    + apply sorted_cons. split; [|done]. intros e [->|He]%elem_of_cons; [done|].
      specialize (Hk e He). lia.
    + by apply sorted_cons.
    + apply sorted_cons. split; [|by apply IH]. intros e He.
      apply elem_of_bt_insert in He as [->|[_ He]]; [cbn; lia|auto|done].
Qed.

(** The last entry at or below a key has the greatest such key. *)
Lemma range_last_some k m e :
  sorted m -> range_last k m = Some e ->
  e ∈ m /\ e.1 <= k /\ forall e', e' ∈ m -> e'.1 <= k -> e'.1 <= e.1.
Proof.
  unfold range_last. induction m as [|[k' v'] m IH]; intros Hs; [done|].
  apply sorted_cons in Hs as [Hk Hs]. rewrite filter_cons. cbn [fst].
  destruct (decide (k' <= k)) as [Hle|Hgt].
  - rewrite last_cons. destruct (last (filter _ m)) as [e0|] eqn:Hl.
    + intros [= ->]. destruct (IH Hs eq_refl) as (H1 & H2 & H3). split; [by right|].
      split; [done|]. intros e' [->|He']%elem_of_cons Hle'; [|auto]. specialize (Hk e H1). cbn. lia.
    + intros [= <-]. apply last_None in Hl. split; [left|]. split; [done|].
      intros e' [->|He']%elem_of_cons Hle'; [done|]. exfalso.
      assert (Hin : e' ∈ filter (fun e => e.1 <= k) m) by by apply list_elem_of_filter.
      rewrite Hl in Hin. by apply elem_of_nil in Hin.
  - intros Hl. destruct (IH Hs Hl) as (H1 & H2 & H3). split; [by right|]. split; [done|].
    intros e' [->|He']%elem_of_cons Hle'; [cbn in *; lia|auto].
Qed.

Lemma range_last_none k m : range_last k m = None <-> forall e, e ∈ m -> k < e.1.
Proof.
  unfold range_last. rewrite last_None. split.
  - intros Hf e He. destruct (decide (e.1 <= k)) as [Hle|]; [|lia]. exfalso.
    assert (Hin : e ∈ filter (fun e => e.1 <= k) m) by by apply list_elem_of_filter.
    rewrite Hf in Hin. by apply elem_of_nil in Hin.
  - intros Hall. apply filter_none. intros e He. specialize (Hall e He). lia.
Qed.

(** Removing the first keys of a sorted map drops its first entries. *)
Lemma remove_first n m :
  sorted m -> foldl (fun m k => bt_remove k m) m (take n (map fst m)) = drop n m.
Proof.
  revert m. induction n as [|n IH]; intros m Hs; [done|].
  destruct m as [|[k v] m]; [done|]. cbn [map fst take foldl drop].
  apply sorted_cons in Hs as [Hk Hs]. unfold bt_remove at 2.
  rewrite filter_cons_False by (cbn; intros ?; done).
  rewrite filter_all by (intros e He; specialize (Hk e He); lia). by apply IH.
Qed.

Lemma sorted_app m1 m2 :
  sorted (m1 ++ m2) -> sorted m1 /\ sorted m2 /\ forall e1 e2, e1 ∈ m1 -> e2 ∈ m2 -> e1.1 < e2.1.
Proof.
  induction m1 as [|[k v] m1 IH]; intros Hs.
  - split; [constructor|]. split; [done|]. intros e1 e2 He. by apply elem_of_nil in He.
  - cbn [app] in Hs. apply sorted_cons in Hs as [Hk Hs]. destruct (IH Hs) as (H1 & H2 & H3).
    split; [apply sorted_cons; split; [intros e He; apply Hk, elem_of_app; by left|done]|].
    split; [done|]. intros e1 e2 [->|He1]%elem_of_cons He2; [|auto].
    apply Hk, elem_of_app. by right.
Qed.

Lemma sorted_drop n m : sorted m -> sorted (drop n m).
Proof. intros Hs. rewrite <- (take_drop n m) in Hs. by apply sorted_app in Hs as (_ & ? & _). Qed.
End btree_facts.

(** ** Listings of segments *)

Definition covers (offset : Z) (s : SegmentInfo) : Prop :=
  si_base_offset s <= offset <= si_end_offset s.

#[export] Instance covers_dec offset s : Decision (covers offset s).
Proof. unfold covers. apply _. Defined.

(** What the metadata store returns for a partition: segments that do not overlap. *)
Definition wf_segments (segs : list SegmentInfo) : Prop :=
  NoDup segs /\ (forall s, s ∈ segs -> si_base_offset s <= si_end_offset s) /\
  forall s s', s ∈ segs -> s' ∈ segs -> s <> s' ->
    si_end_offset s < si_base_offset s' \/ si_end_offset s' < si_base_offset s.

(** The segment of a listing that holds an offset. *)
Definition holder (segs : list SegmentInfo) (offset : Z) : option SegmentInfo :=
  head (filter (covers offset) segs).

Lemma wf_segments_base segs s s' :
  wf_segments segs -> s ∈ segs -> s' ∈ segs -> si_base_offset s = si_base_offset s' -> s = s'.
Proof.
  intros (_ & Hw & Hd) Hs Hs' He. destruct (decide (s = s')) as [|Hne]; [done|]. exfalso.
  pose proof (Hw s Hs). pose proof (Hw s' Hs'). destruct (Hd s s' Hs Hs' Hne); lia.
Qed.

Lemma wf_segments_holder segs s offset :
  wf_segments segs -> s ∈ segs -> covers offset s -> holder segs offset = Some s.
Proof.
  intros (_ & _ & Hd) Hs Hc. unfold holder. destruct (filter (covers offset) segs) as [|s' l] eqn:Hf.
  - assert (Hin : s ∈ filter (covers offset) segs) by by apply list_elem_of_filter.
    rewrite Hf in Hin. by apply elem_of_nil in Hin.
  - assert (Hin : s' ∈ filter (covers offset) segs) by (rewrite Hf; left).
    apply list_elem_of_filter in Hin as [Hc' Hs']. cbn. f_equal.
    destruct (decide (s = s')) as [|Hne]; [done|]. exfalso. unfold covers in *.
    destruct (Hd s s' Hs Hs' Hne); lia.
Qed.

Lemma holder_none segs offset : (forall s, s ∈ segs -> ~ covers offset s) -> holder segs offset = None.
Proof. intros Hn. unfold holder. by rewrite filter_none. Qed.

Lemma build_app segs s : build (segs ++ [s]) = bt_insert (si_base_offset s) s (build segs).
Proof. unfold build. by rewrite foldl_app. Qed.

Lemma sorted_build segs : sorted (build segs).
Proof.
  induction segs as [|s segs IH] using rev_ind; [constructor|]. rewrite build_app.
  by apply sorted_bt_insert.
Qed.

Lemma elem_of_build segs e :
  (forall s s', s ∈ segs -> s' ∈ segs -> si_base_offset s = si_base_offset s' -> s = s') ->
  e ∈ build segs <-> e.2 ∈ segs /\ e.1 = si_base_offset e.2.
Proof.
  induction segs as [|s segs IH] using rev_ind; intros Hinj.
  - unfold build. cbn. rewrite !elem_of_nil. tauto.
  - rewrite build_app, elem_of_bt_insert by apply sorted_build.
    rewrite IH by (intros; apply Hinj; try done; apply elem_of_app; by left).
    rewrite elem_of_app, list_elem_of_singleton. destruct e as [k s']. cbn. split.
    + intros [[= -> ->]|(Hk & Hin & ->)]; auto.
    + intros [[Hin| ->] ->]; [|by left]. destruct (decide (s' = s)) as [->|Hne]; [by left|].
      right. split; [|done]. intros He. apply Hne, Hinj; [apply elem_of_app; by left| |done].
      apply elem_of_app. right. by apply list_elem_of_singleton.
Qed.

Lemma build_perm segs : wf_segments segs -> map snd (build segs) ≡ₚ segs.
Proof.
  intros Hwf. pose proof (elem_of_build segs) as He.
  assert (Hinj := fun s s' => wf_segments_base segs s s' Hwf).
  apply NoDup_Permutation; [|apply Hwf|].
  - apply NoDup_fmap_2_strong.
    + intros [k1 s1] [k2 s2] H1 H2 Heq. cbn in Heq. subst s2.
      apply He in H1 as [_ ?]; [|done]. apply He in H2 as [_ ?]; [|done]. cbn in *. congruence.
    + assert (Hs := sorted_build segs). clear -Hs. induction (build segs) as [|[k s] m IH]; [constructor|].
      apply sorted_cons in Hs as [Hk Hs]. constructor; [|auto]. intros Hin. specialize (Hk _ Hin). cbn in Hk. lia.
  - intros s. rewrite list_elem_of_fmap. split.
    + intros ([k s'] & -> & Hin). by apply He in Hin as [? _].
    + intros Hin. exists (si_base_offset s, s). split; [done|]. by apply He.
Qed.

Lemma length_build segs : wf_segments segs -> length (build segs) = length segs.
Proof. intros Hwf. rewrite <- (build_perm segs Hwf) at 2. by rewrite length_map. Qed.

(** Segments that start after an offset, in the listing and in the index. *)
Lemma later_build segs base :
  wf_segments segs ->
  length (filter (fun s => base < si_base_offset s) segs)
  = length (filter (fun e => base < e.1) (build segs)).
Proof.
  intros Hwf. rewrite <- (build_perm segs Hwf) at 1.
  apply length_filter_map. intros [k s] Hin.
  apply (elem_of_build segs _ (fun s s' => wf_segments_base segs s s' Hwf)) in Hin as [_ Hk].
  cbn in *. by rewrite Hk.
Qed.

(** ** The limit, and lookups *)

Lemma limit_drop max segs :
  limit max (build segs) = drop (length (build segs) - max) (build segs).
Proof.
  unfold limit. destruct (Nat.ltb_spec max (length (build segs))) as [Hl|Hl].
  - apply remove_first, sorted_build.
  - replace (length (build segs) - max)%nat with 0%nat by lia. done.
Qed.

Lemma lookup_holder max segs offset x :
  wf_segments segs -> (length segs <= max)%nat -> index x = limit max (build segs) ->
  lookup_in_index offset x = holder segs offset.
Proof.
  intros Hwf Hl Hx. rewrite limit_drop, length_build in Hx by done.
  replace (length segs - max)%nat with 0%nat in Hx by lia. rewrite drop_0 in Hx.
  pose proof (fun e => elem_of_build segs e (fun s s' => wf_segments_base segs s s' Hwf)) as He.
  unfold lookup_in_index. rewrite Hx. destruct (range_last offset (build segs)) as [[k s]|] eqn:Hr; cbn.
  - apply range_last_some in Hr as (Hin & Hk & Hmax); [|apply sorted_build].
    apply He in Hin as [Hs Hb]. cbn in *. subst k.
    destruct ((_ <=? _) && (_ <=? _)) eqn:Hc.
    + apply andb_true_iff in Hc as [Hc1%Z.leb_le Hc2%Z.leb_le]. symmetry.
      by apply wf_segments_holder.
    + symmetry. apply holder_none. intros s' Hs' Hc'.
      assert (Hin' : (si_base_offset s', s') ∈ build segs) by by apply He.
      unfold covers in Hc'. specialize (Hmax _ Hin'). cbn in Hmax.
      destruct (decide (s' = s)) as [->|Hne].
      * apply andb_false_iff in Hc as [Hc%Z.leb_gt|Hc%Z.leb_gt]; lia.
      * destruct Hwf as (_ & Hw & Hd). pose proof (Hw s Hs). destruct (Hd s' s Hs' Hs Hne); lia.
  - symmetry. apply holder_none. intros s Hs Hc. pose proof (proj1 (range_last_none _ _) Hr) as Hn.
    specialize (Hn (si_base_offset s, s)). rewrite He in Hn. unfold covers in Hc. cbn in Hn.
    specialize (Hn (conj Hs eq_refl)). lia.
Qed.

(** A listing that the index can hold. *)
Definition fits {E} (max : nat) (r : outcome E (list SegmentInfo)) : Prop :=
  forall segs, r = Ok segs -> wf_segments segs /\ (length segs <= max)%nat.

(** The second refresh settles the answer. *)
Lemma retry_result {E} offset now (second : outcome E (list SegmentInfo)) x max :
  fits max second -> max_segments (config x) = max ->
  snd (let '(x, r) := refresh second now x in
       match r with
       | Ok _ => (x, Ok (lookup_in_index offset x))
       | Err e => (x, Err e)
       | Panic => (x, Panic)
       end) = (segs ← second; Ok (holder segs offset)).
Proof.
  intros H2 <-. destruct second as [segs| |]; try done. cbn. f_equal.
  destruct (H2 segs eq_refl). by apply (lookup_holder (max_segments (config x))).
Qed.

(** ** Properties *)

(** A lookup finds the segment of the partition that holds the offset: it searches the last
    listing of the metadata store, or a new one if that listing is older than the refresh
    interval, and on a miss one more new listing, whose answer is final; errors of the store
    are passed on.  The listings are sets of segments that do not overlap and fit the index. *)
Theorem segment_index_find {E} (offset now : Z) (segs0 : list SegmentInfo)
    (first second : outcome E (list SegmentInfo)) (x : SegmentIndex) :
  let max := max_segments (config x) in
  index x = limit max (build segs0) -> fits (E := E) max (Ok segs0) -> fits max first -> fits max second ->
  snd (find_segment_for_offset offset now first second x) =
    (segs ← (if should_refresh now x then first else Ok segs0);
     match holder segs offset with
     | Some s => Ok (Some s)
     | None => segs ← second; Ok (holder segs offset)
     end).
Proof.
  intros max Hx H0 H1 H2. unfold find_segment_for_offset.
  assert (Hsnd := fun y => retry_result offset now second y max H2).
  destruct (should_refresh now x).
  - destruct first as [segs| |]; try done. cbn [refresh mbind outcome_bind].
    destruct (H1 segs eq_refl) as [Hw Hl].
    rewrite (lookup_holder max segs) by done. destruct (holder segs offset); [done|].
    by apply (Hsnd (mk_index _ _ _)).
  - cbn [mbind outcome_bind]. destruct (H0 segs0 eq_refl) as [Hw Hl].
    rewrite (lookup_holder max segs0) by done. destruct (holder segs0 offset); [done|].
    by apply Hsnd.
Qed.

Definition seg (base end_ : Z) : SegmentInfo :=
  mk_segment_info "s" "t" 0 base end_ 1 1 "b" "k" 0 0 0.

Lemma wf_two : wf_segments [seg 10 19; seg 0 9].
Proof.
  split; [apply (bool_decide_unpack _); by vm_compute|]. split.
  - intros s. rewrite elem_of_cons, list_elem_of_singleton. intros [->| ->]; by vm_compute.
  - intros s s'. rewrite !elem_of_cons, !elem_of_nil.
    intros [->|[->|[]]] [->|[->|[]]] Hne; try done; [right|left]; by vm_compute.
Qed.

Lemma segment_index_find_witness :
  snd (find_segment_for_offset (E := unit) 12 5 (Ok [seg 10 19; seg 0 9]) (Err tt)
         (new (mk_index_config 30 2))) = Ok (Some (seg 10 19)).
Proof.
  rewrite (segment_index_find 12 5 []).
  - reflexivity.
  - reflexivity.
  - intros s [= <-]. split; [|cbn; lia]. split; [apply NoDup_nil_2|]. split.
    + intros s Hs. by apply elem_of_nil in Hs.
    + intros s s' Hs. by apply elem_of_nil in Hs.
  - intros s [= <-]. split; [apply wf_two|cbn; lia].
  - done.
Defined.

(** The limit on the number of segments hides data: in a partition with more segments than
    the limit, an offset held by a segment that has [max_segments] or more segments after it
    is never found, although the store lists its segment at every refresh. *)
Theorem segment_index_hides_oldest {E} (offset now : Z) (segs : list SegmentInfo) (s : SegmentInfo)
    (x : SegmentIndex) :
  let max := max_segments (config x) in
  wf_segments segs -> index x = limit max (build segs) -> s ∈ segs -> covers offset s ->
  Z.of_nat max <= len (filter (fun s' => si_base_offset s < si_base_offset s') segs) ->
  snd (find_segment_for_offset (E := E) offset now (Ok segs) (Ok segs) x) = Ok None.
Proof.
  intros max Hwf Hx Hs Hc Hlater.
  pose proof (fun e => elem_of_build segs e (fun s s' => wf_segments_base segs s s' Hwf)) as He.
  assert (Hmiss : forall y, index y = limit max (build segs) -> lookup_in_index offset y = None).
  { intros y Hy. rewrite limit_drop in Hy. set (n := (length (build segs) - max)%nat) in *.
    assert (Hsplit := take_drop n (build segs)).
    assert (Hsorted := sorted_build segs). rewrite <- Hsplit in Hsorted.
    apply sorted_app in Hsorted as (_ & Hsd & Hlt).
    assert (Hall : forall e, e ∈ drop n (build segs) -> e.2 ∈ segs /\ e.1 = si_base_offset e.2).
    { intros e Hin. apply He. rewrite <- Hsplit. apply elem_of_app. by right. }
    (* the segment is among the entries that were dropped *)
    assert (Hnot : (si_base_offset s, s) ∉ drop n (build segs)).
    { intros Hin. rewrite later_build, <- Hsplit, filter_app, length_app in Hlater by done.
      rewrite (filter_none _ (take n (build segs))) in Hlater.
      2: { intros e Hin' Hgt. specialize (Hlt e _ Hin' Hin). cbn in Hlt. lia. }
      assert (Hld : (length (drop n (build segs)) <= max)%nat) by (rewrite length_drop; lia).
      apply list_elem_of_split in Hin as (l1 & l2 & Hl). rewrite Hl in Hlater, Hld.
      rewrite filter_app, filter_cons_False, length_app in Hlater by (cbn; lia).
      rewrite length_app in Hld. cbn [length] in *.
      pose proof (length_filter (fun e : Z * SegmentInfo => si_base_offset s < e.1) l1).
      pose proof (length_filter (fun e : Z * SegmentInfo => si_base_offset s < e.1) l2). lia. }
    unfold lookup_in_index. rewrite Hy. destruct (range_last offset _) as [[k s']|] eqn:Hr; [|done].
    apply range_last_some in Hr as (Hin & Hk & _); [|done]. cbn.
    destruct (Hall _ Hin) as [Hs' Hb]. cbn in *. subst k.
    destruct ((_ <=? _) && (_ <=? _)) eqn:Hc'; [exfalso|done].
    apply andb_true_iff in Hc' as [Hc1%Z.leb_le Hc2%Z.leb_le]. apply Hnot.
    assert (Hh := wf_segments_holder segs s offset Hwf Hs Hc).
    rewrite (wf_segments_holder segs s' offset Hwf Hs') in Hh by done. by injection Hh as ->. }
  unfold find_segment_for_offset, refresh. destruct (should_refresh now x).
  - rewrite Hmiss by done. cbn. by rewrite Hmiss.
  - rewrite Hmiss by done. cbn. by rewrite Hmiss.
Qed.

Lemma segment_index_hides_oldest_witness :
  snd (find_segment_for_offset (E := unit) 5 5 (Ok [seg 10 19; seg 0 9]) (Ok [seg 10 19; seg 0 9])
         (mk_index (mk_index_config 30 1) [(10, seg 10 19)] (Some 0))) = Ok None.
Proof.
  apply (segment_index_hides_oldest 5 5 [seg 10 19; seg 0 9] (seg 0 9)).
  - apply wf_two.
  - reflexivity.
  - right. left.
  - by vm_compute.
  - by vm_compute.
Defined.
