(* ===== verification/SegmentCache.v ===== *)
(** * The segment cache on disk (crates/streamhouse-storage/src/cache.rs)

    Files of downloaded segments, the sizes of which an LRU map counts.  The files are named
    by their cache keys.  What an access to a file answers is an argument. *)

From S2P Require Import Prelude Core Lru MetadataError StorageError.

(** A write that fails leaves the file as it was, or part of the data. *)
Inductive write_result : Type := WriteOk | WriteErr (msg : string) (left_behind : option bytes).

Section cache.
Context `{LruCache string Z}.

Record SegmentCache : Type := mk_segment_cache {
  files : gmap string bytes;
  max_size_bytes : Z;
  current_size : Z;
  lru_sizes : lru;
  hits : Z;
  misses : Z;
  evictions : Z
}.

Definition set_files f (c : SegmentCache) : SegmentCache :=
  mk_segment_cache f (max_size_bytes c) (current_size c) (lru_sizes c) (hits c) (misses c) (evictions c).
Definition set_sizes n l (c : SegmentCache) : SegmentCache :=
  mk_segment_cache (files c) (max_size_bytes c) n l (hits c) (misses c) (evictions c).
Definition set_counts h m e (c : SegmentCache) : SegmentCache :=
  mk_segment_cache (files c) (max_size_bytes c) (current_size c) (lru_sizes c) h m e.

(** The files that the directory holds already are not counted. *)
Definition new (files : gmap string bytes) (max_size_bytes : Z) : SegmentCache :=
  mk_segment_cache files max_size_bytes 0 (lru_new (Z.to_nat 10000)) 0 0 0.

(** [read_error]: the file is gone or cannot be read, after it was seen. *)
Definition get (cache_key : string) (read_error : option string) (c : SegmentCache)
  : SegmentCache * outcome StorageError (option bytes) :=
  match files c !! cache_key with
  | None => (set_counts (hits c) (wrap 64 (misses c + 1)) (evictions c) c, Ok None)
  | Some data =>
      match read_error with
      | Some e => (c, Err (IoError e))
      | None =>
          let c := set_sizes (current_size c) (snd (lru_get cache_key (lru_sizes c))) c in
          (set_counts (wrap 64 (hits c + 1)) (misses c) (evictions c) c, Ok (Some data))
      end
  end.

(** A round of the loop: the least recently used file goes, if it can be removed. *)
Definition evict_one (cache_key : string) (size : Z) (lru' : lru) (can_remove : string -> bool) (c : SegmentCache)
  : SegmentCache :=
  let c := set_sizes (sat_sub (current_size c) size) lru' c in
  let c := set_counts (hits c) (misses c) (wrap 64 (evictions c + 1)) c in
  if can_remove cache_key then set_files (delete cache_key (files c)) c else c.

Fixpoint evict_loop (fuel : nat) (needed : Z) (can_remove : string -> bool) (c : SegmentCache) : SegmentCache :=
  match fuel with
  | O => c
  | S fuel =>
      if max_size_bytes c <? wrap 64 (current_size c + needed) then
        match lru_pop_lru (lru_sizes c) with
        | (Some (cache_key, size), lru') => evict_loop fuel needed can_remove (evict_one cache_key size lru' can_remove c)
        | (None, _) => c
        end
      else c
  end.

(** One round for each entry, and one that finds none. *)
Definition evict_if_needed (needed : Z) (can_remove : string -> bool) (c : SegmentCache) : SegmentCache :=
  evict_loop (S (length (lru_iter (lru_sizes c)))) needed can_remove c.

Definition put (cache_key : string) (data : bytes) (can_remove : string -> bool) (written : write_result) (c : SegmentCache)
  : SegmentCache * outcome StorageError () :=
  let size := len data in
  let c := evict_if_needed size can_remove c in
  match written with
  | WriteOk =>
      let c := set_files (<[cache_key := data]> (files c)) c in
      (set_sizes (wrap 64 (current_size c + size)) (lru_put cache_key size (lru_sizes c)) c, Ok ())
  | WriteErr e left_behind =>
      (match left_behind with Some part => set_files (<[cache_key := part]> (files c)) c | None => c end, Err (IoError e))
  end.
End cache.

(** ** Facts *)

Section cache.
Context `{Laws : LruLaws string Z}.
Implicit Types c : SegmentCache.

Definition sizes (c : SegmentCache) : list (string * Z) := lru_iter (lru_sizes c).

Definition total (l : list (string * Z)) : Z := foldr (fun e n => e.2 + n) 0 l.

Lemma total_cons e l : total (e :: l) = e.2 + total l.
Proof. done. Qed.

Lemma total_app l l' : total (l ++ l') = total l + total l'.
Proof. induction l as [|e l IH]; [done|]. cbn [app]. rewrite !total_cons. lia. Qed.

Lemma total_nonneg l : (forall e, e ∈ l -> 0 <= e.2) -> 0 <= total l.
Proof.
  intros Hl. induction l as [|e l IH]; [done|]. rewrite total_cons. pose proof (Hl e (list_elem_of_here _ _)).
  assert (0 <= total l) by (apply IH; intros e' He'; apply Hl; by right). lia.
Qed.

(** ** The files *)

(** A file of the cache that is there after calls was there before, or was just written. *)
Lemma evict_loop_files fuel needed can_remove c k data :
  files (evict_loop fuel needed can_remove c) !! k = Some data -> files c !! k = Some data.
Proof.
  revert c. induction fuel as [|fuel IH]; intros c; [done|]. cbn. destruct (_ <? _); [|done].
  destruct (lru_pop_lru (lru_sizes c)) as [[[key size]|] l]; [|done]. intros Hf%IH. unfold evict_one in Hf.
  destruct (can_remove key); cbn in Hf; [by apply lookup_delete_Some in Hf as [_ Hf]|done].
Qed.

Lemma evict_files needed rm c k data : files (evict_if_needed needed rm c) !! k = Some data -> files c !! k = Some data.
Proof. apply evict_loop_files. Qed.

Lemma put_files k data rm written c k' data' :
  files (fst (put k data rm written c)) !! k' = Some data' ->
  files c !! k' = Some data' \/ (k' = k /\ match written with WriteOk => data' = data | WriteErr _ part => part = Some data' end).
Proof.
  unfold put. destruct written as [|e part]; cbn [fst files set_files set_sizes].
  - intros [[<- <-]|[_ Hf]]%lookup_insert_Some; [by right|left; by apply evict_files in Hf].
  - destruct part as [part|]; cbn [files set_files]; [|intros Hf; left; by apply evict_files in Hf].
    intros [[<- <-]|[_ Hf]]%lookup_insert_Some; [by right|left; by apply evict_files in Hf].
Qed.

Lemma get_files k e c : files (fst (get k e c)) = files c.
Proof. unfold get. destruct (files c !! k); [|done]. by destruct e. Qed.

Lemma get_answer k e c data : snd (get k e c) = Ok (Some data) -> files c !! k = Some data.
Proof. unfold get. destruct (files c !! k) as [d|]; [|done]. destruct e; [done|]. cbn. congruence. Qed.

Lemma get_none k e c : snd (get k e c) = Ok None -> files c !! k = None.
Proof. unfold get. destruct (files c !! k) as [d|]; [|done]. by destruct e. Qed.

(** ** The accounts *)

Section accounts.
(** The files that were in the directory when the cache was made. *)
Context (old : gmap string bytes).

(** The map counts the other files that are there, each with its size; the old ones stay. *)
Record counted c : Prop := {
  co_keys : NoDup (sizes c).*1;
  co_files : forall k size, (k, size) ∈ sizes c <-> exists data, (files c !! k = Some data /\ old !! k = None) /\ size = len data;
  co_old : old ⊆ files c;
  co_total : current_size c = total (sizes c);
  co_room : current_size c < 2 ^ 63;
  co_cap : lru_cap (lru_sizes c) = Z.to_nat 10000
}.

Lemma counted_nonneg c : counted c -> 0 <= current_size c.
Proof.
  intros [_ Hf _ Ht _ _]. rewrite Ht. apply total_nonneg. intros [k n] Hin.
  destruct (proj1 (Hf k n) Hin) as (d & _ & ->). cbn. lia.
Qed.

Lemma counted_new max : counted (new old max).
Proof.
  destruct (lru_new_law (K := string) (V := Z) (Z.to_nat 10000)) as [Hnil Hcap].
  split; unfold sizes; cbn [new lru_sizes current_size files]; rewrite ?Hnil.
  - constructor.
  - intros k size. split; [by intros ?%not_elem_of_nil|intros (d & [Hd Hn] & _); congruence].
  - done.
  - done.
  - lia.
  - done.
Qed.

Lemma total_perm l l' : l ≡ₚ l' -> total l = total l'.
Proof. induction 1 as [| [k n] l l' _ IH | [k n] [k' n'] l | l l' l'' _ IH _ IH']; rewrite ?total_cons; lia. Qed.

Lemma others_perm k size (l : list (string * Z)) : NoDup l.*1 -> (k, size) ∈ l -> (k, size) :: others k l ≡ₚ l.
Proof.
  induction l as [|[j n] l IH]; intros Hnd Hin; [by apply not_elem_of_nil in Hin|].
  apply NoDup_cons in Hnd as [Hj Hnd]. unfold others. rewrite filter_cons. cbn [fst].
  apply elem_of_cons in Hin as [[= <- <-]|Hin].
  - rewrite decide_False by tauto. rewrite (filter_all (fun e : string * Z => e.1 <> k)); [done|].
    intros [k' n'] Hk' Heq. cbn in Heq. subst k'. apply Hj. apply list_elem_of_fmap. by exists (k, n').
  - destruct (decide (j <> k)) as [Hne|Heq].
    + fold (others k l). rewrite Permutation_swap. by rewrite IH.
    + apply dec_stable in Heq as ->. destruct Hj. apply list_elem_of_fmap. by exists (k, size).
Qed.

Lemma entry_in k size (l : list (string * Z)) : entry k l = Some size -> (k, size) ∈ l.
Proof.
  induction l as [|[j n] l IH]; [done|]. cbn. case_decide as Hk; [intros [= ->]; subst; left|right; by apply IH].
Qed.

Lemma counted_get k e c : counted c -> counted (fst (get k e c)).
Proof.
  intros [Hk Hf Hold Ht Hr Hcap]. unfold get. destruct (files c !! k) as [d|] eqn:Hd; [|by split].
  destruct e; [by split|]. destruct (lru_get_law k (lru_sizes c)) as (_ & Hcap' & Hi).
  assert (Hperm : lru_iter (snd (lru_get k (lru_sizes c))) ≡ₚ sizes c).
  { rewrite Hi. destruct (entry k (lru_iter (lru_sizes c))) as [n|] eqn:Hent; [|done].
    apply others_perm; [done|by apply entry_in]. }
  split; unfold sizes; cbn.
  - by rewrite Hperm.
  - intros k' size. rewrite Hperm. apply Hf.
  - done.
  - rewrite Ht. by apply total_perm.
  - done.
  - by rewrite Hcap'.
Qed.

Lemma last_snoc_removelast (l : list (string * Z)) e : list.last l = Some e -> l = removelast l ++ [e].
Proof.
  intros Hl. destruct l as [|x l _] using rev_ind; [done|]. rewrite last_snoc in Hl. injection Hl as ->.
  by rewrite removelast_app, app_nil_r by done.
Qed.

Lemma counted_evict_one c key size l :
  counted c -> lru_pop_lru (lru_sizes c) = (Some (key, size), l) ->
  counted (evict_one key size l (fun _ => true) c) /\ sizes c = sizes (evict_one key size l (fun _ => true) c) ++ [(key, size)].
Proof.
  intros [Hk Hf Hold Ht Hr Hcap] Hp. destruct (lru_pop_lru_law (lru_sizes c)) as (Hlast & Hcap' & Hi).
  rewrite Hp in Hlast, Hi, Hcap'. cbn [fst snd] in Hlast, Hi, Hcap'.
  symmetry in Hlast. apply last_snoc_removelast in Hlast.
  assert (Hs : sizes (evict_one key size l (fun _ => true) c) = removelast (sizes c)) by (unfold sizes; cbn; by rewrite Hi).
  split; [|by rewrite Hs]. fold (sizes c) in Hlast.
  rewrite Hlast, fmap_app in Hk. cbn in Hk. apply NoDup_app in Hk as (Hnd & Hdis & _).
  assert (Hsize : 0 <= size).
  { destruct (proj1 (Hf key size)) as (d & _ & ->); [|lia]. rewrite Hlast. apply elem_of_app. right. by left. }
  rewrite Hlast, total_app in Ht. cbn in Ht.
  assert (Hpos : 0 <= total (removelast (sizes c))).
  { apply total_nonneg. intros [k n] Hin. destruct (proj1 (Hf k n)) as (d & _ & ->); [|cbn; lia].
    rewrite Hlast. apply elem_of_app. by left. }
  split; rewrite ?Hs.
  - done.
  - intros k n. cbn. rewrite lookup_delete. split.
    + intros Hin. assert (Hne : key <> k).
      { intros <-. apply (Hdis key); [apply list_elem_of_fmap; by exists (key, n)|by left]. }
      rewrite decide_False by done. apply Hf. rewrite Hlast. apply elem_of_app. by left.
    + intros (d & [Hd Ho] & Hn). destruct (decide (key = k)) as [|Hne]; [done|].
      assert (Hin : (k, n) ∈ sizes c) by (apply Hf; by exists d). rewrite Hlast in Hin.
      apply elem_of_app in Hin as [Hin|Hin%list_elem_of_singleton]; [done|congruence].
  - cbn. apply map_subseteq_spec. intros k d Hd. rewrite lookup_delete_ne; [by eapply lookup_weaken|].
    intros <-. destruct (proj1 (Hf key size)) as (d' & [_ Hno] & _); [rewrite Hlast; apply elem_of_app; right; by left|congruence].
  - cbn. unfold sat_sub. rewrite Ht. lia.
  - cbn. unfold sat_sub. lia.
  - cbn. by rewrite Hcap'.
Qed.

Lemma evict_loop_spec fuel needed c :
  counted c -> 0 <= needed < 2 ^ 63 -> (length (sizes c) < fuel)%nat ->
  let c' := evict_loop fuel needed (fun _ => true) c in
  counted c' /\ max_size_bytes c' = max_size_bytes c
  /\ (exists gone, sizes c = sizes c' ++ gone)
  /\ (needed <= max_size_bytes c -> current_size c' + needed <= max_size_bytes c).
Proof.
  revert c. induction fuel as [|fuel IH]; intros c Hc Hn Hfuel; [lia|]. cbn.
  pose proof (co_total _ Hc) as Ht. pose proof (co_room _ Hc) as Hr. pose proof (counted_nonneg c Hc) as Hcur.
  rewrite wrap_small by (unfold in_u; lia). destruct (Z.ltb_spec (max_size_bytes c) (current_size c + needed)).
  - destruct (lru_pop_lru (lru_sizes c)) as [[[key size]|] l] eqn:Hp.
    + destruct (counted_evict_one c key size l Hc Hp) as [Hc' Hs].
      destruct (IH _ Hc' Hn) as (H1 & H2 & [gone H3] & H4); [rewrite Hs, length_app in Hfuel; cbn in *; lia|].
      split; [done|]. split; [done|]. split; [|done]. exists (gone ++ [(key, size)]). by rewrite Hs, H3, app_assoc.
    + split; [done|]. split; [done|]. split; [by exists []; rewrite app_nil_r|]. intros Hfit.
      destruct (lru_pop_lru_law (lru_sizes c)) as (Hl & _). rewrite Hp in Hl. symmetry in Hl. apply last_None in Hl.
      unfold sizes in Ht. rewrite Hl in Ht. cbn in Ht. lia.
  - split; [done|]. split; [done|]. split; [by exists []; rewrite app_nil_r|]. lia.
Qed.

(** The sizes of files. *)
Definition usage (m : gmap string bytes) : Z := map_fold (fun _ data n => len data + n) 0 m.
Definition disk_usage c : Z := usage (files c).

Lemma usage_union m m' : m ##ₘ m' -> usage (m ∪ m') = usage m + usage m'.
Proof.
  intros Hd. unfold usage. rewrite map_fold_disj_union by (done || lia). rewrite !(map_fold_foldr _ _ m).
  induction (map_to_list m) as [|[k d] l IH]; cbn; [done|]. rewrite IH. lia.
Qed.

Lemma disk_usage_counted c : counted c -> disk_usage c = usage old + current_size c.
Proof.
  intros [Hk Hf Hold Ht _ _]. unfold disk_usage. rewrite <- (map_difference_union old (files c)) by done.
  rewrite usage_union by (apply map_disjoint_spec; intros k x y Hx [_ Hy]%lookup_difference_Some; congruence). f_equal. rewrite Ht. unfold usage.
  assert (Hperm : sizes c ≡ₚ map (fun e : string * bytes => (e.1, len e.2)) (map_to_list (files c ∖ old))).
  { apply NoDup_Permutation.
    - by apply (NoDup_fmap_1 fst).
    - apply (NoDup_fmap_1 fst). rewrite <- list_fmap_compose. apply NoDup_fst_map_to_list.
    - intros [k n]. rewrite (Hf k n), list_elem_of_fmap. split.
      + intros (d & Hd & ->). exists (k, d). split; [done|]. by apply elem_of_map_to_list, lookup_difference_Some.
      + intros ([k' d] & [= -> ->] & Hd%elem_of_map_to_list%lookup_difference_Some). by exists d. }
  rewrite (total_perm _ _ Hperm), map_fold_foldr. clear Hperm.
  induction (map_to_list (files c ∖ old)) as [|[k d] l IH]; [done|]. cbn [map]. rewrite total_cons, <- IH. done.
Qed.

Lemma counted_put k data c :
  counted c -> files c !! k = None -> len data <= max_size_bytes c -> max_size_bytes c < 2 ^ 63 ->
  (length (sizes c) < Z.to_nat 10000)%nat ->
  let c' := fst (put k data (fun _ => true) WriteOk c) in
  counted c' /\ max_size_bytes c' = max_size_bytes c /\ current_size c' <= max_size_bytes c
  /\ (length (sizes c') <= S (length (sizes c)))%nat.
Proof.
  intros Hc Hk Hd Hmax Hlen. unfold put. cbn [fst].
  destruct (evict_loop_spec (S (length (lru_iter (lru_sizes c)))) (len data) c Hc) as (Hc1 & Hm1 & [gone Hs1] & Hfit).
  { lia. } { unfold sizes. lia. }
  change (evict_loop (S (length (lru_iter (lru_sizes c)))) (len data) (fun _ => true) c)
    with (evict_if_needed (len data) (fun _ => true) c) in *.
  set (c1 := evict_if_needed (len data) (fun _ => true) c) in *. specialize (Hfit Hd).
  assert (Hk1 : files c1 !! k = None).
  { destruct (files c1 !! k) as [d|] eqn:Hf; [|done]. apply evict_files in Hf. congruence. }
  pose proof (counted_nonneg c1 Hc1) as Hpos. destruct Hc1 as [Hnd Hf Hin_old Ht Hr Hcap].
  assert (Hold : forall n, (k, n) ∉ sizes c1).
  { intros n Hin. destruct (proj1 (Hf k n) Hin) as (d & [Hd' _] & _). congruence. }
  assert (Hnew : old !! k = None).
  { destruct (old !! k) as [d|] eqn:Ho; [|done]. apply (lookup_weaken _ _ _ _ Ho) in Hin_old. congruence. }
  assert (Hlen1 : (length (sizes c1) <= length (sizes c))%nat) by (rewrite Hs1, length_app; lia).
  destruct (lru_put_law k (len data) (lru_sizes c1)) as [Hcap' Hi].
  assert (Hoth : others k (lru_iter (lru_sizes c1)) = sizes c1).
  { apply (filter_all (fun e : string * Z => e.1 <> k)). intros [j n] Hj Heq. cbn in Heq. subst j. by apply (Hold n). }
  rewrite Hoth, take_ge in Hi by (rewrite Hcap; cbn [length]; lia).
  assert (Hs : sizes (set_sizes (wrap 64 (current_size c1 + len data)) (lru_put k (len data) (lru_sizes c1))
             (set_files (<[k := data]> (files c1)) c1)) = (k, len data) :: sizes c1) by done.
  rewrite (wrap_small 64) in Hs by (unfold in_u; lia). cbn [current_size set_files lru_sizes].
  rewrite (wrap_small 64) by (unfold in_u; lia).
  split; [|split; [done|split; [cbn [current_size set_sizes]; lia|rewrite Hs; cbn [length]; lia]]].
  split; rewrite ?Hs.
  - cbn. apply NoDup_cons. split; [|done]. intros ([j n] & Hj & Hin)%list_elem_of_fmap. cbn in Hj. subst j. by apply (Hold n).
  - intros j n. cbn [files set_sizes set_files]. rewrite elem_of_cons. split.
    + intros [[= -> ->]|Hin]; [exists data; split; [split; [apply lookup_insert_eq|exact Hnew]|done]|].
      rewrite lookup_insert_ne by (intros <-; by apply (Hold n)). by apply Hf.
    + intros (d & [Hd' Ho] & ->). destruct (decide (k = j)) as [<- |Hne].
      * rewrite lookup_insert_eq in Hd'. injection Hd' as ->. by left.
      * rewrite lookup_insert_ne in Hd' by done. right. apply Hf. by exists d.
  - cbn [files set_sizes set_files]. by apply insert_subseteq_r.
  - cbn [current_size set_sizes]. rewrite total_cons. cbn [snd]. lia.
  - cbn [current_size set_sizes]. lia.
  - exact (eq_trans Hcap' Hcap).
Qed.

(** A read through the cache, as [PartitionReader::get_segment] makes it: a file that is not
    there is downloaded and put. *)
Definition fetch (c : SegmentCache) (e : string * bytes) : SegmentCache :=
  match get e.1 None c with
  | (c, Ok None) => fst (put e.1 e.2 (fun _ => true) WriteOk c)
  | (c, _) => c
  end.

Lemma counted_fetch c e :
  counted c -> len e.2 <= max_size_bytes c -> max_size_bytes c < 2 ^ 63 -> current_size c <= max_size_bytes c ->
  (length (sizes c) < Z.to_nat 10000)%nat ->
  counted (fetch c e) /\ max_size_bytes (fetch c e) = max_size_bytes c /\ current_size (fetch c e) <= max_size_bytes c
  /\ (length (sizes (fetch c e)) <= S (length (sizes c)))%nat.
Proof.
  intros Hc Hd Hmax Hcur Hlen. pose proof (counted_get e.1 None c Hc) as Hc'. unfold fetch.
  destruct (get e.1 None c) as [c' [[data|]|er|]] eqn:Hg; cbn in Hc'; unfold get in Hg;
    destruct (files c !! e.1) as [d|] eqn:Hf; try done; injection Hg as <-.
  - split; [done|]. split; [done|]. split; [done|].
    destruct Hc as [Hnd Hfs _ _ _ _].
    assert (Hlen' : length (lru_iter (snd (lru_get e.1 (lru_sizes c)))) = length (sizes c)); [|unfold sizes in *; cbn; lia].
    destruct (lru_get_law e.1 (lru_sizes c)) as (_ & _ & Hi). rewrite Hi.
    destruct (entry e.1 (lru_iter (lru_sizes c))) as [n|] eqn:Hent; [|done].
    apply Permutation_length, others_perm; [done|by apply entry_in].
  - exact (counted_put e.1 e.2 _ Hc' Hf Hd Hmax Hlen).
Qed.

End accounts.
End cache.
