(* ===== verification/PartitionReader.v ===== *)
(** * Reading a partition (crates/streamhouse-storage/src/reader.rs)

    A reader finds the segment of an offset in its index, gets the object through the cache
    and decodes it, segment after segment.  The clock and what the database, the object store
    and the files of the cache answer are arguments, one record for each round. *)

From stdpp Require Import pretty.
From stdpp Require Import pretty sorting.
From S2P Require Import Prelude Core External Segment SegmentFacts Lru MetadataError StorageError WalHandle Catalog CatalogFacts PartitionWriter PartitionWriterFacts PartitionLogFacts SegmentIndex SegmentCache.

(** [rd_first] and [rd_second] answer the refreshes of the index, [rd_get_error] and
    [rd_missing] are errors of the object store: of the download, and for an object that is
    not there; the rest is what the cache finds. *)
Record read_env : Type := mk_read_env {
  rd_now : Z;
  rd_first : outcome MetadataError (list SegmentInfo);
  rd_second : outcome MetadataError (list SegmentInfo);
  rd_cache_error : option string;
  rd_get_error : option string;
  rd_missing : string;
  rd_can_remove : string -> bool;
  rd_written : write_result
}.

Record ReadResult : Type := mk_read_result { rr_records : list Record_; rr_high_watermark : Z }.

Section reader.
Context `{HC : Codecs} `{HP : ObjectPaths} `{HL : LruCache string Z}.

Record PartitionReader : Type := mk_partition_reader {
  rd_org_id : string;
  rd_topic : string;
  rd_partition_id : Z;
  rd_cache : SegmentCache;
  segment_index : SegmentIndex
}.

Definition new (org_id topic : string) (partition_id : Z) (cache : SegmentCache) : PartitionReader :=
  mk_partition_reader org_id topic partition_id cache (SegmentIndex.new default_config).

Definition set_cache c (r : PartitionReader) : PartitionReader :=
  mk_partition_reader (rd_org_id r) (rd_topic r) (rd_partition_id r) c (segment_index r).
Definition set_index x (r : PartitionReader) : PartitionReader :=
  mk_partition_reader (rd_org_id r) (rd_topic r) (rd_partition_id r) (rd_cache r) x.

Definition partition_prefix (r : PartitionReader) : string :=
  rd_org_id r +:+ "-" +:+ rd_topic r +:+ "-" +:+ pretty (rd_partition_id r).

Definition cache_key (info : SegmentInfo) (r : PartitionReader) : string :=
  partition_prefix r +:+ "-" +:+ pretty (si_base_offset info) +:+ "-" +:+ pretty (si_created_at info).

(** The object store's answer for the segment. *)
Definition download (objects : object_map) (info : SegmentInfo) (env : read_env) : outcome StorageError bytes :=
  match rd_get_error env, objects !! path_from (si_s3_key info) with
  | Some e, _ => Err (ObjectStoreError e)
  | None, Some data => Ok data
  | None, None => Err (ObjectStoreError (rd_missing env))
  end.

Definition get_segment (objects : object_map) (info : SegmentInfo) (env : read_env) (r : PartitionReader)
  : PartitionReader * outcome StorageError bytes :=
  match get (cache_key info r) (rd_cache_error env) (rd_cache r) with
  | (c, Ok (Some data)) => (set_cache c r, Ok data)
  | (c, Ok None) =>
      match download objects info env with
      | Ok data =>
          let '(c, stored) := put (cache_key info r) data (rd_can_remove env) (rd_written env) c in
          (set_cache c r, _ ← stored; Ok data)
      | e => (set_cache c r, e)
      end
  | (c, Err e) => (set_cache c r, Err e)
  | (c, Panic) => (set_cache c r, Panic)
  end.

Definition find_segment (offset : Z) (env : read_env) (r : PartitionReader)
  : PartitionReader * outcome StorageError (option SegmentInfo) :=
  let '(x, s) := SegmentIndex.find_segment_for_offset offset (rd_now env) (rd_first env) (rd_second env) (segment_index r) in
  (set_index x r, map_err FromMetadata s).

(** The records of the segment at or after the offset. *)
Definition decode (data : bytes) (offset : Z) : outcome StorageError (list Record_) :=
  reader ← map_err quote_core (Reader.new data);
  map_err quote_core (Reader.read_from_offset reader offset).

(** The loop.  Every round but the last adds a record, so one round for each record that is
    asked for is enough. *)
Fixpoint read_loop (fuel : nat) (objects : object_map) (start_offset : Z) (max_records : nat)
    (envs : nat -> read_env) (records : list Record_) (current_offset : Z) (r : PartitionReader)
  : PartitionReader * outcome StorageError (list Record_) :=
  match fuel with
  | O => (r, Ok records)
  | S fuel =>
      if (length records <? max_records)%nat then
        match find_segment current_offset (envs fuel) r with
        | (r, Ok (Some segment_info)) =>
            match get_segment objects segment_info (envs fuel) r with
            | (r, Ok segment_data) =>
                match decode segment_data current_offset with
                | Ok [] => (r, Ok records)
                | Ok segment_records =>
                    let needed := (max_records - length records)%nat in
                    if (length segment_records <=? needed)%nat then
                      read_loop fuel objects start_offset max_records envs (records ++ segment_records)
                        (wrap 64 (si_end_offset segment_info + 1)) r
                    else (r, Ok (records ++ take needed segment_records))
                | Err e => (r, Err e)
                | Panic => (r, Panic)
                end
            | (r, Err e) => (r, Err e)
            | (r, Panic) => (r, Panic)
            end
        | (r, Ok None) =>
            (r, match records with [] => Err (SOffsetNotFound start_offset) | _ => Ok records end)
        | (r, Err e) => (r, Err e)
        | (r, Panic) => (r, Panic)
        end
      else (r, Ok records)
  end.

(** [partition] is what the database answers at the end. *)
Definition read (objects : object_map) (start_offset : Z) (max_records : nat) (envs : nat -> read_env)
    (partition : outcome MetadataError (option Partition)) (r : PartitionReader)
  : PartitionReader * outcome StorageError ReadResult :=
  let '(r, records) := read_loop max_records objects start_offset max_records envs [] start_offset r in
  (r, records ← records;
      partition ← map_err FromMetadata partition;
      partition ← ok_or (PartitionNotFound (rd_topic r) (rd_partition_id r)) partition;
      Ok (mk_read_result records (p_high_watermark partition))).

(** The key under which the prefetching task puts a segment: without the time of creation. *)
Definition prefetch_key (info : SegmentInfo) (r : PartitionReader) : string :=
  partition_prefix r +:+ "-" +:+ pretty (si_base_offset info).

(** One segment of the task, with the lookups of the index and the accesses of the cache in
    [env]; errors end it. *)
Definition prefetch_one (objects : object_map) (offset_to_find : Z) (env : read_env) (r : PartitionReader)
  : PartitionReader :=
  match find_segment offset_to_find env r with
  | (r, Ok (Some segment)) =>
      match get (prefetch_key segment r) (rd_cache_error env) (rd_cache r) with
      | (c, Ok (Some _)) => set_cache c r
      | (c, _) =>
          match download objects segment env with
          | Ok data => set_cache (fst (put (prefetch_key segment r) data (rd_can_remove env) (rd_written env) c)) r
          | _ => set_cache c r
          end
      end
  | (r, _) => r
  end.
End reader.

(** ** Facts *)

(** ** Cache keys *)

Fixpoint no_dash (s : string) : bool :=
  match s with EmptyString => true | String a s => negb (bool_decide (a = Ascii.ascii_of_nat 45)) && no_dash s end.

Lemma no_dash_digit x : negb (bool_decide (pretty_N_char x = Ascii.ascii_of_nat 45)) = true.
Proof. destruct x as [|p]; [done|]. by do 4 try (destruct p as [p|p|]; try done). Qed.

Lemma no_dash_go x s : no_dash s = true -> no_dash (pretty_N_go x s) = true.
Proof.
  revert s. induction (N.lt_wf_0 x) as [x _ IH]. intros s Hs. destruct (decide (x = 0%N)) as [-> |Hx].
  - by rewrite pretty_N_go_0.
  - rewrite pretty_N_go_step by lia. apply IH; [apply N.div_lt; lia|]. cbn [no_dash].
    by rewrite no_dash_digit.
Qed.

Lemma no_dash_pretty v : 0 <= v -> no_dash (pretty v) = true.
Proof.
  intros Hv. destruct v as [|p|p]; [done| |lia].
  change (no_dash (pretty_N_go (N.pos p) "") = true). by apply no_dash_go.
Qed.

Lemma dash_split a b x y :
  no_dash a = true -> no_dash b = true -> a +:+ "-" +:+ x = b +:+ "-" +:+ y -> a = b.
Proof.
  revert b. induction a as [|c a IH]; intros [|d b] Ha Hb He; rewrite ?str_app_cons, ?str_app_nil in He; [done| | |].
  - injection He as <- _. done.
  - injection He as -> _. done.
  - injection He as <- He. cbn in Ha, Hb. apply andb_true_iff in Ha as [_ Ha]. apply andb_true_iff in Hb as [_ Hb].
    by rewrite (IH b Ha Hb He).
Qed.

(** ** Looking up a segment *)

(** Listings that grow: the index holds an older one. *)
Definition index_ok (rows : list SegmentInfo) (x : SegmentIndex) : Prop :=
  exists segs, segs `sublist_of` rows /\ index x = limit (max_segments (SegmentIndex.config x)) (build segs)
    /\ (length rows <= max_segments (SegmentIndex.config x))%nat.

(** The database answers with the current listing or fails. *)
Definition listing {E} (rows : list SegmentInfo) (r : outcome E (list SegmentInfo)) : Prop :=
  r = Ok rows \/ exists e, r = Err e.

Lemma wf_sublist segs rows : segs `sublist_of` rows -> wf_segments rows -> wf_segments segs.
Proof.
  intros Hs (H1 & H2 & H3). split; [by apply (sublist_NoDup _ rows)|].
  split; [intros s Hin; apply H2|intros s s' Hin Hin'; apply H3]; by eapply sublist_subseteq.
Qed.

Lemma holder_sublist segs rows offset s :
  segs `sublist_of` rows -> wf_segments rows -> holder segs offset = Some s -> holder rows offset = Some s.
Proof.
  intros Hs Hw Hh. unfold holder in Hh. apply head_elem, list_elem_of_filter in Hh as [Hc Hin].
  apply wf_segments_holder; [done| |done]. by eapply sublist_subseteq.
Qed.

Lemma lookup_index rows x offset s :
  wf_segments rows -> index_ok rows x -> lookup_in_index offset x = Some s -> holder rows offset = Some s.
Proof.
  intros Hw (segs & Hs & Hx & Hl) Hf. rewrite (lookup_holder (max_segments (SegmentIndex.config x)) segs offset x) in Hf.
  - by apply (holder_sublist segs).
  - by apply (wf_sublist _ rows).
  - etrans; [by apply sublist_length|done].
  - done.
Qed.

Lemma index_find {E} rows offset now (first second : outcome E (list SegmentInfo)) x :
  wf_segments rows -> index_ok rows x -> listing rows first -> listing rows second ->
  let '(x', r) := SegmentIndex.find_segment_for_offset offset now first second x in
  index_ok rows x'
  /\ (r = Ok (holder rows offset) \/ (exists e, r = Err e) /\ ~ (first = Ok rows /\ second = Ok rows)).
Proof.
  intros Hw Hx Hf Hs.
  assert (Hfresh : forall y, index_ok rows y ->
            index_ok rows (mk_index (SegmentIndex.config y) (limit (max_segments (SegmentIndex.config y)) (build rows)) (Some now))
            /\ lookup_in_index offset (mk_index (SegmentIndex.config y) (limit (max_segments (SegmentIndex.config y)) (build rows)) (Some now))
               = holder rows offset).
  { intros y (segs & _ & _ & Hl). split; [by exists rows|]. by apply (lookup_holder (max_segments (SegmentIndex.config y))). }
  assert (Hretry : forall y, index_ok rows y -> let '(x', r) :=
            (let '(x, r) := refresh second now y in
             match r with Ok _ => (x, Ok (lookup_in_index offset x)) | Err e => (x, Err e) | Panic => (x, Panic) end) in
            index_ok rows x' /\ (r = Ok (holder rows offset) \/ (exists e, r = Err e) /\ ~ (first = Ok rows /\ second = Ok rows))).
  { intros y Hy. destruct Hs as [-> |[e ->]]; cbn.
    - destruct (Hfresh y Hy) as [H1 H2]. split; [done|]. left. by rewrite H2.
    - split; [done|]. right. split; [by exists e|by intros []]. }
  assert (Hlook : forall y, index_ok rows y -> let '(x', r) :=
            match lookup_in_index offset y with
            | Some s => (y, Ok (Some s))
            | None => let '(x, r) := refresh second now y in
                      match r with Ok _ => (x, Ok (lookup_in_index offset x)) | Err e => (x, Err e) | Panic => (x, Panic) end
            end in
            index_ok rows x' /\ (r = Ok (holder rows offset) \/ (exists e, r = Err e) /\ ~ (first = Ok rows /\ second = Ok rows))).
  { intros y Hy. destruct (lookup_in_index offset y) as [s|] eqn:Hl; [|by apply Hretry].
    split; [done|]. left. by rewrite (lookup_index rows y offset s). }
  unfold SegmentIndex.find_segment_for_offset. destruct (should_refresh now x); [|by apply Hlook].
  destruct Hf as [-> |[e ->]]; cbn [refresh].
  - by apply Hlook, Hfresh.
  - split; [done|]. right. split; [by exists e|by intros []].
Qed.

(** ** Chunks and offsets *)

(** Each segment starts where the one before it ends. *)
Fixpoint joined (chs : list (list Record_)) : Prop :=
  match chs with
  | [] => True
  | ch :: rest => match rest with [] => True | ch' :: _ => first_offset ch' = final_offset ch + 1 end /\ joined rest
  end.

Definition after (o : Z) (rs : list Record_) : list Record_ := filter (fun r => o <= r_offset r) rs.

Lemma in_chunk (chs : list (list Record_)) ch r : ch ∈ chs -> r ∈ ch -> r ∈ concat chs.
Proof. intros Hch Hr. apply list_elem_of_In, in_concat. exists ch. by rewrite <- !list_elem_of_In. Qed.

Lemma last_in_chunk ch : ch <> [] -> exists r, r ∈ ch /\ r_offset r = final_offset ch.
Proof.
  intros Hne. unfold final_offset. destruct (list.last ch) as [r|] eqn:Hl; [|by apply last_None in Hl].
  exists r. split; [|done]. apply last_Some in Hl as [l ->]. apply elem_of_app. right. by left.
Qed.

Lemma first_in_chunk ch : ch <> [] -> exists r, r ∈ ch /\ r_offset r = first_offset ch.
Proof. destruct ch as [|r ch]; [done|]. intros _. exists r. split; [by left|done]. Qed.

Section chunks.
Context (committed : list (list Record_)).
Context (Hok : Forall (fun ch => ch <> [] /\ Forall record_ok ch) committed).
Context (Hinc : increasing (concat committed)).

Lemma chunk_facts pre ch post :
  committed = pre ++ ch :: post ->
  ch <> [] /\ Forall record_ok ch /\ increasing ch
  /\ (forall r, r ∈ ch -> first_offset ch <= r_offset r <= final_offset ch)
  /\ (forall r, r ∈ concat pre -> r_offset r < first_offset ch)
  /\ (forall r, r ∈ concat post -> final_offset ch < r_offset r)
  /\ 0 <= first_offset ch <= final_offset ch /\ final_offset ch < next_offset (concat committed).
Proof.
  intros He. pose proof Hinc as Hall. rewrite He in Hok, Hinc. apply Forall_app in Hok as [_ [[Hne Hrs] _]%Forall_cons].
  assert (Hin : ch ∈ committed) by (rewrite He; apply elem_of_app; right; by left).
  rewrite concat_app in Hinc. cbn [concat] in Hinc.
  pose proof Hinc as Hinc'. apply increasing_app in Hinc' as (_ & Hi2 & Hpre). apply increasing_app in Hi2 as (Hich & _ & Hpost).
  destruct (first_final ch Hich Hne Hrs) as ([Hf _] & Hle & Hnext & Hge).
  destruct (last_in_chunk ch Hne) as (rl & Hrl & Hfin). destruct (first_in_chunk ch Hne) as (rf & Hrf & Hfirst).
  split; [done|]. split; [done|]. split; [done|]. split; [|split; [|split; [|split; [done|]]]].
  - intros r Hr. split; [by apply Hge|]. pose proof (next_offset_above ch r Hich Hr). lia.
  - intros r Hr. rewrite <- Hfirst. apply Hpre; [done|]. apply elem_of_app. by left.
  - intros r Hr. rewrite <- Hfin. by apply Hpost.
  - rewrite <- Hfin. apply next_offset_above; [done|by apply (in_chunk _ ch)].
Qed.

Lemma after_chunk pre ch post o :
  committed = pre ++ ch :: post -> first_offset ch <= o <= final_offset ch ->
  after o (map normalise (concat committed))
  = after o (map normalise ch) ++ after (final_offset ch + 1) (map normalise (concat committed))
  /\ after o (map normalise ch) <> [].
Proof.
  intros He Ho. destruct (chunk_facts pre ch post He) as (Hne & _ & _ & Hch & Hpre & Hpost & _). split.
  - assert (Hcut : forall o', after o' (map normalise (concat committed)) =
              after o' (map normalise (concat pre)) ++ after o' (map normalise ch) ++ after o' (map normalise (concat post))).
    { intros o'. unfold after. rewrite He, concat_app. cbn [concat]. by rewrite !map_app, !filter_app. }
    assert (Hnone : forall o' rs, (forall r, r ∈ rs -> r_offset r < o') -> after o' (map normalise rs) = []).
    { intros o' rs Hr. apply filter_none. intros x Hx. apply list_elem_of_fmap in Hx as (r & -> & Hin).
      specialize (Hr r Hin). cbn. lia. }
    assert (Hall : forall o' rs, (forall r, r ∈ rs -> o' <= r_offset r) -> after o' (map normalise rs) = map normalise rs).
    { intros o' rs Hr. apply filter_all. intros x Hx. apply list_elem_of_fmap in Hx as (r & -> & Hin). exact (Hr r Hin). }
    rewrite !Hcut, !(Hnone _ (concat pre)); [|intros r Hr; specialize (Hpre r Hr); lia..].
    rewrite (Hnone (final_offset ch + 1) ch) by (intros r Hr; specialize (Hch r Hr); lia).
    rewrite !(Hall _ (concat post)); [done|intros r Hr; specialize (Hpost r Hr); lia..].
  - destruct (last_in_chunk ch Hne) as (r & Hr & Hf). intros Hnil.
    assert (Hin : normalise r ∈ after o (map normalise ch)).
    { apply list_elem_of_filter. split; [cbn; lia|by apply elem_of_map]. }
    rewrite Hnil in Hin. by apply not_elem_of_nil in Hin.
Qed.
End chunks.

Lemma covering committed o :
  Forall (fun ch => ch <> [] /\ Forall record_ok ch) committed -> increasing (concat committed) -> joined committed ->
  first_offset (concat committed) <= o < next_offset (concat committed) ->
  exists pre ch post, committed = pre ++ ch :: post /\ first_offset ch <= o <= final_offset ch.
Proof.
  induction committed as [|ch rest IH]; intros Hok Hinc Hjoin Ho; [unfold next_offset in Ho; cbn in Ho; lia|].
  destruct Hjoin as [Hj Hjs].
  pose proof (chunk_facts _ Hok Hinc [] ch rest eq_refl) as (Hne & _ & _ & _ & _ & _ & Hle & _).
  apply Forall_cons in Hok as [_ Hok]. pose proof Hinc as Hinc'. cbn [concat] in Hinc'. apply increasing_app in Hinc' as (_ & Hinc' & _).
  assert (Hfirst : first_offset (concat (ch :: rest)) = first_offset ch) by (by destruct ch).
  destruct (decide (o <= final_offset ch)) as [Hin|Hout]; [exists [], ch, rest; split; [done|lia]|].
  destruct rest as [|ch' rest].
  - exfalso. cbn [concat] in Ho. rewrite app_nil_r in Ho. unfold next_offset, final_offset in *.
    destruct (list.last ch) as [r|] eqn:Hl; [lia|]. by apply last_None in Hl.
  - destruct IH as (pre & c & post & He & Hc); [done|done|done| |exists (ch :: pre), c, post; by rewrite He].
    apply Forall_cons in Hok as [[Hne' _] _].
    assert (Hf' : first_offset (concat (ch' :: rest)) = first_offset ch') by (by destruct ch').
    split; [rewrite Hf', Hj; lia|]. destruct Ho as [_ Ho]. cbn [concat] in Ho. rewrite next_offset_app in Ho; [done|].
    by destruct ch'.
Qed.

(** ** The rows *)

Section store.
Context `{HC : Codecs} `{!CodecLaws HC} `{HP : ObjectPaths} `{!ObjectPathLaws HP} `{HJ : JsonMaps}.

Lemma rows_describe org t p prefix committed wd :
  store_ok org t p prefix committed wd ->
  Forall2 (describes prefix t p) committed (get_segments org t p (catalog wd)).
Proof.
  intros [H2 _ Hok Hinc _ Hb].
  change (get_segments org t p (catalog wd)) with (map segment_of_row (partition_rows org t p (catalog wd))).
  assert (Hfits : forall ch, ch ∈ committed -> in_u 64 (first_offset ch) /\ in_u 64 (final_offset ch)).
  { intros ch Hch. apply list_elem_of_split in Hch as (pre & post & He).
    destruct (chunk_facts committed Hok Hinc pre ch post He) as (_ & _ & _ & _ & _ & _ & ? & ?). unfold in_u. lia. }
  clear -H2 Hfits. induction H2 as [|ch s committed rows (Hs & He & Hk) _ IH]; [constructor|]. cbn. constructor.
  - destruct (Hfits ch) as [H1 H2]; [by left|]. unfold describes, segment_of_row. cbn. by rewrite Hs, He, !wrap_small.
  - apply IH. intros c Hc. apply Hfits. by right.
Qed.

Lemma rows_wf org t p prefix committed wd :
  store_ok org t p prefix committed wd -> wf_segments (get_segments org t p (catalog wd)).
Proof.
  intros Hst. pose proof (rows_describe _ _ _ _ _ _ Hst) as H2. destruct Hst as [_ _ Hok Hinc _ _].
  assert (Hat : forall i s, get_segments org t p (catalog wd) !! i = Some s ->
            exists ch, committed = take i committed ++ ch :: drop (S i) committed
              /\ si_base_offset s = first_offset ch /\ si_end_offset s = final_offset ch).
  { intros i s Hs. destruct (Forall2_lookup_r _ _ _ _ _ H2 Hs) as (ch & Hch & Hb & He & _).
    exists ch. split; [by rewrite take_drop_middle|done]. }
  assert (Hlt : forall i j s s', (i < j)%nat -> get_segments org t p (catalog wd) !! i = Some s ->
            get_segments org t p (catalog wd) !! j = Some s' -> si_end_offset s < si_base_offset s').
  { intros i j s s' Hij Hs Hs'. destruct (Hat i s Hs) as (ch & Hc & _ & ->).
    destruct (Forall2_lookup_r _ _ _ _ _ H2 Hs') as (ch' & Hch' & -> & _).
    destruct (chunk_facts _ Hok Hinc _ _ _ Hc) as (_ & _ & _ & _ & _ & Hpost & _).
    assert (Hin : ch' ∈ drop (S i) committed).
    { apply (list_elem_of_lookup_2 _ (j - S i)). rewrite lookup_drop. by replace (S i + (j - S i))%nat with j by lia. }
    assert (Hne : ch' <> []).
    { apply (proj1 (Forall_forall _ _) Hok ch'). by apply (list_elem_of_lookup_2 _ j). }
    destruct (first_in_chunk ch' Hne) as (r & Hr & <-). apply Hpost. by apply (in_chunk _ ch'). }
  assert (Hle : forall i s, get_segments org t p (catalog wd) !! i = Some s -> si_base_offset s <= si_end_offset s).
  { intros i s Hs. destruct (Hat i s Hs) as (ch & Hc & -> & ->).
    destruct (chunk_facts _ Hok Hinc _ _ _ Hc) as (_ & _ & _ & _ & _ & _ & Hb & _). lia. }
  split; [|split].
  - apply NoDup_alt. intros i j s Hi Hj. pose proof (Hle i s Hi).
    destruct (Nat.lt_trichotomy i j) as [Hij|[|Hij]]; [|done|].
    + pose proof (Hlt i j s s Hij Hi Hj). lia.
    + pose proof (Hlt j i s s Hij Hj Hi). lia.
  - intros s [i Hs]%list_elem_of_lookup. by apply (Hle i).
  - intros s s' [i Hs]%list_elem_of_lookup [j Hs']%list_elem_of_lookup Hne.
    destruct (Nat.lt_trichotomy i j) as [Hij|[->|Hij]]; [left; by apply (Hlt i j)|congruence|right; by apply (Hlt j i)].
Qed.
End store.

(** ** Reading *)

Section reading.
Context `{HC : Codecs} `{!CodecLaws HC} `{HP : ObjectPaths} `{!ObjectPathLaws HP} `{HJ : JsonMaps}.
Context `{HL : LruCache string Z}.
Context (org t : string) (p : Z) (prefix : string) (committed : list (list Record_)) (wd : world).
Context (Hst : store_ok org t p prefix committed wd) (Hfit : objects_fit wd) (Hjoin : joined committed).

Let rows := get_segments org t p (catalog wd).
Let log := map normalise (concat committed).

(** Accesses that may fail, but not halfway: listings are current, and a write of the cache
    that fails leaves no part of the file. *)
Definition env_safe (env : read_env) : Prop :=
  listing rows (rd_first env) /\ listing rows (rd_second env)
  /\ match rd_written env with WriteErr _ (Some _) => False | _ => True end.

Definition env_good (env : read_env) : Prop :=
  rd_first env = Ok rows /\ rd_second env = Ok rows /\ rd_cache_error env = None /\ rd_get_error env = None
  /\ rd_written env = WriteOk.

(** The cache holds the objects of the segments, if anything, under their keys. *)
Definition cache_ok (r : PartitionReader) : Prop :=
  forall s data, s ∈ rows -> files (rd_cache r) !! cache_key s r = Some data -> objects wd !! path_from (si_s3_key s) = Some data.

Definition reader_ok (r : PartitionReader) : Prop := index_ok rows (segment_index r) /\ cache_ok r.

Lemma key_inj r s s' : s ∈ rows -> s' ∈ rows -> cache_key s r = cache_key s' r -> s = s'.
Proof.
  intros Hs Hs' Hk. pose proof (rows_wf _ _ _ _ _ _ Hst) as Hw. fold rows in Hw.
  apply (wf_segments_base rows); [done..|]. unfold cache_key in Hk.
  apply (inj (String.app (partition_prefix r))), (inj (String.app "-")) in Hk.
  assert (Hpos : forall x, x ∈ rows -> 0 <= si_base_offset x).
  { intros x [i Hx]%list_elem_of_lookup. pose proof (rows_describe _ _ _ _ _ _ Hst) as H2. fold rows in H2.
    destruct (Forall2_lookup_r _ _ _ _ _ H2 Hx) as (ch & Hch & -> & _). destruct Hst as [_ _ Hok Hinc _ _].
    apply list_elem_of_split_length in Hch as (pre & post & He & _).
    destruct (chunk_facts _ Hok Hinc _ _ _ He) as (_ & _ & _ & _ & _ & _ & ? & _). lia. }
  apply dash_split in Hk; [|apply no_dash_pretty, Hpos; done..]. by apply (inj pretty) in Hk.
Qed.

(** The answer is right, or an error that was met. *)
Definition right {A} (good : Prop) (r : outcome StorageError A) (a : A) : Prop :=
  r = Ok a \/ (exists e, r = Err e) /\ ~ good.

Lemma cache_ok_same r c :
  cache_ok r -> (forall k data, files c !! k = Some data -> files (rd_cache r) !! k = Some data) -> cache_ok (set_cache c r).
Proof. intros Hc Hk s data Hs Hf. apply (Hc s data Hs), Hk, Hf. Qed.

Lemma get_segment_right s data env r :
  reader_ok r -> s ∈ rows -> objects wd !! path_from (si_s3_key s) = Some data -> env_safe env ->
  let '(r', d) := get_segment (objects wd) s env r in reader_ok r' /\ right (env_good env) d data.
Proof.
  intros [Hi Hc] Hs Hobj (_ & _ & Hw). unfold get_segment.
  pose proof (get_files (cache_key s r) (rd_cache_error env) (rd_cache r)) as Hfiles.
  pose proof (get_answer (cache_key s r) (rd_cache_error env) (rd_cache r)) as Hans.
  assert (Herr : forall e, snd (get (cache_key s r) (rd_cache_error env) (rd_cache r)) = Err e -> rd_cache_error env <> None).
  { unfold get. destruct (files (rd_cache r) !! cache_key s r); [|done]. by destruct (rd_cache_error env). }
  assert (Hpanic : snd (get (cache_key s r) (rd_cache_error env) (rd_cache r)) <> Panic).
  { unfold get. destruct (files (rd_cache r) !! cache_key s r); [|done]. by destruct (rd_cache_error env). }
  destruct (get (cache_key s r) (rd_cache_error env) (rd_cache r)) as [c a]. cbn [fst snd] in *.
  assert (Hc' : cache_ok (set_cache c r)) by (apply cache_ok_same; [done|by rewrite Hfiles]).
  destruct a as [[d|]|e|]; [| | |done].
  - split; [done|]. left. f_equal. specialize (Hans d eq_refl). specialize (Hc s d Hs Hans). congruence.
  - unfold download. rewrite Hobj. destruct (rd_get_error env) as [e|] eqn:Hge.
    + split; [done|]. right. split; [by eexists|]. intros (_ & _ & _ & Hg & _). congruence.
    + pose proof (put_files (cache_key s r) data (rd_can_remove env) (rd_written env) c) as Hput.
      assert (Hret : snd (put (cache_key s r) data (rd_can_remove env) (rd_written env) c) =
                match rd_written env with WriteOk => Ok () | WriteErr e _ => Err (IoError e) end).
      { unfold put. by destruct (rd_written env). }
      destruct (put _ _ _ _ c) as [c2 stored]. cbn [fst snd] in *. subst stored. split.
      * split; [done|]. intros s' d' Hs' Hf. destruct (Hput _ _ Hf) as [Hold|[Hk Hd]]; [by apply Hc'|].
        destruct (rd_written env) as [|e [part|]]; [|done..]. subst d'.
        by rewrite (key_inj r s' s Hs' Hs Hk).
      * destruct (rd_written env) as [|e part] eqn:He; [by left|]. right. split; [by eexists|].
        intros (_ & _ & _ & _ & Hg). congruence.
  - split; [done|]. right. split; [by eexists|]. intros (_ & _ & Hg & _). by apply (Herr e).
Qed.

Lemma find_segment_right o env r :
  reader_ok r -> env_safe env ->
  let '(r', s) := find_segment o env r in reader_ok r' /\ right (env_good env) s (holder rows o).
Proof.
  intros [Hi Hc] (Hf & Hs & _). unfold find_segment.
  pose proof (index_find rows o (rd_now env) (rd_first env) (rd_second env) (segment_index r)
                (rows_wf _ _ _ _ _ _ Hst) Hi Hf Hs) as Hfind.
  destruct (SegmentIndex.find_segment_for_offset _ _ _ _ _) as [x s]. destruct Hfind as [Hx Hres].
  split; [done|]. destruct Hres as [-> |[[e ->] Hn]]; [by left|right]. split; [by eexists|].
  intros (H1 & H2 & _). by apply Hn.
Qed.

Lemma holder_chunk pre ch post o :
  committed = pre ++ ch :: post -> first_offset ch <= o <= final_offset ch ->
  exists s data, holder rows o = Some s /\ s ∈ rows /\ si_end_offset s = final_offset ch
    /\ objects wd !! path_from (si_s3_key s) = Some data
    /\ decode data o = Ok (after o (map normalise ch)).
Proof.
  intros He Ho. pose proof (rows_describe _ _ _ _ _ _ Hst) as H2. fold rows in H2.
  assert (Hch : committed !! length pre = Some ch) by (rewrite He; by apply list_lookup_middle).
  destruct (Forall2_lookup_l _ _ _ _ _ H2 Hch) as (s & Hs & Hb & Hend & Hk).
  assert (Hin : s ∈ rows) by by apply (list_elem_of_lookup_2 _ (length pre)).
  destruct Hst as [_ Hobj Hok Hinc _ _].
  destruct (proj1 (Forall_forall _ _) Hobj ch) as (data & Hd & Hopen); [by apply (list_elem_of_lookup_2 _ (length pre))|].
  rewrite <- Hk in Hd. exists s, data.
  split; [apply wf_segments_holder; [by apply (rows_wf org t p prefix committed)|done|unfold covers; by rewrite Hb, Hend]|].
  split; [done|]. split; [done|]. split; [done|]. destruct (Hopen (Hfit _ _ Hd)) as (_ & Hseek & _).
  destruct (chunk_facts _ Hok Hinc _ _ _ He) as (_ & _ & Hi & _).
  destruct (Hseek Hi o) as (rd & Hnew & Hread). unfold decode. rewrite Hnew. cbn [map_err mbind outcome_bind].
  by rewrite Hread.
Qed.

Lemma holder_end o : next_offset (concat committed) <= o -> holder rows o = None.
Proof.
  intros Ho. apply holder_none. intros s [i Hs]%list_elem_of_lookup. pose proof (rows_describe _ _ _ _ _ _ Hst) as H2.
  fold rows in H2. destruct (Forall2_lookup_r _ _ _ _ _ H2 Hs) as (ch & Hch & Hb & He & _).
  destruct Hst as [_ _ Hok Hinc _ _]. apply list_elem_of_split_length in Hch as (pre & post & Hc & _).
  destruct (chunk_facts _ Hok Hinc _ _ _ Hc) as (_ & _ & _ & _ & _ & _ & _ & ?). unfold covers. lia.
Qed.

Lemma after_end o : next_offset (concat committed) <= o -> after o log = [].
Proof.
  intros Ho. apply filter_none. intros x Hx. apply list_elem_of_fmap in Hx as (r & -> & Hr).
  destruct Hst as [_ _ _ Hinc _ _]. pose proof (next_offset_above _ r Hinc Hr). cbn. lia.
Qed.

Lemma read_loop_right fuel start max envs : forall records o r,
  reader_ok r -> (forall i, env_safe (envs i)) ->
  first_offset (concat committed) <= o <= next_offset (concat committed) ->
  (records = [] -> o < next_offset (concat committed)) ->
  (max - length records <= fuel)%nat ->
  let '(r', rs) := read_loop fuel (objects wd) start max envs records o r in
  reader_ok r' /\ right (forall i, env_good (envs i)) rs (records ++ take (max - length records) (after o log)).
Proof.
  induction fuel as [|fuel IH]; intros records o r Hr Henv Ho Hrec Hfuel; cbn [read_loop].
  - replace (max - length records)%nat with 0%nat by lia. rewrite take_0, app_nil_r. split; [done|by left].
  - destruct (Nat.ltb_spec (length records) max) as [Hlt|Hge].
    2: { replace (max - length records)%nat with 0%nat by lia. rewrite take_0, app_nil_r. split; [done|by left]. }
    pose proof (find_segment_right o (envs fuel) r Hr (Henv fuel)) as Hfind.
    destruct (find_segment o (envs fuel) r) as [r1 found]. destruct Hfind as [Hr1 [-> |[[e ->] Hn]]].
    2: { split; [done|]. right. split; [by eexists|]. intros Hg. by apply Hn. }
    destruct (decide (o = next_offset (concat committed))) as [-> |Hne].
    { rewrite holder_end by lia. rewrite after_end by lia. rewrite take_nil, app_nil_r. split; [done|].
      destruct records as [|x xs]; [specialize (Hrec eq_refl); lia|by left]. }
    pose proof (so_records _ _ _ _ _ _ Hst) as Hok. pose proof (so_order _ _ _ _ _ _ Hst) as Hinc.
    destruct (covering committed o) as (pre & ch & post & He & Hc); [done..|lia|].
    destruct (holder_chunk pre ch post o He Hc) as (s & data & -> & Hs & Hend & Hobj & Hdec).
    pose proof (get_segment_right s data (envs fuel) r1 Hr1 Hs Hobj (Henv fuel)) as Hget.
    destruct (get_segment _ s (envs fuel) r1) as [r2 got]. destruct Hget as [Hr2 [-> |[[e ->] Hn]]].
    2: { split; [done|]. right. split; [by eexists|]. intros Hg. by apply Hn. }
    rewrite Hdec. destruct (after_chunk committed Hok Hinc pre ch post o He Hc) as [Hsplit Hnil]. fold log in Hsplit.
    destruct (after o (map normalise ch)) as [|x xs] eqn:Hseg; [done|]. rewrite <- Hseg in *.
    assert (Hlen : (1 <= length (after o (map normalise ch)))%nat) by (rewrite Hseg; cbn; lia).
    destruct (Nat.leb_spec (length (after o (map normalise ch))) (max - length records)) as [Hle|Hgt].
    + destruct (chunk_facts _ Hok Hinc _ _ _ He) as (_ & _ & _ & _ & _ & _ & ? & ?).
      pose proof (so_bound _ _ _ _ _ _ Hst). rewrite Hend, wrap_small by (unfold in_u; lia).
      assert (Hrest : take (max - length records) (after o log) =
                after o (map normalise ch) ++ take (max - length (records ++ after o (map normalise ch))) (after (final_offset ch + 1) log)).
      { rewrite Hsplit, take_app_ge by lia. f_equal. f_equal. rewrite length_app. lia. }
      rewrite Hrest, app_assoc. apply IH; [done|done|lia| |rewrite length_app; lia].
      intros [_ Hx]%app_eq_nil. by rewrite Hx in Hnil.
    + split; [done|]. left. rewrite Hsplit, take_app_le by lia. done.
Qed.

(** A read with every answer the database can give at the end. *)
Lemma read_right start max envs partition r :
  reader_ok r -> (forall i, env_safe (envs i)) ->
  first_offset (concat committed) <= start < next_offset (concat committed) ->
  let watermark := next_offset (concat committed) in
  (partition = Ok (get_partition org t p (catalog wd)) \/ exists e, partition = Err e) ->
  let '(r', res) := read (objects wd) start max envs partition r in
  reader_ok r' /\ right ((forall i, env_good (envs i)) /\ partition = Ok (get_partition org t p (catalog wd))) res
                    (mk_read_result (take max (after start log)) watermark).
Proof.
  intros Hr Henv Ho watermark Hpart. unfold read.
  pose proof (read_loop_right max start max envs [] start r Hr Henv) as Hloop.
  destruct (read_loop _ _ _ _ _ _ _ _) as [r' rs].
  destruct Hloop as [Hr' Hres]; [lia|lia|cbn; lia|]. cbn [app length] in Hres. rewrite Nat.sub_0_r in Hres.
  split; [done|]. destruct Hres as [-> |[[e ->] Hn]].
  - cbn [mbind outcome_bind]. destruct Hpart as [-> |[e ->]].
    + left. unfold get_partition. rewrite (so_mark _ _ _ _ _ _ Hst). cbn. unfold watermark.
      pose proof (so_bound _ _ _ _ _ _ Hst). rewrite wrap_small; [done|].
      destruct (covering committed start) as (pre & ch & post & He & Hc);
        [apply Hst|apply Hst|done|lia|].
      destruct (chunk_facts _ (so_records _ _ _ _ _ _ Hst) (so_order _ _ _ _ _ _ Hst) _ _ _ He) as (_ & _ & _ & _ & _ & _ & ? & ?).
      unfold in_u. lia.
    + right. split; [by eexists|]. by intros [_ ?].
  - right. split; [by eexists|]. intros [Hg _]. by apply Hn.
Qed.

Lemma read_beyond start max envs partition r :
  reader_ok r -> (forall i, env_good (envs i)) -> next_offset (concat committed) <= start -> (0 < max)%nat ->
  snd (read (objects wd) start max envs partition r) = Err (SOffsetNotFound start).
Proof.
  intros Hr Hg Ho Hmax. unfold read. destruct max as [|max]; [lia|]. cbn [read_loop].
  assert (Hsafe : env_safe (envs max)).
  { destruct (Hg max) as (H1 & H2 & _ & _ & H3). split; [by left|]. split; [by left|]. by rewrite H3. }
  pose proof (find_segment_right start (envs max) r Hr Hsafe) as Hfind.
  destruct (find_segment start (envs max) r) as [r1 found]. destruct Hfind as [_ [-> |[_ Hn]]].
  - cbn [length]. destruct (Nat.ltb_spec 0 (S max)); [|lia]. by rewrite holder_end by lia.
  - by destruct (Hn (Hg max)).
Qed.
End reading.

(** ** What is written is read *)

(** Offsets that follow each other without a gap. *)
Definition consecutive (b : Z) (rs : list Record_) : Prop := map r_offset rs = seqZ b (len rs).

Lemma consecutive_cons b r rs : consecutive b (r :: rs) <-> r_offset r = b /\ consecutive (b + 1) rs.
Proof.
  unfold consecutive. cbn [map length]. rewrite Nat2Z.inj_succ, seqZ_cons by lia.
  replace (Z.pred (Z.succ (len rs))) with (len rs) by lia. unfold Z.succ.
  split; [by intros [= H1 H2]|by intros [H1 H2]; f_equal].
Qed.

Lemma consecutive_app b rs rs' : consecutive b (rs ++ rs') <-> consecutive b rs /\ consecutive (b + len rs) rs'.
Proof.
  revert b. induction rs as [|r rs IH]; intros b; cbn [app].
  - rewrite Z.add_0_r. split; [by intros|by intros []].
  - rewrite !consecutive_cons, IH. cbn [length]. replace (b + Z.of_nat (S (length rs))) with (b + 1 + len rs) by lia. tauto.
Qed.

Lemma consecutive_last b rs : rs <> [] -> consecutive b rs -> first_offset rs = b /\ final_offset rs = b + len rs - 1.
Proof.
  intros Hne Hc. split.
  - destruct rs as [|r rs]; [done|]. by apply consecutive_cons in Hc as [? _].
  - unfold final_offset. destruct rs as [|r rs _] using rev_ind; [done|]. rewrite last_snoc.
    apply consecutive_app in Hc as [_ [Hr _]%consecutive_cons]. rewrite length_app. cbn. lia.
Qed.

Lemma consecutive_joined b chs :
  Forall (fun ch : list Record_ => ch <> []) chs -> consecutive b (concat chs) -> joined chs.
Proof.
  revert b. induction chs as [|ch rest IH]; intros b Hne Hc; [done|]. apply Forall_cons in Hne as [Hch Hne].
  cbn [concat] in Hc. apply consecutive_app in Hc as [Hc Hrest]. split; [|by apply (IH (b + len ch))].
  destruct rest as [|ch' rest]; [done|]. apply Forall_cons in Hne as [Hch' _]. cbn [concat] in Hrest.
  apply consecutive_app in Hrest as [Hrest _]. destruct (consecutive_last _ _ Hch Hc) as [_ ->].
  destruct (consecutive_last _ _ Hch' Hrest) as [-> _]. lia.
Qed.

Lemma consecutive_next b rs : rs <> [] -> consecutive b rs -> next_offset rs = b + len rs.
Proof.
  intros Hne Hc. destruct (consecutive_last b rs Hne Hc) as [_ Hf]. unfold next_offset, final_offset in *.
  destruct (list.last rs) as [r|] eqn:Hl; [lia|]. by apply last_None in Hl.
Qed.

Lemma consecutive_after b rs o :
  consecutive b rs -> b <= o -> after o (map normalise rs) = drop (Z.to_nat (o - b)) (map normalise rs).
Proof.
  unfold after. revert b. induction rs as [|r rs IH]; intros b Hc Hb; [by destruct (Z.to_nat _)|].
  apply consecutive_cons in Hc as [Hr Hc]. cbn [map].
  destruct (decide (o = b)) as [-> |Hne].
  - rewrite filter_cons_True by (cbn; lia). replace (Z.to_nat (b - b)) with 0%nat by lia. rewrite drop_0. f_equal.
    apply filter_all. intros x (y & -> & Hy)%list_elem_of_fmap. cbn.
    assert (Hin : r_offset y ∈ seqZ (b + 1) (len rs)) by (rewrite <- Hc; by apply elem_of_map).
    apply elem_of_seqZ in Hin. lia.
  - rewrite filter_cons_False by (cbn; lia). rewrite (IH (b + 1)) by (done || lia).
    replace (Z.to_nat (o - b)) with (S (Z.to_nat (o - (b + 1)))) by lia. done.
Qed.

Section end_to_end.
Context `{HC : Codecs} `{!CodecLaws HC} `{HP : ObjectPaths} `{!ObjectPathLaws HP} `{HJ : JsonMaps}.
Context `{HL : LruCache string Z}.

Lemma new_reader_ok org t p wd c :
  files c = ∅ -> len (get_segments org t p (catalog wd)) <= 10000 ->
  reader_ok org t p wd (PartitionReader.new org t p c).
Proof.
  intros Hf Hl. split.
  - exists []. split; [apply sublist_nil_l|]. split; [done|]. cbn. lia.
  - intros s data _. cbn. by rewrite Hf, lookup_empty.
Qed.

(** C17: consumers read what producers were acknowledged.  Take any calls of a writer opened on
    a new partition in which no flush failed and the acknowledged offsets have no gap (an append
    that fails leaves one).  A reader of
    the partition, whatever it has read before, answers a read from any stored offset with
    the stored of the acknowledged records from that offset on, as many as it was asked for, and the
    watermark; it gives an error only where the database, the object store or a file of the
    cache gave one, and never other records.  Beyond the stored records it answers that the
    offset is not found.  Provisos: the partition has at most 10,000 segments, which is what the
    index holds (beyond it segments are lost to the reader, segment_index.rs:190); what the
    cache has of the partition is what the store has, and a write of it that fails leaves no
    part of a file; timestamps are u64, a record with 20 bytes stays below 2^32, fewer than
    2^32 records are appended, and objects are below 2^63 bytes. *)
Theorem acknowledged_is_read org t p cfg prefix env cs wd w w' wd' log :
  fresh org t p wd -> 0 <= p < 2 ^ 31 -> wal_dir wd = [] ->
  PartitionWriter.new org t p cfg prefix [] env wd = Ok w ->
  Forall input_ok (run_inputs cs) -> len (run_inputs cs) < 2 ^ 32 ->
  run cs w wd = (w', wd', log, false) -> objects_fit wd' -> consecutive 0 log ->
  exists stored,
    log = stored ++ buffered_records w'
    /\ forall (r : PartitionReader) start max envs,
         reader_ok org t p wd' r -> (forall i, env_safe org t p wd' (envs i)) -> 0 <= start ->
         let good := forall i, env_good org t p wd' (envs i) in
         let '(r', res) := read (objects wd') start max envs (Ok (get_partition org t p (catalog wd'))) r in
         (start < len stored ->
          reader_ok org t p wd' r'
          /\ right good res (mk_read_result (take max (drop (Z.to_nat start) (map normalise stored))) (len stored)))
         /\ (len stored <= start -> good -> (0 < max)%nat -> res = Err (SOffsetNotFound start)).
Proof.
  intros Hf Hp Hdir Hnew Hin Hlen Hrun Hfit Hcons.
  destruct (fresh_run org t p cfg prefix env cs wd w w' wd' log false Hf Hp Hdir Hnew Hin Hlen Hrun)
    as (committed & pending & Hst & _ & _ & _ & Hexact).
  destruct (Hexact eq_refl) as [Hlog Hbuf]. rewrite <- Hbuf in Hlog.
  exists (concat committed). split; [done|]. intros r start max envs Hr Henv Hstart good.
  rewrite Hlog in Hcons. apply consecutive_app in Hcons as [Hcons _].
  assert (Hj : joined committed).
  { apply (consecutive_joined 0); [|done]. apply (Forall_impl _ _ _ (so_records _ _ _ _ _ _ Hst)). by intros ch []. }
  pose proof (read_right org t p prefix committed wd' Hst Hfit Hj start max envs
                (Ok (get_partition org t p (catalog wd'))) r Hr Henv) as Hread.
  pose proof (read_beyond org t p prefix committed wd' Hst start max envs
                (Ok (get_partition org t p (catalog wd'))) r Hr) as Hbeyond.
  destruct (read _ _ _ _ _ r) as [r' res]. split.
  - intros Hlt. assert (Hne : concat committed <> []) by (intros Hnil; rewrite Hnil in Hlt; cbn in Hlt; lia).
    pose proof (consecutive_next 0 _ Hne Hcons) as Hnext. destruct (consecutive_last 0 _ Hne Hcons) as [Hfirst _].
    destruct Hread as [Hr' Hres]; [lia|by left|]. split; [done|].
    rewrite (consecutive_after 0) in Hres by (done || lia). rewrite Z.sub_0_r, Hnext in Hres.
    replace (0 + len (concat committed)) with (len (concat committed)) in Hres by lia.
    destruct Hres as [-> |[He Hn]]; [by left|]. right. split; [done|]. intros Hg. by apply Hn.
  - intros Hge Hg Hmax. apply Hbeyond; [done| |done].
    destruct (concat committed) as [|x l] eqn:Hc; [cbn; lia|].
    rewrite (consecutive_next 0); [lia|done|done].
Qed.

(** A reader does not get past a gap.  Where an append failed or a flush lost records
    between two segments, a read from an offset in the gap answers that the offset is not
    found, although later records are stored. *)
Theorem gap_stops_reader org t p prefix committed wd r start max envs pre ch ch' post :
  store_ok org t p prefix committed wd -> objects_fit wd -> committed = pre ++ ch :: ch' :: post ->
  final_offset ch < start < first_offset ch' ->
  reader_ok org t p wd r -> (forall i, env_good org t p wd (envs i)) -> (0 < max)%nat ->
  (exists later, stored_log org t p wd = Some later /\ after start later <> [])
  /\ snd (read (objects wd) start max envs (Ok (get_partition org t p (catalog wd))) r) = Err (SOffsetNotFound start).
Proof.
  intros Hst Hfit He Hgap Hr Hg Hmax. split.
  - exists (map normalise (concat committed)). split; [by eapply store_ok_log|]. destruct Hst as [_ _ Hok Hinc _ _].
    assert (He' : committed = (pre ++ [ch]) ++ ch' :: post) by by rewrite <- app_assoc.
    destruct (chunk_facts _ Hok Hinc _ _ _ He') as (Hne & _ & _ & Hch & _). destruct (first_in_chunk ch' Hne) as (x & Hx & Hfx).
    intros Hnil. assert (Hin : normalise x ∈ after start (map normalise (concat committed))).
    { apply list_elem_of_filter. split; [cbn; lia|]. apply elem_of_map, (in_chunk _ ch'); [|done].
      rewrite He'. apply elem_of_app. right. by left. }
    rewrite Hnil in Hin. by apply not_elem_of_nil in Hin.
  - assert (Hnone : holder (get_segments org t p (catalog wd)) start = None).
    { apply holder_none. intros s [i Hs]%list_elem_of_lookup. pose proof (rows_describe _ _ _ _ _ _ Hst) as H2.
      destruct (Forall2_lookup_r _ _ _ _ _ H2 Hs) as (c & Hc & Hb & Hend & _).
      destruct Hst as [_ _ Hok Hinc _ _].
      assert (He' : committed = (pre ++ [ch]) ++ ch' :: post) by by rewrite <- app_assoc.
      destruct (chunk_facts _ Hok Hinc _ _ _ He) as (_ & _ & _ & _ & Hpre & _ & ? & _).
      destruct (chunk_facts _ Hok Hinc _ _ _ He') as (_ & _ & _ & _ & _ & Hpost & ? & _).
      apply list_elem_of_lookup_2 in Hc as Hin.
      assert (Hrs : c <> []) by by apply (proj1 (Forall_forall _ _) Hok c).
      destruct (last_in_chunk c Hrs) as (l & Hl & Hfl). destruct (first_in_chunk c Hrs) as (f & Hf' & Hff).
      unfold covers. rewrite Hb, Hend. rewrite He in Hin. apply elem_of_app in Hin as [Hin|[-> |[-> |Hin]%elem_of_cons]%elem_of_cons].
      - pose proof (Hpre l (in_chunk _ c l Hin Hl)). lia.
      - lia.
      - lia.
      - pose proof (Hpost f (in_chunk _ c f Hin Hf')).
        destruct (chunk_facts _ Hok Hinc _ _ _ He') as (_ & _ & _ & Hch' & _ & _ & _). lia. }
    unfold read. destruct max as [|max]; [lia|]. cbn [read_loop].
    assert (Hsafe : env_safe org t p wd (envs max)).
    { destruct (Hg max) as (H1 & H2 & _ & _ & H3). split; [by left|]. split; [by left|]. by rewrite H3. }
    pose proof (find_segment_right org t p prefix committed wd Hst start (envs max) r Hr Hsafe) as Hfind.
    destruct (find_segment start (envs max) r) as [r1 found]. destruct Hfind as [_ [-> |[_ Hn]]].
    + by rewrite Hnone.
    + by destruct (Hn (Hg max)).
Qed.
End end_to_end.
