(* ===== verification/ReaderExamples.v ===== *)
(** * The partition reader at work

    Reads of the partition of [PartitionExamples], and of one with a gap. *)

From coqutil Require Import Byte.
From S2P Require Import Prelude Core External Segment StorageError Lru WalHandle MetadataError Catalog CatalogFacts PartitionWriter PartitionWriterFacts PartitionLogFacts PartitionRecoveryFacts PartitionExamples SegmentIndex SegmentCache PartitionReader.

(** ** The cache *)

Definition file (n : Byte.byte) (size : nat) : bytes := repeat n size.

(** Three files of 40 bytes in a cache of 100: the third pushes out the one not read again. *)
Definition fetches : list (string * bytes) :=
  [("a", file Init.Byte.x01 40); ("b", file Init.Byte.x02 40); ("a", file Init.Byte.x01 40);
   ("c", file Init.Byte.x03 40)]%string.


(** ** Reads *)

Definition working (wd : world) (i : nat) : read_env :=
  let rows := get_segments "acme" "orders" 0 (catalog wd) in
  mk_read_env 30 (Ok rows) (Ok rows) None None "404" (fun _ => true) WriteOk.

Lemma working_good wd i : env_good "acme" "orders" 0 wd (working wd i).
Proof. by split. Qed.

Lemma working_safe wd i : env_safe "acme" "orders" 0 wd (working wd i).
Proof. split; [by left|]. by split; [left|]. Qed.

Definition consumer : PartitionReader := PartitionReader.new "acme" "orders" 0 (SegmentCache.new ∅ 1000).

Lemma consumer_ok wd :
  (length (get_segments "acme" "orders" 0 (catalog wd)) <=? 5)%nat = true -> reader_ok "acme" "orders" 0 wd consumer.
Proof. intros H%Nat.leb_le. apply new_reader_ok; [done|lia]. Qed.

(** The offsets and the watermark of a read. *)
Definition answer (r : outcome StorageError ReadResult) : option (list Z * Z) :=
  match r with Ok r => Some (map r_offset (rr_records r), rr_high_watermark r) | _ => None end.

(** From the second record on: of the three stored ones, two are left; at the fourth, which
    is buffered still, nothing is found. *)
Lemma acknowledged_is_read_witness :
  exists wd', answer (snd (read (objects wd') 1 10 (working wd') (Ok (get_partition "acme" "orders" 0 (catalog wd'))) consumer))
              = Some ([1; 2], 3)
  /\ snd (read (objects wd') 3 10 (working wd') (Ok (get_partition "acme" "orders" 0 (catalog wd'))) consumer)
     = Err (SOffsetNotFound 3).
Proof.
  destruct opens as [w Hnew]. destruct (run calls w acme) as [[[w' wd'] log] failed] eqn:Hrun.
  assert (Hfacts : match PartitionWriter.new "acme" "orders" 0 default_write_config "data" [] opening acme with
                   | Ok w => let '(w', wd', log, failed) := run calls w acme in
                             (fits_now wd', failed, map r_offset log, length (buffered_records w'),
                              (length (get_segments "acme" "orders" 0 (catalog wd')) <=? 5)%nat)
                   | _ => (false, true, [], 0%nat, false)
                   end = (true, false, [0; 1; 2; 3], 1%nat, true)) by by_computation.
  rewrite Hnew, Hrun in Hfacts. injection Hfacts as Hfit -> Hlog Hb Hrows.
  destruct (acknowledged_is_read "acme" "orders" 0 default_write_config "data" opening calls acme w w' wd' log)
    as (stored & Hst & Hread).
  - exact acme_fresh.
  - lia.
  - reflexivity.
  - exact Hnew.
  - inputs_fit.
  - reflexivity.
  - exact Hrun.
  - by apply fits_now_fits.
  - unfold consecutive. rewrite <- (length_map r_offset log), Hlog. by_computation.
  - exists wd'. assert (Hoff : map r_offset stored = [0; 1; 2]).
    { rewrite Hst, map_app in Hlog. assert (Hl : length (map r_offset stored) = 3%nat).
      { apply (f_equal length) in Hlog. rewrite length_app, (length_map _ (buffered_records w')), Hb in Hlog. cbn in Hlog. lia. }
      apply (f_equal (take 3)) in Hlog. rewrite take_app_length' in Hlog by done. exact Hlog. }
    assert (Hlen : len stored = 3) by by rewrite <- (length_map r_offset stored), Hoff.
    split.
    + pose proof (Hread consumer 1 10%nat (working wd') (consumer_ok wd' Hrows) (working_safe wd') ltac:(lia)) as H.
      destruct (read (objects wd') 1 10 _ _ consumer) as [r' res]. destruct H as [H _].
      destruct H as [_ [-> |[_ Hn]]]; [lia| |by destruct Hn; apply working_good].
      cbn [snd answer rr_records rr_high_watermark]. rewrite Hlen.
      rewrite <- firstn_map, <- skipn_map, map_map. cbn [SegmentFacts.normalise r_offset].
      change (map (fun x => r_offset x) stored) with (map r_offset stored). by rewrite Hoff.
    + pose proof (Hread consumer 3 10%nat (working wd') (consumer_ok wd' Hrows) (working_safe wd') ltac:(lia)) as H.
      destruct (read (objects wd') 3 10 _ _ consumer) as [r' res]. destruct H as [_ H].
      apply H; [lia|intros i; apply working_good|lia].
Defined.

(** The flush of the second record fails and loses it, the third is stored: a consumer at the
    second record never reaches the third. *)
Definition gap_calls : list call :=
  [CAppend (order Init.Byte.x01 10) (clock 11); CFlushDurable (roll good_put 12);
   CAppend (order Init.Byte.x02 13) (clock 14); CFlushDurable (roll bad_put 15);
   CAppend (order Init.Byte.x03 16) (clock 17); CFlushDurable (roll good_put 18)].

Lemma gap_stops_reader_witness :
  exists wd' log,
    map r_offset log = [0; 1; 2]
    /\ snd (read (objects wd') 1 10 (working wd') (Ok (get_partition "acme" "orders" 0 (catalog wd'))) consumer)
       = Err (SOffsetNotFound 1).
Proof.
  destruct opens as [w Hnew]. destruct (run gap_calls w acme) as [[[w' wd'] log] failed] eqn:Hrun.
  assert (Hfacts : match PartitionWriter.new "acme" "orders" 0 default_write_config "data" [] opening acme with
                   | Ok w => let '(w', wd', log, failed) := run gap_calls w acme in
                             (fits_now wd', map r_offset log,
                              map (fun s => (si_base_offset s, si_end_offset s)) (get_segments "acme" "orders" 0 (catalog wd')))
                   | _ => (false, [], [])
                   end = (true, [0; 1; 2], [(0, 0); (2, 2)])) by by_computation.
  rewrite Hnew, Hrun in Hfacts. injection Hfacts as Hfit Hlog Hrows.
  destruct (fresh_run "acme" "orders" 0 default_write_config "data" opening gap_calls acme w w' wd' log failed acme_fresh
              ltac:(lia) eq_refl Hnew ltac:(inputs_fit) eq_refl Hrun) as (committed & _ & Hst & _).
  pose proof (rows_describe _ _ _ _ _ _ Hst) as H2.
  assert (Hok : reader_ok "acme" "orders" 0 wd' consumer).
  { apply consumer_ok. rewrite <- (length_map (fun s => (si_base_offset s, si_end_offset s))). by rewrite Hrows. }
  destruct H2 as [|ch s1 [|ch' [|? ?]] rows (Hb1 & He1 & _) H2]; [discriminate Hrows|by inversion H2; subst| |].
  - apply Forall2_cons_inv_l in H2 as (s2 & rest & (Hb2 & He2 & _) & _ & ->). injection Hrows as H1 H3 H4 _ _.
    exists wd', log. split; [exact Hlog|].
    apply (gap_stops_reader "acme" "orders" 0 "data" [ch; ch'] wd' consumer 1 10 (working wd') [] ch ch' []).
    + exact Hst.
    + by apply fits_now_fits.
    + reflexivity.
    + lia.
    + exact Hok.
    + intros i. apply working_good.
    + lia.
  - apply Forall2_cons_inv_l in H2 as (s2 & rest & _ & H2 & ->).
    apply Forall2_cons_inv_l in H2 as (s3 & rest' & _ & _ & ->). discriminate Hrows.
Defined.
