(* ===== verification/KafkaFetch.v ===== *)
(** * Fetch requests (crates/streamhouse-kafka/src/handlers/fetch.rs)

    The handler reads each partition with a new partition reader over the shared cache of
    segments.  What the metadata store and the quotas answer are arguments. *)

From S2P Require Import Prelude Core Varint External Segment SegmentFacts KafkaTypes KafkaCodec KafkaCodecFacts Lru MetadataError StorageError WalHandle Catalog CatalogFacts PartitionWriter PartitionWriterFacts PartitionLogFacts KafkaBatch SegmentIndex SegmentCache PartitionReader.

Record FetchPartition : Type := mk_fetch_partition { fp_partition : Z; fp_fetch_offset : Z; fp_partition_max_bytes : Z }.

Record FetchPartitionResponse : Type := mk_fetch_response {
  fr_partition_index : Z;
  fr_error_code : ErrorCode.ErrorCode;
  fr_high_watermark : Z;
  fr_last_stable_offset : Z;
  fr_log_start_offset : Z;
  fr_records : option bytes
}.

Record FetchTopicResponse : Type := mk_topic_response { ft_name : string; ft_partitions : list FetchPartitionResponse }.

(** What the fetch of a partition meets: the partition, its stable offset, the topic, the
    accesses of the reader, and the partition again. *)
Record fetch_env : Type := mk_fetch_env {
  fe_partition : outcome MetadataError (option Partition);
  fe_stable : outcome MetadataError Z;
  fe_topic : outcome MetadataError (option Topic);
  fe_reads : nat -> read_env;
  fe_watermark : outcome MetadataError (option Partition)
}.

Section fetch.
Context `{HC : Codecs} `{HP : ObjectPaths} `{HL : LruCache string Z} `{Crc32c}.

(** ** Requests *)

Definition skip_tags : parser () := fun buf => buf ← skip_tagged_fields buf; Ok ((), buf).

Definition parse_fetch_partition_flexible : parser FetchPartition := fun buf =>
  '(partition, buf) ← get_signed 4 buf;
  '(_, buf) ← get_signed 4 buf;
  '(fetch_offset, buf) ← get_signed 8 buf;
  '(_, buf) ← get_signed 4 buf;
  '(_, buf) ← get_signed 8 buf;
  '(partition_max_bytes, buf) ← get_signed 4 buf;
  '(_, buf) ← skip_tags buf;
  Ok (mk_fetch_partition partition fetch_offset partition_max_bytes, buf).

Definition parse_fetch_partition (api_version : Z) : parser FetchPartition := fun buf =>
  '(partition, buf) ← get_signed 4 buf;
  '(_, buf) ← (if 9 <=? api_version then get_signed 4 buf else Ok (-1, buf));
  '(fetch_offset, buf) ← get_signed 8 buf;
  '(_, buf) ← (if 5 <=? api_version then get_signed 8 buf else Ok (-1, buf));
  '(partition_max_bytes, buf) ← get_signed 4 buf;
  Ok (mk_fetch_partition partition fetch_offset partition_max_bytes, buf).

(** A [FetchPartition] takes 16 bytes of a [Vec], a name with a [Vec] 48. *)
Definition parse_fetch_topic_flexible : parser (string * list FetchPartition) := fun buf =>
  '(name, buf) ← parse_compact_string buf;
  '(partitions, buf) ← parse_compact_array 16 parse_fetch_partition_flexible buf;
  '(_, buf) ← skip_tags buf;
  Ok ((name, partitions), buf).

Definition parse_fetch_topic (api_version : Z) : parser (string * list FetchPartition) := fun buf =>
  '(name, buf) ← parse_string buf;
  '(partitions, buf) ← parse_array 16 (parse_fetch_partition api_version) buf;
  Ok ((name, partitions), buf).

Definition parse_forgotten : parser () := fun buf =>
  '(_, buf) ← parse_compact_string buf;
  '(_, buf) ← parse_compact_array 4 (get_signed 4) buf;
  skip_tags buf.

(** The isolation level and the topics; nothing else of the request is used. *)
Definition parse_request (api_version : Z) (body : bytes) : outcome KafkaError (Z * list (string * list FetchPartition)) :=
  if 12 <=? api_version then
    let body := if 15 <=? api_version then skip_compact_string body else body in
    '(_, body) ← get_signed 4 body;
    '(_, body) ← get_signed 4 body;
    '(_, body) ← get_signed 4 body;
    '(_, body) ← get_signed 4 body;
    '(isolation_level, body) ← get_signed 1 body;
    '(_, body) ← get_signed 4 body;
    '(_, body) ← get_signed 4 body;
    '(topics, body) ← parse_compact_array 48 parse_fetch_topic_flexible body;
    '(_, body) ← parse_compact_array 0 parse_forgotten body;
    let body := skip_compact_string body in
    '(_, _) ← skip_tags body;
    Ok (isolation_level, topics)
  else
    '(_, body) ← get_signed 4 body;
    '(_, body) ← get_signed 4 body;
    '(_, body) ← get_signed 4 body;
    '(_, body) ← (if 3 <=? api_version then get_signed 4 body else Ok (2 ^ 31 - 1, body));
    '(isolation_level, body) ← (if 4 <=? api_version then get_signed 1 body else Ok (0, body));
    '(_, body) ← (if 7 <=? api_version then get_signed 4 body else Ok (0, body));
    '(_, body) ← (if 7 <=? api_version then get_signed 4 body else Ok (-1, body));
    '(topics, _) ← parse_array 48 (parse_fetch_topic api_version) body;
    Ok (isolation_level, topics).

(** ** Reading *)

(** [(max_bytes / 100).clamp(1, 10000)]. *)
Definition max_records (max_bytes : Z) : nat := Z.to_nat (Z.min 10000 (Z.max 1 (max_bytes / 100))).

(** Errors of the reader are logged and answered as no records. *)
Definition read_records (objects : object_map) (org_id topic : string) (partition offset max_bytes : Z) (env : fetch_env)
    (cache : SegmentCache) : SegmentCache * outcome KafkaError bytes :=
  match fe_topic env with
  | Ok (Some _) =>
      let '(r, read_result) :=
        read objects offset (max_records max_bytes) (fe_reads env) (fe_watermark env)
          (PartitionReader.new org_id topic partition cache) in
      (rd_cache r,
       match read_result with
       | Ok result =>
           match rr_records result with
           | [] => Ok []
           | first :: _ =>
               Ok (build_record_batch_from_records (r_offset first) (swrap 64 (r_timestamp first)) (rr_records result))
           end
       | Err _ => Ok []
       | Panic => Panic
       end)
  | Panic => (cache, Panic)
  | _ => (cache, Ok [])
  end.

(** [iN::from_be_bytes] of the bytes from [at] on. *)
Definition be_at (n at_ : nat) (data : bytes) : Z :=
  match get_be n (drop at_ data) with Some (v, _) => swrap (8 * Z.of_nat n) v | None => 0 end.

(** For a reader of committed records: no batch that reaches the bound. *)
Definition committed_only (effective_max_offset : Z) (data : bytes) : option bytes :=
  if 27 <=? len data then
    let base := wrap 64 (be_at 8 0 data) in
    let last_offset_delta := wrap 64 (be_at 4 23 data) in
    if effective_max_offset <=? wrap 64 (base + last_offset_delta) then None else Some data
  else Some data.

Definition fetch_partition (objects : object_map) (org_id topic : string) (partition offset max_bytes isolation_level : Z)
    (env : fetch_env) (cache : SegmentCache) : SegmentCache * outcome KafkaError FetchPartitionResponse :=
  let failed code := (cache, Ok (mk_fetch_response (swrap 32 partition) code (-1) (-1) 0 None)) in
  match fe_partition env with
  | Ok (Some partition_info) =>
      let high_watermark := swrap 64 (p_high_watermark partition_info) in
      let last_stable_offset :=
        if isolation_level =? 1 then match fe_stable env with Ok lso => swrap 64 lso | _ => high_watermark end
        else high_watermark in
      let effective_max_offset := if isolation_level =? 1 then wrap 64 last_stable_offset else 2 ^ 64 - 1 in
      let answer records := Ok (mk_fetch_response (swrap 32 partition) ErrorCode.None high_watermark last_stable_offset 0 records) in
      if effective_max_offset <=? offset then (cache, answer None)
      else
        match read_records objects org_id topic partition offset max_bytes env cache with
        | (cache, Ok data) =>
            (cache, answer (if (isolation_level =? 1) && negb (bool_decide (data = []))
                            then committed_only effective_max_offset data else Some data))
        | (cache, Err _) => (cache, answer None)
        | (cache, Panic) => (cache, Panic)
        end
  | Ok None => failed ErrorCode.UnknownTopicOrPartition
  | Err _ => failed ErrorCode.UnknownServerError
  | Panic => (cache, Panic)
  end.

(** [envs]: what each partition of the topic meets. *)
Fixpoint fetch_partitions (objects : object_map) (org_id topic : string) (isolation_level : Z) (fps : list FetchPartition)
    (envs : nat -> fetch_env) (cache : SegmentCache) : SegmentCache * outcome KafkaError (list FetchPartitionResponse) :=
  match fps with
  | [] => (cache, Ok [])
  | fp :: fps =>
      match fetch_partition objects org_id topic (wrap 32 (fp_partition fp)) (wrap 64 (fp_fetch_offset fp))
              (wrap 64 (fp_partition_max_bytes fp)) isolation_level (envs 0%nat) cache with
      | (cache, Ok response) =>
          let '(cache, rest) := fetch_partitions objects org_id topic isolation_level fps (fun i => envs (S i)) cache in
          (cache, rest ← rest; Ok (response :: rest))
      | (cache, Err e) => (cache, Err e)
      | (cache, Panic) => (cache, Panic)
      end
  end.

Fixpoint fetch_topics (objects : object_map) (org_id : string) (isolation_level : Z) (topics : list (string * list FetchPartition))
    (envs : nat -> nat -> fetch_env) (cache : SegmentCache) : SegmentCache * outcome KafkaError (list FetchTopicResponse) :=
  match topics with
  | [] => (cache, Ok [])
  | (name, fps) :: topics =>
      match fetch_partitions objects org_id name isolation_level fps (envs 0%nat) cache with
      | (cache, Ok partitions) =>
          let '(cache, rest) := fetch_topics objects org_id isolation_level topics (fun i => envs (S i)) cache in
          (cache, rest ← rest; Ok (mk_topic_response name partitions :: rest))
      | (cache, Err e) => (cache, Err e)
      | (cache, Panic) => (cache, Panic)
      end
  end.

(** ** Responses *)

Definition encode_partition_flexible (buf : bytes) (p : FetchPartitionResponse) : bytes :=
  let buf := buf ++ put_be 4 (fr_partition_index p) ++ put_be 2 (ErrorCode.as_i16 (fr_error_code p))
               ++ put_be 8 (fr_high_watermark p) ++ put_be 8 (fr_last_stable_offset p) ++ put_be 8 (fr_log_start_offset p)
               ++ put_be 4 (-1) ++ put_be 8 (-1) ++ put_be 4 (-1) ++ put_be 4 (-1) ++ put_be 8 (-1) ++ put_be 4 (-1) in
  let buf := encode_unsigned_varint buf 1 ++ put_be 4 (-1) in
  encode_empty_tagged_fields (encode_compact_nullable_bytes buf (fr_records p)).

Definition encode_partition (api_version : Z) (buf : bytes) (p : FetchPartitionResponse) : bytes :=
  let buf := buf ++ put_be 4 (fr_partition_index p) ++ put_be 2 (ErrorCode.as_i16 (fr_error_code p))
               ++ put_be 8 (fr_high_watermark p) in
  let buf := if 4 <=? api_version then buf ++ put_be 8 (fr_last_stable_offset p) else buf in
  let buf := if 5 <=? api_version then buf ++ put_be 8 (fr_log_start_offset p) else buf in
  let buf := if 4 <=? api_version then buf ++ put_be 4 (-1) else buf in
  let buf := if 11 <=? api_version then buf ++ put_be 4 (-1) else buf in
  encode_nullable_bytes buf (fr_records p).

Definition encode_response (api_version throttle_time_ms : Z) (topics : list FetchTopicResponse) : bytes :=
  if 12 <=? api_version then
    let response := put_be 4 throttle_time_ms ++ put_be 2 (ErrorCode.as_i16 ErrorCode.None) ++ put_be 4 0 in
    let response := encode_unsigned_varint response (len topics + 1) in
    let response :=
      foldl (fun response topic =>
        let response := encode_compact_string response (ft_name topic) in
        let response := encode_unsigned_varint response (len (ft_partitions topic) + 1) in
        encode_empty_tagged_fields (foldl encode_partition_flexible response (ft_partitions topic))) response topics in
    encode_empty_tagged_fields response
  else
    let response := if 1 <=? api_version then put_be 4 throttle_time_ms else [] in
    let response := if 7 <=? api_version then response ++ put_be 2 (ErrorCode.as_i16 ErrorCode.None) ++ put_be 4 0 else response in
    let response := response ++ put_be 4 (len topics) in
    foldl (fun response topic =>
      let response := encode_string response (ft_name topic) ++ put_be 4 (len (ft_partitions topic)) in
      foldl (encode_partition api_version) response (ft_partitions topic)) response topics.

(** [consume_throttle]: the milliseconds of the quotas, where there are quotas and the bytes
    are too many. *)
Definition handle_fetch (objects : object_map) (org_id : string) (header : RequestHeader) (body : bytes) (throttle_time_ms : Z)
    (consume_throttle : Z -> option Z) (envs : nat -> nat -> fetch_env) (cache : SegmentCache)
  : SegmentCache * outcome KafkaError bytes :=
  match parse_request (rh_api_version header) body with
  | Ok (isolation_level, topics) =>
      let '(cache, responses) := fetch_topics objects org_id isolation_level topics envs cache in
      (cache,
       responses ← responses;
       let total_consume_bytes :=
         foldl Z.add 0 (map (fun p => match fr_records p with Some data => len data | None => 0 end)
                          (concat (map ft_partitions responses))) in
       let throttle_time_ms :=
         if 0 <? total_consume_bytes then
           match consume_throttle total_consume_bytes with Some ms => Z.max throttle_time_ms ms | None => throttle_time_ms end
         else throttle_time_ms in
       Ok (encode_response (rh_api_version header) throttle_time_ms responses))
  | Err e => (cache, Err e)
  | Panic => (cache, Panic)
  end.
End fetch.

(** ** Facts *)

(** ** The reader of a request *)

Section reader.
Context `{HC : Codecs} `{HP : ObjectPaths} `{HL : LruCache string Z}.

Definition same_partition (r r' : PartitionReader) : Prop :=
  rd_org_id r' = rd_org_id r /\ rd_topic r' = rd_topic r /\ rd_partition_id r' = rd_partition_id r.

Lemma find_segment_same offset env r : same_partition r (fst (find_segment offset env r)).
Proof. unfold find_segment. by destruct (SegmentIndex.find_segment_for_offset _ _ _ _ _). Qed.

Lemma get_segment_same objects info env r : same_partition r (fst (get_segment objects info env r)).
Proof.
  unfold get_segment. destruct (get _ _ _) as [c [[data|]|e|]]; try done.
  destruct (download objects info env); try done. by destruct (put _ _ _ _ _).
Qed.

Lemma same_trans r r1 r2 : same_partition r r1 -> same_partition r1 r2 -> same_partition r r2.
Proof. intros (H1 & H2 & H3) (H4 & H5 & H6). unfold same_partition. by rewrite H4, H5, H6. Qed.

Lemma read_loop_same fuel objects start max envs rs o r : same_partition r (fst (read_loop fuel objects start max envs rs o r)).
Proof.
  revert rs o r. induction fuel as [|fuel IH]; intros rs o r; cbn [read_loop]; [done|].
  destruct (_ <? _)%nat; [|done]. pose proof (find_segment_same o (envs fuel) r) as H1.
  destruct (find_segment o (envs fuel) r) as [r1 [[s|]|e|]]; cbn [fst] in H1; try done.
  pose proof (get_segment_same objects s (envs fuel) r1) as H2.
  destruct (get_segment objects s (envs fuel) r1) as [r2 [data|e|]]; cbn [fst] in H2; try by eapply same_trans.
  pose proof (same_trans _ _ _ H1 H2) as H3.
  destruct (decode data o) as [[|x l]|e|]; try done. destruct (_ <=? _)%nat; [|done]. eapply same_trans; [done|apply IH].
Qed.

Lemma read_same objects start max envs partition r : same_partition r (fst (read objects start max envs partition r)).
Proof.
  unfold read. pose proof (read_loop_same max objects start max envs [] start r) as Hs. by destruct (read_loop _ _ _ _ _ _ _ _).
Qed.
End reader.

Section serving.
Context `{HC : Codecs} `{!CodecLaws HC} `{HP : ObjectPaths} `{!ObjectPathLaws HP} `{HJ : JsonMaps}.
Context `{HL : LruCache string Z} `{Crc32c}.
Context (org t : string) (p : Z) (prefix : string) (committed : list (list Record_)) (wd : world).
Context (Hst : store_ok org t p prefix committed wd) (Hfit : objects_fit wd) (Hcons : consecutive 0 (concat committed)).

Let log := map normalise (concat committed).

(** A metadata store that knows the partition, and accesses that work. *)
Definition working_env (topic : Topic) (env : fetch_env) : Prop :=
  fe_partition env = Ok (get_partition org t p (catalog wd)) /\ fe_topic env = Ok (Some topic)
  /\ (forall i, env_good org t p wd (fe_reads env i)) /\ fe_watermark env = Ok (get_partition org t p (catalog wd)).

Definition cache_right (c : SegmentCache) : Prop := reader_ok org t p wd (PartitionReader.new org t p c).

Lemma good_safe env : env_good org t p wd env -> env_safe org t p wd env.
Proof. intros (H1 & H2 & _ & _ & H3). split; [by left|]. split; [by left|]. by rewrite H3. Qed.

Lemma cache_right_read r c : reader_ok org t p wd r -> same_partition (PartitionReader.new org t p c) r -> cache_right c -> cache_right (rd_cache r).
Proof.
  intros [_ Hc] (H1 & H2 & H3) [Hi _]. split; [exact Hi|]. intros s data Hs Hf. apply (Hc s data Hs).
  cbn [rd_org_id rd_topic rd_partition_id PartitionReader.new] in *. unfold cache_key, partition_prefix in *.
  rewrite H1, H2, H3. exact Hf.
Qed.

Lemma log_length : len log = len (concat committed).
Proof. unfold log. by rewrite length_map. Qed.

Lemma joined_committed : joined committed.
Proof.
  apply (consecutive_joined 0); [|done]. apply (Forall_impl _ _ _ (so_records _ _ _ _ _ _ Hst)). by intros ch [].
Qed.

Lemma mark_is : next_offset (concat committed) = len log.
Proof.
  rewrite log_length. destruct (decide (concat committed = [])) as [-> |Hne]; [done|]. by rewrite (consecutive_next 0).
Qed.

Lemma partition_known : get_partition org t p (catalog wd) = Some (mk_partition t p (len log)).
Proof.
  unfold get_partition. rewrite (so_mark _ _ _ _ _ _ Hst). cbn. rewrite mark_is, wrap_small; [done|].
  pose proof (so_bound _ _ _ _ _ _ Hst). rewrite mark_is in *. unfold in_u. lia.
Qed.

Definition window (max_bytes : Z) (offset : Z) : list Record_ := take (max_records max_bytes) (drop (Z.to_nat offset) log).

Lemma max_records_pos max_bytes : (0 < max_records max_bytes)%nat.
Proof. unfold max_records. lia. Qed.

Lemma window_first max_bytes offset :
  0 <= offset < len log -> exists r rest, window max_bytes offset = r :: rest /\ r_offset r = offset /\ log !! Z.to_nat offset = Some r.
Proof.
  intros Ho. unfold window. destruct (drop (Z.to_nat offset) log) as [|r rest] eqn:Hd.
  { apply (f_equal length) in Hd. rewrite length_drop in Hd. cbn in Hd. lia. }
  pose proof (max_records_pos max_bytes). destruct (max_records max_bytes) as [|m]; [lia|]. exists r, (take m rest). split; [done|].
  assert (Hr : log !! Z.to_nat offset = Some r) by (rewrite <- (Nat.add_0_r (Z.to_nat offset)), <- lookup_drop, Hd; done).
  split; [|done]. unfold log in Hr. rewrite list_lookup_fmap in Hr.
  destruct (concat committed !! Z.to_nat offset) as [x|] eqn:Hx; [|done]. injection Hr as <-. cbn.
  assert (Hox : map r_offset (concat committed) !! Z.to_nat offset = Some (r_offset x)) by (by rewrite list_lookup_fmap, Hx).
  unfold consecutive in Hcons. rewrite Hcons in Hox. apply lookup_seqZ in Hox. lia.
Qed.

(** Reading at an offset that is stored. *)
Lemma read_records_stored topic env cache offset max_bytes :
  working_env topic env -> cache_right cache -> 0 <= offset < len log ->
  exists cache' r rest,
    window max_bytes offset = r :: rest
    /\ read_records (objects wd) org t p offset max_bytes env cache
       = (cache', Ok (build_record_batch_from_records offset (swrap 64 (r_timestamp r)) (window max_bytes offset)))
    /\ cache_right cache'.
Proof.
  intros (H1 & H2 & H3 & H4) Hc Ho. destruct (window_first max_bytes offset Ho) as (r & rest & Hw & Hr & _).
  unfold read_records. rewrite H2, H4.
  pose proof (read_right org t p prefix committed wd Hst Hfit joined_committed offset (max_records max_bytes) (fe_reads env)
    (Ok (get_partition org t p (catalog wd))) (PartitionReader.new org t p cache) Hc (fun i => good_safe _ (H3 i))) as Hread.
  assert (Hfirst : first_offset (concat committed) = 0).
  { apply (consecutive_last 0); [|done]. intros He. rewrite log_length, He in Ho. cbn in Ho. lia. }
  rewrite Hfirst, mark_is in Hread. specialize (Hread Ho ltac:(by left)).
  pose proof (read_same (objects wd) offset (max_records max_bytes) (fe_reads env) (Ok (get_partition org t p (catalog wd)))
    (PartitionReader.new org t p cache)) as Hsame.
  destruct (read _ _ _ _ _ _) as [r' res]. destruct Hread as [Hr' Hres]. cbn [fst] in Hsame.
  destruct Hres as [-> |[_ Hn]]; [|by destruct Hn].
  rewrite (consecutive_after 0) by (done || lia). rewrite Z.sub_0_r. cbn [rr_records].
  fold log. fold (window max_bytes offset). rewrite Hw. exists (rd_cache r'), r, rest. split; [done|]. split.
  - by rewrite Hr.
  - by apply (cache_right_read r' cache).
Qed.

(** One fetch there. *)
Lemma fetch_stored topic env cache offset max_bytes isolation_level :
  working_env topic env -> cache_right cache -> 0 <= offset < len log -> isolation_level <> 1 ->
  exists cache' r rest,
    window max_bytes offset = r :: rest
    /\ fetch_partition (objects wd) org t p offset max_bytes isolation_level env cache
       = (cache', Ok (mk_fetch_response (swrap 32 p) ErrorCode.None (len log) (len log) 0
                        (Some (build_record_batch_from_records offset (swrap 64 (r_timestamp r)) (window max_bytes offset)))))
    /\ cache_right cache'.
Proof.
  intros Henv Hc Ho Hiso. destruct (read_records_stored topic env cache offset max_bytes Henv Hc Ho) as (cache' & r & rest & Hw & Hr & Hc').
  pose proof (so_bound _ _ _ _ _ _ Hst) as Hb. rewrite mark_is in Hb. exists cache', r, rest. split; [done|]. split; [|done].
  unfold fetch_partition. rewrite (proj1 Henv), partition_known. cbn [p_high_watermark]. destruct (Z.eqb_spec isolation_level 1); [done|].
  destruct (Z.leb_spec (2 ^ 64 - 1) offset); [lia|]. rewrite Hr. cbn [andb]. by rewrite swrap64_small by lia.
Qed.

(** Beyond the stored records: no records, and no error. *)
Lemma fetch_beyond topic env cache offset max_bytes isolation_level :
  working_env topic env -> cache_right cache -> len log <= offset < 2 ^ 64 - 1 -> isolation_level <> 1 ->
  snd (fetch_partition (objects wd) org t p offset max_bytes isolation_level env cache)
  = Ok (mk_fetch_response (swrap 32 p) ErrorCode.None (len log) (len log) 0 (Some [])).
Proof.
  intros (H1 & H2 & H3 & H4) Hc Ho Hiso. pose proof (so_bound _ _ _ _ _ _ Hst) as Hb. rewrite mark_is in Hb.
  unfold fetch_partition. rewrite H1, partition_known. cbn [p_high_watermark]. destruct (Z.eqb_spec isolation_level 1); [done|].
  destruct (Z.leb_spec (2 ^ 64 - 1) offset); [lia|]. unfold read_records. rewrite H2, H4. cbn [andb].
  pose proof (read_beyond org t p prefix committed wd Hst offset (max_records max_bytes) (fe_reads env)
    (Ok (get_partition org t p (catalog wd))) (PartitionReader.new org t p cache) Hc H3) as Hread.
  rewrite mark_is in Hread. specialize (Hread ltac:(lia) (max_records_pos max_bytes)).
  destruct (read _ _ _ _ _ _) as [r' res]. cbn [snd] in Hread. rewrite Hread. cbn. by rewrite swrap64_small by lia.
Qed.

Lemma log_offset i r : log !! i = Some r -> r_offset r = Z.of_nat i.
Proof.
  unfold log. rewrite list_lookup_fmap. destruct (concat committed !! i) as [x|] eqn:Hx; [|done]. intros [= <-]. cbn.
  assert (Hox : map r_offset (concat committed) !! i = Some (r_offset x)) by (by rewrite list_lookup_fmap, Hx).
  unfold consecutive in Hcons. rewrite Hcons in Hox. apply lookup_seqZ in Hox. lia.
Qed.

Lemma window_servable max_bytes offset :
  0 <= offset -> Forall (fun r => 0 <= r_timestamp r < 2 ^ 62) log -> Forall (servable offset) (window max_bytes offset).
Proof.
  intros Ho Ht. apply Forall_forall. intros r [i Hi]%list_elem_of_lookup. unfold window in Hi.
  apply lookup_take_Some in Hi as [Hi Hlt]. rewrite lookup_drop in Hi. rewrite Forall_forall in Ht.
  split; [|by apply Ht, (list_elem_of_lookup_2 _ _ _ Hi)]. rewrite (log_offset _ _ Hi).
  assert (Z.of_nat (max_records max_bytes) <= 10000) by (unfold max_records; lia). lia.
Qed.

(** ** A consumer *)

Definition view (r : Record_) : Z * Z * option bytes * option bytes := (r_offset r, r_timestamp r, r_key r, Some (r_value r)).

(** What a client takes from the bytes of a partition, and where it goes on. *)
Definition poll (offset : Z) (records : option bytes) : list (Z * Z * option bytes * option bytes) * Z :=
  match records with
  | Some data =>
      match dec_batch data with
      | Ok b => (client_view b, b_base_offset b + b_last_offset_delta b + 1)
      | _ => ([], offset)
      end
  | None => ([], offset)
  end.

(** Fetches one after the other, until nothing comes. *)
Fixpoint consume (fuel : nat) (max_bytes : Z) (envs : nat -> fetch_env) (offset : Z) (cache : SegmentCache)
  : list (Z * Z * option bytes * option bytes) :=
  match fuel with
  | O => []
  | S fuel =>
      match fetch_partition (objects wd) org t p offset max_bytes 0 (envs fuel) cache with
      | (cache, Ok response) =>
          match poll offset (fr_records response) with
          | ([], _) => []
          | (records, next) => records ++ consume fuel max_bytes envs next cache
          end
      | _ => []
      end
  end.

Lemma dec_batch_nil : dec_batch [] = Err (Protocol "").
Proof. done. Qed.

Lemma consume_from fuel max_bytes envs topic offset cache :
  (forall x, in_u 32 (crc32c x)) ->
  (forall i, working_env topic (envs i)) -> cache_right cache ->
  Forall (fun r => 0 <= r_timestamp r < 2 ^ 62) log -> len log < 2 ^ 62 ->
  (forall o r rest, 0 <= o < len log -> window max_bytes o = r :: rest ->
     len (build_record_batch_from_records o (swrap 64 (r_timestamp r)) (window max_bytes o)) < 2 ^ 31) ->
  0 <= offset <= len log -> (length log - Z.to_nat offset <= fuel)%nat ->
  consume fuel max_bytes envs offset cache = map view (drop (Z.to_nat offset) log).
Proof.
  intros Hcrc Henv Hc Ht Hlog Hsize Ho Hf. revert offset cache Hc Ho Hf. induction fuel as [|fuel IH]; intros offset cache Hc Ho Hf.
  - rewrite drop_ge by lia. done.
  - cbn [consume]. destruct (decide (offset = len log)) as [-> |Hne].
    + pose proof (fetch_beyond topic (envs fuel) cache (len log) max_bytes 0 (Henv fuel) Hc ltac:(lia) ltac:(lia)) as Hfetch.
      destruct (fetch_partition _ _ _ _ _ _ _ _ _) as [cache' res]. cbn [snd] in Hfetch. subst res. cbn [fr_records poll].
      rewrite dec_batch_nil, Nat2Z.id, drop_all. done.
    + destruct (fetch_stored topic (envs fuel) cache offset max_bytes 0 (Henv fuel) Hc ltac:(lia) ltac:(lia))
        as (cache' & r & rest & Hw & -> & Hc'). cbn [fr_records poll].
      destruct (window_first max_bytes offset ltac:(lia)) as (r' & rest' & Hw' & Hr & Hin). rewrite Hw in Hw'. injection Hw' as <- <-.
      assert (Hts : 0 <= r_timestamp r < 2 ^ 62).
      { rewrite Forall_forall in Ht. by apply Ht, (list_elem_of_lookup_2 _ _ _ Hin). }
      destruct (batch_served offset (swrap 64 (r_timestamp r)) (window max_bytes offset)) as (b & -> & -> & -> & -> & _);
        [done|lia|rewrite swrap64_small by lia; lia|by apply window_servable; [lia|]|by rewrite Hw|by apply (Hsize offset r rest); [lia|]|].
      set (w := window max_bytes offset) in *.
      assert (Hne' : map (fun r => (r_offset r, r_timestamp r, r_key r, Some (r_value r))) w = map view w) by done.
      rewrite Hne'. assert (Hsplit : drop (Z.to_nat offset) log = w ++ drop (Z.to_nat (offset + len w)) log).
      { unfold w, window. rewrite <- (take_drop (max_records max_bytes) (drop (Z.to_nat offset) log)) at 1. f_equal.
        rewrite drop_drop, length_take, length_drop. destruct (decide (max_records max_bytes <= length log - Z.to_nat offset)%nat).
        - f_equal. lia.
        - rewrite !drop_ge by lia. done. }
      assert (Hwl : (1 <= length w)%nat) by (rewrite Hw; cbn; lia).
      assert (Hwl' : (length w <= length log - Z.to_nat offset)%nat).
      { unfold w, window. rewrite length_take, length_drop. lia. }
      replace (offset + (len w - 1) + 1) with (offset + len w) by lia.
      rewrite (IH (offset + len w) cache' Hc' ltac:(lia) ltac:(lia)).
      rewrite Hsplit, map_app. rewrite Hw at 1. cbn [map]. by rewrite Hw.
Qed.

(** C9: a Kafka consumer of uncommitted records (isolation level 0) reads the whole log.  On a
    partition whose stored records are consecutive from 0, a consumer that starts at 0 and
    fetches on from the end of each batch gets every stored record, with its offset,
    timestamp, key and value, exactly once and in order, however small its fetches are; as
    many fetches as there are records are enough.  Provisos: every access of its fetches
    succeeds; the partition has at most 10,000 segments, which is what the reader's index
    holds, and the cache holds, of the partition, only what the store has; timestamps are below 2^62, the log shorter
    than 2^62 and a served batch below 2^31 bytes.  A consumer with isolation level 1 is not
    meant: it can get stuck before the end ([committed_reader_stuck]). *)
Theorem consumer_reads_log max_bytes envs topic cache fuel :
  (forall x, in_u 32 (crc32c x)) ->
  (forall i, working_env topic (envs i)) -> cache_right cache ->
  Forall (fun r => 0 <= r_timestamp r < 2 ^ 62) log -> len log < 2 ^ 62 ->
  (forall o r rest, 0 <= o < len log -> window max_bytes o = r :: rest ->
     len (build_record_batch_from_records o (swrap 64 (r_timestamp r)) (window max_bytes o)) < 2 ^ 31) ->
  (length log <= fuel)%nat ->
  stored_log org t p wd = Some log /\ consume fuel max_bytes envs 0 cache = map view log.
Proof.
  intros Hcrc Henv Hc Ht Hlog Hsize Hfuel. split; [by eapply store_ok_log|].
  rewrite (consume_from fuel max_bytes envs topic 0 cache); [done|done|done|done|done|done|done|lia|lia].
Qed.

(** ** Readers of committed records *)

Lemma be_at_put n pre v rest : (0 < n)%nat -> in_i (8 * Z.of_nat n) v -> be_at n (length pre) (pre ++ put_be n v ++ rest) = v.
Proof.
  intros Hn Hv. unfold be_at. rewrite drop_app_length. destruct (get_be_signed n v rest Hn Hv) as (u & -> & Hu). done.
Qed.

Lemma committed_only_build bound offset ts w :
  w <> [] -> 0 <= offset < 2 ^ 62 -> len w < 2 ^ 31 ->
  committed_only bound (build_record_batch_from_records offset ts w)
  = if bound <=? offset + len w - 1 then None else Some (build_record_batch_from_records offset ts w).
Proof.
  intros Hne Ho Hw. rewrite build_is_enc by done. set (b := served offset ts w). set (data := enc_batch b (KafkaBatch.plain b)).
  assert (Hlen : 61 <= len data) by (unfold data; rewrite length_enc_batch; lia).
  unfold committed_only. rewrite (proj2 (Z.leb_le 27 (len data))) by lia.
  assert (H1 : be_at 8 0 data = offset).
  { apply (be_at_put 8 [] offset); [lia|]. unfold in_i. change (2 ^ (8 * Z.of_nat 8 - 1)) with (2 ^ 63). lia. }
  assert (H2 : be_at 4 23 data = len w - 1).
  { unfold data, enc_batch, enc_rest, enc_checked. set (crc := crc32c _).
    pose proof (be_at_put 4 (put_be 8 (b_base_offset b) ++ put_be 4 (len (enc_rest b (KafkaBatch.plain b))) ++ put_be 4 (b_leader_epoch b) ++ put_be 1 2
      ++ put_be 4 crc ++ put_be 2 (b_attributes b)) (b_last_offset_delta b)
      (put_be 8 (b_first_timestamp b) ++ put_be 8 (b_max_timestamp b) ++ put_be 8 (b_producer_id b) ++ put_be 2 (b_producer_epoch b)
       ++ put_be 4 (b_base_sequence b) ++ put_be 4 (len (b_records b)) ++ KafkaBatch.plain b)) as Hbe.
    rewrite !length_app, !length_put_be in Hbe. rewrite <- !app_assoc in Hbe. apply Hbe; [lia|]. apply in_field4.
    cbn. assert (1 <= len w); [|lia]. destruct w; [done|cbn [length]; lia]. }
  rewrite H1, H2. assert (1 <= len w) by (destruct w; [done|cbn [length]; lia]).
  rewrite (wrap_small 64 offset), (wrap_small 64 (len w - 1)), wrap_small by (unfold in_u; lia). by replace (offset + (len w - 1)) with (offset + len w - 1) by lia.
Qed.

(** Readers of committed records get stuck.  The stable offset of a partition is where the
    last decided transaction of it ended, 0 without one.  A consumer with isolation
    level 1 gets no records at an offset from there on, although they are of no
    transaction; and none below it either when the batch that the reader would take
    reaches the stable offset, the stable records before it included. *)
Theorem committed_reader_stuck topic env cache offset max_bytes lso :
  working_env topic env -> cache_right cache -> 0 <= offset < len log -> len log < 2 ^ 62 ->
  fe_stable env = Ok lso -> 0 <= lso < 2 ^ 63 -> lso <= offset + len (window max_bytes offset) - 1 ->
  snd (fetch_partition (objects wd) org t p offset max_bytes 1 env cache)
  = Ok (mk_fetch_response (swrap 32 p) ErrorCode.None (len log) lso 0 None)
  /\ exists r, log !! Z.to_nat offset = Some r.
Proof.
  intros Henv Hc Ho Hlog Hs Hlso Hle. destruct (window_first max_bytes offset Ho) as (r0 & rest0 & Hw0 & _ & Hr0).
  split; [|by exists r0]. unfold fetch_partition. rewrite (proj1 Henv), partition_known. cbn [p_high_watermark].
  change (1 =? 1) with true. cbv iota. rewrite Hs, (swrap64_small lso), wrap_small by (unfold in_u; lia).
  rewrite swrap64_small by lia. destruct (Z.leb_spec lso offset); [done|].
  destruct (read_records_stored topic env cache offset max_bytes Henv Hc Ho) as (cache' & r & rest & Hw & -> & _).
  cbn [snd]. assert (Hne : window max_bytes offset <> []) by (by rewrite Hw).
  assert (Hwl : len (window max_bytes offset) < 2 ^ 31).
  { unfold window. rewrite length_take. assert (Z.of_nat (max_records max_bytes) <= 10000) by (unfold max_records; lia). lia. }
  rewrite bool_decide_eq_false_2.
  - cbn [negb andb]. rewrite committed_only_build by (done || lia). by rewrite (proj2 (Z.leb_le _ _) Hle).
  - rewrite build_is_enc by done. intros He. apply (f_equal length) in He.
    pose proof (length_enc_batch (served offset (swrap 64 (r_timestamp r)) (window max_bytes offset)) (KafkaBatch.plain (served offset (swrap 64 (r_timestamp r)) (window max_bytes offset)))) as Hl.
    cbn [length] in He. lia.
Qed.
End serving.
