(* ===== verification/KafkaExamples.v ===== *)
(** * Kafka clients at work

    The partition of [PartitionExamples] behind the Kafka handlers. *)

From coqutil Require Import Byte.
From S2P Require Import Prelude HashMap Core External Segment SegmentFacts StorageError Lru WalHandle MetadataError Catalog CatalogFacts PartitionWriter PartitionWriterFacts PartitionLogFacts PartitionRecoveryFacts PartitionExamples SegmentIndex SegmentCache PartitionReader ReaderExamples WriterPool Lease ProducerStore ProduceService AgentRouter ProduceFacts ProducerFacts ProduceExamples KafkaTypes KafkaCodec KafkaBatch KafkaProduce KafkaTxn KafkaProduceFacts KafkaFetch.

(** ** Fetching *)

Definition orders_topic : Catalog.Topic := Catalog.mk_topic "orders" 1 None Delete 5 ∅.

Definition fetching (wd : world) (stable : Z) : fetch_env :=
  mk_fetch_env (Ok (get_partition "acme" "orders" 0 (catalog wd))) (Ok stable) (Ok (Some orders_topic)) (working wd)
    (Ok (get_partition "acme" "orders" 0 (catalog wd))).

Definition orders_stored : list Record_ :=
  [mk_record 0 10 (Some [Init.Byte.x01]) [Init.Byte.x01; Init.Byte.x01]; mk_record 1 12 (Some [Init.Byte.x02]) [Init.Byte.x02; Init.Byte.x02];
   mk_record 2 13 None [Init.Byte.x09]].

(** The store after [calls]. *)
Lemma orders_store :
  exists wd' committed,
    store_ok "acme" "orders" 0 "data" committed wd' /\ objects_fit wd' /\ map normalise (concat committed) = orders_stored
    /\ consecutive 0 (concat committed) /\ (length (get_segments "acme" "orders" 0 (catalog wd')) <=? 5)%nat = true.
Proof.
  destruct opens as [w Hnew]. destruct (run calls w acme) as [[[w' wd'] log] failed] eqn:Hrun.
  assert (Hfacts : match PartitionWriter.new "acme" "orders" 0 default_write_config "data" [] opening acme with
                   | Ok w => let '(w', wd', log, failed) := run calls w acme in
                             (fits_now wd', stored_log "acme" "orders" 0 wd',
                              (length (get_segments "acme" "orders" 0 (catalog wd')) <=? 5)%nat)
                   | _ => (false, None, false)
                   end = (true, Some orders_stored, true)) by by_computation.
  rewrite Hnew, Hrun in Hfacts. injection Hfacts as Hfit Hstored Hrows.
  destruct (fresh_run "acme" "orders" 0 default_write_config "data" opening calls acme w w' wd' log failed acme_fresh
              ltac:(lia) eq_refl Hnew ltac:(inputs_fit) eq_refl Hrun) as (committed & _ & Hst & _).
  apply fits_now_fits in Hfit. pose proof (store_ok_log _ _ _ _ _ _ Hst Hfit) as Hlog. rewrite Hstored in Hlog. injection Hlog as Hlog.
  exists wd', committed. split; [exact Hst|]. split; [exact Hfit|]. split; [by rewrite <- Hlog|]. split; [|exact Hrows].
  unfold consecutive. assert (Ho : map r_offset (concat committed) = [0; 1; 2]).
  { transitivity (map r_offset (map normalise (concat committed))); [by rewrite map_map|]. by rewrite <- Hlog. }
  rewrite <- (length_map r_offset), Ho. by_computation.
Qed.

Lemma fetching_works wd stable :
  working_env "acme" "orders" 0 wd orders_topic (fetching wd stable).
Proof. split; [done|]. split; [done|]. split; [intros i; apply working_good|done]. Qed.

Lemma three o : 0 <= o < 3 -> o = 0 \/ o = 1 \/ o = 2.
Proof. lia. Qed.

(** Two records of 100 bytes at most at a time. *)
Lemma consumer_reads_log_witness :
  exists wd', stored_log "acme" "orders" 0 wd' = Some orders_stored
    /\ consume "acme" "orders" 0 wd' 3 200 (fun _ => fetching wd' 0) 0 (SegmentCache.new ∅ 1000) = map view orders_stored.
Proof.
  destruct orders_store as (wd' & committed & Hst & Hfit & Hlog & Hcons & Hrows). exists wd'.
  pose proof (consumer_reads_log "acme" "orders" 0 "data" committed wd' Hst Hfit Hcons 200 (fun _ => fetching wd' 0) orders_topic
    (SegmentCache.new ∅ 1000) 3) as H.
  unfold window in H. rewrite Hlog in H. apply H.
  - intros x. apply wrap_in_u. lia.
  - intros i. by apply fetching_works.
  - exact (consumer_ok wd' Hrows).
  - repeat constructor; cbn; lia.
  - cbn. lia.
  - intros o r rest Ho. cbn [length orders_stored] in Ho.
    destruct (three o ltac:(lia)) as [-> |[-> | ->]]; (intros [= <- <-]); vm_compute; reflexivity.
  - cbn. lia.
Defined.

(** The stable offset is 2: a fetch of two records from 1 on would reach it. *)
Lemma committed_reader_stuck_witness :
  exists wd', stored_log "acme" "orders" 0 wd' = Some orders_stored
    /\ snd (fetch_partition (objects wd') "acme" "orders" 0 1 200 1 (fetching wd' 2) (SegmentCache.new ∅ 1000))
       = Ok (mk_fetch_response 0 ErrorCode.None 3 2 0 None).
Proof.
  destruct orders_store as (wd' & committed & Hst & Hfit & Hlog & Hcons & Hrows). exists wd'.
  split; [rewrite <- Hlog; by apply (store_ok_log _ _ _ _ _ _ Hst Hfit)|].
  pose proof (committed_reader_stuck "acme" "orders" 0 "data" committed wd' Hst Hfit Hcons orders_topic (fetching wd' 2)
    (SegmentCache.new ∅ 1000) 1 200 2) as H.
  unfold window in H. rewrite Hlog in H. destruct H as [H _].
  - by apply fetching_works.
  - exact (consumer_ok wd' Hrows).
  - cbn. lia.
  - cbn. lia.
  - reflexivity.
  - lia.
  - change (length (take (max_records 200) (drop (Z.to_nat 1) orders_stored))) with 2%nat. lia.
  - exact H.
Defined.

(** ** Producing *)

#[export] Instance plain_texts : GrpcTexts := {| status_text := fun _ => "status"%string; metadata_value := Some |}.

Definition agent_at_start : state := mk_state (mk_service (WriterPool.new default_write_config) "agent-1" false) acme one_producer.

#[export] Instance agent_1_listens : Listening := {| listens := "http://agent-1:9090"; unreachable := fun _ => Unavailable "connection refused" |}.

(** The store of the cluster: the lease of the partition, and the address of its holder. *)
Definition lease_of (topic : string) (p : Z) : outcome MetadataError (option PartitionLease) :=
  Ok (if bool_decide (topic = "orders"%string /\ p = 0) then Some our_lease else None).
Definition address_in_registry (id : string) : outcome MetadataError (option string) :=
  Ok (if bool_decide (id = "agent-1"%string) then Some "agent-1:9090"%string else None).

(** The agent is found; the answer is lost at the first attempt, or not. *)
Definition found (how : delivery) (now : Z) : attempt_env (delivery * produce_env) :=
  mk_attempt_env now lease_of now address_in_registry None (how, at_work good_put now).

Definition kafka_request : ProduceRequest :=
  mk_produce_request "orders" 0 [(Some [Init.Byte.x41], [Init.Byte.x42], 50)] 0 None None None None.

(** The lease is found expired first, then the request goes through. *)
Definition late_lease (i : nat) : attempt_env (delivery * produce_env) :=
  match i with
  | O => mk_attempt_env 0 lease_of 2000 address_in_registry None (Arrives, at_work good_put 40)
  | _ => found Arrives 50
  end.

Lemma router_writes_once_witness :
  let '(_, s', res) := AgentRouter.produce "acme" kafka_request late_lease AgentRouter.new agent_at_start in
  (match res with Ok resp => rs_record_count resp = 1 | _ => False end)
  /\ (untouched kafka_request agent_at_start s' res \/ delivered kafka_request agent_at_start s' res).
Proof.
  destruct (AgentRouter.produce "acme" kafka_request late_lease AgentRouter.new agent_at_start) as [[r' s'] res] eqn:Hp. split.
  - assert (Hres : match snd (AgentRouter.produce "acme" kafka_request late_lease AgentRouter.new agent_at_start) with
                   | Ok resp => Some (rs_record_count resp) | _ => None end = Some 1) by by_computation.
    rewrite Hp in Hres. cbn [snd] in Hres. destruct res; [by injection Hres|discriminate Hres|discriminate Hres].
  - apply (router_writes_once "acme" kafka_request late_lease AgentRouter.new r' agent_at_start s' res); [|exact Hp].
    intros [|i]; exact I.
Defined.

(** A batch of one record, not idempotent, and one of an idempotent producer. *)
Definition one_record : list client_record := [mk_client_record 0 0 0 (Some [Init.Byte.x41]) (Some [Init.Byte.x42]) []].
Definition loose_batch : client_batch := mk_client_batch 0 (-1) 0 0 1000 1000 (-1) (-1) (-1) one_record.
Definition idempotent_batch : client_batch := mk_client_batch 0 (-1) 0 0 1000 1000 (hash_producer_id "p1") 0 0 one_record.

Definition kafka_env : records_env (delivery * produce_env) := mk_records_env None None 50 (fun _ => found Arrives 50).

Ltac batch_fits :=
  split; try (unfold in_i; vm_compute; split; discriminate || reflexivity);
  [repeat constructor; try (unfold in_i; cbn; lia); try (vm_compute; reflexivity)|vm_compute; reflexivity..].

Lemma loose_batch_ok : batch_ok loose_batch.
Proof. batch_fits. Qed.
Lemma idempotent_batch_ok : batch_ok idempotent_batch.
Proof. batch_fits. Qed.

Lemma found_finds : finds_agent "orders" 0 AgentRouter.new (re_attempts kafka_env 0%nat) (at_work good_put 50).
Proof. split; [by exists our_lease, "agent-1:9090"%string|]. split; [|by split]. intros entry He. discriminate He. Qed.

Lemma kafka_produce_is_produce_witness :
  exists r' s',
    process_records "acme" "orders" 0 (enc_batch loose_batch (KafkaBatch.plain loose_batch)) kafka_env AgentRouter.new agent_at_start
    = (r', s', Ok (mk_produced 0 ErrorCode.None 0 50 0)).
Proof.
  destruct (ProduceService.produce (Some "acme"%string) kafka_request (at_work good_put 50) agent_at_start) as [s' answer] eqn:Hp.
  assert (Ha : answer = Ok (mk_produce_response 0 1 false)).
  { apply (f_equal snd) in Hp. cbn [snd] in Hp. rewrite <- Hp. by_computation. }
  subst answer.
  destruct (kafka_produce_is_produce "acme" "orders" 0 loose_batch (KafkaBatch.plain loose_batch) kafka_env (at_work good_put 50)
              AgentRouter.new agent_at_start s' (Ok (mk_produce_response 0 1 false))) as (r' & _ & Hr).
  - exact loose_batch_ok.
  - vm_compute. reflexivity.
  - cbn. lia.
  - left. split; reflexivity.
  - exact found_finds.
  - exact Hp.
  - exact I.
  - exists r', s'. exact Hr.
Defined.

(** The producer was initialised through Kafka, and uses the number that it got. *)
Lemma kafka_idempotence_refused_witness :
  process_records "acme" "orders" 0 (enc_batch idempotent_batch (KafkaBatch.plain idempotent_batch)) kafka_env AgentRouter.new agent_at_start
  = (AgentRouter.new, agent_at_start, Ok (refused 0 ErrorCode.UnknownProducerId)).
Proof.
  apply (kafka_idempotence_refused [SHeartbeat "p2" 3] one_producer).
  - intros id p Hp. unfold one_producer in Hp. cbn [producers set_producers] in Hp. by apply lookup_singleton_Some in Hp as [_ <-].
  - by apply no_partitions.
  - repeat constructor. by intros id.
  - by_computation.
  - exact idempotent_batch_ok.
  - vm_compute. reflexivity.
  - vm_compute. discriminate.
  - reflexivity.
  - left. split; reflexivity.
Defined.

(** ** Transactions *)

Definition calm (uuid : string) : txn_env :=
  mk_txn_env None None uuid 20 (fun _ _ => None) None None 21 22 (fun _ => None) (fun _ => None).

(** A transaction of the producer with a partition, as AddPartitionsToTxn leaves it. *)
Definition with_partition : ProducerStore.db :=
  run_calls [Begin (Some "acme"%string) "p1" "t1" 60000 10; AddPartition (Some "acme"%string) "t1" "orders" 0 0] one_transactional.

Lemma with_partition_inv : txn_inv with_partition.
Proof. apply run_calls_inv; [by repeat constructor|]. by apply empty_txn_inv. Qed.

Lemma kafka_commit_is_empty_witness :
  let d' := fst (end_txn "acme" "tx" true (calm "t2") with_partition) in
  snd (end_txn "acme" "tx" true (calm "t2") with_partition) = Ok ErrorCode.None
  /\ state_of "t1" d' = Some Ongoing /\ state_of "t2" d' = Some Committed /\ partition_lso d' = ∅.
Proof.
  cbv zeta. destruct (end_txn "acme" "tx" true (calm "t2") with_partition) as [d' code] eqn:He.
  assert (Hc : code = Ok ErrorCode.None) by (apply (f_equal snd) in He; cbn [snd] in He; rewrite <- He; by_computation). subst code.
  destruct (kafka_commit_is_empty "acme" "tx" (calm "t2") with_partition d' with_partition_inv eq_refl eq_refl eq_refl He)
    as (_ & (t & Ht & Hst) & _ & _ & Hlso).
  cbn [fst snd]. split; [reflexivity|]. unfold state_of. rewrite Ht. cbn [te_uuid calm].
  rewrite lookup_insert_ne by done. rewrite lookup_insert_eq. split; [by_computation|]. split; [cbn; by rewrite Hst|].
  rewrite Hlso. by_computation.
Defined.
