(* ===== verification/CircuitBreaker.v ===== *)
(** * The circuit breaker (crates/streamhouse-storage/src/circuit_breaker.rs)

    The breaker is shared by concurrent requests and uses atomics without a lock, so an
    operation is not one atomic step but a program of atomic actions.  A program is a value
    of [act]; [run] executes it without interference, [cstep] interleaves the programs of
    several threads action by action. *)

From S2P Require Import Prelude.

Inductive CircuitState : Type := Closed | Open | HalfOpen.

#[export] Instance CircuitState_eq_dec : EqDecision CircuitState.
Proof. solve_decision. Defined.

(** [self as u8]. *)
Definition as_u8 (s : CircuitState) : Z :=
  match s with Closed => 0 | Open => 1 | HalfOpen => 2 end.

(** [From<u8> for CircuitState]. *)
Definition from_u8 (v : Z) : CircuitState :=
  match v with 0 => Closed | 1 => Open | 2 => HalfOpen | _ => Closed end.

(** The timeout is in microseconds. *)
Record CircuitBreakerConfig : Type := mk_config {
  failure_threshold : Z;
  success_threshold : Z;
  timeout : Z
}.

Definition default_config : CircuitBreakerConfig := mk_config 5 2 (30 * 1000000).

Record CircuitBreaker : Type := mk_breaker {
  state : Z;
  failure_count : Z;
  success_count : Z;
  opened_at : Z
}.

Definition new : CircuitBreaker := mk_breaker (as_u8 Closed) 0 0 0.

(** ** Programs of atomic actions *)

Inductive act (A : Type) : Type :=
| Ret (a : A)
| LoadState (k : Z -> act A)
| StoreState (v : Z) (k : act A)
| LoadOpenedAt (k : Z -> act A)
| StoreOpenedAt (v : Z) (k : act A)
| StoreFailures (v : Z) (k : act A)
| AddFailures (k : Z -> act A)
| StoreSuccesses (v : Z) (k : act A)
| AddSuccesses (k : Z -> act A)
| Now (k : Z -> act A).
Arguments Ret {A}. Arguments LoadState {A}. Arguments StoreState {A}.
Arguments LoadOpenedAt {A}. Arguments StoreOpenedAt {A}. Arguments StoreFailures {A}.
Arguments AddFailures {A}. Arguments StoreSuccesses {A}. Arguments AddSuccesses {A}.
Arguments Now {A}.

(** One action at the clock reading [t]; [fetch_add] returns the old value. *)
Definition act1 {A} (p : act A) (t : Z) (b : CircuitBreaker) : act A * CircuitBreaker :=
  let '(mk_breaker s f n o) := b in
  match p with
  | Ret a => (Ret a, b)
  | LoadState k => (k s, b)
  | StoreState v k => (k, mk_breaker v f n o)
  | LoadOpenedAt k => (k o, b)
  | StoreOpenedAt v k => (k, mk_breaker s f n v)
  | StoreFailures v k => (k, mk_breaker s v n o)
  | AddFailures k => (k f, mk_breaker s (wrap 64 (f + 1)) n o)
  | StoreSuccesses v k => (k, mk_breaker s f v o)
  | AddSuccesses k => (k n, mk_breaker s f (wrap 64 (n + 1)) o)
  | Now k => (k t, b)
  end.

(** A whole program at the clock reading [t], without interference. *)
Fixpoint run {A} (p : act A) (t : Z) (b : CircuitBreaker) : A * CircuitBreaker :=
  let '(mk_breaker s f n o) := b in
  match p with
  | Ret a => (a, b)
  | LoadState k => run (k s) t b
  | StoreState v k => run k t (mk_breaker v f n o)
  | LoadOpenedAt k => run (k o) t b
  | StoreOpenedAt v k => run k t (mk_breaker s f n v)
  | StoreFailures v k => run k t (mk_breaker s v n o)
  | AddFailures k => run (k f) t (mk_breaker s (wrap 64 (f + 1)) n o)
  | StoreSuccesses v k => run k t (mk_breaker s f v o)
  | AddSuccesses k => run (k n) t (mk_breaker s f (wrap 64 (n + 1)) o)
  | Now k => run (k t) t b
  end.

(** ** Operations *)

Definition transition_to_open {A} (k : act A) : act A :=
  StoreState (as_u8 Open) (Now (fun now => StoreOpenedAt now
    (StoreFailures 0 (StoreSuccesses 0 k)))).

Definition transition_to_half_open {A} (k : act A) : act A :=
  StoreState (as_u8 HalfOpen) (StoreSuccesses 0 (StoreFailures 0 k)).

Definition transition_to_closed {A} (k : act A) : act A :=
  StoreState (as_u8 Closed) (StoreSuccesses 0 (StoreFailures 0 k)).

Definition allow_request (cfg : CircuitBreakerConfig) : act bool :=
  LoadState (fun v =>
    match from_u8 v with
    | Closed => Ret true
    | Open =>
        LoadOpenedAt (fun opened_at => Now (fun now =>
          let timeout_micros := wrap 64 (timeout cfg) in
          if timeout_micros <=? wrap 64 (now - opened_at)
          then transition_to_half_open (Ret true)
          else Ret false))
    | HalfOpen => Ret true
    end).

Definition report_success (cfg : CircuitBreakerConfig) : act unit :=
  LoadState (fun v =>
    match from_u8 v with
    | Closed => StoreFailures 0 (Ret tt)
    | HalfOpen =>
        AddSuccesses (fun old =>
          if success_threshold cfg <=? wrap 64 (old + 1)
          then transition_to_closed (Ret tt) else Ret tt)
    | Open => Ret tt
    end).

Definition report_failure (cfg : CircuitBreakerConfig) : act unit :=
  LoadState (fun v =>
    match from_u8 v with
    | Closed =>
        AddFailures (fun old =>
          if failure_threshold cfg <=? wrap 64 (old + 1)
          then transition_to_open (Ret tt) else Ret tt)
    | HalfOpen => transition_to_open (Ret tt)
    | Open => Ret tt
    end).

Definition reset : act unit := transition_to_closed (Ret tt).

Definition current_state (b : CircuitBreaker) : CircuitState := from_u8 (state b).

(** ** Concurrent threads *)

Inductive thread : Type :=
| Report (p : act unit)
| Ask (p : act bool).

Definition thread1 (th : thread) (t : Z) (b : CircuitBreaker) : thread * CircuitBreaker :=
  match th with
  | Report p => let '(p, b) := act1 p t b in (Report p, b)
  | Ask p => let '(p, b) := act1 p t b in (Ask p, b)
  end.

(** Some thread takes one action; the clock only moves forward. *)
Inductive cstep : Z * list thread * CircuitBreaker -> Z * list thread * CircuitBreaker -> Prop :=
| cstep_thread t t' i ths th th' b b' :
    t <= t' -> ths !! i = Some th -> thread1 th t' b = (th', b') ->
    cstep (t, ths, b) (t', <[i := th']> ths, b').

(** ** Facts *)

(** ** The abstract breaker of the documentation *)

Inductive breaker : Type :=
| AClosed (failures : Z)
| AOpen (since : Z)
| AHalfOpen (successes : Z).

Definition abs (b : CircuitBreaker) : breaker :=
  match current_state b with
  | Closed => AClosed (failure_count b)
  | Open => AOpen (opened_at b)
  | HalfOpen => AHalfOpen (success_count b)
  end.

Definition a_allow (cfg : CircuitBreakerConfig) (t : Z) (a : breaker) : bool * breaker :=
  match a with
  | AOpen since => if timeout cfg <=? t - since then (true, AHalfOpen 0) else (false, a)
  | _ => (true, a)
  end.

Definition a_success (cfg : CircuitBreakerConfig) (a : breaker) : breaker :=
  match a with
  | AClosed _ => AClosed 0
  | AHalfOpen n => if success_threshold cfg <=? n + 1 then AClosed 0 else AHalfOpen (n + 1)
  | AOpen _ => a
  end.

Definition a_failure (cfg : CircuitBreakerConfig) (t : Z) (a : breaker) : breaker :=
  match a with
  | AClosed n => if failure_threshold cfg <=? n + 1 then AOpen t else AClosed (n + 1)
  | AHalfOpen _ => AOpen t
  | AOpen _ => a
  end.

(** A configuration whose fields are a [u32], a [u32] and a duration that fits a [u64]. *)
Definition wf_config (cfg : CircuitBreakerConfig) : Prop :=
  in_u 32 (failure_threshold cfg) /\ in_u 32 (success_threshold cfg) /\ in_u 64 (timeout cfg).

(** Between operations, at a clock reading [t]: the counters are below their thresholds and
    the breaker did not open in the future. *)
Definition ok (cfg : CircuitBreakerConfig) (t : Z) (b : CircuitBreaker) : Prop :=
  0 <= t < 2 ^ 64 /\
  match abs b with
  | AClosed n => 0 <= n < Z.max 1 (failure_threshold cfg)
  | AOpen since => 0 <= since <= t
  | AHalfOpen n => 0 <= n < Z.max 1 (success_threshold cfg)
  end.

Lemma ok_later cfg t t' b : ok cfg t b -> t <= t' < 2 ^ 64 -> ok cfg t' b.
Proof. unfold ok. intros [Ht Hb] ?. split; [lia|]. destruct (abs b); lia. Qed.

Lemma ok_new cfg : ok cfg 0 new.
Proof. unfold ok. cbn. lia. Qed.

Lemma from_as_u8 s : from_u8 (as_u8 s) = s.
Proof. by destruct s. Qed.

Section sequential.
Context (cfg : CircuitBreakerConfig) (Hcfg : wf_config cfg).

Lemma run_allow t b :
  ok cfg t b ->
  let '(r, b') := run (allow_request cfg) t b in
  (r, abs b') = a_allow cfg t (abs b) /\ ok cfg t b'.
Proof.
  destruct Hcfg as (_ & _ & Hto). destruct b as [s f n o]. unfold ok, abs, current_state.
  cbn [run allow_request state failure_count success_count opened_at]. intros [Ht Hb].
  destruct (from_u8 s) eqn:Hs; cbn [run state failure_count success_count opened_at a_allow];
    rewrite ?Hs; [done| |done].
  unfold in_u in Hto. rewrite (wrap_small 64 (timeout cfg)), (wrap_small 64 (t - o)) by (unfold in_u; lia).
  destruct (Z.leb_spec (timeout cfg) (t - o)); cbn; rewrite ?Hs; [|done].
  split; [done|]. lia.
Qed.

Lemma run_success t b :
  ok cfg t b ->
  let '(_, b') := run (report_success cfg) t b in
  abs b' = a_success cfg (abs b) /\ ok cfg t b'.
Proof.
  destruct Hcfg as (_ & Hst & _). destruct b as [s f n o]. unfold ok, abs, current_state.
  cbn [run report_success state failure_count success_count opened_at]. intros [Ht Hb].
  unfold in_u in Hst. change (2 ^ 32) with 4294967296 in Hst.
  destruct (from_u8 s) eqn:Hs; cbn [run state failure_count success_count opened_at a_success];
    rewrite ?Hs; [by split; [|lia]|done|].
  rewrite (wrap_small 64 (n + 1)) by (unfold in_u; lia).
  destruct (Z.leb_spec (success_threshold cfg) (n + 1)); cbn; rewrite ?Hs; (split; [done|lia]).
Qed.

Lemma run_failure t b :
  ok cfg t b ->
  let '(_, b') := run (report_failure cfg) t b in
  abs b' = a_failure cfg t (abs b) /\ ok cfg t b'.
Proof.
  destruct Hcfg as (Hft & _ & _). destruct b as [s f n o]. unfold ok, abs, current_state.
  cbn [run report_failure state failure_count success_count opened_at]. intros [Ht Hb].
  unfold in_u in Hft. change (2 ^ 32) with 4294967296 in Hft.
  destruct (from_u8 s) eqn:Hs; cbn [run state failure_count success_count opened_at a_failure];
    rewrite ?Hs; [|done|].
  - rewrite (wrap_small 64 (f + 1)) by (unfold in_u; lia).
    destruct (Z.leb_spec (failure_threshold cfg) (f + 1)); cbn; rewrite ?Hs; (split; [done|lia]).
  - cbn. split; [done|lia].
Qed.

(** ** Histories of operations, one at a time *)

Inductive bop : Type := BAllow | BSuccess | BFailure.

Definition perform (o : bop) (t : Z) (b : CircuitBreaker) : option bool * CircuitBreaker :=
  match o with
  | BAllow => let '(r, b) := run (allow_request cfg) t b in (Some r, b)
  | BSuccess => (None, snd (run (report_success cfg) t b))
  | BFailure => (None, snd (run (report_failure cfg) t b))
  end.

Definition a_perform (o : bop) (t : Z) (a : breaker) : option bool * breaker :=
  match o with
  | BAllow => let '(r, a) := a_allow cfg t a in (Some r, a)
  | BSuccess => (None, a_success cfg a)
  | BFailure => (None, a_failure cfg t a)
  end.

(** The answers to the requests of a history. *)
Fixpoint history (ops : list (bop * Z)) (b : CircuitBreaker) : list (option bool) * CircuitBreaker :=
  match ops with
  | [] => ([], b)
  | (o, t) :: ops =>
      let '(r, b) := perform o t b in let '(rs, b) := history ops b in (r :: rs, b)
  end.

Fixpoint a_history (ops : list (bop * Z)) (a : breaker) : list (option bool) * breaker :=
  match ops with
  | [] => ([], a)
  | (o, t) :: ops =>
      let '(r, a) := a_perform o t a in let '(rs, a) := a_history ops a in (r :: rs, a)
  end.

(** The clock readings of a history do not decrease. *)
Fixpoint clocked (t : Z) (ops : list (bop * Z)) : Prop :=
  match ops with
  | [] => True
  | (_, t') :: ops => t <= t' < 2 ^ 64 /\ clocked t' ops
  end.

Lemma perform_refines o t b :
  ok cfg t b ->
  fst (perform o t b) = fst (a_perform o t (abs b))
  /\ abs (snd (perform o t b)) = snd (a_perform o t (abs b)) /\ ok cfg t (snd (perform o t b)).
Proof.
  intros Hb. destruct o; cbn [perform a_perform fst snd].
  - pose proof (run_allow t b Hb) as H. destruct (run _ t b) as [r b'].
    destruct H as [H1 H2]. destruct (a_allow cfg t (abs b)). injection H1 as -> <-. done.
  - pose proof (run_success t b Hb) as H. by destruct (run _ t b).
  - pose proof (run_failure t b Hb) as H. by destruct (run _ t b).
Qed.

Lemma history_refines ops t b :
  ok cfg t b -> clocked t ops ->
  fst (history ops b) = fst (a_history ops (abs b))
  /\ abs (snd (history ops b)) = snd (a_history ops (abs b)).
Proof.
  revert t b. induction ops as [|[o t'] ops IH]; intros t b Hb; [done|]. cbn [history a_history clocked].
  intros [Ht Hc]. destruct (perform_refines o t' b (ok_later _ _ _ _ Hb Ht)) as (H1 & H2 & H3).
  destruct (perform o t' b) as [r b'], (a_perform o t' (abs b)) as [r' a']. cbn [fst snd] in *.
  subst r' a'. destruct (IH t' b' H3 Hc) as [H4 H5].
  destruct (history ops b'), (a_history ops (abs b')). cbn in *. by subst.
Qed.
End sequential.

(** ** Schedules *)

(** The threads take one action each in the order of the list, at one clock reading. *)
Fixpoint sched (order : list nat) (t : Z) (ths : list thread) (b : CircuitBreaker)
  : list thread * CircuitBreaker :=
  match order with
  | [] => (ths, b)
  | i :: order =>
      match ths !! i with
      | Some th => let '(th, b) := thread1 th t b in sched order t (<[i := th]> ths) b
      | None => (ths, b)
      end
  end.

Lemma sched_steps order t ths b :
  steps cstep (t, ths, b) (t, fst (sched order t ths b), snd (sched order t ths b)).
Proof.
  revert ths b. induction order as [|i order IH]; intros ths b; [apply steps_refl|]. cbn [sched].
  destruct (ths !! i) as [th|] eqn:Hi; [|apply steps_refl].
  destruct (thread1 th t b) as [th' b'] eqn:H1. eapply steps_trans; [|apply IH].
  eapply steps_step; [apply steps_refl|]. by apply (cstep_thread t t i ths th).
Qed.

(** ** Properties *)

(** Used by one thread at a time, with a clock that does not go back, the breaker is the
    documented state machine: it opens at the [failure_threshold]-th consecutive failure,
    rejects every request until [timeout] has passed since it opened, lets requests through
    afterwards, closes again after [success_threshold] successes and reopens at the first
    failure; the counters never overflow. *)
Theorem breaker_refines (cfg : CircuitBreakerConfig) (ops : list (bop * Z)) :
  wf_config cfg -> clocked 0 ops ->
  fst (history cfg ops new) = fst (a_history cfg ops (AClosed 0))
  /\ abs (snd (history cfg ops new)) = snd (a_history cfg ops (AClosed 0)).
Proof.
  intros Hc Ho. by apply (history_refines cfg Hc ops 0 new); [apply ok_new|].
Qed.

Lemma breaker_refines_witness :
  fst (history (mk_config 2 1 100)
         [(BFailure, 5); (BFailure, 6); (BAllow, 105); (BAllow, 106); (BSuccess, 107)] new)
  = [None; None; Some false; Some true; None].
Proof.
  destruct (breaker_refines (mk_config 2 1 100)
    [(BFailure, 5); (BFailure, 6); (BAllow, 105); (BAllow, 106); (BSuccess, 107)]) as [-> _];
    [by vm_compute|by vm_compute|reflexivity].
Defined.

(** The transition to Open is not atomic: it publishes the new state before the time of the
    opening.  A request that arrives in between reads the time of an earlier opening (0, at
    first), finds the timeout long passed and half-opens the breaker that has just opened,
    so a failing service is not protected for the configured timeout.  The interleaving is
    possible for every configuration at every time past the timeout. *)
Theorem breaker_open_race (cfg : CircuitBreakerConfig) (t : Z) (b : CircuitBreaker) :
  wf_config cfg -> 0 <= t < 2 ^ 64 -> current_state b = Closed -> opened_at b = 0 ->
  0 <= failure_count b < 2 ^ 32 -> failure_threshold cfg <= failure_count b + 1 ->
  timeout cfg <= t ->
  exists b', steps cstep (t, [Report (report_failure cfg); Ask (allow_request cfg)], b)
               (t, [Report (Ret tt); Ask (Ret true)], b')
    /\ current_state b' = HalfOpen /\ opened_at b' = t.
Proof.
  intros (_ & _ & Hto) Ht Hs Ho Hf Hth Htt. destruct b as [s f n o]. cbn in *. subst o.
  unfold current_state in Hs. cbn in Hs. unfold in_u in Hto. change (2 ^ 32) with 4294967296 in Hf.
  pose proof (sched_steps [0; 0; 0; 1; 1; 1; 1; 1; 1; 0; 0; 0; 0]%nat t
    [Report (report_failure cfg); Ask (allow_request cfg)] (mk_breaker s f n 0)) as Hsched.
  eexists (mk_breaker 2 0 0 t). split; [|by split].
  assert (Hb1 : (failure_threshold cfg <=? wrap 64 (f + 1)) = true).
  { rewrite wrap_small by (unfold in_u; lia). by apply Z.leb_le. }
  assert (Hb2 : (wrap 64 (timeout cfg) <=? wrap 64 (t - 0)) = true).
  { rewrite !wrap_small by (unfold in_u; lia). apply Z.leb_le. lia. }
  unfold report_failure, allow_request in *. cbn [sched lookup list_lookup insert list_insert thread1 act1] in Hsched.
  rewrite Hs in Hsched. cbn in Hsched. rewrite Hb1 in Hsched. cbn in Hsched.
  rewrite Hb2 in Hsched. exact Hsched.
Qed.

Lemma breaker_open_race_witness :
  exists b', steps cstep
    (100, [Report (report_failure (mk_config 1 1 60)); Ask (allow_request (mk_config 1 1 60))], new)
    (100, [Report (Ret tt); Ask (Ret true)], b') /\ current_state b' = HalfOpen /\ opened_at b' = 100.
Proof. apply breaker_open_race; by vm_compute. Defined.

(** A clock that steps back defeats the breaker: the time since the opening is an unsigned
    difference, so when the clock reads less than the time of the opening by no more than
    [2^64 - timeout], the open breaker half-opens and lets the request through at once. *)
Theorem breaker_clock_step_back (cfg : CircuitBreakerConfig) (t : Z) (b : CircuitBreaker) :
  wf_config cfg -> current_state b = Open -> 0 <= t < opened_at b ->
  opened_at b - t <= 2 ^ 64 - timeout cfg -> opened_at b < 2 ^ 64 ->
  fst (run (allow_request cfg) t b) = true
  /\ current_state (snd (run (allow_request cfg) t b)) = HalfOpen.
Proof.
  intros (_ & _ & Hto) Hs Ht Hd Ho. destruct b as [s f n o]. unfold current_state in *. cbn in *.
  rewrite Hs. cbn. unfold in_u in Hto.
  assert (Hw : wrap 64 (t - o) = t - o + 2 ^ 64).
  { unfold wrap. rewrite <- (Z.mod_add _ 1) by lia. rewrite Z.mod_small; lia. }
  rewrite Hw, wrap_small by done.
  destruct (Z.leb_spec (timeout cfg) (t - o + 2 ^ 64)); [done|lia].
Qed.

Lemma breaker_clock_step_back_witness :
  fst (run (allow_request default_config) 999999 (mk_breaker 1 0 0 1000000)) = true.
Proof. apply breaker_clock_step_back; by vm_compute. Defined.
