(* ===== verification/Reconciler.v ===== *)
(** * Reconciling object store and catalog (crates/streamhouse-storage/src/reconciler.rs)

    [reconcile] deletes objects that no segment of the catalog names; [reconcile_from_s3]
    registers the segments that the catalog lost.  The listings, the clock and the failures
    of calls are arguments. *)

From stdpp Require Import pretty sorting.
From S2P Require Import Prelude Core External Segment SegmentFacts HashMap MetadataError StorageError Catalog CatalogFacts PartitionWriter PartitionWriterFacts PartitionLogFacts PartitionReader.

(** ** Strings *)

(** [split('/')]. *)
Definition slash : Ascii.ascii := Ascii.ascii_of_nat 47.
Fixpoint split_slash (s : string) : list string :=
  match s with
  | EmptyString => [EmptyString]
  | String a s =>
      match split_slash s with
      | part :: parts => if bool_decide (a = slash) then EmptyString :: part :: parts else String a part :: parts
      | [] => []
      end
  end.

(** [trim_end_matches]: the suffix as often as it is there. *)
Fixpoint trim_end (fuel : nat) (suffix s : string) : string :=
  match fuel with
  | O => s
  | S fuel =>
      if ends_with suffix s then trim_end fuel suffix (String.substring 0 (String.length s - String.length suffix) s) else s
  end.
Definition trim_end_matches (suffix s : string) : string := trim_end (String.length s) suffix s.

(** [parse] of an unsigned [w]-bit integer: decimal digits, after a plus sign perhaps. *)
Definition digit_of (a : Ascii.ascii) : option Z :=
  let n := Z.of_N (Ascii.N_of_ascii a) in if (48 <=? n) && (n <=? 57) then Some (n - 48) else None.
Fixpoint digits (s : string) (acc : Z) : option Z :=
  match s with EmptyString => Some acc | String a s => d ← digit_of a; digits s (10 * acc + d) end.
Definition parse_uint (w : Z) (s : string) : option Z :=
  let s := match s with String a (String _ _ as rest) => if bool_decide (a = Ascii.ascii_of_nat 43) then rest else s | _ => s end in
  match s with
  | EmptyString => None
  | _ => v ← digits s 0; if v <? 2 ^ w then Some v else None
  end.

(** ** What the reconciler meets *)

(** Whether a path is below a prefix, as the listings of the object store see it. *)
Class ObjectListing := below : string -> string -> bool.

(** For the witnesses: the prefix of the text. *)
#[export] Instance toy_listing : ObjectListing := String.prefix.

(** Failures of the calls that read the catalog. *)
Record catalog_env : Type := mk_catalog_env {
  ca_orgs : outcome MetadataError (list string);
  ca_topics : string -> option MetadataError;
  ca_partitions : string -> string -> option MetadataError;
  ca_segments : string -> string -> Z -> option MetadataError
}.

Section reconciler.
Context `{HO : HashOrder} `{HP : ObjectPaths} `{HL : ObjectListing} `{HC : Codecs} `{HJ : JsonMaps}.

(** The objects below a prefix, in no particular order. *)
Definition list_objects (prefix : string) (objs : object_map) : list (string * bytes) :=
  List.filter (fun e => below (path_from prefix) e.1) (iter objs).

Definition org_prefix (org_id : string) : string := "org-" +:+ org_id +:+ "/data/".

(** ** Deleting orphans *)

Record reconcile_env : Type := mk_reconcile_env {
  rc_now : Z;
  rc_orgs : outcome MetadataError (list string);
  rc_list : string -> option string;
  rc_modified : string -> Z;
  rc_catalog : catalog_env;
  rc_delete : string -> put_result
}.

Definition sweep_prefixes (orgs : outcome MetadataError (list string)) : list string :=
  foldl (fun prefixes org_id => if bool_decide (org_prefix org_id ∈ prefixes) then prefixes else prefixes ++ [org_prefix org_id])
    ["data/"%string] (match orgs with Ok orgs => orgs | _ => [] end).

(** The [.seg] objects and their times; an error of a listing ends the pass. *)
Fixpoint list_segments (prefixes : list string) (env : reconcile_env) (objs : object_map) : outcome string (list (string * Z)) :=
  match prefixes with
  | [] => Ok []
  | prefix :: prefixes =>
      match rc_list env prefix with
      | Some e => Err e
      | None =>
          let keys := List.filter (ends_with ".seg") (map fst (list_objects prefix objs)) in
          rest ← list_segments prefixes env objs;
          Ok (map (fun key => (key, rc_modified env key)) keys ++ rest)
      end
  end.

(** The keys of the segments of a topic, and of an organization; [strict] passes errors on,
    otherwise what cannot be read is left out. *)
Definition topic_keys (strict : bool) (org_id : string) (env : catalog_env) (d : db) (topic : Topic) : outcome string (list string) :=
  match ca_partitions env org_id (tp_name topic) with
  | Some e => if strict then Err (metadata_error_text e) else Ok []
  | None =>
      foldr (fun partition rest =>
        match ca_segments env org_id (tp_name topic) (p_partition_id partition) with
        | Some e => if strict then Err (metadata_error_text e) else rest
        | None =>
            rest ← rest;
            Ok (map si_s3_key (get_segments org_id (tp_name topic) (p_partition_id partition) d) ++ rest)
        end) (Ok []) (list_partitions org_id (tp_name topic) d)
  end.

Definition org_keys (strict : bool) (env : catalog_env) (d : db) (org_id : string) : outcome string (list string) :=
  match ca_topics env org_id with
  | Some e => if strict then Err (metadata_error_text e) else Ok []
  | None =>
      foldr (fun topic rest => keys ← topic_keys strict org_id env d topic; rest ← rest; Ok (keys ++ rest)) (Ok [])
        (list_topics_for_org org_id d)
  end.

(** A failure of the listing of the organizations leaves none. *)
Definition known_keys (strict : bool) (env : catalog_env) (d : db) : outcome string (gset string) :=
  keys ← foldr (fun org_id rest => keys ← org_keys strict env d org_id; rest ← rest; Ok (keys ++ rest)) (Ok [])
           (match ca_orgs env with Ok orgs => orgs | _ => [] end);
  Ok (list_to_set keys).

(** The deletions, and how many of them succeed. *)
Fixpoint sweep (grace_ms : Z) (env : reconcile_env) (known : gset string) (s3_keys : list (string * Z)) (deleted : Z) (objs : object_map)
  : object_map * Z :=
  match s3_keys with
  | [] => (objs, deleted)
  | (s3_key, last_modified_ms) :: s3_keys =>
      if bool_decide (s3_key ∈ known) then sweep grace_ms env known s3_keys deleted objs
      else if swrap 64 (rc_now env - last_modified_ms) <? swrap 64 grace_ms then sweep grace_ms env known s3_keys deleted objs
      else
        match rc_delete env s3_key with
        | PutOk => sweep grace_ms env known s3_keys (wrap 64 (deleted + 1)) (delete (path_from s3_key) objs)
        | PutErr _ gone => sweep grace_ms env known s3_keys deleted (if gone then delete (path_from s3_key) objs else objs)
        end
  end.

(** [listed] are the objects when they are listed, [d] the catalog when it is read. *)
Definition reconcile (grace_ms : Z) (env : reconcile_env) (listed : object_map) (d : db) (objs : object_map) : object_map * outcome string Z :=
  match list_segments (sweep_prefixes (rc_orgs env)) env listed with
  | Ok [] => (objs, Ok 0)
  | Ok s3_keys =>
      match known_keys true (rc_catalog env) d with
      | Ok known => let '(objs, deleted) := sweep grace_ms env known s3_keys 0 objs in (objs, Ok deleted)
      | Err e => (objs, Err e)
      | Panic => (objs, Panic)
      end
  | Err e => (objs, Err e)
  | Panic => (objs, Panic)
  end.

(** ** Recovering the catalog *)

Record ReconcileFromS3Stats : Type := mk_s3_stats { segments_found : Z; segments_registered : Z; segments_failed : Z }.

Record from_s3_env : Type := mk_from_s3_env {
  fs_orgs : outcome MetadataError (list string);
  fs_catalog : catalog_env;
  fs_list : string -> option string;
  fs_modified : string -> Z;
  fs_get : string -> option string;
  fs_add : string -> option MetadataError;
  fs_partition : string -> option MetadataError;
  fs_mark : string -> option MetadataError
}.

Definition found st := mk_s3_stats (wrap 64 (segments_found st + 1)) (segments_registered st) (segments_failed st).
Definition failed st := mk_s3_stats (segments_found st) (segments_registered st) (wrap 64 (segments_failed st + 1)).
Definition registered st := mk_s3_stats (segments_found st) (wrap 64 (segments_registered st + 1)) (segments_failed st).

(** Prefixes with the organization that their objects are registered for. *)
Definition recovery_prefixes (orgs : outcome MetadataError (list string)) : list (string * string) :=
  match orgs with
  | Ok orgs =>
      match orgs with [] => [] | first_org :: _ => [("data/"%string, first_org)] end ++ map (fun org_id => (org_prefix org_id, org_id)) orgs
  | _ => [("data/"%string, EmptyString)]
  end.

(** Topic, partition and base offset in the name of an object. *)
Definition parse_key (prefix key : string) : option (string * Z * Z) :=
  let relative := default key (strip_prefix prefix key) in
  match split_slash relative with
  | topic :: partition :: name :: _ =>
      partition_id ← parse_uint 32 partition;
      base_offset ← parse_uint 64 (trim_end_matches ".seg" name);
      Some (topic, partition_id, base_offset)
  | _ => None
  end.

(** The watermark goes up to the end of the segment. *)
Definition raise_watermark (org_id topic : string) (partition_id new_hwm : Z) (key : string) (env : from_s3_env) (d : db) : db :=
  match fs_partition env key, get_partition org_id topic partition_id d with
  | None, Some partition =>
      if p_high_watermark partition <? new_hwm
      then fst (attempt (fs_mark env key) d (update_high_watermark org_id topic partition_id new_hwm))
      else d
  | _, _ => d
  end.

Definition register_object (prefix org_id key : string) (data : bytes) (known : gset string) (env : from_s3_env)
    (st : ReconcileFromS3Stats) (d : db) : db * outcome string ReconcileFromS3Stats :=
  if negb (ends_with ".seg" key) then (d, Ok st)
  else
    let st := found st in
    if bool_decide (key ∈ known) then (d, Ok st)
    else
      match parse_key prefix key with
      | None => (d, Ok (failed st))
      | Some (topic, partition_id, base_offset) =>
          match fs_get env key with
          | Some _ => (d, Ok (failed st))
          | None =>
              match Reader.read_header (take HEADER_SIZE data) with
              | Ok header =>
                  let info := mk_segment_info (topic +:+ "-" +:+ pretty partition_id +:+ "-" +:+ pretty base_offset) topic partition_id
                                (h_base_offset header) (h_end_offset header) (h_record_count header) (len data) EmptyString key
                                (fs_modified env key) 0 0 in
                  match attempt (fs_add env key) d (add_segment org_id info) with
                  | (d, Ok _) => (raise_watermark org_id topic partition_id (wrap 64 (h_end_offset header + 1)) key env d, Ok (registered st))
                  | (d, Err _) => (d, Ok (failed st))
                  | (d, Panic) => (d, Panic)
                  end
              | Err _ => (d, Ok (failed st))
              | Panic => (d, Panic)
              end
          end
      end.

Fixpoint register_objects (prefix org_id : string) (objs : list (string * bytes)) (known : gset string) (env : from_s3_env)
    (st : ReconcileFromS3Stats) (d : db) : db * outcome string ReconcileFromS3Stats :=
  match objs with
  | [] => (d, Ok st)
  | (key, data) :: objs =>
      match register_object prefix org_id key data known env st d with
      | (d, Ok st) => register_objects prefix org_id objs known env st d
      | failure => failure
      end
  end.

Fixpoint recover_prefixes (prefixes : list (string * string)) (objs : object_map) (known : gset string) (env : from_s3_env)
    (st : ReconcileFromS3Stats) (d : db) : db * outcome string ReconcileFromS3Stats :=
  match prefixes with
  | [] => (d, Ok st)
  | (prefix, org_id) :: prefixes =>
      match fs_list env prefix with
      | Some e => (d, Err e)
      | None =>
          match register_objects prefix org_id (list_objects prefix objs) known env st d with
          | (d, Ok st) => recover_prefixes prefixes objs known env st d
          | failure => failure
          end
      end
  end.

Definition reconcile_from_s3 (env : from_s3_env) (objs : object_map) (d : db) : db * outcome string ReconcileFromS3Stats :=
  match known_keys false (fs_catalog env) d with
  | Ok known => recover_prefixes (recovery_prefixes (fs_orgs env)) objs known env (mk_s3_stats 0 0 0) d
  | Err e => (d, Err e)
  | Panic => (d, Panic)
  end.
End reconciler.

(** ** Facts *)

(** ** Deleting orphans *)

Section sweeping.
Context `{HO : HashOrder} `{HP : ObjectPaths} `{HL : ObjectListing} `{HC : Codecs} `{HJ : JsonMaps}.

Definition young (grace_ms : Z) (env : reconcile_env) (m : Z) : bool := swrap 64 (rc_now env - m) <? swrap 64 grace_ms.

Lemma sweep_found grace env known keys : forall deleted objs k,
  fst (sweep grace env known keys deleted objs) !! k = objs !! k
  \/ fst (sweep grace env known keys deleted objs) !! k = None
     /\ exists key m, ((key, m) ∈ keys) /\ path_from key = k /\ (key ∉ known) /\ young grace env m = false.
Proof.
  induction keys as [|[key m] keys IH]; intros deleted objs k; cbn [sweep]; [by left|].
  assert (Hlift : forall deleted' objs', (objs' !! k = objs !! k \/ objs' !! k = None /\ path_from key = k /\ (key ∉ known) /\ young grace env m = false) ->
    fst (sweep grace env known keys deleted' objs') !! k = objs !! k
    \/ fst (sweep grace env known keys deleted' objs') !! k = None
       /\ exists key' m', ((key', m') ∈ (key, m) :: keys) /\ path_from key' = k /\ (key' ∉ known) /\ young grace env m' = false).
  { intros deleted' objs' Ho. destruct (IH deleted' objs' k) as [Hs|(Hs & key' & m' & Hin & Hrest)].
    - rewrite Hs. destruct Ho as [->|(-> & Hp & Hk & Hy)]; [by left|]. right. split; [done|]. exists key, m. split; [by left|done].
    - right. split; [done|]. exists key', m'. split; [by right|done]. }
  case_bool_decide as Hknown; [apply Hlift; by left|]. fold (young grace env m). destruct (young grace env m) eqn:Hy; [apply Hlift; by left|].
  assert (Hdel : delete (path_from key) objs !! k = objs !! k
    \/ delete (path_from key) objs !! k = None /\ path_from key = k /\ (key ∉ known) /\ false = false).
  { destruct (decide (path_from key = k)) as [<-|Hne]; [right; by rewrite lookup_delete_eq|left; by rewrite lookup_delete_ne]. }
  destruct (rc_delete env key) as [|e []]; apply Hlift; [done|done|by left].
Qed.

Lemma sweep_mono grace env known keys : forall deleted objs k,
  objs !! k = None -> fst (sweep grace env known keys deleted objs) !! k = None.
Proof.
  intros deleted objs k Hk. destruct (sweep_found grace env known keys deleted objs k) as [->|[-> _]]; done.
Qed.

Lemma sweep_gone grace env known keys key m : forall deleted objs,
  (key, m) ∈ keys -> key ∉ known -> young grace env m = false -> rc_delete env key = PutOk ->
  fst (sweep grace env known keys deleted objs) !! path_from key = None.
Proof.
  induction keys as [|[key' m'] keys IH]; intros deleted objs Hin Hk Hy Hd; [by apply not_elem_of_nil in Hin|]. cbn [sweep].
  apply elem_of_cons in Hin as [[= <- <-]|Hin].
  - rewrite bool_decide_eq_false_2 by done. fold (young grace env m). rewrite Hy, Hd. apply sweep_mono, lookup_delete_eq.
  - case_bool_decide; [by apply IH|]. destruct (_ <? _); [by apply IH|]. destruct (rc_delete env key') as [|e gone]; by apply IH.
Qed.

Lemma elem_of_list_objects prefix objs key data :
  ((key, data) ∈ list_objects prefix objs) <-> objs !! key = Some data /\ below (path_from prefix) key = true.
Proof.
  unfold list_objects. rewrite list_elem_of_In, filter_In, <- list_elem_of_In, elem_of_iter. done.
Qed.

Lemma list_segments_spec env listed : forall prefixes keys,
  list_segments prefixes env listed = Ok keys ->
  forall key m, ((key, m) ∈ keys) <->
    m = rc_modified env key /\ ends_with ".seg" key = true /\ is_Some (listed !! key)
    /\ exists prefix, (prefix ∈ prefixes) /\ below (path_from prefix) key = true.
Proof.
  induction prefixes as [|prefix prefixes IH]; intros keys Hl key m; cbn [list_segments] in Hl.
  - injection Hl as <-. split; [intros H; by apply not_elem_of_nil in H|]. intros (_ & _ & _ & p & Hp & _). by apply not_elem_of_nil in Hp.
  - destruct (rc_list env prefix); [discriminate Hl|]. destruct (list_segments prefixes env listed) as [rest| |] eqn:Hr; [|discriminate Hl..].
    injection Hl as <-. rewrite elem_of_app, (IH rest eq_refl), list_elem_of_fmap. setoid_rewrite list_elem_of_In at 1.
    setoid_rewrite filter_In. setoid_rewrite <- list_elem_of_In. setoid_rewrite list_elem_of_fmap. split.
    + intros [(k & [= -> ->] & ([k' data] & -> & Hin%elem_of_list_objects) & He)|(H1 & H2 & H3 & p & Hp & Hb)].
      * destruct Hin as [Hin Hb]. split; [done|]. split; [done|]. split; [by eexists|]. exists prefix. split; [by left|done].
      * split; [done|]. split; [done|]. split; [done|]. exists p. split; [by right|done].
    + intros (-> & He & [data Hd] & p & [->|Hp]%elem_of_cons & Hb).
      * left. exists key. split; [done|]. split; [|done]. exists (key, data). split; [done|]. by apply elem_of_list_objects.
      * right. split; [done|]. split; [done|]. split; [by eexists|]. by exists p.
Qed.

(** ** The known keys *)

Lemma fold_keys {A} (f : A -> outcome string (list string)) l :
  forall keys, foldr (fun a rest => k ← f a; rest ← rest; Ok (k ++ rest)) (Ok []) l = Ok keys ->
  forall a k ks, a ∈ l -> f a = Ok ks -> k ∈ ks -> k ∈ keys.
Proof.
  induction l as [|b l IH]; intros keys Hf a k ks Ha Hfa Hk; [by apply not_elem_of_nil in Ha|]. cbn [foldr] in Hf.
  destruct (f b) as [kb| |] eqn:Hb; [|discriminate Hf..]. cbn [mbind outcome_bind] in Hf.
  destruct (foldr _ _ l) as [rest| |] eqn:Hr; [|discriminate Hf..]. injection Hf as <-. apply elem_of_app.
  apply elem_of_cons in Ha as [->|Ha]; [left; congruence|right]. by apply (IH rest eq_refl a k ks).
Qed.

Lemma fold_keys_each {A} (f : A -> outcome string (list string)) l :
  forall keys, foldr (fun a rest => k ← f a; rest ← rest; Ok (k ++ rest)) (Ok []) l = Ok keys ->
  forall a, a ∈ l -> exists ks, f a = Ok ks.
Proof.
  induction l as [|b l IH]; intros keys Hf a Ha; [by apply not_elem_of_nil in Ha|]. cbn [foldr] in Hf.
  destruct (f b) as [kb| |] eqn:Hb; [|discriminate Hf..]. cbn [mbind outcome_bind] in Hf.
  destruct (foldr _ _ l) as [rest| |] eqn:Hr; [|discriminate Hf..].
  apply elem_of_cons in Ha as [->|Ha]; [by eexists|by apply (IH rest eq_refl)].
Qed.

Lemma topic_keys_spec org env d topic keys part k :
  topic_keys true org env d topic = Ok keys -> part ∈ list_partitions org (tp_name topic) d ->
  k ∈ map si_s3_key (get_segments org (tp_name topic) (p_partition_id part) d) -> k ∈ keys.
Proof.
  unfold topic_keys. destruct (ca_partitions _ _ _); [done|]. generalize (list_partitions org (tp_name topic) d). intros l. revert keys.
  induction l as [|b l IH]; intros keys Hf Ha Hk; [by apply not_elem_of_nil in Ha|]. cbn [foldr] in Hf.
  destruct (ca_segments _ _ _ _); [discriminate Hf|].
  destruct (foldr _ _ l) as [rest| |] eqn:Hr; [|discriminate Hf..]. injection Hf as <-. apply elem_of_app.
  apply elem_of_cons in Ha as [->|Ha]; [by left|right]. by apply (IH rest eq_refl).
Qed.

Lemma elem_of_list_topics org d topic row :
  topics d !! (org, topic) = Some row -> topic_of_row topic row ∈ list_topics_for_org org d.
Proof.
  intros Ht. unfold list_topics_for_org. rewrite merge_sort_Permutation. apply list_elem_of_fmap. exists ((org, topic), row).
  split; [done|]. apply list_elem_of_filter. split; [done|]. by apply elem_of_map_to_list.
Qed.

Lemma elem_of_list_partitions org topic p w d :
  0 <= p < 2 ^ 32 -> partitions d !! (org, topic, p) = Some w ->
  mk_partition topic p (wrap 64 w) ∈ list_partitions org topic d.
Proof.
  intros Hp Hw. unfold list_partitions. rewrite merge_sort_Permutation. apply list_elem_of_fmap. exists ((org, topic, p), w).
  split; [change (mk_partition topic p (wrap 64 w) = mk_partition topic (wrap 32 p) (wrap 64 w)); by rewrite (wrap_small 32 p)|]. apply list_elem_of_filter. split; [done|]. by apply elem_of_map_to_list.
Qed.

(** The segments of the partitions that the catalog lists are known, if it can be read. *)
Lemma known_keys_spec env d known orgs org topic p row w s :
  known_keys true env d = Ok known -> ca_orgs env = Ok orgs -> org ∈ orgs ->
  topics d !! (org, topic) = Some row -> 0 <= p < 2 ^ 32 -> partitions d !! (org, topic, p) = Some w ->
  s ∈ get_segments org topic p d -> si_s3_key s ∈ known.
Proof.
  intros Hk Ho Horg Ht Hp Hw Hs. unfold known_keys in Hk. rewrite Ho in Hk.
  destruct (foldr _ _ orgs) as [keys| |] eqn:Hkeys; [|discriminate Hk..]. injection Hk as <-. apply elem_of_list_to_set.
  destruct (fold_keys_each _ _ _ Hkeys org Horg) as [ks Hks]. apply (fold_keys _ _ _ Hkeys org _ ks Horg Hks).
  unfold org_keys in Hks. destruct (ca_topics env org); [discriminate Hks|].
  destruct (fold_keys_each _ _ _ Hks _ (elem_of_list_topics _ _ _ _ Ht)) as [ts Hts].
  apply (fold_keys _ _ _ Hks _ _ ts (elem_of_list_topics _ _ _ _ Ht) Hts).
  apply (topic_keys_spec _ _ _ _ _ _ _ Hts (elem_of_list_partitions _ _ _ _ _ Hp Hw)). by apply elem_of_map.
Qed.

(** C26: the reconciler keeps what is registered.  A pass, whatever other calls come between
    its listing of the objects, its reading of the catalog and its deletions, and whichever
    of its calls fail, deletes only [.seg] objects that it found in a listing, that are at
    least as old as the grace period and that no segment of the catalog names: an object
    of a listed partition stays, provided that the list of the organizations could be read
    and that the key is its own path. *)
Theorem reconcile_keeps_registered grace env listed d objs objs' r :
  reconcile grace env listed d objs = (objs', r) ->
  (forall k, is_Some (listed !! k) -> path_from k = k) ->
  forall k,
    objs' !! k = objs !! k
    \/ objs' !! k = None /\ ends_with ".seg" k = true /\ is_Some (listed !! k) /\ young grace env (rc_modified env k) = false
       /\ ~ exists orgs org topic p row w s,
              ca_orgs (rc_catalog env) = Ok orgs /\ (org ∈ orgs) /\ topics d !! (org, topic) = Some row
              /\ 0 <= p < 2 ^ 32 /\ partitions d !! (org, topic, p) = Some w
              /\ (s ∈ get_segments org topic p d) /\ si_s3_key s = k.
Proof.
  intros Hrun Hpaths k. unfold reconcile in Hrun. destruct (list_segments _ _ _) as [keys| |] eqn:Hlist; [|by injection Hrun as <- _; left..].
  destruct keys as [|key0 keys0] eqn:Hkeys; [injection Hrun as <- _; by left|]. rewrite <- Hkeys in *.
  destruct (known_keys _ _ _) as [known| |] eqn:Hknown; [|injection Hrun as <- _; by left..].
  destruct (sweep grace env known keys 0 objs) as [o n] eqn:Hsweep. injection Hrun as <- _.
  pose proof (sweep_found grace env known keys 0 objs k) as H. rewrite Hsweep in H. cbn [fst] in H.
  destruct H as [?|(Hnone & key & m & Hin & Hp & Hnk & Hy)]; [by left|right]. split; [done|].
  apply (list_segments_spec _ _ _ _ Hlist) in Hin as (-> & He & Hl & _). rewrite Hpaths in Hp by done. subst key.
  split; [done|]. split; [done|]. split; [done|].
  intros (orgs & org & topic & p & row & w & s & Ho & Horg & Ht & Hp & Hw & Hs & <-).
  apply Hnk. by apply (known_keys_spec (rc_catalog env) d known orgs org topic p row w s).
Qed.

(** The reconciler deletes live segments when the database fails between two of its
    calls.  The organizations are listed twice, for the prefixes and for the known keys, and
    a failure of the second listing counts as no organizations: then every [.seg] object
    below the prefixes that is as old as the grace period is deleted, registered or not. *)
Theorem reconcile_deletes_registered grace env listed d objs objs' r orgs e k :
  rc_orgs env = Ok orgs -> ca_orgs (rc_catalog env) = Err e -> (forall prefix, rc_list env prefix = None) ->
  is_Some (listed !! k) -> ends_with ".seg" k = true -> path_from k = k ->
  (exists prefix, (prefix ∈ sweep_prefixes (Ok orgs)) /\ below (path_from prefix) k = true) ->
  young grace env (rc_modified env k) = false -> rc_delete env k = PutOk ->
  reconcile grace env listed d objs = (objs', r) -> (exists n, r = Ok n) /\ objs' !! k = None.
Proof.
  intros Ho He Hlist Hk Hseg Hpath Hbelow Hy Hdel Hrun. unfold reconcile in Hrun. rewrite Ho in Hrun.
  assert (Hl : exists keys, list_segments (sweep_prefixes (Ok orgs)) env listed = Ok keys).
  { generalize (sweep_prefixes (Ok orgs)). intros ps. induction ps as [|p ps [rest IH]]; cbn [list_segments]; [by eexists|].
    rewrite Hlist, IH. by eexists. }
  destruct Hl as [keys Hkeys]. rewrite Hkeys in Hrun.
  assert (Hin : (k, rc_modified env k) ∈ keys) by (by apply (list_segments_spec _ _ _ _ Hkeys)).
  unfold known_keys in Hrun. rewrite He in Hrun. cbn [foldr mbind outcome_bind] in Hrun.
  destruct keys as [|key0 keys0] eqn:Hks; [by apply not_elem_of_nil in Hin|]. rewrite <- Hks in *.
  destruct (sweep _ _ _ _ _ _) as [o n] eqn:Hsweep. injection Hrun as <- <-. split; [by eexists|].
  pose proof (sweep_gone grace env (list_to_set []) keys k _ 0 objs Hin ltac:(set_solver) Hy Hdel) as H. by rewrite Hsweep, Hpath in H.
Qed.
End sweeping.

(** ** Names of segments *)

Fixpoint digits_only (s : string) : bool :=
  match s with EmptyString => true | String a s => bool_decide (is_Some (digit_of a)) && digits_only s end.
Fixpoint no_slash (s : string) : bool :=
  match s with EmptyString => true | String a s => negb (bool_decide (a = slash)) && no_slash s end.

Lemma digits_only_app a b : digits_only (a +:+ b) = digits_only a && digits_only b.
Proof. induction a as [|c a IH]; [done|]. rewrite str_app_cons. cbn [digits_only]. by rewrite IH, andb_assoc. Qed.
Lemma no_slash_app a b : no_slash (a +:+ b) = no_slash a && no_slash b.
Proof. induction a as [|c a IH]; [done|]. rewrite str_app_cons. cbn [no_slash]. by rewrite IH, andb_assoc. Qed.

Lemma digit_of_N n : 0 <= n < 10 -> digit_of (Ascii.ascii_of_N (Z.to_N (48 + n))) = Some n.
Proof.
  intros Hn. unfold digit_of. rewrite Ascii.N_ascii_embedding by lia. rewrite Z2N.id by lia.
  rewrite (proj2 (Z.leb_le 48 (48 + n))), (proj2 (Z.leb_le (48 + n) 57)) by lia. cbn [andb]. f_equal. lia.
Qed.

Lemma digits_app a b acc : digits (a +:+ b) acc = v ← digits a acc; digits b v.
Proof. revert acc. induction a as [|c a IH]; intros acc; [done|]. rewrite str_app_cons. cbn [digits]. destruct (digit_of c); [apply IH|done]. Qed.

Lemma digits_padded n v acc : 0 <= v < 10 ^ Z.of_nat n -> digits (padded n v) acc = Some (acc * 10 ^ Z.of_nat n + v).
Proof.
  revert v acc. induction n as [|n IH]; intros v acc Hv.
  - cbn in *. f_equal. lia.
  - rewrite Nat2Z.inj_succ, Z.pow_succ_r in * by lia. cbn [padded]. pose proof (Z.mod_pos_bound v 10 ltac:(lia)).
    rewrite digits_app, IH by (split; [apply Z.div_pos; lia|apply Z.div_lt_upper_bound; lia]). cbn [mbind option_bind].
    unfold digit. cbn [digits]. rewrite digit_of_N by lia. cbn. f_equal. pose proof (Z.div_mod v 10 ltac:(lia)). nia.
Qed.

Lemma digits_only_padded n v : digits_only (padded n v) = true.
Proof.
  revert v. induction n as [|n IH]; intros v; [done|]. cbn [padded]. rewrite digits_only_app, IH. unfold digit. cbn [digits_only andb].
  pose proof (Z.mod_pos_bound v 10 ltac:(lia)). rewrite digit_of_N by lia. done.
Qed.

Lemma pretty_char_digit x : (x < 10)%N -> digit_of (pretty_N_char x) = Some (Z.of_N x).
Proof. intros Hx. destruct x as [|q]; [done|]. do 4 try (destruct q as [q|q|]; try done); lia. Qed.

Lemma digits_go x s : digits (pretty_N_go x s) 0 = digits s (Z.of_N x).
Proof.
  revert s. induction (N.lt_wf_0 x) as [x _ IH]. intros s. destruct (decide (x = 0%N)) as [-> |Hx].
  - by rewrite pretty_N_go_0.
  - rewrite pretty_N_go_step by lia. rewrite IH by (apply N.div_lt; lia). cbn [digits].
    rewrite pretty_char_digit by (apply N.mod_lt; lia). cbn [mbind option_bind]. f_equal.
    pose proof (N.div_mod x 10 ltac:(lia)). lia.
Qed.

Lemma digits_only_go x s : digits_only s = true -> digits_only (pretty_N_go x s) = true.
Proof.
  revert s. induction (N.lt_wf_0 x) as [x _ IH]. intros s Hs. destruct (decide (x = 0%N)) as [-> |Hx].
  - by rewrite pretty_N_go_0.
  - rewrite pretty_N_go_step by lia. apply IH; [apply N.div_lt; lia|]. cbn [digits_only].
    rewrite pretty_char_digit, Hs by (apply N.mod_lt; lia). done.
Qed.

Lemma pretty_go v : 0 < v -> pretty v = pretty_N_go (Z.to_N v) "".
Proof. by destruct v. Qed.

Lemma digits_pretty v : 0 <= v -> digits (pretty v) 0 = Some v /\ digits_only (pretty v) = true.
Proof.
  intros Hv. destruct (decide (v = 0)) as [->|Hne]; [by split|]. rewrite pretty_go by lia. split.
  - rewrite digits_go. cbn. f_equal. lia.
  - by apply digits_only_go.
Qed.

Lemma digits_only_no_slash s : digits_only s = true -> no_slash s = true.
Proof.
  induction s as [|a s IH]; [done|]. cbn. intros [Ha Hs]%andb_true_iff. rewrite IH, andb_true_r by done.
  destruct (bool_decide_reflect (a = slash)) as [->|]; [done|done].
Qed.

(** A number is read back, whatever it was written with. *)
Lemma parse_uint_digits w s v :
  digits_only s = true -> s <> EmptyString -> digits s 0 = Some v -> v < 2 ^ w -> parse_uint w s = Some v.
Proof.
  intros Hs Hne Hd Hv. unfold parse_uint.
  assert (Hplus : match s with String a (String _ _ as rest) => if bool_decide (a = Ascii.ascii_of_nat 43) then rest else s | _ => s end = s).
  { destruct s as [|a [|b s]]; [done..|]. cbn in Hs. apply andb_true_iff in Hs as [Ha _].
    destruct (bool_decide_reflect (a = Ascii.ascii_of_nat 43)) as [->|]; [done|done]. }
  rewrite Hplus. destruct s as [|a s]; [done|]. rewrite Hd. cbn [mbind option_bind]. by rewrite (proj2 (Z.ltb_lt v _)).
Qed.

Lemma split_slash_nonempty s : split_slash s <> [].
Proof. induction s as [|a s IH]; [done|]. cbn. destruct (split_slash s); [done|]. by case_bool_decide. Qed.

Lemma split_slash_app a b : no_slash a = true -> split_slash (a +:+ "/" +:+ b) = a :: split_slash b.
Proof.
  induction a as [|c a IH]; intros Ha.
  - rewrite str_app_nil, str_app_cons, str_app_nil. cbn [split_slash]. destruct (split_slash b) as [|x l] eqn:Hb; [|done]. by apply split_slash_nonempty in Hb.
  - cbn [no_slash] in Ha. apply andb_true_iff in Ha as [Hc Ha]. rewrite str_app_cons. cbn [split_slash]. rewrite IH by done.
    by destruct (bool_decide (c = slash)).
Qed.

Lemma split_slash_last a : no_slash a = true -> split_slash a = [a].
Proof.
  induction a as [|c a IH]; [done|]. cbn. intros [Hc Ha]%andb_true_iff. rewrite IH by done. by destruct (bool_decide (c = slash)).
Qed.

Lemma ends_with_digits s : digits_only s = true -> ends_with ".seg" s = false.
Proof.
  induction s as [|a s IH]; [done|]. cbn [digits_only ends_with]. intros [Ha Hs]%andb_true_iff. rewrite IH, orb_false_r by done.
  apply bool_decide_eq_false. intros [= -> _]. done.
Qed.

Lemma substring_app a b : String.substring 0 (String.length a) (a +:+ b) = a.
Proof. induction a as [|c a IH]; [by destruct b|]. rewrite str_app_cons. cbn. by rewrite IH. Qed.

Lemma trim_segment_name v : trim_end_matches ".seg" (segment_name v) = padded 20 v.
Proof.
  unfold trim_end_matches, segment_name. rewrite str_length_app. change (String.length ".seg") with 4%nat.
  destruct (String.length (padded 20 v) + 4)%nat as [|f] eqn:Hf; [lia|]. cbn [trim_end]. rewrite ends_with_app.
  rewrite str_length_app. change (String.length ".seg") with 4%nat. rewrite Nat.add_sub, substring_app.
  destruct f as [|f]; [done|]. cbn [trim_end]. by rewrite ends_with_digits by apply digits_only_padded.
Qed.

Lemma padded_not_empty n v : padded (S n) v <> EmptyString.
Proof.
  intros He. apply (f_equal String.length) in He. cbn [padded] in He. rewrite str_length_app in He. cbn in He. lia.
Qed.

Lemma pretty_not_empty v : 0 <= v -> pretty v <> EmptyString.
Proof.
  intros Hv He. destruct (decide (v = 0)) as [->|Hne]; [done|]. destruct (digits_pretty v Hv) as [Hd _]. rewrite He in Hd. cbn in Hd.
  injection Hd as <-. done.
Qed.

Lemma parse_segment_key org t p b :
  no_slash t = true -> 0 <= p < 2 ^ 32 -> in_u 64 b ->
  parse_key (org_prefix org) (segment_key ("org-" +:+ org +:+ "/data") t p b) = Some (t, p, b).
Proof.
  intros Ht Hp Hb. unfold in_u in Hb.
  assert (Hkey : segment_key ("org-" +:+ org +:+ "/data") t p b = org_prefix org +:+ (t +:+ "/" +:+ (pretty p +:+ "/" +:+ segment_name b))).
  { unfold segment_key, segment_dir, org_prefix. rewrite !str_app_assoc. done. }
  destruct (digits_pretty p) as [Hdp Hop]; [lia|].
  unfold parse_key. rewrite Hkey, strip_prefix_app. match goal with |- context [default ?k (Some ?x)] => change (default k (Some x)) with x end.
  cbv zeta. rewrite split_slash_app by done.
  rewrite split_slash_app by (by apply digits_only_no_slash).
  rewrite split_slash_last.
  2: { unfold segment_name. rewrite no_slash_app, digits_only_no_slash by apply digits_only_padded. done. }
  rewrite (parse_uint_digits 32 (pretty p) p); [|done|apply pretty_not_empty; lia|done|lia]. cbn [mbind option_bind].
  rewrite trim_segment_name, (parse_uint_digits 64 (padded 20 b) b); [done|apply digits_only_padded|apply padded_not_empty| |lia].
  rewrite digits_padded; [f_equal; lia|lia].
Qed.

(** ** Recovering the catalog *)

Lemma len_next rs : increasing rs -> Forall record_ok rs -> len rs <= next_offset rs.
Proof.
  induction rs as [|r rs IH] using rev_ind; [done|]. intros (Hi & _ & Hlt)%increasing_app [Hrs Hr]%Forall_app.
  specialize (IH Hi Hrs). unfold next_offset in *. rewrite last_snoc, length_app. cbn [length].
  destruct (list.last rs) as [x|] eqn:Hl.
  - assert (Hx : x ∈ rs) by (apply last_Some in Hl as [l ->]; apply elem_of_app; right; by left).
    specialize (Hlt x r Hx ltac:(by left)). lia.
  - apply last_None in Hl as ->. apply Forall_cons in Hr as [[[? _] _] _]. cbn. lia.
Qed.

Lemma records_concat chs : Forall (fun ch => ch <> [] /\ Forall record_ok ch) chs -> Forall record_ok (concat chs).
Proof. induction 1 as [|ch chs [_ Hch] _ IH]; [constructor|]. cbn [concat]. by apply Forall_app. Qed.

Lemma choose_Forall2 {A B} (P : A -> B -> Prop) l : (forall a, a ∈ l -> exists b, P a b) -> exists l', Forall2 P l l'.
Proof.
  induction l as [|a l IH]; intros H; [by exists []|]. destruct (H a) as [b Hb]; [by left|].
  destruct IH as [l' Hl]; [intros x Hx; apply H; by right|]. exists (b :: l'). by constructor.
Qed.

Lemma first_offset_inj chs c c' :
  Forall (fun ch => ch <> []) chs -> increasing (concat chs) -> c ∈ chs -> c' ∈ chs -> first_offset c = first_offset c' -> c = c'.
Proof.
  intros Hne Hi [i Hc]%list_elem_of_lookup [j Hc']%list_elem_of_lookup He.
  destruct (first_in c) as (x & Hx & Hfx); [by eapply Forall_lookup_1 in Hne|].
  destruct (first_in c') as (y & Hy & Hfy); [by eapply Forall_lookup_1 in Hne|].
  destruct (Nat.lt_trichotomy i j) as [Hij|[->|Hij]]; [|congruence|].
  - pose proof (increasing_chunks chs i j c c' x y Hi Hij Hc Hc' Hx Hy). lia.
  - pose proof (increasing_chunks chs j i c' c y x Hi Hij Hc' Hc Hy Hx). lia.
Qed.

Lemma NoDup_first_offset chs :
  Forall (fun ch => ch <> []) chs -> increasing (concat chs) -> NoDup (map first_offset chs).
Proof.
  intros Hne Hi. apply NoDup_alt. intros i j b Hbi Hbj. rewrite list_lookup_fmap in Hbi, Hbj.
  destruct (chs !! i) as [c|] eqn:Hc; [|done]. destruct (chs !! j) as [c'|] eqn:Hc'; [|done]. cbn in Hbi, Hbj.
  injection Hbi as <-. injection Hbj as He.
  destruct (first_in c) as (x & Hx & Hfx); [by eapply Forall_lookup_1 in Hne|].
  destruct (first_in c') as (y & Hy & Hfy); [by eapply Forall_lookup_1 in Hne|].
  destruct (Nat.lt_trichotomy i j) as [Hij|[->|Hij]]; [|done|].
  - pose proof (increasing_chunks chs i j c c' x y Hi Hij Hc Hc' Hx Hy). lia.
  - pose proof (increasing_chunks chs j i c' c y x Hi Hij Hc' Hc Hy Hx). lia.
Qed.

Section recovering.
Context `{HO : HashOrder} `{HP : ObjectPaths} `{!ObjectPathLaws HP} `{HL : ObjectListing} `{HC : Codecs} `{!CodecLaws HC} `{HJ : JsonMaps}.

Lemma new_header data s : Reader.new data = Ok s -> Reader.read_header (take HEADER_SIZE data) = Ok (Reader.header s).
Proof.
  unfold Reader.new. destruct (decide _) as [|Hlen]; [done|]. assert (Hl : (HEADER_SIZE <= length data)%nat) by lia.
  destruct (Reader.read_header data) as [h| |] eqn:Hh; [|done..]. cbn [mbind outcome_bind].
  destruct (Reader.read_footer _ _); [|done..]. cbn [mbind outcome_bind]. destruct (Reader.read_index _ _); [|done..].
  intros [= <-]. cbn [Reader.header]. rewrite <- Hh. unfold Reader.read_header, Reader.slice.
  rewrite length_take, Nat.min_l by done. rewrite (proj2 (Z.leb_le (Z.of_nat HEADER_SIZE) (Z.of_nat HEADER_SIZE))),
    (proj2 (Z.leb_le (Z.of_nat HEADER_SIZE) (len data))) by lia.
  change (Z.to_nat 0) with 0%nat. rewrite !drop_0, take_take. by rewrite Nat.min_l by lia.
Qed.

(** Nothing is known of an empty table. *)
Lemma no_segments org t p d : segments d = ∅ -> get_segments org t p d = [].
Proof.
  intros He. unfold get_segments, segment_rows. rewrite He, map_to_list_empty. done.
Qed.

Lemma known_keys_empty env d : segments d = ∅ -> known_keys false env d = Ok ∅.
Proof.
  intros He.
  assert (Ht : forall org topic, topic_keys false org env d topic = Ok []).
  { intros org topic. unfold topic_keys. destruct (ca_partitions _ _ _); [done|]. generalize (list_partitions org (tp_name topic) d).
    intros l. induction l as [|p l IH]; [done|]. cbn [foldr]. destruct (ca_segments _ _ _ _); [done|]. rewrite IH, no_segments by done. done. }
  assert (Ho : forall org, org_keys false env d org = Ok []).
  { intros org. unfold org_keys. destruct (ca_topics _ _); [done|]. generalize (list_topics_for_org org d).
    intros l. induction l as [|x l IH]; [done|]. cbn [foldr]. by rewrite Ht, IH. }
  unfold known_keys. set (orgs := match ca_orgs env with Ok _ => _ | _ => _ end).
  assert (Hf : foldr (fun org_id rest => keys ← org_keys false env d org_id; rest ← rest; Ok (keys ++ rest)) (Ok []) orgs = Ok []).
  { induction orgs as [|x l IH]; [done|]. cbn [foldr]. by rewrite Ho, IH. }
  by rewrite Hf.
Qed.

Context (org t : string) (p w0 : Z) (env : from_s3_env).
Context (Ht : no_slash t = true) (Hp : 0 <= p < 2 ^ 31).

Let prefix := "org-" +:+ org +:+ "/data".
Let key (ch : list Record_) : string := segment_key prefix t p (first_offset ch).

(** No call fails. *)
Definition calm_env : Prop :=
  forall k, fs_get env k = None /\ fs_add env k = None /\ fs_partition env k = None /\ fs_mark env k = None /\ fs_list env k = None.
Context (Hcalm : calm_env).

Definition row_for (ch : list Record_) (s : SegmentInfo) : Prop :=
  describes prefix t p ch s /\ si_topic s = t /\ si_partition_id s = swrap 32 p /\ si_id s = segment_id t p (first_offset ch).

(** What is registered after some of the segments. *)
Record rec_inv (chs : list (list Record_)) (d : db) : Prop := {
  ri_rows : exists rows, map_to_list (segments d) ≡ₚ map (fun s => (si_id s, (org, s))) rows /\ Forall2 row_for chs rows;
  ri_org : org ∈ organizations d;
  ri_mark : partitions d !! (org, t, p) = Some (foldr (fun ch w => Z.max (final_offset ch + 1) w) w0 chs)
}.

Definition chunk_ok (ch : list Record_) : Prop :=
  ch <> [] /\ Forall record_ok ch /\ increasing ch /\ final_offset ch < 2 ^ 63 - 1.

Lemma chunk_bounds ch : chunk_ok ch -> 0 <= first_offset ch <= final_offset ch /\ final_offset ch < 2 ^ 63 - 1.
Proof. intros (Hne & Hok & Hi & Hb). destruct (first_final ch Hi Hne Hok) as ([Hf _] & Hle & _). lia. Qed.

Lemma mark_bounds chs : 0 <= w0 < 2 ^ 63 -> Forall chunk_ok chs ->
  0 <= foldr (fun ch w => Z.max (final_offset ch + 1) w) w0 chs < 2 ^ 63.
Proof. intros Hw. induction 1 as [|ch chs Hch _ IH]; [done|]. cbn [foldr]. pose proof (chunk_bounds ch Hch). lia. Qed.

Lemma segment_id_inj b b' : segment_id t p b = segment_id t p b' -> b = b'.
Proof.
  unfold segment_id. intros He. apply (inj (String.app t)), (inj (String.app "-")), (inj (String.app (pretty p))), (inj (String.app "-")) in He.
  by apply (inj pretty) in He.
Qed.

Lemma fresh_row chs d ch :
  rec_inv chs d -> (forall c, c ∈ chs -> first_offset c <> first_offset ch) -> segments d !! segment_id t p (first_offset ch) = None.
Proof.
  intros [(rows & Hperm & H2) _ _] Hne. apply eq_None_not_Some. intros [x Hx]. apply elem_of_map_to_list in Hx. rewrite Hperm in Hx.
  apply list_elem_of_fmap in Hx as (s & [= Hid _] & [i Hs]%list_elem_of_lookup).
  destruct (Forall2_lookup_r _ _ _ _ _ H2 Hs) as (c & Hc & _ & _ & _ & Hsid). rewrite Hsid in Hid. apply segment_id_inj in Hid.
  apply (Hne c); [by apply (list_elem_of_lookup_2 _ i)|done].
Qed.

Lemma register_chunk chs d ch data st :
  0 <= w0 < 2 ^ 63 -> rec_inv chs d -> Forall chunk_ok chs -> chunk_ok ch ->
  (forall c, c ∈ chs -> first_offset c <> first_offset ch) -> opens data ch ->
  exists d', register_object (org_prefix org) org (key ch) data ∅ env st d = (d', Ok (registered (found st))) /\ rec_inv (ch :: chs) d'.
Proof.
  intros Hw0 Hinv Hchs Hch Hne (_ & _ & s & Hnew & Hbase & Hend). destruct (chunk_bounds ch Hch) as [Hfb Hfinal].
  destruct (Hcalm (key ch)) as (Hg & Ha & Hpt & Hm & _). pose proof (fresh_row _ _ _ Hinv Hne) as Hfresh.
  unfold register_object. replace (ends_with ".seg" (key ch)) with true.
  2: { unfold key, segment_key, segment_name. rewrite <- !str_app_assoc. by rewrite ends_with_app. }
  cbn [negb]. rewrite bool_decide_eq_false_2 by set_solver. unfold key at 1, prefix. rewrite parse_segment_key by (done || unfold in_u; lia).
  fold prefix. rewrite Hg, (new_header _ _ Hnew), Ha. cbn [attempt]. unfold add_segment, insert_segment. cbn [si_id].
  fold (segment_id t p (first_offset ch)). rewrite Hfresh. unfold segment_row. cbn [si_id si_topic si_partition_id si_base_offset si_end_offset].
  rewrite Hbase, Hend, !swrap_small by (unfold in_i; lia). rewrite (proj2 (Z.ltb_ge (final_offset ch) (first_offset ch))) by lia.
  rewrite bool_decide_eq_true_2 by apply (ri_org _ _ Hinv). cbn [negb].
  match goal with |- context [set_segments (<[_ := (_, ?row)]> _) d] => set (r := row); set (d1 := set_segments (<[segment_id t p (first_offset ch) := (org, r)]> (segments d)) d) end.
  pose proof (mark_bounds chs Hw0 Hchs) as Hmb. pose proof (ri_mark _ _ Hinv) as Hmark.
  set (w := foldr (fun ch w => Z.max (final_offset ch + 1) w) w0 chs) in *.
  assert (Hmark1 : partitions d1 !! (org, t, p) = Some w) by done.
  eexists. split; [done|]. unfold raise_watermark. rewrite Hpt. unfold get_partition. rewrite Hmark1. cbn [fmap option_fmap option_map p_high_watermark].
  rewrite (wrap_small 64 w), (wrap_small 64 (final_offset ch + 1)) by (unfold in_u; lia).
  assert (Hrows : forall d2, segments d2 = segments d1 -> organizations d2 = organizations d1 ->
            partitions d2 !! (org, t, p) = Some (Z.max (final_offset ch + 1) w) -> rec_inv (ch :: chs) d2).
  { intros d2 Hs2 Ho2 Hm2. destruct Hinv as [(rows & Hperm & H2) Horg _]. split; [|by rewrite Ho2|done].
    exists (r :: rows). split.
    - rewrite Hs2. unfold d1. cbn [set_segments segments]. rewrite map_to_list_insert by done. by rewrite Hperm.
    - constructor; [|done]. split; [by split|]. split; [done|]. split; [by rewrite swrap_small by (unfold in_i; lia)|done]. }
  destruct (Z.ltb_spec w (final_offset ch + 1)) as [Hlt|Hge].
  - rewrite Hm. cbn [attempt]. unfold update_high_watermark, set_watermark. rewrite Hmark1. cbn [Z.eqb fst].
    apply Hrows; [done|done|]. cbn [set_partitions partitions]. rewrite lookup_insert_eq, swrap_small by (unfold in_i; lia). f_equal. lia.
  - apply Hrows; [done|done|]. rewrite Hmark1. f_equal. lia.
Qed.

Lemma register_chunks l : forall new chs d st,
  0 <= w0 < 2 ^ 63 -> rec_inv chs d -> Forall chunk_ok chs ->
  Forall2 (fun e ch => e.1 = key ch /\ opens e.2 ch /\ chunk_ok ch) l new ->
  NoDup (map first_offset (new ++ chs)) -> 
  0 <= segments_found st -> segments_registered st = segments_found st -> segments_failed st = 0 -> segments_found st + len l < 2 ^ 64 ->
  exists d', register_objects (org_prefix org) org l ∅ env st d
             = (d', Ok (mk_s3_stats (segments_found st + len l) (segments_found st + len l) 0))
    /\ rec_inv (rev new ++ chs) d'.
Proof.
  induction l as [|[k data] l IH]; intros new chs d st Hw0 Hinv Hchs H2 Hnd H0 Hsame Hzero Hlen.
  - apply Forall2_nil_inv_l in H2 as ->. exists d. split; [|done]. cbn [register_objects length]. rewrite Z.add_0_r.
    destruct st as [f g h]. cbn in *. by subst.
  - apply Forall2_cons_inv_l in H2 as (ch & new' & (Hk & Hopen & Hch) & H2 & ->). cbn [fst snd] in *. subst k.
    cbn [app map] in Hnd. apply NoDup_cons in Hnd as [Hnot Hnd]. rewrite map_app, elem_of_app in Hnot.
    destruct (register_chunk chs d ch data st Hw0 Hinv Hchs Hch) as (d1 & Hrun & Hinv1); [|done|].
    { intros c Hc He. apply Hnot. right. rewrite <- He. by apply elem_of_map. }
    cbn [length] in Hlen. cbn [register_objects]. rewrite Hrun.
    destruct (IH new' (ch :: chs) d1 (registered (found st)) Hw0 Hinv1) as (d' & Hrun' & Hinv').
    + by constructor.
    + done.
    + rewrite map_app. cbn [map]. rewrite <- Permutation_middle. constructor; [by rewrite elem_of_app|]. by rewrite <- map_app.
    + cbn. rewrite wrap_small by (unfold in_u; lia). lia.
    + cbn. by rewrite Hsame.
    + done.
    + cbn. rewrite wrap_small by (unfold in_u; lia). lia.
    + exists d'. rewrite Hrun'. cbn [registered found segments_found segments_registered segments_failed length].
      rewrite wrap_small by (unfold in_u; lia). cbn [rev]. rewrite <- app_assoc. split; [|done]. do 2 f_equal. f_equal; lia.
Qed.

Lemma recovered_rows committed chs d :
  Forall (fun ch => ch <> [] /\ Forall record_ok ch) committed -> increasing (concat committed) ->
  rec_inv chs d -> chs ≡ₚ committed -> Forall2 (describes prefix t p) committed (partition_rows org t p d).
Proof.
  intros Hok Hi [(rows & Hperm & H2) _ _] Hchs. destruct (Permutation_Forall2 Hchs H2) as (rows' & Hrows & H2').
  assert (Hd : Forall2 (describes prefix t p) committed rows') by (eapply Forall2_impl; [exact H2'|by intros ch s (? & _)]).
  assert (Hall : Forall (fun s => si_topic s = t /\ si_partition_id s = swrap 32 p) rows').
  { clear -H2'. induction H2' as [|ch s chs rows (_ & ? & ? & _) _ IH]; by constructor. }
  replace (partition_rows org t p d) with rows'; [done|]. destruct (describe_fits _ _ _ _ _ Hd Hok Hi) as [Hs _].
  assert (Hp2 : partition_rows org t p d ≡ₚ rows').
  { unfold partition_rows. rewrite merge_sort_Permutation. unfold segment_rows. rewrite Hperm, Hrows. clear -Hall.
    induction Hall as [|s rows' Hs _ IH]; [reflexivity|]. cbn [map]. rewrite filter_cons_True by done. cbn [map]. by rewrite IH. }
  symmetry. apply (StronglySorted_unique_strong by_base).
  - intros a b Ha Hb H1 H3. rewrite Hp2 in Ha. by apply (base_lt_unique rows').
  - apply StronglySorted_merge_sort; apply _.
  - by apply base_lt_by_base.
  - done.
Qed.

Lemma max_mark committed chs :
  chs ≡ₚ committed -> 0 <= w0 <= next_offset (concat committed) -> increasing (concat committed) ->
  Forall (fun ch => ch <> [] /\ Forall record_ok ch) committed -> committed <> [] ->
  foldr (fun ch w => Z.max (final_offset ch + 1) w) w0 chs = next_offset (concat committed).
Proof.
  intros Hchs Hw Hi Hok Hne.
  assert (Hup : forall ch, ch ∈ chs -> final_offset ch + 1 <= next_offset (concat committed)).
  { intros ch Hch. rewrite Hchs in Hch. apply list_elem_of_split in Hch as (pre & post & He).
    destruct (chunk_facts committed Hok Hi _ _ _ He) as (_ & _ & _ & _ & _ & _ & _ & ?). lia. }
  destruct committed as [|ch pre _] using rev_ind; [done|].
  assert (Hlast : final_offset ch + 1 = next_offset (concat (pre ++ [ch]))).
  { rewrite concat_app. cbn [concat]. rewrite app_nil_r. apply Forall_app in Hok as [_ [[Hch _] _]%Forall_cons].
    rewrite next_offset_app by done. unfold next_offset, final_offset. destruct (list.last ch) eqn:Hl; [done|]. by apply last_None in Hl. }
  assert (Hin : ch ∈ chs) by (rewrite Hchs; apply elem_of_app; right; by left). rewrite <- Hlast in *. clear Hlast Hi Hok Hne Hchs.
  assert (Hle : foldr (fun ch w => Z.max (final_offset ch + 1) w) w0 chs <= final_offset ch + 1).
  { clear Hin. induction chs as [|c chs IH]; cbn [foldr]; [lia|]. pose proof (Hup c ltac:(by left)).
    specialize (IH ltac:(intros x Hx; apply Hup; by right)). lia. }
  assert (Hge : final_offset ch + 1 <= foldr (fun ch w => Z.max (final_offset ch + 1) w) w0 chs).
  { clear Hle Hup. induction chs as [|c chs IH]; [by apply not_elem_of_nil in Hin|]. cbn [foldr].
    apply elem_of_cons in Hin as [->|Hin]; [lia|]. specialize (IH Hin). lia. }
  lia.
Qed.

(** C25: the catalog is recovered from the objects.  When the catalog has lost all its segments
    and [reconcile_from_s3] runs without failures over a store that holds the objects of a
    partition, every object is registered, whatever the order in which they are listed, the
    watermark is back at the end of the log, and the log reads as before. *)
Theorem catalog_recovered committed wd d :
  store_ok org t p prefix committed wd -> objects_fit wd -> committed <> [] ->
  segments d = ∅ -> org ∈ organizations d -> partitions d !! (org, t, p) = Some w0 -> 0 <= w0 <= next_offset (concat committed) ->
  fs_orgs env = Ok [org] ->
  (forall ch, ch ∈ committed -> path_from (key ch) = key ch /\ below (path_from (org_prefix org)) (key ch) = true
      /\ below (path_from "data/") (key ch) = false) ->
  (forall k, is_Some (objects wd !! k) -> exists ch, (ch ∈ committed) /\ k = key ch) ->
  exists d',
    reconcile_from_s3 env (objects wd) d = (d', Ok (mk_s3_stats (len committed) (len committed) 0))
    /\ store_ok org t p prefix committed (mk_world (objects wd) d' (wal_dir wd))
    /\ stored_log org t p (mk_world (objects wd) d' (wal_dir wd)) = stored_log org t p wd.
Proof.
  intros Hst Hfit Hsome Hseg Horg Hmark Hw Horgs Hpaths Honly. pose proof Hst as [_ Hobj Hok Hi _ Hbound].
  assert (Hnes : Forall (fun ch => ch <> []) committed) by (apply (Forall_impl _ _ _ Hok); by intros ch []).
  set (l := list_objects (org_prefix org) (objects wd)).
  assert (Hdata : list_objects "data/" (objects wd) = []).
  { destruct (list_objects "data/" (objects wd)) as [|[k data] rest] eqn:He; [done|]. exfalso.
    assert (Hin : (k, data) ∈ list_objects "data/" (objects wd)) by (rewrite He; by left).
    apply elem_of_list_objects in Hin as [Hk Hb]. destruct (Honly k) as (ch & Hch & ->); [by eexists|].
    destruct (Hpaths ch Hch) as (_ & _ & Hf). congruence. }
  destruct (choose_Forall2 (fun e ch => (e.1 = key ch /\ opens e.2 ch /\ chunk_ok ch) /\ ch ∈ committed) l) as [new Hnew].
  { intros [k data] Hin. apply elem_of_list_objects in Hin as [Hk _]. destruct (Honly k) as (ch & Hch & ->); [by eexists|]. exists ch.
    split; [|done]. split; [done|]. destruct (proj1 (Forall_forall _ _) Hobj ch Hch) as (out & Hout & Hopen). destruct (Hpaths ch Hch) as (Hpath & _).
    unfold key in Hpath, Hk. rewrite Hpath, Hk in Hout. injection Hout as <-. split; [by apply Hopen, (Hfit (key ch))|].
    apply list_elem_of_split in Hch as (pre & post & He). destruct (chunk_facts _ Hok Hi _ _ _ He) as (H1 & H2 & H3 & _ & _ & _ & _ & H4).
    split; [done|]. split; [done|]. split; [done|]. lia. }
  assert (Hkeys : map fst l = map key new) by (clear -Hnew; induction Hnew as [|e ch l new ((He & _) & _) _ IH]; [done|]; cbn; by rewrite He, IH).
  assert (Hndk : NoDup (map fst l)).
  { unfold l, list_objects. pose proof (iter_NoDup (objects wd)) as Hnd. clear -Hnd. induction (iter (objects wd)) as [|e es IH]; [constructor|].
    cbn in Hnd. apply NoDup_cons in Hnd as [Hn Hnd]. cbn [List.filter]. destruct (below _ _); [|by apply IH]. cbn. constructor; [|by apply IH].
    intros Hin. apply Hn. apply list_elem_of_fmap in Hin as (e' & -> & Hin). apply list_elem_of_In, filter_In in Hin as [Hin _].
    apply list_elem_of_fmap. exists e'. split; [done|]. by apply list_elem_of_In. }
  assert (Hnd : NoDup (map first_offset new)).
  { rewrite Hkeys in Hndk. change (map key new) with (map (fun ch => segment_key prefix t p (first_offset ch)) new) in Hndk.
    rewrite <- (map_map first_offset (segment_key prefix t p)) in Hndk. by apply NoDup_fmap_1 in Hndk. }
  assert (Hperm : new ≡ₚ committed).
  { apply NoDup_Permutation; [by apply NoDup_fmap_1 in Hnd|by eapply NoDup_fmap_1, NoDup_first_offset|]. intros ch. split.
    - intros [i Hx]%list_elem_of_lookup. destruct (Forall2_lookup_r _ _ _ _ _ Hnew Hx) as (e & _ & _ & ?). done.
    - intros Hch. destruct (proj1 (Forall_forall _ _) Hobj ch Hch) as (out & Hout & _). destruct (Hpaths ch Hch) as (Hpath & Hb & _).
      unfold key in Hpath, Hb. rewrite Hpath in Hout.
      assert (Hin : (key ch, out) ∈ l) by by apply elem_of_list_objects. apply list_elem_of_lookup in Hin as [i Hin].
      destruct (Forall2_lookup_l _ _ _ _ _ Hnew Hin) as (c & Hc & (Hkc & _) & Hcc). cbn in Hkc.
      replace ch with c; [by apply (list_elem_of_lookup_2 _ i)|]. apply (first_offset_inj committed); [done..|].
      apply (segment_path_inj prefix t p).
      + by apply (committed_first committed c).
      + by apply (committed_first committed ch).
      + unfold key in Hkc. by rewrite Hkc. }
  assert (Hlen : len l = len committed) by (rewrite <- (Permutation_length Hperm); by rewrite (Forall2_length _ _ _ Hnew)).
  assert (Hlenb : len committed < 2 ^ 63).
  { pose proof (length_chunks committed Hnes). assert (Hall : Forall record_ok (concat committed)) by (by apply records_concat).
    pose proof (len_next _ Hi Hall). lia. }
  destruct (register_chunks l new [] d (mk_s3_stats 0 0 0)) as (d' & Hrun & Hinv).
  - lia.
  - split; [exists []; by rewrite Hseg, map_to_list_empty|done|done].
  - constructor.
  - eapply Forall2_impl; [exact Hnew|by intros e ch [? _]].
  - by rewrite app_nil_r.
  - done.
  - done.
  - done.
  - cbn [segments_found]. lia.
  - cbn [segments_found] in Hrun. rewrite Z.add_0_l, Hlen in Hrun. rewrite app_nil_r in Hinv.
    assert (Hrev : rev new ≡ₚ committed) by (by rewrite <- Permutation_rev).
    assert (Hst' : store_ok org t p prefix committed (mk_world (objects wd) d' (wal_dir wd))).
    { split; [by apply (recovered_rows _ (rev new))|done|done|done| |done]. cbn [catalog]. rewrite (ri_mark _ _ Hinv).
      f_equal. by apply max_mark. }
    exists d'. split; [|split; [done|]].
    + unfold reconcile_from_s3. rewrite known_keys_empty by done. rewrite Horgs. cbn [recovery_prefixes app map recover_prefixes].
      destruct (Hcalm "data/") as (_ & _ & _ & _ & ->). destruct (Hcalm (org_prefix org)) as (_ & _ & _ & _ & ->).
      rewrite Hdata. cbn [register_objects]. fold l. by rewrite Hrun.
    + rewrite (store_ok_log _ _ _ _ _ _ Hst' Hfit). symmetry. by apply (store_ok_log _ _ _ _ _ _ Hst).
Qed.
End recovering.
