(* ===== verification/KeyCompaction.v ===== *)
(** * Key compaction (crates/streamhouse-server/src/compaction.rs)

    The background task that rewrites the segments of compacted topics to the latest record
    of each key.  Its calls of the object store and of the database are the parts of a
    cycle, which other tasks may come between; the clock and what the calls answer are
    arguments. *)

From stdpp Require Import pretty sorting.
From S2P Require Import Prelude HashMap Core External Segment MetadataError StorageError Catalog PartitionWriter.

#[export] Instance byte_countable : Countable Init.Byte.byte :=
  inj_countable Stdlib.Strings.Byte.to_N Stdlib.Strings.Byte.of_N Stdlib.Strings.Byte.of_to_N.

(** Durations in milliseconds, as the code compares them. *)
Record CompactionConfig : Type := mk_compaction_config {
  check_interval : Z;
  max_records_per_run : Z;
  min_segment_age : Z;
  tombstone_retention : Z
}.

Definition default_compaction_config : CompactionConfig :=
  mk_compaction_config (300 * 1000) 1000000 (3600 * 1000) (86400 * 1000).

Record CompactionResult : Type := mk_compaction_result {
  cr_records_processed : Z;
  cr_keys_removed : Z;
  cr_segments_compacted : Z;
  cr_bytes_saved : Z
}.

Definition default_result : CompactionResult := mk_compaction_result 0 0 0 0.

Inductive CompactionError : Type := CMetadata (m : string) | CStorage (m : string) | CSegmentRead (m : string).

(** [ce_get] and [ce_bytes] are errors of the download of each segment, [ce_missing] that
    for an object that is not there. *)
Record compact_env : Type := mk_compact_env {
  ce_segments : option MetadataError;
  ce_now : Z;
  ce_get : nat -> option string;
  ce_bytes : nat -> option string;
  ce_missing : string;
  ce_put : put_result;
  ce_add : option MetadataError;
  ce_delete : nat -> put_result;
  ce_delete_rows : option MetadataError
}.

Section compaction.
Context `{HO : HashOrder} `{HC : Codecs} `{HP : ObjectPaths} `{HJ : JsonMaps}.

(** ** The scan *)

(** The latest value of each key, the keys whose latest record is a tombstone, the records
    without a key, and the two counters. *)
Record scan : Type := mk_scan {
  key_map : gmap bytes (Z * Z * bytes);
  tombstones : gmap bytes (Z * Z);
  unkeyed_records : list Record_;
  records_processed : Z;
  original_bytes : Z
}.

Definition start_scan : scan := mk_scan ∅ ∅ [] 0 0.

Definition scan_record (s : scan) (record : Record_) : scan :=
  let processed := wrap 64 (records_processed s + 1) in
  match r_key record with
  | Some ((_ :: _) as key) =>
      match r_value record with
      | [] => mk_scan (delete key (key_map s)) (<[key := (r_offset record, r_timestamp record)]> (tombstones s))
                (unkeyed_records s) processed (original_bytes s)
      | value =>
          let should_update := match key_map s !! key with
                               | Some (existing_offset, _, _) => existing_offset <? r_offset record
                               | None => true
                               end in
          if should_update
          then mk_scan (<[key := (r_offset record, r_timestamp record, value)]> (key_map s)) (delete key (tombstones s))
                 (unkeyed_records s) processed (original_bytes s)
          else mk_scan (key_map s) (tombstones s) (unkeyed_records s) processed (original_bytes s)
      end
  | _ => mk_scan (key_map s) (tombstones s) (unkeyed_records s ++ [record]) processed (original_bytes s)
  end.

Definition add_bytes (size : Z) (s : scan) : scan :=
  mk_scan (key_map s) (tombstones s) (unkeyed_records s) (records_processed s) (wrap 64 (original_bytes s + size)).

(** The records of the [i]th segment. *)
Definition load_segment (objects : object_map) (segment : SegmentInfo) (env : compact_env) (i : nat)
  : outcome CompactionError (list Record_) :=
  let key := si_s3_key segment in
  let failed_get e := Err (CStorage ("Failed to GET segment " +:+ key +:+ ": " +:+ e)) in
  match ce_get env i, objects !! path_from key with
  | Some e, _ => failed_get e
  | None, None => failed_get (ce_missing env)
  | None, Some data =>
      match ce_bytes env i with
      | Some e => Err (CStorage ("Failed to read bytes for " +:+ key +:+ ": " +:+ e))
      | None =>
          reader ← map_err (fun e => CSegmentRead ("Failed to parse segment " +:+ key +:+ ": " +:+ core_error_text e)) (Reader.new data);
          map_err (fun e => CSegmentRead ("Failed to read records from " +:+ key +:+ ": " +:+ core_error_text e)) (Reader.read_all reader)
      end
  end.

Fixpoint scan_segments (config : CompactionConfig) (objects : object_map) (segments : list SegmentInfo) (env : compact_env)
    (i : nat) (s : scan) : outcome CompactionError scan :=
  match segments with
  | [] => Ok s
  | segment :: segments =>
      if max_records_per_run config <=? records_processed s then Ok s
      else
        let s := add_bytes (si_size_bytes segment) s in
        records ← load_segment objects segment env i;
        scan_segments config objects segments env (S i) (foldl scan_record s records)
  end.

(** ** The output *)

Definition by_offset (a b : Record_) : Prop := r_offset a <= r_offset b.
#[export] Instance by_offset_dec : RelDecision by_offset.
Proof. intros a b. unfold by_offset. apply _. Defined.

(** A tombstone stays for the time of its retention. *)
Definition retained (config : CompactionConfig) (now_ms timestamp : Z) : bool :=
  swrap 64 (now_ms - swrap 64 timestamp) <? swrap 64 (tombstone_retention config).

Definition compacted_records (config : CompactionConfig) (now_ms : Z) (s : scan) : list Record_ :=
  let kept := filter (fun e : bytes * (Z * Z) => retained config now_ms e.2.2 = true) (tombstones s) in
  merge_sort by_offset
    (map (fun '(key, (offset, timestamp, value)) => mk_record offset timestamp (Some key) value) (iter (key_map s))
     ++ map (fun '(key, (offset, timestamp)) => mk_record offset timestamp (Some key) []) (iter kept)
     ++ unkeyed_records s).

Definition write_segment (records : list Record_) : outcome CompactionError bytes :=
  writer ← map_err (fun e => CStorage ("Failed to write compacted record: " +:+ core_error_text e))
             (Writer.append_all (Writer.new Lz4) records);
  map_err (fun e => CStorage ("Failed to finish compacted segment: " +:+ core_error_text e)) (Writer.finish writer).

Definition compacted_name (base_offset : Z) : string := "seg_" +:+ pretty base_offset +:+ "_compacted.bin".
Definition compacted_key (org_id topic : string) (partition_id base_offset : Z) : string :=
  segment_dir ("org-" +:+ org_id +:+ "/data") topic partition_id +:+ "/" +:+ compacted_name base_offset.

(** ** A partition *)

Definition eligible (config : CompactionConfig) (now_ms : Z) (segment : SegmentInfo) : bool :=
  swrap 64 (min_segment_age config) <=? swrap 64 (now_ms - si_created_at segment).

(** The objects of the segments, one deletion after another; failures are logged. *)
Fixpoint delete_objects (segments : list SegmentInfo) (results : nat -> put_result) (objects : object_map) : object_map :=
  match segments with
  | [] => objects
  | segment :: segments =>
      delete_objects segments (fun i => results (S i))
        (match results 0%nat with
         | PutOk | PutErr _ true => delete (path_from (si_s3_key segment)) objects
         | PutErr _ false => objects
         end)
  end.

(** From the upload of the compacted segment on. *)
Definition replace_segments (config : CompactionConfig) (org_id topic : string) (partition_id : Z) (segments : list SegmentInfo)
    (s : scan) (records : list Record_) (first last : Record_) (data : bytes) (env : compact_env) (wd : world)
  : world * outcome CompactionError CompactionResult :=
  let key := compacted_key org_id topic partition_id (r_offset first) in
  let objs := PartitionWriter.put (path_from key) data (ce_put env) (objects wd) in
  match ce_put env with
  | PutErr e _ => (mk_world objs (catalog wd) (wal_dir wd), Err (CStorage ("Failed to upload compacted segment: " +:+ e)))
  | PutOk =>
      let compacted_segment :=
        mk_segment_info (topic +:+ "-" +:+ pretty partition_id +:+ "-" +:+ pretty (r_offset first) +:+ "-compacted") topic partition_id
          (r_offset first) (r_offset last) (wrap 32 (len records)) (len data)
          (default EmptyString (si_s3_bucket <$> head segments)) key (ce_now env) 0 0 in
      match attempt (ce_add env) (catalog wd) (add_segment org_id compacted_segment) with
      | (d, Ok _) =>
          let objs := delete_objects segments (ce_delete env) objs in
          let '(d, deleted) :=
            match segments with
            | [] => (d, Ok ())
            | first_segment :: _ =>
                attempt (ce_delete_rows env) d
                  (fun d => (fst (delete_segments_before org_id topic partition_id (si_base_offset first_segment) d), Ok ()))
            end in
          (mk_world objs d (wal_dir wd),
           _ ← map_err (fun e => CMetadata ("Failed to delete old segment metadata: " +:+ metadata_error_text e)) deleted;
           Ok (mk_compaction_result (records_processed s) (Z.max 0 (records_processed s - len records)) (len segments)
                 (Z.max 0 (original_bytes s - len data))))
      | (d, Err e) =>
          (mk_world objs d (wal_dir wd), Err (CMetadata ("Failed to add compacted segment: " +:+ metadata_error_text e)))
      | (d, Panic) => (mk_world objs d (wal_dir wd), Panic)
      end
  end.

Definition compact_partition (config : CompactionConfig) (org_id topic : string) (partition_id : Z) (env : compact_env) (wd : world)
  : world * outcome CompactionError CompactionResult :=
  match ce_segments env with
  | Some e => (wd, Err (CMetadata (metadata_error_text e)))
  | None =>
      match get_segments org_id topic partition_id (catalog wd) with
      | [] => (wd, Ok default_result)
      | all =>
          let segments := List.filter (eligible config (ce_now env)) all in
          if (length segments <? 2)%nat then (wd, Ok default_result)
          else
            match scan_segments config (objects wd) segments env 0 start_scan with
            | Ok s =>
                let records := compacted_records config (ce_now env) s in
                match head records, list.last records with
                | Some first, Some last =>
                    match write_segment records with
                    | Ok data => replace_segments config org_id topic partition_id segments s records first last data env wd
                    | Err e => (wd, Err e)
                    | Panic => (wd, Panic)
                    end
                | _, _ =>
                    (mk_world (delete_objects segments (ce_delete env) (objects wd)) (catalog wd) (wal_dir wd),
                     Ok (mk_compaction_result (records_processed s) (Z.max 0 (records_processed s)) (len segments) (original_bytes s)))
                end
            | Err e => (wd, Err e)
            | Panic => (wd, Panic)
            end
      end
  end.

(** ** Topics and cycles *)

(** Failures of a partition are logged; a panic ends the task.  [n] partitions are left. *)
Fixpoint compact_partitions (config : CompactionConfig) (org_id topic : string) (n : nat) (partition_id : Z)
    (envs : Z -> compact_env) (wd : world) : world * outcome CompactionError () :=
  match n with
  | O => (wd, Ok ())
  | S n =>
      match compact_partition config org_id topic partition_id (envs partition_id) wd with
      | (wd, Panic) => (wd, Panic)
      | (wd, _) => compact_partitions config org_id topic n (partition_id + 1) envs wd
      end
  end.

Definition compact_topic (config : CompactionConfig) (org_id topic : string) (partition_count : Z) (envs : Z -> compact_env)
    (wd : world) : world * outcome CompactionError () :=
  compact_partitions config org_id topic (Z.to_nat partition_count) 0 envs wd.

Fixpoint compact_topics (config : CompactionConfig) (org_id : string) (topics : list Topic) (envs : string -> Z -> compact_env)
    (wd : world) : world * outcome CompactionError () :=
  match topics with
  | [] => (wd, Ok ())
  | topic :: topics =>
      match compact_topic config org_id (tp_name topic) (tp_partition_count topic) (envs (tp_name topic)) wd with
      | (wd, Panic) => (wd, Panic)
      | (wd, _) => compact_topics config org_id topics envs wd
      end
  end.

(** What a cycle meets: the listing of the organizations, those of their topics, and their
    partitions. *)
Record cycle_env : Type := mk_cycle_env {
  cy_orgs : outcome MetadataError (list string);
  cy_topics : string -> option MetadataError;
  cy_partition : string -> string -> Z -> compact_env
}.

Fixpoint compact_orgs (config : CompactionConfig) (orgs : list string) (env : cycle_env) (wd : world)
  : world * outcome CompactionError () :=
  match orgs with
  | [] => (wd, Ok ())
  | org_id :: orgs =>
      match cy_topics env org_id with
      | Some e => (wd, Err (CMetadata (metadata_error_text e)))
      | None =>
          let compacted := List.filter (fun t => is_compacted (tp_cleanup_policy t)) (list_topics_for_org org_id (catalog wd)) in
          match compact_topics config org_id compacted (cy_partition env org_id) wd with
          | (wd, Panic) => (wd, Panic)
          | (wd, _) => compact_orgs config orgs env wd
          end
      end
  end.

Definition run_compaction_cycle (config : CompactionConfig) (env : cycle_env) (wd : world) : world * outcome CompactionError () :=
  match cy_orgs env with
  | Ok orgs => compact_orgs config orgs env wd
  | Err e => (wd, Err (CMetadata (metadata_error_text e)))
  | Panic => (wd, Panic)
  end.
End compaction.
