(* ===== verification/KeyCompactionFacts.v ===== *)
(** * Facts about key compaction

    The scan and the output against a reference: of the records of a key only the last one
    stays, and a tombstone only for the time of its retention. *)

From coqutil Require Import Byte.
From stdpp Require Import pretty sorting.
From S2P Require Import Prelude HashMap Core External Segment SegmentFacts MetadataError StorageError Catalog CatalogFacts PartitionWriter PartitionWriterFacts PartitionLogFacts PartitionReader Reconciler KeyCompaction.

(** ** The reference *)

Definition key_of (r : Record_) : option bytes := match r_key r with Some (b :: k) => Some (b :: k) | _ => None end.

(** The last record of the key. *)
Fixpoint latest (rs : list Record_) (k : bytes) : option Record_ :=
  match rs with
  | [] => None
  | r :: rs => match latest rs k with Some x => Some x | None => if bool_decide (key_of r = Some k) then Some r else None end
  end.

Section reference.
Context (config : CompactionConfig) (now : Z).

(** Whether the record stays, before the records [later]. *)
Definition stays (r : Record_) (later : list Record_) : bool :=
  match key_of r with
  | None => true
  | Some k => bool_decide (latest later k = None) && (negb (bool_decide (r_value r = [])) || retained config now (r_timestamp r))
  end.

Fixpoint compact_log (rs : list Record_) : list Record_ :=
  match rs with
  | [] => []
  | r :: later => if stays r later then r :: compact_log later else compact_log later
  end.
End reference.

(** A log read as a table of values, in which a tombstone deletes. *)
Definition apply_record (m : gmap bytes bytes) (r : Record_) : gmap bytes bytes :=
  match key_of r with
  | None => m
  | Some k => match r_value r with [] => delete k m | v => <[k := v]> m end
  end.
Definition table (rs : list Record_) : gmap bytes bytes := foldl apply_record ∅ rs.

(** ** The last record of a key *)

Lemma latest_app a b k : latest (a ++ b) k = match latest b k with Some x => Some x | None => latest a k end.
Proof. induction a as [|r a IH]; cbn [app latest]; [by destruct (latest b k)|]. rewrite IH. by destruct (latest b k). Qed.

Lemma latest_snoc rs r k : latest (rs ++ [r]) k = if bool_decide (key_of r = Some k) then Some r else latest rs k.
Proof. rewrite latest_app. cbn [latest]. by case_bool_decide. Qed.

Lemma latest_in rs k r : latest rs k = Some r -> r ∈ rs /\ key_of r = Some k.
Proof.
  induction rs as [|x rs IH]; cbn [latest]; [done|]. destruct (latest rs k) as [y|].
  - intros [= ->]. destruct IH as [? ?]; [done|]. split; [by right|done].
  - case_bool_decide; [|done]. intros [= ->]. split; [by left|done].
Qed.

Lemma latest_none rs k : latest rs k = None <-> forall r, r ∈ rs -> key_of r <> Some k.
Proof.
  induction rs as [|x rs IH]; cbn [latest].
  - split; [|done]. intros _ r Hr. by apply not_elem_of_nil in Hr.
  - destruct (latest rs k) as [y|] eqn:Hl.
    + split; [done|]. intros H. destruct (latest_in _ _ _ Hl) as [Hin Hk]. by destruct (H y ltac:(by right)).
    + case_bool_decide as Hx.
      * split; [done|]. intros H. by destruct (H x ltac:(by left)).
      * split; [|done]. intros _ r [->|Hr]%elem_of_cons; [done|]. by apply IH.
Qed.

Lemma key_of_some r k : key_of r = Some k -> r_key r = Some k /\ k <> [].
Proof. unfold key_of. destruct (r_key r) as [[|b k']|]; [done| |done]. by intros [= <-]. Qed.

Lemma record_eta r k : key_of r = Some k -> r = mk_record (r_offset r) (r_timestamp r) (Some k) (r_value r).
Proof. intros [Hk _]%key_of_some. destruct r. cbn in *. by subst. Qed.

(** ** The table of a compacted log *)

Lemma table_lookup rs m k :
  foldl apply_record m rs !! k
  = match latest rs k with Some r => if bool_decide (r_value r = []) then None else Some (r_value r) | None => m !! k end.
Proof.
  revert m. induction rs as [|r rs IH]; intros m; cbn [foldl latest]; [done|]. rewrite IH.
  destruct (latest rs k); [done|]. unfold apply_record. case_bool_decide as Hk.
  - rewrite Hk. destruct (r_value r); [by rewrite lookup_delete_eq|by rewrite lookup_insert_eq].
  - destruct (key_of r) as [k'|]; [|done].
    destruct (r_value r); [rewrite lookup_delete_ne by congruence|rewrite lookup_insert_ne by congruence]; done.
Qed.

Section reference_facts.
Context (config : CompactionConfig) (now : Z).
Abbreviation compact_log := (compact_log config now).
Abbreviation stays := (stays config now).

Lemma compact_sublist rs : compact_log rs `sublist_of` rs.
Proof. induction rs as [|r rs IH]; cbn; [done|]. destruct (stays r rs); [by constructor|by apply sublist_cons]. Qed.

(** The latest record of a key is that of the log, unless it is an expired tombstone. *)
Lemma latest_compact rs k :
  latest (compact_log rs) k
  = match latest rs k with
    | Some r => if bool_decide (r_value r = []) && negb (retained config now (r_timestamp r)) then None else Some r
    | None => None
    end.
Proof.
  induction rs as [|r rs IH]; cbn [KeyCompactionFacts.compact_log latest]; [done|].
  destruct (stays r rs) eqn:Hs; cbn [latest]; rewrite IH.
  - destruct (latest rs k) as [x|] eqn:Hl.
    + destruct (bool_decide _ && _); [|done]. case_bool_decide as Hk; [|done].
      unfold KeyCompactionFacts.stays in Hs. rewrite Hk, Hl in Hs. by rewrite bool_decide_eq_false_2 in Hs.
    + case_bool_decide as Hk; [|done]. unfold KeyCompactionFacts.stays in Hs. rewrite Hk in Hs.
      apply andb_true_iff in Hs as [_ Hs]. by destruct (bool_decide (r_value r = [])), (retained config now (r_timestamp r)).
  - destruct (latest rs k) as [x|] eqn:Hl; [done|]. case_bool_decide as Hk; [|done].
    unfold KeyCompactionFacts.stays in Hs. rewrite Hk, Hl, bool_decide_eq_true_2 in Hs by done. cbn [andb] in Hs.
    by destruct (bool_decide (r_value r = [])), (retained config now (r_timestamp r)).
Qed.

Lemma table_compact rs : table (compact_log rs) = table rs.
Proof.
  apply map_eq. intros k. unfold table. rewrite !table_lookup, latest_compact. destruct (latest rs k) as [r|]; [|done].
  destruct (bool_decide (r_value r = [])) eqn:Hv; cbn [andb]; [|by rewrite Hv].
  destruct (retained _ _ _); cbn [negb]; [by rewrite Hv|done].
Qed.

Lemma compact_idempotent rs : compact_log (compact_log rs) = compact_log rs.
Proof.
  induction rs as [|r rs IH]; cbn [KeyCompactionFacts.compact_log]; [done|]. destruct (stays r rs) eqn:Hs; [|done].
  cbn [KeyCompactionFacts.compact_log]. rewrite IH.
  assert (Hs' : stays r (compact_log rs) = true); [|by rewrite Hs'].
  unfold KeyCompactionFacts.stays in *. destruct (key_of r) as [k|]; [|done].
  apply andb_true_iff in Hs as [Hl Hr]. apply bool_decide_eq_true in Hl. by rewrite latest_compact, Hl, Hr.
Qed.

Lemma elem_of_compact rs r :
  increasing rs ->
  (r ∈ compact_log rs) <->
  (r ∈ rs) /\ match key_of r with
             | None => True
             | Some k => latest rs k = Some r /\ (r_value r <> [] \/ retained config now (r_timestamp r) = true)
             end.
Proof.
  revert r. induction rs as [|x rs IH]; intros r Hi; cbn [KeyCompactionFacts.compact_log latest].
  { split; [intros H; by apply not_elem_of_nil in H|by intros [H _]]. }
  apply StronglySorted_inv in Hi as [Hi Hx]. pose proof (fun r => IH r Hi) as IH0. clear IH. rename IH0 into IH.
  assert (Hnot : x ∉ rs) by (intros Hin; pose proof (proj1 (Forall_forall _ _) Hx x Hin) as Hlt; cbn in Hlt; lia).
  assert (Hself : x ∈ (if stays x rs then x :: compact_log rs else compact_log rs) <-> stays x rs = true).
  { destruct (stays x rs); [split; [done|by left]|]. rewrite IH. by split; [intros [? _]|]. }
  destruct (decide (r = x)) as [->|Hne].
  - rewrite Hself. unfold KeyCompactionFacts.stays. destruct (key_of x) as [k|] eqn:Hk; [|by split; [split; [left|]|]].
    rewrite andb_true_iff, bool_decide_eq_true, orb_true_iff, negb_true_iff, bool_decide_eq_false, (bool_decide_eq_true_2 (Some k = Some k)) by done.
    split.
    + intros [Hl Hr]. split; [by left|]. by rewrite Hl.
    + intros [_ [Hl Hr]]. split; [|done]. destruct (latest rs k) as [y|] eqn:Hy; [|done]. injection Hl as ->.
      by destruct (latest_in _ _ _ Hy).
  - assert (Hsame : (r ∈ (if stays x rs then x :: compact_log rs else compact_log rs)) <-> (r ∈ compact_log rs)).
    { destruct (stays x rs); [|done]. rewrite elem_of_cons. by split; [intros [?|?]|right]. }
    rewrite Hsame, IH, elem_of_cons. destruct (key_of r) as [k|] eqn:Hk; [|split; [intros [? _]; split; [by right|done]|intros [[?|?] _]; [done|by split]]].
    split.
    + intros (Hin & Hl & Hr). split; [by right|]. by rewrite Hl.
    + intros ([?|Hin] & Hl & Hr); [done|]. split; [done|]. destruct (latest rs k) as [y|] eqn:Hy; [done|].
      case_bool_decide; [|done]. injection Hl as ->. done.
Qed.
End reference_facts.

(** ** The scan *)

Section scanning.
Context `{HO : HashOrder} `{HC : Codecs} `{HP : ObjectPaths} `{HJ : JsonMaps}.

(** What the tables of a scan hold after the records [rs]. *)
Record scan_ok (rs : list Record_) (s : scan) : Prop := {
  sc_keys : forall k, key_map s !! k =
    match latest rs k with
    | Some r => if bool_decide (r_value r = []) then None else Some (r_offset r, r_timestamp r, r_value r)
    | None => None
    end;
  sc_tombs : forall k, tombstones s !! k =
    match latest rs k with
    | Some r => if bool_decide (r_value r = []) then Some (r_offset r, r_timestamp r) else None
    | None => None
    end;
  sc_unkeyed : unkeyed_records s = filter (fun r => key_of r = None) rs;
  sc_count : records_processed s = len rs
}.

Lemma start_scan_ok : scan_ok [] start_scan.
Proof. by split. Qed.

Lemma add_bytes_ok rs s size : scan_ok rs s -> scan_ok rs (add_bytes size s).
Proof. by intros [? ? ? ?]. Qed.

Lemma scan_record_ok rs s r :
  scan_ok rs s -> increasing (rs ++ [r]) -> len rs < 2 ^ 63 -> scan_ok (rs ++ [r]) (scan_record s r).
Proof.
  intros [Hk Ht Hu Hc] Hi Hlen.
  assert (Hcount : wrap 64 (records_processed s + 1) = len (rs ++ [r])).
  { rewrite Hc, length_app, wrap_small by (unfold in_u; lia). cbn [length]. lia. }
  assert (Hun : forall k, key_of r = Some k -> filter (fun r => key_of r = None) (rs ++ [r]) = unkeyed_records s).
  { intros k Hr. rewrite filter_app, filter_cons_False, filter_nil, app_nil_r, Hu by congruence. done. }
  unfold scan_record. destruct (key_of r) as [k|] eqn:Hr.
  - destruct (key_of_some _ _ Hr) as [Hrk Hne]. rewrite Hrk. destruct k as [|b k]; [done|].
    assert (Hfresh : match key_map s !! (b :: k) with Some (o, _, _) => o <? r_offset r | None => true end = true).
    { rewrite Hk. destruct (latest rs (b :: k)) as [x|] eqn:Hl; [|done]. case_bool_decide; [done|].
      apply increasing_app in Hi as (_ & _ & Hlt). apply Z.ltb_lt, Hlt; [by eapply latest_in|by left]. }
    destruct (r_value r) as [|v vs] eqn:Hv; [|rewrite Hfresh]; (split; cbn [key_map tombstones unkeyed_records records_processed]; [| |by rewrite (Hun _ eq_refl)|done]); intros k'; rewrite latest_snoc, Hr;
      (case_bool_decide as He; [injection He as <-|]; [|rewrite ?lookup_delete_ne, ?lookup_insert_ne by congruence; try apply Hk; try apply Ht]).
    + by rewrite lookup_delete_eq, bool_decide_eq_true_2.
    + by rewrite lookup_insert_eq, bool_decide_eq_true_2.
    + rewrite lookup_insert_eq, bool_decide_eq_false_2 by congruence. by rewrite Hv.
    + by rewrite lookup_delete_eq, bool_decide_eq_false_2 by congruence.
  - assert (Hnk : forall A (f : bytes -> A) (d : A), match r_key r with Some ((_ :: _) as key) => f key | _ => d end = d).
    { intros A f d. unfold key_of in Hr. by destruct (r_key r) as [[|]|]. }
    rewrite (Hnk _ (fun key => _)). split; cbn [key_map tombstones unkeyed_records records_processed]; [| | |done].
    + intros k'. rewrite latest_snoc, Hr. apply Hk.
    + intros k'. rewrite latest_snoc, Hr. apply Ht.
    + by rewrite filter_app, filter_cons_True, filter_nil, Hu.
Qed.

Lemma scan_records_ok rs : forall pre s,
  scan_ok pre s -> increasing (pre ++ rs) -> len (pre ++ rs) < 2 ^ 63 -> scan_ok (pre ++ rs) (foldl scan_record s rs).
Proof.
  induction rs as [|r rs IH]; intros pre s Hs Hi Hlen; cbn [foldl]; [by rewrite app_nil_r|].
  replace (pre ++ r :: rs) with ((pre ++ [r]) ++ rs) in * by by rewrite <- app_assoc.
  apply IH; [|done|done]. apply scan_record_ok; [done|by apply increasing_app in Hi as (? & _)|rewrite !length_app in Hlen; lia].
Qed.

(** ** The output *)

#[local] Instance by_offset_total : Total by_offset.
Proof. intros a b. unfold by_offset. lia. Qed.
#[local] Instance by_offset_trans : Transitive by_offset.
Proof. intros a b c. unfold by_offset. lia. Qed.

Lemma increasing_NoDup rs : increasing rs -> NoDup rs.
Proof.
  induction 1 as [|r rs _ IH Hr]; constructor; [|done]. intros Hin.
  pose proof (proj1 (Forall_forall _ _) Hr r Hin) as Hlt. cbn in Hlt. lia.
Qed.

Lemma increasing_unique l rs :
  l ≡ₚ rs -> increasing rs -> merge_sort by_offset l = rs.
Proof.
  intros Hp Hi. apply (StronglySorted_unique_strong by_offset).
  - intros a b Ha Hb Hab Hba. rewrite merge_sort_Permutation, Hp in Ha.
    apply list_elem_of_split in Ha as (pre & post & He). rewrite He in Hi, Hb. 
    apply increasing_app in Hi as (_ & Hi & Hpre). apply StronglySorted_inv in Hi as [_ Hpost]. unfold by_offset in *.
    apply elem_of_app in Hb as [Hb|[->|Hb]%elem_of_cons]; [|done|].
    + pose proof (Hpre b a Hb ltac:(by left)). lia.
    + pose proof (proj1 (Forall_forall _ _) Hpost b Hb) as Hlt. cbn in Hlt. lia.
  - apply StronglySorted_merge_sort; apply _.
  - clear Hp. induction Hi as [|r rs _ IH Hr]; constructor; [done|]. apply (Forall_impl _ _ _ Hr). unfold by_offset. lia.
  - by rewrite merge_sort_Permutation.
Qed.

Lemma compacted_records_spec config now rs s :
  scan_ok rs s -> increasing rs -> compacted_records config now s = compact_log config now rs.
Proof.
  intros [Hk Ht Hu _] Hi. apply increasing_unique.
  2: { pose proof (compact_sublist config now rs) as Hs. clear -Hi Hs. revert Hs. generalize (compact_log config now rs) as l.
       induction Hi as [|r rs _ IH Hr]; intros l Hs; [by apply sublist_nil_r in Hs as ->; constructor|].
       inversion Hs as [|x l1 l2 Hs'|x l1 l2 Hs']; subst; [|by apply IH]. constructor; [by apply IH|].
       apply Forall_forall. intros x Hx. apply (proj1 (Forall_forall _ _) Hr). by eapply sublist_subseteq. }
  set (A := map _ (iter (key_map s))). set (B := map _ (iter _)).
  assert (HA : forall r, (r ∈ A) <-> exists k, latest rs k = Some r /\ r_value r <> []).
  { intros r. unfold A. rewrite list_elem_of_fmap. split.
    - intros ([k [[o t] v]] & -> & Hin). apply elem_of_iter in Hin. rewrite Hk in Hin.
      destruct (latest rs k) as [x|] eqn:Hl; [|done]. case_bool_decide as Hv; [done|]. injection Hin as <- <- <-.
      exists k. destruct (latest_in _ _ _ Hl) as [_ Hkey]. rewrite <- (record_eta x k Hkey). done.
    - intros (k & Hl & Hv). exists (k, (r_offset r, r_timestamp r, r_value r)).
      destruct (latest_in _ _ _ Hl) as [_ Hkey]. split; [by apply record_eta|]. apply elem_of_iter. rewrite Hk, Hl.
      by rewrite bool_decide_eq_false_2. }
  assert (HB : forall r, (r ∈ B) <-> exists k, latest rs k = Some r /\ r_value r = [] /\ retained config now (r_timestamp r) = true).
  { intros r. unfold B. rewrite list_elem_of_fmap. split.
    - intros ([k [o t]] & -> & Hin). apply elem_of_iter, map_lookup_filter_Some in Hin as [Hin Hret]. rewrite Ht in Hin.
      destruct (latest rs k) as [x|] eqn:Hl; [|done]. case_bool_decide as Hv; [|done]. injection Hin as <- <-.
      exists k. destruct (latest_in _ _ _ Hl) as [_ Hkey]. rewrite <- Hv, <- (record_eta x k Hkey). done.
    - intros (k & Hl & Hv & Hret). exists (k, (r_offset r, r_timestamp r)).
      destruct (latest_in _ _ _ Hl) as [_ Hkey]. split; [rewrite <- Hv; by apply record_eta|].
      apply elem_of_iter, map_lookup_filter_Some. by rewrite Ht, Hl, bool_decide_eq_true_2. }
  apply NoDup_Permutation.
  - apply NoDup_app. split; [|split]; [|intros x Hx|apply NoDup_app; split; [|split]; [|intros x Hx|]].
    + apply NoDup_fmap_2_strong; [|apply NoDup_fmap_1 with fst; apply iter_NoDup].
      intros [k [[o t] v]] [k' [[o' t'] v']] _ _ [= -> -> -> ->]. done.
    + apply HA in Hx as (k & Hl & Hv). rewrite elem_of_app. intros [Hx|Hx].
      * apply HB in Hx as (_ & _ & Hv' & _). done.
      * rewrite Hu in Hx. apply list_elem_of_filter in Hx as [Hx _]. destruct (latest_in _ _ _ Hl). congruence.
    + apply NoDup_fmap_2_strong; [|apply NoDup_fmap_1 with fst; apply iter_NoDup].
      intros [k [o t]] [k' [o' t']] _ _ [= -> -> ->]. done.
    + apply HB in Hx as (k & Hl & _). intros Hx. rewrite Hu in Hx. apply list_elem_of_filter in Hx as [Hx _].
      destruct (latest_in _ _ _ Hl). congruence.
    + rewrite Hu. by apply NoDup_filter, increasing_NoDup.
  - eapply sublist_NoDup; [by apply increasing_NoDup|apply compact_sublist].
  - intros r. rewrite !elem_of_app, HA, HB, elem_of_compact, Hu, list_elem_of_filter by done.
    destruct (key_of r) as [k|] eqn:Hkey.
    + assert (Hone : forall k', latest rs k' = Some r -> k' = k).
      { intros k' Hl. destruct (latest_in _ _ _ Hl) as [_ Hkk]. congruence. }
      split.
      * intros [(k' & Hl & Hv)|[(k' & Hl & Hv & Hr)|[? _]]]; [| |done];
          pose proof (Hone _ Hl); subst k'; destruct (latest_in _ _ _ Hl) as [Hin _]; (split; [done|]); (split; [done|]); [by left|by right].
      * intros (_ & Hl & Hr). destruct (decide (r_value r = [])); [|left; by exists k].
        destruct Hr as [|Hr]; [done|]. right. left. by exists k.
    + split; [|intros [Hin _]; by do 2 right].
      intros [(k' & Hl & _)|[(k' & Hl & _)|[_ Hin]]]; [destruct (latest_in _ _ _ Hl); congruence..|done].
Qed.
End scanning.

(** ** A run over stored segments *)

(** How many of the segments a run reads. *)
Fixpoint scanned (limit count : Z) (chs : list (list Record_)) : nat :=
  match chs with
  | [] => 0
  | ch :: chs => if limit <=? count then 0 else S (scanned limit (count + len ch) chs)
  end.

Lemma scanned_le limit count chs : (scanned limit count chs <= length chs)%nat.
Proof. revert count. induction chs as [|ch chs IH]; intros count; cbn; [lia|]. destruct (_ <=? _); [lia|]. specialize (IH (count + len ch)). lia. Qed.

Lemma scanned_all limit count chs : count + len (concat chs) <= limit -> Forall (fun ch => ch <> []) chs -> scanned limit count chs = length chs.
Proof.
  intros Hl Hne. revert count Hl. induction Hne as [|ch chs Hch _ IH]; intros count Hl; cbn in *; [done|].
  rewrite length_app in Hl. assert (0 < len ch) by (destruct ch; [done|cbn; lia]).
  destruct (Z.leb_spec limit count); [lia|]. rewrite IH by lia. done.
Qed.

Lemma record_ok_normalise r : record_ok r -> record_ok (normalise r).
Proof. intros (H1 & H2 & H3 & H4). unfold record_ok, normalise. cbn. by destruct (r_key r) as [[|]|]. Qed.

Lemma normalise_twice r : normalise (normalise r) = normalise r.
Proof. unfold normalise. cbn. by destruct (r_key r) as [[|]|]. Qed.

Lemma increasing_normalise rs : increasing rs -> increasing (map normalise rs).
Proof. unfold increasing. induction 1 as [|r rs _ IH Hr]; cbn; constructor; [done|]. by apply Forall_map. Qed.

Lemma increasing_sublist l rs : increasing rs -> l `sublist_of` rs -> increasing l.
Proof.
  intros Hi. revert l. induction Hi as [|r rs _ IH Hr]; intros l Hs; [by apply sublist_nil_r in Hs as ->; constructor|].
  inversion Hs as [|x l1 l2 Hs'|x l1 l2 Hs']; subst; [|by apply IH]. constructor; [by apply IH|].
  apply Forall_forall. intros x Hx. apply (proj1 (Forall_forall _ _) Hr). by eapply sublist_subseteq.
Qed.

Lemma nonempty_cons {A} (l : list A) : (0 < length l)%nat -> exists x xs, l = x :: xs.
Proof. destruct l as [|x xs]; cbn; [lia|]. by exists x, xs. Qed.

Lemma take_first {A} (l : list A) x n : l !! 0%nat = Some x -> (0 < n)%nat -> exists rest, take n l = x :: rest.
Proof. intros Hl Hn. destruct l as [|y l]; [done|]. injection Hl as ->. destruct n as [|n]; [lia|]. by exists (take n l). Qed.

Lemma first_offset_concat chs ch : chs !! 0%nat = Some ch -> ch <> [] -> first_offset (concat chs) = first_offset ch.
Proof. destruct chs as [|c chs]; [done|]. intros [= ->] Hne. by destruct ch. Qed.

Lemma mapM_none {A B} (f : A -> option B) l x : x ∈ l -> f x = None -> mapM f l = None.
Proof.
  intros Hx Hf. induction l as [|y l IH]; [by apply not_elem_of_nil in Hx|]. apply elem_of_cons in Hx as [<-|Hx]; cbn [mapM].
  - by rewrite Hf.
  - rewrite IH by done. by destruct (f y).
Qed.

(** ** Names *)

Lemma padded_head n v : exists d x, padded (S n) v = String d x /\ (48 <= Ascii.N_of_ascii d <= 57)%N.
Proof.
  revert v. induction n as [|n IH]; intros v.
  - pose proof (Z.mod_pos_bound v 10 ltac:(lia)). eexists _, _. split; [done|]. rewrite Ascii.N_ascii_embedding; lia.
  - destruct (IH (v / 10)) as (d & x & Hp & Hd). exists d. eexists. split; [|done]. cbn [padded] in *. rewrite Hp. by rewrite str_app_cons.
Qed.

Lemma plain_go x s : plain s = true -> plain (pretty_N_go x s) = true.
Proof.
  revert s. induction (N.lt_wf_0 x) as [x _ IH]. intros s Hs. destruct (decide (x = 0%N)) as [-> |Hx].
  - by rewrite pretty_N_go_0.
  - rewrite pretty_N_go_step by lia. apply IH; [apply N.div_lt; lia|]. cbn [plain]. rewrite Hs, andb_true_r.
    generalize (x mod 10)%N. intros [|q]; [done|]. by do 4 try (destruct q as [q|q|]; try done).
Qed.

Lemma plain_pretty v : 0 <= v -> plain (pretty v) = true.
Proof. intros Hv. destruct v as [|q|q]; [done| |lia]. change (plain (pretty_N_go (N.pos q) "") = true). by apply plain_go. Qed.

Lemma plain_compacted v : 0 <= v -> plain (compacted_name v) = true.
Proof. intros Hv. unfold compacted_name. rewrite !plain_app, plain_pretty by done. done. Qed.

Section run.
Context `{HO : HashOrder} `{HC : Codecs} `{!CodecLaws HC} `{HP : ObjectPaths} `{HJ : JsonMaps}.

(** The sizes of segments, in 64 bits. *)
Definition sizes (segs : list SegmentInfo) : Z := foldr (fun seg a => si_size_bytes seg + a) 0 segs.

Lemma scan_records_bytes rs s : original_bytes (foldl scan_record s rs) = original_bytes s.
Proof.
  revert s. induction rs as [|r rs IH]; intros s; [done|]. cbn [foldl]. rewrite IH. unfold scan_record.
  destruct (r_key r) as [[|b key]|]; [done| |done]. destruct (r_value r); [done|]. by destruct (key_map s !! _) as [[[? ?] ?]|]; [destruct (_ <? _)|].
Qed.

Lemma scan_segments_ok config objects env : forall segs chs i pre s,
  Forall2 (fun ch seg => forall i, load_segment objects seg env i = Ok (map normalise ch)) chs segs ->
  scan_ok pre s -> increasing (pre ++ map normalise (concat chs)) -> len (pre ++ concat chs) < 2 ^ 63 ->
  exists s', scan_segments config objects segs env i s = Ok s'
    /\ scan_ok (pre ++ map normalise (concat (take (scanned (max_records_per_run config) (len pre) chs) chs))) s'
    /\ (original_bytes s = wrap 64 (original_bytes s) -> original_bytes s' = wrap 64 (original_bytes s + sizes (take (scanned (max_records_per_run config) (len pre) chs) segs))).
Proof.
  intros segs chs i pre s H2. revert i pre s. induction H2 as [|ch seg chs segs Hload _ IH]; intros i pre s Hs Hi Hlen; cbn [scan_segments scanned].
  - exists s. rewrite app_nil_r. cbn. by rewrite Z.add_0_r.
  - rewrite (sc_count _ _ Hs). destruct (_ <=? _); [exists s; rewrite app_nil_r; cbn; by rewrite Z.add_0_r|].
    rewrite Hload. cbn [mbind outcome_bind concat take]. cbn [concat] in Hi, Hlen. rewrite map_app, app_assoc in Hi.
    rewrite app_assoc, length_app in Hlen.
    assert (Hl : length (pre ++ map normalise ch) = length (pre ++ ch)) by by rewrite !length_app, length_map.
    destruct (IH (S i) (pre ++ map normalise ch) (foldl scan_record (add_bytes (si_size_bytes seg) s) (map normalise ch))) as (s' & Hs' & Hok & Hbytes).
    + apply scan_records_ok; [by apply add_bytes_ok|by apply increasing_app in Hi as (? & _)|rewrite Hl; lia].
    + done.
    + rewrite length_app, Hl. lia.
    + exists s'. split; [done|]. rewrite length_app, length_map, Nat2Z.inj_add in Hok, Hbytes. rewrite map_app, app_assoc. split; [done|].
      intros _. rewrite scan_records_bytes in Hbytes. cbn [add_bytes original_bytes] in Hbytes. rewrite Hbytes.
      * unfold sizes, wrap. cbn [take foldr]. rewrite Zplus_mod_idemp_l. f_equal. lia.
      * unfold wrap. by rewrite Zmod_mod.
Qed.

Lemma decode_object_load objects seg env i data rs :
  ce_get env i = None -> ce_bytes env i = None -> objects !! path_from (si_s3_key seg) = Some data ->
  decode_object data = Some rs -> load_segment objects seg env i = Ok rs.
Proof.
  intros Hg Hb Ho Hd. unfold load_segment. rewrite Hg, Ho, Hb. unfold decode_object in Hd.
  destruct (Reader.new data) as [rd| |]; [|done..]. cbn [map_err mbind outcome_bind].
  destruct (Reader.read_all rd); [by injection Hd as ->|done..].
Qed.

Lemma described_loads prefix t p wd env chs segs :
  objects_fit wd -> Forall (object_holds prefix t p (objects wd)) chs -> Forall2 (describes prefix t p) chs segs ->
  (forall i, ce_get env i = None /\ ce_bytes env i = None) ->
  Forall2 (fun ch seg => forall i, load_segment (objects wd) seg env i = Ok (map normalise ch)) chs segs.
Proof.
  intros Hfit Ho H2 Hget. induction H2 as [|ch s chs segs (Hb & _ & Hk) _ IH]; [constructor|].
  apply Forall_cons in Ho as [(data & Hd & Hopen) Ho]. constructor; [|by apply IH]. intros i.
  destruct (Hget i) as [Hg Hby]. rewrite <- Hk in Hd. apply (decode_object_load _ _ _ _ data); [done..|].
  by destruct (Hopen (Hfit _ _ Hd)).
Qed.

Lemma write_segment_opens rs :
  rs <> [] -> Forall record_ok rs -> len rs < 2 ^ 32 ->
  exists data, write_segment rs = Ok data /\ (len data < 2 ^ 63 -> opens data rs).
Proof.
  intros Hne Hok Hlen. destruct (append_all_layout Lz4 (Writer.new Lz4) rs [] []) as (w & chunks & cur & Ha & _);
    [done|apply layout_new|]. unfold write_segment. rewrite Ha. cbn [map_err mbind outcome_bind].
  destruct (holds_finish rs w Ha Hne Hok Hlen) as (_ & _ & data & -> & Hopen). by exists data.
Qed.

Lemma delete_objects_lookup segs results objects path :
  delete_objects segs results objects !! path = None \/ delete_objects segs results objects !! path = objects !! path.
Proof.
  revert results objects. induction segs as [|s segs IH]; intros results objects; cbn [delete_objects]; [by right|].
  destruct (IH (fun i => results (S i)) (match results 0%nat with
         | PutOk | PutErr _ true => delete (path_from (si_s3_key s)) objects
         | PutErr _ false => objects
         end)) as [H|H]; [by left|]. rewrite H.
  destruct (results 0%nat) as [|? []]; [| |by right];
    (destruct (decide (path = path_from (si_s3_key s))) as [->|]; [left; apply lookup_delete_eq|right; by apply lookup_delete_ne]).
Qed.

Lemma delete_objects_gone segs results objects s :
  (forall i, results i = PutOk) -> s ∈ segs -> delete_objects segs results objects !! path_from (si_s3_key s) = None.
Proof.
  intros Hr Hs. revert results objects Hr. induction segs as [|x segs IH]; intros results objects Hr; [by apply not_elem_of_nil in Hs|].
  cbn [delete_objects]. rewrite Hr. apply elem_of_cons in Hs as [->|Hs]; [|by apply IH].
  match goal with |- delete_objects _ ?r ?o !! ?k = _ => destruct (delete_objects_lookup segs r o k) as [H|H]; [done|] end.
  rewrite H. apply lookup_delete_eq.
Qed.

Lemma delete_objects_kept segs results objects path :
  (forall s, s ∈ segs -> path_from (si_s3_key s) <> path) -> delete_objects segs results objects !! path = objects !! path.
Proof.
  revert results objects. induction segs as [|x segs IH]; intros results objects Hne; cbn [delete_objects]; [done|].
  rewrite IH by (intros s Hs; apply Hne; by right). specialize (Hne x ltac:(by left)).
  destruct (results 0%nat) as [|? []]; [by apply lookup_delete_ne..|done].
Qed.

(** The rows a listing is made of. *)
Lemma elem_of_get_segments org t p d s :
  (s ∈ get_segments org t p d) <->
  exists id row, segments d !! id = Some (org, row) /\ si_topic row = t /\ si_partition_id row = swrap 32 p /\ s = segment_of_row row.
Proof.
  unfold get_segments. rewrite list_elem_of_fmap. setoid_rewrite merge_sort_Permutation. setoid_rewrite list_elem_of_fmap. split.
  - intros (row & -> & ([o r] & -> & Hin)). apply list_elem_of_filter in Hin as [(Ho & Ht & Hp) [id Hid]%elem_of_segment_rows].
    cbn in *. subst. by exists id, r.
  - intros (id & row & Hid & Ht & Hp & ->). exists row. split; [done|]. exists (org, row). split; [done|].
    apply list_elem_of_filter. split; [done|]. apply elem_of_segment_rows. by exists id.
Qed.
End run.

Section stored.
Context `{HO : HashOrder} `{HC : Codecs} `{!CodecLaws HC} `{HP : ObjectPaths} `{!ObjectPathLaws HP} `{HJ : JsonMaps}.
Context (org t : string) (p : Z) (prefix : string) (committed : list (list Record_)) (wd : world).
Context (Hst : store_ok org t p prefix committed wd) (Hfit : objects_fit wd).
Context (config : CompactionConfig) (env : compact_env) (n : nat).

Let rows := get_segments org t p (catalog wd).
Let old := take n committed.
Let read := map normalise (concat (take (scanned (max_records_per_run config) 0 old) old)).
Let out := compact_log config (ce_now env) read.

(** The [n] oldest segments are old enough, and no call fails. *)
Record works : Prop := {
  wk_eligible : List.filter (eligible config (ce_now env)) rows = take n rows;
  wk_two : (2 <= n <= length committed)%nat;
  wk_segments : ce_segments env = None;
  wk_get : forall i, ce_get env i = None /\ ce_bytes env i = None;
  wk_put : ce_put env = PutOk;
  wk_add : ce_add env = None;
  wk_delete : forall i, ce_delete env i = PutOk;
  wk_rows : ce_delete_rows env = None;
  wk_org : org ∈ organizations (catalog wd)
}.

(** The identifier and the path of the new segment are not taken. *)
Definition new_id (first : Record_) : string := t +:+ "-" +:+ pretty p +:+ "-" +:+ pretty (r_offset first) +:+ "-compacted".
Definition new_path (first : Record_) : string := path_from (compacted_key org t p (r_offset first)).

Lemma old_loads : works ->
  Forall2 (fun ch seg => forall i, load_segment (objects wd) seg env i = Ok (map normalise ch)) old (take n rows).
Proof.
  intros Hw. apply Forall2_take. pose proof (rows_describe _ _ _ _ _ _ Hst) as H2.
  apply (described_loads prefix t p wd); [done|by apply so_objects in Hst|done|by apply wk_get].
Qed.

Lemma stored_records : Forall record_ok (concat committed).
Proof.
  by apply records_concat, (so_records _ _ _ _ _ _ Hst).
Qed.

Lemma stored_len : len (concat committed) < 2 ^ 63.
Proof.
  pose proof (len_next _ (so_order _ _ _ _ _ _ Hst) stored_records). pose proof (so_bound _ _ _ _ _ _ Hst). lia.
Qed.

Lemma old_prefix : exists post, concat committed = concat old ++ post.
Proof. exists (concat (drop n committed)). rewrite <- concat_app. unfold old. by rewrite take_drop. Qed.

Lemma read_prefix : exists post, map normalise (concat committed) = read ++ post.
Proof.
  destruct old_prefix as [post ->]. exists (map normalise (concat (drop (scanned (max_records_per_run config) 0 old) old)) ++ map normalise post).
  unfold read. rewrite <- !map_app, app_assoc, <- concat_app, take_drop. done.
Qed.

Lemma read_facts : increasing read /\ Forall record_ok read /\ len read < 2 ^ 63.
Proof.
  destruct read_prefix as [post Hpre]. pose proof (increasing_normalise _ (so_order _ _ _ _ _ _ Hst)) as Hi.
  pose proof (Forall_map normalise record_ok (concat committed)) as Hm. pose proof stored_len as Hl.
  assert (Hok : Forall record_ok (map normalise (concat committed))).
  { apply Hm, (Forall_impl _ _ _ stored_records), record_ok_normalise. }
  rewrite <- (length_map normalise) in Hl. rewrite Hpre in Hi, Hok, Hl.
  apply increasing_app in Hi as (Hi & _). apply Forall_app in Hok as [Hok _]. rewrite length_app in Hl. split; [done|]. split; [done|lia].
Qed.

Lemma scan_old : works ->
  exists s, scan_segments config (objects wd) (take n rows) env 0 start_scan = Ok s
    /\ compacted_records config (ce_now env) s = out /\ records_processed s = len read
    /\ original_bytes s = wrap 64 (sizes (take (scanned (max_records_per_run config) 0 old) (take n rows))).
Proof.
  intros Hw. destruct old_prefix as [post Hpre]. pose proof (so_order _ _ _ _ _ _ Hst) as Hi. pose proof stored_len as Hl.
  rewrite Hpre in Hi, Hl. apply increasing_app in Hi as (Hi & _). rewrite length_app in Hl.
  destruct (scan_segments_ok config (objects wd) env (take n rows) old 0 [] start_scan (old_loads Hw) start_scan_ok) as (s & Hs & Hok & Hbytes).
  - cbn [app]. by apply increasing_normalise.
  - cbn [app]. lia.
  - exists s. cbn [app length] in Hok. change (Z.of_nat 0) with 0 in Hok. split; [done|]. destruct read_facts as (Hir & _).
    split; [by apply compacted_records_spec|]. split; [apply (sc_count _ _ Hok)|by apply Hbytes].
Qed.

Lemma log_bounds r : r ∈ map normalise (concat committed) -> first_offset (concat committed) <= r_offset r < 2 ^ 63 /\ 0 <= first_offset (concat committed).
Proof.
  intros (x & -> & Hx)%list_elem_of_fmap. pose proof (so_order _ _ _ _ _ _ Hst) as Hi. pose proof (so_bound _ _ _ _ _ _ Hst) as Hb.
  pose proof (next_offset_above _ x Hi Hx) as Hn. pose proof stored_records as Hok. cbn [normalise r_offset].
  destruct (concat committed) as [|r0 rs] eqn:He; [by apply not_elem_of_nil in Hx|]. apply Forall_cons in Hok as [[[? _] _] _].
  assert (Hf : first_offset (r0 :: rs) = r_offset r0) by done. rewrite Hf.
  apply elem_of_cons in Hx as [->|Hx]; [lia|]. apply StronglySorted_inv in Hi as [_ Hi].
  pose proof (proj1 (Forall_forall _ _) Hi x Hx) as Hlt. cbn in Hlt. lia.
Qed.

Lemma out_in_log r : r ∈ out -> r ∈ map normalise (concat committed).
Proof.
  intros Hr. destruct read_prefix as [post ->]. apply elem_of_app. left. unfold out in Hr.
  by eapply sublist_subseteq; [apply compact_sublist|].
Qed.

Lemma out_facts : increasing out /\ Forall record_ok out /\ map normalise out = out /\ (length out <= length read)%nat.
Proof.
  destruct read_facts as (Hi & Hok & _). pose proof (compact_sublist config (ce_now env) read) as Hs. fold out in Hs.
  split; [by apply (increasing_sublist _ read)|]. split; [|split; [|by apply sublist_length]].
  - apply Forall_forall. intros r Hr. apply (proj1 (Forall_forall _ _) Hok). by eapply sublist_subseteq.
  - assert (Hn : forall l, l ⊆ map normalise (concat committed) -> map normalise l = l).
    { induction l as [|r l IH]; intros Hl; [done|]. cbn [map]. rewrite IH by (intros x Hx; apply Hl; by right). f_equal.
      assert (Hr : r ∈ map normalise (concat committed)) by (apply Hl; by left).
      apply list_elem_of_fmap in Hr as (x & -> & _). apply normalise_twice. }
    apply Hn. intros r. apply out_in_log.
Qed.

(** The first row begins where the log does, and no row ends before it. *)
Lemma first_row : works -> exists s0 rest, take n rows = s0 :: rest /\ si_base_offset s0 = first_offset (concat committed).
Proof.
  intros Hw. pose proof (wk_two Hw) as Hn. pose proof (rows_describe _ _ _ _ _ _ Hst) as H2. fold rows in H2.
  destruct (lookup_lt_is_Some_2 committed 0) as [ch Hch]; [lia|]. destruct (Forall2_lookup_l _ _ _ _ _ H2 Hch) as (s0 & Hs0 & Hb & _).
  destruct (take_first rows s0 n Hs0 ltac:(lia)) as [rest Hrest]. exists s0, rest. split; [done|]. rewrite Hb.
  destruct (proj1 (Forall_forall _ _) (so_records _ _ _ _ _ _ Hst) ch) as [Hne _]; [by apply (list_elem_of_lookup_2 _ 0)|].
  symmetry. by apply first_offset_concat.
Qed.

Lemma rows_end row : row ∈ partition_rows org t p (catalog wd) -> first_offset (concat committed) <= si_end_offset row.
Proof.
  intros [i Hr]%list_elem_of_lookup. destruct (Forall2_lookup_r _ _ _ _ _ (so_rows _ _ _ _ _ _ Hst) Hr) as (ch & Hch & _ & -> & _).
  apply list_elem_of_split_length in Hch as (pre & post & He & _).
  destruct (chunk_facts committed (so_records _ _ _ _ _ _ Hst) (so_order _ _ _ _ _ _ Hst) _ _ _ He) as (Hne & _ & _ & Hrange & _).
  destruct (last_in_chunk ch Hne) as (r & Hr' & <-).
  assert (Hin : normalise r ∈ map normalise (concat committed)).
  { apply elem_of_map. rewrite He, concat_app. apply elem_of_app. right. cbn [concat]. apply elem_of_app. by left. }
  destruct (log_bounds _ Hin) as [[Hb _] _]. exact Hb.
Qed.

Lemma new_path_fresh first s :
  prefix = "org-" +:+ org +:+ "/data" -> 0 <= r_offset first -> s ∈ rows -> path_from (si_s3_key s) <> new_path first.
Proof.
  intros Hpre H0 [i Hs]%list_elem_of_lookup. destruct (Forall2_lookup_r _ _ _ _ _ (rows_describe _ _ _ _ _ _ Hst) Hs) as (ch & _ & _ & _ & ->).
  intros He. unfold new_path, compacted_key, segment_key in He. rewrite Hpre in He. apply path_from_inj in He.
  - unfold segment_name, compacted_name in He. destruct (padded_head 19 (first_offset ch)) as (d & x & Hp & Hd). rewrite Hp in He.
    rewrite str_app_cons in He. injection He as -> _. by destruct Hd.
  - unfold segment_name. by rewrite plain_app, plain_padded.
  - by apply plain_compacted.
Qed.

Lemma compaction_run first :
  works -> len (concat committed) < 2 ^ 32 -> head out = Some first -> segments (catalog wd) !! new_id first = None ->
  let read_bytes := wrap 64 (sizes (take (scanned (max_records_per_run config) 0 old) (take n rows))) in
  exists data d',
    compact_partition config org t p env wd
    = (mk_world (delete_objects (take n rows) (ce_delete env) (<[new_path first := data]> (objects wd))) d' (wal_dir wd),
       Ok (mk_compaction_result (len read) (len read - len out) (Z.of_nat n) (Z.max 0 (read_bytes - len data))))
    /\ (len data < 2 ^ 63 -> decode_object data = Some out)
    /\ forall s, s ∈ rows -> s ∈ get_segments org t p d'.
Proof.
  intros Hw Hcount Hhead Hid. destruct (scan_old Hw) as (s & Hscan & Hrec & Hproc & Hbytes). destruct out_facts as (Hio & Hoko & Hno & Hlo).
  destruct (list.last out) as [lst|] eqn:Hlast; [|apply last_None in Hlast; by rewrite Hlast in Hhead].
  destruct read_prefix as [post Hpre]. pose proof (f_equal length Hpre) as Hlen. rewrite length_map, length_app in Hlen.
  destruct (write_segment_opens out) as (data & Hwrite & Hopen); [by intros He; rewrite He in Hhead|done|lia|].
  destruct (first_row Hw) as (s0 & rest & Hrows & Hs0). pose proof (wk_two Hw) as Hn.
  assert (Hlr : length rows = length committed) by (symmetry; apply (Forall2_length _ _ _ (rows_describe _ _ _ _ _ _ Hst))).
  assert (Hlt : length (take n rows) = n) by (rewrite length_take; lia).
  assert (Hf : first ∈ out) by by apply head_elem. assert (Hl : lst ∈ out) by (apply last_Some in Hlast as [l ->]; apply elem_of_app; right; by left).
  destruct (log_bounds _ (out_in_log _ Hf)) as [Hfb H0]. destruct (log_bounds _ (out_in_log _ Hl)) as [Hlb _].
  assert (Hfl : r_offset first <= r_offset lst).
  { apply head_Some in Hhead as [l' Ho]. rewrite Ho in Hio, Hl. apply elem_of_cons in Hl as [->|Hl]; [lia|].
    apply StronglySorted_inv in Hio as [_ Hio]. pose proof (proj1 (Forall_forall _ _) Hio lst Hl) as Hlt'. cbn in Hlt'. lia. }
  unfold compact_partition. rewrite (wk_segments Hw). 
  assert (Hr : exists x xs, get_segments org t p (catalog wd) = x :: xs).
  { apply nonempty_cons. fold rows. lia. }
  destruct Hr as (x & xs & Hr). rewrite Hr. cbv iota. rewrite <- Hr. fold rows. rewrite (wk_eligible Hw), Hlt, (proj2 (Nat.ltb_ge n 2)) by lia. rewrite Hscan, Hrec, Hhead, Hlast, Hwrite.
  unfold replace_segments. rewrite (wk_put Hw), (wk_add Hw), (wk_rows Hw), Hlt, Hproc. cbn [attempt PartitionWriter.put].
  unfold add_segment, insert_segment. cbn [si_id]. fold (new_id first). rewrite Hid.
  cbn [segment_row si_end_offset si_base_offset]. rewrite !swrap_small by (unfold in_i; lia).
  rewrite (proj2 (Z.ltb_ge (r_offset lst) (r_offset first))) by lia. rewrite bool_decide_eq_true_2 by apply (wk_org Hw). cbn [negb].
  rewrite Hrows. cbv iota. rewrite <- Hrows. cbn [map_err mbind outcome_bind].
  rewrite Hbytes. exists data. eexists _. split; [f_equal; f_equal; f_equal; lia|]. split; [intros Hd; destruct (Hopen Hd) as [-> _]; by rewrite Hno|].
  intros sg (id & row & Hrow & Ht & Hp & ->)%elem_of_get_segments. apply elem_of_get_segments. exists id, row. split; [|done].
  unfold delete_segments_before. cbn [fst set_segments segments]. apply map_lookup_filter_Some. split.
  - rewrite lookup_insert_ne; [done|]. intros He. change (new_id first = id) in He. congruence.
  - apply bool_decide_eq_false. intros (_ & _ & _ & Hlt'). cbn [snd] in Hlt'. rewrite Hs0, swrap_small in Hlt' by (unfold in_i; lia).
    assert (Hin : row ∈ partition_rows org t p (catalog wd)).
    { unfold partition_rows. rewrite merge_sort_Permutation. apply list_elem_of_fmap. exists (org, row). split; [done|].
      apply list_elem_of_filter. split; [done|]. apply elem_of_segment_rows. by exists id. }
    pose proof (rows_end row Hin). lia.
Qed.

(** ** What a run leaves *)

(** C24: key compaction keeps the latest.  Take a partition of fewer than 2^32 records whose segments are described by their rows and stored under the prefix of the organization,
    of which at least two, the oldest, are old enough; a run in which no call fails and whose scan reaches all of these; and a new identifier that no row has.
    The object it uploads decodes to the reference [compact_log] of their records: of the records of each key the last one (a tombstone only
    for the time of its retention) and all records without a key, at their offsets; and the table of values that it stands for is that of the records it
    replaces.  The result counts the records read, those left out, the segments, and as bytes saved the sizes that the metadata give for the segments
    less the length of the object. *)
Theorem compaction_stores_latest first :
  works -> len (concat committed) < 2 ^ 32 -> prefix = "org-" +:+ org +:+ "/data" ->
  len (concat old) <= max_records_per_run config ->
  let log := map normalise (concat old) in
  head (compact_log config (ce_now env) log) = Some first -> segments (catalog wd) !! new_id first = None ->
  exists data wd',
    compact_partition config org t p env wd
    = (wd', Ok (mk_compaction_result (len log) (len log - len (compact_log config (ce_now env) log)) (Z.of_nat n)
                  (Z.max 0 (wrap 64 (sizes (take n rows)) - len data))))
    /\ objects wd' !! new_path first = Some data
    /\ (len data < 2 ^ 63 -> exists kept, decode_object data = Some kept /\ kept = compact_log config (ce_now env) log
          /\ table kept = table log).
Proof.
  intros Hw Hcount Hprefix Hlimit log Hhead Hid.
  assert (Hne : Forall (fun ch => ch <> []) old).
  { apply Forall_take, (Forall_impl _ _ _ (so_records _ _ _ _ _ _ Hst)). by intros ch []. }
  assert (Hall : scanned (max_records_per_run config) 0 old = length old) by (apply scanned_all; [lia|done]).
  assert (Hread : read = log) by (unfold read, log; by rewrite Hall, firstn_all).
  assert (Hrows : take (scanned (max_records_per_run config) 0 old) (take n rows) = take n rows).
  { rewrite Hall. unfold old. rewrite take_take. f_equal. rewrite length_take. pose proof (wk_two Hw). lia. }
  destruct (compaction_run first Hw Hcount) as (data & d' & Hrun & Hdec & _); [unfold out; by rewrite Hread|done|].
  rewrite Hrows in Hrun. unfold out in *. rewrite Hread in *. exists data. eexists _. split; [exact Hrun|]. cbn [objects]. split.
  - rewrite delete_objects_kept, lookup_insert_eq; [done|]. intros s Hs. apply new_path_fresh; [done| |].
    + assert (Hf : first ∈ out) by (unfold out; rewrite Hread; by apply head_elem). destruct (log_bounds _ (out_in_log _ Hf)). lia.
    + by eapply sublist_subseteq; [apply sublist_take|].
  - intros Hd. rewrite Hdec by done. eexists. split; [done|]. split; [done|]. apply table_compact.
Qed.

(** Key compaction makes the partition unreadable.  The clean-up deletes the objects
    of the segments, but of their rows only those that end before the first of them begins,
    of which there are none.  So after a run that succeeds every segment is still listed,
    each without its object: the log of the partition cannot be read any more, neither by
    consumers nor by the next run, which fails at the first of these segments. *)
Theorem compaction_unlists_log first :
  works -> len (concat committed) < 2 ^ 32 -> head out = Some first -> segments (catalog wd) !! new_id first = None ->
  exists wd' result,
    compact_partition config org t p env wd = (wd', Ok result)
    /\ (forall s, s ∈ take n rows ->
          (s ∈ get_segments org t p (catalog wd')) /\ objects wd' !! path_from (si_s3_key s) = None)
    /\ stored_log org t p wd' = None.
Proof.
  intros Hw Hcount Hhead Hid. destruct (compaction_run first Hw Hcount Hhead Hid) as (data & d' & Hrun & _ & Hrows).
  eexists _, _. split; [exact Hrun|]. cbn [catalog objects].
  assert (Hgone : forall s, s ∈ take n rows ->
            (s ∈ get_segments org t p d')
            /\ delete_objects (take n rows) (ce_delete env) (<[new_path first:=data]> (objects wd)) !! path_from (si_s3_key s) = None).
  { intros s Hs. split; [apply Hrows; by eapply sublist_subseteq; [apply sublist_take|]|].
    apply delete_objects_gone; [apply (wk_delete Hw)|done]. }
  split; [exact Hgone|]. destruct (first_row Hw) as (s0 & rest & Hs0 & _). destruct (Hgone s0) as [Hin Hnone]; [rewrite Hs0; by left|].
  unfold stored_log. cbn [catalog]. rewrite (mapM_none _ _ s0); [done|done|]. unfold read_segment. cbn [objects]. by rewrite Hnone.
Qed.

(** Records that a run does not read are lost.  The scan stops before a segment once
    it has read as many records as the limit, but the objects of all segments that are old
    enough are deleted: a segment that was not read has no object any more, and none of its
    records is in the uploaded one. *)
Theorem compaction_limit_loses first j ch :
  works -> len (concat committed) < 2 ^ 32 -> head out = Some first -> segments (catalog wd) !! new_id first = None ->
  (scanned (max_records_per_run config) 0 old <= j < n)%nat -> committed !! j = Some ch ->
  exists data wd' result,
    compact_partition config org t p env wd = (wd', Ok result)
    /\ objects wd' !! path_from (segment_key prefix t p (first_offset ch)) = None
    /\ (len data < 2 ^ 63 -> decode_object data = Some out)
    /\ (objects wd' !! new_path first = Some data \/ objects wd' !! new_path first = None)
    /\ forall r x, r ∈ ch -> x ∈ out -> r_offset x < r_offset r.
Proof.
  intros Hw Hcount Hhead Hid Hj Hch. destruct (compaction_run first Hw Hcount Hhead Hid) as (data & d' & Hrun & Hdec & _).
  exists data. eexists _, _. split; [exact Hrun|]. cbn [objects].
  destruct (Forall2_lookup_l _ _ _ _ _ (rows_describe _ _ _ _ _ _ Hst) Hch) as (s & Hs & _ & _ & Hk). fold rows in Hs.
  split; [|split; [done|split]].
  - rewrite <- Hk. apply delete_objects_gone; [apply (wk_delete Hw)|]. apply (list_elem_of_lookup_2 _ j). by rewrite lookup_take_lt by lia.
  - destruct (delete_objects_lookup (take n rows) (ce_delete env) (<[new_path first:=data]> (objects wd)) (new_path first)) as [-> | ->];
      [by right|left; apply lookup_insert_eq].
  - intros r x Hr Hx. assert (Hxr : x ∈ read) by (eapply sublist_subseteq; [apply compact_sublist|exact Hx]).
    apply list_elem_of_fmap in Hxr as (y & -> & Hy). cbn [normalise r_offset].
    apply list_elem_of_In, in_concat in Hy as (c & Hc & Hy). apply list_elem_of_In in Hc, Hy.
    apply list_elem_of_lookup in Hc as [i Hc]. pose proof (lookup_lt_Some _ _ _ Hc) as Hi. rewrite length_take in Hi.
    rewrite lookup_take_lt in Hc by lia. unfold old in Hc. rewrite lookup_take_lt in Hc by lia.
    by apply (increasing_chunks committed i j c ch y r (so_order _ _ _ _ _ _ Hst)); [lia|..].
Qed.
End stored.
