(* ===== verification/KeyCompactionExamples.v ===== *)
(** * Key compaction at work

    A partition with two segments, compacted once with a limit that the scan does not reach
    and once with one that it does. *)

From coqutil Require Import Byte.
From stdpp Require Import pretty sorting.
From S2P Require Import Prelude HashMap Core External Segment SegmentFacts StorageError WalHandle MetadataError Catalog CatalogFacts PartitionWriter PartitionWriterFacts PartitionLogFacts PartitionRecoveryFacts PartitionExamples ReaderExamples KeyCompaction KeyCompactionFacts.

(** Two keys and a record without one; then a new value of the first key and a tombstone of
    the second. *)
Definition table_calls : list call :=
  [CBatch [order Init.Byte.x01 10; order Init.Byte.x02 12; (None, [Init.Byte.x09], 13)] (clock 14);
   CFlushDurable (roll good_put 20);
   CBatch [order Init.Byte.x01 30; (Some [Init.Byte.x02], [], 31)] (clock 32);
   CFlushDurable (roll good_put 40)].

Definition opened_table : outcome StorageError PartitionWriter :=
  PartitionWriter.new "acme" "orders" 0 default_write_config "org-acme/data" [] opening acme.

Definition table_world : world :=
  match opened_table with Ok w => let '(_, wd, _, _) := run table_calls w acme in wd | _ => acme end.

(** Two days later. *)
Definition later : Z := 2 * 86400 * 1000.
Definition calm_compaction : compact_env :=
  mk_compact_env None later (fun _ => None) (fun _ => None) "not found" PutOk None (fun _ => PutOk) None.

Definition tight_config : CompactionConfig := mk_compaction_config (300 * 1000) 3 (3600 * 1000) (86400 * 1000).

Definition r0 : Record_ := mk_record 0 10 (Some [Init.Byte.x01]) [Init.Byte.x01; Init.Byte.x01].
Definition r1 : Record_ := mk_record 1 12 (Some [Init.Byte.x02]) [Init.Byte.x02; Init.Byte.x02].
Definition r2 : Record_ := mk_record 2 13 None [Init.Byte.x09].
Definition r3 : Record_ := mk_record 3 30 (Some [Init.Byte.x01]) [Init.Byte.x01; Init.Byte.x01].
Definition r4 : Record_ := mk_record 4 31 (Some [Init.Byte.x02]) [].

Lemma table_store :
  exists c1 c2, store_ok "acme" "orders" 0 "org-acme/data" [c1; c2] table_world /\ objects_fit table_world
    /\ map normalise c1 = [r0; r1; r2] /\ map normalise c2 = [r3; r4].
Proof.
  assert (Hfit : fits_now table_world = true) by by_computation. apply fits_now_fits in Hfit.
  assert (Hchunks : mapM (read_segment table_world) (get_segments "acme" "orders" 0 (catalog table_world)) = Some [[r0; r1; r2]; [r3; r4]])
    by by_computation.
  assert (Hopen : match opened_table with Ok _ => true | _ => false end = true) by by_computation.
  destruct opened_table as [w| |] eqn:Hnew; [|discriminate Hopen..].
  destruct (run table_calls w acme) as [[[w' wd'] log] failed] eqn:Hrun.
  destruct (fresh_run "acme" "orders" 0 default_write_config "org-acme/data" opening table_calls acme w w' wd' log failed acme_fresh
              ltac:(lia) eq_refl Hnew ltac:(inputs_fit) eq_refl Hrun) as (committed & _ & Hst & _).
  assert (Hwd : wd' = table_world) by (unfold table_world; by rewrite Hnew, Hrun). rewrite Hwd in Hst.
  rewrite (store_ok_chunks _ _ _ _ _ _ Hst Hfit) in Hchunks. injection Hchunks as Hchunks.
  destruct committed as [|c1 [|c2 [|c3 cs]]]; [discriminate Hchunks..| |discriminate Hchunks].
  injection Hchunks as H1 H2. exists c1, c2. split; [exact Hst|]. split; [exact Hfit|]. split; [exact H1|exact H2].
Qed.

Lemma table_works config c1 c2 : min_segment_age config = 3600 * 1000 -> works "acme" "orders" 0 [c1; c2] table_world config calm_compaction 2.
Proof.
  intros Hage. split; [|cbn; lia|done..|].
  - unfold eligible. rewrite Hage. by_computation.
  - by_computation.
Qed.

Lemma fresh_id first : r_offset first <= 4 -> 0 <= r_offset first -> segments (catalog table_world) !! new_id "orders" 0 first = None.
Proof.
  intros H1 H2. unfold new_id. assert (Ho : r_offset first ∈ seqZ 0 5) by (apply elem_of_seqZ; lia).
  revert Ho. generalize (r_offset first). apply Forall_forall. change (seqZ 0 5) with [0; 1; 2; 3; 4]. repeat constructor.
Qed.

Lemma compaction_stores_latest_witness :
  exists data wd',
    compact_partition default_compaction_config "acme" "orders" 0 calm_compaction table_world
    = (wd', Ok (mk_compaction_result 5 3 2 (Z.max 0 (wrap 64 (sizes (take 2 (get_segments "acme" "orders" 0 (catalog table_world)))) - len data))))
    /\ objects wd' !! "org-acme/data/orders/0/seg_2_compacted.bin"%string = Some data
    /\ (len data < 2 ^ 63 -> exists kept, decode_object data = Some kept /\ kept = [r2; r3] /\ table kept = {[ [Init.Byte.x01] := [Init.Byte.x01; Init.Byte.x01] ]}).
Proof.
  destruct table_store as (c1 & c2 & Hst & Hfit & H1 & H2).
  pose proof (compaction_stores_latest "acme" "orders" 0 "org-acme/data" [c1; c2] table_world Hst Hfit default_compaction_config
                calm_compaction 2 r2 (table_works default_compaction_config c1 c2 eq_refl)) as H.
  assert (Hlen : len (concat [c1; c2]) = 5).
  { cbn [concat]. rewrite app_nil_r, length_app, <- (length_map normalise c1), <- (length_map normalise c2), H1, H2. done. }
  assert (Hlog : map normalise (concat (take 2 [c1; c2])) = [r0; r1; r2; r3; r4]).
  { cbn [take concat]. rewrite app_nil_r, map_app, H1, H2. done. }
  assert (Hout : compact_log default_compaction_config (ce_now calm_compaction) [r0; r1; r2; r3; r4] = [r2; r3]) by by_computation.
  assert (Htable : table [r0; r1; r2; r3; r4] = {[ [Init.Byte.x01] := [Init.Byte.x01; Init.Byte.x01] ]}) by by_computation.
  assert (Hpath : new_path "acme" "orders" 0 r2 = "org-acme/data/orders/0/seg_2_compacted.bin"%string) by by_computation.
  cbv zeta in H. rewrite Hlog, Hout, Htable, Hpath in H. apply H.
  - rewrite Hlen. lia.
  - reflexivity.
  - change (take 2 [c1; c2]) with [c1; c2]. rewrite Hlen. cbn. lia.
  - reflexivity.
  - apply fresh_id; cbn; lia.
Defined.

(** With a limit of three records only the first segment is read. *)
Lemma tight_reads c1 c2 :
  map normalise c1 = [r0; r1; r2] -> map normalise c2 = [r3; r4] ->
  scanned (max_records_per_run tight_config) 0 (take 2 [c1; c2]) = 1%nat
  /\ compact_log tight_config (ce_now calm_compaction)
       (map normalise (concat (take (scanned (max_records_per_run tight_config) 0 (take 2 [c1; c2])) (take 2 [c1; c2]))))
     = [r0; r1; r2].
Proof.
  intros H1 H2. apply (f_equal length) in H1 as Hl1. rewrite length_map in Hl1.
  assert (Hs : scanned (max_records_per_run tight_config) 0 (take 2 [c1; c2]) = 1%nat).
  { cbn [take scanned]. rewrite Hl1. reflexivity. }
  split; [exact Hs|]. rewrite Hs. cbn [take concat]. rewrite app_nil_r, H1. by_computation.
Qed.

Lemma compaction_unlists_log_witness :
  exists wd' result,
    compact_partition tight_config "acme" "orders" 0 calm_compaction table_world = (wd', Ok result)
    /\ stored_log "acme" "orders" 0 wd' = None.
Proof.
  destruct table_store as (c1 & c2 & Hst & Hfit & H1 & H2). destruct (tight_reads c1 c2 H1 H2) as [_ Hout].
  destruct (compaction_unlists_log "acme" "orders" 0 "org-acme/data" [c1; c2] table_world Hst Hfit tight_config calm_compaction 2 r0)
    as (wd' & result & Hrun & _ & Hlog).
  - apply table_works. reflexivity.
  - cbn [concat]. rewrite app_nil_r, length_app, <- (length_map normalise c1), <- (length_map normalise c2), H1, H2. cbn. lia.
  - rewrite Hout. reflexivity.
  - apply fresh_id; cbn; lia.
  - exists wd', result. split; [exact Hrun|exact Hlog].
Defined.

(** The second segment, with the tombstone and the latest value, is lost. *)
Lemma compaction_limit_loses_witness :
  exists data wd' result,
    compact_partition tight_config "acme" "orders" 0 calm_compaction table_world = (wd', Ok result)
    /\ (len data < 2 ^ 63 -> decode_object data = Some [r0; r1; r2])
    /\ objects wd' !! segment_key "org-acme/data" "orders" 0 3 = None.
Proof.
  destruct table_store as (c1 & c2 & Hst & Hfit & H1 & H2). destruct (tight_reads c1 c2 H1 H2) as [Hs Hout].
  destruct (compaction_limit_loses "acme" "orders" 0 "org-acme/data" [c1; c2] table_world Hst Hfit tight_config calm_compaction 2 r0 1 c2)
    as (data & wd' & result & Hrun & Hgone & Hdec & _).
  - apply table_works. reflexivity.
  - cbn [concat]. rewrite app_nil_r, length_app, <- (length_map normalise c1), <- (length_map normalise c2), H1, H2. cbn. lia.
  - rewrite Hout. reflexivity.
  - apply fresh_id; cbn; lia.
  - rewrite Hs. lia.
  - reflexivity.
  - exists data, wd', result. split; [exact Hrun|]. rewrite Hout in Hdec. split; [exact Hdec|].
    assert (Hf : first_offset c2 = 3).
    { destruct c2 as [|x c2]; [discriminate H2|]. injection H2 as Hx _. by rewrite <- Hx. }
    rewrite Hf in Hgone. exact Hgone.
Defined.
