(* ===== verification/ReconcilerExamples.v ===== *)
(** * The reconciler at work

    The partition with two segments of [KeyCompactionExamples]: a pass over it, a pass during
    which the database fails, and its recovery by a catalog that lost both segments. *)

From coqutil Require Import Byte.
From stdpp Require Import pretty.
From S2P Require Import Prelude HashMap Core External Segment SegmentFacts MetadataError Catalog CatalogFacts PartitionWriter PartitionWriterFacts PartitionLogFacts PartitionExamples Reconciler KeyCompactionExamples.

Definition segment_0 : string := segment_key "org-acme/data" "orders" 0 0.
Definition segment_3 : string := segment_key "org-acme/data" "orders" 0 3.

Lemma table_objects : map fst (map_to_list (objects table_world)) ≡ₚ [segment_0; segment_3].
Proof.
  assert (H : map fst (map_to_list (objects table_world)) = [segment_0; segment_3]
    \/ map fst (map_to_list (objects table_world)) = [segment_3; segment_0]) by (vm_compute; (left; reflexivity) || (right; reflexivity)).
  destruct H as [-> | ->]; [done|]. apply perm_swap.
Qed.

Lemma table_keys k : is_Some (objects table_world !! k) -> k = segment_0 \/ k = segment_3.
Proof.
  intros [data Hk]. assert (Hin : k ∈ map fst (map_to_list (objects table_world))).
  { apply list_elem_of_fmap. exists (k, data). split; [done|]. by apply elem_of_map_to_list. }
  rewrite table_objects in Hin. apply elem_of_cons in Hin as [->|Hin]; [by left|]. apply list_elem_of_singleton in Hin. by right.
Qed.

(** ** A pass *)

Definition all_listed : catalog_env := mk_catalog_env (Ok ["acme"%string]) (fun _ => None) (fun _ _ => None) (fun _ _ _ => None).
Definition database_gone : catalog_env :=
  mk_catalog_env (Err (DatabaseError "connection closed")) (fun _ => None) (fun _ _ => None) (fun _ _ _ => None).
Definition pass (catalog : catalog_env) : reconcile_env :=
  mk_reconcile_env later (Ok ["acme"%string]) (fun _ => None) (fun _ => 20) catalog (fun _ => PutOk).

Lemma reconcile_keeps_registered_witness :
  exists objs' r,
    reconcile (3600 * 1000) (pass all_listed) (objects table_world) (catalog table_world) (objects table_world) = (objs', r)
    /\ objs' !! segment_3 = objects table_world !! segment_3.
Proof.
  destruct (reconcile (3600 * 1000) (pass all_listed) (objects table_world) (catalog table_world) (objects table_world)) as [objs' r] eqn:Hrun.
  exists objs', r. split; [reflexivity|].
  destruct (reconcile_keeps_registered _ _ _ _ _ _ _ Hrun ltac:(done) segment_3) as [H|(_ & _ & _ & _ & Hno)]; [exact H|]. exfalso. apply Hno.
  assert (Hrow : match topics (catalog table_world) !! ("acme"%string, "orders"%string) with Some _ => true | None => false end = true) by by_computation.
  destruct (topics (catalog table_world) !! ("acme"%string, "orders"%string)) as [row|] eqn:Ht; [|discriminate Hrow].
  assert (Hkeys : map si_s3_key (get_segments "acme" "orders" 0 (catalog table_world)) = [segment_0; segment_3]) by by_computation.
  assert (Hin : segment_3 ∈ map si_s3_key (get_segments "acme" "orders" 0 (catalog table_world))) by (rewrite Hkeys; right; by left).
  apply list_elem_of_fmap in Hin as (s & Hs & Hin).
  exists ["acme"%string], "acme"%string, "orders"%string, 0, row, 5, s.
  split; [reflexivity|]. split; [by left|]. split; [exact Ht|]. split; [lia|]. split; [by_computation|]. split; [exact Hin|symmetry; exact Hs].
Defined.

Lemma reconcile_deletes_registered_witness :
  exists objs' n,
    reconcile (3600 * 1000) (pass database_gone) (objects table_world) (catalog table_world) (objects table_world) = (objs', Ok n)
    /\ objs' !! segment_3 = None.
Proof.
  destruct (reconcile (3600 * 1000) (pass database_gone) (objects table_world) (catalog table_world) (objects table_world)) as [objs' r] eqn:Hrun.
  destruct (reconcile_deletes_registered (3600 * 1000) (pass database_gone) (objects table_world) (catalog table_world) (objects table_world) objs' r ["acme"%string] (DatabaseError "connection closed") segment_3
              eq_refl eq_refl ltac:(done) ltac:(vm_compute; by eexists) ltac:(by_computation) eq_refl
              ltac:(exists (org_prefix "acme"); split; [right; by left|by_computation]) ltac:(by_computation) eq_refl Hrun) as [[n ->] Hnone].
  exists objs', n. split; [reflexivity|exact Hnone].
Defined.

(** ** Recovery *)

Definition recovery : from_s3_env :=
  mk_from_s3_env (Ok ["acme"%string]) all_listed (fun _ => None) (fun _ => 20) (fun _ => None) (fun _ => None) (fun _ => None) (fun _ => None).

Lemma first_of c (r : Record_) rs : map normalise c = r :: rs -> first_offset c = r_offset r.
Proof. destruct c as [|x c]; [discriminate|]. intros [= Hx _]. by rewrite <- Hx. Qed.

Lemma catalog_recovered_witness :
  exists d',
    reconcile_from_s3 recovery (objects table_world) acme_db = (d', Ok (mk_s3_stats 2 2 0))
    /\ stored_log "acme" "orders" 0 (mk_world (objects table_world) d' (wal_dir table_world)) = Some [r0; r1; r2; r3; r4].
Proof.
  destruct table_store as (c1 & c2 & Hst & Hfit & H1 & H2). pose proof (first_of _ _ _ H1) as F1. pose proof (first_of _ _ _ H2) as F2.
  destruct (catalog_recovered "acme" "orders" 0 0 recovery eq_refl ltac:(lia) ltac:(done) [c1; c2] table_world acme_db) as (d' & Hrun & _ & Hlog).
  - exact Hst.
  - exact Hfit.
  - discriminate.
  - reflexivity.
  - by_computation.
  - by_computation.
  - destruct c2 as [|x c2] using rev_ind; [discriminate H2|]. unfold next_offset. cbn [concat]. rewrite app_nil_r, app_assoc, last_snoc.
    rewrite map_app in H2. apply (f_equal list.last) in H2. cbn [map] in H2. rewrite last_snoc in H2. injection H2 as H2.
    rewrite H2. cbn. lia.
  - reflexivity.
  - intros ch [->|Hin%list_elem_of_singleton]%elem_of_cons; [rewrite F1|subst ch; rewrite F2]; (split; [reflexivity|split; by_computation]).
  - intros k [->| ->]%table_keys; [exists c1; rewrite F1|exists c2; rewrite F2]; (split; [|reflexivity]); [by left|right; by left].
  - exists d'. split; [exact Hrun|]. rewrite Hlog, (store_ok_log _ _ _ _ _ _ Hst Hfit). cbn [concat]. rewrite app_nil_r, map_app, H1, H2. reflexivity.
Defined.
