(* ===== verification/Float.v ===== *)
(** * The type f64, by the IEEE operations of the Standard Library

    Double precision is 53 bits of mantissa and exponents up to 1024.  Of products and
    quotients of numbers that are not too large or small the relative error is bounded. *)

From Stdlib Require Export Floats.SpecFloat.
From S2P Require Import Prelude.

Abbreviation f64 := spec_float.
Definition f64_mul : f64 -> f64 -> f64 := SFmul 53 1024.
Definition f64_add : f64 -> f64 -> f64 := SFadd 53 1024.
Definition f64_div : f64 -> f64 -> f64 := SFdiv 53 1024.

(** [x as f64]. *)
Definition f64_of (x : Z) : f64 := binary_normalize 53 1024 x 0 false.

(** [x as u64], which saturates. *)
Definition u64_of (x : f64) : Z :=
  match x with
  | S754_finite false m e =>
      Z.min (2 ^ 64 - 1) (if 0 <=? e then Z.pos m * 2 ^ e else Z.pos m / 2 ^ (- e))
  | S754_infinity false => 2 ^ 64 - 1
  | _ => 0
  end.

(** [powi] for exponents of at most [n] bits, by repeated squaring as the compiler's runtime does it. *)
Fixpoint powi_loop (n : nat) (a r : f64) (b : Z) : f64 :=
  match n with
  | O => r
  | S n =>
      let r := if Z.odd b then f64_mul r a else r in
      let b := Z.quot b 2 in
      if b =? 0 then r else powi_loop n (f64_mul a a) r b
  end.

Definition powi (a : f64) (b : Z) : f64 :=
  let r := powi_loop 32 a (f64_of 1) b in
  if b <? 0 then f64_div (f64_of 1) r else r.

(** ** Comparisons *)

Definition f64_lt (a b : f64) : bool := SFltb a b.

Definition is_nan (a : f64) : bool := match a with S754_nan => true | _ => false end.
Definition is_finite (a : f64) : bool := match a with S754_zero _ | S754_finite _ _ _ => true | _ => false end.

(** [f64::min] and [f64::max]; of two equal values, zeros of different signs, either may be given. *)
Definition f64_min (a b : f64) : f64 := if is_nan a then b else if f64_lt b a then b else a.
Definition f64_max (a b : f64) : f64 := if is_nan a then b else if f64_lt a b then b else a.

(** ** The errors of products and quotients *)

Lemma digits_log2 p : Zdigits2 (Z.pos p) = Z.log2 (Z.pos p) + 1.
Proof.
  assert (Hd : forall p, digits2_pos p = Pos.size p) by (induction p0 as [p0 IH|p0 IH|]; cbn; [by rewrite IH|by rewrite IH|done]).
  cbn [Zdigits2]. rewrite Hd. destruct p; cbn; lia.
Qed.

Lemma digits_bounds m : 0 < m -> 2 ^ (Zdigits2 m - 1) <= m < 2 ^ Zdigits2 m.
Proof.
  intros Hm. destruct m as [|p|p]; [lia| |lia]. rewrite digits_log2. replace (Z.log2 (Z.pos p) + 1 - 1) with (Z.log2 (Z.pos p)) by lia.
  by apply Z.log2_spec.
Qed.

Lemma digits_pos m : 0 < m -> 0 < Zdigits2 m.
Proof. intros Hm. destruct m as [|p|p]; [lia| |lia]. rewrite digits_log2. pose proof (Z.log2_nonneg (Z.pos p)). lia. Qed.

Lemma digits_unique m d : 2 ^ (d - 1) <= m < 2 ^ d -> 0 < d -> Zdigits2 m = d.
Proof.
  intros Hm Hd. assert (0 < 2 ^ (d - 1)) by (apply Z.pow_pos_nonneg; lia). destruct m as [|p|p]; [lia| |lia].
  rewrite digits_log2, (Z.log2_unique (Z.pos p) (d - 1)); [lia|lia|]. by replace (Z.succ (d - 1)) with d by lia.
Qed.

Lemma shr_1_half r : 0 <= shr_m r -> shr_m (shr_1 r) = shr_m r / 2.
Proof.
  destruct r as [m b s]. cbn [shr_m]. intros Hm. destruct m as [|[p|p|]|p]; cbn [shr_1 shr_m]; try lia; try done.
  - by rewrite (Z.div_unique (Z.pos p~1) 2 (Z.pos p) 1) by lia.
  - by rewrite (Z.div_unique (Z.pos p~0) 2 (Z.pos p) 0) by lia.
Qed.


Lemma div_pow_pow a i j : 0 <= i -> 0 <= j -> a / 2 ^ i / 2 ^ j = a / 2 ^ (i + j).
Proof. intros Hi Hj. by rewrite Z.div_div, <- Z.pow_add_r by (try apply Z.pow_nonzero; try apply Z.pow_pos_nonneg; lia). Qed.

Lemma iter_shr n r : 0 <= shr_m r -> 0 <= shr_m (SpecFloat.iter_pos shr_1 n r) /\ shr_m (SpecFloat.iter_pos shr_1 n r) = shr_m r / 2 ^ Z.pos n.
Proof.
  assert (Hhalf : forall r, 0 <= shr_m r -> 0 <= shr_m (shr_1 r) /\ shr_m (shr_1 r) = shr_m r / 2 ^ 1).
  { intros q Hq. rewrite shr_1_half by done. split; [apply Z.div_pos; lia|done]. }
  revert r. induction n as [n IH|n IH|]; intros r Hr; cbn [SpecFloat.iter_pos]; [| |by apply Hhalf].
  - destruct (Hhalf r Hr) as [H0 E0]. destruct (IH _ H0) as [H1 E1]. destruct (IH _ H1) as [H2 E2]. split; [done|].
    rewrite E2, E1, E0, !div_pow_pow by lia. f_equal. f_equal. lia.
  - destruct (IH _ Hr) as [H1 E1]. destruct (IH _ H1) as [H2 E2]. split; [done|].
    rewrite E2, E1, !div_pow_pow by lia. f_equal. f_equal. lia.
Qed.

Lemma shr_record_m m l : shr_m (shr_record_of_loc m l) = m.
Proof. by destruct l as [|[]]. Qed.

(** A shift to 53 digits: the mantissa is divided, or left as it is. *)
Lemma shr_fexp_spec m e l :
  0 < m -> -1074 <= e ->
  let n := Z.max 0 (Zdigits2 m - 53) in
  snd (shr_fexp 53 1024 m e l) = e + n /\ shr_m (fst (shr_fexp 53 1024 m e l)) = m / 2 ^ n
  /\ (n = 0 -> fst (shr_fexp 53 1024 m e l) = shr_record_of_loc m l).
Proof.
  intros Hm He n. unfold shr_fexp, fexp, emin. set (k := Z.max _ _ - e). assert (Hk : Z.max 0 k = n) by lia. clearbody k n.
  unfold shr. destruct k as [|p|p].
  - assert (n = 0) as -> by lia. cbn [fst snd]. rewrite shr_record_m, Z.div_1_r. split; [lia|done].
  - assert (n = Z.pos p) as -> by lia. cbn [fst snd]. split; [done|].
    destruct (iter_shr p (shr_record_of_loc m l)) as [_ ->]; [rewrite shr_record_m; lia|]. rewrite shr_record_m. split; [done|lia].
  - assert (n = 0) as -> by lia. cbn [fst snd]. rewrite shr_record_m, Z.div_1_r. split; [lia|done].
Qed.

Lemma round_nearest_cases m l : round_nearest_even m l = m \/ round_nearest_even m l = m + 1.
Proof. destruct l as [|[]]; cbn; try auto. destruct (Z.even m); auto. Qed.

(** Rounding to 53 digits: exact where they are enough, and with a relative error of at most 2^-52. *)
Lemma round_aux_spec m e l :
  0 < m -> -1074 <= e -> e + Zdigits2 m <= 900 -> l = loc_Exact \/ 53 <= Zdigits2 m ->
  exists m' e', binary_round_aux 53 1024 false m e l = S754_finite false m' e' /\ e <= e' /\ e' + Zdigits2 (Z.pos m') <= e + Zdigits2 m + 1
    /\ m * (2 ^ 52 - 1) <= Z.pos m' * 2 ^ (e' - e) * 2 ^ 52 <= m * (2 ^ 52 + 1)
    /\ (l = loc_Exact -> Zdigits2 m <= 53 -> Z.pos m' = m /\ e' = e).
Proof.
  intros Hm He Hbig Hl. unfold binary_round_aux. pose proof (shr_fexp_spec m e l Hm He) as (Hs1 & Hs2 & Hs3).
  set (n := Z.max 0 (Zdigits2 m - 53)) in *. destruct (shr_fexp 53 1024 m e l) as [r1 e1]. cbn [fst snd] in *. subst e1.
  pose proof (digits_bounds m Hm) as Hd. pose proof (digits_pos m Hm) as Hdp.
  assert (H2n : 0 < 2 ^ n) by (apply Z.pow_pos_nonneg; lia).
  assert (Hm1 : m / 2 ^ n * 2 ^ n <= m < (m / 2 ^ n + 1) * 2 ^ n) by (pose proof (Z.div_mod m (2 ^ n)); pose proof (Z.mod_pos_bound m (2 ^ n)); nia).
  set (m1 := m / 2 ^ n) in *. set (x := round_nearest_even (shr_m r1) (loc_of_shr_record r1)).
  (* the mantissa has at most 53 digits, and 53 if something was lost *)
  assert (Hm1d : 0 < m1 < 2 ^ 53 /\ (n = 0 /\ Zdigits2 m <= 53 \/ 2 ^ 52 <= m1)).
  { destruct (Z.le_gt_cases (Zdigits2 m) 53) as [Hle|Hgt].
    - assert (n = 0) by lia. assert (Hm1m : m1 = m) by (unfold m1; rewrite H, Z.div_1_r; done). rewrite Hm1m.
      split; [|by left]. split; [done|]. apply Z.lt_le_trans with (2 ^ Zdigits2 m); [apply Hd|apply Z.pow_le_mono_r; lia].
    - assert (Hn : n = Zdigits2 m - 53) by lia.
      assert (2 ^ 52 <= m1) by (unfold m1; apply Z.div_le_lower_bound; [done|]; rewrite <- Z.pow_add_r by lia; replace (n + 52) with (Zdigits2 m - 1) by lia; lia).
      assert (m1 < 2 ^ 53) by (unfold m1; apply Z.div_lt_upper_bound; [done|]; rewrite <- Z.pow_add_r by lia; replace (n + 53) with (Zdigits2 m) by lia; lia).
      split; [lia|by right]. }
  assert (Hx : x = m1 \/ x = m1 + 1 /\ 2 ^ 52 <= m1).
  { unfold x. rewrite Hs2. destruct Hm1d as [_ [[Hn Hle]|Hbig1]]; [|destruct (round_nearest_cases m1 (loc_of_shr_record r1)); auto].
    rewrite (Hs3 Hn). destruct Hl as [-> |Hl]; [by left|].
    assert (2 ^ 52 <= m1). { unfold m1. rewrite Hn, Z.div_1_r. apply Z.le_trans with (2 ^ (Zdigits2 m - 1)); [apply Z.pow_le_mono_r; lia|lia]. }
    destruct (round_nearest_cases m1 (loc_of_shr_record (shr_record_of_loc m l))); auto. }
  assert (Hexact : l = loc_Exact -> Zdigits2 m <= 53 -> x = m /\ n = 0).
  { intros -> Hle. assert (Hn : n = 0) by lia. unfold x. rewrite (Hs3 Hn). cbn. done. }
  assert (Hrel : m * (2 ^ 52 - 1) <= x * 2 ^ n * 2 ^ 52 <= m * (2 ^ 52 + 1)).
  { destruct Hm1d as [Hlt [[Hn Hle]|Hbig1]]; [|destruct Hx as [-> |[-> _]]; nia].
    destruct Hx as [-> |[-> Hbig1]]; [|nia]. rewrite Hn in *. nia. }
  assert (Hx0 : 0 < x) by lia. clearbody x.
  pose proof (shr_fexp_spec x (e + n) loc_Exact Hx0 ltac:(lia)) as (Ht1 & Ht2 & _).
  set (n' := Z.max 0 (Zdigits2 x - 53)) in *. destruct (shr_fexp 53 1024 x (e + n) loc_Exact) as [r2 e2]. cbn [fst snd] in *. subst e2. rewrite Ht2.
  pose proof (digits_bounds x Hx0) as Hxd. pose proof (digits_pos x Hx0) as Hxp.
  (* a second shift only takes the last digit of 2^53 *)
  assert (Hsecond : x / 2 ^ n' * 2 ^ n' = x /\ Zdigits2 (x / 2 ^ n') + n' = Zdigits2 x /\ Zdigits2 x + n <= Zdigits2 m + 1).
  { assert (Hxn : Zdigits2 x + n <= Zdigits2 m + 1).
    { assert (Hxm : x * 2 ^ n <= m + 2 ^ n). { destruct Hx as [-> |[-> _]]; nia. }
      destruct (Z.le_gt_cases (Zdigits2 x + n) (Zdigits2 m + 1)) as [|Hgt]; [done|exfalso].
      assert (2 ^ (Zdigits2 m + 1) <= x * 2 ^ n).
      { apply Z.le_trans with (2 ^ (Zdigits2 x - 1) * 2 ^ n); [rewrite <- Z.pow_add_r by lia; apply Z.pow_le_mono_r; lia|apply Z.mul_le_mono_nonneg_r; lia]. }
      assert (2 ^ n <= 2 ^ (Zdigits2 m - 1)) by (apply Z.pow_le_mono_r; lia).
      replace (Zdigits2 m + 1) with (Zdigits2 m - 1 + 2) in H by lia. replace (Zdigits2 m) with (Zdigits2 m - 1 + 1) in Hd by lia.
      rewrite Z.pow_add_r in H by lia. replace (Zdigits2 m - 1 + 1 - 1) with (Zdigits2 m - 1) in Hd by lia. rewrite Z.pow_add_r in Hd by lia. lia. }
    destruct (Z.le_gt_cases (Zdigits2 x) 53) as [Hle|Hgt].
    - assert (n' = 0) as -> by lia. rewrite Z.div_1_r. lia.
    - assert (x = 2 ^ 53).
      { assert (2 ^ 53 <= 2 ^ (Zdigits2 x - 1)) by (apply Z.pow_le_mono_r; lia). lia. }
      assert (Hx54 : Zdigits2 x = 54) by (rewrite H; reflexivity). unfold n'. rewrite Hx54, H. split; [reflexivity|]. split; [reflexivity|lia]. }
  destruct Hsecond as (Hmul & Hdig & Hfit).
  destruct (x / 2 ^ n') as [|m'|m'] eqn:Em'; [lia| |lia].
  assert (Hle : (e + n + n' <=? 1024 - 53) = true) by (apply Z.leb_le; pose proof (digits_pos (Z.pos m') ltac:(lia)); lia). rewrite Hle.
  exists m', (e + n + n'). split; [done|]. split; [lia|]. split; [lia|].
  replace (e + n + n' - e) with (n' + n) by lia. rewrite Z.pow_add_r by lia.
  replace (Z.pos m' * (2 ^ n' * 2 ^ n)) with (Z.pos m' * 2 ^ n' * 2 ^ n) by ring. rewrite Hmul. split; [exact Hrel|].
  intros -> Hle53. destruct (Hexact eq_refl Hle53) as [-> Hn]. assert (n' = 0) by lia. rewrite H in Hmul. lia.
Qed.

(** The value of a positive number, in units of 2^-1200; and a bound on its exponent and its size. *)
Definition scaled (x : f64) : Z := match x with S754_finite false m e => Z.pos m * 2 ^ (e + 1200) | _ => 0 end.
Definition tame (b : Z) (x : f64) : Prop := exists m e, x = S754_finite false m e /\ - b <= e /\ e + Zdigits2 (Z.pos m) <= b.

Lemma iter_xO d m : Z.pos (Pos.iter xO m d) = Z.pos m * 2 ^ Z.pos d.
Proof.
  revert m. induction d as [|d IH] using Pos.peano_ind; intros m; [cbn; lia|].
  rewrite Pos.iter_succ. change (Z.pos (Pos.iter xO m d)~0) with (2 * Z.pos (Pos.iter xO m d)). rewrite IH.
  rewrite Pos2Z.inj_succ, Z.pow_succ_r by lia. lia.
Qed.

Lemma f64_of_spec n : 0 < n < 2 ^ 53 -> scaled (f64_of n) = n * 2 ^ 1200 /\ tame 53 (f64_of n).
Proof.
  intros Hn. destruct n as [|p|p]; [lia| |lia]. unfold f64_of, binary_normalize, binary_round.
  set (d := Zdigits2 (Z.pos p)). assert (Hd : 0 < d <= 53).
  { split; [by apply digits_pos|]. pose proof (digits_bounds (Z.pos p) ltac:(lia)) as Hb. fold d in Hb.
    destruct (Z.le_gt_cases d 53) as [|Hgt]; [done|]. assert (2 ^ 53 <= 2 ^ (d - 1)) by (apply Z.pow_le_mono_r; lia). lia. }
  change (Z.pos (digits2_pos p)) with d. unfold fexp, emin. replace (Z.max _ _) with (d - 53) by lia.
  assert (Hmz : exists mz, shl_align p 0 (d - 53) = (mz, d - 53) /\ Z.pos mz = Z.pos p * 2 ^ (53 - d)).
  { unfold shl_align. destruct (d - 53 - 0) as [|k|k] eqn:Ek; [|lia|].
    - exists p. replace (d - 53) with 0 by lia. replace (53 - d) with 0 by lia. split; [done|lia].
    - exists (Pos.iter xO p k). split; [done|]. rewrite iter_xO. f_equal. f_equal. lia. }
  destruct Hmz as (mz & -> & Hmz).
  assert (Hdz : Zdigits2 (Z.pos mz) = 53).
  { apply digits_unique; [|lia]. rewrite Hmz. pose proof (digits_bounds (Z.pos p) ltac:(lia)) as Hb. fold d in Hb.
    replace (2 ^ 53) with (2 ^ d * 2 ^ (53 - d)) by (rewrite <- Z.pow_add_r by lia; f_equal; lia).
    replace (2 ^ (53 - 1)) with (2 ^ (d - 1) * 2 ^ (53 - d)) by (rewrite <- Z.pow_add_r by lia; f_equal; lia).
    assert (0 < 2 ^ (53 - d)) by (apply Z.pow_pos_nonneg; lia). nia. }
  destruct (round_aux_spec (Z.pos mz) (d - 53) loc_Exact) as (m' & e' & -> & _ & _ & _ & Hex); [lia|lia|lia|by left|].
  destruct (Hex eq_refl ltac:(lia)) as [Hm' ->]. split.
  - cbn [scaled]. rewrite Hm', Hmz, <- Z.mul_assoc, <- Z.pow_add_r by lia. f_equal. f_equal. lia.
  - exists m', (d - 53). split; [done|]. rewrite Hm'. lia.
Qed.

Lemma digits_mul a b : 0 < a -> 0 < b -> Zdigits2 (a * b) <= Zdigits2 a + Zdigits2 b.
Proof.
  intros Ha Hb. pose proof (digits_bounds a Ha). pose proof (digits_bounds b Hb). pose proof (digits_bounds (a * b) ltac:(lia)).
  pose proof (digits_pos a Ha). pose proof (digits_pos b Hb).
  destruct (Z.le_gt_cases (Zdigits2 (a * b)) (Zdigits2 a + Zdigits2 b)) as [|Hgt]; [done|].
  assert (2 ^ (Zdigits2 a + Zdigits2 b) <= 2 ^ (Zdigits2 (a * b) - 1)) by (apply Z.pow_le_mono_r; lia).
  rewrite Z.pow_add_r in * by lia. nia.
Qed.

(** A product, with its relative error. *)
Lemma f64_mul_spec a b x y :
  tame a x -> tame b y -> 0 <= a -> 0 <= b -> a + b <= 800 ->
  tame (a + b + 1) (f64_mul x y)
  /\ scaled x * scaled y * (2 ^ 52 - 1) <= scaled (f64_mul x y) * 2 ^ 1200 * 2 ^ 52 <= scaled x * scaled y * (2 ^ 52 + 1).
Proof.
  intros (mx & ex & -> & Hx1 & Hx2) (my & ey & -> & Hy1 & Hy2) Ha Hb Hab. cbn [f64_mul SFmul xorb].
  pose proof (digits_mul (Z.pos mx) (Z.pos my) ltac:(lia) ltac:(lia)) as Hd.
  change (Z.pos mx * Z.pos my) with (Z.pos (mx * my)) in Hd. unfold f64_mul, SFmul. cbn [xorb].
  destruct (round_aux_spec (Z.pos (mx * my)) (ex + ey) loc_Exact) as (m' & e' & -> & He & Hd' & Hr & _); [lia|lia|lia|by left|].
  split; [exists m', e'; split; [done|lia]|]. cbn [scaled].
  replace (Z.pos mx * 2 ^ (ex + 1200) * (Z.pos my * 2 ^ (ey + 1200))) with (Z.pos (mx * my) * 2 ^ (ex + ey + 2400)).
  2: { replace (ex + ey + 2400) with (ex + 1200 + (ey + 1200)) by lia. rewrite (Z.pow_add_r 2 (ex + 1200)) by lia. lia. }
  replace (Z.pos m' * 2 ^ (e' + 1200) * 2 ^ 1200) with (Z.pos m' * 2 ^ (e' - (ex + ey)) * 2 ^ (ex + ey + 2400)).
  2: { rewrite <- !Z.mul_assoc, <- !Z.pow_add_r by lia. f_equal. f_equal. lia. }
  assert (0 < 2 ^ (ex + ey + 2400)) by (apply Z.pow_pos_nonneg; lia). set (w := 2 ^ (ex + ey + 2400)) in *. clearbody w.
  set (u := Z.pos m' * 2 ^ (e' - (ex + ey))) in *. clearbody u.
  destruct Hr as [Hlow Hup]. apply (Z.mul_le_mono_nonneg_r _ _ w) in Hlow, Hup; [|lia|lia]. lia.
Qed.

(** A quotient, likewise. *)
Lemma f64_div_spec a b x y :
  tame a x -> tame b y -> 0 <= a -> 0 <= b -> a + b <= 400 ->
  tame (2 * (a + b) + 60) (f64_div x y)
  /\ scaled x * 2 ^ 1200 * (2 ^ 51 - 1) <= scaled (f64_div x y) * scaled y * 2 ^ 51
  /\ scaled (f64_div x y) * scaled y * 2 ^ 52 <= scaled x * 2 ^ 1200 * (2 ^ 52 + 1).
Proof.
  intros (mx & ex & -> & Hx1 & Hx2) (my & ey & -> & Hy1 & Hy2) Ha Hb Hab. unfold f64_div, SFdiv. cbn [xorb].
  set (d1 := Zdigits2 (Z.pos mx)) in *. set (d2 := Zdigits2 (Z.pos my)) in *.
  pose proof (digits_bounds (Z.pos mx) ltac:(lia)) as B1. pose proof (digits_bounds (Z.pos my) ltac:(lia)) as B2.
  pose proof (digits_pos (Z.pos mx) ltac:(lia)) as P1. pose proof (digits_pos (Z.pos my) ltac:(lia)) as P2. fold d1 in B1, P1. fold d2 in B2, P2.
  unfold SFdiv_core_binary. fold d1 d2. unfold fexp, emin.
  set (e := Z.min _ _). assert (He : e = Z.min (d1 + ex - (d2 + ey) - 53) (ex - ey)) by lia. set (s := ex - ey - e). assert (Hs : 0 <= s) by lia.
  set (m := match s with 0 => Z.pos mx | Z.pos _ => Z.shiftl (Z.pos mx) s | Z.neg _ => 0 end).
  assert (Hm : m = Z.pos mx * 2 ^ s) by (unfold m; destruct s as [|s'|s'] eqn:Es; [lia|by rewrite Z.shiftl_mul_pow2 by lia|lia]). clearbody m.
  pose proof (Z_div_mod m (Z.pos my) ltac:(lia)) as Hdm. destruct (Z.div_eucl m (Z.pos my)) as [q r]. destruct Hdm as [Hq Hr].
  assert (H2s : 0 < 2 ^ s) by (apply Z.pow_pos_nonneg; lia).
  assert (Hbig : 2 ^ 52 * Z.pos my <= m).
  { rewrite Hm. apply Z.le_trans with (2 ^ (d1 - 1) * 2 ^ s); [|nia]. rewrite <- Z.pow_add_r by lia.
    apply Z.le_trans with (2 ^ 52 * 2 ^ d2); [nia|]. rewrite <- Z.pow_add_r by lia. apply Z.pow_le_mono_r; lia. }
  assert (Hq52 : 2 ^ 52 <= q) by nia.
  assert (Hqd : 53 <= Zdigits2 q).
  { pose proof (digits_bounds q ltac:(lia)) as Bq. destruct (Z.le_gt_cases 53 (Zdigits2 q)) as [|Hlt]; [done|].
    assert (2 ^ Zdigits2 q <= 2 ^ 52) by (apply Z.pow_le_mono_r; lia). lia. }
  assert (Hqs : Zdigits2 q <= d1 + s).
  { pose proof (digits_bounds q ltac:(lia)) as Bq. destruct (Z.le_gt_cases (Zdigits2 q) (d1 + s)) as [|Hgt]; [done|].
    assert (2 ^ (d1 + s) <= 2 ^ (Zdigits2 q - 1)) by (apply Z.pow_le_mono_r; lia). rewrite Z.pow_add_r in H by lia. nia. }
  destruct (round_aux_spec q e (new_location (Z.pos my) r)) as (m' & e' & -> & He' & Hd' & Hrel & _); [lia|lia|lia|by right|].
  split; [exists m', e'; split; [done|lia]|]. cbn [scaled].
  replace (Z.pos mx * 2 ^ (ex + 1200) * 2 ^ 1200) with (m * 2 ^ (e + ey + 2400)).
  2: { rewrite Hm, <- !Z.mul_assoc, <- !Z.pow_add_r by lia. f_equal. f_equal. lia. }
  replace (Z.pos m' * 2 ^ (e' + 1200) * (Z.pos my * 2 ^ (ey + 1200))) with (Z.pos m' * 2 ^ (e' - e) * Z.pos my * 2 ^ (e + ey + 2400)).
  2: { replace (e + ey + 2400) with ((e + 1200) + (ey + 1200)) by lia. rewrite (Z.pow_add_r 2 (e + 1200)) by lia.
       replace (e' + 1200) with ((e' - e) + (e + 1200)) by lia. rewrite (Z.pow_add_r 2 (e' - e)) by lia. ring. }
  assert (0 < 2 ^ (e + ey + 2400)) by (apply Z.pow_pos_nonneg; lia). set (w := 2 ^ (e + ey + 2400)) in *. clearbody w.
  set (u := Z.pos m' * 2 ^ (e' - e)) in *. clearbody u.
  assert (Hlow : m * (2 ^ 51 - 1) <= u * Z.pos my * 2 ^ 51) by nia.
  assert (Hup : u * Z.pos my * 2 ^ 52 <= m * (2 ^ 52 + 1)) by nia.
  apply (Z.mul_le_mono_nonneg_r _ _ w) in Hlow, Hup; [|lia|lia]. lia.
Qed.

Lemma u64_of_scaled b x : tame b x -> 0 <= b <= 1200 -> u64_of x = Z.min (2 ^ 64 - 1) (scaled x / 2 ^ 1200).
Proof.
  intros (m & e & -> & He & _) Hb. cbn [u64_of scaled]. f_equal. destruct (Z.leb_spec 0 e) as [Hle|Hlt].
  - rewrite Z.pow_add_r, Z.mul_assoc, Z.div_mul; lia.
  - replace (2 ^ 1200) with (2 ^ (e + 1200) * 2 ^ (- e)) by (rewrite <- Z.pow_add_r by lia; f_equal; lia).
    rewrite (Z.mul_comm (2 ^ (e + 1200))), Z.div_mul_cancel_r; [done|apply Z.pow_nonzero; lia|apply Z.pow_nonzero; lia].
Qed.
