(* ===== verification/ClientTransport.v ===== *)
(** * Errors, retries and connections of the client
    (crates/streamhouse-client/src/error.rs, retry.rs, connection_pool.rs)

    The back-off computes in [f64], modelled by the IEEE operations of the Standard Library;
    the random jitter, the network and the clock are arguments. *)

From Stdlib Require Import Floats.SpecFloat.
From stdpp Require Import pretty.
From S2P Require Import Prelude Float HashMap MetadataError.

(** ** Errors *)

(** The errors that the modelled code returns. *)
Inductive ClientError : Type :=
| NoAgentsAvailable (group : string)
| CTopicNotFound (topic : string)
| InvalidPartition (partition : Z) (topic : string) (max : Z)
| AgentConnectionFailed (agent_id address reason : string)
| AgentError (agent_id reason : string)
| CMetadataError (e : MetadataError)
| CStorageError (m : string)
| ConfigError (m : string)
| BatchFlushFailed
| OffsetAlreadyConsumed
| SchemaRegistryError (m : string).

(** [tonic::Code]. *)
Module Code.
Inductive t : Type :=
| Ok | Cancelled | Unknown | InvalidArgument | DeadlineExceeded | NotFound | AlreadyExists | PermissionDenied
| ResourceExhausted | FailedPrecondition | Aborted | OutOfRange | Unimplemented | Internal | Unavailable | DataLoss
| Unauthenticated.
End Code.

(** [tonic::Status], and its text, which is third-party. *)
Record RpcStatus : Type := mk_rpc_status { code : Code.t; message : string }.
Class RpcTexts := rpc_status_text : RpcStatus -> string.

(** ** Durations, in nanoseconds *)

Definition as_millis (d : Z) : Z := d / 1000000.
Definition from_millis (ms : Z) : Z := ms * 1000000.

(** [Instant::elapsed] and [duration_since], which do not go below zero. *)
Definition duration_since (now earlier : Z) : Z := sat_sub now earlier.

(** ** Retries *)

Record RetryPolicy : Type := mk_retry_policy {
  max_retries : nat;
  initial_backoff : Z;
  max_backoff : Z;
  backoff_multiplier : f64
}.

Definition default_retry_policy : RetryPolicy := mk_retry_policy 5 (from_millis 100) (from_millis 30000) (f64_of 2).

Definition backoff (policy : RetryPolicy) (attempt : nat) : Z :=
  let backoff_ms :=
    f64_mul (f64_of (as_millis (initial_backoff policy))) (powi (backoff_multiplier policy) (swrap 32 (Z.of_nat attempt))) in
  Z.min (from_millis (u64_of backoff_ms)) (max_backoff policy).

Definition is_retryable (status : RpcStatus) : bool :=
  match code status with
  | Code.Unavailable | Code.DeadlineExceeded | Code.ResourceExhausted | Code.Internal => true
  | _ => false
  end.

(** 0.75 and 0.5. *)
Definition jitter (random : f64) : f64 :=
  f64_add (S754_finite false 6755399441055744 (-53)) (f64_mul random (S754_finite false 4503599627370496 (-53))).

Definition jittered (base_backoff : Z) (random : f64) : Z :=
  from_millis (u64_of (f64_mul (f64_of (as_millis base_backoff)) (jitter random))).

Section retry.
Context {S A : Type} (operation : nat -> S -> S * outcome RpcStatus A).

(** The loop, at [attempt] with [left] retries to go; it gives the pauses too. *)
Fixpoint retry_loop (left_ : nat) (delay : nat -> Z) (attempt : nat) (s : S) : S * list Z * outcome RpcStatus A :=
  match operation attempt s with
  | (s, Err status) =>
      if is_retryable status then
        match left_ with
        | O => (s, [], Err status)
        | Datatypes.S left_ =>
            let '(s, pauses, r) := retry_loop left_ delay (Datatypes.S attempt) s in (s, delay attempt :: pauses, r)
        end
      else (s, [], Err status)
  | (s, r) => (s, [], r)
  end.

Definition retry_with_backoff (policy : RetryPolicy) (s : S) : S * list Z * outcome RpcStatus A :=
  retry_loop (max_retries policy) (backoff policy) 0 s.

(** [random] gives the random number of each pause. *)
Definition retry_with_jittered_backoff (policy : RetryPolicy) (random : nat -> f64) (s : S)
  : S * list Z * outcome RpcStatus A :=
  retry_loop (max_retries policy) (fun attempt => jittered (backoff policy attempt) (random attempt)) 0 s.
End retry.

(** ** Connections *)

Section pool.
Context `{HashOrder} {C : Type}.

(** [C]: what a client is connected to. *)
Record PooledConnection : Type := mk_pooled { client : C; last_used : Z; healthy : bool }.

Record ConnectionPool : Type := mk_connection_pool {
  pools : gmap string (list PooledConnection);
  max_connections_per_agent : nat;
  idle_timeout : Z
}.

Definition new_pool (max_connections_per_agent : nat) (idle_timeout : Z) : ConnectionPool :=
  mk_connection_pool ∅ max_connections_per_agent idle_timeout.

Definition set_pools (m : gmap string (list PooledConnection)) (p : ConnectionPool) : ConnectionPool :=
  mk_connection_pool m (max_connections_per_agent p) (idle_timeout p).

Definition fresh (p : ConnectionPool) (now : Z) (conn : PooledConnection) : bool :=
  duration_since now (last_used conn) <? idle_timeout p.

(** [create]: what a new connection finds. *)
Definition get_connection (address : string) (now : Z) (create : outcome string C) (p : ConnectionPool)
  : ConnectionPool * outcome string C :=
  match find (fun conn => healthy conn && fresh p now conn) (default [] (pools p !! address)) with
  | Some conn => (p, Ok (client conn))
  | None =>
      let pool := List.filter (fresh p now) (default [] (pools p !! address)) in
      let p := set_pools (<[address := pool]> (pools p)) p in
      match find healthy pool with
      | Some conn => (p, Ok (client conn))
      | None =>
          match create with
          | Ok client =>
              let pool := default [] (pools p !! address) in
              (if (length pool <? max_connections_per_agent p)%nat
               then set_pools (<[address := pool ++ [mk_pooled client now true]]> (pools p)) p
               else set_pools (<[address := pool]> (pools p)) p, Ok client)
          | e => (p, e)
          end
      end
  end.

Definition mark_unhealthy (address : string) (p : ConnectionPool) : ConnectionPool :=
  set_pools (alter (map (fun conn => mk_pooled (client conn) (last_used conn) false)) address (pools p)) p.

Definition close_agent (address : string) (p : ConnectionPool) : ConnectionPool := set_pools (delete address (pools p)) p.
Definition close_all (p : ConnectionPool) : ConnectionPool := set_pools ∅ p.

Definition count_all {A} (f : A -> nat) (l : list A) : nat := foldr (fun a n => f a + n)%nat O l.

(** All connections, the healthy ones, the agents. *)
Definition pool_stats (p : ConnectionPool) : nat * nat * nat :=
  let lists := map snd (iter (pools p)) in
  (count_all length lists, count_all (fun l => length (List.filter healthy l)) lists, size (pools p)).
End pool.
Arguments PooledConnection : clear implicits.
Arguments ConnectionPool : clear implicits.

(** ** Facts *)

Section retry_facts.
Context {S A : Type} (operation : nat -> S -> S * outcome RpcStatus A).

(** The state after the first [n] calls. *)
Fixpoint after_calls (n : nat) (s : S) : S :=
  match n with O => s | Datatypes.S n => fst (operation n (after_calls n s)) end.

Definition answer (n : nat) (s : S) : outcome RpcStatus A := snd (operation n (after_calls n s)).

Definition retried (r : outcome RpcStatus A) : Prop := exists status, r = Err status /\ is_retryable status = true.

Lemma retry_loop_spec left_ delay attempt s0 :
  let '(s', pauses, r) := retry_loop operation left_ delay attempt (after_calls attempt s0) in
  exists n, (attempt <= n <= attempt + left_)%nat /\ s' = after_calls (Datatypes.S n) s0 /\ r = answer n s0
    /\ pauses = map delay (seq attempt (n - attempt)) /\ (forall i, (attempt <= i < n)%nat -> retried (answer i s0))
    /\ (n = attempt + left_ \/ ~ retried r)%nat.
Proof.
  revert attempt. induction left_ as [|l IH]; intros attempt; cbn [retry_loop];
    pose proof (eq_refl (operation attempt (after_calls attempt s0))) as He; revert He;
    destruct (operation attempt (after_calls attempt s0)) as [s r] eqn:Hop; intros _.
  - assert (Hs : s = after_calls (Datatypes.S attempt) s0) by (cbn; by rewrite Hop).
    assert (Hr : r = answer attempt s0) by (unfold answer; by rewrite Hop).
    destruct r as [a|status|]; [|destruct (is_retryable status)|];
      (exists attempt; rewrite Nat.sub_diag; repeat split; [lia..|done|done|intros i Hi; lia|by left; lia]).
  - assert (Hs : s = after_calls (Datatypes.S attempt) s0) by (cbn; by rewrite Hop).
    assert (Hr : r = answer attempt s0) by (unfold answer; by rewrite Hop).
    assert (Hstop : ~ retried r -> exists n, (attempt <= n <= attempt + Datatypes.S l)%nat /\ s = after_calls (Datatypes.S n) s0
      /\ r = answer n s0 /\ [] = map delay (seq attempt (n - attempt))
      /\ (forall i, (attempt <= i < n)%nat -> retried (answer i s0)) /\ (n = attempt + Datatypes.S l \/ ~ retried r)%nat).
    { intros Hn. exists attempt. rewrite Nat.sub_diag. repeat split; [lia..|done|done|intros i Hi; lia|by right]. }
    destruct r as [a|status|]; [apply Hstop; by intros (? & [=] & _)| |apply Hstop; by intros (? & [=] & _)].
    destruct (is_retryable status) eqn:Hrt; [|apply Hstop; intros (? & [= <-] & ?); congruence].
    specialize (IH (Datatypes.S attempt)). rewrite <- Hs in IH.
    destruct (retry_loop operation l delay (Datatypes.S attempt) s) as [[s' pauses] r'].
    destruct IH as (n & Hn & -> & -> & -> & Hall & Hend). exists n. split; [lia|]. split; [done|]. split; [done|]. split.
    + replace (n - attempt)%nat with (Datatypes.S (n - Datatypes.S attempt)) by lia. done.
    + split; [|destruct Hend; [left; lia|by right]]. intros i Hi. destruct (decide (i = attempt)) as [-> |]; [|apply Hall; lia].
      rewrite <- Hr. by exists status.
Qed.
End retry_facts.
Arguments after_calls {S A}. Arguments answer {S A}. Arguments retried {A}.

(** C28: retrying ends, and with the right answer.  The calls stop at the first answer that
    must not be retried, or after [max_retries] retries; its answer is the answer, the
    operation was called exactly that often, and there is one pause before each retry, none longer
    than the bound of the policy. *)
Theorem retry_spec {S A} (operation : nat -> S -> S * outcome RpcStatus A) policy s :
  let '(s', pauses, r) := retry_with_backoff operation policy s in
  exists n, (n <= max_retries policy)%nat /\ s' = after_calls operation (Datatypes.S n) s /\ r = answer operation n s
    /\ length pauses = n /\ Forall (fun d => d <= max_backoff policy) pauses
    /\ (forall i, (i < n)%nat -> retried (answer operation i s)) /\ (n = max_retries policy \/ ~ retried r).
Proof.
  unfold retry_with_backoff. pose proof (retry_loop_spec operation (max_retries policy) (backoff policy) 0 s) as Hl.
  cbn [after_calls] in Hl. destruct (retry_loop _ _ _ _ _) as [[s' pauses] r].
  destruct Hl as (n & Hn & -> & -> & -> & Hall & Hend). exists n. split; [lia|]. split; [done|]. split; [done|]. repeat split.
  - rewrite length_map, length_seq. lia.
  - apply Forall_fmap, Forall_forall. intros i _. unfold backoff; cbn. lia.
  - intros i Hi. apply Hall. lia.
  - by destruct Hend; [left|right].
Qed.

(** The pauses of the default policy, in milliseconds; later ones stay at the bound. *)
Lemma default_pauses :
  map (fun i => as_millis (backoff default_retry_policy i)) (seq 0 12)
  = [100; 200; 400; 800; 1600; 3200; 6400; 12800; 25600; 30000; 30000; 30000].
Proof. vm_compute. reflexivity. Qed.

Section pool_facts.
Context `{HashOrder} {C : Type}.

Definition pool_bounded (p : ConnectionPool C) : Prop :=
  forall address l, pools p !! address = Some l -> (length l <= max_connections_per_agent p)%nat.

Lemma filter_length_le {A} (f : A -> bool) l : (length (List.filter f l) <= length l)%nat.
Proof. induction l as [|a l IH]; cbn; [lia|]. destruct (f a); cbn; lia. Qed.

Lemma pool_bounded_put address l (p : ConnectionPool C) :
  pool_bounded p -> (length l <= max_connections_per_agent p)%nat ->
  pool_bounded (set_pools (<[address := l]> (pools p)) p).
Proof. intros Hp Hl a l'. cbn. intros [[<- <-]|[_ Hin]]%lookup_insert_Some; [done|by apply (Hp a)]. Qed.

Lemma pool_bounded_get address now create (p : ConnectionPool C) :
  pool_bounded p -> pool_bounded (fst (get_connection address now create p)).
Proof.
  intros Hp. unfold get_connection. set (kept := List.filter (fresh p now) (default [] (pools p !! address))).
  assert (Hl : (length kept <= max_connections_per_agent p)%nat).
  { etrans; [apply filter_length_le|]. destruct (pools p !! address) as [l|] eqn:Hl; cbn; [by apply (Hp address)|lia]. }
  destruct (find (fun conn => _) _); [done|]. pose proof (pool_bounded_put address kept p Hp Hl) as Hb.
  destruct (find healthy _); [done|]. destruct create as [c|e|]; cbn [fst]; [|done..].
  destruct (Nat.ltb_spec (length (default [] (pools (set_pools (<[address := kept]> (pools p)) p) !! address)))
              (max_connections_per_agent (set_pools (<[address := kept]> (pools p)) p))) as [Hlt|];
    apply pool_bounded_put; try done; revert Hlt || idtac; cbn; rewrite lookup_insert_eq; cbn; rewrite ?length_app; cbn; lia.
Qed.

(** A pooled connection that was used is not fresher for it: a pool counts the age, not the
    idle time, of a connection. *)
Lemma use_does_not_refresh address now create (p : ConnectionPool C) conn :
  pools p !! address = Some [conn] -> healthy conn = true -> fresh p now conn = true ->
  fst (get_connection address now create p) = p.
Proof. intros Hl Hh Hf. unfold get_connection. rewrite Hl. cbn [default from_option find id]. by rewrite Hh, Hf. Qed.
End pool_facts.

Lemma retry_default_witness :
  let op := fun n (s : nat) => (Datatypes.S s, if (n <? 2)%nat then Err (mk_rpc_status Code.Unavailable "down") else Ok n) in
  retry_with_backoff op default_retry_policy O = (3%nat, [from_millis 100; from_millis 200], Ok 2%nat).
Proof. vm_compute. reflexivity. Qed.
