(* ===== verification/ClientBatch.v ===== *)
(** * Batching of the client (crates/streamhouse-client/src/batch.rs)

    A buffer of records for each partition, and when it is due.  The clock is an argument:
    for an operation that visits all buffers, one reading for each. *)

From S2P Require Import Prelude HashMap Float ClientTransport.

Record BatchRecord : Type := mk_batch_record { br_key : option bytes; br_value : bytes; br_timestamp : Z }.

Definition record_size (r : BatchRecord) : Z :=
  wrap 64 (match br_key r with Some k => len k | None => 0 end + len (br_value r) + 16).

(** ** One partition *)

Record BatchBuffer : Type := mk_batch_buffer {
  records : list BatchRecord;
  size_bytes : Z;
  created_at : Z;
  bb_max_batch_size : nat;
  bb_max_batch_bytes : Z;
  bb_linger : Z
}.

Definition new_buffer (max_batch_size : nat) (max_batch_bytes linger now : Z) : BatchBuffer :=
  mk_batch_buffer [] 0 now max_batch_size max_batch_bytes linger.

Definition buffer_append (record : BatchRecord) (b : BatchBuffer) : BatchBuffer :=
  mk_batch_buffer (records b ++ [record]) (wrap 64 (size_bytes b + record_size record)) (created_at b)
    (bb_max_batch_size b) (bb_max_batch_bytes b) (bb_linger b).

Definition should_flush (now : Z) (b : BatchBuffer) : bool :=
  match records b with
  | [] => false
  | _ =>
      if (bb_max_batch_size b <=? length (records b))%nat then true
      else if bb_max_batch_bytes b <=? size_bytes b then true
      else bb_linger b <=? duration_since now (created_at b)
  end.

Definition drain (now : Z) (b : BatchBuffer) : BatchBuffer * list BatchRecord :=
  (mk_batch_buffer [] 0 now (bb_max_batch_size b) (bb_max_batch_bytes b) (bb_linger b), records b).

Definition is_empty (b : BatchBuffer) : bool := match records b with [] => true | _ => false end.

(** ** All partitions *)

Abbreviation PartitionKey := (string * Z)%type.

Record BatchManager : Type := mk_batch_manager {
  buffers : gmap PartitionKey BatchBuffer;
  max_batch_size : nat;
  max_batch_bytes : Z;
  linger : Z
}.

Definition new_manager (max_batch_size : nat) (max_batch_bytes linger : Z) : BatchManager :=
  mk_batch_manager ∅ max_batch_size max_batch_bytes linger.

Definition set_buffers (m : gmap PartitionKey BatchBuffer) (bm : BatchManager) : BatchManager :=
  mk_batch_manager m (max_batch_size bm) (max_batch_bytes bm) (linger bm).

Definition append (topic : string) (partition : Z) (record : BatchRecord) (now : Z) (bm : BatchManager) : BatchManager :=
  let buffer := default (new_buffer (max_batch_size bm) (max_batch_bytes bm) (linger bm) now) (buffers bm !! (topic, partition)) in
  set_buffers (<[(topic, partition) := buffer_append record buffer]> (buffers bm)) bm.

Section manager.
Context `{HashOrder}.

(** The buffers that [due] are drained, in the order of the map. *)
Definition drain_where (due : PartitionKey -> BatchBuffer -> bool) (now : PartitionKey -> Z) (bm : BatchManager)
  : BatchManager * list (PartitionKey * list BatchRecord) :=
  (set_buffers (map_imap (fun k b => Some (if due k b then fst (drain (now k) b) else b)) (buffers bm)) bm,
   map (fun e => (e.1, records e.2)) (List.filter (fun e => due e.1 e.2) (iter (buffers bm)))).

Definition ready_batches (now : PartitionKey -> Z) : BatchManager -> BatchManager * list (PartitionKey * list BatchRecord) :=
  drain_where (fun k b => should_flush (now k) b) now.

Definition flush_all (now : PartitionKey -> Z) : BatchManager -> BatchManager * list (PartitionKey * list BatchRecord) :=
  drain_where (fun _ b => negb (is_empty b)) now.

Definition manager_stats (bm : BatchManager) : nat * nat * Z :=
  let bs := map snd (iter (buffers bm)) in
  (size (buffers bm), count_all (fun b => length (records b)) bs, foldr (fun b n => wrap 64 (size_bytes b + n)) 0 bs).

Definition get_batch_size (topic : string) (partition : Z) (bm : BatchManager) : nat :=
  match buffers bm !! (topic, partition) with Some b => length (records b) | None => O end.

(** ** Facts *)

(** What is buffered for a partition. *)
Definition buffered (bm : BatchManager) (k : PartitionKey) : list BatchRecord :=
  match buffers bm !! k with Some b => records b | None => [] end.

Lemma buffered_append topic partition r now bm k :
  buffered (append topic partition r now bm) k
  = buffered bm k ++ (if decide (k = (topic, partition)) then [r] else []).
Proof.
  unfold buffered, append. cbn. destruct (decide (k = (topic, partition))) as [-> |Hne].
  - rewrite lookup_insert_eq. by destruct (buffers bm !! _).
  - rewrite lookup_insert_ne by done. by rewrite app_nil_r.
Qed.

(** The batches that are taken for a partition. *)
Definition taken (k : PartitionKey) (ready : list (PartitionKey * list BatchRecord)) : list BatchRecord :=
  concat (map snd (filter (fun e => e.1 = k) ready)).

Lemma taken_cons k e ready : taken k (e :: ready) = (if decide (e.1 = k) then e.2 else []) ++ taken k ready.
Proof. unfold taken. rewrite filter_cons. by case_decide. Qed.

Lemma taken_notin k ready : k ∉ ready.*1 -> taken k ready = [].
Proof.
  intros Hk. unfold taken. rewrite filter_none; [done|]. intros e He <-. by apply Hk, list_elem_of_fmap_2.
Qed.

Lemma taken_in k rs ready : NoDup ready.*1 -> (k, rs) ∈ ready -> taken k ready = rs.
Proof.
  induction ready as [|[k' rs'] ready IH]; intros Hnd Hin; [by apply elem_of_nil in Hin|].
  rewrite taken_cons. cbn [fmap list_fmap fst snd] in *. apply NoDup_cons in Hnd as [Hk Hnd].
  apply elem_of_cons in Hin as [[= <- <-]|Hin].
  - rewrite decide_True by done. rewrite taken_notin by done. by rewrite app_nil_r.
  - rewrite decide_False; [by apply IH|]. cbn. intros ->. apply Hk. by apply (list_elem_of_fmap_2 fst) in Hin.
Qed.

Lemma NoDup_filter_fst {A B} (f : A * B -> bool) l : NoDup l.*1 -> NoDup (List.filter f l).*1.
Proof.
  induction l as [|[a b] l IH]; [done|]. intros [Ha Hl]%NoDup_cons. cbn [List.filter].
  destruct (f (a, b)); [|by apply IH]. cbn. apply NoDup_cons. split; [|by apply IH].
  intros (e & -> & [He _]%list_elem_of_In%filter_In)%list_elem_of_fmap. apply Ha. cbn. by apply list_elem_of_fmap_2, list_elem_of_In.
Qed.

Lemma drain_where_spec due now bm :
  (forall k b, due k b = true -> records b <> []) ->
  let '(bm', ready) := drain_where due now bm in
  NoDup ready.*1 /\ Forall (fun e => e.2 <> []) ready
  /\ forall k, taken k ready ++ buffered bm' k = buffered bm k
       /\ ((taken k ready <> [] /\ buffered bm' k = []) \/ taken k ready = [] /\ buffered bm' k = buffered bm k).
Proof.
  intros Hdue. unfold drain_where. set (ready := map _ _).
  assert (Hin : forall k rs, (k, rs) ∈ ready <-> exists b, buffers bm !! k = Some b /\ due k b = true /\ rs = records b).
  { intros k rs. unfold ready. rewrite list_elem_of_In, in_map_iff. split.
    - intros ([k' b] & [= <- <-] & [Hb Hd]%filter_In). exists b. split; [by apply elem_of_iter, list_elem_of_In|done].
    - intros (b & Hb & Hd & ->). exists (k, b). split; [done|]. apply filter_In. split; [by apply list_elem_of_In, elem_of_iter|done]. }
  assert (Hnd : NoDup ready.*1).
  { unfold ready. change (map ?f ?l) with (f <$> l). rewrite <- list_fmap_compose. apply (NoDup_filter_fst (fun e => due e.1 e.2)), iter_NoDup. }
  split; [done|]. split.
  { apply Forall_forall. intros [k rs] (b & _ & Hd & ->)%Hin. by apply (Hdue k). }
  intros k. unfold buffered. cbn [buffers set_buffers]. rewrite map_lookup_imap.
  destruct (buffers bm !! k) as [b|] eqn:Hb; cbn [mbind option_bind].
  - destruct (due k b) eqn:Hd.
    + rewrite (taken_in k (records b)) by (done || (apply Hin; by exists b)). cbn. rewrite app_nil_r. split; [done|]. left. split; [by apply (Hdue k)|done].
    + rewrite taken_notin; [by split; [|right]|]. intros ([k' rs] & -> & (b' & Hb' & Hd' & _)%Hin)%list_elem_of_fmap. cbn in *. congruence.
  - rewrite taken_notin; [by split; [|right]|]. intros ([k' rs] & -> & (b' & Hb' & _)%Hin)%list_elem_of_fmap. cbn in *. congruence.
Qed.

Lemma should_flush_nonempty now b : should_flush now b = true -> records b <> [].
Proof. unfold should_flush. by destruct (records b). Qed.

(** Batches neither lose, nor repeat, nor reorder records.  Whatever is due when the buffers
    are visited, a partition gives at most one batch, which is not empty; the batch is
    everything that was buffered for the partition, in the order of the appends, and what
    is not taken stays; a record that has waited for the linger time is taken, also when
    neither size is reached. *)
Theorem ready_batches_spec now bm :
  let '(bm', ready) := ready_batches now bm in
  NoDup ready.*1 /\ Forall (fun e => e.2 <> []) ready
  /\ (forall k, taken k ready ++ buffered bm' k = buffered bm k)
  /\ forall k b, buffers bm !! k = Some b -> records b <> [] -> created_at b + bb_linger b <= now k -> 0 <= bb_linger b ->
       (k, records b) ∈ ready.
Proof.
  pose proof (drain_where_spec (fun k b => should_flush (now k) b) now bm (fun k b => should_flush_nonempty (now k) b)) as Hd.
  unfold ready_batches. destruct (drain_where _ _ _) as [bm' ready] eqn:Heq. destruct Hd as (Hnd & Hne & Hk).
  split; [done|]. split; [done|]. split; [intros k; apply Hk|]. intros k b Hb Hr Ht Hl.
  injection Heq as _ <-. apply list_elem_of_In, in_map_iff. exists (k, b). split; [done|]. apply filter_In.
  split; [by apply list_elem_of_In, elem_of_iter|]. unfold should_flush. cbn [fst snd].
  destruct (records b); [done|]. destruct (_ <=? _)%nat; [done|]. destruct (_ <=? size_bytes b); [done|].
  apply Z.leb_le. unfold duration_since, sat_sub. lia.
Qed.

Lemma flush_all_spec now bm :
  let '(bm', all) := flush_all now bm in
  NoDup all.*1 /\ Forall (fun e => e.2 <> []) all /\ forall k, taken k all = buffered bm k /\ buffered bm' k = [].
Proof.
  assert (Hne : forall (k : PartitionKey) b, negb (is_empty b) = true -> records b <> []) by (intros k b; unfold is_empty; by destruct (records b)).
  pose proof (drain_where_spec (fun _ b => negb (is_empty b)) now bm Hne) as Hd.
  unfold flush_all. destruct (drain_where _ _ _) as [bm' all] eqn:Heq. destruct Hd as (Hnd & Hn & Hk).
  split; [done|]. split; [done|]. intros k. destruct (Hk k) as [Happ Hor].
  assert (Hnil : buffered bm' k = []).
  { injection Heq as <- _. unfold buffered. cbn [buffers set_buffers]. rewrite map_lookup_imap.
    destruct (buffers bm !! k) as [b|]; [|done]. cbn. destruct (is_empty b) eqn:Hb; cbn; [|done]. unfold is_empty in Hb. by destruct (records b). }
  rewrite Hnil, app_nil_r in Happ. done.
Qed.
End manager.
