(* ===== verification/ClientProducer.v ===== *)
(** * The producer of the client library (crates/streamhouse-client/src/producer.rs)

    [send] buffers a record and gives a receiver for its offset; [flush], [close] and a task in
    the background send the batches that are due and tell the receivers.  The servers are behind
    an interface ([Cluster]); the clocks, the metadata store and failures of the network
    are arguments, one record for each batch. *)

From S2P Require Import Prelude HashMap MetadataError Catalog Lease ProducerStore AgentRouter Float ClientTransport ClientBatch.

(** [siphasher::sip]: of a text and of a slice of bytes; 64 bits. *)
Class SipHash := { sip_text : string -> Z; sip_slice : bytes -> Z }.

(** The messages; headers are never sent. *)
Record ProduceBatchRequest : Type := mk_batch_request {
  pb_topic : string;
  pb_partition : Z;
  pb_records : list (bytes * bytes);
  pb_producer_id : option string;
  pb_producer_epoch : option Z;
  pb_base_sequence : option Z;
  pb_transaction_id : option string;
  pb_ack_mode : Z
}.

Record ProduceBatchResponse : Type := mk_batch_response {
  first_offset : Z;
  last_offset : Z;
  response_count : Z;
  duplicates_filtered : bool
}.

(** The servers: a call at an address.  [W] is their state, [E] what a call meets. *)
Class Cluster (W E : Type) := {
  produce_batch : string -> ProduceBatchRequest -> E -> W -> W * outcome RpcStatus ProduceBatchResponse;
  call_init : string -> option string -> option string -> E -> W -> W * outcome RpcStatus (string * Z);
  call_begin : string -> string -> Z -> Z -> E -> W -> W * outcome RpcStatus string;
  call_commit : string -> string -> Z -> string -> E -> W -> W * outcome RpcStatus Z;
  call_abort : string -> string -> Z -> string -> E -> W -> W * outcome RpcStatus ()
}.

(** Of an agent, what the client reads. *)
Record AgentInfo : Type := mk_agent_info { ai_agent_id : string; ai_address : string }.

(** A channel for one offset: waiting, told, or its sender dropped. *)
Inductive channel : Type := Waiting | Told (offset : Z) | Closed.

Record SendResult : Type := mk_send_result {
  sr_topic : string;
  sr_partition : Z;
  sr_offset : option Z;
  sr_timestamp : Z;
  sr_receiver : option nat
}.

(** [queues] and [channels] are the pending records: the senders of each partition, by the
    number of their channel, and the channels. *)
Record Producer : Type := mk_producer {
  org_id : string;
  agent_group : string;
  agents : gmap string AgentInfo;
  topic_cache : gmap string Topic;
  connection_pool : ConnectionPool string;
  batch_manager : BatchManager;
  retry_policy : RetryPolicy;
  queues : gmap PartitionKey (list nat);
  channels : list channel;
  schema_registry : bool;
  schema_cache : gmap string Z;
  producer_id : option string;
  producer_epoch : Z;
  sequence_numbers : gmap PartitionKey Z;
  idempotent : bool;
  transactional_id : option string;
  current_transaction_id : option string
}.

Definition set_agents x0 (p : Producer) : Producer :=
  mk_producer (org_id p) (agent_group p) x0 (topic_cache p) (connection_pool p) (batch_manager p) (retry_policy p)
    (queues p) (channels p) (schema_registry p) (schema_cache p) (producer_id p) (producer_epoch p)
    (sequence_numbers p) (idempotent p) (transactional_id p) (current_transaction_id p).
Definition set_topic_cache x0 (p : Producer) : Producer :=
  mk_producer (org_id p) (agent_group p) (agents p) x0 (connection_pool p) (batch_manager p) (retry_policy p)
    (queues p) (channels p) (schema_registry p) (schema_cache p) (producer_id p) (producer_epoch p)
    (sequence_numbers p) (idempotent p) (transactional_id p) (current_transaction_id p).
Definition set_connections x0 (p : Producer) : Producer :=
  mk_producer (org_id p) (agent_group p) (agents p) (topic_cache p) x0 (batch_manager p) (retry_policy p) (queues p)
    (channels p) (schema_registry p) (schema_cache p) (producer_id p) (producer_epoch p) (sequence_numbers p)
    (idempotent p) (transactional_id p) (current_transaction_id p).
Definition set_batches x0 (p : Producer) : Producer :=
  mk_producer (org_id p) (agent_group p) (agents p) (topic_cache p) (connection_pool p) x0 (retry_policy p)
    (queues p) (channels p) (schema_registry p) (schema_cache p) (producer_id p) (producer_epoch p)
    (sequence_numbers p) (idempotent p) (transactional_id p) (current_transaction_id p).
Definition set_pending x0 x1 (p : Producer) : Producer :=
  mk_producer (org_id p) (agent_group p) (agents p) (topic_cache p) (connection_pool p) (batch_manager p)
    (retry_policy p) x0 x1 (schema_registry p) (schema_cache p) (producer_id p) (producer_epoch p)
    (sequence_numbers p) (idempotent p) (transactional_id p) (current_transaction_id p).
Definition set_schema_cache x0 (p : Producer) : Producer :=
  mk_producer (org_id p) (agent_group p) (agents p) (topic_cache p) (connection_pool p) (batch_manager p)
    (retry_policy p) (queues p) (channels p) (schema_registry p) x0 (producer_id p) (producer_epoch p)
    (sequence_numbers p) (idempotent p) (transactional_id p) (current_transaction_id p).
Definition set_sequences x0 (p : Producer) : Producer :=
  mk_producer (org_id p) (agent_group p) (agents p) (topic_cache p) (connection_pool p) (batch_manager p)
    (retry_policy p) (queues p) (channels p) (schema_registry p) (schema_cache p) (producer_id p) (producer_epoch p)
    x0 (idempotent p) (transactional_id p) (current_transaction_id p).
Definition set_transaction x0 (p : Producer) : Producer :=
  mk_producer (org_id p) (agent_group p) (agents p) (topic_cache p) (connection_pool p) (batch_manager p)
    (retry_policy p) (queues p) (channels p) (schema_registry p) (schema_cache p) (producer_id p) (producer_epoch p)
    (sequence_numbers p) (idempotent p) (transactional_id p) x0.

(** What a batch meets: the monotonic clock, the lease, the error of a new connection,
    the random numbers of the pauses, and the calls. *)
Record batch_env (E : Type) : Type := mk_batch_env {
  be_now : Z;
  be_lease : outcome MetadataError (option PartitionLease);
  be_connect : option string;
  be_random : nat -> f64;
  be_calls : nat -> E
}.
Arguments mk_batch_env {E}. Arguments be_now {E}. Arguments be_lease {E}. Arguments be_connect {E}.
Arguments be_random {E}. Arguments be_calls {E}.

(** ** Sending *)

Section send.
Context `{SipHash}.

(** [fetched]: what the metadata store answers. *)
Definition get_or_fetch_topic (topic : string) (fetched : outcome MetadataError (option Topic)) (p : Producer)
  : Producer * outcome ClientError Topic :=
  match topic_cache p !! topic with
  | Some t => (p, Ok t)
  | None =>
      match fetched with
      | Ok (Some t) => (set_topic_cache (<[topic := t]> (topic_cache p)) p, Ok t)
      | Ok None => (p, Err (CTopicNotFound topic))
      | Err e => (p, Err (CMetadataError e))
      | Panic => (p, Panic)
      end
  end.

(** A topic without partitions divides by zero. *)
Definition compute_partition (key : option bytes) (partition_count nanos : Z) : outcome ClientError Z :=
  if partition_count =? 0 then Panic
  else Ok (match key with Some k => sip_slice k mod partition_count | None => nanos mod partition_count end).

(** The partition of a record, and the record; [nanos] and [millis] are two readings of the clock. *)
Definition prepare (topic : string) (key : option bytes) (value : bytes) (partition : option Z)
    (fetched : outcome MetadataError (option Topic)) (nanos millis : Z) (p : Producer)
  : Producer * outcome ClientError (Z * BatchRecord) :=
  let '(p, topic_meta) := get_or_fetch_topic topic fetched p in
  (p, topic_meta ← topic_meta;
      partition_id ← match partition with
                     | Some n =>
                         if tp_partition_count topic_meta <=? n
                         then Err (InvalidPartition n topic (wrap 32 (tp_partition_count topic_meta - 1))) else Ok n
                     | None => compute_partition key (tp_partition_count topic_meta) nanos
                     end;
      Ok (partition_id, mk_batch_record key value (wrap 64 millis))).

(** The two locks that [send] takes, one after the other: the buffers, and the pending
    records.  [now] is the monotonic clock. *)
Definition send_buffer (topic : string) (partition : Z) (record : BatchRecord) (now : Z) (p : Producer) : Producer * nat :=
  (set_batches (ClientBatch.append topic partition record now (batch_manager p)) (set_pending (queues p) (channels p ++ [Waiting]) p),
   length (channels p)).

Definition send_pending (topic : string) (partition : Z) (id : nat) (p : Producer) : Producer :=
  set_pending (<[(topic, partition) := default [] (queues p !! (topic, partition)) ++ [id]]> (queues p)) (channels p) p.

Definition send (topic : string) (key : option bytes) (value : bytes) (partition : option Z)
    (fetched : outcome MetadataError (option Topic)) (nanos millis now : Z) (p : Producer) : Producer * outcome ClientError SendResult :=
  match prepare topic key value partition fetched nanos millis p with
  | (p, Ok (partition_id, record)) =>
      let '(p, id) := send_buffer topic partition_id record now p in
      (send_pending topic partition_id id p,
       Ok (mk_send_result topic partition_id None (swrap 64 (br_timestamp record)) (Some id)))
  | (p, Err e) => (p, Err e)
  | (p, Panic) => (p, Panic)
  end.

Definition send_with_schema_id (topic : string) (key : option bytes) (value : bytes) (schema_id : Z) (partition : option Z)
    (fetched : outcome MetadataError (option Topic)) (nanos millis now : Z) (p : Producer) : Producer * outcome ClientError SendResult :=
  send topic key (byte_of 0 :: put_be 4 schema_id ++ value) partition fetched nanos millis now p.

(** [registered]: what the schema registry answers. *)
Definition send_with_schema (topic : string) (key : option bytes) (value : bytes) (registered : outcome ClientError Z)
    (partition : option Z) (fetched : outcome MetadataError (option Topic)) (nanos millis now : Z) (p : Producer)
  : Producer * outcome ClientError SendResult :=
  if negb (schema_registry p)
  then (p, Err (ConfigError "Schema registry not configured. Call .schema_registry(url) on builder"))
  else
    let subject := topic +:+ "-value" in
    match schema_cache p !! subject with
    | Some schema_id => send_with_schema_id topic key value schema_id partition fetched nanos millis now p
    | None =>
        match registered with
        | Ok schema_id =>
            send_with_schema_id topic key value schema_id partition fetched nanos millis now
              (set_schema_cache (<[subject := schema_id]> (schema_cache p)) p)
        | Err e => (p, Err e)
        | Panic => (p, Panic)
        end
    end.
End send.

(** [None]: still waiting. *)
Definition wait_offset (p : Producer) (r : SendResult) : option (SendResult * outcome ClientError Z) :=
  match sr_offset r, sr_receiver r with
  | Some offset, _ => Some (r, Ok offset)
  | None, None => Some (r, Err OffsetAlreadyConsumed)
  | None, Some id =>
      match channels p !! id with
      | Some (Told offset) => Some (mk_send_result (sr_topic r) (sr_partition r) (Some offset) (sr_timestamp r) None, Ok offset)
      | Some Waiting => None
      | _ => Some (mk_send_result (sr_topic r) (sr_partition r) None (sr_timestamp r) None, Err BatchFlushFailed)
      end
  end.

(** ** Pending records *)

(** The senders at the front of the queue are taken; [f] is what becomes of each channel. *)
Fixpoint resolve (f : nat -> channel) (count i : nat) (queue : list nat) (chans : list channel) : list nat * list channel :=
  match count, queue with
  | S count, id :: queue => resolve f count (S i) queue (<[id := f i]> chans)
  | _, _ => (queue, chans)
  end.

Definition resolve_pending (f : nat -> channel) (k : PartitionKey) (record_count : nat) (p : Producer) : Producer :=
  match queues p !! k with
  | Some queue =>
      let '(queue, chans) := resolve f record_count 0 queue (channels p) in set_pending (<[k := queue]> (queues p)) chans p
  | None => p
  end.

Definition notify_pending_offsets (k : PartitionKey) (first_offset : Z) (record_count : nat) (p : Producer) : Producer :=
  resolve_pending (fun i => Told (wrap 64 (first_offset + Z.of_nat i))) k record_count p.

(** The senders are dropped. *)
Definition fail_pending_offsets (k : PartitionKey) (record_count : nat) (p : Producer) : Producer :=
  resolve_pending (fun _ => Closed) k record_count p.

(** ** Batches *)

Section cluster.
Context `{HashOrder} `{SipHash} `{RpcTexts} {W E : Type} `{!Cluster W E}.

Definition find_agent_for_partition (topic : string) (partition_id : Z) (lease : outcome MetadataError (option PartitionLease))
    (p : Producer) : outcome ClientError AgentInfo :=
  let fallback :=
    match map snd (iter (agents p)) with
    | [] => Err (NoAgentsAvailable "default")
    | values =>
        let hash := sip_text (topic +:+ "-" +:+ pretty.pretty partition_id) in
        or_panic (values !! Z.to_nat (hash mod len values))
    end in
  match lease with
  | Ok (Some lease) => match agents p !! leader_agent_id lease with Some agent => Ok agent | None => fallback end
  | Panic => Panic
  | _ => fallback
  end.

Definition address_of (agent : AgentInfo) : string :=
  if starts_with "http://" (ai_address agent) || starts_with "https://" (ai_address agent) then ai_address agent
  else "http://" +:+ ai_address agent.

Definition message_of (r : BatchRecord) : bytes * bytes := (default [] (br_key r), br_value r).

Definition connection_failed (agent : AgentInfo) (reason : string) : ClientError :=
  AgentConnectionFailed (ai_agent_id agent) (ai_address agent) reason.

(** [map_err] of an answer of an agent. *)
Definition agent_result {A} (agent : AgentInfo) (heading : string) (r : outcome RpcStatus A) : outcome ClientError A :=
  match r with
  | Ok a => Ok a
  | Err status => Err (AgentError (ai_agent_id agent) (heading +:+ rpc_status_text status))
  | Panic => Panic
  end.

Definition send_batch_to_agent (k : PartitionKey) (records : list BatchRecord) (pid : option string) (epoch : option Z)
    (base_sequence : option Z) (transaction_id : option string) (env : batch_env E) (w : W) (p : Producer)
  : W * Producer * outcome ClientError ProduceBatchResponse :=
  match find_agent_for_partition k.1 k.2 (be_lease env) p with
  | Ok agent =>
      let address := address_of agent in
      let '(pool, connection) :=
        get_connection address (be_now env) (match be_connect env with Some e => Err e | None => Ok address end) (connection_pool p) in
      let p := set_connections pool p in
      match connection with
      | Ok peer =>
          let request := mk_batch_request k.1 k.2 (map message_of records) pid epoch base_sequence transaction_id 0 in
          let '(w, _, response) :=
            retry_with_jittered_backoff (fun i => produce_batch peer request (be_calls env i)) (retry_policy p) (be_random env) w in
          (w, p, agent_result agent "ProduceBatch request failed: " response)
      | Err reason => (w, p, Err (connection_failed agent reason))
      | Panic => (w, p, Panic)
      end
  | Err e => (w, p, Err e)
  | Panic => (w, p, Panic)
  end.

(** The sequence of a batch is taken before the batch is sent. *)
Definition next_sequence (pid : option string) (k : PartitionKey) (record_count : nat) (p : Producer) : Producer * option Z :=
  if idempotent p && bool_decide (is_Some pid) then
    let seq := default 0 (sequence_numbers p !! k) in
    (set_sequences (<[k := swrap 64 (seq + Z.of_nat record_count)]> (sequence_numbers p)) p, Some seq)
  else (p, None).

(** The identity under which a round of batches is sent, read at its beginning. *)
Record identity : Type := mk_identity { id_producer : option string; id_epoch : Z; id_transaction : option string }.
Definition current_identity (p : Producer) : identity :=
  mk_identity (producer_id p) (producer_epoch p) (current_transaction_id p).

Definition dispatch (who : identity) (batch : PartitionKey * list BatchRecord) (env : batch_env E) (w : W) (p : Producer)
  : W * Producer * outcome ClientError ProduceBatchResponse :=
  let '(p, base_sequence) := next_sequence (id_producer who) batch.1 (length batch.2) p in
  send_batch_to_agent batch.1 batch.2 (id_producer who) (if idempotent p then Some (id_epoch who) else None)
    base_sequence (id_transaction who) env w p.

(** One batch of [flush] and of the task in the background. *)
Definition deliver (who : identity) (batch : PartitionKey * list BatchRecord) (env : batch_env E) (w : W) (p : Producer)
  : W * Producer * outcome ClientError () :=
  match dispatch who batch env w p with
  | (w, p, Ok response) => (w, notify_pending_offsets batch.1 (first_offset response) (length batch.2) p, Ok ())
  | (w, p, Err e) => (w, fail_pending_offsets batch.1 (length batch.2) p, Err e)
  | (w, p, Panic) => (w, p, Panic)
  end.

(** The buffers that are due are drained; the clock is read for each. *)
Definition take_ready (now : PartitionKey -> Z) (p : Producer) : Producer * list (PartitionKey * list BatchRecord) :=
  let '(bm, ready) := ready_batches now (batch_manager p) in (set_batches bm p, ready).

(** The loop of [flush] leaves at the first error. *)
Fixpoint flush_loop (who : identity) (ready : list (PartitionKey * list BatchRecord)) (envs : nat -> batch_env E) (w : W) (p : Producer)
  : W * Producer * outcome ClientError () :=
  match ready with
  | [] => (w, p, Ok ())
  | batch :: ready =>
      match deliver who batch (envs (length ready)) w p with
      | (w, p, Ok _) => flush_loop who ready envs w p
      | failure => failure
      end
  end.

Definition flush (now : PartitionKey -> Z) (envs : nat -> batch_env E) (w : W) (p : Producer)
  : W * Producer * outcome ClientError () :=
  let '(p, ready) := take_ready now p in flush_loop (current_identity p) ready envs w p.

(** A tick of the task in the background logs errors. *)
Fixpoint tick_loop (who : identity) (ready : list (PartitionKey * list BatchRecord)) (envs : nat -> batch_env E) (w : W) (p : Producer)
  : W * Producer :=
  match ready with
  | [] => (w, p)
  | batch :: ready =>
      let '(w, p, _) := deliver who batch (envs (length ready)) w p in tick_loop who ready envs w p
  end.

Definition flush_tick (now : PartitionKey -> Z) (envs : nat -> batch_env E) (w : W) (p : Producer) : W * Producer :=
  let '(p, ready) := take_ready now p in tick_loop (current_identity p) ready envs w p.

Fixpoint close_loop (who : identity) (all : list (PartitionKey * list BatchRecord)) (envs : nat -> batch_env E) (w : W) (p : Producer)
  : W * Producer :=
  match all with
  | [] => (w, p)
  | batch :: all => let '(w, p, _) := dispatch who batch (envs (length all)) w p in close_loop who all envs w p
  end.

(** The senders that are left go with the producer. *)
Definition close_channels (p : Producer) : list channel :=
  map (fun c => match c with Waiting => Closed | c => c end) (channels p).

Definition close (now : PartitionKey -> Z) (envs : nat -> batch_env E) (w : W) (p : Producer)
  : W * Producer * outcome ClientError () :=
  let '(bm, all) := flush_all now (batch_manager p) in
  let '(w, p) := close_loop (current_identity p) all envs w (set_batches bm p) in
  (w, set_pending ∅ (close_channels p) (set_connections (close_all (connection_pool p)) p), Ok ()).

(** ** Transactions *)

(** An agent, any, and the error of a new connection to it. *)
Definition any_agent (connect : option string) (p : Producer) : outcome ClientError AgentInfo :=
  agent ← ok_or (NoAgentsAvailable (agent_group p)) (head (map snd (iter (agents p))));
  match connect with Some reason => Err (connection_failed agent reason) | None => Ok agent end.

Definition begin_transaction (connect : option string) (env : E) (w : W) (p : Producer) : W * Producer * outcome ClientError string :=
  match transactional_id p, producer_id p with
  | None, _ => (w, p, Err (ConfigError "Producer is not configured for transactions. Use .transactional_id() on builder"))
  | _, None => (w, p, Err (ConfigError "Producer not initialized. Idempotent mode must be enabled"))
  | Some _, Some pid =>
      match any_agent connect p with
      | Ok agent =>
          match call_begin (address_of agent) pid (producer_epoch p) 30000 env w with
          | (w, Ok txn_id) => (w, set_transaction (Some txn_id) p, Ok txn_id)
          | (w, r) => (w, p, agent_result agent "BeginTransaction failed: " r)
          end
      | Err e => (w, p, Err e)
      | Panic => (w, p, Panic)
      end
  end.

Definition commit_transaction (transaction_id : string) (connect : option string) (now : PartitionKey -> Z) (envs : nat -> batch_env E)
    (env : E) (w : W) (p : Producer) : W * Producer * outcome ClientError Z :=
  match producer_id p with
  | None => (w, p, Err (ConfigError "Producer not initialized"))
  | Some pid =>
      let epoch := producer_epoch p in
      match any_agent connect p with
      | Ok agent =>
          match flush now envs w p with
          | (w, p, Ok _) =>
              match call_commit (address_of agent) pid epoch transaction_id env w with
              | (w, Ok commit_timestamp) => (w, set_transaction None p, Ok commit_timestamp)
              | (w, r) => (w, p, agent_result agent "CommitTransaction failed: " r)
              end
          | (w, p, Err e) => (w, p, Err e)
          | (w, p, Panic) => (w, p, Panic)
          end
      | Err e => (w, p, Err e)
      | Panic => (w, p, Panic)
      end
  end.

Definition abort_transaction (transaction_id : string) (connect : option string) (env : E) (w : W) (p : Producer)
  : W * Producer * outcome ClientError () :=
  match producer_id p with
  | None => (w, p, Err (ConfigError "Producer not initialized"))
  | Some pid =>
      match any_agent connect p with
      | Ok agent =>
          match call_abort (address_of agent) pid (producer_epoch p) transaction_id env w with
          | (w, Ok _) => (w, set_transaction None p, Ok ())
          | (w, r) => (w, p, agent_result agent "AbortTransaction failed: " r)
          end
      | Err e => (w, p, Err e)
      | Panic => (w, p, Panic)
      end
  end.

(** ** Building *)

Definition agent_map (l : list AgentInfo) : gmap string AgentInfo := insert_all (map (fun a => (ai_agent_id a, a)) l) ∅.

(** A round of the task that refreshes the agents; errors are logged. *)
Definition refresh_agents (listed : outcome MetadataError (list AgentInfo)) (p : Producer) : Producer :=
  match listed with Ok l => set_agents (agent_map l) p | _ => p end.

(** What the builder holds; the fields that only go into the configuration are left out. *)
Record ProducerBuilder : Type := mk_builder {
  b_metadata_store : bool;
  b_agent_group : string;
  b_batch_size : nat;
  b_batch_timeout : Z;
  b_max_retries : nat;
  b_retry_backoff : Z;
  b_schema_registry : bool;
  b_idempotent : bool;
  b_transactional_id : option string;
  b_organization_id : option string
}.

Definition new_builder : ProducerBuilder :=
  mk_builder false "default" 100 (from_millis 100) 3 (from_millis 100) false false None None.

(** [ProducerBuilder::transactional_id]: transactional producers are idempotent. *)
Definition with_transactional_id (id : string) (b : ProducerBuilder) : ProducerBuilder :=
  mk_builder (b_metadata_store b) (b_agent_group b) (b_batch_size b) (b_batch_timeout b) (b_max_retries b) (b_retry_backoff b)
    (b_schema_registry b) true (Some id) (b_organization_id b).

Definition build (listed : outcome MetadataError (list AgentInfo)) (connect : option string) (env : E) (w : W) (b : ProducerBuilder)
  : W * outcome ClientError Producer :=
  if negb (b_metadata_store b) then (w, Err (ConfigError "metadata_store is required"))
  else
    match b_organization_id b with
    | None => (w, Err (ConfigError "organization_id is required"))
    | Some org =>
        match listed with
        | Ok l =>
            let made pid epoch :=
              mk_producer org (b_agent_group b) (agent_map l) ∅ (new_pool 10 (from_millis 60000))
                (new_manager (b_batch_size b) (1024 * 1024) (b_batch_timeout b))
                (mk_retry_policy (b_max_retries b) (b_retry_backoff b) (from_millis 30000) (f64_of 2)) ∅ [] (b_schema_registry b) ∅
                pid epoch ∅ (b_idempotent b) (b_transactional_id b) None in
            if b_idempotent b then
              match head (map snd (iter (agent_map l))) with
              | Some agent =>
                  match connect with
                  | Some reason => (w, Err (connection_failed agent reason))
                  | None =>
                      let '(w, r) := call_init (address_of agent) (b_transactional_id b) (b_organization_id b) env w in
                      (w, resp ← agent_result agent "InitProducer failed: " r; Ok (made (Some resp.1) resp.2))
                  end
              | None => (w, Ok (made None 0))
              end
            else (w, Ok (made None 0))
        | Err e => (w, Err (CMetadataError e))
        | Panic => (w, Panic)
        end
    end.
End cluster.

(** ** Facts *)

(** ** Pending records *)

Definition queue_of (p : Producer) (k : PartitionKey) : list nat := default [] (queues p !! k).

Lemma resolve_spec f count i queue chans :
  let '(queue', chans') := resolve f count i queue chans in
  queue' = drop count queue /\ length chans' = length chans
  /\ forall id c, chans' !! id = Some c ->
       (chans !! id = Some c /\ (c = Waiting -> (forall n, f n <> Waiting) -> id ∉ take count queue))
       \/ exists j, (j < count)%nat /\ queue !! j = Some id /\ c = f (i + j)%nat.
Proof.
  revert i queue chans. induction count as [|count IH]; intros i queue chans; cbn [resolve].
  { split; [done|]. split; [done|]. intros id c Hc. left. split; [done|]. intros _ _ Hin. by apply elem_of_nil in Hin. }
  destruct queue as [|id0 queue].
  { split; [done|]. split; [done|]. intros id c Hc. left. split; [done|]. intros _ _ Hin. by apply elem_of_nil in Hin. }
  specialize (IH (S i) queue (<[id0 := f i]> chans)). destruct (resolve _ _ _ _ _) as [queue' chans'].
  destruct IH as (-> & Hl & Hc). split; [done|]. rewrite length_insert in Hl. split; [done|]. intros id c Hid.
  destruct (Hc id c Hid) as [[Hold Hnew]|(j & Hj & Hq & ->)].
  - apply list_lookup_insert_Some in Hold as [(<- & <- & Hlt)|[Hne Hold]].
    + right. exists O. split; [lia|]. split; [done|]. by rewrite Nat.add_0_r.
    + left. split; [done|]. intros -> Hf. cbn. intros [->|Hin]%elem_of_cons; [done|]. by apply (Hnew eq_refl Hf).
  - right. exists (S j). split; [lia|]. split; [done|]. f_equal. lia.
Qed.

Lemma resolve_pending_spec f k count p :
  (forall n, f n <> Waiting) ->
  let p' := resolve_pending f k count p in
  batch_manager p' = batch_manager p /\ length (channels p') = length (channels p)
  /\ (forall k', queue_of p' k' = if decide (k' = k) then drop count (queue_of p k) else queue_of p k')
  /\ forall id c, channels p' !! id = Some c ->
       (channels p !! id = Some c /\ (c = Waiting -> id ∉ take count (queue_of p k)))
       \/ exists j, (j < count)%nat /\ queue_of p k !! j = Some id /\ c = f j.
Proof.
  intros Hf. unfold resolve_pending, queue_of. destruct (queues p !! k) as [queue|] eqn:Hq; cbn [default from_option id].
  - pose proof (resolve_spec f count 0 queue (channels p)) as Hr. destruct (resolve _ _ _ _ _) as [queue' chans'].
    destruct Hr as (-> & Hl & Hc). cbn. split; [done|]. split; [done|]. split.
    + intros k'. destruct (decide (k' = k)) as [-> |]; [by rewrite lookup_insert_eq|by rewrite lookup_insert_ne].
    + intros id c Hid. destruct (Hc id c Hid) as [[H1 H2]|H]; [left|by right]. split; [done|]. intros Hw. by apply H2.
  - split; [done|]. split; [done|]. split.
    + intros k'. destruct (decide (k' = k)) as [-> |]; [by rewrite Hq, drop_nil|done].
    + intros id c Hid. left. split; [done|]. intros _ Hin. rewrite take_nil in Hin. by apply elem_of_nil in Hin.
Qed.

(** ** The system *)

Section system.
Context `{HH : HashOrder} `{HS : SipHash} `{HT : RpcTexts} {W E : Type} `{HC : !Cluster W E}.

(** The application sends, one [send] after the other; the task in the background begins a
    round at a tick and then delivers its batches one by one; the agents are refreshed,
    transactions begun and aborted at any time, and committed, buffers flushed and the producer
    closed between two rounds of the task. *)
Inductive event : Type :=
| ESend (topic : string) (key : option bytes) (value : bytes) (partition : option Z)
    (fetched : outcome MetadataError (option Topic)) (nanos millis now : Z)
| ETick (now : PartitionKey -> Z)
| EDeliver (env : batch_env E)
| ERefresh (listed : outcome MetadataError (list AgentInfo))
| EBegin (connect : option string) (env : E)
| EAbort (transaction_id : string) (connect : option string) (env : E)
| EFlush (now : PartitionKey -> Z) (envs : nat -> batch_env E)
| ECommit (transaction_id : string) (connect : option string) (now : PartitionKey -> Z) (envs : nat -> batch_env E) (env : E)
| EClose (now : PartitionKey -> Z) (envs : nat -> batch_env E).

(** The producer, the servers, the round of the task and whether the task is alive; what
    was sent, by the number of the channel, and the batches that were dispatched, with the first
    offset of the answer; whether a flush has ended with an error, and whether the producer is closed. *)
Record sys : Type := mk_sys {
  prod : Producer;
  servers : W;
  who : identity;
  round : list (PartitionKey * list BatchRecord);
  alive : bool;
  sent : list (PartitionKey * BatchRecord);
  dispatched : list (PartitionKey * list BatchRecord * option Z);
  lapsed : bool;
  closed : bool
}.

Definition set_prod (p : Producer) (w : W) (x : sys) : sys :=
  mk_sys p w (who x) (round x) (alive x) (sent x) (dispatched x) (lapsed x) (closed x).

Definition answered (r : outcome ClientError ProduceBatchResponse) : option Z :=
  match r with Ok response => Some (first_offset response) | _ => None end.

(** The batches of a flush, and of closing, with their answers. *)
Fixpoint flush_answers (id : identity) (ready : list (PartitionKey * list BatchRecord)) (envs : nat -> batch_env E) (w : W) (p : Producer)
  : list (PartitionKey * list BatchRecord * option Z) :=
  match ready with
  | [] => []
  | batch :: ready =>
      (batch, answered (snd (dispatch id batch (envs (length ready)) w p)))
      :: match deliver id batch (envs (length ready)) w p with
         | (w, p, Ok _) => flush_answers id ready envs w p
         | _ => []
         end
  end.

Fixpoint close_answers (id : identity) (all : list (PartitionKey * list BatchRecord)) (envs : nat -> batch_env E) (w : W) (p : Producer)
  : list (PartitionKey * list BatchRecord * option Z) :=
  match all with
  | [] => []
  | batch :: all =>
      let '(w, p, r) := dispatch id batch (envs (length all)) w p in (batch, answered r) :: close_answers id all envs w p
  end.

Definition succeeded {A} (r : outcome ClientError A) : bool := match r with Ok _ => true | _ => false end.

(** A flush that is [flush], with its answers. *)
Definition flush_dispatched (now : PartitionKey -> Z) (envs : nat -> batch_env E) (w : W) (p : Producer) :=
  let '(p, ready) := take_ready now p in flush_answers (current_identity p) ready envs w p.

Definition step (e : event) (x : sys) : sys :=
  if closed x then x else
  match e with
  | ESend topic key value partition fetched nanos millis now =>
      let p := fst (send topic key value partition fetched nanos millis now (prod x)) in
      mk_sys p (servers x) (who x) (round x) (alive x)
        (match snd (prepare topic key value partition fetched nanos millis (prod x)) with
         | Ok (n, record) => sent x ++ [((topic, n), record)]
         | _ => sent x
         end) (dispatched x) (lapsed x) false
  | ETick now =>
      match alive x, round x with
      | true, [] =>
          let '(p, ready) := take_ready now (prod x) in
          mk_sys p (servers x) (current_identity p) ready true (sent x) (dispatched x) (lapsed x) false
      | _, _ => x
      end
  | EDeliver env =>
      match alive x, round x with
      | true, batch :: rest =>
          match deliver (who x) batch env (servers x) (prod x) with
          | (w, p, Panic) => mk_sys p w (who x) (round x) false (sent x) (dispatched x) (lapsed x) false
          | (w, p, _) =>
              mk_sys p w (who x) rest true (sent x)
                (dispatched x ++ [(batch, answered (snd (dispatch (who x) batch env (servers x) (prod x))))]) (lapsed x) false
          end
      | _, _ => x
      end
  | ERefresh listed => set_prod (refresh_agents listed (prod x)) (servers x) x
  | EBegin connect env =>
      let '(w, p, _) := begin_transaction connect env (servers x) (prod x) in set_prod p w x
  | EAbort id connect env =>
      let '(w, p, _) := abort_transaction id connect env (servers x) (prod x) in set_prod p w x
  | EFlush now envs =>
      match round x with
      | [] =>
          let '(w, p, r) := flush now envs (servers x) (prod x) in
          mk_sys p w (who x) [] (alive x) (sent x) (dispatched x ++ flush_dispatched now envs (servers x) (prod x))
            (lapsed x || negb (succeeded r)) false
      | _ => x
      end
  | ECommit id connect now envs env =>
      match round x with
      | [] =>
          let '(w, p, _) := commit_transaction id connect now envs env (servers x) (prod x) in
          match producer_id (prod x), any_agent connect (prod x) with
          | Some _, Ok _ =>
              mk_sys p w (who x) [] (alive x) (sent x) (dispatched x ++ flush_dispatched now envs (servers x) (prod x))
                (lapsed x || negb (succeeded (snd (flush now envs (servers x) (prod x))))) false
          | _, _ => set_prod p w x
          end
      | _ => x
      end
  | EClose now envs =>
      match round x with
      | [] =>
          let '(w, p, _) := close now envs (servers x) (prod x) in
          let '(bm, all) := flush_all now (batch_manager (prod x)) in
          mk_sys p w (who x) [] false (sent x)
            (dispatched x ++ close_answers (current_identity (prod x)) all envs (servers x) (set_batches bm (prod x))) (lapsed x) true
      | _ => x
      end
  end.

Definition run (es : list event) (x : sys) : sys := foldl (fun x e => step e x) x es.
Definition start (p : Producer) (w : W) : sys := mk_sys p w (current_identity p) [] true [] [] false false.

(** What was sent to a partition, and what was dispatched to it, in order. *)
Definition sent_to (k : PartitionKey) (x : sys) : list BatchRecord := map snd (filter (fun e => e.1 = k) (sent x)).
Definition dispatched_to (k : PartitionKey) (x : sys) : list BatchRecord := taken k (map fst (dispatched x)).

(** What waits in the producer for a partition. *)
Definition unsent (k : PartitionKey) (x : sys) : list BatchRecord := taken k (round x) ++ buffered (batch_manager (prod x)) k.

Record inv (x : sys) : Prop := {
  iv_length : length (sent x) = length (channels (prod x));
  iv_queue k : Forall2 (fun id r => sent x !! id = Some (k, r)) (queue_of (prod x) k) (unsent k x);
  iv_waiting id : channels (prod x) !! id = Some Waiting ->
    exists k r, sent x !! id = Some (k, r) /\ id ∈ queue_of (prod x) k;
  iv_told id o : channels (prod x) !! id = Some (Told o) ->
    exists k r records first i, sent x !! id = Some (k, r) /\ (k, records, Some first) ∈ dispatched x
      /\ records !! i = Some r /\ o = wrap 64 (first + Z.of_nat i);
  iv_order k : dispatched_to k x ++ unsent k x = sent_to k x
}.

(** Steps that leave all of this alone. *)
Lemma told_same x x' :
  inv x -> queues (prod x') = queues (prod x) -> channels (prod x') = channels (prod x) ->
  batch_manager (prod x') = batch_manager (prod x) -> round x' = round x -> sent x' = sent x ->
  dispatched x' = dispatched x -> inv x'.
Proof.
  intros [H1 H2 H3 H4 H5] Hq Hc Hb Hr Hs Hd.
  split; unfold queue_of, unsent, dispatched_to, sent_to in *; rewrite ?Hq, ?Hc, ?Hb, ?Hr, ?Hs, ?Hd; auto.
Qed.

Lemma prepare_same topic key value partition fetched nanos millis p :
  let p' := fst (prepare topic key value partition fetched nanos millis p) in
  queues p' = queues p /\ channels p' = channels p /\ batch_manager p' = batch_manager p.
Proof. unfold prepare, get_or_fetch_topic. destruct (topic_cache p !! topic); [done|]. by destruct fetched as [[t|]|e|]. Qed.

Lemma dispatch_same id batch env w p :
  let '(w', p', r) := dispatch id batch env w p in
  queues p' = queues p /\ channels p' = channels p /\ batch_manager p' = batch_manager p.
Proof.
  unfold dispatch, next_sequence, send_batch_to_agent.
  destruct (idempotent p && _).
  all: match goal with |- context [find_agent_for_partition ?a ?b ?c ?d] => destruct (find_agent_for_partition a b c d) as [agent|e|] end; [|done..].
  all: match goal with |- context [get_connection ?a ?b ?c ?d] => destruct (get_connection a b c d) as [pool [peer|e|]] end; [|done..].
  all: by destruct (retry_with_jittered_backoff _ _ _ _) as [[w' pauses] r].
Qed.

Lemma transaction_same connect env w p :
  let '(w', p', _) := begin_transaction connect env w p in
  queues p' = queues p /\ channels p' = channels p /\ batch_manager p' = batch_manager p.
Proof.
  unfold begin_transaction. destruct (transactional_id p), (producer_id p); try done.
  destruct (any_agent connect p) as [agent|e|]; [|done..]. by destruct (call_begin _ _ _ _ _ _) as [w' [txn|e|]].
Qed.

Lemma abort_same id connect env w p :
  let '(w', p', _) := abort_transaction id connect env w p in
  queues p' = queues p /\ channels p' = channels p /\ batch_manager p' = batch_manager p.
Proof.
  unfold abort_transaction. destruct (producer_id p); [|done].
  destruct (any_agent connect p) as [agent|e|]; [|done..]. by destruct (call_abort _ _ _ _ _ _) as [w' [[]|e|]].
Qed.

(** ** Steps *)

Lemma sent_snoc_lookup (x : sys) e id k r :
  sent x !! id = Some (k, r) -> (sent x ++ [e]) !! id = Some (k, r).
Proof. intros Hs. rewrite lookup_app_l; [done|]. by apply lookup_lt_Some in Hs. Qed.

Lemma told_send topic key value partition fetched nanos millis now x :
  inv x -> inv (step (ESend topic key value partition fetched nanos millis now) x).
Proof.
  intros HI. unfold step. destruct (closed x); [done|]. unfold send.
  pose proof (prepare_same topic key value partition fetched nanos millis (prod x)) as Hs.
  destruct (prepare _ _ _ _ _ _ _ _) as [p [[n record]|e|]]; cbn [fst snd] in *; destruct Hs as (Hq & Hc & Hb);
    [|by apply (told_same x)..].
  pose proof HI as [H1 H2 H3 H4 H5]. set (k0 := (topic, n)). set (x' := mk_sys _ _ _ _ _ _ _ _ _).
  assert (Hqk : forall k, queue_of (prod x') k = queue_of (prod x) k ++ (if decide (k = k0) then [length (channels (prod x))] else [])).
  { intros k. unfold x', queue_of. cbn. rewrite Hq, Hc. fold k0. destruct (decide (k = k0)) as [-> |Hne].
    - by rewrite lookup_insert_eq. - rewrite lookup_insert_ne by done. by rewrite app_nil_r. }
  assert (Hun : forall k, unsent k x' = unsent k x ++ (if decide (k = k0) then [record] else [])).
  { intros k. unfold unsent, x'. cbn. rewrite buffered_append, Hb. by rewrite app_assoc. }
  assert (Hch : channels (prod x') = channels (prod x) ++ [Waiting]) by (unfold x'; cbn; by rewrite Hc).
  split.
  - change (sent x') with (sent x ++ [(k0, record)]). rewrite Hch, !length_app. cbn. lia.
  - intros k. rewrite Hqk, Hun. apply Forall2_app.
    + eapply Forall2_impl; [apply H2|]. intros id r Hid. by apply sent_snoc_lookup.
    + destruct (decide (k = k0)) as [-> |]; [|constructor]. constructor; [|constructor].
      unfold x'. cbn. rewrite lookup_app_r by lia. by rewrite H1, Nat.sub_diag.
  - intros id. rewrite Hch. intros [Hid|[Hlen Hid]]%lookup_app_Some.
    + destruct (H3 id Hid) as (k & r & Hk & Hin). exists k, r. split; [by apply sent_snoc_lookup|].
      rewrite Hqk. apply elem_of_app. by left.
    + exists k0, record. assert (Hid' : id = length (channels (prod x))).
      { apply lookup_lt_Some in Hid. cbn in Hid. lia. }
      rewrite Hid'. split; [unfold x'; cbn; rewrite lookup_app_r by lia; by rewrite H1, Nat.sub_diag|].
      rewrite Hqk, decide_True by done. apply elem_of_app. right. by left.
  - intros id o. rewrite Hch. intros [Hid|[Hlen Hid]]%lookup_app_Some.
    + destruct (H4 id o Hid) as (k & r & rs & first & i & Hk & Hrest). exists k, r, rs, first, i.
      split; [by apply sent_snoc_lookup|done].
    + by destruct (id - _)%nat as [|[]].
  - intros k. rewrite Hun, app_assoc. change (dispatched_to k x') with (dispatched_to k x). rewrite H5.
    unfold sent_to, x'. cbn. rewrite filter_app, map_app, filter_cons, filter_nil. cbn [fst].
    destruct (decide (k = k0)) as [-> |]; [by rewrite decide_True|by rewrite decide_False by congruence].
Qed.

(** The buffers that are due move to the round. *)
Lemma inv_take now x id al la cl :
  inv x -> round x = [] ->
  let '(p, ready) := take_ready now (prod x) in inv (mk_sys p (servers x) id ready al (sent x) (dispatched x) la cl).
Proof.
  intros HI Hround.
  unfold take_ready. pose proof (drain_where_spec (fun k b => should_flush (now k) b) now (batch_manager (prod x))
    (fun k b => should_flush_nonempty (now k) b)) as Hd.
  unfold ready_batches. destruct (drain_where _ _ _) as [bm ready]. destruct Hd as (_ & _ & Hd).
  set (x' := mk_sys _ _ _ _ _ _ _ _ _).
  assert (Hun : forall k, unsent k x' = unsent k x).
  { intros k. change (unsent k x') with (taken k ready ++ buffered bm k). unfold unsent. rewrite Hround. by apply Hd. }
  destruct HI as [H1 H2 H3 H4 H5].
  split; [exact H1|intros k; rewrite Hun; apply H2|exact H3|exact H4|intros k; rewrite Hun; apply H5].
Qed.

Lemma dispatched_snoc k x batch a l :
  dispatched x = l ++ [(batch, a)] -> dispatched_to k x = taken k (map fst l) ++ (if decide (batch.1 = k) then batch.2 else []).
Proof.
  unfold dispatched_to. intros ->. rewrite map_app. unfold taken. rewrite filter_app, map_app, concat_app. f_equal. cbn [map fst].
  rewrite filter_cons, filter_nil. case_decide; cbn; by rewrite ?app_nil_r.
Qed.

(** The end of a batch: the receivers of its records are taken off the queue. *)
Lemma told_resolve f x p batch rest a w who' al la cl :
  inv x -> round x = batch :: rest -> (forall n, f n <> Waiting) ->
  queues p = queues (prod x) -> channels p = channels (prod x) -> batch_manager p = batch_manager (prod x) ->
  (forall j o, f j = Told o -> exists first, a = Some first /\ o = wrap 64 (first + Z.of_nat j)) ->
  inv (mk_sys (resolve_pending f batch.1 (length batch.2) p) w who' rest al (sent x) (dispatched x ++ [(batch, a)]) la cl).
Proof.
  intros [H1 H2 H3 H4 H5] Hround Hf Hq Hc Hb Hoff.
  assert (Hqo : forall k, queue_of p k = queue_of (prod x) k) by (intros k; unfold queue_of; by rewrite Hq).
  destruct (resolve_pending_spec f batch.1 (length batch.2) p Hf) as (Hbm & Hlen & Hqk & Hch).
  set (p' := resolve_pending _ _ _ _) in *. set (x' := mk_sys _ _ _ _ _ _ _ _ _).
  assert (Hun : forall k, unsent k x = (if decide (batch.1 = k) then batch.2 else []) ++ unsent k x').
  { intros k. unfold unsent, x'. cbn. rewrite Hround, taken_cons, Hbm, Hb. by rewrite app_assoc. }
  assert (Hdone : forall j id, (j < length batch.2)%nat -> queue_of (prod x) batch.1 !! j = Some id ->
            exists r, batch.2 !! j = Some r /\ sent x !! id = Some (batch.1, r)).
  { intros j id Hj Hid. destruct (Forall2_lookup_l _ _ _ _ _ (H2 batch.1) Hid) as (r & Hr & Hs).
    rewrite Hun, decide_True, lookup_app_l in Hr by done. by exists r. }
  split; change (prod x') with p'; change (sent x') with (sent x).
  - by rewrite Hlen, Hc.
  - intros k. rewrite Hqk, !Hqo. pose proof (H2 k) as Hk. rewrite Hun in Hk.
    destruct (decide (k = batch.1)) as [-> |Hne].
    + rewrite decide_True in Hk by done. apply Forall2_app_inv_r in Hk as (l1 & l2 & Hl1 & Hl2 & He).
      rewrite He. apply Forall2_length in Hl1. by rewrite drop_app_length' by done.
    + rewrite decide_False in Hk by congruence. done.
  - intros id Hid. destruct (Hch id Waiting Hid) as [[Hold Hnew]|(j & _ & _ & Hj)]; [|by destruct (Hf j)].
    rewrite Hc in Hold. destruct (H3 id Hold) as (k & r & Hs & Hin). exists k, r. split; [done|].
    rewrite Hqk, !Hqo. destruct (decide (k = batch.1)) as [-> |]; [|done].
    specialize (Hnew eq_refl). rewrite Hqo in Hnew. rewrite <- (take_drop (length batch.2) (queue_of (prod x) batch.1)) in Hin.
    by apply elem_of_app in Hin as [|].
  - intros id o Hid. destruct (Hch id (Told o) Hid) as [[Hold _]|(j & Hj & Hqj & Hfj)].
    + rewrite Hc in Hold. destruct (H4 id o Hold) as (k & r & rs & first & i & Hs & Hin & Hrest).
      exists k, r, rs, first, i. split; [done|]. split; [|done]. apply elem_of_app. by left.
    + rewrite Hqo in Hqj. destruct (Hdone j id Hj Hqj) as (r & Hr & Hs). destruct (Hoff j o (eq_sym Hfj)) as (first & -> & ->).
      exists batch.1, r, batch.2, first, j. split; [done|]. split; [|done]. apply elem_of_app. right. destruct batch. by left.
  - intros k. change (sent_to k x') with (sent_to k x). rewrite <- (H5 k), Hun, (dispatched_snoc k x' batch a (dispatched x) eq_refl).
    unfold dispatched_to. by rewrite !app_assoc.
Qed.

(** A batch that was delivered, or failed. *)
Lemma inv_delivered id batch rest env x w p r id' al la cl :
  inv x -> round x = batch :: rest -> deliver id batch env (servers x) (prod x) = (w, p, r) -> r <> Panic ->
  inv (mk_sys p w id' rest al (sent x)
         (dispatched x ++ [(batch, answered (snd (dispatch id batch env (servers x) (prod x))))]) la cl).
Proof.
  intros HI Hround. unfold deliver. pose proof (dispatch_same id batch env (servers x) (prod x)) as Hs.
  destruct (dispatch _ _ _ _ _) as [[w1 p1] [response|e|]]; destruct Hs as (Hq & Hc & Hb); cbn [snd answered]; intros [= <- <- <-] Hr; [| |done].
  - apply told_resolve; try done. intros j o [= <-]. by eexists.
  - by apply told_resolve.
Qed.

Lemma inv_deliver env x : inv x -> inv (step (EDeliver env) x).
Proof.
  intros HI. unfold step. destruct (closed x); [done|]. destruct (alive x); [|done]. destruct (round x) as [|batch rest] eqn:Hround; [done|].
  pose proof (inv_delivered (who x) batch rest env x) as Hd. destruct (deliver _ _ _ _ _) as [[w p] r] eqn:Hdel.
  destruct r as [[]|e|]; [by eapply Hd|by eapply Hd|].
  unfold deliver in Hdel. pose proof (dispatch_same (who x) batch env (servers x) (prod x)) as Hs.
  destruct (dispatch _ _ _ _ _) as [[w1 p1] [response|e|]]; destruct Hs as (Hq & Hc & Hb); [done|done|]. injection Hdel as -> ->.
  by apply (told_same x).
Qed.

(** A flush without an error delivers all that was due. *)
Lemma inv_flush_loop id ready envs x w p id' al la cl :
  inv x -> round x = ready -> flush_loop id ready envs (servers x) (prod x) = (w, p, Ok ()) ->
  inv (mk_sys p w id' [] al (sent x) (dispatched x ++ flush_answers id ready envs (servers x) (prod x)) la cl).
Proof.
  revert x. induction ready as [|batch ready IH]; intros x HI Hround; cbn [flush_loop flush_answers].
  - intros [= <- <-]. rewrite app_nil_r. by apply (told_same x).
  - pose proof (inv_delivered id batch ready (envs (length ready)) x) as Hd. destruct (deliver _ _ _ _ _) as [[w1 p1] [[]|e|]] eqn:Hdel; [|done..].
    intros Hl. specialize (Hd w1 p1 (Ok ()) (who x) (alive x) la cl HI Hround eq_refl ltac:(done)).
    apply (IH _ Hd eq_refl) in Hl. cbn [sent dispatched servers prod] in Hl. by rewrite <- app_assoc in Hl.
Qed.

Lemma inv_flush now envs x w p r id' al la cl :
  inv x -> round x = [] -> flush now envs (servers x) (prod x) = (w, p, r) -> succeeded r = true ->
  inv (mk_sys p w id' [] al (sent x) (dispatched x ++ flush_dispatched now envs (servers x) (prod x)) la cl).
Proof.
  intros HI Hround. unfold flush, flush_dispatched. pose proof (inv_take now x (who x) al la cl HI Hround) as Ht.
  destruct (take_ready now (prod x)) as [p1 ready]. intros Hl Hr. destruct r as [[]|e|]; [|done..].
  by apply (inv_flush_loop _ _ _ _ _ _ id' al la cl Ht eq_refl) in Hl.
Qed.

Lemma close_loop_same id all envs w p :
  let '(w', p') := close_loop id all envs w p in queues p' = queues p /\ channels p' = channels p /\ batch_manager p' = batch_manager p.
Proof.
  revert w p. induction all as [|batch all IH]; intros w p; cbn [close_loop]; [done|].
  pose proof (dispatch_same id batch (envs (length all)) w p) as Hs. destruct (dispatch _ _ _ _ _) as [[w1 p1] r].
  specialize (IH w1 p1). destruct (close_loop _ _ _ w1 p1) as [w' p']. destruct Hs as (H1 & H2 & H3), IH as (H4 & H5 & H6). split_and!; congruence.
Qed.

Lemma close_answers_batches id all envs w p : map fst (close_answers id all envs w p) = all.
Proof.
  revert w p. induction all as [|batch all IH]; intros w p; cbn [close_answers]; [done|].
  destruct (dispatch _ _ _ _ _) as [[w1 p1] r]. cbn. by rewrite IH.
Qed.

Lemma taken_app k a b : taken k (a ++ b) = taken k a ++ taken k b.
Proof. unfold taken. by rewrite filter_app, map_app, concat_app. Qed.

Lemma inv_close now envs x : inv x -> round x = [] -> inv (step (EClose now envs) x).
Proof.
  intros HI Hround. unfold step. destruct (closed x); [done|]. rewrite Hround. unfold close.
  pose proof (flush_all_spec now (batch_manager (prod x))) as Hall. destruct (flush_all now _) as [bm all]. destruct Hall as (_ & _ & Hall).
  pose proof (close_loop_same (current_identity (prod x)) all envs (servers x) (set_batches bm (prod x))) as Hl.
  destruct (close_loop _ _ _ _ _) as [w p]. destruct Hl as (Hq & Hc & Hb). cbn [set_batches queues channels batch_manager] in *.
  set (answers := close_answers _ _ _ _ _). assert (Ha : map fst answers = all) by apply close_answers_batches. clearbody answers.
  destruct HI as [H1 H2 H3 H4 H5]. unfold close_channels. rewrite Hc.
  assert (Hch : forall id c, map (fun c => match c with Waiting => Closed | c => c end) (channels (prod x)) !! id = Some c ->
            c <> Waiting /\ forall o, c = Told o -> channels (prod x) !! id = Some (Told o)).
  { intros id c. change (map ?f ?l) with (f <$> l). rewrite list_lookup_fmap. destruct (channels (prod x) !! id) as [[]|]; cbn; try done; intros [= <-]; split; (done || congruence). }
  assert (Hun : forall k, buffered (batch_manager (set_connections (close_all (connection_pool p)) p)) k = []) by (intros k; cbn; rewrite Hb; apply Hall).
  split; cbn [sent prod channels set_pending set_connections dispatched].
  - by rewrite length_map.
  - intros k. unfold queue_of, unsent. cbn [queues set_pending round]. rewrite lookup_empty, Hun. constructor.
  - intros id Hid. by destruct (Hch id Waiting Hid).
  - intros id o Hid. destruct (Hch id _ Hid) as [_ Ht]. destruct (H4 id o (Ht o eq_refl)) as (k & r & rs & first & i & Hs & Hin & Hrest).
    exists k, r, rs, first, i. split; [done|]. split; [|done]. apply elem_of_app. by left.
  - intros k. unfold sent_to, dispatched_to, unsent in *. cbn [sent dispatched round prod set_pending]. specialize (H5 k).
    rewrite Hround in H5. cbn [taken filter] in H5. rewrite map_app, taken_app, Ha, (proj1 (Hall k)).
    change (buffered (batch_manager (set_pending ∅ ?c ?q)) k) with (buffered (batch_manager q) k). rewrite Hun, app_nil_r. by rewrite <- H5, app_nil_l.
Qed.

(** As long as no flush failed. *)
Lemma told_step e x : (lapsed x = false -> inv x) -> lapsed (step e x) = false -> inv (step e x).
Proof.
  intros HI Hlapsed. destruct (closed x) eqn:Hcl.
  { unfold step in *. rewrite Hcl in *. by apply HI. }
  assert (Hx : lapsed x = false).
  { revert Hlapsed. clear HI. unfold step. rewrite Hcl. destruct e; try done.
    - destruct (alive x); [|done]. destruct (round x); [|done]. by destruct (take_ready _ _).
    - destruct (alive x); [|done]. destruct (round x); [done|]. by destruct (deliver _ _ _ _ _) as [[? ?] [[]|?|]].
    - by destruct (begin_transaction _ _ _ _) as [[? ?] ?].
    - by destruct (abort_transaction _ _ _ _ _) as [[? ?] ?].
    - destruct (round x); [|done]. destruct (flush _ _ _ _) as [[? ?] ?]. cbn. by intros [? _]%orb_false_elim.
    - destruct (round x); [|done]. destruct (commit_transaction _ _ _ _ _ _ _) as [[? ?] ?].
      destruct (producer_id (prod x)), (any_agent connect (prod x)); try done. cbn. by intros [? _]%orb_false_elim.
    - destruct (round x); [|done]. destruct (close _ _ _ _) as [[? ?] ?]. by destruct (flush_all _ _). }
  specialize (HI Hx). destruct e as [topic key value partition fetched nanos millis now|now|env|listed|connect env|id connect env|now envs|id connect now envs env|now envs].
  - by apply told_send.
  - unfold step. rewrite Hcl. destruct (alive x); [|done]. destruct (round x) eqn:Hround; [|done].
    pose proof (inv_take now x (current_identity (fst (take_ready now (prod x)))) true (lapsed x) false HI Hround) as Ht.
    by destruct (take_ready now (prod x)) as [p ready].
  - by apply inv_deliver.
  - unfold step. rewrite Hcl. apply (told_same x); try done; cbn; unfold refresh_agents; by destruct listed.
  - unfold step. rewrite Hcl. pose proof (transaction_same connect env (servers x) (prod x)) as Hs.
    destruct (begin_transaction _ _ _ _) as [[w p] r]. destruct Hs as (Hq & Hc & Hb). by apply (told_same x).
  - unfold step. rewrite Hcl. pose proof (abort_same id connect env (servers x) (prod x)) as Hs.
    destruct (abort_transaction _ _ _ _ _) as [[w p] r]. destruct Hs as (Hq & Hc & Hb). by apply (told_same x).
  - revert Hlapsed. unfold step. rewrite Hcl. destruct (round x) eqn:Hround; [|done].
    pose proof (inv_flush now envs x) as Hf. destruct (flush now envs _ _) as [[w p] r]. cbn [lapsed].
    intros [_ Hr]%orb_false_elim. apply (Hf w p r); try done. by apply negb_false_iff.
  - revert Hlapsed. unfold step. rewrite Hcl. destruct (round x) eqn:Hround; [|done]. unfold commit_transaction.
    destruct (producer_id (prod x)) as [pid|]; [|intros _; by apply (told_same x)].
    destruct (any_agent connect (prod x)) as [agent|e|]; [|intros _; by apply (told_same x)..].
    pose proof (inv_flush now envs x) as Hf. destruct (flush now envs _ _) as [[w p] r]. cbn [snd].
    destruct r as [[]|e|]; [|cbn [lapsed succeeded negb]; by rewrite orb_true_r..].
    intros _. specialize (Hf w p (Ok ())). specialize (Hf (who x) (alive x) (lapsed x) false HI Hround eq_refl eq_refl).
    destruct (call_commit _ _ _ _ _ _) as [w1 [ts|status|]]; by apply (told_same _ _ Hf).
  - destruct (round x) eqn:Hround; [by apply inv_close|]. unfold step. rewrite Hcl, Hround. done.
Qed.

Lemma told_run es x : (lapsed x = false -> inv x) -> lapsed (run es x) = false -> inv (run es x).
Proof.
  revert x. induction es as [|e es IH]; intros x HI; [done|]. cbn. apply IH. by apply told_step.
Qed.

Lemma told_start p w : queues p = ∅ -> channels p = [] -> buffers (batch_manager p) = ∅ -> inv (start p w).
Proof.
  intros Hq Hc Hb. assert (Hqo : forall k, queue_of p k = []) by (intros k; unfold queue_of; by rewrite Hq, lookup_empty).
  assert (Hun : forall k, unsent k (start p w) = []) by (intros k; unfold unsent, buffered; cbn; by rewrite Hb, lookup_empty).
  split; cbn [prod start].
  - by rewrite Hc.
  - intros k. rewrite Hqo, Hun. constructor.
  - intros id. by rewrite Hc.
  - intros id o. by rewrite Hc.
  - intros k. by rewrite Hun.
Qed.

Lemma build_empty listed connect env w b w' p :
  build listed connect env w b = (w', Ok p) ->
  queues p = ∅ /\ channels p = [] /\ buffers (batch_manager p) = ∅ /\ idempotent p = b_idempotent b.
Proof.
  unfold build. destruct (negb _); [done|]. destruct (b_organization_id b); [|done]. destruct listed as [l|e|]; [|done..].
  destruct (b_idempotent b) eqn:Hi; [|by intros [= _ <-]].
  destruct (head _) as [agent|]; [|by intros [= _ <-]]. destruct connect; [done|].
  destruct (call_init _ _ _ _ _) as [w1 [resp|status|]]; cbn; [|done..]. by intros [= _ <-].
Qed.

(** ** Where the promise fails *)

Lemma deliver_pending id batch env w p w' p' r :
  deliver id batch env w p = (w', p', r) ->
  batch_manager p' = batch_manager p /\ forall k, k <> batch.1 -> queue_of p' k = queue_of p k.
Proof.
  unfold deliver. pose proof (dispatch_same id batch env w p) as Hs.
  destruct (dispatch _ _ _ _ _) as [[w1 p1] [response|e|]]; destruct Hs as (Hq & _ & Hb); intros [= _ <- _].
  - destruct (resolve_pending_spec (fun i => Told (wrap 64 (first_offset response + Z.of_nat i))) batch.1 (length batch.2) p1)
      as (Hb' & _ & Hq' & _); [done|]. split; [by rewrite <- Hb|]. intros k Hk.
    unfold notify_pending_offsets. rewrite Hq', decide_False by done. unfold queue_of. by rewrite Hq.
  - destruct (resolve_pending_spec (fun _ => Closed) batch.1 (length batch.2) p1) as (Hb' & _ & Hq' & _); [done|].
    split; [by rewrite <- Hb|]. intros k Hk. unfold fail_pending_offsets. rewrite Hq', decide_False by done.
    unfold queue_of. by rewrite Hq.
  - split; [done|]. intros k _. unfold queue_of. by rewrite Hq.
Qed.

(** C29: an error in [flush] loses the other batches.  When the first batch of a [flush] fails,
    [flush] returns the error at once: the records of the other partitions that were due are in no
    buffer any more and no server was called for them, while their receivers stay at the front
    of the queues, where the answers to later records go. *)
Theorem flush_error_drops now envs w p p1 batch ready w' p' e :
  take_ready now p = (p1, batch :: ready) ->
  deliver (current_identity p1) batch (envs (length ready)) w p1 = (w', p', Err e) ->
  flush now envs w p = (w', p', Err e)
  /\ forall k rs, (k, rs) ∈ ready ->
       rs = buffered (batch_manager p) k /\ rs <> [] /\ buffered (batch_manager p') k = [] /\ queue_of p' k = queue_of p k.
Proof.
  intros Ht Hd. unfold flush. rewrite Ht. cbn [flush_loop]. rewrite Hd. split; [done|]. intros k rs Hin.
  unfold take_ready, ready_batches in Ht.
  pose proof (drain_where_spec (fun k b => should_flush (now k) b) now (batch_manager p)
    (fun k b => should_flush_nonempty (now k) b)) as Hs.
  destruct (drain_where _ _ _) as [bm l] eqn:Hdr. injection Ht as <- ->. destruct Hs as (Hnd & Hne & Hk).
  rewrite Forall_forall in Hne. specialize (Hk k). assert (Hrs : rs <> []) by (apply (Hne (k, rs)); by right).
  rewrite (taken_in k rs) in Hk by (done || by right). destruct Hk as [Happ [[_ Hnil]|[Hnil _]]]; [|done].
  destruct (deliver_pending _ _ _ _ _ _ _ _ Hd) as [Hb Hq]. rewrite Hb. cbn [set_batches batch_manager].
  rewrite Hnil, app_nil_r in Happ. split; [done|]. split; [done|]. split; [done|]. rewrite Hq; [done|].
  intros ->. cbn in Hnd. apply NoDup_cons in Hnd as [Hnew _]. apply Hnew. by apply (list_elem_of_fmap_2 fst) in Hin.
Qed.

(** Closing fails the receivers of records that are stored.  [close] sends what is buffered, always
    returns [Ok], and tells nobody: a receiver that waited gets the error of a failed batch,
    whatever the servers answered. *)
Theorem close_fails_waiters now envs w p :
  let '(w', p', r) := close now envs w p in
  r = Ok () /\ forall id, channels p !! id = Some Waiting ->
    channels p' !! id = Some Closed
    /\ forall topic partition timestamp,
         wait_offset p' (mk_send_result topic partition None timestamp (Some id))
         = Some (mk_send_result topic partition None timestamp None, Err BatchFlushFailed).
Proof.
  unfold close. destruct (flush_all _ _) as [bm all].
  assert (Hl : forall all id w p w' p', close_loop id all envs w p = (w', p') -> channels p' = channels p).
  { clear. intros all id. induction all as [|batch all IH]; intros w p w' p'; cbn; [by intros [= _ <-]|].
    pose proof (dispatch_same id batch (envs (length all)) w p) as Hs. destruct (dispatch _ _ _ _ _) as [[w1 p1] r].
    destruct Hs as (_ & Hc & _). intros Hr. rewrite <- Hc. by apply IH in Hr. }
  destruct (close_loop _ _ _ _ _) as [w' p'] eqn:Hc. apply Hl in Hc. cbn in Hc. split; [done|]. intros id Hid.
  assert (Hcl : close_channels p' !! id = Some Closed).
  { unfold close_channels. rewrite Hc. change (map ?f ?l) with (f <$> l). rewrite list_lookup_fmap, Hid. done. }
  split; [done|]. intros topic partition timestamp. unfold wait_offset. cbn. by rewrite Hcl.
Qed.

(** A commit does not wait for its records.  Records that are buffered and not yet due are not
    sent by [commit_transaction]: the transaction is committed without them, and they stay
    in their buffers, to be sent later outside of any transaction. *)
Theorem commit_before_records id connect now envs env w p pid agent w' commit_timestamp :
  (forall k b, buffers (batch_manager p) !! k = Some b -> should_flush (now k) b = false) ->
  producer_id p = Some pid -> any_agent connect p = Ok agent ->
  call_commit (address_of agent) pid (producer_epoch p) id env w = (w', Ok commit_timestamp) ->
  let '(w1, p1, r) := commit_transaction id connect now envs env w p in
  w1 = w' /\ r = Ok commit_timestamp /\ id_transaction (current_identity p1) = None
  /\ forall k, buffered (batch_manager p1) k = buffered (batch_manager p) k.
Proof.
  intros Hdue Hpid Hagent Hcall. unfold commit_transaction. rewrite Hpid, Hagent. unfold flush, take_ready, ready_batches, drain_where.
  assert (Hnone : List.filter (fun e => should_flush (now e.1) e.2) (iter (buffers (batch_manager p))) = []).
  { destruct (List.filter _ _) as [|[k b] l] eqn:Hf; [done|]. exfalso.
    assert (Hin : In (k, b) (List.filter (fun e => should_flush (now e.1) e.2) (iter (buffers (batch_manager p))))) by (rewrite Hf; by left).
    apply filter_In in Hin as [Hin Hs]. cbn in Hs. rewrite (Hdue k b) in Hs; [done|]. by apply elem_of_iter, list_elem_of_In. }
  rewrite Hnone. cbn [map flush_loop]. rewrite Hcall. split; [done|]. split; [done|]. split; [done|].
  intros k. unfold buffered. cbn. rewrite map_lookup_imap. destruct (buffers (batch_manager p) !! k) as [b|] eqn:Hb; [|done].
  cbn. by rewrite (Hdue k b).
Qed.

(** A lost batch stops an idempotent producer.  The sequence of a batch is taken before the batch
    is sent; when the batch fails without reaching the servers, the sequence of every
    later batch of the partition is past the one that the servers expect, and they refuse it as a gap. *)
Theorem lost_batch_blocks `{SqlText} id pid batch env w p w' p' e (d : ProducerStore.db) :
  idempotent p = true -> id_producer id = Some pid -> batch.2 <> [] -> forallb unquoted [pid; batch.1.1] = true ->
  let seq := default 0 (sequence_numbers p !! batch.1) in
  0 <= seq -> seq + len batch.2 < 2 ^ 63 ->
  default (-1) (ProducerStore.producer_sequences d !! (pid, batch.1.1, batch.1.2)) = seq - 1 ->
  deliver id batch env w p = (w', p', Err e) ->
  snd (next_sequence (Some pid) batch.1 1 p') = Some (seq + len batch.2)
  /\ forall base_sequence count, seq + len batch.2 <= base_sequence ->
       check_and_update_sequence pid batch.1.1 batch.1.2 base_sequence count d = (d, Err (sequence_gap seq base_sequence)).
Proof.
  intros Hi Hpid Hne Hq seq H0 Hbound Hlast Hd.
  assert (Hp : idempotent p' = true /\ sequence_numbers p' !! batch.1 = Some (seq + len batch.2)).
  { assert (Hdisp : let '(_, p1, _) := dispatch id batch env w p in
      idempotent p1 = true /\ sequence_numbers p1 !! batch.1 = Some (seq + len batch.2)).
    { unfold dispatch, next_sequence. rewrite Hi, Hpid, bool_decide_true by (by eexists). cbn [andb].
      set (p0 := set_sequences _ p).
      assert (Hp0 : idempotent p0 = true /\ sequence_numbers p0 !! batch.1 = Some (seq + len batch.2)).
      { unfold p0. cbn. rewrite lookup_insert_eq, swrap_small; [done|lia|unfold in_i; lia]. }
      unfold send_batch_to_agent. destruct (find_agent_for_partition _ _ _ p0) as [agent|err|]; [|done..].
      destruct (get_connection _ _ _ _) as [pool [peer|err|]]; [|done..].
      by destruct (retry_with_jittered_backoff _ _ _ _) as [[w1 pauses] r]. }
    revert Hd. unfold deliver. destruct (dispatch id batch env w p) as [[w1 p1] [response|err|]]; intros [= _ <- _].
    unfold fail_pending_offsets, resolve_pending. destruct (queues p1 !! batch.1); [|done].
    by destruct (resolve _ _ _ _ _). }
  destruct Hp as [Hi' Hs']. split.
  - unfold next_sequence. rewrite Hi', bool_decide_true by (by eexists). cbn. by rewrite Hs'.
  - intros base count Hge. unfold check_and_update_sequence, quoted. rewrite Hq, Hlast.
    assert (0 < len batch.2) by (destruct batch.2; [done|cbn; lia]).
    destruct (Z.leb_spec base (seq - 1)); [lia|]. replace (seq - 1 + 1) with seq by lia.
    rewrite Z.gtb_ltb. destruct (Z.ltb_spec seq base); [done|lia].
Qed.
End system.

(** ** What the servers are asked

    Servers that keep a list of the calls for batches, with their answers. *)

Abbreviation call_log := (list (ProduceBatchRequest * outcome RpcStatus ProduceBatchResponse)).

#[export] Instance recorder `{Cluster W E} : Cluster (W * call_log) E := {|
  produce_batch address request env w :=
    let '(w1, r) := produce_batch address request env w.1 in ((w1, w.2 ++ [(request, r)]), r);
  call_init address transactional_id organization_id env w :=
    let '(w1, r) := call_init address transactional_id organization_id env w.1 in ((w1, w.2), r);
  call_begin address pid epoch timeout env w := let '(w1, r) := call_begin address pid epoch timeout env w.1 in ((w1, w.2), r);
  call_commit address pid epoch id env w := let '(w1, r) := call_commit address pid epoch id env w.1 in ((w1, w.2), r);
  call_abort address pid epoch id env w := let '(w1, r) := call_abort address pid epoch id env w.1 in ((w1, w.2), r)
|}.

(** A request for the records of a batch: keys, or empty ones, and values, in order. *)
Definition carries (batch : PartitionKey * list BatchRecord) (req : ProduceBatchRequest) : Prop :=
  (pb_topic req, pb_partition req) = batch.1
  /\ pb_records req = map (fun r => (match br_key r with Some k => k | None => [] end, br_value r)) batch.2.

Definition not_ok {A B} (call : A * outcome RpcStatus B) : Prop := match call.2 with Ok _ => False | _ => True end.

(** The calls for a batch: all are for its records, none is answered but the last, and the batch was answered what that one was. *)
Definition asked (d : PartitionKey * list BatchRecord * option Z) (calls : call_log) : Prop :=
  Forall (fun call => carries d.1 call.1) calls
  /\ match d.2 with
     | Some first => exists failed req response, calls = failed ++ [(req, Ok response)] /\ Forall not_ok failed /\ first_offset response = first
     | None => Forall not_ok calls
     end.

Section asked.
Context `{HH : HashOrder} `{HS : SipHash} `{HT : RpcTexts} {W E : Type} `{HC : !Cluster W E}.

Lemma retry_recorded peer request (calls : nat -> E) left_ delay attempt (w : W * call_log) :
  let '(w', _, r) := retry_loop (fun i => produce_batch peer request (calls i)) left_ delay attempt w in
  exists block, w'.2 = w.2 ++ block /\ Forall (fun call => call.1 = request) block
    /\ match r with
       | Ok response => exists failed, block = failed ++ [(request, Ok response)] /\ Forall not_ok failed
       | _ => Forall not_ok block
       end.
Proof.
  revert attempt w. induction left_ as [|l IH]; intros attempt w; cbn [retry_loop produce_batch recorder];
    destruct (produce_batch peer request (calls attempt) w.1) as [w1 [response|status|]].
  1,4: exists [(request, Ok response)]; split; [done|]; split; [by repeat constructor|]; by exists [].
  2,4: exists [(request, Panic)]; by repeat constructor.
  - destruct (is_retryable status); exists [(request, Err status)]; by repeat constructor.
  - destruct (is_retryable status); [|exists [(request, Err status)]; by repeat constructor].
    specialize (IH (Datatypes.S attempt) (w1, w.2 ++ [(request, Err status)])). destruct (retry_loop _ _ _ _ _) as [[w' pauses] r].
    destruct IH as (block & Hw & Hreq & Hr). exists ((request, Err status) :: block). cbn [snd] in Hw.
    split; [by rewrite Hw, <- app_assoc|]. split; [by constructor|]. destruct r as [response|e|]; [|by constructor..].
    destruct Hr as (failed & -> & Hf). exists ((request, Err status) :: failed). split; [done|]. by constructor.
Qed.

Lemma dispatch_asked id batch env (w : W * call_log) p :
  let '(w', _, r) := dispatch id batch env w p in exists block, w'.2 = w.2 ++ block /\ asked (batch, answered r) block.
Proof.
  assert (Hnil : forall r : outcome ClientError ProduceBatchResponse, succeeded r = false -> exists block, w.2 = w.2 ++ block /\ asked (batch, answered r) block).
  { intros r Hr. exists []. split; [by rewrite app_nil_r|]. split; [constructor|]. destruct r; [done|constructor..]. }
  unfold dispatch. destruct (next_sequence _ _ _ p) as [p1 seq]. unfold send_batch_to_agent.
  destruct (find_agent_for_partition _ _ _ p1) as [agent|e|]; [|by apply Hnil..].
  destruct (get_connection _ _ _ _) as [pool [peer|e|]]; [|by apply Hnil..].
  match goal with |- context [retry_with_jittered_backoff (fun i => produce_batch peer ?rq _)] => set (request := rq) end.
  unfold retry_with_jittered_backoff. match goal with |- context [retry_loop _ ?l ?d 0 w] => pose proof (retry_recorded peer request (be_calls env) l d 0 w) as Hr end.
  destruct (retry_loop _ _ _ _ _) as [[w' pauses] r]. destruct Hr as (block & Hw & Hreq & Hr). exists block. split; [done|]. split.
  - eapply Forall_impl; [exact Hreq|]. cbn. intros call ->. by destruct batch as [[topic n] records].
  - destruct r as [response|status|]; cbn [answered agent_result snd]; [|done..]. destruct Hr as (failed & -> & Hf). by exists failed, request, response.
Qed.

(** Blocks of calls, one for each batch in the order of dispatch. *)
Definition all_asked (x : sys (W := W * call_log)) : Prop :=
  exists blocks rest, (servers x).2 = concat blocks ++ rest /\ Forall2 asked (dispatched x) blocks
    /\ (rest = [] \/ alive x = false /\ exists batch, head (round x) = Some batch /\ Forall (fun call => carries batch call.1) rest).

Lemma all_asked_snoc (log log' : call_log) dispatched blocks d block :
  log = concat blocks -> Forall2 asked dispatched blocks -> log' = log ++ block -> asked d block ->
  log' = concat (blocks ++ [block]) /\ Forall2 asked (dispatched ++ [d]) (blocks ++ [block]).
Proof.
  intros -> Hb -> Hd. split; [by rewrite concat_app; cbn; rewrite app_nil_r|]. apply Forall2_app; [done|]. constructor; [done|constructor].
Qed.

Lemma deliver_servers id batch env (w : W * call_log) p :
  fst (fst (deliver id batch env w p)) = fst (fst (dispatch id batch env w p)).
Proof. unfold deliver. by destruct (dispatch id batch env w p) as [[w1 p1] [response|e|]]. Qed.

Lemma flush_loop_asked id ready envs (w : W * call_log) p :
  let '(w', _, r) := flush_loop id ready envs w p in
  exists blocks, w'.2 = w.2 ++ concat blocks /\ Forall2 asked (flush_answers id ready envs w p) blocks.
Proof.
  revert w p. induction ready as [|batch ready IH]; intros w p; cbn [flush_loop flush_answers].
  { exists []. by rewrite app_nil_r. }
  pose proof (dispatch_asked id batch (envs (length ready)) w p) as Hd. pose proof (deliver_servers id batch (envs (length ready)) w p) as Hs.
  destruct (dispatch _ _ _ _ _) as [[wd pd] rd]. destruct Hd as (block & Hb & Ha). cbn [fst snd] in *.
  assert (Hone : exists blocks, wd.2 = w.2 ++ concat blocks /\ Forall2 asked [(batch, answered rd)] blocks).
  { exists [block]. cbn. rewrite app_nil_r. split; [done|]. constructor; [done|constructor]. }
  destruct (deliver _ _ _ _ _) as [[w1 p1] [[]|e|]]; cbn [fst] in Hs; subst w1; [|done..].
  specialize (IH wd p1). destruct (flush_loop _ _ _ wd p1) as [[w2 p2] r2]. destruct IH as (blocks & Hw & Hf). exists (block :: blocks). cbn [concat].
  split; [by rewrite Hw, Hb, app_assoc|]. by constructor.
Qed.

Lemma close_loop_asked id all envs (w : W * call_log) p :
  let '(w', _) := close_loop id all envs w p in
  exists blocks, w'.2 = w.2 ++ concat blocks /\ Forall2 asked (close_answers id all envs w p) blocks.
Proof.
  revert w p. induction all as [|batch all IH]; intros w p; cbn [close_loop close_answers].
  { exists []. by rewrite app_nil_r. }
  pose proof (dispatch_asked id batch (envs (length all)) w p) as Hd. destruct (dispatch _ _ _ _ _) as [[wd pd] rd]. destruct Hd as (block & Hb & Ha).
  specialize (IH wd pd). destruct (close_loop _ _ _ wd pd) as [w2 p2]. destruct IH as (blocks & Hw & Hf). exists (block :: blocks). cbn [concat].
  split; [by rewrite Hw, Hb, app_assoc|]. by constructor.
Qed.

(** More blocks, where no call is left over. *)
Lemma all_asked_more x p (w : W * call_log) id al more la cl blocks :
  all_asked x -> round x = [] -> w.2 = (servers x).2 ++ concat blocks -> Forall2 asked more blocks ->
  all_asked (mk_sys p w id [] al (sent x) (dispatched x ++ more) la cl).
Proof.
  intros (bs & rest & Hs & Hb & Hr) Hround Hw Hm. destruct Hr as [-> |(_ & batch & Hh & _)]; [|by rewrite Hround in Hh].
  exists (bs ++ blocks), []. cbn [servers dispatched]. rewrite app_nil_r in *. split; [by rewrite Hw, Hs, concat_app|].
  split; [by apply Forall2_app|by left].
Qed.

Lemma all_asked_same x p (w : W * call_log) id rd sn la cl :
  all_asked x -> w.2 = (servers x).2 -> round x = [] \/ rd = round x -> all_asked (mk_sys p w id rd (alive x) sn (dispatched x) la cl).
Proof.
  intros (bs & rest & Hs & Hb & Hr) Hw Hrd. exists bs, rest. cbn [servers dispatched alive round]. rewrite Hw.
  split; [done|]. split; [done|]. destruct Hr as [-> |(Hal & batch & Hh & Hc)]; [by left|]. right. split; [done|]. exists batch.
  destruct Hrd as [Hn| ->]; [by rewrite Hn in Hh|done].
Qed.

Lemma flush_asked now envs (w : W * call_log) p :
  let '(w', _, _) := flush now envs w p in
  exists blocks, w'.2 = w.2 ++ concat blocks /\ Forall2 asked (flush_dispatched now envs w p) blocks.
Proof. unfold flush, flush_dispatched. destruct (take_ready now p) as [p1 ready]. apply flush_loop_asked. Qed.

Lemma step_asked e x : all_asked x -> all_asked (step e x).
Proof.
  intros Hx. unfold step. destruct (closed x) eqn:Hcl; [done|].
  destruct e as [topic key value partition fetched nanos millis now|now|env|listed|connect env|id connect env|now envs|id connect now envs env|now envs].
  - apply all_asked_same; [done..|by right].
  - destruct (alive x) eqn:Hal; [|done]. destruct (round x) eqn:Hround; [|done]. destruct (take_ready now (prod x)) as [p ready].
    rewrite <- Hal. apply all_asked_same; [done..|by left].
  - destruct (alive x) eqn:Hal; [|done]. destruct (round x) as [|batch rest] eqn:Hround; [done|].
    pose proof (dispatch_asked (who x) batch env (servers x) (prod x)) as Hd. pose proof (deliver_servers (who x) batch env (servers x) (prod x)) as Hsv.
    destruct (dispatch _ _ _ _ _) as [[wd pd] rd]. destruct Hd as (block & Hw & Ha). cbn [fst snd] in *.
    destruct Hx as (bs & left_ & Hs & Hb & [-> |[Hx _]]); [|congruence]. rewrite app_nil_r in Hs.
    destruct (all_asked_snoc _ _ _ _ (batch, answered rd) block Hs Hb Hw Ha) as [Hs' Hb'].
    destruct (deliver _ _ _ _ _) as [[w p] [[]|e|]]; cbn [fst] in Hsv; subst w.
    1,2: exists (bs ++ [block]), []; cbn [servers dispatched]; rewrite app_nil_r; split_and!; [done|done|by left].
    exists bs, block. cbn [servers dispatched alive round]. split; [by rewrite Hw, Hs|]. split; [done|]. right. split; [done|]. exists batch.
    split; [done|]. by destruct Ha.
  - apply all_asked_same; [done..|by right].
  - unfold begin_transaction. destruct (transactional_id (prod x)), (producer_id (prod x)); try (apply all_asked_same; [done..|by right]).
    destruct (any_agent connect (prod x)) as [agent|e|]; [|apply all_asked_same; [done..|by right]..]. cbn [call_begin recorder].
    destruct (call_begin _ _ _ _ _ _) as [w1 [txn|status|]]; (apply all_asked_same; [done..|by right]).
  - unfold abort_transaction. destruct (producer_id (prod x)); [|apply all_asked_same; [done..|by right]].
    destruct (any_agent connect (prod x)) as [agent|e|]; [|apply all_asked_same; [done..|by right]..]. cbn [call_abort recorder].
    destruct (call_abort _ _ _ _ _ _) as [w1 [[]|status|]]; (apply all_asked_same; [done..|by right]).
  - destruct (round x) eqn:Hround; [|done]. pose proof (flush_asked now envs (servers x) (prod x)) as Hf.
    destruct (flush now envs _ _) as [[w p] r]. destruct Hf as (blocks & Hw & Hf). by eapply all_asked_more.
  - destruct (round x) eqn:Hround; [|done]. unfold commit_transaction. destruct (producer_id (prod x)) as [pid|]; [|apply all_asked_same; [done..|by right]].
    destruct (any_agent connect (prod x)) as [agent|e|]; [|apply all_asked_same; [done..|by right]..].
    pose proof (flush_asked now envs (servers x) (prod x)) as Hf. destruct (flush now envs _ _) as [[w p] r]. destruct Hf as (blocks & Hw & Hf).
    destruct r as [[]|e|]; [|by eapply all_asked_more..]. cbn [call_commit recorder].
    destruct (call_commit _ _ _ _ _ _) as [w1 [ts|status|]]; by eapply all_asked_more.
  - destruct (round x) eqn:Hround; [|done]. unfold close. destruct (flush_all now _) as [bm all].
    pose proof (close_loop_asked (current_identity (prod x)) all envs (servers x) (set_batches bm (prod x))) as Hf.
    destruct (close_loop _ _ _ _ _) as [w p]. destruct Hf as (blocks & Hw & Hf). by eapply all_asked_more.
Qed.

Lemma run_asked es x : all_asked x -> all_asked (run es x).
Proof. revert x. induction es as [|e es IH]; intros x Hx; [done|]. cbn. by apply IH, step_asked. Qed.

End asked.
