(* ===== verification/ClientConsumer.v ===== *)
(** * The consumer of the client library (crates/streamhouse-client/src/consumer.rs)

    A consumer reads the partitions of its topics with a [PartitionReader] each, which share the cache of
    segments, and keeps its positions in the metadata store.  The store is the database of
    [Catalog]; the clock, failures, and what the readers meet are arguments.  The futures
    that [poll] joins run one after the other, in the order of the map. *)

From stdpp Require Import pretty.
From stdpp Require Import sorting.
From S2P Require Import Prelude Core External Segment SegmentFacts HashMap Lru MetadataError StorageError WalHandle Catalog CatalogFacts PartitionWriter PartitionWriterFacts PartitionLogFacts ProducerStore SegmentIndex SegmentCache PartitionReader KafkaFetch Float ClientTransport ClientBatch ClientProducer.

Inductive OffsetReset : Type := Earliest | Latest | NoReset.
Inductive IsolationLevel : Type := ReadUncommitted | ReadCommitted.

(** A schema, as the registry answers it. *)
Record ClientSchema : Type := mk_client_schema { cs_id : Z; cs_subject : string; cs_version : Z; cs_schema : string }.

Record ConsumedRecord : Type := mk_consumed {
  cr_topic : string;
  cr_partition : Z;
  cr_offset : Z;
  cr_timestamp : Z;
  cr_key : option bytes;
  cr_value : bytes;
  cr_schema_id : option Z;
  cr_schema : option ClientSchema
}.

Definition consumed_key (r : ConsumedRecord) : PartitionKey := (cr_topic r, cr_partition r).

(** [i32::from_be_bytes] of the four bytes after the magic byte. *)
Definition extract_schema_id (data : bytes) : option (Z * bytes) :=
  match data with
  | magic :: rest =>
      if (len data <? 5) || negb (byte.unsigned magic =? 0) then None
      else '(id, payload) ← get_be 4 rest; Some (swrap 32 id, payload)
  | [] => None
  end.

Section consumer.
Context `{HashOrder} `{HC : Codecs} `{HP : ObjectPaths} `{HL : LruCache string Z} `{HJ : JsonMaps}.

Record PartitionConsumer : Type := mk_partition_consumer {
  pc_reader : PartitionReader;
  current_offset : Z;
  last_committed_offset : Z
}.

Record ConsumerConfig : Type := mk_consumer_config {
  group_id : option string;
  cn_topics : list string;
  cn_org_id : string;
  auto_commit : bool;
  auto_commit_interval : Z;
  offset_reset : OffsetReset;
  max_poll_records : nat;
  has_registry : bool;
  isolation_level : IsolationLevel
}.

Record Consumer : Type := mk_consumer {
  config : ConsumerConfig;
  readers : gmap PartitionKey PartitionConsumer;
  cn_cache : SegmentCache;
  last_commit : Z;
  last_lag_update : Z;
  cn_schema_cache : gmap Z ClientSchema
}.

Definition set_readers m (c : Consumer) : Consumer :=
  mk_consumer (config c) m (cn_cache c) (last_commit c) (last_lag_update c) (cn_schema_cache c).
Definition set_reading m cache (c : Consumer) : Consumer :=
  mk_consumer (config c) m cache (last_commit c) (last_lag_update c) (cn_schema_cache c).
Definition set_schemas s (c : Consumer) : Consumer :=
  mk_consumer (config c) (readers c) (cn_cache c) (last_commit c) (last_lag_update c) s.
Definition set_last_commit t (c : Consumer) : Consumer :=
  mk_consumer (config c) (readers c) (cn_cache c) t (last_lag_update c) (cn_schema_cache c).
Definition set_last_lag t (c : Consumer) : Consumer :=
  mk_consumer (config c) (readers c) (cn_cache c) (last_commit c) t (cn_schema_cache c).

(** ** Subscribing *)

(** [fail]: failures of the two calls of the metadata store. *)
Definition determine_start_offset (cfg : ConsumerConfig) (topic : string) (partition_id : Z) (fail fail' : option MetadataError)
    (d : Catalog.db) : outcome ClientError Z :=
  let by_policy :=
    match offset_reset cfg with
    | Earliest => Ok 0
    | Latest =>
        match fail' with
        | Some e => Err (CMetadataError e)
        | None =>
            partition ← ok_or (InvalidPartition partition_id topic 0) (get_partition (cn_org_id cfg) topic partition_id d);
            Ok (p_high_watermark partition)
        end
    | NoReset =>
        Err (ConfigError ("No committed offset for " +:+ topic +:+ "-" +:+ pretty partition_id +:+ " and offset_reset=None"))
    end in
  match group_id cfg with
  | None => by_policy
  | Some group_id =>
      match fail with
      | Some e => Err (CMetadataError e)
      | None =>
          match List.find (fun o => bool_decide (co_topic o = topic) && (co_partition_id o =? partition_id))
                  (get_consumer_offsets group_id d) with
          | Some o => Ok (co_committed_offset o)
          | None => by_policy
          end
      end
  end.

(** What subscribing meets: a failure for each topic, and two for each partition. *)
Record subscribe_env : Type := mk_subscribe_env {
  se_topic : string -> option MetadataError;
  se_offsets : PartitionKey -> option MetadataError;
  se_partition : PartitionKey -> option MetadataError
}.

Fixpoint subscribe_partitions (cfg : ConsumerConfig) (topic : string) (ids : list Z) (env : subscribe_env) (cache : SegmentCache) (d : Catalog.db)
    (m : gmap PartitionKey PartitionConsumer) : outcome ClientError (gmap PartitionKey PartitionConsumer) :=
  match ids with
  | [] => Ok m
  | partition_id :: ids =>
      let key := (topic, partition_id) in
      start_offset ← determine_start_offset cfg topic partition_id (se_offsets env key) (se_partition env key) d;
      subscribe_partitions cfg topic ids env cache d
        (<[key := mk_partition_consumer (PartitionReader.new (cn_org_id cfg) topic partition_id cache) start_offset start_offset]> m)
  end.

Fixpoint subscribe_topics (cfg : ConsumerConfig) (topics : list string) (env : subscribe_env) (cache : SegmentCache) (d : Catalog.db)
    (m : gmap PartitionKey PartitionConsumer) : outcome ClientError (gmap PartitionKey PartitionConsumer) :=
  match topics with
  | [] => Ok m
  | topic :: topics =>
      match se_topic env topic with
      | Some e => Err (CMetadataError e)
      | None =>
          topic_meta ← ok_or (CTopicNotFound topic) (get_topic topic d);
          m ← subscribe_partitions cfg topic (seqZ 0 (tp_partition_count topic_meta)) env cache d m;
          subscribe_topics cfg topics env cache d m
      end
  end.

(** What the builder holds, with both stores given; of the registry only whether there is one. *)
Record ConsumerBuilder : Type := mk_consumer_builder {
  cb_group_id : option string;
  cb_topics : list string;
  cb_auto_commit : bool;
  cb_auto_commit_interval : Z;
  cb_offset_reset : OffsetReset;
  cb_max_poll_records : nat;
  cb_has_registry : bool;
  cb_isolation_level : IsolationLevel;
  cb_organization_id : option string
}.

Definition new_consumer_builder : ConsumerBuilder :=
  mk_consumer_builder None [] true (from_millis 5000) Latest 100 false ReadUncommitted None.

(** [cache]: what opening the cache finds. *)
Definition build (b : ConsumerBuilder) (cache : outcome string SegmentCache) (group_fail : option MetadataError)
    (env : subscribe_env) (now : Z) (d : Catalog.db) : Catalog.db * outcome ClientError Consumer :=
  if bool_decide (cb_topics b = []) then (d, Err (ConfigError "topics required"))
  else
    match cache, cb_organization_id b with
    | Err e, _ => (d, Err (CStorageError e))
    | Panic, _ => (d, Panic)
    | Ok _, None => (d, Err (ConfigError "organization_id is required"))
    | Ok cache, Some org =>
        let cfg := mk_consumer_config (cb_group_id b) (cb_topics b) org (cb_auto_commit b) (cb_auto_commit_interval b)
                     (cb_offset_reset b) (cb_max_poll_records b) (cb_has_registry b) (cb_isolation_level b) in
        let '(d, ensured) :=
          match cb_group_id b with
          | Some g => attempt group_fail d (ensure_consumer_group_for_org org g)
          | None => (d, Ok ())
          end in
        match ensured with
        | Ok _ => (d, m ← subscribe_topics cfg (cb_topics b) env cache d ∅; Ok (mk_consumer cfg m cache now now ∅))
        | Err e => (d, Err (CMetadataError e))
        | Panic => (d, Panic)
        end
    end.

(** ** Committing *)

(** The loop of [commit]: the offsets of partitions that got ahead, until a call fails. *)
Fixpoint commit_loop (group : string) (entries : list (PartitionKey * PartitionConsumer)) (fail : PartitionKey -> option MetadataError)
    (d : Catalog.db) : Catalog.db * outcome ClientError () :=
  match entries with
  | [] => (d, Ok ())
  | (key, pc) :: entries =>
      if last_committed_offset pc <? current_offset pc then
        match attempt (fail key) d (commit_offset group key.1 key.2 (current_offset pc) None) with
        | (d, Ok _) => commit_loop group entries fail d
        | (d, Err e) => (d, Err (CMetadataError e))
        | (d, Panic) => (d, Panic)
        end
      else commit_loop group entries fail d
  end.

Definition commit (fail : PartitionKey -> option MetadataError) (d : Catalog.db) (c : Consumer) : Consumer * Catalog.db * outcome ClientError () :=
  match group_id (config c) with
  | None => (c, d, Err (ConfigError "commit requires group_id"))
  | Some group =>
      match commit_loop group (iter (readers c)) fail d with
      | (d, Ok _) =>
          (set_readers ((fun pc => mk_partition_consumer (pc_reader pc) (current_offset pc) (current_offset pc)) <$> readers c) c, d, Ok ())
      | (d, r) => (c, d, r)
      end
  end.

(** ** Polling *)

(** What a poll meets: the readers, the watermark that each reads at the end, whether the time is
    up, stable offsets, the registry, and for the end of the poll three readings of the clock
    and the failures of the calls that commit. *)
Record poll_env : Type := mk_poll_env {
  pe_reads : PartitionKey -> nat -> read_env;
  pe_watermark : PartitionKey -> outcome MetadataError (option Partition);
  pe_expired : PartitionKey -> bool;
  pe_stable : PartitionKey -> outcome MetadataError Z;
  pe_schema : Z -> outcome ClientError ClientSchema;
  pe_now : Z;
  pe_committed : Z;
  pe_lag : Z;
  pe_fail : PartitionKey -> option MetadataError
}.

(** The reads of the partitions, each with the cache as the one before left it. *)
Fixpoint read_all (objects : object_map) (max_records : nat) (env : poll_env) (entries : list (PartitionKey * PartitionConsumer))
    (m : gmap PartitionKey PartitionConsumer) (cache : SegmentCache)
  : gmap PartitionKey PartitionConsumer * SegmentCache * list (PartitionKey * outcome StorageError ReadResult) :=
  match entries with
  | [] => (m, cache, [])
  | (key, pc) :: entries =>
      let '(r, result) :=
        read objects (current_offset pc) max_records (pe_reads env key) (pe_watermark env key) (set_cache cache (pc_reader pc)) in
      let m := <[key := mk_partition_consumer r (current_offset pc) (last_committed_offset pc)]> m in
      let '(m, cache, results) := read_all objects max_records env entries m (rd_cache r) in
      (m, cache, (key, result) :: results)
  end.

Definition consumed (key : PartitionKey) (r : Record_) : ConsumedRecord :=
  mk_consumed key.1 key.2 (r_offset r) (r_timestamp r) (r_key r) (r_value r) None None.

(** The stable offset below which records are given, if there is one. *)
Definition stable_bound (level : IsolationLevel) (stable : outcome MetadataError Z) : outcome ClientError (option Z) :=
  match level, stable with
  | ReadUncommitted, _ => Ok None
  | ReadCommitted, Ok offset => Ok (Some offset)
  | ReadCommitted, Err _ => Ok None
  | ReadCommitted, Panic => Panic
  end.

Fixpoint collect (level : IsolationLevel) (env : poll_env) (results : list (PartitionKey * outcome StorageError ReadResult))
    (all_records : list ConsumedRecord) : outcome ClientError (list ConsumedRecord) :=
  match results with
  | [] => Ok all_records
  | (key, result) :: results =>
      if pe_expired env key then Ok all_records
      else
        match result with
        | Ok read_result =>
            lso ← stable_bound level (pe_stable env key);
            let records :=
              List.filter (fun r => match lso with Some last_stable => r_offset r <? last_stable | None => true end)
                (rr_records read_result) in
            collect level env results (all_records ++ map (consumed key) records)
        | Err e =>
            if str_contains "Offset not found" (storage_error_text e) then collect level env results all_records
            else Err (CStorageError (storage_error_text e))
        | Panic => Panic
        end
  end.

Definition get_schema (schema_id : Z) (answer : outcome ClientError ClientSchema) (cache : gmap Z ClientSchema)
  : gmap Z ClientSchema * outcome ClientError ClientSchema :=
  match cache !! schema_id with
  | Some schema => (cache, Ok schema)
  | None => match answer with Ok schema => (<[schema_id := schema]> cache, Ok schema) | r => (cache, r) end
  end.

(** A record whose schema is known loses the five bytes before its payload. *)
Definition resolve_schema (env : poll_env) (cache : gmap Z ClientSchema) (r : ConsumedRecord) : gmap Z ClientSchema * ConsumedRecord :=
  match extract_schema_id (cr_value r) with
  | Some (schema_id, payload) =>
      match get_schema schema_id (pe_schema env schema_id) cache with
      | (cache, Ok schema) =>
          (cache, mk_consumed (cr_topic r) (cr_partition r) (cr_offset r) (cr_timestamp r) (cr_key r) payload (Some schema_id) (Some schema))
      | (cache, _) => (cache, r)
      end
  | None => (cache, r)
  end.

Fixpoint resolve_schemas (env : poll_env) (cache : gmap Z ClientSchema) (l : list ConsumedRecord) : gmap Z ClientSchema * list ConsumedRecord :=
  match l with
  | [] => (cache, [])
  | r :: l =>
      let '(cache, r) := resolve_schema env cache r in
      let '(cache, l) := resolve_schemas env cache l in (cache, r :: l)
  end.

Definition advance (m : gmap PartitionKey PartitionConsumer) (r : ConsumedRecord) : gmap PartitionKey PartitionConsumer :=
  alter (fun pc => mk_partition_consumer (pc_reader pc) (wrap 64 (cr_offset r + 1)) (last_committed_offset pc)) (consumed_key r) m.

(** Thirty seconds, between two updates of the lag. *)
Definition LAG_INTERVAL : Z := 30000000000.

(** The positions are moved before the offsets are committed, and a commit that fails ends the poll. *)
Definition poll (objects : object_map) (env : poll_env) (d : Catalog.db) (c : Consumer)
  : Consumer * Catalog.db * outcome ClientError (list ConsumedRecord) :=
  let '(m, cache, results) := read_all objects (max_poll_records (config c)) env (iter (readers c)) (readers c) (cn_cache c) in
  let c := set_reading m cache c in
  match collect (isolation_level (config c)) env results [] with
  | Ok all_records =>
      let '(schemas, all_records) :=
        if has_registry (config c) then resolve_schemas env (cn_schema_cache c) all_records else (cn_schema_cache c, all_records) in
      let c := set_readers (foldl advance (readers c) all_records) (set_schemas schemas c) in
      let '(c, d, committed) :=
        if auto_commit (config c) && (auto_commit_interval (config c) <=? duration_since (pe_now env) (last_commit c)) then
          let '(c, d, r) := commit (pe_fail env) d c in
          (match r with Ok _ => set_last_commit (pe_committed env) c | _ => c end, d, r)
        else (c, d, Ok ()) in
      match committed with
      | Ok _ =>
          let c := if LAG_INTERVAL <=? duration_since (pe_lag env) (last_lag_update c) then set_last_lag (pe_lag env) c else c in
          (c, d, Ok all_records)
      | Err e => (c, d, Err e)
      | Panic => (c, d, Panic)
      end
  | Err e => (c, d, Err e)
  | Panic => (c, d, Panic)
  end.

(** ** Positions *)

Definition seek (topic : string) (partition_id offset : Z) (c : Consumer) : Consumer * outcome ClientError () :=
  match readers c !! (topic, partition_id) with
  | Some pc =>
      (set_readers (<[(topic, partition_id) := mk_partition_consumer (pc_reader pc) offset (last_committed_offset pc)]> (readers c)) c, Ok ())
  | None => (c, Err (InvalidPartition partition_id topic 0))
  end.

Definition position (topic : string) (partition_id : Z) (c : Consumer) : outcome ClientError Z :=
  pc ← ok_or (InvalidPartition partition_id topic 0) (readers c !! (topic, partition_id)); Ok (current_offset pc).

Definition lag (topic : string) (partition : Z) (fail : option MetadataError) (d : Catalog.db) (c : Consumer) : outcome ClientError Z :=
  match fail with
  | Some e => Err (CMetadataError e)
  | None =>
      partition_meta ← ok_or (CTopicNotFound ("Partition " +:+ topic +:+ "/" +:+ pretty partition +:+ " not found"))
                         (get_partition (cn_org_id (config c)) topic partition d);
      current ← position topic partition c;
      Ok (swrap 64 (swrap 64 (p_high_watermark partition_meta) - swrap 64 current))
  end.

Definition close (fail : PartitionKey -> option MetadataError) (d : Catalog.db) (c : Consumer) : Catalog.db * outcome ClientError () :=
  match group_id (config c) with
  | Some _ => let '(_, d, r) := commit fail d c in (d, r)
  | None => (d, Ok ())
  end.
End consumer.

(** ** Facts *)

(** ** Positions *)

Section positions.
Context `{HH : HashOrder} `{HC : Codecs} `{HP : ObjectPaths} `{HL : LruCache string Z} `{HJ : JsonMaps}.
Implicit Types c : Consumer.

Definition pos (c : Consumer) (k : PartitionKey) : option Z := current_offset <$> readers c !! k.
Definition committed_pos (c : Consumer) (k : PartitionKey) : option Z := last_committed_offset <$> readers c !! k.

Lemma iter_one {K A} `{Countable K} (k : K) (a : A) : iter {[k := a]} = [(k, a)].
Proof.
  pose proof (iter_perm {[k := a]}) as Hp. rewrite map_to_list_singleton in Hp. by apply Permutation_singleton_r in Hp.
Qed.

(** The records of one partition move its position behind the last of them. *)
Lemma advance_one k pc rs :
  foldl advance {[k := pc]} (map (consumed k) rs)
  = {[k := mk_partition_consumer (pc_reader pc)
             (match list.last rs with Some r => wrap 64 (r_offset r + 1) | None => current_offset pc end) (last_committed_offset pc)]}.
Proof.
  induction rs as [|r rs IH] using rev_ind; cbn; [by destruct pc|].
  rewrite map_app, foldl_app, IH, last_snoc. cbn. unfold advance, consumed_key. cbn. destruct k as [topic n]. cbn.
  by rewrite alter_singleton_eq.
Qed.

Lemma prefix_app s s' : String.prefix s (s +:+ s') = true.
Proof. induction s as [|a s IH]; [by destruct s'|]. simpl. by destruct (Ascii.ascii_dec a a). Qed.

Lemma contains_prefix s s' : str_contains s (s +:+ s') = true.
Proof.
  unfold str_contains. pose proof (prefix_app s s') as Hp. destruct s as [|a s]; [by destruct s'|]. simpl in *. by rewrite Hp.
Qed.

Lemma not_found_text o : str_contains "Offset not found" (storage_error_text (SOffsetNotFound o)) = true.
Proof. exact (contains_prefix "Offset not found" (": " +:+ pretty.pretty o)). Qed.
End positions.

(** ** Polls of one partition *)

Section delivery.
Context `{HH : HashOrder} `{HC : Codecs} `{!CodecLaws HC} `{HP : ObjectPaths} `{!ObjectPathLaws HP} `{HJ : JsonMaps}.
Context `{HL : LruCache string Z}.
Context (org t : string) (p : Z) (prefix : string) (committed : list (list Record_)) (wd : world).
Context (Hst : store_ok org t p prefix committed wd) (Hfit : objects_fit wd) (Hcons : consecutive 0 (concat committed)).

Let log := map normalise (concat committed).

(** A read past the end finds nothing, or meets an error. *)
Lemma read_past start max envs partition r :
  reader_ok org t p wd r -> (forall i, env_safe org t p wd (envs i)) -> len log <= start -> (0 < max)%nat ->
  let '(r', res) := read (objects wd) start max envs partition r in
  reader_ok org t p wd r' /\ exists e, res = Err e.
Proof.
  intros Hr Hs Ho Hmax. unfold read. destruct max as [|max]; [lia|]. cbn [read_loop length].
  destruct (Nat.ltb_spec 0 (S max)); [|lia].
  pose proof (find_segment_right org t p prefix committed wd Hst start (envs max) r Hr (Hs max)) as Hfind.
  destruct (find_segment start (envs max) r) as [r1 found]. destruct Hfind as [Hr1 [-> |[[e ->] _]]].
  - rewrite (holder_end org t p prefix committed wd Hst); [by split; [|eexists]|].
    by rewrite (mark_is committed Hcons).
  - by split; [|eexists].
Qed.

(** What a poll meets: accesses that may fail but not halfway, and the watermark or an error. *)
Definition env_usable (env : poll_env) : Prop :=
  (forall i, env_safe org t p wd (pe_reads env (t, p) i))
  /\ (pe_watermark env (t, p) = Ok (get_partition org t p (catalog wd)) \/ exists e, pe_watermark env (t, p) = Err e).

(** What it meets when nothing fails, and the time is not up. *)
Definition env_working (env : poll_env) : Prop :=
  (forall i, env_good org t p wd (pe_reads env (t, p) i))
  /\ pe_watermark env (t, p) = Ok (get_partition org t p (catalog wd)) /\ pe_expired env (t, p) = false.

(** A consumer of the partition that commits by hand and asks for no schemas. *)
Record tails (c : Consumer) (o : Z) : Prop := {
  tl_readers : exists pc, readers c = {[(t, p) := pc]} /\ current_offset pc = o
                 /\ reader_ok org t p wd (PartitionReader.set_cache (cn_cache c) (pc_reader pc));
  tl_auto : auto_commit (ClientConsumer.config c) = false;
  tl_level : isolation_level (ClientConsumer.config c) = ReadUncommitted;
  tl_registry : has_registry (ClientConsumer.config c) = false
}.

Lemma last_offset o n r : 0 <= o -> list.last (take n (drop (Z.to_nat o) log)) = Some r ->
  r_offset r = o + len (take n (drop (Z.to_nat o) log)) - 1.
Proof.
  intros Ho Hl. rewrite last_lookup in Hl. set (w := take n (drop (Z.to_nat o) log)) in *.
  assert (Hw : (0 < length w)%nat) by (destruct w; [done|cbn; lia]).
  assert (Hw' : take n (drop (Z.to_nat o) log) !! pred (length w) = Some r) by exact Hl. clear Hl. rename Hw' into Hl. apply lookup_take_Some in Hl as [Hl _]. rewrite lookup_drop in Hl.
  rewrite (log_offset committed Hcons _ _ Hl). lia.
Qed.

Lemma set_cache_same r : PartitionReader.set_cache (rd_cache r) r = r.
Proof. by destruct r. Qed.

(** The read of a poll. *)
Lemma read_log max env r o :
  reader_ok org t p wd r -> env_usable env -> 0 <= o <= len log -> (0 < max)%nat ->
  let '(r', res) := read (objects wd) o max (pe_reads env (t, p)) (pe_watermark env (t, p)) r in
  reader_ok org t p wd r'
  /\ (res = Ok (mk_read_result (take max (drop (Z.to_nat o) log)) (len log))
      \/ exists e, res = Err e /\ (env_working env -> e = SOffsetNotFound o /\ o = len log)).
Proof.
  intros Hr [Hsafe Hmark] Ho Hmax. destruct (decide (o = len log)) as [Heq|Hne].
  - pose proof (read_past o max (pe_reads env (t, p)) (pe_watermark env (t, p)) r Hr Hsafe ltac:(lia) Hmax) as Hpast.
    assert (Hbeyond : env_working env -> snd (read (objects wd) o max (pe_reads env (t, p)) (pe_watermark env (t, p)) r) = Err (SOffsetNotFound o)).
    { intros (Hgood & _ & _). apply (read_beyond org t p prefix committed wd Hst); try done. rewrite (mark_is committed Hcons). fold log. by rewrite Heq. }
    destruct (read _ _ _ _ _ _) as [r' res]. destruct Hpast as [Hr' [e ->]]. split; [done|]. right. exists e. split; [done|].
    intros Hw. specialize (Hbeyond Hw). cbn in Hbeyond. injection Hbeyond as ->. done.
  - pose proof (read_right org t p prefix committed wd Hst Hfit (joined_committed org t p prefix committed wd Hst Hcons) o max
      (pe_reads env (t, p)) (pe_watermark env (t, p)) r Hr Hsafe) as Hread.
    assert (Hfirst : SegmentFacts.first_offset (concat committed) = 0).
    { apply (consecutive_last 0); [|done]. intros He. unfold log in Ho, Hne. rewrite He in Ho, Hne. cbn in Ho, Hne. lia. }
    rewrite Hfirst, (mark_is committed Hcons) in Hread. fold log in Hread. specialize (Hread ltac:(lia) Hmark).
    destruct (read _ _ _ _ _ _) as [r' res]. destruct Hread as [Hr' Hres]. split; [done|].
    destruct Hres as [-> |[[e ->] Hn]]; [left|right].
    + unfold log. rewrite (consecutive_after 0) by (done || lia). by rewrite Z.sub_0_r.
    + exists e. split; [done|]. intros (Hgood & Hm & _). by destruct Hn.
Qed.

Lemma poll_one env d c o :
  tails c o -> env_usable env -> 0 <= o <= len log -> (0 < max_poll_records (ClientConsumer.config c))%nat -> len log < 2 ^ 63 ->
  let max := max_poll_records (ClientConsumer.config c) in
  let '(c', d', r) := poll (objects wd) env d c in
  d' = d /\ ClientConsumer.config c' = ClientConsumer.config c
  /\ ((exists n, (n <= max)%nat /\ r = Ok (map (consumed (t, p)) (take n (drop (Z.to_nat o) log)))
         /\ tails c' (o + len (take n (drop (Z.to_nat o) log))) /\ (env_working env -> n = max))
      \/ (exists e, r = Err e) /\ tails c' o /\ ~ env_working env).
Proof.
  intros [(pc & Hreaders & Hpos & Hr) Ha Hi Hg] Hu Ho Hmax Hlog max. subst o.
  unfold poll. rewrite Hreaders, iter_one. cbn [read_all]. fold max. set (r0 := PartitionReader.set_cache (cn_cache c) (pc_reader pc)) in *.
  pose proof (read_log max env r0 (current_offset pc) Hr Hu Ho Hmax) as Hread.
  destruct (read _ _ _ _ _ _) as [r' res]. destruct Hread as [Hr' Hres]. rewrite insert_singleton_eq.
  set (m := {[(t, p) := mk_partition_consumer r' (current_offset pc) (last_committed_offset pc)]}).
  set (rest := drop (Z.to_nat (current_offset pc)) log) in *. cbn [ClientConsumer.config set_reading]. rewrite Hi.
  assert (Hcol : (exists n, (n <= max)%nat /\ collect ReadUncommitted env [((t, p), res)] [] = Ok (map (consumed (t, p)) (take n rest))
                    /\ (env_working env -> n = max))
                 \/ (exists e, collect ReadUncommitted env [((t, p), res)] [] = Err e) /\ ~ env_working env).
  { cbn [collect]. destruct (pe_expired env (t, p)) eqn:Hexp.
    { left. exists O. split; [lia|]. split; [done|]. intros (_ & _ & Hw). congruence. }
    destruct Hres as [-> |(e & -> & Hw)].
    - left. exists max. split; [done|]. split; [|done]. cbn [stable_bound mbind outcome_bind rr_records app].
      f_equal. f_equal. clear. induction (take max rest) as [|x l IH]; [done|]. cbn. by f_equal.
    - destruct (str_contains _ _) eqn:Hs.
      + left. destruct (decide (current_offset pc = len log)) as [He|He].
        * exists max. split; [done|]. split; [|done]. unfold rest. rewrite He, Nat2Z.id, drop_all, take_nil. done.
        * exists O. split; [lia|]. split; [done|]. intros Hworks. by destruct (Hw Hworks).
      + right. split; [by eexists|]. intros Hworks. destruct (Hw Hworks) as [-> _]. by rewrite not_found_text in Hs. }
  destruct Hcol as [(n & Hn & -> & Hwork)|[[e ->] Hwork]].
  - rewrite Hg. cbv zeta. cbn [readers set_reading set_schemas set_readers ClientConsumer.config]. rewrite Ha. cbn [andb]. split; [done|]. split; [by destruct (_ <=? _)|]. left. exists n.
    split; [done|]. split; [done|]. split; [|done].
    assert (Hfold : foldl advance m (map (consumed (t, p)) (take n rest))
      = {[(t, p) := mk_partition_consumer r' (current_offset pc + len (take n rest)) (last_committed_offset pc)]}).
    { unfold m. rewrite advance_one. cbn [current_offset pc_reader last_committed_offset]. f_equal. f_equal.
      destruct (list.last _) as [r|] eqn:Hl.
      - pose proof (last_offset _ _ _ (proj1 Ho) Hl) as Hoff. fold rest in Hoff. rewrite Hoff, wrap_small; [lia|].
        unfold rest. rewrite length_take, length_drop. unfold in_u. lia.
      - apply last_None in Hl. rewrite Hl. cbn. lia. }
    cbv zeta. rewrite Hfold.
    destruct (_ <=? _); (split; [|done..]; eexists; split; [done|]; split; [done|]; cbn; by rewrite set_cache_same).
  - split; [done|]. split; [done|]. right. split; [by eexists|]. split; [|done].
    split; [|done..]. eexists. split; [done|]. cbn. by rewrite set_cache_same.
Qed.

Lemma take_further {A} n m (l : list A) : take n l ++ take m (drop (length (take n l)) l) = take (length (take n l) + m) l.
Proof.
  assert (Hn : take n l = take (length (take n l)) l).
  { rewrite length_take. destruct (decide (n <= length l)%nat); [by rewrite Nat.min_l|by rewrite Nat.min_r, !take_ge by lia]. }
  rewrite Hn at 1. apply take_take_drop.
Qed.

(** Polls one after the other: the consumer at the end, and the records that they gave. *)
Fixpoint polls (envs : list poll_env) (d : Catalog.db) (c : Consumer) : Consumer * list ConsumedRecord :=
  match envs with
  | [] => (c, [])
  | env :: envs =>
      let '(c, d, r) := poll (objects wd) env d c in
      let '(c, rs) := polls envs d c in (c, match r with Ok l => l | _ => [] end ++ rs)
  end.

(** C11: a consumer of one partition gets its log.  Meant is a consumer that reads uncommitted records
    (with ReadCommitted records can be withheld, [read_committed_withholds]), has this partition only, no schema registry,
    and commits by hand.  On a partition whose stored records are consecutive from 0, and however polls fail or run out
    of time in between, what its polls give is the log from its position on, in order, without a gap and
    without a record given twice, and its position is where they end; polls that meet no failure
    give all that is left, each of them as many records as it may.  Provisos: the partition has at most 10,000
    segments, which is what the reader's index holds; the cache holds, of the partition, only what the store has, and a write
    of the cache that fails leaves no part of a file; the polls see one state of the partition. *)
Theorem consumer_delivers envs d c o :
  tails c o -> Forall env_usable envs -> 0 <= o <= len log -> (0 < max_poll_records (ClientConsumer.config c))%nat -> len log < 2 ^ 63 ->
  let '(c', rs) := polls envs d c in
  exists n, rs = map (consumed (t, p)) (take n (drop (Z.to_nat o) log)) /\ pos c' (t, p) = Some (o + len rs) /\ o + len rs <= len log
    /\ (Forall env_working envs -> (length log - Z.to_nat o <= max_poll_records (ClientConsumer.config c) * length envs)%nat ->
        rs = map (consumed (t, p)) (drop (Z.to_nat o) log)).
Proof.
  intros Hc He Ho Hmax Hlog. revert d c o Hc Ho Hmax. induction He as [|env envs Hu He IH]; intros d c o Hc Ho Hmax; cbn [polls].
  - exists O. destruct Hc as [(pc & Hr & <- & _) _ _ _]. split; [done|]. unfold pos. rewrite Hr, lookup_singleton_eq. cbn.
    split; [f_equal; lia|]. split; [lia|]. intros _ Hlen. rewrite drop_ge by lia. done.
  - pose proof (poll_one env d c o Hc Hu Ho Hmax Hlog) as Hp. cbv zeta in Hp.
    destruct (poll (objects wd) env d c) as [[c1 d1] r]. destruct Hp as (-> & Hcfg & Hp). rewrite <- Hcfg in Hmax.
    set (rest := drop (Z.to_nat o) log) in *.
    assert (Hstep : forall n1, tails c1 (o + len (take n1 rest)) -> let '(c2, rs) := polls envs d c1 in
      exists n, take n1 (drop (Z.to_nat o) log) ++ take n (drop (Z.to_nat (o + len (take n1 rest))) log) = take (length (take n1 rest) + n) rest
        /\ rs = map (consumed (t, p)) (take n (drop (Z.to_nat (o + len (take n1 rest))) log))
        /\ pos c2 (t, p) = Some (o + len (take n1 rest) + len rs) /\ o + len (take n1 rest) + len rs <= len log
        /\ (Forall env_working envs -> (length log - Z.to_nat o <= length (take n1 rest) + max_poll_records (ClientConsumer.config c1) * length envs)%nat ->
            rs = map (consumed (t, p)) (drop (Z.to_nat (o + len (take n1 rest))) log))).
    { intros n1 Hc1. assert (Hn1 : (length (take n1 rest) <= length log - Z.to_nat o)%nat) by (unfold rest; rewrite length_take, length_drop; lia).
      specialize (IH d c1 (o + len (take n1 rest)) Hc1 ltac:(lia) Hmax). destruct (polls envs d c1) as [c2 rs].
      destruct IH as (n & -> & Hpos & Hle & Hall). exists n. split; [|split; [done|split; [done|split; [done|]]]].
      - fold rest. replace (Z.to_nat (o + len (take n1 rest))) with (Z.to_nat o + length (take n1 rest))%nat by lia.
        rewrite <- drop_drop. fold rest. apply take_further.
      - intros Hw Hlen. apply Hall; [done|]. lia. }
    destruct Hp as [(n1 & Hn1 & -> & Hc1 & Hw1)|([e ->] & Hc1 & Hw1)].
    + specialize (Hstep n1 Hc1). destruct (polls envs d c1) as [c2 rs]. destruct Hstep as (n & Happ & -> & Hpos & Hle & Hall).
      exists (length (take n1 rest) + n)%nat. rewrite <- map_app. fold rest in Happ. rewrite Happ. split; [done|].
      rewrite <- Happ, map_app, length_app, !length_map in *. split; [rewrite Hpos; f_equal; lia|]. split; [lia|].
      intros [Hwe Hws]%Forall_cons Hlen. specialize (Hw1 Hwe). rewrite <- Hcfg in Hw1, Hlen.
      assert (Hrest : take n1 rest ++ drop (Z.to_nat (o + len (take n1 rest))) log = rest).
      { replace (Z.to_nat (o + len (take n1 rest))) with (Z.to_nat o + length (take n1 rest))%nat by lia. rewrite <- drop_drop. fold rest.
        rewrite length_take. destruct (decide (n1 <= length rest)%nat).
        - rewrite Nat.min_l by done. apply take_drop.
        - rewrite Nat.min_r, drop_all, take_ge, app_nil_r by lia. done. }
      rewrite Hall; [by rewrite <- map_app, Hrest|done|].
      assert (Hl : length rest = (length log - Z.to_nat o)%nat) by (unfold rest; apply length_drop).
      cbn [length] in Hlen. rewrite length_take. lia.
    + assert (Hc2 : tails c1 (o + len (take 0 rest))) by (change (len (take 0 rest)) with 0; by rewrite Z.add_0_r). specialize (Hstep O Hc2).
      destruct (polls envs d c1) as [c2 rs]. destruct Hstep as (n & Happ & -> & Hpos & Hle & Hall). cbn [take length app] in *.
      rewrite Z.add_0_r in *. exists n. fold rest. split; [done|]. split; [done|]. split; [done|].
      intros [Hwe _]%Forall_cons _. done.
Qed.
End delivery.

(** ** Commits *)

Section commits.
Context `{HH : HashOrder} `{HC : Codecs} `{HP : ObjectPaths} `{HL : LruCache string Z} `{HJ : JsonMaps}.

Definition no_failure (k : PartitionKey) : option MetadataError := None.

(** The row of a group and a partition. *)
Definition row_of (g : string) (k : PartitionKey) (d : Catalog.db) : option Z := or_offset <$> consumer_offsets d !! (g, k.1, k.2).

Lemma commit_offset_row g topic n o d :
  DEFAULT_ORG ∈ organizations d ->
  let '(d', r) := commit_offset g topic n o None d in
  r = Ok () /\ organizations d' = organizations d
  /\ forall g' k, row_of g' k d' = if decide ((g', k) = (g, (topic, n))) then Some (swrap 64 o) else row_of g' k d.
Proof.
  intros Horg. unfold commit_offset, commit_offset_for_org, ensure_consumer_group_for_org.
  assert (Hrow : forall groups g' k owner, row_of g' k (set_offsets groups (<[(g, topic, n) := mk_offset_row owner (swrap 64 o) None]> (consumer_offsets d)) d)
                = if decide ((g', k) = (g, (topic, n))) then Some (swrap 64 o) else row_of g' k d).
  { intros groups g' [topic' n'] owner. unfold row_of. cbn. case_decide as Hk.
    - injection Hk as -> -> ->. by rewrite lookup_insert_eq.
    - by rewrite lookup_insert_ne by congruence. }
  case_bool_decide; [|rewrite (bool_decide_true _ Horg)]; (split; [done|]; split; [done|]; intros g' k; apply Hrow).
Qed.

Lemma commit_loop_rows g entries d :
  DEFAULT_ORG ∈ organizations d -> NoDup entries.*1 ->
  exists d', commit_loop g entries no_failure d = (d', Ok ())
    /\ (forall k pc, (k, pc) ∈ entries -> last_committed_offset pc < current_offset pc -> row_of g k d' = Some (swrap 64 (current_offset pc)))
    /\ forall g' k, (g' = g -> forall pc, (k, pc) ∈ entries -> current_offset pc <= last_committed_offset pc) -> row_of g' k d' = row_of g' k d.
Proof.
  revert d. induction entries as [|[k pc] entries IH]; intros d Horg Hnd; cbn [commit_loop].
  - exists d. split; [done|]. split; [|done]. intros k pc Hin. by apply elem_of_nil in Hin.
  - cbn in Hnd. apply NoDup_cons in Hnd as [Hk Hnd]. destruct (Z.ltb_spec (last_committed_offset pc) (current_offset pc)) as [Hlt|Hge].
    + cbn [attempt no_failure]. pose proof (commit_offset_row g k.1 k.2 (current_offset pc) d Horg) as Hrow.
      destruct (commit_offset _ _ _ _ _ _) as [d1 r]. destruct Hrow as (-> & Ho & Hrow). rewrite <- Ho in Horg.
      destruct (IH d1 Horg Hnd) as (d' & -> & H1 & H2). exists d'. split; [done|]. split.
      * intros k' pc' [[= -> ->]|Hin]%elem_of_cons Hlt'; [|by apply (H1 k' pc')]. rewrite H2.
        -- rewrite Hrow, decide_True; [done|]. by destruct k.
        -- intros _ pc' Hin. apply (list_elem_of_fmap_2 fst) in Hin. by destruct Hk.
      * intros g' k' Hsame. rewrite H2.
        -- rewrite Hrow, decide_False; [done|]. intros [= -> ->]. destruct k as [topic n]. cbn in *.
           assert (current_offset pc <= last_committed_offset pc); [|lia]. apply (Hsame eq_refl). left.
        -- intros Hg pc' Hin. apply (Hsame Hg). by right.
    + destruct (IH d Horg Hnd) as (d' & -> & H1 & H2). exists d'. split; [done|]. split.
      * intros k' pc' [[= -> ->]|Hin]%elem_of_cons Hlt'; [lia|by apply (H1 k' pc')].
      * intros g' k' Hsame. apply H2. intros Hg pc' Hin. apply (Hsame Hg). by right.
Qed.

(** The offset that a consumer of the group finds. *)
Lemma find_offset g topic n d :
  (co_committed_offset <$> List.find (fun o => bool_decide (co_topic o = topic) && (co_partition_id o =? n)) (get_consumer_offsets g d))
  = (wrap 64 <$> row_of g (topic, n) d).
Proof.
  unfold get_consumer_offsets, row_of. cbn [fst snd].
  set (l := merge_sort co_le _). set (found := List.find _ _).
  assert (Hin : forall o, o ∈ l <->
     exists row, consumer_offsets d !! (g, co_topic o, co_partition_id o) = Some row /\ o = mk_consumer_offset g (co_topic o) (co_partition_id o) (wrap 64 (or_offset row)) (or_metadata row)).
  { intros o. unfold l. rewrite merge_sort_Permutation, list_elem_of_fmap. split.
    - intros ([[[g' t'] n'] row] & -> & [Hg Hin]%list_elem_of_filter). cbn in Hg. subst g'. cbn. exists row. split; [by apply elem_of_map_to_list|done].
    - intros (row & Hrow & Ho). exists (g, co_topic o, co_partition_id o, row). split; [done|]. apply list_elem_of_filter. split; [done|].
      by apply elem_of_map_to_list. }
  destruct found as [o|] eqn:Hf; unfold found in Hf.
  - apply find_some in Hf as [Ho Heq]. apply andb_prop in Heq as [Ht%bool_decide_eq_true_1 Hn%Z.eqb_eq].
    apply list_elem_of_In, Hin in Ho as (row & Hrow & ->). cbn in Ht, Hn. subst. cbn in *. by rewrite Hrow.
  - destruct (consumer_offsets d !! (g, topic, n)) as [row|] eqn:Hrow; [|done]. exfalso.
    set (o := mk_consumer_offset g topic n (wrap 64 (or_offset row)) (or_metadata row)).
    assert (Ho : In o l).
    { apply list_elem_of_In, Hin. by exists row. }
    pose proof (find_none _ _ Hf o Ho) as Hno. cbn in Hno. rewrite bool_decide_true, Z.eqb_refl in Hno by done. done.
Qed.

(** C12: the group goes on where it committed.  When the database has the default organization and does not fail, a
    commit answers [Ok], and a consumer of the group that subscribes after it, of whatever
    organization, starts each partition that had got ahead at the position that was
    committed; the other partitions and the other groups keep what they had. *)
Theorem commit_then_restart g d c :
  group_id (ClientConsumer.config c) = Some g -> DEFAULT_ORG ∈ organizations d ->
  let '(c', d', r) := commit no_failure d c in
  r = Ok () /\ (forall k, pos c' k = pos c k /\ committed_pos c' k = pos c k)
  /\ (forall k pc, readers c !! k = Some pc -> last_committed_offset pc < current_offset pc -> in_u 64 (current_offset pc) ->
       forall cfg fail', group_id cfg = Some g -> determine_start_offset cfg k.1 k.2 None fail' d' = Ok (current_offset pc))
  /\ forall g' k, (g' = g -> forall pc, readers c !! k = Some pc -> current_offset pc <= last_committed_offset pc) ->
       row_of g' k d' = row_of g' k d.
Proof.
  intros Hg Horg. unfold commit. rewrite Hg.
  destruct (commit_loop_rows g (iter (readers c)) d Horg (iter_NoDup (readers c))) as (d' & -> & H1 & H2).
  split; [done|]. split.
  { intros k. unfold pos, committed_pos. cbn. rewrite lookup_fmap. by destruct (readers c !! k). }
  split.
  - intros k pc Hpc Hlt Hu cfg fail' Hcfg. unfold determine_start_offset. rewrite Hcfg.
    pose proof (find_offset g k.1 k.2 d') as Hf. rewrite (H1 (k.1, k.2) pc) in Hf; [|destruct k; by apply elem_of_iter|done].
    cbn in Hf. rewrite wrap_swrap_64 in Hf by done.
    destruct (List.find _ _) as [o|]; [|done]. cbn in Hf. by injection Hf as ->.
  - intros g' k Hs. apply H2. intros Hgg pc Hin. apply (Hs Hgg). by apply elem_of_iter.
Qed.

(** ** Lost records *)

(** A poll whose commit fails gives nothing, and its records are behind the positions. *)
Lemma poll_commit_fails objects env d c m cache results rs d' e :
  read_all objects (max_poll_records (ClientConsumer.config c)) env (iter (readers c)) (readers c) (cn_cache c) = (m, cache, results) ->
  collect (isolation_level (ClientConsumer.config c)) env results [] = Ok rs -> has_registry (ClientConsumer.config c) = false ->
  auto_commit (ClientConsumer.config c) = true ->
  auto_commit_interval (ClientConsumer.config c) <= duration_since (pe_now env) (last_commit c) ->
  (forall c1, ClientConsumer.config c1 = ClientConsumer.config c -> readers c1 = foldl advance m rs -> commit (pe_fail env) d c1 = (c1, d', Err e)) ->
  exists c', poll objects env d c = (c', d', Err e) /\ readers c' = foldl advance m rs /\ last_commit c' = last_commit c
    /\ ClientConsumer.config c' = ClientConsumer.config c.
Proof.
  intros Hread Hcol Hreg Hauto Hdue Hcommit. unfold poll. rewrite Hread. cbv zeta. cbn [ClientConsumer.config set_reading]. rewrite Hcol, Hreg.
  cbv zeta. cbn [ClientConsumer.config set_reading set_readers set_schemas readers]. rewrite Hauto.
  cbn [last_commit set_reading set_readers set_schemas]. rewrite (proj2 (Z.leb_le _ _) Hdue). cbn [andb].
  rewrite Hcommit by done. eexists. split; [done|]. done.
Qed.

(** Without a group, polling stops for good.  A consumer that has no group and commits by itself,
    which is the default, fails every poll from the moment its interval is over: the records are read, the
    positions pass them, and the poll answers an error and gives none; the time of
    the last commit stays, so that the next poll fails as well. *)
Theorem no_group_drops objects env d c m cache results rs :
  read_all objects (max_poll_records (ClientConsumer.config c)) env (iter (readers c)) (readers c) (cn_cache c) = (m, cache, results) ->
  collect (isolation_level (ClientConsumer.config c)) env results [] = Ok rs -> has_registry (ClientConsumer.config c) = false ->
  auto_commit (ClientConsumer.config c) = true -> group_id (ClientConsumer.config c) = None ->
  auto_commit_interval (ClientConsumer.config c) <= duration_since (pe_now env) (last_commit c) ->
  exists c', poll objects env d c = (c', d, Err (ConfigError "commit requires group_id"))
    /\ readers c' = foldl advance m rs /\ last_commit c' = last_commit c /\ ClientConsumer.config c' = ClientConsumer.config c.
Proof.
  intros Hread Hcol Hreg Hauto Hg Hdue. eapply poll_commit_fails; try done. intros c1 Hc1 _. unfold commit. by rewrite Hc1, Hg.
Qed.

(** Without the default organization, no offset is ever committed.  The migrations delete the organization under
    which [commit] makes the group.  From then on a commit that has anything to write
    fails, the database stays as it is, and a poll that commits by itself answers the
    error while the positions are already past its records, which nobody gets. *)
Theorem commit_needs_default_org objects env d c m cache results rs g :
  read_all objects (max_poll_records (ClientConsumer.config c)) env (iter (readers c)) (readers c) (cn_cache c) = (m, cache, results) ->
  collect (isolation_level (ClientConsumer.config c)) env results [] = Ok rs -> has_registry (ClientConsumer.config c) = false ->
  auto_commit (ClientConsumer.config c) = true -> group_id (ClientConsumer.config c) = Some g ->
  auto_commit_interval (ClientConsumer.config c) <= duration_since (pe_now env) (last_commit c) ->
  (DEFAULT_ORG ∉ organizations d) -> ((DEFAULT_ORG, g) ∉ consumer_groups d) -> (forall k, pe_fail env k = None) ->
  (exists k pc, foldl advance m rs !! k = Some pc /\ last_committed_offset pc < current_offset pc) ->
  exists c', poll objects env d c = (c', d, Err (CMetadataError foreign_key_error))
    /\ readers c' = foldl advance m rs /\ last_commit c' = last_commit c.
Proof.
  intros Hread Hcol Hreg Hauto Hg Hdue Horg Hgroup Hfail (k & pc & Hk & Hlt).
  assert (Hloop : forall entries, (k, pc) ∈ entries -> commit_loop g entries (pe_fail env) d = (d, Err (CMetadataError foreign_key_error))).
  { induction entries as [|[k1 pc1] entries IH]; intros Hin; [by apply elem_of_nil in Hin|]. cbn [commit_loop].
    destruct (Z.ltb_spec (last_committed_offset pc1) (current_offset pc1)) as [Hlt1|Hge].
    - rewrite Hfail. cbn [attempt]. unfold commit_offset, commit_offset_for_org, ensure_consumer_group_for_org.
      by rewrite (bool_decide_false _ Hgroup), (bool_decide_false _ Horg).
    - apply IH. apply elem_of_cons in Hin as [[= -> ->]|]; [lia|done]. }
  edestruct (poll_commit_fails objects env d c m cache results rs d (CMetadataError foreign_key_error)) as (c' & H1 & H2 & H3 & _); try done.
  - intros c1 Hc1 Hr1. unfold commit. rewrite Hc1, Hg, Hr1, Hloop; [done|]. by apply elem_of_iter.
  - by exists c'.
Qed.

(** Readers of committed records get nothing where no transaction ended.  The metadata store answers 0 for the stable
    offset of a partition in which no transaction was decided, and the consumer takes it for a bound: it gives
    no record of such a partition, and stays where it is, instead of going by the high watermark. *)
Theorem read_committed_withholds `{SqlText} objects env d pdb c m cache results c' d' rs :
  read_all objects (max_poll_records (ClientConsumer.config c)) env (iter (readers c)) (readers c) (cn_cache c) = (m, cache, results) ->
  Forall (fun e : PartitionKey * outcome StorageError ReadResult =>
            match e.2 with Ok result => Forall (fun r => 0 <= r_offset r) (rr_records result) | _ => True end) results ->
  Forall (fun e => unquoted e.1.1 = true) results ->
  (forall k, ProducerStore.partition_lso pdb !! k = None) ->
  (forall k, pe_stable env k = snd (get_last_stable_offset k.1 k.2 pdb)) ->
  isolation_level (ClientConsumer.config c) = ReadCommitted -> has_registry (ClientConsumer.config c) = false ->
  poll objects env d c = (c', d', Ok rs) -> rs = [] /\ forall k, pos c' k = current_offset <$> m !! k.
Proof.
  intros Hread Hpos Hun Hlso Hstable Hlevel Hreg.
  assert (Hcol : forall rs0, collect ReadCommitted env results [] = Ok rs0 -> rs0 = []).
  { clear -Hpos Hun Hlso Hstable. induction results as [|[k res] l IH]; intros rs0; cbn [collect]; [by intros [= <-]|].
    apply Forall_cons in Hpos as [Hp Hpos]. apply Forall_cons in Hun as [Hu Hun]. cbn [fst snd] in *.
    destruct (pe_expired env k); [by intros [= <-]|]. destruct res as [result|e|]; [|destruct (str_contains _ _); [by apply IH|done]|done].
    rewrite Hstable. unfold get_last_stable_offset, quoted. cbn [forallb]. rewrite Hu. cbn [andb snd].
    destruct k as [topic n]. cbn [fst snd]. rewrite Hlso. cbn [stable_bound mbind outcome_bind].
    assert (Hnil : List.filter (fun r => r_offset r <? 0) (rr_records result) = []).
    { clear -Hp. induction Hp as [|r l Hr Hp IH]; [done|]. cbn. rewrite (proj2 (Z.ltb_ge _ _) Hr). exact IH. }
    rewrite Hnil. cbn [map app]. by apply IH. }
  unfold poll. rewrite Hread. cbn [ClientConsumer.config set_reading]. rewrite Hlevel, Hreg.
  destruct (collect _ _ _ _) as [rs0|e|] eqn:Hc; [|done..]. rewrite (Hcol rs0 eq_refl). cbv zeta. cbn [foldl].
  assert (Hcommit : forall c1 f d1 c2 d2 r, commit f d1 c1 = (c2, d2, r) -> forall k, pos c2 k = pos c1 k).
  { intros c1 f d1 c2 d2 r. unfold commit. destruct (group_id _); [|by intros [= <- _ _]].
    destruct (commit_loop _ _ _ _) as [d3 [[]|e|]]; intros [= <- _ _]; try done. intros k. unfold pos. cbn. rewrite lookup_fmap. by destruct (readers c1 !! k). }
  destruct (_ && _).
  - destruct (commit _ _ _) as [[c2 d2] r] eqn:Hcm. pose proof (Hcommit _ _ _ _ _ _ Hcm) as Hsame.
    destruct r as [[]|e|]; intros [= <- _ <-]. split; [done|]. intros k. change (current_offset <$> m !! k) with (pos (set_reading m cache c) k).
    etrans; [|exact (Hsame k)]. by destruct (_ <=? _).
  - intros [= <- _ <-]. split; [done|]. intros k. by destruct (_ <=? _).
Qed.

(** Schemas travel with the payload.  A consumer whose registry knows the schema gives the value that was sent with
    its id, and the schema; one without a registry gives the five bytes before it too. *)
Theorem schema_payload_roundtrip env cache schema schema_id value topic n o timestamp key :
  in_i 32 schema_id -> get_schema schema_id (pe_schema env schema_id) cache = (<[schema_id := schema]> cache, Ok schema) ->
  resolve_schema env cache (mk_consumed topic n o timestamp key (byte_of 0 :: put_be 4 schema_id ++ value) None None)
  = (<[schema_id := schema]> cache, mk_consumed topic n o timestamp key value (Some schema_id) (Some schema)).
Proof.
  intros Hid Hs. unfold resolve_schema, extract_schema_id. cbn [cr_value].
  rewrite unsigned_byte_of by lia. destruct (Z.ltb_spec (len (byte_of 0 :: put_be 4 schema_id ++ value)) 5) as [Hlt|_].
  { cbn [length] in Hlt. rewrite length_app, length_put_be in Hlt. lia. }
  cbn [negb orb Z.eqb]. destruct (KafkaCodecFacts.get_be_signed 4 schema_id value ltac:(lia) Hid) as (u & -> & Hu).
  cbn [mbind option_bind]. change (8 * Z.of_nat 4) with 32 in Hu. rewrite Hu, Hs. done.
Qed.
End commits.
