(* ===== verification/ClientExamples.v ===== *)
(** * The client library at work

    A producer before a server that keeps a log, and a consumer of the partition of
    [PartitionExamples]. *)

From coqutil Require Import Byte.
From S2P Require Import Prelude HashMap MetadataError ProducerStore Catalog Lease AgentRouter Float ClientTransport ClientBatch ClientProducer.

#[local] Abbreviation b01 := Init.Byte.x01.
#[local] Abbreviation b02 := Init.Byte.x02.

(** ** A server *)

#[export] Instance toy_sip : SipHash := {| sip_text := fun s => Z.of_nat (String.length s); sip_slice := fun b => len b |}.
#[export] Instance toy_rpc_texts : RpcTexts := message.

Definition refused : RpcStatus := mk_rpc_status Code.InvalidArgument "refused".

(** It appends what it is sent to one log, and refuses a call that is not to work. *)
Definition answer {A} (a : A) (works : bool) (w : list (bytes * bytes)) : list (bytes * bytes) * outcome RpcStatus A :=
  (w, if works then Ok a else Err refused).

Definition append_log (req : ProduceBatchRequest) (works : bool) (w : list (bytes * bytes))
  : list (bytes * bytes) * outcome RpcStatus ProduceBatchResponse :=
  if works then (w ++ pb_records req, Ok (mk_batch_response (len w) (len w + len (pb_records req) - 1) (len (pb_records req)) false))
  else (w, Err refused).

#[export] Instance log_server : Cluster (list (bytes * bytes)) bool := {|
  produce_batch _ := append_log;
  call_init _ _ _ := answer ("p1"%string, 0);
  call_begin _ _ _ _ := answer "t1"%string;
  call_commit _ _ _ _ := answer 7;
  call_abort _ _ _ _ := answer ()
|}.

Definition agent_1 : AgentInfo := mk_agent_info "agent-1" "agent-1:9090".
Definition builder (idempotent : bool) : ProducerBuilder :=
  mk_builder true "default" 2 (from_millis 100) 3 (from_millis 100) false idempotent None (Some "acme"%string).
Definition orders_topic : Topic := mk_topic "orders" 2 None Delete 5 ∅.

Definition meets (works : bool) (i : nat) : batch_env bool := mk_batch_env 0 (Ok None) None (fun _ => f64_of 0) (fun _ => works).

Definition built (idempotent : bool) := build (Ok [agent_1]) None true [] (builder idempotent).

Lemma builds idempotent : exists p, built idempotent = ([], Ok p).
Proof. destruct idempotent; (eexists; vm_compute; reflexivity). Qed.

(** What holds of the producer that was built. *)
Definition holds_built (idempotent : bool) (P : Producer -> Prop) : Prop :=
  match built idempotent with (_, Ok p) => P p | _ => False end.

Lemma built_holds idempotent P p : holds_built idempotent P -> built idempotent = ([], Ok p) -> P p.
Proof. unfold holds_built. intros H Hb. rewrite Hb in H. exact H. Qed.

(** ** Records that are told their offsets *)

Definition record (partition : Z) (n : Byte.byte) (now : Z) : event (E := bool) :=
  ESend "orders" (Some [n]) [n; n] (Some partition) (Ok (Some orders_topic)) now now now.

(** Two records of the first partition make a batch; one of the second is due by its age, and is
    refused; one is sent by a flush, and the last one when the producer is closed, which tells nobody. *)
Definition events : list (event (E := bool)) :=
  [record 0 b01 1; record 1 b02 2; record 0 b02 3; ETick (fun _ => 4); EDeliver (meets true 0);
   ETick (fun _ => from_millis 200); EDeliver (meets false 0); record 0 b01 (from_millis 201); EFlush (fun _ => from_millis 400) (meets true);
   record 1 b01 (from_millis 401); EClose (fun _ => from_millis 402) (meets true)].

Definition recorded_build := build (Ok [agent_1]) None true ([], []) (builder true).


(** ** Where the promise fails *)

(** Two records of each partition, all due. *)
Definition filled (p : Producer) : Producer := prod (run [record 0 b01 1; record 1 b01 2; record 0 b02 3; record 1 b02 4] (start p [])).

(** The servers refuse every batch. *)
Lemma flush_error_drops_witness :
  exists p p' e k rs, built false = ([], Ok p) /\ flush (fun _ => 5) (meets false) [] (filled p) = ([], p', Err e)
    /\ length rs = 2%nat /\ rs = buffered (batch_manager (filled p)) k /\ buffered (batch_manager p') k = []
    /\ queue_of p' k = queue_of (filled p) k.
Proof.
  destruct (builds false) as [p Hp].
  set (P := fun p => match take_ready (fun _ => 5) (filled p) with
                     | (p1, [batch; (_, rs)]) =>
                         match deliver (current_identity p1) batch (meets false 1) [] p1 with
                         | ([], _, Err _) => length rs = 2%nat
                         | _ => False
                         end
                     | _ => False
                     end).
  assert (Hf : P p) by (apply (built_holds false P p); [vm_compute; reflexivity|exact Hp]). unfold P in Hf.
  destruct (take_ready _ _) as [p1 [|batch [|[k rs] [|]]]] eqn:Ht; try contradiction.
  destruct (deliver _ _ _ _ _) as [[[|] p'] [|e|]] eqn:Hd; try contradiction.
  destruct (flush_error_drops (fun _ => 5) (meets false) [] (filled p) p1 batch [(k, rs)] [] p' e Ht Hd) as [Hfl Hk].
  destruct (Hk k rs ltac:(by left)) as (H1 & _ & H3 & H4). by exists p, p', e, k, rs.
Defined.

(** One record, which is not yet due when its transaction is committed. *)
Definition half_filled (p : Producer) : Producer := prod (run [record 0 b01 1] (start p [])).

Lemma commit_before_records_witness :
  exists p, built true = ([], Ok p)
  /\ let '(w1, p1, r) := commit_transaction "t1" None (fun _ => 5) (meets true) true [] (half_filled p) in
     w1 = [] /\ r = Ok 7 /\ length (buffered (batch_manager p1) ("orders"%string, 0)) = 1%nat.
Proof.
  destruct (builds true) as [p Hp]. exists p. split; [exact Hp|].
  set (P := fun p => let q := half_filled p in
    bool_decide (map_Forall (fun _ b => should_flush 5 b = false) (buffers (batch_manager q))) = true
    /\ producer_id q = Some "p1"%string /\ any_agent None q = Ok agent_1
    /\ length (buffered (batch_manager q) ("orders"%string, 0)) = 1%nat).
  assert (Hf : P p) by (apply (built_holds true P p); [vm_compute; repeat split|exact Hp]).
  destruct Hf as (Hdue%bool_decide_eq_true_1 & Hpid & Hagent & Hlen).
  pose proof (commit_before_records "t1" None (fun _ => 5) (meets true) true [] (half_filled p) "p1" agent_1 [] 7
    Hdue Hpid Hagent eq_refl) as H.
  destruct (commit_transaction _ _ _ _ _ _ _) as [[w1 p1] r]. destruct H as (-> & -> & _ & Hb).
  split; [reflexivity|]. split; [reflexivity|]. rewrite Hb. exact Hlen.
Defined.

(** The first batch of a partition is refused: the store, which never saw a batch of the producer, refuses the next one. *)
Lemma lost_batch_blocks_witness :
  exists p, built true = ([], Ok p)
  /\ ProducerStore.check_and_update_sequence "p1" "orders" 0 2 2 ProducerStore.empty_db
     = (ProducerStore.empty_db, Err (ProducerStore.sequence_gap 0 2)).
Proof.
  destruct (builds true) as [p Hp]. exists p. split; [exact Hp|].
  set (P := fun p => match take_ready (fun _ => 5) (filled p) with
                     | (p1, batches) =>
                         match find (fun b => bool_decide (b.1 = ("orders"%string, 0))) batches with
                         | Some (k, rs) =>
                             (k = ("orders"%string, 0) /\ length rs = 2%nat) /\ idempotent p1 = true
                             /\ id_producer (current_identity p1) = Some "p1"%string
                             /\ sequence_numbers p1 !! k = None
                             /\ match deliver (current_identity p1) (k, rs) (meets false 1) [] p1 with
                                | (_, _, Err _) => True
                                | _ => False
                                end
                         | None => False
                         end
                     end).
  assert (Hf : P p) by (apply (built_holds true P p); [vm_compute; repeat split|exact Hp]). unfold P in Hf.
  destruct (take_ready _ _) as [p1 batches]. destruct (find _ _) as [[k rs]|]; [|contradiction].
  destruct Hf as ([-> Hrs] & Hi & Hid & Hseq & Hd).
  destruct (deliver _ _ _ _ _) as [[w' p'] [|e|]] eqn:Hdel; try contradiction.
  assert (Hl : len rs = 2) by (by rewrite Hrs).
  destruct (lost_batch_blocks (current_identity p1) "p1" (("orders"%string, 0), rs) (meets false 1) [] p1 w' p' e ProducerStore.empty_db)
    as [_ H]; [exact Hi|exact Hid|by destruct rs|reflexivity|cbn [fst snd]; rewrite ?Hseq, ?Hl; reflexivity || (cbn; lia)..|exact Hdel|].
  specialize (H 2 2). cbn [fst snd] in H. rewrite Hseq, Hl in H. apply H. cbn. lia.
Defined.

(** [send] takes two locks, one after the other.  When the task sends the batch in between, the
    receiver of the record is queued behind: the second record, which is at offset 1, is
    told 2, the third 3, and the fourth, which is stored as well, waits on. *)
Definition raced (p : Producer) : list (bytes * bytes) * Producer :=
  let p := prod (run [record 0 b01 1] (start p [])) in
  let '(p, id) := send_buffer "orders" 0 (mk_batch_record (Some [b02]) [b02; b02] 2) 2 p in
  let '(w, p) := flush_tick (fun _ => 3) (meets true) [] p in
  let p := send_pending "orders" 0 id p in
  let p := prod (run [record 0 b01 4; record 0 b02 5] (start p w)) in
  flush_tick (fun _ => 6) (meets true) w p.

Lemma append_race_misattributes :
  exists p, built false = ([], Ok p) /\ channels (snd (raced p)) = [Told 0; Told 2; Told 3; Waiting]
    /\ map fst (fst (raced p)) = [[b01]; [b02]; [b01]; [b02]].
Proof.
  destruct (builds false) as [p Hp]. exists p. split; [exact Hp|].
  set (P := fun p => channels (snd (raced p)) = [Told 0; Told 2; Told 3; Waiting] /\ map fst (fst (raced p)) = [[b01]; [b02]; [b01]; [b02]]).
  exact (built_holds false P p ltac:(vm_compute; split; reflexivity) Hp).
Qed.
