(* ===== verification/ClientConsumerExamples.v ===== *)
(** * A consumer of the client library at work

    On the partition of [PartitionExamples], which stores three records. *)

From coqutil Require Import Byte.
From S2P Require Import Prelude HashMap ProducerStore Core External Segment SegmentFacts StorageError Lru WalHandle MetadataError Catalog CatalogFacts PartitionWriter PartitionWriterFacts PartitionLogFacts PartitionRecoveryFacts PartitionExamples SegmentIndex SegmentCache PartitionReader ReaderExamples ProduceExamples KafkaExamples Float ClientTransport ClientBatch ClientConsumer.

(** ** A consumer *)

Definition orders_0 : PartitionKey := ("orders"%string, 0).

Definition tail_config (group : option string) (auto : bool) (level : IsolationLevel) : ConsumerConfig :=
  mk_consumer_config group ["orders"%string] "acme" auto (from_millis 5000) Earliest 2 false level.

Definition tail (group : option string) (auto : bool) (level : IsolationLevel) : Consumer :=
  mk_consumer (tail_config group auto level) {[orders_0 := mk_partition_consumer consumer 0 0]} (SegmentCache.new ∅ 1000) 0 0 ∅.

Definition meeting (wd : world) (now : Z) : poll_env :=
  mk_poll_env (fun _ => working wd) (fun _ => Ok (get_partition "acme" "orders" 0 (catalog wd))) (fun _ => false)
    (fun k => snd (get_last_stable_offset k.1 k.2 ProducerStore.empty_db)) (fun _ => Err (SchemaRegistryError "404")) now now now (fun _ => None).

Lemma meeting_works wd now : env_working "acme" "orders" 0 wd (meeting wd now).
Proof. split; [intros i; apply working_good|done]. Qed.

Lemma meeting_usable wd now : env_usable "acme" "orders" 0 wd (meeting wd now).
Proof. split; [intros i; apply working_safe|by left]. Qed.

(** ** Delivery *)

(** Three records in polls of two. *)
Lemma consumer_delivers_witness :
  exists wd', stored_log "acme" "orders" 0 wd' = Some orders_stored
    /\ let '(c', rs) := polls wd' [meeting wd' 1; meeting wd' 2] (catalog wd') (tail None false ReadUncommitted) in
       rs = map (consumed orders_0) orders_stored /\ pos c' orders_0 = Some 3.
Proof.
  destruct orders_store as (wd' & committed & Hst & Hfit & Hlog & Hcons & Hrows). exists wd'.
  split; [rewrite <- Hlog; by apply (store_ok_log _ _ _ _ _ _ Hst Hfit)|].
  pose proof (consumer_delivers "acme" "orders" 0 "data" committed wd' Hst Hfit Hcons [meeting wd' 1; meeting wd' 2] (catalog wd')
    (tail None false ReadUncommitted) 0) as H.
  rewrite Hlog in H. destruct (polls _ _ _ _) as [c' rs]. destruct H as (n & _ & Hpos & _ & Hall).
  - split; try reflexivity. exists (mk_partition_consumer consumer 0 0). split; [reflexivity|]. split; [reflexivity|].
    exact (consumer_ok wd' Hrows).
  - repeat constructor; try apply meeting_usable.
  - cbn. lia.
  - cbn. lia.
  - cbn. lia.
  - assert (Hrs : rs = map (consumed orders_0) orders_stored).
    { apply Hall; [repeat constructor; apply meeting_works|cbn; lia]. }
    split; [exact Hrs|]. rewrite Hrs in Hpos. exact Hpos.
Defined.

(** ** Commits *)

(** A consumer that is three records ahead of its group. *)
Definition ahead : Consumer :=
  mk_consumer (tail_config (Some "g"%string) false ReadUncommitted) {[orders_0 := mk_partition_consumer consumer 3 0]}
    (SegmentCache.new ∅ 1000) 0 0 ∅.

Lemma commit_then_restart_witness :
  let '(_, d', r) := commit no_failure (ensure_organization DEFAULT_ORG acme_db) ahead in
  r = Ok () /\ determine_start_offset (tail_config (Some "g"%string) true ReadCommitted) "orders" 0 None None d' = Ok 3.
Proof.
  pose proof (commit_then_restart "g" (ensure_organization DEFAULT_ORG acme_db) ahead eq_refl
    ltac:(apply (bool_decide_eq_true_1 _); by_computation)) as H.
  destruct (commit _ _ _) as [[c' d'] r]. destruct H as (Hr & _ & Hstart & _). split; [exact Hr|].
  apply (Hstart orders_0 (mk_partition_consumer consumer 3 0)); [reflexivity|cbn; lia|cbn; split; lia|reflexivity].
Defined.

(** ** Lost records *)

(** The store after [calls]. *)
Definition stored_world : world :=
  match PartitionWriter.new "acme" "orders" 0 default_write_config "data" [] opening acme with
  | Ok w => let '(_, wd, _, _) := run calls w acme in wd
  | _ => acme
  end.

Definition reads (c : Consumer) (now : Z) :=
  read_all (objects stored_world) (max_poll_records (config c)) (meeting stored_world now) (iter (readers c)) (readers c) (cn_cache c).

(** Two of the records are read, and the position is behind them. *)
Definition reads_two (c : Consumer) (now : Z) : bool :=
  let '(m, _, results) := reads c now in
  match collect ReadUncommitted (meeting stored_world now) results [] with
  | Ok rs => bool_decide (map cr_offset rs = [0; 1])
             && bool_decide ((fun pc => (current_offset pc, last_committed_offset pc)) <$> foldl advance m rs !! orders_0 = Some (2, 0))
  | _ => false
  end.

(** After six seconds. *)
Lemma no_group_drops_witness :
  exists c', poll (objects stored_world) (meeting stored_world (from_millis 6000)) (catalog stored_world) (tail None true ReadUncommitted)
             = (c', catalog stored_world, Err (ConfigError "commit requires group_id"))
    /\ pos c' orders_0 = Some 2.
Proof.
  set (c := tail None true ReadUncommitted). set (env := meeting stored_world (from_millis 6000)).
  assert (Hf : reads_two c (from_millis 6000) = true) by by_computation.
  unfold reads_two in Hf. destruct (reads c (from_millis 6000)) as [[m cache] results] eqn:Hread.
  fold env in Hf. destruct (collect ReadUncommitted env results []) as [rs|e|] eqn:Hcol; [|discriminate Hf..].
  apply andb_true_iff in Hf as [_ Hpos%bool_decide_eq_true_1].
  destruct (no_group_drops (objects stored_world) env (catalog stored_world) c m cache results rs Hread Hcol eq_refl eq_refl eq_refl
    ltac:(apply Z.leb_le; by_computation)) as (c' & Hp & Hr & _).
  exists c'. split; [exact Hp|]. unfold pos. rewrite Hr. destruct (foldl advance m rs !! orders_0) as [pc|]; [|discriminate Hpos].
  cbn in Hpos. injection Hpos as Hcur _. cbn. by rewrite Hcur.
Defined.

(** The organization of the topic is there, the default one is not. *)
Lemma commit_needs_default_org_witness :
  exists c', poll (objects stored_world) (meeting stored_world (from_millis 6000)) (catalog stored_world)
               (tail (Some "g"%string) true ReadUncommitted)
             = (c', catalog stored_world, Err (CMetadataError foreign_key_error))
    /\ pos c' orders_0 = Some 2.
Proof.
  set (c := tail (Some "g"%string) true ReadUncommitted). set (env := meeting stored_world (from_millis 6000)).
  assert (Hf : reads_two c (from_millis 6000) = true) by by_computation.
  unfold reads_two in Hf. destruct (reads c (from_millis 6000)) as [[m cache] results] eqn:Hread.
  fold env in Hf. destruct (collect ReadUncommitted env results []) as [rs|e|] eqn:Hcol; [|discriminate Hf..].
  apply andb_true_iff in Hf as [_ Hpos%bool_decide_eq_true_1].
  destruct (foldl advance m rs !! orders_0) as [pc|] eqn:Hpc; [|discriminate Hpos]. cbn in Hpos. injection Hpos as Hcur Hlast.
  destruct (commit_needs_default_org (objects stored_world) env (catalog stored_world) c m cache results rs "g" Hread Hcol
    eq_refl eq_refl eq_refl ltac:(apply Z.leb_le; by_computation)
    ltac:(apply (bool_decide_eq_true_1 _); by_computation) ltac:(apply (bool_decide_eq_true_1 _); by_computation)
    (fun _ => eq_refl)) as (c' & Hp & Hr & _).
  - exists orders_0, pc. split; [exact Hpc|]. rewrite Hcur, Hlast. lia.
  - exists c'. split; [exact Hp|]. unfold pos. rewrite Hr, Hpc. cbn. by rewrite Hcur.
Defined.

(** Nothing was ever produced in a transaction. *)
Lemma read_committed_withholds_witness :
  exists c' d', poll (objects stored_world) (meeting stored_world 1) (catalog stored_world) (tail None false ReadCommitted)
             = (c', d', Ok []) /\ pos c' orders_0 = Some 0.
Proof.
  set (c := tail None false ReadCommitted). set (env := meeting stored_world 1).
  assert (Hf : (let '(m, _, results) := reads c 1 in
    match results with
    | [(k, Ok result)] => bool_decide (k = orders_0) && bool_decide (map r_offset (rr_records result) = [0; 1])
                          && bool_decide (current_offset <$> m !! orders_0 = Some 0)
    | _ => false
    end && match poll (objects stored_world) env (catalog stored_world) c with (_, _, Ok _) => true | _ => false end) = true) by by_computation.
  destruct (reads c 1) as [[m cache] results] eqn:Hread.
  apply andb_true_iff in Hf as [Hres Hok].
  destruct (poll (objects stored_world) env (catalog stored_world) c) as [[c' d'] [rs|e|]] eqn:Hp; [|discriminate Hok..].
  destruct results as [|[k [result|e|]] [|]]; try discriminate Hres.
  apply andb_true_iff in Hres as [[->%bool_decide_eq_true_1 Hoff%bool_decide_eq_true_1]%andb_true_iff Hpos%bool_decide_eq_true_1].
  destruct (read_committed_withholds (objects stored_world) env (catalog stored_world) ProducerStore.empty_db c m cache
    [(orders_0, Ok result)] c' d' rs Hread) as [Hrs Hsame].
  - constructor; [|constructor]. cbn. rewrite <- (Forall_fmap r_offset (fun o => 0 <= o)). change (r_offset <$> _) with (map r_offset (rr_records result)).
    rewrite Hoff. repeat constructor; lia.
  - repeat constructor.
  - intros k. apply lookup_empty.
  - reflexivity.
  - reflexivity.
  - reflexivity.
  - exact Hp.
  - exists c', d'. rewrite Hrs. split; [reflexivity|]. rewrite Hsame. exact Hpos.
Defined.

Definition order_schema : ClientSchema := mk_client_schema 258 "orders-value" 1 "{}".

Lemma schema_payload_roundtrip_witness :
  let env := mk_poll_env (fun _ => working acme) (fun _ => Ok None) (fun _ => false) (fun _ => Ok 0)
               (fun _ => Ok order_schema) 0 0 0 (fun _ => None) in
  snd (resolve_schema env ∅ (mk_consumed "orders" 0 7 10 None [Init.Byte.x00; Init.Byte.x00; Init.Byte.x00; Init.Byte.x01; Init.Byte.x02; Init.Byte.x41] None None))
  = mk_consumed "orders" 0 7 10 None [Init.Byte.x41] (Some 258) (Some order_schema).
Proof.
  cbv zeta. set (env := mk_poll_env _ _ _ _ _ _ _ _ _).
  pose proof (schema_payload_roundtrip env ∅ order_schema 258 [Init.Byte.x41] "orders" 0 7 10 None ltac:(unfold in_i; lia) eq_refl) as H.
  exact (f_equal snd H).
Defined.
