(* ===== verification/Watermark.v ===== *)
(** * Watermarks of the stream processing (crates/streamhouse-sql/src/watermark.rs)

    How far event time has come in each partition, and which events are late.  Durations and
    instants are nanoseconds, event times milliseconds; the clock is an argument. *)

From S2P Require Import Prelude HashMap.

Record WatermarkConfig : Type := mk_watermark_config {
  max_out_of_orderness : Z;
  idle_timeout : Z;
  watermark_interval : Z
}.

Definition default_watermark_config : WatermarkConfig := mk_watermark_config 5000000000 60000000000 1000000000.

Record PartitionWatermark : Type := mk_watermark {
  pw_topic : string;
  pw_partition : Z;
  current_watermark : Z;
  max_timestamp_seen : Z;
  last_event_time : Z;
  is_idle : bool;
  late_events_dropped : Z
}.

(** [i64::MIN]. *)
Definition I64_MIN : Z := - 2 ^ 63.

Definition new_watermark (topic : string) (partition now : Z) : PartitionWatermark :=
  mk_watermark topic partition I64_MIN I64_MIN now false 0.

Inductive EventTimeResult : Type := OnTime | Late | TooLate.

#[export] Instance EventTimeResult_eq_dec : EqDecision EventTimeResult.
Proof. solve_decision. Defined.

Abbreviation partition_key := (string * Z)%type.
Abbreviation tracker := (gmap partition_key PartitionWatermark).

(** [as_millis() as i64]. *)
Definition allowed_ms (cfg : WatermarkConfig) : Z := swrap 64 (max_out_of_orderness cfg / 1000000).

Definition classify_event (cfg : WatermarkConfig) (pw : PartitionWatermark) (event_timestamp_ms : Z) : EventTimeResult :=
  if current_watermark pw =? I64_MIN then OnTime
  else if current_watermark pw <=? event_timestamp_ms then OnTime
  else
    let lateness := swrap 64 (current_watermark pw - event_timestamp_ms) in
    if lateness <=? allowed_ms cfg then Late else TooLate.

Definition update_watermark (cfg : WatermarkConfig) (topic : string) (partition event_timestamp_ms now : Z) (m : tracker)
  : tracker * EventTimeResult :=
  let pw := default (new_watermark topic partition now) (m !! (topic, partition)) in
  let result := classify_event cfg pw event_timestamp_ms in
  let max_seen := if max_timestamp_seen pw <? event_timestamp_ms then event_timestamp_ms else max_timestamp_seen pw in
  let new_watermark := swrap 64 (max_seen - allowed_ms cfg) in
  let watermark := if current_watermark pw <? new_watermark then new_watermark else current_watermark pw in
  let dropped := if bool_decide (result = TooLate) then wrap 64 (late_events_dropped pw + 1) else late_events_dropped pw in
  (<[(topic, partition) := mk_watermark (pw_topic pw) (pw_partition pw) watermark max_seen now false dropped]> m, result).

Definition check_event_time (cfg : WatermarkConfig) (topic : string) (partition event_timestamp_ms : Z) (m : tracker) : EventTimeResult :=
  match m !! (topic, partition) with
  | None => OnTime
  | Some pw => classify_event cfg pw event_timestamp_ms
  end.

Section tracker.
Context `{HashOrder}.

Definition get_global_watermark (m : tracker) : option Z :=
  match map current_watermark (List.filter (fun pw => negb (is_idle pw)) (map snd (iter m))) with
  | [] => None
  | wm :: wms => Some (foldl Z.min wm wms)
  end.

(** The two halves of [advance_idle_watermarks]: the global watermark, under the lock of a
    reader, and the pass over the partitions, under the lock of a writer. *)
Definition idle_read (m : tracker) : option Z := get_global_watermark m.

Definition mark_idle (cfg : WatermarkConfig) (global_wm now : Z) (pw : PartitionWatermark) : PartitionWatermark :=
  if is_idle pw then pw
  else if idle_timeout cfg <? sat_sub now (last_event_time pw) then
    mk_watermark (pw_topic pw) (pw_partition pw)
      (if current_watermark pw <? global_wm then global_wm else current_watermark pw)
      (max_timestamp_seen pw) (last_event_time pw) true (late_events_dropped pw)
  else pw.

(** [now]: the clock at each of the partitions. *)
Definition idle_mark (cfg : WatermarkConfig) (global_wm : Z) (now : partition_key -> Z) (m : tracker) : tracker * Z :=
  (map_imap (fun k pw => Some (mark_idle cfg global_wm (now k) pw)) m,
   wrap 32 (Z.of_nat (length (List.filter (fun e => negb (is_idle e.2) && is_idle (mark_idle cfg global_wm (now e.1) e.2)) (iter m))))).

Definition advance_idle_watermarks (cfg : WatermarkConfig) (now : partition_key -> Z) (m : tracker) : tracker * Z :=
  match idle_read m with
  | None => (m, 0)
  | Some global_wm => idle_mark cfg global_wm now m
  end.

(** ** The global watermark *)

Lemma min_of_watermarks (l : list Z) a : let g := foldl Z.min a l in g ∈ a :: l /\ Forall (fun x => g <= x) (a :: l).
Proof.
  revert a. induction l as [|b l IH]; intros a; cbn; [split; [by left|repeat constructor; lia]|].
  destruct (IH (Z.min a b)) as [Hin Hle]. inversion Hle as [|? ? Hm Hl]; subst. split.
  - apply elem_of_cons in Hin as [-> |Hin]; [|by right; right].
    destruct (Z.min_spec a b) as [[_ ->]|[_ ->]]; [by left|right; by left].
  - constructor; [lia|]. constructor; [lia|done].
Qed.

Definition active (m : tracker) (k : partition_key) (pw : PartitionWatermark) : Prop := m !! k = Some pw /\ is_idle pw = false.

Lemma global_spec m :
  match get_global_watermark m with
  | Some g => (exists k pw, active m k pw /\ current_watermark pw = g) /\ forall k pw, active m k pw -> g <= current_watermark pw
  | None => forall k pw, ~ active m k pw
  end.
Proof.
  unfold get_global_watermark.
  assert (Hin : forall wm, wm ∈ map current_watermark (List.filter (fun pw => negb (is_idle pw)) (map snd (iter m)))
                <-> exists k pw, active m k pw /\ current_watermark pw = wm).
  { intros wm. rewrite list_elem_of_fmap. split.
    - intros (pw & -> & Hpw). apply list_elem_of_In, filter_In in Hpw as [Hpw Hidle%negb_true_iff].
      apply list_elem_of_In, elem_of_values in Hpw as [k Hk]. by exists k, pw.
    - intros (k & pw & [Hk Hi] & <-). exists pw. split; [done|]. apply list_elem_of_In, filter_In.
      split; [|by rewrite Hi]. apply list_elem_of_In, elem_of_values. by exists k. }
  destruct (map _ _) as [|wm wms].
  - intros k pw Hk. assert (current_watermark pw ∈ []) by (apply Hin; by exists k, pw). by eapply not_elem_of_nil.
  - destruct (min_of_watermarks wms wm) as [Hg Hle]. split; [by apply Hin|]. intros k pw Hk.
    rewrite Forall_forall in Hle. apply Hle, Hin. by exists k, pw.
Qed.
End tracker.

(** ** Runs of the tracker *)

(** The largest of some timestamps. *)
Definition latest (l : list Z) : option Z := match l with [] => None | a :: l => Some (foldl Z.max a l) end.

Lemma latest_time_snoc l a : latest (l ++ [a]) = Some (match latest l with Some m => Z.max m a | None => a end).
Proof. destruct l as [|b l]; [done|]. cbn. by rewrite foldl_app. Qed.

Section run.
Context `{HashOrder} (cfg : WatermarkConfig).
Let allowed := allowed_ms cfg.

(** Events of any partition; a pass over the idle partitions between whose halves they can come. *)
Inductive event : Type :=
| EUpdate (k : partition_key) (timestamp now : Z)
| EIdleRead (now : Z)
| EIdleMark (now : partition_key -> Z).

(** The tracker, the global watermark and the time of a pass that is under way, the events
    so far and what was answered to each. *)
Record sys : Type := mk_sys {
  marks : tracker;
  passing : option (Z * Z);
  observed : list (partition_key * Z);
  answers : list EventTimeResult
}.

Definition step (x : sys) (e : event) : sys :=
  match e with
  | EUpdate k timestamp now =>
      let '(m, r) := update_watermark cfg k.1 k.2 timestamp now (marks x) in
      mk_sys m (passing x) (observed x ++ [(k, timestamp)]) (answers x ++ [r])
  | EIdleRead now => mk_sys (marks x) ((., now) <$> idle_read (marks x)) (observed x) (answers x)
  | EIdleMark now =>
      match passing x with
      | Some (g, _) => mk_sys (fst (idle_mark cfg g now (marks x))) None (observed x) (answers x)
      | None => x
      end
  end.

Definition run (es : list event) : sys := foldl step (mk_sys ∅ None [] []) es.

(** Timestamps that are far from the ends of an [i64], a clock that does not go back, and a
    pass that does not take longer than the idle timeout. *)
Definition event_ok (x : sys) (e : event) : Prop :=
  match e with
  | EUpdate _ timestamp now => - 2 ^ 61 < timestamp < 2 ^ 61 /\ forall g start, passing x = Some (g, start) -> start <= now
  | EIdleRead _ => True
  | EIdleMark now => forall g start k, passing x = Some (g, start) -> now k <= start + idle_timeout cfg
  end.

Fixpoint events_ok (x : sys) (es : list event) : Prop :=
  match es with [] => True | e :: es => event_ok x e /\ events_ok (step x e) es end.

(** The timestamps of a partition, and the answer that an event is due. *)
Definition times (k : partition_key) (l : list (partition_key * Z)) : list Z := map snd (filter (fun e => e.1 = k) l).

Definition due (before : option Z) (timestamp : Z) : EventTimeResult :=
  match before with
  | None => OnTime
  | Some m => if m - allowed <=? timestamp then OnTime else if m - 2 * allowed <=? timestamp then Late else TooLate
  end.

(** The answers that are due to some events. *)
Fixpoint due_all (before l : list (partition_key * Z)) : list (partition_key * EventTimeResult) :=
  match l with
  | [] => []
  | (k, timestamp) :: l => (k, due (latest (times k before)) timestamp) :: due_all (before ++ [(k, timestamp)]) l
  end.

Definition too_late (k : partition_key) (l : list (partition_key * Z)) : nat :=
  length (filter (fun e => e.1 = k /\ e.2 = TooLate) (due_all [] l)).

Lemma due_all_app before l l' : due_all before (l ++ l') = due_all before l ++ due_all (before ++ l) l'.
Proof.
  revert before. induction l as [|[k t] l IH]; intros before; cbn; [by rewrite app_nil_r|]. by rewrite IH, <- app_assoc.
Qed.

Lemma times_snoc k l k' t : times k (l ++ [(k', t)]) = times k l ++ (if decide (k' = k) then [t] else []).
Proof. unfold times. rewrite filter_app, map_app, filter_cons, filter_nil. cbn. by case_decide. Qed.

Record inv (x : sys) : Prop := {
  iv_marks k : match marks x !! k with
               | None => times k (observed x) = []
               | Some pw => exists m, latest (times k (observed x)) = Some m /\ - 2 ^ 61 < m < 2 ^ 61 /\ max_timestamp_seen pw = m
                   /\ current_watermark pw = m - allowed /\ late_events_dropped pw = wrap 64 (Z.of_nat (too_late k (observed x)))
               end;
  iv_answers : answers x = map snd (due_all [] (observed x));
  iv_passing g start : passing x = Some (g, start) ->
    forall k pw, active (marks x) k pw -> g <= current_watermark pw \/ start <= last_event_time pw
}.

Context (Hallowed : 0 <= allowed < 2 ^ 61).

Lemma classify_due pw m timestamp :
  - 2 ^ 61 < timestamp < 2 ^ 61 -> - 2 ^ 61 < m < 2 ^ 61 -> current_watermark pw = m - allowed ->
  classify_event cfg pw timestamp = due (Some m) timestamp.
Proof.
  intros Ht Hm Hc. unfold classify_event, due. rewrite Hc. fold allowed. unfold I64_MIN.
  destruct (Z.eqb_spec (m - allowed) (- 2 ^ 63)); [lia|]. destruct (Z.leb_spec (m - allowed) timestamp); [done|].
  rewrite swrap_small by (unfold in_i; lia).
  destruct (Z.leb_spec (m - allowed - timestamp) allowed), (Z.leb_spec (m - 2 * allowed) timestamp); done || lia.
Qed.

Lemma classify_first topic partition now timestamp : classify_event cfg (new_watermark topic partition now) timestamp = OnTime.
Proof. done. Qed.

(** What an event does to the watermark of its partition. *)
Lemma update_spec k l timestamp now m :
  - 2 ^ 61 < timestamp < 2 ^ 61 ->
  match m !! k with
  | None => times k l = []
  | Some pw => exists mx, latest (times k l) = Some mx /\ - 2 ^ 61 < mx < 2 ^ 61 /\ max_timestamp_seen pw = mx
      /\ current_watermark pw = mx - allowed /\ late_events_dropped pw = wrap 64 (Z.of_nat (too_late k l))
  end ->
  let r := due (latest (times k l)) timestamp in
  exists pw, update_watermark cfg k.1 k.2 timestamp now m = (<[k := pw]> m, r)
    /\ is_idle pw = false /\ last_event_time pw = now /\ (forall old, m !! k = Some old -> current_watermark old <= current_watermark pw)
    /\ exists mx, latest (times k (l ++ [(k, timestamp)])) = Some mx /\ - 2 ^ 61 < mx < 2 ^ 61 /\ max_timestamp_seen pw = mx
       /\ current_watermark pw = mx - allowed /\ late_events_dropped pw = wrap 64 (Z.of_nat (too_late k (l ++ [(k, timestamp)]))).
Proof.
  intros Ht Hpre r. unfold update_watermark. rewrite <- surjective_pairing. fold allowed.
  set (pw0 := default _ _). set (result := classify_event cfg pw0 timestamp).
  assert (Hr : result = r).
  { unfold result, pw0, r. destruct (m !! k) as [pw|]; cbn [default from_option id].
    - destruct Hpre as (mx & -> & Hmx & _ & Hc & _). by apply classify_due.
    - rewrite Hpre. apply classify_first. }
  set (mx := match latest (times k l) with Some mx => Z.max mx timestamp | None => timestamp end).
  assert (Hmax : (if max_timestamp_seen pw0 <? timestamp then timestamp else max_timestamp_seen pw0) = mx /\ - 2 ^ 61 < mx < 2 ^ 61).
  { unfold mx, pw0. destruct (m !! k) as [pw|]; cbn [default from_option id].
    - destruct Hpre as (mx0 & -> & Hmx & -> & _). destruct (Z.ltb_spec mx0 timestamp); lia.
    - rewrite Hpre. cbn. unfold I64_MIN. destruct (Z.ltb_spec (- 2 ^ 63) timestamp); lia. }
  destruct Hmax as [Hmax Hmx]. rewrite Hmax. rewrite swrap_small by (unfold in_i; lia).
  assert (Hwm : (if current_watermark pw0 <? mx - allowed then mx - allowed else current_watermark pw0) = mx - allowed).
  { destruct (Z.ltb_spec (current_watermark pw0) (mx - allowed)) as [|Hge]; [done|]. unfold mx, pw0 in Hge |- *.
    destruct (m !! k) as [pw|]; cbn [default from_option id] in *.
    - destruct Hpre as (mx0 & He & _ & _ & Hc & _). rewrite He in Hge |- *. rewrite Hc in Hge |- *. lia.
    - rewrite Hpre in Hge. cbn in Hge. unfold I64_MIN in Hge. lia. }
  rewrite Hwm. eexists. split; [by rewrite Hr|]. split; [done|]. split; [done|]. split.
  { intros old Hold. rewrite Hold in Hpre. destruct Hpre as (mx0 & He & _ & _ & -> & _). unfold mx. rewrite He. cbn [current_watermark]. lia. }
  exists mx. cbn [max_timestamp_seen current_watermark late_events_dropped]. rewrite times_snoc, decide_True, latest_time_snoc by done.
  split; [done|]. split; [done|]. split; [done|]. split; [done|].
  assert (Hcount : too_late k (l ++ [(k, timestamp)]) = (too_late k l + if decide (r = TooLate) then 1 else 0)%nat).
  { unfold too_late. rewrite due_all_app, filter_app, length_app. f_equal. cbn [due_all app]. fold r. rewrite filter_cons, filter_nil. cbn [fst snd].
    destruct (decide (r = TooLate)); [rewrite decide_True by done|rewrite decide_False by (intros [_ ?]; done)]; done. }
  rewrite Hcount, Hr. assert (Hold : late_events_dropped pw0 = wrap 64 (Z.of_nat (too_late k l))).
  { unfold pw0. destruct (m !! k) as [pw|]; cbn [default from_option id]; [by destruct Hpre as (? & _ & _ & _ & _ & ->)|].
    cbn. unfold too_late. replace (filter _ _) with (@nil (partition_key * EventTimeResult)); [done|]. symmetry. apply filter_none.
    assert (Hnone : forall before l, times k l = [] -> forall e, e ∈ due_all before l -> e.1 <> k).
    { clear. intros before l. revert before. induction l as [|[k' t] l IH]; intros before; cbn [due_all]; [intros _ e He; by apply elem_of_nil in He|].
      unfold times. rewrite filter_cons. cbn [fst]. case_decide as Hk; [done|]. intros Hl e [-> |He]%elem_of_cons; [done|]. by apply (IH _ Hl e He). }
    intros e He [Hk _]. by apply (Hnone [] l Hpre e He). }
  case_bool_decide; (rewrite ?decide_True by done; rewrite ?decide_False by done); rewrite Hold.
  - unfold wrap. rewrite Nat2Z.inj_add, Zplus_mod_idemp_l. done.
  - by rewrite Nat.add_0_r.
Qed.

Lemma too_late_other k k' timestamp l : k' <> k -> too_late k (l ++ [(k', timestamp)]) = too_late k l.
Proof.
  intros Hne. unfold too_late. rewrite due_all_app, filter_app, length_app. cbn [due_all]. rewrite filter_cons, filter_nil. cbn [fst].
  rewrite decide_False by (by intros [-> _]). cbn. lia.
Qed.

Lemma mark_idle_same g now pw :
  0 <= idle_timeout cfg ->
  g <= current_watermark pw \/ is_idle pw = true \/ now <= last_event_time pw + idle_timeout cfg ->
  let pw' := mark_idle cfg g now pw in
  current_watermark pw' = current_watermark pw /\ max_timestamp_seen pw' = max_timestamp_seen pw
  /\ late_events_dropped pw' = late_events_dropped pw /\ last_event_time pw' = last_event_time pw
  /\ (is_idle pw' = false -> is_idle pw = false).
Proof.
  intros Hto Hg. unfold mark_idle. cbv zeta. destruct (is_idle pw) eqn:Hi; [by rewrite Hi|].
  destruct (Z.ltb_spec (idle_timeout cfg) (sat_sub now (last_event_time pw))) as [Hlt|]; [|done]. cbn.
  split; [|done]. unfold sat_sub in Hlt. destruct (Z.ltb_spec (current_watermark pw) g); [|done]. destruct Hg as [|[|]]; [lia|done|].
  exfalso. lia.
Qed.

Lemma inv_event x e : 0 <= idle_timeout cfg -> inv x -> event_ok x e -> inv (step x e).
Proof.
  intros Hto [Hm Ha Hp]. destruct e as [k timestamp now|now|now]; cbn [step event_ok].
  - intros [Ht Hclock]. destruct (update_spec k (observed x) timestamp now (marks x) Ht (Hm k))
      as (pw & Hu & Hactive & Hlast & Hgrow & Hspec).
    rewrite Hu. split; cbn [marks observed answers passing].
    + intros k'. destruct (decide (k' = k)) as [-> |Hne].
      * rewrite lookup_insert_eq. exact Hspec.
      * rewrite lookup_insert_ne by done. rewrite times_snoc, decide_False, app_nil_r by done.
        rewrite too_late_other by done. apply Hm.
    + rewrite due_all_app, map_app, <- Ha. done.
    + intros g start Hpass k' pw' [Hk' Hi']. destruct (decide (k' = k)) as [-> |Hne].
      * rewrite lookup_insert_eq in Hk'. injection Hk' as <-. right. rewrite Hlast. by apply (Hclock g).
      * rewrite lookup_insert_ne in Hk' by done. by apply (Hp g start Hpass k').
  - intros _. split; [exact Hm|exact Ha|]. cbn [marks passing]. intros g start Hpass k pw Hk. left.
    unfold idle_read in Hpass. pose proof (global_spec (marks x)) as Hg.
    destruct (get_global_watermark (marks x)) as [g'|]; [|done]. injection Hpass as <- _. by apply (proj2 Hg k).
  - intros Hnow. destruct (passing x) as [[g start]|] eqn:Hpass; [|by split; [..|rewrite Hpass]].
    assert (Hsame : forall k pw, marks x !! k = Some pw -> let pw' := mark_idle cfg g (now k) pw in
      current_watermark pw' = current_watermark pw /\ max_timestamp_seen pw' = max_timestamp_seen pw
      /\ late_events_dropped pw' = late_events_dropped pw /\ last_event_time pw' = last_event_time pw
      /\ (is_idle pw' = false -> is_idle pw = false)).
    { intros k pw Hk. apply mark_idle_same; [done|]. destruct (is_idle pw) eqn:Hi; [by right; left|].
      destruct (Hp g start eq_refl k pw (conj Hk Hi)) as [|Hlast]; [by left|]. right. right.
      specialize (Hnow g start k eq_refl). lia. }
    split; cbn [marks observed answers passing idle_mark fst]; [|exact Ha|done].
    intros k. rewrite map_lookup_imap. specialize (Hm k). destruct (marks x !! k) as [pw|] eqn:Hk; [|done].
    cbn [mbind option_bind]. destruct (Hsame k pw Hk) as (-> & -> & -> & _ & _). exact Hm.
Qed.

Lemma inv_events es x : 0 <= idle_timeout cfg -> inv x -> events_ok x es -> inv (foldl step x es).
Proof.
  intros Hto. revert x. induction es as [|e es IH]; intros x HI Hes; [done|]. destruct Hes as [He Hes].
  cbn. apply IH; [by apply inv_event|done].
Qed.
End run.

(** The passes over idle partitions advance nothing.  After any events of any partitions and any passes over the
    idle ones (with a clock that does not go back, and no pass that takes longer than the idle timeout), the watermark of a partition is the
    largest timestamp that it saw less the allowed delay; every event was answered by how far it lay behind the largest timestamp before it, the
    events that were too late are counted, and the global watermark is the least one of the partitions that are
    not idle.  The passes are meant to lift idle partitions to the global watermark: that one is the least of a set which contains theirs. *)
Theorem passes_advance_nothing `{HashOrder} cfg es :
  0 <= allowed_ms cfg < 2 ^ 61 -> 0 <= idle_timeout cfg -> events_ok cfg (mk_sys ∅ None [] []) es ->
  let x := run cfg es in
  answers x = map snd (due_all cfg [] (observed x))
  /\ (forall k, match marks x !! k with
                | None => times k (observed x) = []
                | Some pw => exists m, latest (times k (observed x)) = Some m /\ max_timestamp_seen pw = m
                    /\ current_watermark pw = m - allowed_ms cfg
                    /\ late_events_dropped pw = wrap 64 (Z.of_nat (too_late cfg k (observed x)))
                end)
  /\ match get_global_watermark (marks x) with
     | Some g => (exists k pw, active (marks x) k pw /\ current_watermark pw = g)
                 /\ forall k pw, active (marks x) k pw -> g <= current_watermark pw
     | None => forall k pw, ~ active (marks x) k pw
     end.
Proof.
  intros Ha Hto Hes x. destruct (inv_events cfg Ha es (mk_sys ∅ None [] []) Hto ltac:(by split) Hes) as [Hm Hans _].
  split; [exact Hans|]. split; [|apply global_spec]. intros k. specialize (Hm k). fold (run cfg es) in Hm. fold x in Hm.
  destruct (marks x !! k); [|done]. destruct Hm as (m & H1 & _ & H2 & H3 & H4). by exists m.
Qed.

Section updates.
Context `{HashOrder} (cfg : WatermarkConfig) (Ha : 0 <= allowed_ms cfg < 2 ^ 61) (Hto : 0 <= idle_timeout cfg).

(** Events of partitions, with the clock, and no passes. *)
Definition updates (es : list (partition_key * Z * Z)) : list event := map (fun e => EUpdate e.1.1 e.1.2 e.2) es.

Lemma updates_run es :
  Forall (fun e => - 2 ^ 61 < e.1.2 < 2 ^ 61) es ->
  let x := run cfg (updates es) in
  inv cfg x /\ passing x = None /\ observed x = map fst es /\ forall k pw, marks x !! k = Some pw -> is_idle pw = false.
Proof.
  induction es as [|e es IH] using rev_ind; intros Hes; [split; [by split|by split_and!]|].
  apply Forall_app in Hes as [Hes He]. apply Forall_inv in He. destruct (IH Hes) as (HI & Hp & Ho & Hidle).
  unfold updates, run in *. rewrite map_app, foldl_app. cbn [map foldl]. set (x := foldl _ _ _) in *. destruct e as [[k timestamp] now]. cbn [fst snd] in *.
  destruct (update_spec cfg Ha k (observed x) timestamp now (marks x) He (iv_marks _ _ HI k)) as (pw & Hu & Hactive & _).
  split; [|split; [|split]].
  - apply inv_event; [done..|]. split; [done|]. by rewrite Hp.
  - unfold step. by rewrite Hu.
  - unfold step. rewrite Hu. cbn [observed]. by rewrite Ho, map_app.
  - intros k' pw'. unfold step. rewrite Hu. cbn [marks]. intros [[<- <-]|[_ Hk]]%lookup_insert_Some; [done|by eapply Hidle].
Qed.
End updates.

(** C15: watermarks follow the largest timestamps.  After any events of any partitions, the watermark of a partition is the largest timestamp
    that it saw less the allowed delay; every event was answered by how far it lay behind the largest timestamp of its partition before it, and the events that
    were too late are counted; and the global watermark is the least one of the partitions.  Timestamps are far from the ends of an [i64], and there is no pass
    over idle partitions (those are the subject of [passes_advance_nothing]). *)
Theorem watermark_spec `{HashOrder} cfg es :
  0 <= allowed_ms cfg < 2 ^ 61 -> 0 <= idle_timeout cfg -> Forall (fun e : partition_key * Z * Z => - 2 ^ 61 < e.1.2 < 2 ^ 61) es ->
  let x := run cfg (updates es) in
  let seen := map fst es in
  answers x = map snd (due_all cfg [] seen)
  /\ (forall k, match latest (times k seen) with
                | None => marks x !! k = None
                | Some m => exists pw, marks x !! k = Some pw /\ max_timestamp_seen pw = m /\ current_watermark pw = m - allowed_ms cfg
                    /\ late_events_dropped pw = wrap 64 (Z.of_nat (too_late cfg k seen))
                end)
  /\ match get_global_watermark (marks x) with
     | Some g => (exists k m, latest (times k seen) = Some m /\ g = m - allowed_ms cfg)
                 /\ forall k m, latest (times k seen) = Some m -> g <= m - allowed_ms cfg
     | None => es = []
     end.
Proof.
  intros Ha Hto Hes x seen. destruct (updates_run cfg Ha Hto es Hes) as ([Hm Hans _] & _ & Ho & Hidle). fold x in Hm, Hans, Ho, Hidle. fold seen in Ho.
  rewrite Ho in Hans, Hm.
  assert (Hk : forall k, match latest (times k seen) with
    | None => marks x !! k = None
    | Some m => exists pw, marks x !! k = Some pw /\ max_timestamp_seen pw = m /\ current_watermark pw = m - allowed_ms cfg
        /\ late_events_dropped pw = wrap 64 (Z.of_nat (too_late cfg k seen))
    end).
  { intros k. specialize (Hm k). destruct (marks x !! k) as [pw|]; [|by rewrite Hm].
    destruct Hm as (m & -> & _ & H1 & H2 & H3). by exists pw. }
  split; [done|]. split; [done|]. pose proof (global_spec (marks x)) as Hg. destruct (get_global_watermark (marks x)) as [g|].
  - destruct Hg as [(k & pw & [Hpw _] & <-) Hleast]. split.
    + exists k. specialize (Hk k). destruct (latest (times k seen)) as [m|]; [|congruence]. exists m. split; [done|].
      destruct Hk as (pw' & Hpw' & _ & <- & _). congruence.
    + intros k' m Hlat. specialize (Hk k'). rewrite Hlat in Hk. destruct Hk as (pw' & Hpw' & _ & <- & _).
      apply (Hleast k' pw'). split; [done|by eapply Hidle].
  - destruct es as [|[[k timestamp] now] es]; [done|]. exfalso. specialize (Hk k).
    destruct (latest (times k seen)) as [m|] eqn:Hlat.
    + destruct Hk as (pw & Hpw & _). apply (Hg k pw). split; [done|by eapply Hidle].
    + unfold seen, times in Hlat. cbn [map fst] in Hlat. rewrite filter_cons_True in Hlat by done. done.
Qed.

Lemma watermark_spec_witness :
  let es := [(("t"%string, 0), 100000, 0); (("t"%string, 1), 900000, 70); (("t"%string, 0), 99000, 80); (("t"%string, 0), 80000, 90)] in
  let x := run default_watermark_config (updates es) in
  answers x = [OnTime; OnTime; OnTime; TooLate] /\ get_global_watermark (marks x) = Some 95000.
Proof.
  cbv zeta. destruct (watermark_spec default_watermark_config
    [(("t"%string, 0), 100000, 0); (("t"%string, 1), 900000, 70); (("t"%string, 0), 99000, 80); (("t"%string, 0), 80000, 90)]) as (Hans & _ & _).
  - vm_compute. split; congruence.
  - vm_compute. congruence.
  - repeat (constructor; [cbn; lia|]). constructor.
  - split; [rewrite Hans; vm_compute; reflexivity|vm_compute; reflexivity].
Defined.

(** The passes do not keep the global watermark from falling back: a partition that was idle
    returns with the watermark that it had. *)
Definition idle_returns : list event :=
  [EUpdate ("t"%string, 0) 100000 0; EUpdate ("t"%string, 1) 900000 (70 * 10 ^ 9); EIdleRead (70 * 10 ^ 9);
   EIdleMark (fun _ => 71 * 10 ^ 9)].

Lemma passes_advance_nothing_witness :
  let x := run default_watermark_config idle_returns in
  (answers x = [OnTime; OnTime] /\ get_global_watermark (marks x) = Some 895000)
  /\ get_global_watermark (marks (step default_watermark_config x (EUpdate ("t"%string, 0) 99000 (72 * 10 ^ 9)))) = Some 95000.
Proof.
  cbv zeta. destruct (passes_advance_nothing default_watermark_config idle_returns) as (Hans & _ & _).
  - vm_compute. split; congruence.
  - vm_compute. congruence.
  - cbn [events_ok event_ok idle_returns]. repeat split; try lia; intros;
      match goal with Hp : passing _ = Some _ |- _ => vm_compute in Hp; (discriminate Hp || (injection Hp as <- <-; vm_compute; discriminate)) end.
  - split; [split; [rewrite Hans; vm_compute; reflexivity|vm_compute; reflexivity]|vm_compute; reflexivity].
Defined.
