(* ===== verification/Operators.v ===== *)
(** * The operators of the stream processing (crates/streamhouse-sql/src/operators.rs)

    Filters, projections, aggregates of time windows, joins of two streams, and chains of
    them.  Values are JSON texts, behind an interface; the clock is an argument. *)

From S2P Require Import Prelude HashMap SchemaTypes SchemaCompat Float Watermark.

(** What is used of [serde_json] beside [JsonLib]. *)
Class JsonBytes `{JsonLib} : Type := {
  from_slice : bytes -> string + json json_number;
  to_vec : json json_number -> bytes;
  as_f64 : json_number -> option f64;
  number_of_f64 : f64 -> json_number;
  number_of_int : Z -> json_number
}.

(** The errors that the operators return. *)
Inductive SqlError : Type := ExecutionError (m : string).

Record StreamRecord : Type := mk_stream_record {
  st_key : option bytes;
  st_value : bytes;
  st_timestamp : Z;
  st_partition : Z;
  st_offset : Z;
  st_headers : gmap string string
}.

Definition new_record (value : bytes) (timestamp : Z) : StreamRecord := mk_stream_record None value timestamp 0 0 ∅.

Section operators.
Context `{HJ : JsonLib} `{HB : !JsonBytes} `{HH : HashOrder}.

Abbreviation value := (json json_number).

(** ** JSON *)

(** [Value::get] of a name. *)
Definition field (name : string) (v : value) : option value :=
  match v with JObject fields => get name fields | _ => None end.

Definition value_f64 (v : value) : option f64 := match v with JNumber n => as_f64 n | _ => None end.

(** [Map::insert], in the order of the names. *)
Fixpoint object_insert (name : string) (v : value) (fields : list (string * value)) : list (string * value) :=
  match fields with
  | [] => [(name, v)]
  | (l, u) :: fields =>
      match String.compare name l with
      | Eq => (l, v) :: fields
      | Lt => (name, v) :: (l, u) :: fields
      | Gt => (l, u) :: object_insert name v fields
      end
  end.

(** [json!] of some entries, and of numbers; an [f64] that is not finite is null. *)
Definition json_object (entries : list (string * value)) : value :=
  JObject (foldl (fun fields e => object_insert e.1 e.2 fields) [] entries).
Definition json_f64 (x : f64) : value := if is_finite x then JNumber (number_of_f64 x) else JNull.
Definition json_int (n : Z) : value := JNumber (number_of_int n).

Definition parse (what : string) (data : bytes) : outcome SqlError value :=
  match from_slice data with
  | inr v => Ok v
  | inl e => Err (ExecutionError ("failed to parse " +:+ what +:+ " as JSON: " +:+ e))
  end.

(** ** Filters and projections *)

Inductive FilterPredicate : Type :=
| PEquals (name : string) (v : value)
| PGreaterThan (name : string) (v : value)
| PLessThan (name : string) (v : value)
| PContains (name substring : string)
| PAnd (p q : FilterPredicate)
| POr (p q : FilterPredicate)
| PNot (inner : FilterPredicate).

Fixpoint evaluate (p : FilterPredicate) (v : value) : bool :=
  match p with
  | PEquals name u => match field name v with Some w => json_eqb w u | None => false end
  | PGreaterThan name u =>
      match field name v ≫= value_f64, value_f64 u with Some a, Some b => f64_lt b a | _, _ => false end
  | PLessThan name u =>
      match field name v ≫= value_f64, value_f64 u with Some a, Some b => f64_lt a b | _, _ => false end
  | PContains name substring =>
      match field name v ≫= as_str with Some s => str_contains substring s | None => false end
  | PAnd p q => evaluate p v && evaluate q v
  | POr p q => evaluate p v || evaluate q v
  | PNot inner => negb (evaluate inner v)
  end.

Definition filter_process (predicate : FilterPredicate) (record : StreamRecord) : outcome SqlError (list StreamRecord) :=
  v ← parse "record" (st_value record); Ok (if evaluate predicate v then [record] else []).

Record FieldProjection : Type := mk_projection { pj_source : string; pj_target : option string }.

Definition project (projections : list FieldProjection) (v : value) : value :=
  JObject (foldl (fun fields p =>
    match field (pj_source p) v with
    | Some u => object_insert (default (pj_source p) (pj_target p)) u fields
    | None => fields
    end) [] projections).

Definition set_value (data : bytes) (r : StreamRecord) : StreamRecord :=
  mk_stream_record (st_key r) data (st_timestamp r) (st_partition r) (st_offset r) (st_headers r).

Definition project_process (projections : list FieldProjection) (record : StreamRecord) : outcome SqlError (list StreamRecord) :=
  v ← parse "record" (st_value record); Ok [set_value (to_vec (project projections v)) record].

(** ** Windows *)

Inductive WindowType : Type :=
| Tumble (size_ms : Z)
| Hop (size_ms slide_ms : Z)
| SessionWindow (gap_ms : Z).

Inductive AggregateFunction : Type :=
| Count | Sum (name : string) | Avg (name : string) | MinOf (name : string) | MaxOf (name : string).

Record WindowAccumulator : Type := mk_accumulator { wa_count : Z; wa_sum : f64; wa_min : option f64; wa_max : option f64 }.
Definition no_records : WindowAccumulator := mk_accumulator 0 (S754_zero false) None None.

Record WindowAggregateOperator : Type := mk_window_op {
  window_type : WindowType;
  aggregate_fn : AggregateFunction;
  windows : gmap Z WindowAccumulator
}.

Definition set_windows (ws : gmap Z WindowAccumulator) (op : WindowAggregateOperator) : WindowAggregateOperator :=
  mk_window_op (window_type op) (aggregate_fn op) ws.

(** [a / b] of two [i64]. *)
Definition div_i64 (a b : Z) : outcome SqlError Z :=
  if (b =? 0) || ((a =? - 2 ^ 63) && (b =? -1)) then Panic else Ok (Z.quot a b).

(** The loop over the starts of hopping windows. *)
Fixpoint hop_loop (fuel : nat) (w timestamp_ms size_ms slide_ms : Z) : list Z :=
  match fuel with
  | O => []
  | S fuel =>
      if w <=? timestamp_ms then
        (if timestamp_ms <? swrap 64 (w + size_ms) then [w] else [])
          ++ hop_loop fuel (swrap 64 (w + slide_ms)) timestamp_ms size_ms slide_ms
      else []
  end.

(** Enough steps for the loop: with a slide that is negative it goes down until it wraps around. *)
Definition hop_fuel (earliest timestamp_ms slide_ms : Z) : nat :=
  Z.to_nat ((if 0 <? slide_ms then (timestamp_ms - earliest) / slide_ms else (earliest + 2 ^ 63) / - slide_ms) + 1).

Definition assign_windows (op : WindowAggregateOperator) (timestamp_ms : Z) : outcome SqlError (list Z) :=
  match window_type op with
  | Tumble size_ms =>
      q ← div_i64 timestamp_ms size_ms; Ok [swrap 64 (q * size_ms)]
  | Hop size_ms slide_ms =>
      q ← div_i64 (swrap 64 (swrap 64 (timestamp_ms - size_ms) + slide_ms)) slide_ms;
      let earliest := swrap 64 (q * slide_ms) in
      Ok (hop_loop (hop_fuel earliest timestamp_ms slide_ms) earliest timestamp_ms size_ms slide_ms)
  | SessionWindow gap_ms =>
      Ok [default timestamp_ms
            (List.find (fun start => swrap 64 (Z.abs (swrap 64 (timestamp_ms - start))) <=? gap_ms) (map fst (iter (windows op))))]
  end.

Definition extract_value (f : AggregateFunction) (v : value) : option f64 :=
  match f with
  | Count => None
  | Sum name | Avg name | MinOf name | MaxOf name => field name v ≫= value_f64
  end.

Definition accumulate (numeric_val : option f64) (acc : WindowAccumulator) : WindowAccumulator :=
  let count := wrap 64 (wa_count acc + 1) in
  match numeric_val with
  | Some v =>
      mk_accumulator count (f64_add (wa_sum acc) v)
        (Some (match wa_min acc with Some m => f64_min m v | None => v end))
        (Some (match wa_max acc with Some m => f64_max m v | None => v end))
  | None => mk_accumulator count (wa_sum acc) (wa_min acc) (wa_max acc)
  end.

Definition add_to (numeric_val : option f64) (ws : gmap Z WindowAccumulator) (start : Z) : gmap Z WindowAccumulator :=
  <[start := accumulate numeric_val (default no_records (ws !! start))]> ws.

Definition compute_result (f : AggregateFunction) (acc : WindowAccumulator) : f64 :=
  match f with
  | Count => f64_of (wa_count acc)
  | Sum _ => wa_sum acc
  | Avg _ => if 0 <? wa_count acc then f64_div (wa_sum acc) (f64_of (wa_count acc)) else S754_zero false
  | MinOf _ => default (S754_zero false) (wa_min acc)
  | MaxOf _ => default (S754_zero false) (wa_max acc)
  end.

Definition window_size (t : WindowType) : Z :=
  match t with Tumble size_ms => size_ms | Hop size_ms _ => size_ms | SessionWindow gap_ms => gap_ms end.

Definition render (op : WindowAggregateOperator) (e : Z * WindowAccumulator) : StreamRecord :=
  new_record
    (to_vec (json_object
       [("window_start", json_int e.1); ("window_end", json_int (swrap 64 (e.1 + window_size (window_type op))));
        ("result", json_f64 (compute_result (aggregate_fn op) e.2)); ("count", json_int (wa_count e.2))]%string)) e.1.

(** The windows that start at some times are removed, and given one by one. *)
Fixpoint take_windows (starts : list Z) (ws : gmap Z WindowAccumulator) : gmap Z WindowAccumulator * list (Z * WindowAccumulator) :=
  match starts with
  | [] => (ws, [])
  | start :: starts =>
      match ws !! start with
      | Some acc => let '(ws, l) := take_windows starts (delete start ws) in (ws, (start, acc) :: l)
      | None => take_windows starts ws
      end
  end.

Definition is_completed (op : WindowAggregateOperator) (global_wm start : Z) : bool :=
  swrap 64 (start + window_size (window_type op)) <=? global_wm.

Definition completed_windows (m : tracker) (op : WindowAggregateOperator) : gmap Z WindowAccumulator * list (Z * WindowAccumulator) :=
  let global_wm := default I64_MIN (get_global_watermark m) in
  take_windows (List.filter (is_completed op global_wm) (map fst (iter (windows op)))) (windows op).

Definition emit_completed_windows (m : tracker) (op : WindowAggregateOperator) : WindowAggregateOperator * list StreamRecord :=
  let '(ws, l) := completed_windows m op in (set_windows ws op, map (render op) l).

(** A record, after the tracker saw it. *)
Definition window_add (record : StreamRecord) (op : WindowAggregateOperator) : outcome SqlError WindowAggregateOperator :=
  let v := match from_slice (st_value record) with inr v => v | inl _ => JNull end in
  starts ← assign_windows op (st_timestamp record);
  Ok (set_windows (foldl (add_to (extract_value (aggregate_fn op) v)) (windows op) starts) op).

(** What [update_watermark] answers is not looked at. *)
Definition window_process (cfg : WatermarkConfig) (now : Z) (record : StreamRecord) (m : tracker) (op : WindowAggregateOperator)
  : tracker * WindowAggregateOperator * outcome SqlError (list StreamRecord) :=
  let m := fst (update_watermark cfg "stream" (st_partition record) (st_timestamp record) now m) in
  match window_add record op with
  | Ok op => let '(op, output) := emit_completed_windows m op in (m, op, Ok output)
  | Err e => (m, op, Err e)
  | Panic => (m, op, Panic)
  end.

Definition window_flush (op : WindowAggregateOperator) : WindowAggregateOperator * list StreamRecord :=
  let '(ws, l) := take_windows (map fst (iter (windows op))) (windows op) in (set_windows ws op, map (render op) l).

(** ** Joins *)

Inductive JoinType : Type := Inner | LeftJoin | RightJoin | FullJoin.
Inductive JoinSide : Type := LeftSide | RightSide.

Record JoinConfig : Type := mk_join_config { left_key : string; right_key : string; window_ms : Z; join_type : JoinType }.
Record JoinBufferEntry : Type := mk_entry { je_record : StreamRecord; je_key : value; je_json : value }.
Record JoinOperator : Type := mk_join_op {
  join_config : JoinConfig;
  left_buffer : list JoinBufferEntry;
  right_buffer : list JoinBufferEntry
}.

Definition new_join (c : JoinConfig) : JoinOperator := mk_join_op c [] [].

Definition merged (l r : value) : value := json_object [("left", l); ("right", r)]%string.

(** All kinds of joins build the same record, with the time of the clock. *)
Definition build_output (l r : value) (now : Z) : StreamRecord := new_record (to_vec (merged l r)) now.

Definition joins (c : JoinConfig) (key : value) (timestamp : Z) (e : JoinBufferEntry) : bool :=
  json_eqb (je_key e) key && (swrap 64 (Z.abs (swrap 64 (timestamp - st_timestamp (je_record e)))) <=? window_ms c).

Definition evict_expired (current_timestamp : Z) (op : JoinOperator) : JoinOperator :=
  let cutoff := swrap 64 (current_timestamp - window_ms (join_config op)) in
  let retain := List.filter (fun e => cutoff <=? st_timestamp (je_record e)) in
  mk_join_op (join_config op) (retain (left_buffer op)) (retain (right_buffer op)).

(** [now]: the clock at each output. *)
Definition process_sided (now : nat -> Z) (record : StreamRecord) (side : JoinSide) (op : JoinOperator)
  : JoinOperator * outcome SqlError (list StreamRecord) :=
  match parse "join record" (st_value record) with
  | Ok v =>
      let c := join_config op in
      let key := default JNull (field (match side with LeftSide => left_key c | RightSide => right_key c end) v) in
      let entry := mk_entry record key v in
      let found := List.filter (joins c key (st_timestamp record)) (match side with LeftSide => right_buffer op | RightSide => left_buffer op end) in
      let build i e := match side with
                       | LeftSide => build_output v (je_json e) (now i)
                       | RightSide => build_output (je_json e) v (now i)
                       end in
      let op := match side with
                | LeftSide => mk_join_op c (left_buffer op ++ [entry]) (right_buffer op)
                | RightSide => mk_join_op c (left_buffer op) (right_buffer op ++ [entry])
                end in
      (evict_expired (st_timestamp record) op, Ok (imap build found))
  | Err e => (op, Err e)
  | Panic => (op, Panic)
  end.

(** Whatever is buffered counts as unmatched. *)
Definition join_flush (op : JoinOperator) : JoinOperator * list StreamRecord :=
  let unmatched f := map (fun e => new_record (to_vec (f (je_json e))) (st_timestamp (je_record e))) in
  let lefts := unmatched (fun v => merged v JNull) (left_buffer op) in
  let rights := unmatched (fun v => merged JNull v) (right_buffer op) in
  (mk_join_op (join_config op) [] [],
   match join_type (join_config op) with
   | Inner => []
   | LeftJoin => lefts
   | RightJoin => rights
   | FullJoin => lefts ++ rights
   end).

(** ** Chains *)

(** The implementations of the trait; window operators name their tracker, which they may
    share.  The trackers have one configuration each. *)
Inductive Operator : Type :=
| OFilter (predicate : FilterPredicate)
| OProject (projections : list FieldProjection)
| OWindow (tracker_id : nat) (op : WindowAggregateOperator)
| OJoin (op : JoinOperator).

Definition trackers := gmap nat (WatermarkConfig * tracker).

(** A call of [process] meets the clock of the tracker and the clock of the outputs. *)
Definition op_env : Type := Z * (nat -> Z).

Definition op_process (env : op_env) (record : StreamRecord) (ts : trackers) (op : Operator)
  : trackers * Operator * outcome SqlError (list StreamRecord) :=
  match op with
  | OFilter predicate => (ts, op, filter_process predicate record)
  | OProject projections => (ts, op, project_process projections record)
  | OWindow i w =>
      let '(cfg, m) := default (default_watermark_config, ∅) (ts !! i) in
      let '(m, w, r) := window_process cfg env.1 record m w in (<[i := (cfg, m)]> ts, OWindow i w, r)
  | OJoin j => let '(j, r) := process_sided env.2 record LeftSide j in (ts, OJoin j, r)
  end.

Definition op_flush (op : Operator) : Operator * list StreamRecord :=
  match op with
  | OFilter _ | OProject _ => (op, [])
  | OWindow i w => let '(w, l) := window_flush w in (OWindow i w, l)
  | OJoin j => let '(j, l) := join_flush j in (OJoin j, l)
  end.

(** One operator and some records, until one fails. *)
Fixpoint process_all (envs : nat -> op_env) (records : list StreamRecord) (ts : trackers) (op : Operator)
  : trackers * Operator * outcome SqlError (list StreamRecord) :=
  match records with
  | [] => (ts, op, Ok [])
  | record :: records =>
      match op_process (envs (length records)) record ts op with
      | (ts, op, Ok results) =>
          let '(ts, op, r) := process_all envs records ts op in (ts, op, l ← r; Ok (results ++ l))
      | failure => failure
      end
  end.

Fixpoint chain_process (envs : nat -> nat -> op_env) (current : list StreamRecord) (ts : trackers) (ops : list Operator)
  : trackers * list Operator * outcome SqlError (list StreamRecord) :=
  match ops with
  | [] => (ts, [], Ok current)
  | op :: ops =>
      match process_all (envs (length ops)) current ts op with
      | (ts, op, Ok next) => let '(ts, ops, r) := chain_process envs next ts ops in (ts, op :: ops, r)
      | (ts, op, r) => (ts, op :: ops, r)
      end
  end.

Definition process (envs : nat -> nat -> op_env) (record : StreamRecord) : trackers -> list Operator -> trackers * list Operator * outcome SqlError (list StreamRecord) :=
  chain_process envs [record].

(** The operators are flushed from the last to the first; what one gives passes no other. *)
Fixpoint chain_flush (ops : list Operator) : list Operator * list StreamRecord :=
  match ops with
  | [] => ([], [])
  | op :: ops =>
      let '(ops, l) := chain_flush ops in
      let '(op, l') := op_flush op in (op :: ops, l ++ l')
  end.
End operators.

(** ** Facts *)

(** ** The windows of a time *)

(** The distance between the starts of two windows. *)
Definition stride (t : WindowType) : Z := match t with Tumble size_ms => size_ms | Hop _ slide_ms => slide_ms | SessionWindow gap_ms => gap_ms end.

Definition in_window (t : WindowType) (start timestamp : Z) : bool :=
  (start mod stride t =? 0) && (start <=? timestamp) && (timestamp <? start + window_size t).

(** Windows of positive sizes, and times for which they do not begin before time 0. *)
Definition regular (t : WindowType) : Prop :=
  match t with Tumble size_ms => 0 < size_ms < 2 ^ 61 | Hop size_ms slide_ms => 0 < size_ms < 2 ^ 61 /\ 0 < slide_ms < 2 ^ 61 | SessionWindow _ => False end.
Definition time_ok (t : WindowType) (timestamp : Z) : Prop :=
  0 <= timestamp < 2 ^ 61 /\ window_size t - stride t <= timestamp.

Lemma in_window_spec t start timestamp :
  in_window t start timestamp = true <-> start mod stride t = 0 /\ start <= timestamp < start + window_size t.
Proof. unfold in_window. rewrite !andb_true_iff, Z.eqb_eq, Z.leb_le, Z.ltb_lt. tauto. Qed.

Lemma hop_loop_spec fuel w timestamp size slide :
  0 < slide < 2 ^ 61 -> 0 < size < 2 ^ 61 -> - 2 ^ 61 < w < 2 ^ 62 -> 0 <= timestamp < 2 ^ 61 -> timestamp < w + Z.of_nat fuel * slide ->
  let l := hop_loop fuel w timestamp size slide in
  NoDup l /\ forall v, v ∈ l <-> exists i, 0 <= i /\ v = w + i * slide /\ v <= timestamp < v + size.
Proof.
  intros Hslide Hsize. revert w. induction fuel as [|fuel IH]; intros w Hw Ht Hf; cbn [hop_loop].
  - split; [constructor|]. intros v. split; [intros Hv; by apply elem_of_nil in Hv|]. intros (i & Hi & -> & Hle). nia.
  - destruct (Z.leb_spec w timestamp) as [Hle|Hgt].
    + rewrite !swrap_small by (unfold in_i; lia).
      destruct (IH (w + slide) ltac:(lia) Ht ltac:(lia)) as [Hnd Hin].
      assert (Hrest : forall v, v ∈ hop_loop fuel (w + slide) timestamp size slide -> w < v).
      { intros v (i & Hi & -> & _)%Hin. nia. }
      split.
      * destruct (Z.ltb_spec timestamp (w + size)); [|done]. cbn [app]. constructor; [|done]. intros Hv%Hrest. lia.
      * intros v. rewrite elem_of_app, Hin. split.
        -- intros [Hv|(i & Hi & -> & Hv)].
           ++ destruct (Z.ltb_spec timestamp (w + size)); [|by apply elem_of_nil in Hv]. apply list_elem_of_singleton in Hv as ->. exists 0. lia.
           ++ exists (i + 1). lia.
        -- intros (i & Hi & -> & Hv). destruct (decide (i = 0)) as [-> |].
           ++ left. destruct (Z.ltb_spec timestamp (w + size)); [|lia]. apply list_elem_of_singleton. lia.
           ++ right. exists (i - 1). lia.
    + split; [constructor|]. intros v. split; [intros Hv; by apply elem_of_nil in Hv|]. intros (i & Hi & -> & Hv). nia.
Qed.

Section windows.
Context `{HJ : JsonLib} `{HB : !JsonBytes} `{HH : HashOrder}.

(** The windows of a time are those that contain it. *)
Lemma assign_spec op timestamp :
  regular (window_type op) -> time_ok (window_type op) timestamp ->
  exists starts, assign_windows op timestamp = Ok starts /\ NoDup starts
    /\ forall w, w ∈ starts <-> in_window (window_type op) w timestamp = true.
Proof.
  unfold assign_windows, time_ok. destruct (window_type op) as [size|size slide|gap]; cbn [regular stride window_size]; [| |done].
  - intros Hsize [Ht _]. unfold div_i64. destruct (Z.eqb_spec size 0); [lia|]. destruct (Z.eqb_spec timestamp (- 2 ^ 63)); [lia|]. cbn [orb andb mbind outcome_bind].
    rewrite Z.quot_div_nonneg by lia. pose proof (Z.div_mod timestamp size ltac:(lia)) as Hdm. pose proof (Z.mod_pos_bound timestamp size ltac:(lia)) as Hm.
    assert (Hq : timestamp / size * size = timestamp - timestamp mod size) by lia.
    rewrite (swrap_small 64 (timestamp / size * size)) by (unfold in_i; lia). eexists. split; [done|]. split; [apply NoDup_singleton|]. intros w. rewrite list_elem_of_singleton, in_window_spec. cbn [stride window_size].
    split.
    + intros ->. rewrite Z.mod_mul by lia. lia.
    + intros [Hw Hin]. apply Z.mod_divide in Hw as [q ->]; [|lia]. f_equal. apply (Z.div_unique _ _ _ (timestamp - q * size)); lia.
  - intros [Hsize Hslide] [Ht Hlow]. unfold div_i64.
    rewrite (swrap_small 64 (timestamp - size)), (swrap_small 64 (timestamp - size + slide)) by (unfold in_i; lia).
    destruct (Z.eqb_spec slide 0); [lia|]. destruct (Z.eqb_spec (timestamp - size + slide) (- 2 ^ 63)); [lia|]. cbn [orb andb mbind outcome_bind].
    rewrite Z.quot_div_nonneg by lia. set (q := (timestamp - size + slide) / slide).
    pose proof (Z.div_mod (timestamp - size + slide) slide ltac:(lia)) as Hdm. pose proof (Z.mod_pos_bound (timestamp - size + slide) slide ltac:(lia)) as Hm.
    fold q in Hdm. assert (Hq : q * slide = timestamp - size + slide - (timestamp - size + slide) mod slide) by lia.
    rewrite swrap_small by (unfold in_i; lia).
    destruct (hop_loop_spec (hop_fuel (q * slide) timestamp slide) (q * slide) timestamp size slide) as [Hnd Hin]; try lia.
    { unfold hop_fuel. rewrite (proj2 (Z.ltb_lt 0 slide)) by lia. pose proof (Z.div_mod (timestamp - q * slide) slide ltac:(lia)) as Hd.
      pose proof (Z.mod_pos_bound (timestamp - q * slide) slide ltac:(lia)) as Hb. nia. }
    eexists. split; [done|]. split; [done|]. intros w. rewrite Hin, in_window_spec. cbn [stride window_size]. split.
    + intros (i & Hi & -> & Hv). split; [|done]. rewrite <- Z.mul_add_distr_r. apply Z.mod_mul. lia.
    + intros [Hw Hv]. apply Z.mod_divide in Hw as [k ->]; [|lia]. exists (k - q). split; [|split; [lia|done]]. nia.
Qed.

(** ** Sums over a window *)

(** What a record adds, and what records come to, one after the other. *)
Definition numeric (f : AggregateFunction) (r : StreamRecord) : option f64 :=
  extract_value f (match from_slice (st_value r) with inr v => v | inl _ => JNull end).

Definition total (f : AggregateFunction) (rs : list StreamRecord) : WindowAccumulator :=
  foldl (fun acc r => accumulate (numeric f r) acc) no_records rs.

Lemma total_count f rs : wa_count (total f rs) = wrap 64 (len rs).
Proof.
  unfold total. induction rs as [|r rs IH] using rev_ind; [done|]. rewrite foldl_app. cbn. unfold accumulate.
  assert (Hc : wrap 64 (wa_count (foldl (fun acc r => accumulate (numeric f r) acc) no_records rs) + 1) = wrap 64 (len (rs ++ [r]))).
  { rewrite IH, length_app. cbn. unfold wrap. rewrite Zplus_mod_idemp_l. f_equal. lia. }
  by destruct (numeric f r).
Qed.

Lemma add_to_all v ws starts :
  NoDup starts -> forall w, foldl (add_to v) ws starts !! w
  = if decide (w ∈ starts) then Some (accumulate v (default no_records (ws !! w))) else ws !! w.
Proof.
  revert ws. induction starts as [|s starts IH]; intros ws Hnd w; cbn; [by rewrite decide_False by apply not_elem_of_nil|].
  apply NoDup_cons in Hnd as [Hs Hnd]. rewrite IH by done. unfold add_to. destruct (decide (w = s)) as [-> |Hne].
  - rewrite decide_False by done. rewrite decide_True by by left. by rewrite lookup_insert_eq.
  - rewrite lookup_insert_ne by done. destruct (decide (w ∈ starts)); [by rewrite decide_True by by right|].
    rewrite decide_False; [done|]. by intros [|]%elem_of_cons.
Qed.

Lemma take_windows_spec starts ws :
  NoDup starts -> let '(ws', l) := take_windows starts ws in
  (forall w, ws' !! w = if decide (w ∈ starts) then None else ws !! w)
  /\ NoDup l.*1 /\ forall w acc, (w, acc) ∈ l <-> w ∈ starts /\ ws !! w = Some acc.
Proof.
  revert ws. induction starts as [|s starts IH]; intros ws Hnd; cbn [take_windows].
  - split; [intros w; by rewrite decide_False by apply not_elem_of_nil|]. split; [constructor|]. intros w acc. split; [intros Hw; by apply elem_of_nil in Hw|].
    by intros [Hw%elem_of_nil _].
  - apply NoDup_cons in Hnd as [Hs Hnd]. destruct (ws !! s) as [acc0|] eqn:Hws.
    + specialize (IH (delete s ws) Hnd). destruct (take_windows starts (delete s ws)) as [ws' l]. destruct IH as (Hl & Hnl & Hin).
      split; [|split].
      * intros w. rewrite Hl. destruct (decide (w = s)) as [-> |Hne].
        -- rewrite decide_False by done. rewrite decide_True by by left. apply lookup_delete_eq.
        -- rewrite lookup_delete_ne by done. destruct (decide (w ∈ starts)); [by rewrite decide_True by by right|].
           rewrite decide_False; [done|]. by intros [|]%elem_of_cons.
      * cbn. constructor; [|done]. intros ([w acc] & -> & [Hw _]%Hin)%list_elem_of_fmap. by apply Hs.
      * intros w acc. rewrite elem_of_cons, Hin, elem_of_cons. split.
        -- intros [[= -> ->]|[Hw Hd]]; [by split; [left|]|]. split; [by right|]. rewrite lookup_delete_ne in Hd; [done|]. by intros ->.
        -- intros [[-> |Hw] Ha]; [left; congruence|]. right. split; [done|]. rewrite lookup_delete_ne; [done|]. by intros ->.
    + specialize (IH ws Hnd). destruct (take_windows starts ws) as [ws' l]. destruct IH as (Hl & Hnl & Hin). split; [|split; [done|]].
      * intros w. rewrite Hl. destruct (decide (w = s)) as [-> |Hne].
        -- rewrite decide_False by done. by rewrite decide_True by by left.
        -- destruct (decide (w ∈ starts)); [by rewrite decide_True by by right|]. rewrite decide_False; [done|]. by intros [|]%elem_of_cons.
      * intros w acc. rewrite Hin, elem_of_cons. split; [intros [? ?]; by split; [right|]|]. intros [[-> |Hw] Ha]; [congruence|done].
Qed.
End windows.

(** ** Runs of a window operator *)

Section window_runs.
Context `{HJ : JsonLib} `{HB : !JsonBytes} `{HH : HashOrder} (cfg : WatermarkConfig) (op0 : WindowAggregateOperator).
Let t := window_type op0.
Let f := aggregate_fn op0.

(** Records, and whatever other users of the tracker make of it. *)
Inductive window_event : Type :=
| WRecord (r : StreamRecord) (now : Z)
| WOther (m : tracker).

(** The largest global watermark by which windows were completed is the horizon. *)
Record wsys : Type := mk_wsys {
  ws_tracker : tracker;
  ws_op : WindowAggregateOperator;
  ws_output : list StreamRecord;
  ws_records : list StreamRecord;
  ws_horizon : Z
}.

Definition wstep (x : wsys) (e : window_event) : wsys :=
  match e with
  | WRecord r now =>
      let '(m, op, res) := window_process cfg now r (ws_tracker x) (ws_op x) in
      mk_wsys m op (ws_output x ++ match res with Ok l => l | _ => [] end) (ws_records x ++ [r])
        (Z.max (ws_horizon x) (default I64_MIN (get_global_watermark m)))
  | WOther m => mk_wsys m (ws_op x) (ws_output x) (ws_records x) (ws_horizon x)
  end.

Definition wstart : wsys := mk_wsys ∅ op0 [] [] I64_MIN.

(** No record lies behind the horizon. *)
Fixpoint timely (x : wsys) (es : list window_event) : Prop :=
  match es with
  | [] => True
  | e :: es => match e with WRecord r _ => time_ok t (st_timestamp r) /\ ws_horizon x <= st_timestamp r | WOther _ => True end /\ timely (wstep x e) es
  end.

(** The records of a window. *)
Definition inside (w : Z) (rs : list StreamRecord) : list StreamRecord := List.filter (fun r => in_window t w (st_timestamp r)) rs.

Record winv (x : wsys) (given : list (Z * WindowAccumulator)) : Prop := {
  wi_op : window_type (ws_op x) = t /\ aggregate_fn (ws_op x) = f;
  wi_output : ws_output x = map (render op0) given;
  wi_nodup : NoDup given.*1;
  wi_live w acc : windows (ws_op x) !! w = Some acc -> inside w (ws_records x) <> [] /\ acc = total f (inside w (ws_records x));
  wi_given w acc : (w, acc) ∈ given ->
    inside w (ws_records x) <> [] /\ acc = total f (inside w (ws_records x)) /\ windows (ws_op x) !! w = None /\ w + window_size t <= ws_horizon x;
  wi_all w : inside w (ws_records x) <> [] -> is_Some (windows (ws_op x) !! w) \/ w ∈ given.*1;
  wi_times : Forall (fun r => time_ok t (st_timestamp r)) (ws_records x)
}.

Context (Ht : regular t).

Lemma render_same op e : window_type op = t -> aggregate_fn op = f -> render op e = render op0 e.
Proof. unfold render, t, f. by intros -> ->. Qed.

Lemma inside_range w rs : Forall (fun r => time_ok t (st_timestamp r)) rs -> inside w rs <> [] -> - 2 ^ 61 < w < 2 ^ 61.
Proof.
  intros Hok Hne. destruct (inside w rs) as [|r l] eqn:Hi; [done|]. assert (Hr : In r (inside w rs)) by (rewrite Hi; by left).
  apply filter_In in Hr as [Hr Hw]. rewrite Forall_forall in Hok. specialize (Hok r (proj2 (list_elem_of_In _ _) Hr)) as [Hb _].
  apply in_window_spec in Hw as [_ Hw]. assert (window_size t < 2 ^ 61) by (unfold regular in Ht; destruct t; cbn in *; tauto || lia). lia.
Qed.

Lemma inside_snoc w rs r : inside w (rs ++ [r]) = inside w rs ++ (if in_window t w (st_timestamp r) then [r] else []).
Proof. unfold inside. rewrite List.filter_app. cbn. by destruct (in_window _ _ _). Qed.

Lemma total_snoc rs r : total f (rs ++ [r]) = accumulate (numeric f r) (total f rs).
Proof. unfold total. by rewrite foldl_app. Qed.

Lemma NoDup_iter_filter (g : Z -> bool) (ws : gmap Z WindowAccumulator) : NoDup (List.filter g (map fst (iter ws))).
Proof.
  assert (Hnd : forall l : list Z, NoDup l -> NoDup (List.filter g l)).
  { induction l as [|a l IH]; [done|]. intros [Ha Hl]%NoDup_cons. cbn. destruct (g a); [|by apply IH]. constructor; [|by apply IH].
    by intros [Hin _]%list_elem_of_In%filter_In%(fun H => conj (proj2 (list_elem_of_In _ _) (proj1 H)) (proj2 H)). }
  apply Hnd, iter_NoDup.
Qed.

Lemma in_starts (g : Z -> bool) (ws : gmap Z WindowAccumulator) w :
  w ∈ List.filter g (map fst (iter ws)) <-> g w = true /\ is_Some (ws !! w).
Proof.
  rewrite list_elem_of_In, filter_In, <- list_elem_of_In. split.
  - intros [Hw Hg]. split; [done|]. change (map fst (iter ws)) with (iter ws).*1 in Hw. apply list_elem_of_fmap in Hw as ([w' acc] & -> & Hw).
    exists acc. by apply elem_of_iter.
  - intros [Hg [acc Hw]]. split; [|done]. change (map fst (iter ws)) with (iter ws).*1. apply list_elem_of_fmap. exists (w, acc). split; [done|]. by apply elem_of_iter.
Qed.

(** A record is added to its windows. *)
Lemma winv_add x given r now :
  winv x given -> time_ok t (st_timestamp r) -> ws_horizon x <= st_timestamp r ->
  exists op, window_add r (ws_op x) = Ok op
    /\ winv (mk_wsys (fst (update_watermark cfg "stream" (st_partition r) (st_timestamp r) now (ws_tracker x))) op (ws_output x)
               (ws_records x ++ [r]) (ws_horizon x)) given.
Proof.
  intros [[Hty Hfn] Hout Hnd Hlive Hgiven Hall Htimes] Hok Hhor.
  destruct (assign_spec (ws_op x) (st_timestamp r)) as (starts & Hst & Hns & Hin); [by rewrite Hty|by rewrite Hty|].
  rewrite Hty in Hin. unfold window_add. rewrite Hst. cbn [mbind outcome_bind]. rewrite Hfn. fold (numeric f r). eexists. split; [done|].
  set (ws := foldl (add_to (numeric f r)) (windows (ws_op x)) starts).
  assert (Hws : forall w, ws !! w = if in_window t w (st_timestamp r)
                                    then Some (accumulate (numeric f r) (default no_records (windows (ws_op x) !! w))) else windows (ws_op x) !! w).
  { intros w. unfold ws. rewrite add_to_all by done. destruct (in_window t w (st_timestamp r)) eqn:Hw.
    - by rewrite decide_True by by apply Hin.
    - rewrite decide_False; [done|]. rewrite Hin. by rewrite Hw. }
  assert (Hfresh : forall w, in_window t w (st_timestamp r) = true -> w ∉ given.*1).
  { intros w Hw ([w' acc] & -> & Hg)%list_elem_of_fmap. cbn in Hw. apply Hgiven in Hg as (_ & _ & _ & Hle). apply in_window_spec in Hw as [_ Hw]. lia. }
  split; cbn [ws_op ws_output ws_records ws_horizon window_type aggregate_fn windows set_windows]; try done.
  - intros w acc. rewrite Hws, inside_snoc. destruct (in_window t w (st_timestamp r)) eqn:Hw.
    + intros [= <-]. split; [by destruct (inside w (ws_records x))|]. rewrite total_snoc. f_equal.
      destruct (windows (ws_op x) !! w) as [acc|] eqn:Hacc; cbn; [by apply Hlive|].
      destruct (inside w (ws_records x)) as [|r' l] eqn:Hi; [done|]. exfalso. destruct (Hall w) as [[acc' Ha]|Hg]; [by rewrite Hi|congruence|]. by apply (Hfresh w).
    + rewrite app_nil_r. by apply Hlive.
  - intros w acc Hg. rewrite inside_snoc, Hws. destruct (in_window t w (st_timestamp r)) eqn:Hw.
    + exfalso. apply (Hfresh w Hw). by apply (list_elem_of_fmap_2 fst) in Hg.
    + rewrite app_nil_r. by apply Hgiven.
  - intros w. rewrite inside_snoc, Hws. destruct (in_window t w (st_timestamp r)); [by intros _; left|]. rewrite app_nil_r. apply Hall.
  - apply Forall_app. split; [done|]. by constructor.
Qed.

(** Some windows are given. *)
Lemma winv_take x given g horizon :
  winv x given -> ws_horizon x <= horizon ->
  (forall w, g w = true -> is_Some (windows (ws_op x) !! w) -> w + window_size t <= horizon) ->
  let '(ws, l) := take_windows (List.filter g (map fst (iter (windows (ws_op x))))) (windows (ws_op x)) in
  winv (mk_wsys (ws_tracker x) (set_windows ws (ws_op x)) (ws_output x ++ map (render (ws_op x)) l) (ws_records x) horizon) (given ++ l)
  /\ forall w, g w = true -> ws !! w = None.
Proof.
  intros [[Hty Hfn] Hout Hnd Hlive Hgiven Hall Htimes] Hhor Hg.
  pose proof (take_windows_spec _ (windows (ws_op x)) (NoDup_iter_filter g (windows (ws_op x)))) as Htake.
  destruct (take_windows _ _) as [ws l]. destruct Htake as (Hws & Hnl & Hl).
  assert (Hl' : forall w acc, (w, acc) ∈ l <-> g w = true /\ windows (ws_op x) !! w = Some acc).
  { intros w acc. rewrite Hl, in_starts. split; [tauto|]. intros [H1 H2]. split; [|done]. split; [done|]. by exists acc. }
  split.
  - split; cbn [ws_op ws_output ws_records ws_horizon window_type aggregate_fn windows set_windows]; try done.
    + rewrite Hout, map_app. f_equal. apply map_ext. intros e. by apply render_same.
    + rewrite fmap_app. apply NoDup_app. split; [done|]. split; [|done].
      intros w ([w1 a1] & -> & H1)%list_elem_of_fmap ([w2 a2] & Hw & H2)%list_elem_of_fmap. cbn in Hw. subst w2.
      apply Hgiven in H1 as (_ & _ & Hnone & _). apply Hl' in H2 as [_ H2]. congruence.
    + intros w acc. rewrite Hws. case_decide; [done|]. apply Hlive.
    + intros w acc [Hw|Hw]%elem_of_app.
      * destruct (Hgiven w acc Hw) as (H1 & H2 & H3 & H4). split; [done|]. split; [done|]. split; [|lia]. rewrite Hws. by case_decide.
      * pose proof Hw as [Hgw Hwa]%Hl'. destruct (Hlive w acc Hwa) as [H1 H2]. split; [done|]. split; [done|]. split; [|by apply Hg].
        rewrite Hws. rewrite decide_True; [done|]. apply in_starts. split; [done|]. by eexists.
    + intros w Hne. rewrite fmap_app, elem_of_app, Hws. destruct (Hall w Hne) as [[acc Ha]|]; [|by right; left].
      destruct (decide _) as [[Hgw _]%in_starts|]; [|left; by rewrite Ha]. right. right. apply list_elem_of_fmap. exists (w, acc). split; [done|]. by apply Hl'.
  - intros w Hgw. rewrite Hws. case_decide as Hd; [done|]. destruct (windows (ws_op x) !! w) eqn:Hw; [|done]. destruct Hd. apply in_starts. split; [done|]. by rewrite Hw.
Qed.

Lemma winv_run es x given : winv x given -> timely x es -> exists given', winv (foldl wstep x es) given'.
Proof.
  revert x given. induction es as [|e es IH]; intros x given HI Htime; [by exists given|]. destruct Htime as [He Htime]. cbn [foldl].
  assert (Hone : exists given', winv (wstep x e) given').
  { clear IH Htime. destruct e as [r now|m]; cbn [wstep].
    - destruct He as [Hok Hhor]. destruct (winv_add x given r now HI Hok Hhor) as (op & Hadd & HI'). unfold window_process. rewrite Hadd.
      set (m := fst (update_watermark _ _ _ _ _ _)) in *. unfold emit_completed_windows, completed_windows.
      set (g := is_completed op (default I64_MIN (get_global_watermark m))).
      pose proof (winv_take _ given g (Z.max (ws_horizon x) (default I64_MIN (get_global_watermark m))) HI' ltac:(cbn; lia)) as Htake. cbn [ws_op ws_horizon] in Htake.
      destruct (take_windows _ _) as [ws l]. exists (given ++ l). apply Htake. intros w Hg [acc Hw]. unfold g, is_completed in Hg. apply Z.leb_le in Hg.
      destruct HI' as [[Hty _] _ _ Hlive _ _ Htimes]. cbn in Hty, Hlive, Htimes. rewrite Hty in Hg.
      pose proof (inside_range w _ Htimes (proj1 (Hlive w acc Hw))). assert (0 < window_size t < 2 ^ 61) by (unfold regular in Ht; destruct t; cbn in *; tauto || lia).
      rewrite swrap_small in Hg by (unfold in_i; lia). lia.
    - exists given. by destruct HI. }
  destruct Hone as [given' HI']. by apply (IH _ given').
Qed.
End window_runs.

Lemma foldr_max (l : list Z) a : a <= foldr Z.max a l /\ forall x, x ∈ l -> x <= foldr Z.max a l.
Proof.
  induction l as [|b l [IH1 IH2]]; cbn; [split; [lia|intros x Hx; by apply elem_of_nil in Hx]|]. split; [lia|].
  intros x [-> |Hx]%elem_of_cons; [lia|]. specialize (IH2 x Hx). lia.
Qed.

(** C13: every record counts in each of its windows, once.  For tumbling and hopping windows, as long as no record is behind
    a watermark by which windows were already completed (whatever else moves the tracker), and every time is at least 0 and at least the size of a window less
    its slide (the divisions that find the windows of a time round towards zero, and go wrong for earlier ones), each window that
    any record belongs to is given exactly once, when it is completed or at the flush, with exactly
    the records whose time it contains, added up in the order of their arrival; no other window is given. *)
Theorem windows_exact `{HJ : JsonLib} `{HB : !JsonBytes} `{HH : HashOrder} cfg op0 es :
  regular (window_type op0) -> windows op0 = ∅ -> timely cfg op0 (wstart op0) es ->
  let x := foldl (wstep cfg) (wstart op0) es in
  exists given, ws_output x ++ snd (window_flush (ws_op x)) = map (render op0) given
    /\ NoDup given.*1
    /\ forall w acc, (w, acc) ∈ given <->
         inside op0 w (ws_records x) <> [] /\ acc = total (aggregate_fn op0) (inside op0 w (ws_records x)).
Proof.
  intros Ht Hempty Htime x.
  assert (HI : winv op0 (wstart op0) []).
  { split; cbn; try done.
    - apply NoDup_nil_2.
    - rewrite Hempty. intros w acc Hw. by rewrite lookup_empty in Hw.
    - intros w acc Hw. by apply elem_of_nil in Hw. }
  destruct (winv_run cfg op0 Ht es _ _ HI Htime) as [given HI']. fold x in HI'.
  pose proof (winv_take op0 x given (fun _ => true)) as Htake.
  assert (Hfil : forall l : list Z, List.filter (fun _ => true) l = l) by (induction l as [|a l IH]; cbn; [done|by rewrite IH]). rewrite Hfil in Htake.
  unfold window_flush. destruct (take_windows _ _) as [ws l].
  set (horizon := foldr Z.max (ws_horizon x) (map (fun e => e.1 + window_size (window_type op0)) (iter (windows (ws_op x))))).
  assert (Hh : ws_horizon x <= horizon /\ forall w, is_Some (windows (ws_op x) !! w) -> w + window_size (window_type op0) <= horizon).
  { unfold horizon. split; [exact (proj1 (foldr_max _ _))|]. intros w [acc Hw]. apply elem_of_iter in Hw.
    apply (proj2 (foldr_max _ _)), list_elem_of_fmap. by exists (w, acc). }
  destruct (Htake horizon HI' (proj1 Hh) (fun w _ => proj2 Hh w)) as [[_ Hout Hnd Hlive Hgiven Hall _] Hnone]. cbn in *.
  exists (given ++ l). split; [exact Hout|]. split; [exact Hnd|]. intros w acc. split.
  - intros Hw. by destruct (Hgiven w acc Hw) as (H1 & H2 & _).
  - intros [Hne ->]. destruct (Hall w Hne) as [[acc Hw]|Hw]; [by rewrite (Hnone w eq_refl) in Hw|].
    apply list_elem_of_fmap in Hw as ([w' acc] & -> & Hw). destruct (Hgiven w' acc Hw) as (_ & -> & _). exact Hw.
Qed.

(** On one partition it is enough that no record is behind the largest time before it by more
    than the allowed delay. *)
Fixpoint at_most_behind (allowed : Z) (largest : option Z) (l : list StreamRecord) : Prop :=
  match l with
  | [] => True
  | r :: l =>
      match largest with Some m => m - allowed <= st_timestamp r | None => True end
      /\ at_most_behind allowed (Some (match largest with Some m => Z.max m (st_timestamp r) | None => st_timestamp r end)) l
  end.

Section one_partition.
Context `{HJ : JsonLib} `{HB : !JsonBytes} `{HH : HashOrder} (cfg : WatermarkConfig) (op0 : WindowAggregateOperator) (p : Z).
Context (Hallowed : 0 <= allowed_ms cfg < 2 ^ 61).
Let key : partition_key := ("stream"%string, p).

Lemma global_one pw : is_idle pw = false -> get_global_watermark {[key := pw]} = Some (current_watermark pw).
Proof.
  intros Hi. pose proof (global_spec {[key := pw]}) as Hg. destruct (get_global_watermark _) as [g|].
  - destruct Hg as [(k & pw' & [Hk _] & <-) _]. apply lookup_singleton_Some in Hk as [_ ->]. done.
  - exfalso. apply (Hg key pw). split; [apply lookup_singleton_eq|done].
Qed.

(** The tracker after records of which [m] is the largest time. *)
Definition follows_max (largest : option Z) (x : wsys) : Prop :=
  match largest with
  | None => ws_tracker x = ∅ /\ ws_horizon x = I64_MIN
  | Some m => 0 <= m < 2 ^ 61 /\ ws_horizon x <= m - allowed_ms cfg
      /\ exists pw, ws_tracker x = {[key := pw]} /\ is_idle pw = false /\ max_timestamp_seen pw = m /\ current_watermark pw = m - allowed_ms cfg
  end.

Lemma follows_step largest x r now :
  follows_max largest x -> st_partition r = p -> 0 <= st_timestamp r < 2 ^ 61 ->
  follows_max (Some (match largest with Some m => Z.max m (st_timestamp r) | None => st_timestamp r end)) (wstep cfg x (WRecord r now)).
Proof.
  intros Hx Hp Hr. set (m' := match largest with Some m => _ | None => _ end).
  assert (Hu : exists pw, fst (update_watermark cfg "stream" (st_partition r) (st_timestamp r) now (ws_tracker x)) = {[key := pw]}
    /\ is_idle pw = false /\ max_timestamp_seen pw = m' /\ current_watermark pw = m' - allowed_ms cfg /\ 0 <= m' < 2 ^ 61 /\ ws_horizon x <= m' - allowed_ms cfg).
  { unfold update_watermark. rewrite Hp. fold key. unfold follows_max, m' in *. destruct largest as [m|].
    - destruct Hx as (Hm & Hh & pw & -> & Hi & Hmax & Hcur). rewrite lookup_singleton_eq. cbn [default from_option id fst].
      rewrite insert_singleton_eq. eexists. split; [done|]. split; [done|]. cbn [max_timestamp_seen current_watermark]. rewrite Hmax, Hcur.
      assert (Hmx : (if m <? st_timestamp r then st_timestamp r else m) = Z.max m (st_timestamp r)) by (destruct (Z.ltb_spec m (st_timestamp r)); lia).
      rewrite Hmx. rewrite swrap_small by (unfold in_i; lia). destruct (Z.ltb_spec (m - allowed_ms cfg) (Z.max m (st_timestamp r) - allowed_ms cfg)); lia.
    - destruct Hx as [-> Hh]. rewrite lookup_empty. cbn [default from_option id fst]. rewrite insert_empty. eexists. split; [done|]. split; [done|].
      cbn [max_timestamp_seen current_watermark new_watermark]. rewrite Hh. unfold I64_MIN. rewrite (proj2 (Z.ltb_lt (- 2 ^ 63) (st_timestamp r))) by lia.
      rewrite swrap_small by (unfold in_i; lia). rewrite (proj2 (Z.ltb_lt (- 2 ^ 63) (st_timestamp r - allowed_ms cfg))) by lia. lia. }
  destruct Hu as (pw & Hm & Hi & Hmax & Hcur & Hb & Hh). cbn [wstep]. unfold window_process. rewrite Hm.
  assert (Hdone : forall op out recs, follows_max (Some m') (mk_wsys {[key := pw]} op out recs
    (Z.max (ws_horizon x) (default I64_MIN (get_global_watermark {[key := pw]}))))).
  { intros op out recs. cbn [follows_max ws_horizon ws_tracker]. split; [done|]. rewrite global_one by done. cbn [default from_option id]. split; [lia|]. by exists pw. }
  destruct (window_add _ _); [|apply Hdone..]. destruct (emit_completed_windows _ _). apply Hdone.
Qed.

Lemma one_partition_timely rs nows :
  Forall (fun r => st_partition r = p /\ time_ok (window_type op0) (st_timestamp r)) rs -> at_most_behind (allowed_ms cfg) None rs ->
  timely cfg op0 (wstart op0) (zip_with WRecord rs nows).
Proof.
  intros Hok Hb. assert (Hstart : follows_max None (wstart op0)) by done. revert Hstart Hb. generalize (@None Z) as largest. generalize (wstart op0) as x.
  revert nows. induction Hok as [|r rs [Hp Ht] Hok IH]; intros [|now nows] x largest Hx; cbn; try done. intros [Hr Hb].
  split.
  - split; [done|]. unfold follows_max in Hx. destruct largest as [m|]; [lia|]. destruct Hx as [_ ->]. unfold I64_MIN. destruct Ht. lia.
  - eapply IH; [|exact Hb]. apply follows_step; [done|done|apply Ht].
Qed.
End one_partition.

(** ** Joins *)

Section joins.
Context `{HJ : JsonLib} `{HB : !JsonBytes} (c : JoinConfig).

(** An arrival, on its side; what cannot be parsed is refused. *)
Definition arrival : Type := JoinSide * StreamRecord * (nat -> Z).

Definition entry_of (a : arrival) : option (JoinSide * JoinBufferEntry) :=
  let '(side, r, _) := a in
  match from_slice (st_value r) with
  | inr v => Some (side, mk_entry r (default JNull (field (match side with LeftSide => left_key c | RightSide => right_key c end) v)) v)
  | inl _ => None
  end.

Definition same_side (s s' : JoinSide) : bool := match s, s' with LeftSide, LeftSide | RightSide, RightSide => true | _, _ => false end.
Definition on_side (s : JoinSide) (l : list (JoinSide * JoinBufferEntry)) : list JoinBufferEntry :=
  map snd (List.filter (fun x => same_side s x.1) l).
Definition other_side (s : JoinSide) : JoinSide := match s with LeftSide => RightSide | RightSide => LeftSide end.
Definition time_of (e : JoinBufferEntry) : Z := st_timestamp (je_record e).

(** The pairs that are due: each arrival with all earlier ones of the other side that have its key,
    and whose time is not further away than the window. *)
Definition matches (e e' : JoinBufferEntry) : bool :=
  json_eqb (je_key e') (je_key e) && (Z.abs (time_of e - time_of e') <=? window_ms c).

Definition pair_of (s : JoinSide) (e e' : JoinBufferEntry) : json json_number :=
  match s with LeftSide => merged (je_json e) (je_json e') | RightSide => merged (je_json e') (je_json e) end.

Fixpoint pairs (before l : list (JoinSide * JoinBufferEntry)) : list (json json_number) :=
  match l with
  | [] => []
  | (s, e) :: l => map (pair_of s e) (List.filter (matches e) (on_side (other_side s) before)) ++ pairs (before ++ [(s, e)]) l
  end.

(** The arrivals through the operator. *)
Definition join_step (x : JoinOperator * list StreamRecord) (a : arrival) : JoinOperator * list StreamRecord :=
  let '(side, r, now) := a in
  match process_sided now r side (fst x) with
  | (op, Ok l) => (op, snd x ++ l)
  | (op, _) => (op, snd x)
  end.

Context (Hw : 0 <= window_ms c < 2 ^ 61).

(** The buffers: the entries whose time is within the window before the last arrival. *)
Definition buffers_hold (before : list (JoinSide * JoinBufferEntry)) (op : JoinOperator) : Prop :=
  let recent s := List.filter (fun e => match list.last before with Some x => time_of x.2 - window_ms c <=? time_of e | None => true end) (on_side s before) in
  join_config op = c /\ left_buffer op = recent LeftSide /\ right_buffer op = recent RightSide.

Definition in_time (x : JoinSide * JoinBufferEntry) : Prop := - 2 ^ 61 < time_of x.2 < 2 ^ 61.

Lemma filter_filter {A} (f g : A -> bool) l : List.filter f (List.filter g l) = List.filter (fun a => f a && g a) l.
Proof. induction l as [|a l IH]; [done|]. cbn. destruct (g a) eqn:Hg; cbn; rewrite ?Hg, ?andb_true_r, ?andb_false_r, IH; by destruct (f a). Qed.

Lemma filter_same {A} (f g : A -> bool) l : (forall a, a ∈ l -> f a = g a) -> List.filter f l = List.filter g l.
Proof.
  induction l as [|a l IH]; intros Hfg; [done|]. cbn. rewrite (Hfg a) by by left. rewrite IH; [done|]. intros b Hb. apply Hfg. by right.
Qed.

Lemma on_side_in s l e : e ∈ on_side s l -> exists s', (s', e) ∈ l.
Proof.
  unfold on_side. intros ([s' e'] & -> & Hin)%list_elem_of_fmap. exists s'. apply list_elem_of_In, filter_In in Hin as [Hin _]. by apply list_elem_of_In.
Qed.

Lemma on_side_snoc s l s' e : on_side s (l ++ [(s', e)]) = on_side s l ++ (if same_side s s' then [e] else []).
Proof. unfold on_side. rewrite List.filter_app, map_app. cbn. by destruct (same_side s s'). Qed.

(** What is no older than the last arrival may be dropped without loss. *)
Lemma recent_enough before e s :
  Forall in_time (before ++ [(s, e)]) -> (forall x, x ∈ before -> time_of x.2 <= time_of e) -> forall g,
  (forall e', g e' = true -> time_of e - window_ms c <= time_of e') -> forall s',
  List.filter g (List.filter (fun e' => match list.last before with Some x => time_of x.2 - window_ms c <=? time_of e' | None => true end) (on_side s' before))
  = List.filter g (on_side s' before).
Proof.
  intros Hin Hle g Hg s'. rewrite filter_filter. apply filter_same. intros e' He'. destruct (g e') eqn:Hge; [|done]. cbn.
  destruct (list.last before) as [x|] eqn:Hlast; [|done]. apply Z.leb_le. apply last_Some in Hlast as [l ->].
  specialize (Hle x ltac:(apply elem_of_app; right; by left)). specialize (Hg e' Hge). lia.
Qed.

Lemma joins_matches e e' : in_time (LeftSide, e) -> in_time (LeftSide, e') -> joins c (je_key e) (time_of e) e' = matches e e'.
Proof.
  unfold in_time, joins, matches, time_of. cbn. intros H1 H2. f_equal.
  rewrite (swrap_small 64 (st_timestamp (je_record e) - _)) by (unfold in_i; lia). rewrite swrap_small by (unfold in_i; lia). done.
Qed.

Lemma sided_step before op now r side e :
  buffers_hold before op -> entry_of (side, r, now) = Some (side, e) -> Forall in_time (before ++ [(side, e)]) ->
  (forall x, x ∈ before -> time_of x.2 <= time_of e) ->
  exists op' l, process_sided now r side op = (op', Ok l) /\ buffers_hold (before ++ [(side, e)]) op'
    /\ map st_value l = map to_vec (map (pair_of side e) (List.filter (matches e) (on_side (other_side side) before))).
Proof.
  intros (Hc & Hl & Hr) He Hin Hle. unfold entry_of in He. destruct (from_slice (st_value r)) as [err|v] eqn:Hv; [done|]. injection He as He.
  unfold process_sided, parse. rewrite Hv, Hc. cbv zeta. rewrite He. eexists _, _. split; [done|].
  assert (Ht : st_timestamp r = time_of e) by by rewrite <- He.
  assert (Hk : default JNull (field (match side with LeftSide => left_key c | RightSide => right_key c end) v) = je_key e) by by rewrite <- He.
  pose proof Hin as [Hbefore Hlast]%Forall_app. rewrite Forall_singleton in Hlast. unfold in_time in Hlast. cbn [snd] in Hlast. split.
  - unfold buffers_hold, evict_expired. rewrite Ht. cbn [join_config]. replace (join_config (match side with LeftSide => _ | RightSide => _ end)) with c by by destruct side.
    rewrite swrap_small by (unfold in_i; lia). rewrite last_snoc. cbn [snd]. set (g := fun e' => time_of e - window_ms c <=? time_of e').
    assert (Hrec : forall s', List.filter g (List.filter (fun e' => match list.last before with Some x => time_of x.2 - window_ms c <=? time_of e' | None => true end) (on_side s' before))
      = List.filter g (on_side s' before)) by (apply (recent_enough before e side Hin Hle); intros e' Hg; by apply Z.leb_le in Hg).
    assert (Hself : List.filter g [e] = [e]) by (cbn; unfold g; rewrite (proj2 (Z.leb_le _ _)) by lia; done).
    split; [done|]. destruct side; cbn [left_buffer right_buffer]; rewrite ?Hl, ?Hr, !on_side_snoc; cbn [same_side];
      rewrite ?List.filter_app, ?app_nil_r; change (fun e0 => time_of e - window_ms c <=? st_timestamp (je_record e0)) with g;
      rewrite ?Hrec, ?Hself; done.
  - rewrite Ht, Hk. assert (Hfound : List.filter (joins c (je_key e) (time_of e)) (match side with LeftSide => right_buffer op | RightSide => left_buffer op end)
      = List.filter (matches e) (on_side (other_side side) before)).
    { replace (match side with LeftSide => right_buffer op | RightSide => left_buffer op end) with
        (List.filter (fun e' => match list.last before with Some x => time_of x.2 - window_ms c <=? time_of e' | None => true end) (on_side (other_side side) before))
        by (by destruct side).
      rewrite <- (recent_enough before e side Hin Hle (matches e)).
      - apply filter_same. intros e' [_ [s' He']%list_elem_of_In%on_side_in]%list_elem_of_In%filter_In%(fun H => conj I (proj1 H)).
        apply joins_matches; [done|]. rewrite Forall_forall in Hbefore. by apply (Hbefore (s', e')).
      - intros e' [_ Hm]%andb_prop. apply Z.leb_le in Hm. lia. }
    rewrite Hfound. assert (Hb : forall (build : nat -> JoinBufferEntry -> StreamRecord) l, (forall i e', st_value (build i e') = to_vec (pair_of side e e')) ->
      map st_value (imap build l) = map to_vec (map (pair_of side e) l)).
    { intros build l. revert build. induction l as [|a l IH]; intros build Hbuild; [done|]. cbn. rewrite Hbuild. f_equal. apply IH. intros i. apply Hbuild. }
    apply Hb. intros i e'. rewrite <- He. by destruct side.
Qed.

Lemma join_run_gen arrivals before op output :
  buffers_hold before op -> Forall in_time (before ++ omap entry_of arrivals) ->
  StronglySorted (fun x y => time_of x.2 <= time_of y.2) (before ++ omap entry_of arrivals) ->
  let x := foldl join_step (op, output) arrivals in
  buffers_hold (before ++ omap entry_of arrivals) (fst x)
  /\ map st_value (snd x) = map st_value output ++ map to_vec (pairs before (omap entry_of arrivals)).
Proof.
  revert before op output. induction arrivals as [|[[side r] now] arrivals IH]; intros before op output Hb Hin Hs; cbn [omap list_omap foldl].
  - cbn. rewrite !app_nil_r. done.
  - cbn [omap list_omap] in Hin, Hs. destruct (entry_of (side, r, now)) as [[s e]|] eqn:He.
    + assert (s = side) as -> by (unfold entry_of in He; destruct (from_slice _); [done|]; by injection He).
      assert (Happ : before ++ (side, e) :: omap entry_of arrivals = (before ++ [(side, e)]) ++ omap entry_of arrivals) by by rewrite <- app_assoc.
      rewrite Happ in Hin, Hs |- *. destruct (sided_step before op now r side e Hb He (proj1 (proj1 (Forall_app _ _ _) Hin))) as (op' & l & Hp & Hb' & Hl).
      { intros x Hx. rewrite <- app_assoc in Hs. clear -Hs Hx. induction before as [|y before IH]; [by apply elem_of_nil in Hx|].
        apply StronglySorted_inv in Hs as [Hs Hy]. apply elem_of_cons in Hx as [-> |Hx]; [|by apply IH]. rewrite Forall_forall in Hy. apply (Hy (side, e)).
        apply elem_of_app. right. by left. }
      assert (Hstep : join_step (op, output) (side, r, now) = (op', output ++ l)) by (unfold join_step; cbn [fst snd]; by rewrite Hp).
      rewrite Hstep. destruct (IH _ _ (output ++ l) Hb' Hin Hs) as [H1 H2]. split; [exact H1|].
      cbn [pairs]. rewrite H2, !map_app, Hl. by rewrite <- app_assoc.
    + assert (Hstep : join_step (op, output) (side, r, now) = (op, output)).
      { unfold join_step. cbn [fst snd]. unfold entry_of in He. unfold process_sided, parse. by destruct (from_slice _) as [err|]. }
      rewrite Hstep. by apply IH.
Qed.
End joins.

(** C14: a join finds all pairs.  When the records that can be parsed have their key, not null, and their times do not go back, a join of any kind gives,
    arrival by arrival and in the order of the earlier ones, exactly the pairs of a record with the earlier records of the other side that have
    its key and are within the time window: dropping old records from the buffers loses none.  The flush of an inner join adds nothing. *)
Theorem join_complete `{HJ : JsonLib} `{HB : !JsonBytes} (c : JoinConfig) arrivals :
  0 <= window_ms c < 2 ^ 61 -> Forall in_time (omap (entry_of c) arrivals) ->
  Forall (fun x => je_key x.2 <> JNull) (omap (entry_of c) arrivals) ->
  StronglySorted (fun x y => time_of x.2 <= time_of y.2) (omap (entry_of c) arrivals) ->
  let '(op, output) := foldl join_step (new_join c, []) arrivals in
  map st_value output = map to_vec (pairs c [] (omap (entry_of c) arrivals)) /\ (join_type c = Inner -> snd (join_flush op) = []).
Proof.
  intros Hw Hin _ Hs. destruct (join_run_gen c Hw arrivals [] (new_join c) [] ltac:(done) Hin Hs) as [(Hc & _) Hout].
  destruct (foldl _ _ _) as [op output]. cbn [fst snd app map] in *. split; [exact Hout|]. intros Ht. unfold join_flush. by rewrite Hc, Ht.
Qed.

(** What the flush of a join gives.  An outer join gives all records of its side that are still buffered, matched or not, and none that was dropped,
    although the comments say those that had no match. *)
Theorem flush_gives_buffers `{HJ : JsonLib} `{HB : !JsonBytes} (c : JoinConfig) arrivals :
  0 <= window_ms c < 2 ^ 61 -> Forall in_time (omap (entry_of c) arrivals) ->
  StronglySorted (fun x y => time_of x.2 <= time_of y.2) (omap (entry_of c) arrivals) ->
  let items := omap (entry_of c) arrivals in
  let '(op, _) := foldl join_step (new_join c, []) arrivals in
  map st_value (snd (join_flush op))
  = let kept s := List.filter (fun e => match list.last items with Some x => time_of x.2 - window_ms c <=? time_of e | None => true end) (on_side s items) in
    let lefts := map (fun e => to_vec (merged (je_json e) JNull)) (kept LeftSide) in
    let rights := map (fun e => to_vec (merged JNull (je_json e))) (kept RightSide) in
    match join_type c with Inner => [] | LeftJoin => lefts | RightJoin => rights | FullJoin => lefts ++ rights end.
Proof.
  intros Hw Hin Hs items. destruct (join_run_gen c Hw arrivals [] (new_join c) [] ltac:(done) Hin Hs) as [(Hc & Hl & Hr) _].
  destruct (foldl _ _ _) as [op output]. cbn [fst snd app map] in *.
  unfold join_flush. cbn [snd]. rewrite Hc, Hl, Hr. destruct (join_type c); rewrite ?map_app, ?map_map; done.
Qed.

(** ** Chains *)

(** A chain works like its parts one after the other. *)
Theorem chain_app `{HJ : JsonLib} `{HB : !JsonBytes} `{HH : HashOrder} envs current ts (ops ops' : list Operator) :
  chain_process envs current ts (ops ++ ops')
  = match chain_process (fun i => envs (i + length ops')%nat) current ts ops with
    | (ts1, ops1, Ok middle) => let '(ts2, ops2, r) := chain_process envs middle ts1 ops' in (ts2, ops1 ++ ops2, r)
    | (ts1, ops1, r) => (ts1, ops1 ++ ops', r)
    end.
Proof.
  revert current ts. induction ops as [|op ops IH]; intros current ts; cbn [chain_process app].
  - by destruct (chain_process envs current ts ops') as [[ts2 ops2] r].
  - rewrite length_app. destruct (process_all _ _ _ _) as [[ts1 op1] [next|e|]]; [|done..]. rewrite IH.
    destruct (chain_process _ next ts1 ops) as [[ts2 ops2] [middle|e|]]; [|done..].
    by destruct (chain_process envs middle ts2 ops') as [[ts3 ops3] r].
Qed.
