(* ===== verification/StreamExamples.v ===== *)
(** * The stream operators at work

    Over stand-ins for JSON: a record of one byte is an object with the byte as its [v]. *)

From coqutil Require Import Byte.
From S2P Require Import Prelude HashMap SchemaTypes SchemaCompat SchemaExamples Float Watermark Operators.

(** A value is written as the numbers in it. *)
Fixpoint numbers (v : json Z) : bytes :=
  match v with
  | JNumber n => [byte_of (n mod 256)]
  | JObject fields => flat_map (fun e => numbers e.2) fields
  | _ => []
  end.

#[export] Instance toy_json_bytes : JsonBytes := {|
  from_slice b := match b with [x] => inr (JObject [("v"%string, JNumber (byte.unsigned x))]) | _ => inl "EOF"%string end;
  to_vec := numbers;
  as_f64 n := Some (f64_of n);
  number_of_f64 x := u64_of x;
  number_of_int n := n
|}.

Definition event (n : Byte.byte) (timestamp : Z) : StreamRecord := new_record [n] timestamp.

(** ** Windows *)

Definition sums (t : WindowType) : WindowAggregateOperator := mk_window_op t (Sum "v") ∅.

(** With a delay of five seconds, in windows of ten. *)
Definition arrivals_1 : list window_event :=
  [WRecord (event Init.Byte.x01 1000) 0; WRecord (event Init.Byte.x02 12000) 0; WRecord (event Init.Byte.x03 9000) 0;
   WRecord (event Init.Byte.x04 16000) 0].

Lemma windows_exact_witness :
  exists given, Forall (fun e : Z * WindowAccumulator => e.1 = 0 -> u64_of (wa_sum e.2) = 4) given
    /\ (exists acc, (0, acc) ∈ given) /\ NoDup given.*1.
Proof.
  destruct (windows_exact default_watermark_config (sums (Tumble 10000)) arrivals_1) as (given & _ & Hnd & Hin).
  - cbn. lia.
  - reflexivity.
  - vm_compute. repeat split; try congruence; intros; discriminate.
  - exists given. cbv zeta in Hin.
    set (x := foldl _ _ _) in Hin. assert (Hx : map st_value (inside (sums (Tumble 10000)) 0 (ws_records x)) = [[Init.Byte.x01]; [Init.Byte.x03]]
      /\ u64_of (wa_sum (total (Sum "v") (inside (sums (Tumble 10000)) 0 (ws_records x)))) = 4) by (vm_compute; split; reflexivity).
    destruct Hx as [Hne Hsum]. split; [|split; [|exact Hnd]].
    + apply Forall_forall. intros [w acc] He Hw. cbn in Hw. subst w. apply Hin in He as [_ ->]. exact Hsum.
    + eexists. apply Hin. split; [|reflexivity]. intros Hnil. rewrite Hnil in Hne. discriminate Hne.
Defined.

(** A record behind the watermark opens its window again, which is given a second time without what
    it had: the answer of the tracker that the record is late is not looked at. *)
Lemma late_record_repeats_window :
  let x := foldl (wstep default_watermark_config) (wstart (sums (Tumble 10000)))
             [WRecord (event Init.Byte.x01 1000) 0; WRecord (event Init.Byte.x02 16000) 0; WRecord (event Init.Byte.x03 2000) 0] in
  map (fun r => (st_timestamp r, st_value r)) (ws_output x)
  = [(0, [Init.Byte.x01; Init.Byte.x01; byte_of (10000 mod 256); Init.Byte.x00]);
     (0, [Init.Byte.x01; Init.Byte.x03; byte_of (10000 mod 256); Init.Byte.x00])].
Proof. vm_compute. reflexivity. Qed.

(** Sessions are told by the distance to the first record, not to the last one: three records, each within
    the gap of the one before, make two sessions. *)
Lemma session_is_split :
  let x := foldl (wstep default_watermark_config) (wstart (sums (SessionWindow 10000)))
             [WRecord (event Init.Byte.x01 0) 0; WRecord (event Init.Byte.x02 9000) 0; WRecord (event Init.Byte.x03 18000) 0] in
  map fst (map_to_list (windows (ws_op x))) = [18000]
  /\ map st_timestamp (ws_output x) = [0].
Proof. vm_compute. split; reflexivity. Qed.

(** ** Joins *)

Definition by_value (t : JoinType) : JoinConfig := mk_join_config "v" "v" 100 t.
Definition at_once : nat -> Z := fun _ => 7.

Definition arrivals_2 : list arrival :=
  [(LeftSide, event Init.Byte.x01 0, at_once); (LeftSide, event Init.Byte.x02 10, at_once); (RightSide, event Init.Byte.x01 60, at_once);
   (RightSide, new_record [] 70, at_once); (LeftSide, event Init.Byte.x01 150, at_once)].

(** Each of the two pairs is given. *)
Lemma join_complete_witness :
  let '(op, output) := foldl join_step (new_join (by_value Inner), []) arrivals_2 in
  map st_value output = [[Init.Byte.x01; Init.Byte.x01]; [Init.Byte.x01; Init.Byte.x01]] /\ snd (join_flush op) = [].
Proof.
  pose proof (join_complete (by_value Inner) arrivals_2) as H.
  destruct (foldl _ _ _) as [op output]. destruct H as [H1 H2].
  - cbn. lia.
  - repeat constructor; unfold in_time; cbn; lia.
  - repeat (constructor; [discriminate|]). constructor.
  - repeat constructor; cbn; lia.
  - split; [rewrite H1; vm_compute; reflexivity|by apply H2].
Defined.

(** At the end of a left join the left record that matched is given as unmatched, and the ones that were dropped are not, although one of them
    matched nothing. *)
Lemma flush_gives_buffers_witness :
  let '(op, _) := foldl join_step (new_join (by_value LeftJoin), []) arrivals_2 in map st_value (snd (join_flush op)) = [[Init.Byte.x01]].
Proof.
  pose proof (flush_gives_buffers (by_value LeftJoin) arrivals_2) as H. cbv zeta in H.
  destruct (foldl _ _ _) as [op output]. rewrite H; [vm_compute; reflexivity|cbn; lia|repeat constructor; unfold in_time; cbn; lia|].
  repeat constructor; cbn; lia.
Defined.

(** One record with a time that is far ahead makes the buffers forget the others. *)
Lemma join_forgets :
  let '(_, output) := foldl join_step (new_join (by_value Inner), [])
    [(LeftSide, event Init.Byte.x01 0, at_once); (LeftSide, event Init.Byte.x02 5000, at_once); (RightSide, event Init.Byte.x01 10, at_once)] in
  output = [].
Proof. vm_compute. reflexivity. Qed.

(** ** Chains *)

(** What a flush gives passes no later operator: the filter lets nothing through, but for the flush. *)
Lemma flush_bypasses_filter :
  let ops := [OWindow 0 (sums (Tumble 10000)); OFilter (PNot (PNot (PEquals "v" JNull)))] in
  let '(_, ops', r) := Operators.process (fun _ _ => (0, at_once)) (event Init.Byte.x01 1000) ∅ ops in
  r = Ok [] /\ map st_timestamp (snd (chain_flush ops')) = [0].
Proof. vm_compute. split; reflexivity. Qed.
