(* ===== verification/Acl.v ===== *)
(** * Access control lists (crates/streamhouse-api/src/acl.rs)

    Entries that allow or deny actions, the checker with its cache, and the layer that
    guards the routes of the API. *)

From S2P Require Import Prelude.

(** ** Data *)

Inductive AclResource : Type :=
| RTopic (name : string) | RConsumerGroup (name : string) | ROrganization (name : string) | RSchema (name : string) | RCluster | RAll.

Inductive AclAction : Type := Read | Write | Create | Delete | Alter | Describe | Admin | AllActions.

#[export] Instance AclAction_eq_dec : EqDecision AclAction.
Proof. solve_decision. Defined.

Inductive AclPermission : Type := Allow | Deny.

Record AclEntry : Type := mk_acl_entry {
  ae_id : string;
  ae_principal : string;
  ae_resource : AclResource;
  ae_action : AclAction;
  ae_permission : AclPermission;
  ae_created_at : Z;
  ae_created_by : option string
}.

Definition resource_type (r : AclResource) : string :=
  match r with
  | RTopic _ => "topic" | RConsumerGroup _ => "consumer_group" | ROrganization _ => "organization" | RSchema _ => "schema"
  | RCluster => "cluster" | RAll => "all"
  end.

Definition resource_name (r : AclResource) : string :=
  match r with
  | RTopic name | RConsumerGroup name | ROrganization name | RSchema name => name
  | RCluster | RAll => "*"
  end.

Definition resource_text (r : AclResource) : string := resource_type r +:+ ":" +:+ resource_name r.

Definition action_text (a : AclAction) : string :=
  match a with
  | Read => "read" | Write => "write" | Create => "create" | Delete => "delete" | Alter => "alter" | Describe => "describe"
  | Admin => "admin" | AllActions => "all"
  end.

(** ** Patterns *)

Definition star : Ascii.ascii := Ascii.ascii_of_nat 42.

Fixpoint has_star (s : string) : bool := match s with EmptyString => false | String a s => bool_decide (a = star) || has_star s end.

(** [strip_suffix('*')] and [split('*')]. *)
Fixpoint strip_last_star (s : string) : option string :=
  match s with
  | EmptyString => None
  | String a EmptyString => if bool_decide (a = star) then Some EmptyString else None
  | String a s => String a <$> strip_last_star s
  end.

Fixpoint split_star (s : string) : list string :=
  match s with
  | EmptyString => [EmptyString]
  | String a s =>
      match split_star s with
      | part :: parts => if bool_decide (a = star) then EmptyString :: part :: parts else String a part :: parts
      | [] => []
      end
  end.

Definition starts (prefix s : string) : bool := bool_decide (is_Some (strip_prefix prefix s)).

Definition pattern_matches (pattern value : string) : bool :=
  if bool_decide (pattern = "*"%string) then true
  else
    match strip_last_star pattern with
    | Some prefix => starts prefix value
    | None =>
        match pattern with
        | String a suffix =>
            if bool_decide (a = star) then ends_with suffix value
            else
              match (if has_star pattern then split_star pattern else []) with
              | [prefix; suffix] => starts prefix value && ends_with suffix value
              | _ => bool_decide (pattern = value)
              end
        | EmptyString => bool_decide (pattern = value)
        end
    end.

Definition resource_matches (pattern r : AclResource) : bool :=
  match pattern, r with
  | RAll, _ => true
  | RCluster, RCluster => true
  | RTopic p, RTopic n | RConsumerGroup p, RConsumerGroup n | ROrganization p, ROrganization n | RSchema p, RSchema n => pattern_matches p n
  | _, _ => false
  end.

Definition action_matches (pattern a : AclAction) : bool := bool_decide (pattern = AllActions) || bool_decide (pattern = a).

Definition entry_matches (principal : string) (r : AclResource) (a : AclAction) (e : AclEntry) : bool :=
  pattern_matches (ae_principal e) principal && resource_matches (ae_resource e) r && action_matches (ae_action e) a.

(** ** The checker *)

Record AclCheckResult : Type := mk_check_result { cr_allowed : bool; cr_matched_entry : option AclEntry; cr_reason : string }.

Definition allowed_by (e : AclEntry) : AclCheckResult := mk_check_result true (Some e) ("Allowed by ACL entry " +:+ ae_id e).
Definition denied_by (e : AclEntry) : AclCheckResult := mk_check_result false (Some e) ("Denied by ACL entry " +:+ ae_id e).
Definition default_deny : AclCheckResult := mk_check_result false None "No matching ACL entry (default deny)".
Definition cached (allowed : bool) : AclCheckResult :=
  mk_check_result allowed None (if allowed then "Cached allow" else "Cached deny").

Abbreviation cache_key := (string * string * string)%type.
Definition key_of (principal : string) (r : AclResource) (a : AclAction) : cache_key := (principal, resource_text r, action_text a).

Record AclChecker : Type := mk_checker { entries : list AclEntry; cache : gmap cache_key bool }.

Definition new_checker : AclChecker := mk_checker [] ∅.
Definition with_entries (es : list AclEntry) : AclChecker := mk_checker es ∅.

(** The parts of an operation that each hold one lock. *)
Definition push_entry (e : AclEntry) (c : AclChecker) : AclChecker := mk_checker (entries c ++ [e]) (cache c).
Definition retain_entries (id : string) (c : AclChecker) : AclChecker :=
  mk_checker (List.filter (fun e => negb (bool_decide (ae_id e = id))) (entries c)) (cache c).
Definition clear_entries (c : AclChecker) : AclChecker := mk_checker [] (cache c).
Definition clear_cache (c : AclChecker) : AclChecker := mk_checker (entries c) ∅.

Definition find_entry (permission : AclPermission) (principal : string) (r : AclResource) (a : AclAction) (es : list AclEntry) : option AclEntry :=
  List.find (fun e => match permission, ae_permission e with Allow, Allow | Deny, Deny => entry_matches principal r a e | _, _ => false end) es.

(** The entries, denials first: the answer, and whether it is put into the cache. *)
Definition scan (principal : string) (r : AclResource) (a : AclAction) (c : AclChecker) : AclCheckResult * bool :=
  match find_entry Deny principal r a (entries c) with
  | Some e => (denied_by e, false)
  | None =>
      match find_entry Allow principal r a (entries c) with
      | Some e => (allowed_by e, false)
      | None => (default_deny, true)
      end
  end.

Definition store_cached (principal : string) (r : AclResource) (a : AclAction) (allowed : bool) (c : AclChecker) : AclChecker :=
  mk_checker (entries c) (<[key_of principal r a := allowed]> (cache c)).

(** The operations, alone. *)
Definition add_entry (e : AclEntry) (c : AclChecker) : AclChecker := clear_cache (push_entry e c).

Definition remove_entry (id : string) (c : AclChecker) : AclChecker * bool :=
  let c' := retain_entries id c in
  let removed := (length (entries c') <? length (entries c))%nat in
  (if removed then clear_cache c' else c', removed).

Definition clear (c : AclChecker) : AclChecker := clear_cache (clear_entries c).

Definition check (principal : string) (r : AclResource) (a : AclAction) (c : AclChecker) : AclChecker * AclCheckResult :=
  match cache c !! key_of principal r a with
  | Some allowed => (c, cached allowed)
  | None =>
      let '(result, keep) := scan principal r a c in
      (if keep then store_cached principal r a (cr_allowed result) c else c, result)
  end.

Definition list_entries_filtered (principal_filter resource_type_filter : option string) (c : AclChecker) : list AclEntry :=
  List.filter (fun e =>
    match principal_filter with Some p => pattern_matches p (ae_principal e) || pattern_matches (ae_principal e) p | None => true end
    && match resource_type_filter with Some t => bool_decide (resource_type (ae_resource e) = t) | None => true end) (entries c).

(** ** The layer *)

Record AclConfig : Type := mk_acl_config { enabled : bool; admin_bypass : bool; default_permission : AclPermission; admin_pattern : string }.

Definition default_acl_config (acl_enabled : option string) : AclConfig :=
  mk_acl_config (match acl_enabled with Some v => bool_decide (v = "true"%string) || bool_decide (v = "1"%string) | None => false end)
    true Deny "admin:*".

Definition slash_char : Ascii.ascii := Ascii.ascii_of_nat 47.

(** [path.split('/')], without empty parts. *)
Fixpoint split_path_loop (s part : string) : list string :=
  match s with
  | EmptyString => [part]
  | String a s => if bool_decide (a = slash_char) then part :: split_path_loop s EmptyString else split_path_loop s (part +:+ String a EmptyString)
  end.
Definition split_path (path : string) : list string := List.filter (fun s => negb (bool_decide (s = ""%string))) (split_path_loop path "").

Definition by_method (method : string) (actions : list (string * AclAction)) : option AclAction :=
  snd <$> List.find (fun e => bool_decide (e.1 = method)) actions.

(** The arms of [default_resource_extractor], in their order. *)
Definition extract_topics (method : string) (rest : list string) : option (AclResource * AclAction) :=
  match rest with
  | [] => (RAll,.) <$> by_method method [("GET", Describe); ("POST", Create)]%string
  | [name] => (RTopic name,.) <$> by_method method [("GET", Describe); ("DELETE", Delete)]%string
  | [name; part] => if bool_decide (part = "messages"%string) then Some (RTopic name, Read) else None
  | _ => None
  end.

Definition extract_groups (method : string) (rest : list string) : option (AclResource * AclAction) :=
  match rest with
  | [] => Some (RAll, Describe)
  | [group_id] =>
      if bool_decide (group_id = "commit"%string) then Some (RAll, Write)
      else (RConsumerGroup group_id,.) <$> by_method method [("GET", Describe); ("DELETE", Delete)]%string
  | [group_id; part] =>
      if bool_decide (part = "reset"%string) || bool_decide (part = "seek"%string) then Some (RConsumerGroup group_id, Alter) else None
  | _ => None
  end.

Definition default_resource_extractor (method path : string) : option (AclResource * AclAction) :=
  match split_path path with
  | api :: v1 :: what :: rest =>
      if bool_decide (api = "api"%string) && bool_decide (v1 = "v1"%string) then
        if bool_decide (what = "topics"%string) then extract_topics method rest
        else if bool_decide (what = "produce"%string) then
          match rest with
          | [] => Some (RAll, Write)
          | [part] => if bool_decide (part = "batch"%string) then Some (RAll, Write) else None
          | _ => None
          end
        else if bool_decide (what = "consume"%string) then match rest with [] => Some (RAll, Read) | _ => None end
        else if bool_decide (what = "consumer-groups"%string) then extract_groups method rest
        else if bool_decide (what = "organizations"%string) || bool_decide (what = "api-keys"%string) then Some (RCluster, Admin)
        else if bool_decide (what = "sql"%string) then match rest with [] => Some (RAll, Read) | _ => None end
        else None
      else None
  | _ => None
  end.

(** Of a request, what the layer looks at; the key is what authentication attached. *)
Record Request : Type := mk_request { rq_method : string; rq_path : string; rq_key : option (string * list string) }.
Inductive Verdict : Type := Passed | Forbidden (text : string).

Definition principal_of (q : Request) : string :=
  match rq_key q with Some (key_id, _) => "apikey:" +:+ key_id | None => "anonymous" end.

Definition call (extractor : string -> string -> option (AclResource * AclAction)) (config : AclConfig) (q : Request) (c : AclChecker)
  : AclChecker * Verdict :=
  if negb (enabled config) then (c, Passed)
  else
    match extractor (rq_method q) (rq_path q) with
    | None => (c, Passed)
    | Some (resource, action) =>
        let principal := principal_of q in
        if admin_bypass config && pattern_matches (admin_pattern config) principal then (c, Passed)
        else if admin_bypass config && match rq_key q with Some (_, permissions) => bool_decide ("admin"%string ∈ permissions) | None => false end
        then (c, Passed)
        else
          let '(c, result) := check principal resource action c in
          if cr_allowed result then (c, Passed)
          else (c, Forbidden ("Access denied: " +:+ action_text action +:+ " on " +:+ resource_text resource +:+ " for " +:+ principal))
    end.

(** ** Facts *)

(** What the entries say: an entry that allows, and none that denies. *)
Definition permits (es : list AclEntry) (principal : string) (r : AclResource) (a : AclAction) : bool :=
  existsb (fun e => match ae_permission e with Allow => entry_matches principal r a e | Deny => false end) es
  && negb (existsb (fun e => match ae_permission e with Deny => entry_matches principal r a e | Allow => false end) es).

Lemma find_existsb {A} (f : A -> bool) l : match List.find f l with Some _ => true | None => false end = existsb f l.
Proof. induction l as [|a l IH]; [done|]. cbn. by destruct (f a). Qed.

Lemma scan_permits principal r a c :
  let '(result, keep) := scan principal r a c in
  cr_allowed result = permits (entries c) principal r a /\ (keep = true -> cr_allowed result = false).
Proof.
  unfold scan, permits, find_entry.
  rewrite <- !find_existsb.
  set (d := List.find (fun e => match ae_permission e with Deny => _ | Allow => false end) _).
  set (l := List.find (fun e => match ae_permission e with Allow => _ | Deny => false end) _).
  change (List.find _ (entries c)) with d. change (List.find _ (entries c)) with l. by destruct d, l.
Qed.

Lemma resource_text_inj r r' : resource_text r = resource_text r' -> r = r'.
Proof.
  unfold resource_text. destruct r, r'; cbn [resource_type resource_name]; rewrite ?str_app_cons, ?str_app_nil; intros Heq; try discriminate Heq; try done.
  all: by injection Heq as ->.
Qed.

Lemma key_of_inj p r a p' r' a' : key_of p r a = key_of p' r' a' -> p = p' /\ r = r' /\ a = a'.
Proof. intros [= -> Hr%resource_text_inj Ha]. split; [done|]. split; [done|]. by destruct a, a'. Qed.

(** Every cached answer is what the entries say, and a denial. *)
Definition cache_right (c : AclChecker) : Prop :=
  forall p r a b, cache c !! key_of p r a = Some b -> b = false /\ permits (entries c) p r a = false.

Lemma cache_right_empty es : cache_right (mk_checker es ∅).
Proof. intros p r a b. cbn. by rewrite lookup_empty. Qed.

Inductive operation : Type :=
| OpAdd (e : AclEntry) | OpRemove (id : string) | OpClear | OpCheck (principal : string) (r : AclResource) (a : AclAction).

(** The checker after an operation, and its answer, if it is a check. *)
Definition apply (o : operation) (c : AclChecker) : AclChecker * option bool :=
  match o with
  | OpAdd e => (add_entry e c, None)
  | OpRemove id => (fst (remove_entry id c), None)
  | OpClear => (clear c, None)
  | OpCheck p r a => let '(c, result) := check p r a c in (c, Some (cr_allowed result))
  end.

Fixpoint answers (os : list operation) (c : AclChecker) : list (option bool) :=
  match os with [] => [] | o :: os => let '(c, b) := apply o c in b :: answers os c end.

(** What should be answered: the entries, and what they say, without a cache. *)
Fixpoint due_answers (os : list operation) (es : list AclEntry) : list (option bool) :=
  match os with
  | [] => []
  | OpAdd e :: os => None :: due_answers os (es ++ [e])
  | OpRemove id :: os => None :: due_answers os (List.filter (fun e => negb (bool_decide (ae_id e = id))) es)
  | OpClear :: os => None :: due_answers os []
  | OpCheck p r a :: os => Some (permits es p r a) :: due_answers os es
  end.

Lemma filter_length_same {A} (f : A -> bool) l : length (List.filter f l) = length l -> List.filter f l = l.
Proof.
  assert (Hle : forall l : list A, (length (List.filter f l) <= length l)%nat).
  { induction l0 as [|b l0 IH]; cbn; [done|]. destruct (f b); cbn; lia. }
  induction l as [|a l IH]; [done|]. cbn. destruct (f a); cbn; intros Hlen; [by rewrite IH by lia|]. specialize (Hle l). lia.
Qed.

Lemma acl_check_answer p r a c : cache_right c -> cr_allowed (snd (check p r a c)) = permits (entries c) p r a.
Proof.
  intros Hc. unfold check. destruct (cache c !! key_of p r a) as [b|] eqn:Hb.
  - by destruct (Hc p r a b Hb) as [-> ->].
  - pose proof (scan_permits p r a c) as Hs. destruct (scan p r a c) as [result keep]. by destruct Hs as [Hs _].
Qed.

(** The cache of the checker cannot be seen.  Whatever entries are added and removed, one operation after the other, every check
    answers what the entries of that moment say: an entry allows the action for the principal on the resource, and none denies it. *)
Theorem acl_check_spec os c : cache_right c -> answers os c = due_answers os (entries c).
Proof.
  revert c. induction os as [|o os IH]; intros c Hc; [done|]. cbn [answers due_answers]. destruct o as [e|id| |p r a]; cbn [apply].
  - rewrite IH; [done|]. apply cache_right_empty.
  - unfold remove_entry. cbn [fst]. set (c' := retain_entries id c). destruct (Nat.ltb_spec (length (entries c')) (length (entries c))) as [Hlt|Hge].
    + rewrite IH; [done|]. apply cache_right_empty.
    + rewrite IH; [done|]. assert (He : entries c' = entries c).
      { apply filter_length_same. assert (length (entries c') <= length (entries c))%nat; [|cbn in *; lia].
        cbn. clear. induction (entries c) as [|e l IH]; cbn; [done|]. destruct (negb _); cbn; lia. }
      intros p r a b Hb. rewrite He. by apply Hc.
  - rewrite IH; [done|]. apply cache_right_empty.
  - unfold check. destruct (cache c !! key_of p r a) as [b|] eqn:Hb.
    + destruct (Hc p r a b Hb) as [-> ->]. by rewrite IH.
    + pose proof (scan_permits p r a c) as Hs. destruct (scan p r a c) as [result keep]. destruct Hs as [Hs Hkeep]. rewrite Hs. f_equal.
      destruct keep; [|by apply IH]. rewrite IH; [done|]. intros p' r' a' b'. cbn [cache entries store_cached].
      intros [[Hk <-]|[_ Hb']]%lookup_insert_Some; [|by apply Hc]. apply key_of_inj in Hk as (<- & <- & <-).
      rewrite <- Hs. by split; apply Hkeep.
Qed.

(** ** Patterns *)

Lemma has_star_app s t : has_star (s +:+ t) = has_star s || has_star t.
Proof. induction s as [|a s IH]; [done|]. rewrite str_app_cons. cbn [has_star]. by rewrite IH, orb_assoc. Qed.

Lemma strip_last_star_app s t : t <> "" -> strip_last_star (s +:+ t) = (fun u => s +:+ u) <$> strip_last_star t.
Proof.
  intros Ht. induction s as [|a s IH].
  { rewrite str_app_nil. destruct (strip_last_star t) as [u|]; [|done]. exact (f_equal Some (eq_sym (str_app_nil u))). }
  rewrite str_app_cons. cbn [strip_last_star].
  rewrite IH. destruct (s +:+ t) as [|b u] eqn:Hst; [exfalso; destruct s; [exact (Ht Hst)|discriminate Hst]|]. by destruct (strip_last_star t).
Qed.

Lemma strip_last_star_none s : has_star s = false -> strip_last_star s = None.
Proof.
  induction s as [|a s IH]; [done|]. cbn [has_star strip_last_star]. intros [Ha Hs]%orb_false_elim. rewrite Ha, IH by done. by destruct s.
Qed.

Lemma split_star_none s : has_star s = false -> split_star s = [s].
Proof. induction s as [|a s IH]; [done|]. cbn [has_star split_star]. intros [Ha Hs]%orb_false_elim. by rewrite IH, Ha by done. Qed.

Lemma split_star_one pre suf : has_star pre = false -> has_star suf = false -> split_star (pre +:+ String star suf) = [pre; suf].
Proof.
  intros Hp Hs. induction pre as [|a pre IH].
  - rewrite str_app_nil. cbn [split_star]. by rewrite split_star_none, bool_decide_true by done.
  - rewrite str_app_cons. cbn [has_star split_star] in *. apply orb_false_elim in Hp as [Ha Hp]. by rewrite IH, Ha by done.
Qed.

Lemma ends_with_nil s : ends_with "" s = true.
Proof. induction s as [|a s IH]; [done|]. cbn [ends_with]. rewrite IH. apply orb_true_r. Qed.

Lemma starts_nil s : starts "" s = true.
Proof. unfold starts. cbn [strip_prefix]. by apply bool_decide_eq_true_2. Qed.

(** What a pattern matches.  A pattern without a star matches itself, and one with a single star the names that begin with what
    is before it and end with what is behind it, wherever the star is; both parts may lie over each other. *)
Theorem pattern_spec pre suf value :
  has_star pre = false -> has_star suf = false ->
  pattern_matches pre value = bool_decide (pre = value)
  /\ pattern_matches (pre +:+ String star suf) value = starts pre value && ends_with suf value.
Proof.
  intros Hp Hs. unfold pattern_matches. split.
  - rewrite bool_decide_false by (intros ->; discriminate Hp). rewrite strip_last_star_none by done. destruct pre as [|a pre]; [done|].
    pose proof Hp as Hp'. cbn [has_star] in Hp'. apply orb_false_elim in Hp' as [-> _]. by rewrite Hp.
  - assert (Hlast : strip_last_star (pre +:+ String star suf) = if bool_decide (suf = ""%string) then Some pre else None).
    { rewrite strip_last_star_app by done. cbn [strip_last_star]. destruct suf as [|b suf].
      - rewrite !bool_decide_true by done. cbn [fmap option_fmap option_map]. f_equal. clear. induction pre as [|a pre IH]; [done|]. by rewrite str_app_cons, IH.
      - by rewrite strip_last_star_none, bool_decide_false by done. }
    rewrite Hlast. destruct (decide (suf = ""%string)) as [-> |Hsuf].
    + rewrite ends_with_nil, andb_true_r, (bool_decide_true (""%string = ""%string)) by done.
      destruct (bool_decide (pre +:+ String star "" = "*"%string)) eqn:Hall; [|done]. apply bool_decide_eq_true_1 in Hall.
      destruct pre as [|a pre]; [by rewrite starts_nil|]. exfalso. injection Hall as _ Hall. by destruct pre.
    + rewrite (bool_decide_false (suf = ""%string)) by done.
      destruct pre as [|a pre].
      * rewrite str_app_nil, starts_nil. cbn [andb]. rewrite bool_decide_false by (intros [= ->]; done). by rewrite bool_decide_true by done.
      * rewrite bool_decide_false by (rewrite str_app_cons; destruct pre; [done|rewrite str_app_cons; done]).
        pose proof (split_star_one (String a pre) suf Hp Hs) as Hsplit.
        assert (Hhas : has_star (String a pre +:+ String star suf) = true) by (rewrite has_star_app; apply orb_true_r).
        rewrite Hhas, Hsplit. rewrite str_app_cons. pose proof Hp as Hp'. cbn [has_star] in Hp'. apply orb_false_elim in Hp' as [-> _]. done.
Qed.

Lemma pattern_spec_witness :
  pattern_matches "orders-*" "orders-eu" = true /\ pattern_matches "ab*ba" "aba" = true /\ pattern_matches "orders" "orders-eu" = false.
Proof.
  pose proof (pattern_spec "orders-" "" "orders-eu" eq_refl eq_refl) as [_ H1].
  pose proof (pattern_spec "ab" "ba" "aba" eq_refl eq_refl) as [_ H2].
  pose proof (pattern_spec "orders" "" "orders-eu" eq_refl eq_refl) as [H3 _].
  split; [exact H1|]. split; [exact H2|exact H3].
Defined.

(** ** Operations at the same time *)

(** Where an operation is: each step holds one lock. *)
Inductive thread : Type :=
| TLook (principal : string) (r : AclResource) (a : AclAction)
| TScan (principal : string) (r : AclResource) (a : AclAction)
| TStore (principal : string) (r : AclResource) (a : AclAction) (allowed : bool)
| TPush (e : AclEntry)
| TRetain (id : string)
| TClearEntries
| TClearCache
| TDone.

(** The answer of a check. *)
Record decision : Type := mk_decision { dn_principal : string; dn_resource : AclResource; dn_action : AclAction; dn_allowed : bool }.

Definition thread_step (t : thread) (c : AclChecker) : AclChecker * thread * list decision :=
  match t with
  | TLook p r a =>
      match cache c !! key_of p r a with
      | Some b => (c, TDone, [mk_decision p r a b])
      | None => (c, TScan p r a, [])
      end
  | TScan p r a =>
      let '(result, keep) := scan p r a c in
      (c, if keep then TStore p r a (cr_allowed result) else TDone, [mk_decision p r a (cr_allowed result)])
  | TStore p r a allowed => (store_cached p r a allowed c, TDone, [])
  | TPush e => (push_entry e c, TClearCache, [])
  | TRetain id =>
      let c' := retain_entries id c in
      (c', if (length (entries c') <? length (entries c))%nat then TClearCache else TDone, [])
  | TClearEntries => (clear_entries c, TClearCache, [])
  | TClearCache => (clear_cache c, TDone, [])
  | TDone => (c, TDone, [])
  end.

(** The operations take their steps in any order; the steps that were taken, with their answers. *)
Abbreviation history := (list (thread * list decision)).
Fixpoint run_threads (schedule : list nat) (ts : list thread) (c : AclChecker) : list thread * AclChecker * history :=
  match schedule with
  | [] => (ts, c, [])
  | i :: schedule =>
      match ts !! i with
      | Some t =>
          let '(c, t', d) := thread_step t c in
          let '(ts, c, h) := run_threads schedule (<[i := t']> ts) c in (ts, c, (t, d) :: h)
      | None => run_threads schedule ts c
      end
  end.

(** An operation that nothing disturbs. *)
Definition alone (t : thread) (c : AclChecker) : AclChecker := snd (fst (run_threads [0; 0; 0]%nat [t] c)).

(** Where an operation begins. *)
Definition begins (t : thread) : Prop := match t with TLook _ _ _ | TPush _ | TRetain _ | TClearEntries => True | _ => False end.

(** What the steps are meant to make of the entries. *)
Definition change (t : thread) (es : list AclEntry) : list AclEntry :=
  match t with
  | TPush e => es ++ [e]
  | TRetain id => List.filter (fun e => negb (bool_decide (ae_id e = id))) es
  | TClearEntries => []
  | _ => es
  end.
Definition entries_after (h : history) (es : list AclEntry) : list AclEntry := foldl (fun es ev => change ev.1 es) es h.

Section histories.
Context (es : list AclEntry).

(** A check looked at the entries at step [j], and they did not permit it. *)
Definition refused (h : history) (j : nat) (p : string) (r : AclResource) (a : AclAction) : Prop :=
  h !! j = Some (TScan p r a, [mk_decision p r a false]) /\ permits (entries_after (take j h) es) p r a = false.

(** A refusal was stored at a step after [j], and the cache has not been cleared before step [k]. *)
Definition kept (h : history) (j k : nat) (p : string) (r : AclResource) (a : AclAction) : Prop :=
  exists s, (j < s < k)%nat /\ h !! s = Some (TStore p r a false, [])
    /\ forall i ev, (s < i < k)%nat -> h !! i = Some ev -> ev.1 <> TClearCache.

(** What an answer at step [k] rests on: the entries of that moment, or a refusal that is still in the cache. *)
Definition founded (h : history) (k : nat) (d : decision) : Prop :=
  let permitted := permits (entries_after (take k h) es) (dn_principal d) (dn_resource d) (dn_action d) in
  if dn_allowed d then permitted = true
  else permitted = false \/ exists j, refused h j (dn_principal d) (dn_resource d) (dn_action d) /\ kept h j k (dn_principal d) (dn_resource d) (dn_action d).

(** What a check is about to store was refused. *)
Definition to_store (h : history) (t : thread) : Prop :=
  match t with TStore p r a allowed => allowed = false /\ exists j, refused h j p r a | _ => True end.

Record thread_inv (h : history) (ts : list thread) (c : AclChecker) : Prop := {
  ti_entries : entries c = entries_after h es;
  ti_cache : forall p r a b, cache c !! key_of p r a = Some b -> b = false /\ exists j, refused h j p r a /\ kept h j (length h) p r a;
  ti_threads : Forall (to_store h) ts
}.

Lemma refused_mono h h' j p r a : refused h j p r a -> refused (h ++ h') j p r a.
Proof.
  intros [Hj Hp]. pose proof (lookup_lt_Some _ _ _ Hj). split; [by apply lookup_app_l_Some|]. by rewrite take_app_le by lia.
Qed.

Lemma kept_mono h h' j k p r a : (k <= length h)%nat -> kept h j k p r a -> kept (h ++ h') j k p r a.
Proof.
  intros Hk (s & Hs & Hst & Hno). exists s. split; [done|]. split; [by apply lookup_app_l_Some|].
  intros i ev Hi Hev. apply (Hno i ev Hi). by rewrite lookup_app_l in Hev by lia.
Qed.

Lemma founded_mono h h' k d : (k < length h)%nat -> founded h k d -> founded (h ++ h') k d.
Proof.
  intros Hk. unfold founded. rewrite take_app_le by lia. destruct (dn_allowed d); [done|]. intros [Hp|(j & Hj & Hkept)]; [by left|].
  right. exists j. split; [by apply refused_mono|]. apply kept_mono; [lia|done].
Qed.

Lemma kept_snoc h ev j p r a : ev.1 <> TClearCache -> kept h j (length h) p r a -> kept (h ++ [ev]) j (length (h ++ [ev])) p r a.
Proof.
  intros Hev (s & Hs & Hst & Hno). rewrite length_app. cbn [length]. exists s. split; [lia|]. split; [by apply lookup_app_l_Some|].
  intros i ev' Hi [Hl|[_ Hl]]%lookup_app_Some; [by apply (Hno i ev'); [apply lookup_lt_Some in Hl; lia|]|]. by apply list_lookup_singleton_Some in Hl as [_ <-].
Qed.

(** A step keeps the invariant, and its answers are founded. *)
Lemma thread_step_inv h ts c i t :
  thread_inv h ts c -> ts !! i = Some t ->
  let '(c', t', d) := thread_step t c in
  thread_inv (h ++ [(t, d)]) (<[i := t']> ts) c' /\ Forall (founded (h ++ [(t, d)]) (length h)) d.
Proof.
  intros [He Hc Hts] Hi. pose proof (Forall_lookup_1 _ _ _ _ Hts Hi) as Ht.
  assert (Hthreads : forall d t', to_store (h ++ [(t, d)]) t' -> Forall (to_store (h ++ [(t, d)])) (<[i := t']> ts)).
  { intros d t' Ht'. apply Forall_insert; [|exact Ht']. eapply Forall_impl; [exact Hts|]. intros [] Hx; try done. destruct Hx as [-> [j Hj]].
    split; [done|]. exists j. by apply refused_mono. }
  assert (Hcache : forall d, t <> TClearCache -> forall p r a b, cache c !! key_of p r a = Some b ->
            b = false /\ exists j, refused (h ++ [(t, d)]) j p r a /\ kept (h ++ [(t, d)]) j (length (h ++ [(t, d)])) p r a).
  { intros d Hne p r a b (-> & j & Hj & Hk)%Hc. split; [done|]. exists j. split; [by apply refused_mono|]. by apply kept_snoc. }
  assert (Hafter : forall d, entries_after (h ++ [(t, d)]) es = change t (entries c)) by (intros d; unfold entries_after; by rewrite foldl_app, He).
  assert (Hnow : forall ev, entries_after (take (length h) (h ++ [ev])) es = entries c) by (intros ev; by rewrite take_app_length).
  destruct t as [p r a|p r a|p r a allowed|e|id| | |]; cbn [thread_step].
  - destruct (cache c !! key_of p r a) as [b|] eqn:Hb.
    + split; [split; [by rewrite Hafter|by apply Hcache|by apply Hthreads]|]. constructor; [|constructor].
      destruct (Hc p r a b Hb) as (-> & j & Hj & Hk). unfold founded. cbn [dn_allowed dn_principal dn_resource dn_action]. right. exists j.
      split; [by apply refused_mono|by apply kept_mono].
    + split; [split; [by rewrite Hafter|by apply Hcache|by apply Hthreads]|constructor].
  - pose proof (scan_permits p r a c) as Hs. destruct (scan p r a c) as [result keep]. destruct Hs as [Hs Hkeep].
    split; [split; [by rewrite Hafter|by apply Hcache|]|].
    + apply Hthreads. destruct keep; [|done]. specialize (Hkeep eq_refl). rewrite Hkeep in *. split; [done|]. exists (length h).
      split; [by rewrite lookup_app_r, Nat.sub_diag by lia|]. by rewrite Hnow.
    + constructor; [|constructor]. unfold founded. cbn [dn_allowed dn_principal dn_resource dn_action]. rewrite Hnow, <- Hs.
      destruct (cr_allowed result); [done|by left].
  - destruct Ht as [-> [j0 Hj0]]. split; [split; [by rewrite Hafter| |by apply Hthreads]|constructor].
    intros p' r' a' b. cbn [cache store_cached]. intros [[Hk <-]|[_ Hb]]%lookup_insert_Some; [|by apply (Hcache _ ltac:(done))].
    apply key_of_inj in Hk as (<- & <- & <-). split; [done|]. pose proof Hj0 as [Hl0%lookup_lt_Some _]. exists j0. split; [by apply refused_mono|].
    exists (length h). rewrite length_app. cbn [length]. split; [lia|]. split; [by rewrite lookup_app_r, Nat.sub_diag by lia|]. intros i' ev Hi'. lia.
  - split; [split; [by rewrite Hafter|by apply Hcache|by apply Hthreads]|constructor].
  - split; [|constructor]. split; [by rewrite Hafter|by apply Hcache|]. apply Hthreads. by destruct (_ <? _)%nat.
  - split; [split; [by rewrite Hafter|by apply Hcache|by apply Hthreads]|constructor].
  - split; [split; [by rewrite Hafter| |by apply Hthreads]|constructor]. intros p r a b. cbn. by rewrite lookup_empty.
  - split; [split; [by rewrite Hafter|by apply Hcache|by apply Hthreads]|constructor].
Qed.

Lemma run_threads_entries schedule ts c :
  let '(_, c', h) := run_threads schedule ts c in entries c' = entries_after h (entries c).
Proof.
  revert ts c. induction schedule as [|i schedule IH]; intros ts c; cbn [run_threads]; [done|].
  destruct (ts !! i) as [t|]; [|apply IH].
  assert (Ht : let '(c', _, _) := thread_step t c in entries c' = change t (entries c)).
  { destruct t as [p r a|p r a|p r a allowed|e|id| | |]; cbn [thread_step]; try done; [by destruct (cache c !! _)|].
    by destruct (scan p r a c). }
  destruct (thread_step t c) as [[c' t'] d]. specialize (IH (<[i := t']> ts) c'). destruct (run_threads schedule _ c') as [[ts' c2] h].
  by rewrite IH, Ht.
Qed.

Lemma run_threads_inv schedule h ts c :
  thread_inv h ts c ->
  forall k t ds d, (length h <= k)%nat -> (h ++ snd (run_threads schedule ts c)) !! k = Some (t, ds) -> d ∈ ds ->
  founded (h ++ snd (run_threads schedule ts c)) k d.
Proof.
  revert h ts c. induction schedule as [|i schedule IH]; intros h ts c Hinv; cbn [run_threads].
  { intros k t ds d Hk Hl. cbn [snd] in Hl. rewrite app_nil_r in Hl. apply lookup_lt_Some in Hl. lia. }
  destruct (ts !! i) as [t0|] eqn:Hi; [|by apply IH].
  pose proof (thread_step_inv h ts c i t0 Hinv Hi) as Hstep. destruct (thread_step t0 c) as [[c' t'] d0]. destruct Hstep as [Hinv' Hfound].
  specialize (IH (h ++ [(t0, d0)]) (<[i := t']> ts) c' Hinv'). destruct (run_threads schedule _ c') as [[ts' c2] h2]. cbn [snd] in *.
  rewrite <- app_assoc in IH. cbn [app] in IH. intros k t ds d Hk Hl Hd.
  destruct (decide (k = length h)) as [-> |Hne].
  - rewrite lookup_app_r, Nat.sub_diag in Hl by lia. injection Hl as <- <-. rewrite Forall_forall in Hfound.
    specialize (Hfound d Hd). change ((t0, d0) :: h2) with ([(t0, d0)] ++ h2). rewrite app_assoc. apply founded_mono; [|done].
    rewrite length_app. cbn. lia.
  - apply (IH k t ds d); [rewrite length_app; cbn; lia|done|done].
Qed.
End histories.

(** C39: the cache of the checker never allows what the entries do not.  However the steps of operations interleave that begin on a checker
    with an empty cache, the entries are always those that the additions, removals and clearings so far left, and every check that
    allows does so because they permit it at that moment.  A check denies because they do not permit it at that moment, or
    because another check found that earlier, and no cache was cleared since it stored that (which it may do
    after an entry that would permit it was added).  An operation that nothing disturbs takes exactly these steps. *)
Theorem acl_no_stale_allow schedule ts es :
  Forall begins ts ->
  let '(_, c, h) := run_threads schedule ts (with_entries es) in
  (forall k t ds d, h !! k = Some (t, ds) -> d ∈ ds -> founded es h k d)
  /\ entries c = entries_after h es
  /\ (forall c e, alone (TPush e) c = add_entry e c) /\ (forall c id, alone (TRetain id) c = fst (remove_entry id c))
  /\ (forall c, alone TClearEntries c = clear c) /\ (forall c p r a, alone (TLook p r a) c = fst (check p r a c)).
Proof.
  intros Hts. assert (Hinv : thread_inv es [] ts (with_entries es)).
  { split; [done|intros p r a b; cbn; by rewrite lookup_empty|]. eapply Forall_impl; [exact Hts|]. by intros []. }
  pose proof (run_threads_inv es schedule [] ts (with_entries es) Hinv) as Hrun. pose proof (run_threads_entries schedule ts (with_entries es)) as He.
  destruct (run_threads schedule ts _) as [[ts' c] h]. cbn [snd fst app] in *. split; [intros k t ds d; apply Hrun; cbn; lia|]. split; [done|].
  split; [done|]. split; [|split; [done|]].
  - intros c0 id. unfold alone, remove_entry. cbn [run_threads thread_step lookup list_lookup]. cbn [insert list_insert].
    by destruct (_ <? _)%nat.
  - intros c0 p r a. unfold alone, check. cbn [run_threads thread_step lookup list_lookup]. destruct (cache c0 !! key_of p r a) as [b|] eqn:Hb; cbn; rewrite ?Hb; [done|].
    destruct (scan p r a c0) as [result [|]]; cbn; done.
Qed.

Definition read_orders : AclEntry := mk_acl_entry "e1" "apikey:*" (RTopic "orders*") Read Allow 0 None.

(** An entry is added between two steps of a check, and taken away again before the next check. *)
Lemma acl_no_stale_allow_witness :
  let '(_, _, h) := run_threads [0; 1; 0; 1; 3; 3; 2; 2]%nat
    [TLook "apikey:1" (RTopic "orders") Read; TPush read_orders; TLook "apikey:2" (RTopic "orders-eu") Read; TRetain "e1"] new_checker in
  map dn_allowed (concat (map snd h)) = [true; false] /\ forall k t ds d, h !! k = Some (t, ds) -> d ∈ ds -> founded [] h k d.
Proof.
  pose proof (acl_no_stale_allow [0; 1; 0; 1; 3; 3; 2; 2]%nat
    [TLook "apikey:1" (RTopic "orders") Read; TPush read_orders; TLook "apikey:2" (RTopic "orders-eu") Read; TRetain "e1"] []
    ltac:(repeat constructor)) as Ha.
  change (with_entries []) with new_checker in Ha. destruct (run_threads _ _ _) as [[ts c] h] eqn:Hr. destruct Ha as [Ha _].
  split; [|exact Ha]. vm_compute in Hr. injection Hr as _ _ <-. reflexivity.
Defined.

(** The check scans, the entry is added and the cache cleared, and only then the denial is stored. *)
Lemma stale_denial_stays :
  let '(_, c, _) := run_threads [0; 0; 1; 1; 0]%nat [TLook "apikey:1" (RTopic "orders") Read; TPush read_orders] new_checker in
  permits (entries c) "apikey:1" (RTopic "orders") Read = true /\ cr_allowed (snd (check "apikey:1" (RTopic "orders") Read c)) = false.
Proof. vm_compute. split; reflexivity. Qed.

(** ** The layer *)

(** Who passes the layer.  A request to a route that the layer knows passes when the bypass for administrators applies or the entries permit it, and only then;
    a request to any other route passes whoever sends it, although the default is documented to be to deny. *)
Theorem layer_guards config q c :
  cache_right c -> enabled config = true ->
  let v := snd (call default_resource_extractor config q c) in
  match default_resource_extractor (rq_method q) (rq_path q) with
  | None => v = Passed
  | Some (r, a) =>
      v = Passed <->
      (admin_bypass config = true /\ (pattern_matches (admin_pattern config) (principal_of q) = true
                                      \/ exists key_id permissions, rq_key q = Some (key_id, permissions) /\ "admin"%string ∈ permissions))
      \/ permits (entries c) (principal_of q) r a = true
  end.
Proof.
  intros Hc He. unfold call. rewrite He. cbn [negb]. destruct (default_resource_extractor _ _) as [[r a]|]; [|done]. cbv zeta.
  destruct (admin_bypass config && pattern_matches (admin_pattern config) (principal_of q)) eqn:H1.
  { apply andb_prop in H1 as [Hb Hm]. split; [|done]. intros _. left. by split; [|left]. }
  destruct (admin_bypass config && match rq_key q with Some (_, ps) => bool_decide ("admin"%string ∈ ps) | None => false end) eqn:H2.
  { apply andb_prop in H2 as [Hb Hm]. destruct (rq_key q) as [[key_id ps]|]; [|done]. apply bool_decide_eq_true_1 in Hm.
    split; [|done]. intros _. left. split; [done|]. right. by exists key_id, ps. }
  pose proof (acl_check_answer (principal_of q) r a c Hc) as Hcheck.
  destruct (check (principal_of q) r a c) as [c' result]. cbn [snd] in Hcheck. rewrite <- Hcheck. split.
  - destruct (cr_allowed result); [by right|done].
  - intros [[Hb Hor]|Hp]; [|by rewrite Hp]. exfalso. rewrite Hb in H1, H2. cbn [andb] in H1, H2. destruct Hor as [Hm|(key_id & ps & Hk & Hin)]; [congruence|].
    rewrite Hk in H2. by rewrite bool_decide_true in H2 by done.
Qed.

Lemma layer_guards_witness :
  let q := mk_request "DELETE" "/api/v1/topics/orders" (Some ("k1", ["read"])) in
  snd (call default_resource_extractor (mk_acl_config true true Deny "admin:*") q (with_entries [read_orders])) <> Passed.
Proof.
  cbv zeta. pose proof (layer_guards (mk_acl_config true true Deny "admin:*") (mk_request "DELETE" "/api/v1/topics/orders" (Some ("k1", ["read"])))
    (with_entries [read_orders]) (cache_right_empty _) eq_refl) as Hg.
  cbv zeta in Hg. change (default_resource_extractor _ _) with (Some (RTopic "orders", Delete)) in Hg. intros Hp%Hg. vm_compute in Hp.
  destruct Hp as [[_ [[=]|(k & ps & [= <- <-] & Hin)]]|[=]]. apply list_elem_of_singleton in Hin. discriminate Hin.
Defined.

Lemma acl_check_spec_witness :
  let os := [OpCheck "apikey:1" (RTopic "orders") Read; OpCheck "apikey:1" (RTopic "orders") Read; OpAdd read_orders;
             OpCheck "apikey:1" (RTopic "orders") Read; OpRemove "e1"; OpCheck "apikey:1" (RTopic "orders") Read] in
  answers os new_checker = [Some false; Some false; None; Some true; None; Some false].
Proof. cbv zeta. rewrite acl_check_spec by apply cache_right_empty. reflexivity. Defined.

(** The routes of the API that the extractor has no arm for are open to anyone. *)
Lemma unknown_routes_pass :
  map (fun path => snd (call default_resource_extractor (mk_acl_config true true Deny "admin:*") (mk_request "POST" path None) new_checker))
    ["/api/v1/query/ask"; "/api/v1/schemas/subjects"; "/api/v1/topics/orders/partitions"; "/api/v1/topics"]%string
  = [Passed; Passed; Passed; Forbidden "Access denied: create on all:* for anonymous"].
Proof. vm_compute. reflexivity. Qed.

(** No key is an administrator by its principal under the default pattern. *)
Lemma admin_pattern_idle acl_enabled q : pattern_matches (admin_pattern (default_acl_config acl_enabled)) (principal_of q) = false.
Proof. unfold principal_of. destruct (rq_key q) as [[key_id ps]|]; reflexivity. Qed.
