(* ===== verification/Tenancy.v ===== *)
(** * Organizations, API keys and authentication

    The tables of streamhouse-metadata/src/store.rs for organizations, keys, quotas and usage;
    tenant.rs, and of streamhouse-api the middleware (auth.rs) and the handlers of keys and
    organizations.  Of SQLite, ids in the text of a statement are taken to have no quote
    ([get_organization_sql] shows what else they would do).  SHA-256, the validation of JWTs,
    random bytes and fresh ids are parameters. *)

From stdpp Require Import pretty sorting.
From S2P Require Import Prelude HashMap MetadataError Catalog.

(** ** Data *)

Inductive DeploymentMode : Type := SelfHosted | Byoc | Managed.
Inductive OrganizationPlan : Type := Free | Pro | Enterprise.
Inductive OrganizationStatus : Type := Active | Suspended | Deleted.

#[export] Instance OrganizationStatus_eq_dec : EqDecision OrganizationStatus.
Proof. solve_decision. Defined.

Definition mode_text (m : DeploymentMode) : string :=
  match m with SelfHosted => "self_hosted" | Byoc => "byoc" | Managed => "managed" end.
Definition plan_text (p : OrganizationPlan) : string :=
  match p with Free => "free" | Pro => "pro" | Enterprise => "enterprise" end.
Definition status_text (s : OrganizationStatus) : string :=
  match s with Active => "active" | Suspended => "suspended" | Deleted => "deleted" end.

(** [FromStr]. *)
Definition parse_mode (s : string) : option DeploymentMode :=
  let s := to_lowercase s in
  if bool_decide (s = "self_hosted"%string) then Some SelfHosted else if bool_decide (s = "byoc"%string) then Some Byoc
  else if bool_decide (s = "managed"%string) then Some Managed else None.
Definition parse_plan (s : string) : option OrganizationPlan :=
  let s := to_lowercase s in
  if bool_decide (s = "free"%string) then Some Free else if bool_decide (s = "pro"%string) then Some Pro
  else if bool_decide (s = "enterprise"%string) then Some Enterprise else None.
Definition parse_status (s : string) : option OrganizationStatus :=
  let s := to_lowercase s in
  if bool_decide (s = "active"%string) then Some Active else if bool_decide (s = "suspended"%string) then Some Suspended
  else if bool_decide (s = "deleted"%string) then Some Deleted else None.

Record Organization : Type := mk_organization {
  o_id : string; o_name : string; o_slug : string; o_plan : OrganizationPlan; o_status : OrganizationStatus;
  o_created_at : Z; o_settings : gmap string string; o_external_id : option string; o_deployment_mode : DeploymentMode
}.

Record CreateOrganization : Type := mk_create_organization {
  c_name : string; c_slug : string; c_plan : OrganizationPlan; c_settings : gmap string string; c_external_id : option string;
  c_deployment_mode : DeploymentMode
}.

Record ApiKey : Type := mk_api_key {
  k_id : string; k_organization_id : string; k_name : string; k_key_prefix : string; k_permissions : list string; k_scopes : list string;
  k_expires_at : option Z; k_last_used_at : option Z; k_created_at : Z; k_created_by : option string;
  k_max_requests_per_sec : option Z; k_max_produce_bytes_per_sec : option Z; k_max_consume_bytes_per_sec : option Z
}.

Record CreateApiKey : Type := mk_create_api_key {
  ck_name : string; ck_permissions : list string; ck_scopes : list string; ck_expires_in_ms : option Z
}.

Record OrganizationQuota : Type := mk_quota {
  q_organization_id : string; max_topics : Z; max_partitions_per_topic : Z; max_total_partitions : Z; max_storage_bytes : Z;
  max_retention_days : Z; max_produce_bytes_per_sec : Z; max_consume_bytes_per_sec : Z; max_requests_per_sec : Z;
  max_consumer_groups : Z; max_schemas : Z; max_schema_versions_per_subject : Z; max_connections : Z
}.

(** The default, with the id that its user fills in. *)
Definition default_quota (org_id : string) : OrganizationQuota :=
  mk_quota org_id 10 12 100 10737418240 7 10485760 52428800 1000 50 100 100 100.

(** ** Tables

    Every statement of the store on these tables is a text into which format! puts the ids of the call between
    quotes.  The functions below say what the statement does for ids that hold no quote, which are then compared as they
    are; that an id with a quote ends the text is seen on [get_organization_sql].  So look-ups, [update_org],
    [touch_api_key], [revoke_api_key] and the statements on quotas and usage are what the code does for the ids that
    the program makes itself, and for those of clients as long as they hold no quote. *)

Record org_row : Type := mk_org_row {
  r_name : string; r_slug : string; r_plan : string; r_status : string; r_created_at : Z; r_settings : gmap string string;
  r_external_id : option string; r_mode : string
}.

(** [keys] has the hash beside the key; [usage] the value of a metric (its period is always 0). *)
Record accounts : Type := mk_accounts {
  orgs : gmap string org_row;
  keys : gmap string (ApiKey * string);
  quotas : gmap string OrganizationQuota;
  usage : gmap (string * string) Z
}.

Definition empty_accounts : accounts := mk_accounts ∅ ∅ ∅ ∅.
Definition set_orgs o (t : accounts) : accounts := mk_accounts o (keys t) (quotas t) (usage t).
Definition set_keys k (t : accounts) : accounts := mk_accounts (orgs t) k (quotas t) (usage t).

Definition organization_of_row (id : string) (r : org_row) : Organization :=
  mk_organization id (r_name r) (r_slug r) (default Free (parse_plan (r_plan r))) (default Active (parse_status (r_status r))) (r_created_at r)
    (r_settings r) (r_external_id r) (default SelfHosted (parse_mode (r_mode r))).

(** The text of the query: the id is put between the quotes as it is. *)
Definition get_organization_sql (id : string) : string :=
  "SELECT id, name, slug, plan, status, created_at, settings, external_id, deployment_mode FROM organizations WHERE id = '" +:+ id +:+ "'".

Definition get_organization (id : string) (t : accounts) : option Organization := organization_of_row id <$> orgs t !! id.

(** Of the unique columns, the row that has the value. *)
Definition org_with (f : org_row -> bool) (t : accounts) : option (string * org_row) := List.find (fun e => f e.2) (map_to_list (orgs t)).

Definition get_organization_by_slug (slug : string) (t : accounts) : option Organization :=
  (fun e => organization_of_row e.1 e.2) <$> org_with (fun r => bool_decide (r_slug r = slug)) t.
Definition get_organization_by_external_id (external_id : string) (t : accounts) : option Organization :=
  (fun e => organization_of_row e.1 e.2) <$> org_with (fun r => bool_decide (r_external_id r = Some external_id)) t.

(** A row breaks a unique column: its id, its slug or its external id. *)
Definition org_taken (id : string) (row : org_row) (t : accounts) : bool :=
  bool_decide (is_Some (orgs t !! id))
  || bool_decide (is_Some (org_with (fun r => bool_decide (r_slug r = r_slug row)) t))
  || match r_external_id row with
     | Some external_id => bool_decide (is_Some (org_with (fun r => bool_decide (r_external_id r = Some external_id)) t))
     | None => false
     end.

Definition create_organization (config : CreateOrganization) (id : string) (now : Z) (t : accounts) : accounts * outcome MetadataError Organization :=
  let row := mk_org_row (c_name config) (c_slug config) (plan_text (c_plan config)) (status_text Active) now (c_settings config) (c_external_id config)
               (mode_text (c_deployment_mode config)) in
  if org_taken id row t then (t, Err (ConflictError ("Organization with slug '" +:+ c_slug config +:+ "' already exists")))
  else (set_orgs (<[id := row]> (orgs t)) t,
        Ok (mk_organization id (c_name config) (c_slug config) (c_plan config) Active now (c_settings config) (c_external_id config) (c_deployment_mode config))).

Definition space_to_dash (a : Ascii.ascii) : Ascii.ascii := if bool_decide (a = Ascii.ascii_of_nat 32) then Ascii.ascii_of_nat 45 else a.
Fixpoint str_map (f : Ascii.ascii -> Ascii.ascii) (s : string) : string :=
  match s with EmptyString => EmptyString | String a s => String (f a) (str_map f s) end.

(** INSERT OR IGNORE: nothing happens when the id is there, and when another organization has the slug. *)
Definition ensure_organization (org_id name : string) (now : Z) (t : accounts) : accounts :=
  let row := mk_org_row name (str_map space_to_dash (to_lowercase name)) "free" "active" now ∅ None "self_hosted" in
  if org_taken org_id row t then t else set_orgs (<[org_id := row]> (orgs t)) t.

Definition name_le (a b : Organization) : Prop := String.le (o_name a) (o_name b).
#[export] Instance name_le_dec : RelDecision name_le.
Proof. intros a b. unfold name_le. apply _. Defined.

(** ORDER BY name. *)
Definition list_organizations (t : accounts) : list Organization :=
  merge_sort name_le (map (fun e => organization_of_row e.1 e.2) (map_to_list (orgs t))).

(** UPDATE organizations SET .. WHERE id = the id, which holds no quote; no row that changes is an error. *)
Definition update_org (id : string) (f : org_row -> org_row) (t : accounts) : accounts * outcome MetadataError unit :=
  match orgs t !! id with
  | Some r => (set_orgs (<[id := f r]> (orgs t)) t, Ok tt)
  | None => (t, Err (NotFoundError ("Organization " +:+ id +:+ " not found")))
  end.

Definition update_organization_status (id : string) (status : OrganizationStatus) (t : accounts) : accounts * outcome MetadataError unit :=
  update_org id (fun r => mk_org_row (r_name r) (r_slug r) (r_plan r) (status_text status) (r_created_at r) (r_settings r) (r_external_id r) (r_mode r)) t.
Definition update_organization_plan (id : string) (plan : OrganizationPlan) (t : accounts) : accounts * outcome MetadataError unit :=
  update_org id (fun r => mk_org_row (r_name r) (r_slug r) (plan_text plan) (r_status r) (r_created_at r) (r_settings r) (r_external_id r) (r_mode r)) t.
Definition delete_organization (id : string) (t : accounts) : accounts * outcome MetadataError unit := update_organization_status id Deleted t.

(** ** Keys *)

(** The prefix is unique, and the organization must exist. *)
Definition create_api_key (organization_id : string) (config : CreateApiKey) (key_hash key_prefix : string) (id : string) (now : Z) (t : accounts)
  : accounts * outcome MetadataError ApiKey :=
  let key := mk_api_key id organization_id (ck_name config) key_prefix (ck_permissions config) (ck_scopes config)
               ((fun ms => swrap 64 (now + ms)) <$> ck_expires_in_ms config) None now None None None None in
  if bool_decide (is_Some (keys t !! id))
     || existsb (fun e => bool_decide (k_key_prefix e.2.1 = key_prefix)) (map_to_list (keys t)) then (t, Err unique_error)
  else if negb (bool_decide (is_Some (orgs t !! organization_id))) then (t, Err foreign_key_error)
  else (set_keys (<[id := (key, key_hash)]> (keys t)) t, Ok key).

Definition get_api_key (id : string) (t : accounts) : option ApiKey := fst <$> keys t !! id.

Definition unexpired (now : Z) (k : ApiKey) : bool := match k_expires_at k with Some e => now <? e | None => true end.

(** The hash has no unique index: of several rows, the first that comes. *)
Definition validate_api_key `{HashOrder} (key_hash : string) (now : Z) (t : accounts) : option ApiKey :=
  (fun e : string * (ApiKey * string) => e.2.1) <$>
    List.find (fun e => bool_decide (e.2.2 = key_hash) && unexpired now e.2.1) (iter (keys t)).

Definition newer (a b : ApiKey) : Prop := k_created_at b <= k_created_at a.
#[export] Instance newer_dec : RelDecision newer.
Proof. intros a b. unfold newer. apply _. Defined.

(** ORDER BY created_at DESC. *)
Definition list_api_keys (organization_id : string) (t : accounts) : list ApiKey :=
  merge_sort newer (filter (fun k => k_organization_id k = organization_id) (map (fun e => e.2.1) (map_to_list (keys t)))).

Definition set_last_used (now : Z) (k : ApiKey) : ApiKey :=
  mk_api_key (k_id k) (k_organization_id k) (k_name k) (k_key_prefix k) (k_permissions k) (k_scopes k) (k_expires_at k) (Some now) (k_created_at k)
    (k_created_by k) (k_max_requests_per_sec k) (k_max_produce_bytes_per_sec k) (k_max_consume_bytes_per_sec k).
(** UPDATE and DELETE .. WHERE id = the id, which holds no quote. *)
Definition touch_api_key (id : string) (now : Z) (t : accounts) : accounts :=
  set_keys (alter (fun e => (set_last_used now e.1, e.2)) id (keys t)) t.
Definition revoke_api_key (id : string) (t : accounts) : accounts := set_keys (delete id (keys t)) t.

(** ** Quotas and usage *)

Definition get_organization_quota (organization_id : string) (t : accounts) : OrganizationQuota :=
  default (default_quota organization_id) (quotas t !! organization_id).

Definition set_organization_quota (quota : OrganizationQuota) (t : accounts) : accounts * outcome MetadataError unit :=
  if bool_decide (is_Some (orgs t !! q_organization_id quota))
  then (mk_accounts (orgs t) (keys t) (<[q_organization_id quota := quota]> (quotas t)) (usage t), Ok tt)
  else (t, Err foreign_key_error).

Definition set_usage (organization_id metric : string) (value : Z) (t : accounts) : accounts * outcome MetadataError unit :=
  if bool_decide (is_Some (orgs t !! organization_id))
  then (mk_accounts (orgs t) (keys t) (quotas t) (<[(organization_id, metric) := value]> (usage t)), Ok tt)
  else (t, Err foreign_key_error).

Definition metric_le (a b : string * Z) : Prop := String.le a.1 b.1.
#[export] Instance metric_le_dec : RelDecision metric_le.
Proof. intros a b. unfold metric_le. apply _. Defined.

(** Metrics and values, ORDER BY metric. *)
Definition get_organization_usage (organization_id : string) (t : accounts) : list (string * Z) :=
  merge_sort metric_le (map (fun e => (e.1.2, e.2)) (filter (fun e => e.1.1 = organization_id) (map_to_list (usage t)))).

Definition update_organization_usage (organization_id metric : string) (value : Z) (t : accounts) : accounts * outcome MetadataError unit :=
  set_usage organization_id metric value t.
Definition increment_organization_usage (organization_id metric : string) (delta : Z) (t : accounts) : accounts * outcome MetadataError unit :=
  set_usage organization_id metric (default 0 (usage t !! (organization_id, metric)) + delta) t.

(** ** Keys for clients (tenant.rs) *)

Definition hex_digit (n : nat) : Ascii.ascii := Ascii.ascii_of_nat (if (n <? 10)%nat then 48 + n else 87 + n).
Definition hex_byte (b : nat) (s : string) : string := String (hex_digit (b / 16 mod 16)) (String (hex_digit (b mod 16)) s).
Definition random_part (random_bytes : list nat) : string := foldr hex_byte EmptyString random_bytes.

Fixpoint take_chars (n : nat) (s : string) : string :=
  match n, s with S n, String a s => String a (take_chars n s) | _, _ => EmptyString end.

(** The key for the client, its hash and its prefix, from 32 random bytes. *)
Definition generate_api_key (sha256_hex : string -> string) (prefix : string) (random_bytes : list nat) : string * string * string :=
  let raw_key := prefix +:+ "_" +:+ random_part random_bytes in
  (raw_key, sha256_hex raw_key, take_chars 12 raw_key).

(** ** The middleware of the API (auth.rs) *)

Inductive RequiredPermission : Type := RequiresRead | RequiresWrite | RequiresAdmin | RequiresNone.

Definition has (p : string) (permissions : list string) : bool := bool_decide (p ∈ permissions).
Definition is_satisfied_by (permissions : list string) (required : RequiredPermission) : bool :=
  match required with
  | RequiresNone => true
  | RequiresRead => has "read" permissions || has "write" permissions || has "admin" permissions
  | RequiresWrite => has "write" permissions || has "admin" permissions
  | RequiresAdmin => has "admin" permissions
  end.

Record AuthenticatedKey : Type := mk_authenticated {
  ak_key_id : string; ak_organization_id : string; ak_permissions : list string; ak_scopes : list string
}.

(** The scopes of a key; no handler asks. *)
Definition can_access_topic (topic : string) (key : AuthenticatedKey) : bool :=
  match ak_scopes key with
  | [] => true
  | scopes => existsb (fun scope =>
      if ends_with "*" scope then bool_decide (is_Some (strip_prefix (take_chars (String.length scope - 1) scope) topic))
      else bool_decide (scope = topic)) scopes
  end.

Inductive AuthError : Type := AMissingApiKey | AInvalidApiKey | AInsufficientPermissions | AInternalError.

Definition auth_status (e : AuthError) : Z :=
  match e with AMissingApiKey | AInvalidApiKey => 401 | AInsufficientPermissions => 403 | AInternalError => 500 end.

(** The parts between dots are three, and none is empty. *)
Fixpoint split_dots (s part : string) : list string :=
  match s with
  | EmptyString => [part]
  | String a s => if bool_decide (a = Ascii.ascii_of_nat 46) then part :: split_dots s EmptyString else split_dots s (part +:+ String a EmptyString)
  end.
Definition looks_like_jwt (token : string) : bool :=
  let parts := split_dots token EmptyString in
  (length parts =? 3)%nat && forallb (fun p => negb (bool_decide (p = ""%string))) parts.

Section middleware.
(** The third-party code, and the answer of the database when it fails. *)
Context `{HashOrder} (sha256_hex : string -> string) (validate_token : option (string -> option (string * option string))).

(** What of a request the middleware looks at: its method and two headers. *)
Record ApiRequest : Type := mk_api_request { aq_method : string; aq_authorization : option string; aq_organization : option string }.

(** The subject and the organization of the claims; OIDC users are administrators. *)
Definition authenticate_oidc_jwt (validate : string -> option (string * option string)) (token : string) (org_id_header : option string)
  : option AuthenticatedKey :=
  '(sub, org_id) ← validate token;
  organization_id ← match org_id_header with Some h => if bool_decide (h = ""%string) then org_id else Some h | None => org_id end;
  Some (mk_authenticated ("oidc:" +:+ sub) organization_id ["admin"%string] []).

Definition bearer_token (q : ApiRequest) : option string := header ← aq_authorization q; strip_prefix "Bearer " header.

(** The common body of both layers: the key that is stored with the request.  ([touch_api_key] follows as a task of its own,
    whose error is only logged.) *)
Definition authenticate (required : RequiredPermission) (q : ApiRequest) (fail : bool) (now : Z) (t : accounts) : outcome AuthError AuthenticatedKey :=
  match bearer_token q with
  | None => Err AMissingApiKey
  | Some token =>
      if bool_decide (token = ""%string) then Err AMissingApiKey
      else
        match (if looks_like_jwt token then validate_token else None) with
        | Some validate =>
            match authenticate_oidc_jwt validate token (aq_organization q) with
            | Some key => if is_satisfied_by (ak_permissions key) required then Ok key else Err AInsufficientPermissions
            | None => Err AInvalidApiKey
            end
        | None =>
            if fail then Err AInternalError
            else
              match validate_api_key (sha256_hex token) now t with
              | None => Err AInvalidApiKey
              | Some key =>
                  if is_satisfied_by (k_permissions key) required
                  then Ok (mk_authenticated (k_id key) (k_organization_id key) (k_permissions key) (k_scopes key))
                  else Err AInsufficientPermissions
              end
        end
  end.

(** [SmartAuthMiddleware]: the permission goes by the method. *)
Definition smart_required (method : string) : RequiredPermission :=
  if bool_decide (method = "GET"%string) || bool_decide (method = "HEAD"%string) || bool_decide (method = "OPTIONS"%string) then RequiresRead else RequiresWrite.
Definition smart_call (q : ApiRequest) (fail : bool) (now : Z) (t : accounts) : outcome AuthError AuthenticatedKey :=
  authenticate (smart_required (aq_method q)) q fail now t.

(** [AuthMiddleware]: a route that requires nothing gets no key. *)
Definition auth_call (required : RequiredPermission) (q : ApiRequest) (fail : bool) (now : Z) (t : accounts) : outcome AuthError (option AuthenticatedKey) :=
  match required with RequiresNone => Ok None | _ => Some <$> authenticate required q fail now t end.
End middleware.

(** The organization of a request: that of its key, and the header only without one. *)
Definition extract_org_id (q : ApiRequest) (auth_key : option AuthenticatedKey) : outcome Z string :=
  match auth_key with
  | Some key => Ok (ak_organization_id key)
  | None =>
      match aq_organization q with
      | Some h => if bool_decide (h = ""%string) then Err 400 else Ok h
      | None => Err 400
      end
  end.

(** ** The handlers (handlers/api_keys.rs, handlers/organizations.rs)

    A handler gives a status code as its error; the database answers. *)

(** [map_err(|_| StatusCode::INTERNAL_SERVER_ERROR)] and [ok_or(StatusCode::NOT_FOUND)]. *)
Definition or_500 {A} (o : outcome MetadataError A) : outcome Z A := match o with Ok a => Ok a | Err _ => Err 500 | Panic => Panic end.
Definition or_404 {A} (o : option A) : outcome Z A := match o with Some a => Ok a | None => Err 404 end.

Record CreateApiKeyRequest : Type := mk_key_request {
  kr_name : string; kr_permissions : list string; kr_scopes : list string; kr_expires_in_ms : option Z;
  kr_max_requests_per_sec : option Z; kr_max_produce_bytes_per_sec : option Z; kr_max_consume_bytes_per_sec : option Z
}.

Definition handle_list_api_keys (org_id : string) (t : accounts) : outcome Z (list ApiKey) :=
  _ ← or_404 (get_organization org_id t); Ok (list_api_keys org_id t).

Definition handle_get_api_key (id : string) (t : accounts) : outcome Z ApiKey := or_404 (get_api_key id t).

Definition valid_permission (p : string) : bool := bool_decide (p = "read"%string) || bool_decide (p = "write"%string) || bool_decide (p = "admin"%string).

(** The limits of the request have no place in [CreateApiKey]. *)
Definition handle_create_api_key (sha256_hex : string -> string) (org_id : string) (req : CreateApiKeyRequest) (random_bytes : list nat) (id : string) (now : Z)
    (t : accounts) : accounts * outcome Z (ApiKey * string) :=
  match get_organization org_id t with
  | None => (t, Err 404)
  | Some _ =>
      if negb (forallb valid_permission (kr_permissions req)) then (t, Err 400)
      else
        let '(raw_key, key_hash, key_prefix) := generate_api_key sha256_hex "sk_live" random_bytes in
        let config := mk_create_api_key (kr_name req) (kr_permissions req) (kr_scopes req) (kr_expires_in_ms req) in
        let '(t, key) := create_api_key org_id config key_hash key_prefix id now t in
        (t, key ← or_500 key; Ok (key, raw_key))
  end.

Definition handle_revoke_api_key (id : string) (t : accounts) : accounts * outcome Z unit :=
  match get_api_key id t with None => (t, Err 404) | Some _ => (revoke_api_key id t, Ok tt) end.

Definition in_range (lo hi : nat) (a : Ascii.ascii) : bool := let n := Ascii.nat_of_ascii a in ((lo <=? n) && (n <=? hi))%nat.
Definition is_lower (a : Ascii.ascii) : bool := in_range 97 122 a.
Definition is_digit (a : Ascii.ascii) : bool := in_range 48 57 a.
Definition is_upper (a : Ascii.ascii) : bool := in_range 65 90 a.
Definition is_dash (a : Ascii.ascii) : bool := in_range 45 45 a.
Fixpoint str_filter (f : Ascii.ascii -> bool) (s : string) : string :=
  match s with EmptyString => EmptyString | String a s => if f a then String a (str_filter f s) else str_filter f s end.
Fixpoint str_all (f : Ascii.ascii -> bool) (s : string) : bool := match s with EmptyString => true | String a s => f a && str_all f s end.

Definition slug_char (a : Ascii.ascii) : bool := is_lower a || is_digit a || is_dash a.

(** The request's slug without what does not belong there, or else the external id. *)
Definition sanitize_slug (slug external_id : string) : string :=
  let base_slug := str_filter slug_char slug in
  if bool_decide (base_slug = ""%string) then to_lowercase (str_filter (fun a => is_lower a || is_upper a || is_digit a || is_dash a) external_id)
  else base_slug.

(** [loop]: the base, then the base with 1, 2, ... behind it, until a slug is free. *)
Fixpoint free_slug (fuel : nat) (base_slug slug : string) (attempt : Z) (t : accounts) : option string :=
  match fuel with
  | O => None
  | S fuel =>
      match get_organization_by_slug slug t with
      | Some _ => let attempt := wrap 32 (attempt + 1) in free_slug fuel base_slug (base_slug +:+ "-" +:+ pretty attempt) attempt t
      | None => Some slug
      end
  end.

(** As many rounds as there are organizations, and one that finds a slug. *)
Definition resolve_organization (external_id name slug : string) (id : string) (now : Z) (t : accounts) : accounts * outcome Z Organization :=
  match get_organization_by_external_id external_id t with
  | Some org => (t, Ok org)
  | None =>
      let base_slug := sanitize_slug slug external_id in
      match free_slug (S (size (orgs t))) base_slug base_slug 0 t with
      | Some slug =>
          let '(t, org) := create_organization (mk_create_organization name slug Free ∅ (Some external_id) SelfHosted) id now t in (t, or_500 org)
      | None => (t, Panic)
      end
  end.

Definition handle_create_organization (name slug : string) (plan deployment_mode : option string) (id : string) (now : Z) (t : accounts)
  : accounts * outcome Z Organization :=
  if negb (str_all slug_char slug) then (t, Err 400)
  else
    match get_organization_by_slug slug t with
    | Some _ => (t, Err 409)
    | None =>
        let plan := if bool_decide (plan = Some "pro"%string) then Pro else if bool_decide (plan = Some "enterprise"%string) then Enterprise else Free in
        let mode := if bool_decide (deployment_mode = Some "byoc"%string) then Byoc
                    else if bool_decide (deployment_mode = Some "managed"%string) then Managed else SelfHosted in
        let '(t, org) := create_organization (mk_create_organization name slug plan ∅ None mode) id now t in (t, or_500 org)
    end.

(** The texts that the request may have; nothing else is a plan or a status. *)
Definition plan_of_text (s : string) : option OrganizationPlan :=
  if bool_decide (s = "free"%string) then Some Free else if bool_decide (s = "pro"%string) then Some Pro
  else if bool_decide (s = "enterprise"%string) then Some Enterprise else None.
Definition status_of_text (s : string) : option OrganizationStatus :=
  if bool_decide (s = "active"%string) then Some Active else if bool_decide (s = "suspended"%string) then Some Suspended
  else if bool_decide (s = "deleted"%string) then Some Deleted else None.

(** The plan is stored before the status is looked at. *)
Definition handle_update_organization (id : string) (plan status : option string) (t : accounts) : accounts * outcome Z Organization :=
  match get_organization id t with
  | None => (t, Err 404)
  | Some _ =>
      let '(t, r) :=
        match plan with
        | None => (t, Ok tt)
        | Some s => match plan_of_text s with
                    | None => (t, Err 400)
                    | Some p => let '(t, r) := update_organization_plan id p t in (t, or_500 r)
                    end
        end in
      match r with
      | Ok _ =>
          let '(t, r) :=
            match status with
            | None => (t, Ok tt)
            | Some s => match status_of_text s with
                        | None => (t, Err 400)
                        | Some p => let '(t, r) := update_organization_status id p t in (t, or_500 r)
                        end
            end in
          match r with Ok _ => (t, or_404 (get_organization id t)) | Err e => (t, Err e) | Panic => (t, Panic) end
      | Err e => (t, Err e)
      | Panic => (t, Panic)
      end
  end.

Definition handle_delete_organization (id : string) (t : accounts) : accounts * outcome Z unit :=
  match get_organization id t with
  | None => (t, Err 404)
  | Some _ => let '(t, r) := delete_organization id t in (t, or_500 r)
  end.

Definition handle_get_quota (id : string) (t : accounts) : outcome Z OrganizationQuota :=
  _ ← or_404 (get_organization id t); Ok (get_organization_quota id t).
Definition handle_get_usage (id : string) (t : accounts) : outcome Z (list (string * Z)) :=
  _ ← or_404 (get_organization id t); Ok (get_organization_usage id t).

(** ** Facts *)

Lemma plan_roundtrip p : parse_plan (plan_text p) = Some p.
Proof. by destruct p. Qed.
Lemma status_roundtrip s : parse_status (status_text s) = Some s.
Proof. by destruct s. Qed.
Lemma mode_roundtrip m : parse_mode (mode_text m) = Some m.
Proof. by destruct m. Qed.

Lemma find_some_elem {A} (f : A -> bool) l x : List.find f l = Some x -> x ∈ l /\ f x = true.
Proof. intros [Hin Hf]%find_some. split; [by apply list_elem_of_In|done]. Qed.

Lemma find_none_elem {A} (f : A -> bool) l x : List.find f l = None -> x ∈ l -> f x = false.
Proof. intros Hn Hin. eapply find_none; [done|by apply list_elem_of_In]. Qed.

Lemma org_with_none f t id r : org_with f t = None -> orgs t !! id = Some r -> f r = false.
Proof. intros Hn Hr. apply (find_none_elem _ _ (id, r) Hn). by apply elem_of_map_to_list. Qed.

Lemma org_with_some f t id r : org_with f t = Some (id, r) -> orgs t !! id = Some r /\ f r = true.
Proof. intros [Hin Hf]%find_some_elem. split; [by apply elem_of_map_to_list|done]. Qed.

(** The tables keep to their keys: ids, unique columns and references. *)
Record integrity (t : accounts) : Prop := {
  it_key_id : forall id k h, keys t !! id = Some (k, h) -> k_id k = id;
  it_key_org : forall id k h, keys t !! id = Some (k, h) -> is_Some (orgs t !! k_organization_id k);
  it_prefix : forall i j k l g h, keys t !! i = Some (k, g) -> keys t !! j = Some (l, h) -> k_key_prefix k = k_key_prefix l -> i = j;
  it_slug : forall i j r s, orgs t !! i = Some r -> orgs t !! j = Some s -> r_slug r = r_slug s -> i = j;
  it_external : forall i j r s, orgs t !! i = Some r -> orgs t !! j = Some s -> r_external_id r = r_external_id s -> is_Some (r_external_id r) -> i = j;
  it_quota : forall id q, quotas t !! id = Some q -> q_organization_id q = id /\ is_Some (orgs t !! id);
  it_usage : forall id m v, usage t !! (id, m) = Some v -> is_Some (orgs t !! id)
}.

(** The calls that change the tables. *)
Inductive call : Type :=
| CreateOrg (config : CreateOrganization) (id : string)
| EnsureOrg (id name : string)
| SetStatus (id : string) (status : OrganizationStatus)
| SetPlan (id : string) (plan : OrganizationPlan)
| CreateKey (organization_id : string) (config : CreateApiKey) (key_hash key_prefix id : string)
| TouchKey (id : string)
| RevokeKey (id : string)
| SetQuota (quota : OrganizationQuota)
| SetUsage (organization_id metric : string) (value : Z).

Definition apply (c : call) (now : Z) (t : accounts) : accounts :=
  match c with
  | CreateOrg config id => fst (create_organization config id now t)
  | EnsureOrg id name => ensure_organization id name now t
  | SetStatus id status => fst (update_organization_status id status t)
  | SetPlan id plan => fst (update_organization_plan id plan t)
  | CreateKey organization_id config key_hash key_prefix id => fst (create_api_key organization_id config key_hash key_prefix id now t)
  | TouchKey id => touch_api_key id now t
  | RevokeKey id => revoke_api_key id t
  | SetQuota quota => fst (set_organization_quota quota t)
  | SetUsage organization_id metric value => fst (set_usage organization_id metric value t)
  end.

Definition run (cs : list (call * Z)) (t : accounts) : accounts := foldl (fun t c => apply c.1 c.2 t) t cs.

Lemma integrity_empty : integrity empty_accounts.
Proof. split; intros; cbn in *; by simplify_map_eq. Qed.

(** Organizations are never deleted: a change of them keeps what refers to them. *)
Lemma integrity_set_orgs t id row :
  integrity t ->
  (forall j r, orgs t !! j = Some r -> j <> id -> r_slug r <> r_slug row) ->
  (forall j r, orgs t !! j = Some r -> j <> id -> is_Some (r_external_id row) -> r_external_id r <> r_external_id row) ->
  integrity (set_orgs (<[id := row]> (orgs t)) t).
Proof.
  intros [Hk Ho Hp Hs He Hq Hu] Hslug Hext.
  assert (Hgrow : forall j, is_Some (orgs t !! j) -> is_Some (<[id := row]> (orgs t) !! j)).
  { intros j Hj. destruct (decide (id = j)) as [-> |Hne]; [rewrite lookup_insert_eq; eauto|by rewrite lookup_insert_ne]. }
  split; cbn [keys orgs quotas usage set_orgs]; eauto.
  - intros i j r s [[<- <-]|[Hi Hr]]%lookup_insert_Some [[<- <-]|[Hj Hr']]%lookup_insert_Some Heq; try done.
    + by destruct (Hslug _ _ Hr' (not_eq_sym Hj)).
    + by destruct (Hslug _ _ Hr (not_eq_sym Hi)).
    + by eapply Hs.
  - intros i j r s [[<- <-]|[Hi Hr]]%lookup_insert_Some [[<- <-]|[Hj Hr']]%lookup_insert_Some Heq Hx; try done.
    + by destruct (Hext _ _ Hr' (not_eq_sym Hj) Hx).
    + rewrite Heq in Hx. by destruct (Hext _ _ Hr (not_eq_sym Hi) Hx).
    + by eapply He.
  - intros i q Hi. destruct (Hq _ _ Hi). split; [done|by apply Hgrow].
Qed.

Lemma org_not_taken id row t :
  org_taken id row t = false ->
  orgs t !! id = None /\ (forall j r, orgs t !! j = Some r -> r_slug r <> r_slug row)
  /\ (forall j r, orgs t !! j = Some r -> is_Some (r_external_id row) -> r_external_id r <> r_external_id row).
Proof.
  unfold org_taken. intros [[Hid Hs]%orb_false_elim He]%orb_false_elim.
  apply bool_decide_eq_false_1, eq_None_not_Some in Hid. apply bool_decide_eq_false_1, eq_None_not_Some in Hs. split; [done|]. split.
  - intros j r Hr Heq. pose proof (org_with_none _ _ _ _ Hs Hr) as Hf. by apply bool_decide_eq_false_1 in Hf.
  - intros j r Hr [x Hx] Heq. rewrite Hx in He. apply bool_decide_eq_false_1, eq_None_not_Some in He.
    pose proof (org_with_none _ _ _ _ He Hr) as Hf. apply bool_decide_eq_false_1 in Hf. apply Hf. by rewrite Heq.
Qed.

Lemma integrity_update t id f :
  integrity t -> (forall r, r_slug (f r) = r_slug r /\ r_external_id (f r) = r_external_id r) -> integrity (fst (update_org id f t)).
Proof.
  intros Ht Hf. unfold update_org. destruct (orgs t !! id) as [r|] eqn:Hr; [|done]. cbn [fst]. destruct (Hf r) as [Hs He].
  apply integrity_set_orgs; [done| |].
  - intros j s Hj Hne Heq. rewrite Hs in Heq. by apply Hne, (it_slug t Ht j id s r).
  - intros j s Hj Hne Hx Heq. rewrite He in Heq, Hx. apply Hne, (it_external t Ht j id s r); [done|done|done|by rewrite Heq].
Qed.

Lemma integrity_set_keys t ks :
  integrity t ->
  (forall id k h, ks !! id = Some (k, h) -> k_id k = id) ->
  (forall id k h, ks !! id = Some (k, h) -> is_Some (orgs t !! k_organization_id k)) ->
  (forall i j k l g h, ks !! i = Some (k, g) -> ks !! j = Some (l, h) -> k_key_prefix k = k_key_prefix l -> i = j) ->
  integrity (set_keys ks t).
Proof. intros [Hk Ho Hp Hs He Hq Hu] ???. by split. Qed.

Lemma prefix_fresh t p i k h : existsb (fun e => bool_decide (k_key_prefix e.2.1 = p)) (map_to_list (keys t)) = false -> keys t !! i = Some (k, h) -> k_key_prefix k <> p.
Proof.
  intros He Hi Hp. assert (Ht : existsb (fun e => bool_decide (k_key_prefix e.2.1 = p)) (map_to_list (keys t)) = true); [|congruence].
  apply existsb_exists. exists (i, (k, h)). split; [by apply list_elem_of_In, elem_of_map_to_list|by apply bool_decide_eq_true_2].
Qed.

Lemma integrity_apply c now t : integrity t -> integrity (apply c now t).
Proof.
  intros Ht. destruct c as [config id|id name|id status|id plan|org config h p id|id|id|q|org m v]; cbn [apply].
  - unfold create_organization. destruct (org_taken _ _ _) eqn:Hn; [done|]. apply org_not_taken in Hn as (_ & Hs & He).
    apply integrity_set_orgs; eauto.
  - unfold ensure_organization. destruct (org_taken _ _ _) eqn:Hn; [done|]. apply org_not_taken in Hn as (_ & Hs & He).
    apply integrity_set_orgs; eauto.
  - by apply integrity_update.
  - by apply integrity_update.
  - unfold create_api_key. destruct (_ || _) eqn:Hn; [done|]. apply orb_false_elim in Hn as [_ Hn].
    destruct (bool_decide (is_Some (orgs t !! org))) eqn:Ho; [|done]. cbn [negb fst]. apply bool_decide_eq_true_1 in Ho.
    apply integrity_set_keys; [done| | |].
    + intros i k g [[<- [= <- _]]|[_ Hi]]%lookup_insert_Some; [done|by eapply it_key_id].
    + intros i k g [[<- [= <- _]]|[_ Hi]]%lookup_insert_Some; [done|by eapply it_key_org].
    + intros i j k l g g' [[<- [= <- _]]|[Hne Hi]]%lookup_insert_Some [[<- [= <- _]]|[Hne' Hj]]%lookup_insert_Some Heq; [done| | |by eapply it_prefix].
      * by destruct (prefix_fresh _ _ _ _ _ Hn Hj).
      * by destruct (prefix_fresh _ _ _ _ _ Hn Hi).
  - assert (Hlook : forall i k h, alter (fun e : ApiKey * string => (set_last_used now e.1, e.2)) id (keys t) !! i = Some (k, h) ->
              exists k0, keys t !! i = Some (k0, h) /\ k_id k = k_id k0 /\ k_organization_id k = k_organization_id k0 /\ k_key_prefix k = k_key_prefix k0).
    { intros i k h. destruct (decide (id = i)) as [-> |Hne]; [|rewrite lookup_alter_ne by done; eauto 10].
      rewrite lookup_alter_eq. intros ([k0 h0] & Hi & [= -> ->])%fmap_Some. eauto 10. }
    apply integrity_set_keys; [done| | |].
    + intros i k h (k0 & Hi & -> & _)%Hlook. by eapply it_key_id.
    + intros i k h (k0 & Hi & _ & -> & _)%Hlook. by eapply it_key_org.
    + intros i j k l g h (k0 & Hi & _ & _ & ->)%Hlook (l0 & Hj & _ & _ & ->)%Hlook. by eapply it_prefix.
  - apply integrity_set_keys; [done| | |]; intros *; rewrite ?lookup_delete_Some.
    + intros [_ Hi]. by eapply it_key_id.
    + intros [_ Hi]. by eapply it_key_org.
    + intros [_ Hi] [_ Hj]. by eapply it_prefix.
  - unfold set_organization_quota. destruct (bool_decide (is_Some _)) eqn:Ho; [|done]. apply bool_decide_eq_true_1 in Ho.
    destruct Ht as [Hk Hko Hp Hs He Hq Hu]. split; cbn [fst keys orgs quotas usage]; eauto.
    intros id q' [[<- <-]|[_ Hi]]%lookup_insert_Some; [done|by apply Hq].
  - unfold set_usage. destruct (bool_decide (is_Some _)) eqn:Ho; [|done]. apply bool_decide_eq_true_1 in Ho.
    destruct Ht as [Hk Hko Hp Hs He Hq Hu]. split; cbn [fst keys orgs quotas usage]; eauto.
    intros id m' v' [[[= <- <-] _]|[_ Hi]]%lookup_insert_Some; [done|by eapply Hu].
Qed.

Lemma calls_snoc cs c now t : run (cs ++ [(c, now)]) t = apply c now (run cs t).
Proof. unfold run. by rewrite foldl_app. Qed.

Lemma run_integrity cs t : integrity t -> integrity (run cs t).
Proof.
  intros Ht. induction cs as [|[c now] cs IH] using rev_ind; [done|]. rewrite calls_snoc. by apply integrity_apply.
Qed.

(** The tables keep their shape.  Whatever calls are made, in any order, keys have distinct prefixes, organizations distinct slugs
    and external ids, and keys, quotas and usage belong to organizations that exist: no call deletes an organization. *)
Theorem accounts_integrity cs : integrity (run cs empty_accounts).
Proof. apply run_integrity, integrity_empty. Qed.

(** ** The life of a key *)

Definition expiry (config : CreateApiKey) (created : Z) : option Z := (fun ms => swrap 64 (created + ms)) <$> ck_expires_in_ms config.

(** A row of [keys] goes back to the call that made it, after which the key was not revoked. *)
Definition made_by (cs : list (call * Z)) (id : string) (k : ApiKey) (h : string) : Prop :=
  exists before config p created after,
    cs = before ++ (CreateKey (k_organization_id k) config h p id, created) :: after
    /\ (forall now, (RevokeKey id, now) ∉ after)
    /\ k_id k = id /\ k_key_prefix k = p /\ k_permissions k = ck_permissions config /\ k_scopes k = ck_scopes config /\ k_expires_at k = expiry config created.

Lemma made_by_snoc cs c now id k h : made_by cs id k h -> c <> RevokeKey id -> made_by (cs ++ [(c, now)]) id k h.
Proof.
  intros (before & config & p & created & after & -> & Hr & Hk) Hc. exists before, config, p, created, (after ++ [(c, now)]).
  split; [by rewrite <- (assoc_L _)|]. split; [|done]. intros n [Hin|Hin%list_elem_of_singleton]%elem_of_app; [by apply (Hr n)|congruence].
Qed.

Lemma key_origin cs id k h : keys (run cs empty_accounts) !! id = Some (k, h) -> made_by cs id k h.
Proof.
  revert k. induction cs as [|[c now] cs IH] using rev_ind; intros k; [cbn; by rewrite lookup_empty|].
  rewrite calls_snoc. set (t := run cs empty_accounts) in *.
  assert (Hsame : keys (apply c now t) !! id = keys t !! id -> c <> RevokeKey id -> keys (apply c now t) !! id = Some (k, h) -> made_by (cs ++ [(c, now)]) id k h).
  { intros -> Hc Hk. apply made_by_snoc; [by apply IH|done]. }
  destruct c as [config o|o name|o status|o plan|org config g p i|i|i|q|org m v]; cbn [apply] in *.
  - apply Hsame; [|done]. unfold create_organization. by destruct (org_taken _ _ _).
  - apply Hsame; [|done]. unfold ensure_organization. by destruct (org_taken _ _ _).
  - apply Hsame; [|done]. unfold update_organization_status, update_org. by destruct (orgs t !! o).
  - apply Hsame; [|done]. unfold update_organization_plan, update_org. by destruct (orgs t !! o).
  - unfold create_api_key in *. destruct (_ || _); [by apply Hsame|]. destruct (negb _); [by apply Hsame|]. cbn [fst set_keys keys] in *.
    intros [[<- [= <- <-]]|[Hne Hk]]%lookup_insert_Some; [|by apply made_by_snoc; [apply IH|]].
    exists cs, config, p, now, []. split; [done|]. split; [intros n; apply not_elem_of_nil|done].
  - unfold touch_api_key. cbn [set_keys keys]. destruct (decide (i = id)) as [-> |Hne].
    + rewrite lookup_alter_eq. intros ([k0 h0] & Hi & [= -> ->])%fmap_Some. specialize (IH k0 Hi).
      apply (made_by_snoc _ (TouchKey id) now) in IH; [|done]. exact IH.
    + rewrite lookup_alter_ne by done. intros Hk. apply made_by_snoc; [by apply IH|done].
  - unfold revoke_api_key. cbn [set_keys keys]. rewrite lookup_delete_Some. intros [Hne Hk]. apply made_by_snoc; [by apply IH|congruence].
  - apply Hsame; [|done]. unfold set_organization_quota. by destruct (bool_decide _).
  - apply Hsame; [|done]. unfold set_usage. by destruct (bool_decide _).
Qed.

Lemma validate_sound `{HashOrder} h now t k :
  validate_api_key h now t = Some k -> exists id, keys t !! id = Some (k, h) /\ unexpired now k = true.
Proof.
  unfold validate_api_key. intros ([id [k' h']] & Hf & ->)%fmap_Some. apply find_some_elem in Hf as [Hin [Hh%bool_decide_eq_true_1 Hx]%andb_prop].
  cbn in *. subst h'. exists id. split; [by apply elem_of_iter|done].
Qed.

Lemma strip_prefix_inv p s u : strip_prefix p s = Some u -> s = p +:+ u.
Proof.
  revert s. induction p as [|a p IH]; intros s; [by intros [= ->]|]. destruct s as [|b s]; [done|]. cbn [strip_prefix].
  destruct (decide (a = b)) as [<- |]; [|done]. intros Hs%IH. by rewrite str_app_cons, Hs.
Qed.

Lemma authenticate_sound `{HashOrder} sha required q fail now t key :
  authenticate sha None required q fail now t = Ok key ->
  exists token k, aq_authorization q = Some ("Bearer " +:+ token) /\ token <> ""%string
    /\ validate_api_key (sha token) now t = Some k /\ is_satisfied_by (k_permissions k) required = true
    /\ key = mk_authenticated (k_id k) (k_organization_id k) (k_permissions k) (k_scopes k).
Proof.
  unfold authenticate, bearer_token. destruct (aq_authorization q) as [header|]; [|done]. cbn [mbind option_bind].
  destruct (strip_prefix _ header) as [token|] eqn:Hp; [|done]. apply strip_prefix_inv in Hp as ->.
  destruct (bool_decide (token = ""%string)) eqn:Ht; [done|]. apply bool_decide_eq_false_1 in Ht.
  destruct (looks_like_jwt token); (destruct fail; [done|]; destruct (validate_api_key _ _ _) as [k|] eqn:Hv; [|done];
    destruct (is_satisfied_by _ _) eqn:Hs; [|done]; intros [= <-]; by exists token, k).
Qed.

(** C36: what a key is good for.  A request with a key passes only when the token it carries is the one for which a key was created, by a call
    that gave the key its organization and its permissions, and since that call the key was neither revoked nor expired;
    what the request says of its organization has no influence. *)
Theorem key_life `{HashOrder} sha required q fail cs now key :
  authenticate sha None required q fail now (run cs empty_accounts) = Ok key ->
  exists token before config p created after,
    aq_authorization q = Some ("Bearer " +:+ token)
    /\ cs = before ++ (CreateKey (ak_organization_id key) config (sha token) p (ak_key_id key), created) :: after
    /\ (forall n, (RevokeKey (ak_key_id key), n) ∉ after)
    /\ match expiry config created with Some e => now < e | None => True end
    /\ ak_permissions key = ck_permissions config /\ is_satisfied_by (ck_permissions config) required = true
    /\ extract_org_id q (Some key) = Ok (ak_organization_id key).
Proof.
  intros (token & k & Hq & Hne & Hv & Hs & ->)%authenticate_sound. apply validate_sound in Hv as (id & Hk & Hx).
  apply key_origin in Hk as (before & config & p & created & after & -> & Hr & Hid & Hpre & Hperm & Hsc & He). cbn [ak_key_id ak_organization_id ak_permissions].
  rewrite Hid. exists token, before, config, p, created, after. repeat split; try done; [|congruence].
  unfold unexpired in Hx. rewrite He in Hx. destruct (expiry config created); [lia|done].
Qed.

(** ** How many keys there can be *)

(** Twelve characters of a key: eight of them are always the same. *)
Definition prefix_of (b : nat * nat) : string := "sk_live_" +:+ hex_byte b.1 (hex_byte b.2 "").
Definition all_prefixes : list string := map prefix_of (list_prod (seq 0 256) (seq 0 256)).

Lemma generated_prefix sha random_bytes :
  length random_bytes = 32%nat -> Forall (fun b => b < 256)%nat random_bytes -> (generate_api_key sha "sk_live" random_bytes).2 ∈ all_prefixes.
Proof.
  destruct random_bytes as [|b0 [|b1 bytes]]; [done|done|]. intros _ Hb. apply Forall_cons in Hb as [H0 Hb]. apply Forall_cons in Hb as [H1 _].
  change (prefix_of (b0, b1) ∈ all_prefixes). apply elem_of_map. apply list_elem_of_In, in_prod; apply in_seq; lia.
Qed.

(** At most 65536 keys can exist at a time in a whole installation, whoever they belong to: the prefix of a key, which must be unique,
    has only sixteen random bits. *)
Theorem key_space sha cs :
  Forall (fun c => match c.1 with
                   | CreateKey _ _ _ p _ => exists random_bytes, length random_bytes = 32%nat /\ Forall (fun b => b < 256)%nat random_bytes
                                                          /\ p = (generate_api_key sha "sk_live" random_bytes).2
                   | _ => True
                   end) cs ->
  (size (keys (run cs empty_accounts)) <= 256 * 256)%nat.
Proof.
  intros Hcs. set (t := run cs empty_accounts).
  assert (Ht : integrity t) by apply run_integrity, integrity_empty.
  rewrite <- length_map_to_list, <- (length_map (fun e : string * (ApiKey * string) => k_key_prefix e.2.1)).
  transitivity (length all_prefixes); [|unfold all_prefixes; by rewrite length_map, length_prod, !length_seq].
  apply submseteq_length, NoDup_submseteq.
  - apply NoDup_fmap_2_strong; [|apply NoDup_map_to_list]. intros [i [k g]] [j [l h]] Hi%elem_of_map_to_list Hj%elem_of_map_to_list Heq. cbn in Heq.
    pose proof (it_prefix t Ht i j k l g h Hi Hj Heq) as <-. congruence.
  - intros p ([i [k h]] & -> & Hi%elem_of_map_to_list)%list_elem_of_fmap. cbn [fst snd].
    apply key_origin in Hi as (before & config & p & created & after & -> & _ & _ & Hp & _).
    apply Forall_app in Hcs as [_ Hcs]. apply Forall_cons in Hcs as [(bytes & Hlen & Hb & Hc) _]. rewrite Hp, Hc. by apply generated_prefix.
Qed.

(** ** A free slug is found *)

Lemma by_slug_some slug t : is_Some (get_organization_by_slug slug t) -> exists id r, orgs t !! id = Some r /\ r_slug r = slug.
Proof.
  unfold get_organization_by_slug. rewrite fmap_is_Some. intros [[id r] Hf]. apply org_with_some in Hf as [Hr Hs].
  exists id, r. split; [done|]. by apply bool_decide_eq_true_1 in Hs.
Qed.

Definition numbered (base_slug : string) (i : Z) : string := base_slug +:+ "-" +:+ pretty i.

Lemma str_app_inj_l (s a b : string) : s +:+ a = s +:+ b -> a = b.
Proof. induction s as [|x s IH]; [done|]. rewrite !str_app_cons. intros [= Heq]. by apply IH. Qed.

Lemma numbered_inj base_slug i j : numbered base_slug i = numbered base_slug j -> i = j.
Proof. unfold numbered. intros Heq%str_app_inj_l%str_app_inj_l. by apply (inj pretty) in Heq. Qed.

Lemma numbered_base base_slug i : numbered base_slug i <> base_slug.
Proof.
  unfold numbered. intros Heq%(f_equal String.length). rewrite str_length_app, str_length_app in Heq. cbn in Heq. lia.
Qed.

Lemma free_slug_none fuel base_slug slug attempt t :
  0 <= attempt -> attempt + Z.of_nat fuel < 2 ^ 32 -> free_slug fuel base_slug slug attempt t = None ->
  ((0 < fuel)%nat -> is_Some (get_organization_by_slug slug t))
  /\ forall i, attempt < i < attempt + Z.of_nat fuel -> is_Some (get_organization_by_slug (numbered base_slug i) t).
Proof.
  revert slug attempt. induction fuel as [|fuel IH]; intros slug attempt Ha Hf; cbn [free_slug]; [intros _; split; [|intros i]; lia|].
  destruct (get_organization_by_slug slug t) as [o|] eqn:Ho; [|done]. cbv zeta. rewrite (wrap_small 32 (attempt + 1)) by (unfold in_u; lia).
  intros [H1 H2]%IH; [|lia|lia]. split; [eauto|]. intros i Hi. destruct (decide (i = attempt + 1)) as [-> |Hne]; [apply H1; lia|apply H2; lia].
Qed.

Lemma free_slug_free fuel base_slug slug attempt t s : free_slug fuel base_slug slug attempt t = Some s -> get_organization_by_slug s t = None.
Proof.
  revert slug attempt. induction fuel as [|fuel IH]; intros slug attempt; cbn [free_slug]; [done|].
  destruct (get_organization_by_slug slug t) as [o|] eqn:Ho; [apply IH|]. by intros [= <-].
Qed.

Lemma free_slug_found base_slug t : Z.of_nat (size (orgs t)) < 2 ^ 32 - 1 -> is_Some (free_slug (S (size (orgs t))) base_slug base_slug 0 t).
Proof.
  intros Hsize. destruct (free_slug _ _ _ _ _) as [s|] eqn:Hn; [eauto|]. exfalso.
  apply free_slug_none in Hn as [Hbase Hnum]; [|lia|lia].
  set (n := size (orgs t)) in *. set (tried := base_slug :: map (fun i => numbered base_slug (Z.of_nat i)) (seq 1 n)).
  assert (Hnd : NoDup tried).
  { constructor.
    - intros (i & Heq & _)%list_elem_of_fmap. by apply (numbered_base base_slug (Z.of_nat i)).
    - apply NoDup_fmap_2_strong; [|apply NoDup_seq]. intros i j _ _ Heq%numbered_inj. lia. }
  assert (Hin : forall s, s ∈ tried -> s ∈ map (fun e : string * org_row => r_slug e.2) (map_to_list (orgs t))).
  { intros s Hs. assert (Ht : is_Some (get_organization_by_slug s t)).
    { apply elem_of_cons in Hs as [-> |Hs]; [by apply Hbase; lia|]. apply list_elem_of_fmap in Hs as (i & -> & Hi%elem_of_seq). apply Hnum. lia. }
    apply by_slug_some in Ht as (id & r & Hr & <-). apply (elem_of_map (fun e : string * org_row => r_slug e.2) _ (id, r)).
    by apply elem_of_map_to_list. }
  pose proof (submseteq_length _ _ (NoDup_submseteq _ _ Hnd Hin)) as Hlen. unfold tried in Hlen. cbn [length] in Hlen.
  rewrite !length_map, length_seq, length_map_to_list in Hlen. fold n in Hlen. lia.
Qed.

Lemma by_external_spec t id r external_id :
  integrity t -> orgs t !! id = Some r -> r_external_id r = Some external_id ->
  get_organization_by_external_id external_id t = Some (organization_of_row id r).
Proof.
  intros Ht Hr He. unfold get_organization_by_external_id. destruct (org_with _ t) as [[j s]|] eqn:Hf.
  - apply org_with_some in Hf as [Hs Hx]. apply bool_decide_eq_true_1 in Hx. cbn [fmap option_fmap option_map fst snd].
    pose proof (it_external t Ht id j r s Hr Hs ltac:(congruence) ltac:(by rewrite He)) as <-. by rewrite Hr in Hs; injection Hs as <-.
  - exfalso. apply (org_with_none _ _ _ _ Hf) in Hr. by apply bool_decide_eq_false_1 in Hr.
Qed.

(** An external organization is resolved.  The search for a slug ends, however many organizations there are, and the
    answer is the organization of that external id, which was there or is there from now on: asking again gives it again. *)
Theorem resolve_organization_spec external_id name slug id now t :
  integrity t -> orgs t !! id = None -> Z.of_nat (size (orgs t)) < 2 ^ 32 - 1 ->
  let '(t', r) := resolve_organization external_id name slug id now t in
  exists org, r = Ok org /\ o_external_id org = Some external_id /\ get_organization_by_external_id external_id t' = Some org
    /\ get_organization (o_id org) t' = Some org.
Proof.
  intros Ht Hid Hsize. unfold resolve_organization. destruct (get_organization_by_external_id external_id t) as [org|] eqn:Hx.
  - exists org. split; [done|]. rewrite Hx. unfold get_organization_by_external_id in Hx.
    destruct (org_with _ t) as [[j r]|] eqn:Hf; [|done]. injection Hx as <-. apply org_with_some in Hf as [Hr He].
    apply bool_decide_eq_true_1 in He. split; [done|]. split; [done|]. cbn [o_id organization_of_row]. unfold get_organization. by rewrite Hr.
  - destruct (free_slug_found (sanitize_slug slug external_id) t Hsize) as [s Hs]. rewrite Hs. apply free_slug_free in Hs.
    set (config := mk_create_organization name s Free ∅ (Some external_id) SelfHosted).
    pose proof (integrity_apply (CreateOrg config id) now t Ht) as Ht'. cbn [apply] in Ht'. unfold create_organization in *.
    destruct (org_taken _ _ _) eqn:Htaken.
    { exfalso. unfold org_taken in Htaken. cbn [c_slug c_external_id config r_slug r_external_id] in Htaken.
      unfold get_organization_by_slug in Hs. unfold get_organization_by_external_id in Hx. apply fmap_None in Hs, Hx. rewrite Hid, Hs, Hx in Htaken. discriminate. }
    cbn [fst] in Ht'. cbn [or_500 config c_name c_slug c_plan c_settings c_external_id c_deployment_mode] in *.
    eexists. split; [reflexivity|]. split; [done|].
    split; [eapply (by_external_spec _ id) in Ht'; [|cbn [set_orgs orgs]; apply lookup_insert_eq|reflexivity]; exact Ht'|].
    unfold get_organization. cbn [set_orgs orgs o_id]. by rewrite lookup_insert_eq.
Qed.

(** ** Runs *)

Definition bytes_of (a b : nat) : list nat := a :: b :: repeat 7%nat 30.
Definition toy_sha (s : string) : string := "#" +:+ s.
Definition raw_key (a b : nat) : string := (generate_api_key toy_sha "sk_live" (bytes_of a b)).1.1.
Definition new_key (org id : string) (a b : nat) (permissions : list string) : call :=
  CreateKey org (mk_create_api_key "key" permissions [] (Some 1000)) (toy_sha (raw_key a b)) (generate_api_key toy_sha "sk_live" (bytes_of a b)).2 id.
Definition new_org (id slug : string) : call := CreateOrg (mk_create_organization slug slug Free ∅ None SelfHosted) id.
Definition two_orgs : list (call * Z) := [(new_org "a" "alpha", 1); (new_org "b" "beta", 2); (new_key "a" "k1" 1 2 ["read"]%string, 3)].
Definition with_key (method : string) (a b : nat) (organization : option string) : ApiRequest := mk_api_request method (Some ("Bearer " +:+ raw_key a b)) organization.

(** A request with the key of one organization that names another. *)
Lemma key_life_witness :
  exists key, authenticate toy_sha None RequiresRead (with_key "GET" 1 2 (Some "b"%string)) false 500 (run two_orgs empty_accounts) = Ok key
    /\ extract_org_id (with_key "GET" 1 2 (Some "b"%string)) (Some key) = Ok "a"%string.
Proof.
  exists (mk_authenticated "k1" "a" ["read"%string] []). assert (Ha : authenticate toy_sha None RequiresRead (with_key "GET" 1 2 (Some "b"%string)) false 500 (run two_orgs empty_accounts)
    = Ok (mk_authenticated "k1" "a" ["read"%string] [])) by (vm_compute; reflexivity).
  split; [exact Ha|]. apply key_life in Ha as (token & before & config & p & created & after & _ & _ & _ & _ & _ & _ & Horg). exact Horg.
Defined.

Lemma key_space_witness : (size (keys (run two_orgs empty_accounts)) <= 256 * 256)%nat.
Proof.
  apply (key_space toy_sha). repeat constructor. cbn [fst new_key]. exists (bytes_of 1 2). split; [reflexivity|]. split; [|reflexivity].
  apply Forall_forall. intros b Hb. unfold bytes_of in Hb. rewrite !elem_of_cons in Hb. destruct Hb as [-> |[-> |Hb]]; [lia|lia|].
  apply list_elem_of_In, repeat_spec in Hb as ->. lia.
Defined.

(** Two organizations have the slug and its first successor. *)
Lemma resolve_organization_spec_witness :
  let t := run [(new_org "a" "acme", 1); (new_org "b" "acme-1", 2)] empty_accounts in
  exists org, snd (resolve_organization "ext" "Acme" "acme!" "c" 3 t) = Ok org /\ o_slug org = "acme-2"%string.
Proof.
  cbv zeta. set (t := run _ _).
  assert (Hs : exists org, snd (resolve_organization "ext" "Acme" "acme!" "c" 3 t) = Ok org) by
    (pose proof (resolve_organization_spec "ext" "Acme" "acme!" "c" 3 t (run_integrity _ _ integrity_empty) eq_refl eq_refl) as Hr;
     destruct (resolve_organization _ _ _ _ _ _) as [t' r]; destruct Hr as (org & Hr & _); by exists org).
  destruct Hs as [org Hs]. exists org. split; [exact Hs|]. vm_compute in Hs. injection Hs as <-. reflexivity.
Defined.

(** Two keys whose first two random bytes are equal: the second is refused with 500. *)
Lemma prefix_collision :
  let t := run two_orgs empty_accounts in
  snd (handle_create_api_key toy_sha "b" (mk_key_request "mine" ["read"]%string [] None None None None) (1 :: 2 :: repeat 9 30)%nat "k2" 4 t) = Err 500.
Proof. vm_compute. reflexivity. Qed.

(** A deleted organization: its keys still pass. *)
Lemma deleted_organization_passes :
  let t := fst (handle_delete_organization "a" (run two_orgs empty_accounts)) in
  (o_status <$> get_organization "a" t) = Some Deleted
  /\ smart_call toy_sha None (with_key "GET" 1 2 None) false 500 t = Ok (mk_authenticated "k1" "a" ["read"%string] []).
Proof. vm_compute. split; reflexivity. Qed.

(** An administrator of one organization makes a key of another, and is then that other. *)
Lemma administrator_crosses :
  let t := run (two_orgs ++ [(new_key "b" "k3" 3 3 ["admin"]%string, 4)]) empty_accounts in
  auth_call toy_sha None RequiresAdmin (with_key "POST" 3 3 None) false 500 t = Ok (Some (mk_authenticated "k3" "b" ["admin"%string] []))
  /\ let t := fst (handle_create_api_key toy_sha "a" (mk_key_request "mine" ["admin"]%string [] None None None None) (bytes_of 5 5) "k5" 500 t) in
     smart_call toy_sha None (with_key "GET" 5 5 None) false 600 t = Ok (mk_authenticated "k5" "a" ["admin"%string] []).
Proof. vm_compute. split; reflexivity. Qed.

(** With OIDC the organization of a request is what its header says, whoever the user is. *)
Lemma oidc_header_chooses :
  let validate (token : string) := if bool_decide (token = "h.p.s"%string) then Some ("user"%string, Some "mine"%string) else None in
  let q := mk_api_request "DELETE" (Some "Bearer h.p.s"%string) (Some "theirs"%string) in
  let key := mk_authenticated "oidc:user" "theirs" ["admin"%string] [] in
  smart_call toy_sha (Some validate) q true 0 empty_accounts = Ok key /\ extract_org_id q (Some key) = Ok "theirs"%string.
Proof. vm_compute. split; reflexivity. Qed.

(** The limits that a request gives for its key are not stored. *)
Lemma key_limits_dropped sha org_id req random_bytes id now t t' key raw :
  handle_create_api_key sha org_id req random_bytes id now t = (t', Ok (key, raw)) ->
  k_max_requests_per_sec key = None /\ k_max_produce_bytes_per_sec key = None /\ k_max_consume_bytes_per_sec key = None.
Proof.
  unfold handle_create_api_key. destruct (get_organization org_id t); [|done]. destruct (negb _); [done|].
  destruct (generate_api_key _ _ _) as [[rk h] p]. unfold create_api_key. destruct (_ || _); [done|]. destruct (negb _); [done|].
  by intros [= <- <- <-].
Qed.

(** A bad status: the request is refused, and the plan is another. *)
Lemma refused_update_changes :
  let '(t, r) := handle_update_organization "a" (Some "enterprise"%string) (Some "gone"%string) (run two_orgs empty_accounts) in
  r = Err 400 /\ (o_plan <$> get_organization "a" t) = Some Enterprise.
Proof. vm_compute. split; reflexivity. Qed.

(** Of two ids that differ in case only, the second never gets its organization. *)
Lemma ensure_ignores :
  get_organization "acme" (run [(EnsureOrg "Acme" "Acme", 1); (EnsureOrg "acme" "acme", 2)] empty_accounts) = None.
Proof. vm_compute. reflexivity. Qed.

(** An id from a header that is not the end of the text. *)
Lemma id_ends_the_text :
  get_organization_sql "x'; DELETE FROM api_keys WHERE '' = '"
  = "SELECT id, name, slug, plan, status, created_at, settings, external_id, deployment_mode FROM organizations WHERE id = 'x'; DELETE FROM api_keys WHERE '' = ''"%string.
Proof. reflexivity. Qed.
