(* ===== verification/Quota.v ===== *)
(** * Quotas (streamhouse-metadata/src/quota.rs)

    Token buckets that many tasks use without a lock, the limits of organizations and keys,
    and the checks.  Times are microseconds of a clock that does not go back; the time of a
    bucket begins when it is made. *)

From stdpp Require Import pretty.
From S2P Require Import Prelude MetadataError HashMap Catalog Float Tenancy.

(** ** Data *)

Inductive QuotaCheck : Type := Allowed | Denied (reason : string) | Warning (reason : string).

Definition is_allowed (c : QuotaCheck) : bool := match c with Denied _ => false | _ => true end.
Definition is_denied (c : QuotaCheck) : bool := match c with Denied _ => true | _ => false end.

Record TenantContext : Type := mk_context { organization : Organization; api_key : option ApiKey; quota : OrganizationQuota; is_default : bool }.

(** ** Token buckets *)

Definition TOKEN_PRECISION : Z := 1000.

Record TokenBucket : Type := mk_bucket { tokens : Z; last_refill_us : Z; rate : Z; burst : Z; epoch : Z }.

(** [(n as u64) * TOKEN_PRECISION]. *)
Definition milli (n : Z) : Z := wrap 64 (wrap 64 n * TOKEN_PRECISION).

Definition new_bucket (rate now : Z) : TokenBucket :=
  let burst := swrap 64 (rate * 2) in mk_bucket (milli burst) 0 rate burst now.

Definition now_us (now : Z) (b : TokenBucket) : Z := wrap 64 (now - epoch b).

Definition set_tokens (n last : Z) (b : TokenBucket) : TokenBucket := mk_bucket n last (rate b) (burst b) (epoch b).

(** [((rate as f64) * (elapsed_us as f64 / 1_000_000.0) * TOKEN_PRECISION as f64) as u64]. *)
Definition credit (rate elapsed_us : Z) : Z :=
  u64_of (f64_mul (f64_mul (f64_of rate) (f64_div (f64_of elapsed_us) (f64_of 1000000))) (f64_of TOKEN_PRECISION)).

(** What a refill of the bucket adds at most, when there is something to add. *)
Definition tokens_to_add (now last rate burst : Z) : option Z :=
  let elapsed_us := Z.max 0 (now - last) in
  if elapsed_us =? 0 then None
  else if (rate <=? 0) || (burst <=? 0) then None
  else let n := credit rate elapsed_us in if n =? 0 then None else Some n.

Definition saturating_add (a b : Z) : Z := Z.min (2 ^ 64 - 1) (a + b).

Definition refill (now : Z) (b : TokenBucket) : TokenBucket :=
  match tokens_to_add (now_us now b) (last_refill_us b) (rate b) (burst b) with
  | None => b
  | Some n => set_tokens (Z.min (saturating_add (tokens b) n) (milli (burst b))) (now_us now b) b
  end.

Definition try_acquire (amount now : Z) (b : TokenBucket) : TokenBucket * bool :=
  if amount <=? 0 then (b, true)
  else
    let b := refill now b in
    let required := milli amount in
    if tokens b <? required then (b, false) else (set_tokens (tokens b - required) (last_refill_us b) b, true).

(** The nearest integer to [x * k], the even one of two; and [Duration::from_secs_f64] in nanoseconds. *)
Definition round_even (a b : Z) : Z :=
  let q := a / b in
  let r := a mod b in
  if 2 * r <? b then q else if b <? 2 * r then q + 1 else if Z.even q then q else q + 1.
Definition f64_scaled (x : f64) (k : Z) : option Z :=
  match x with
  | S754_zero _ => Some 0
  | S754_finite false m e => Some (if 0 <=? e then Z.pos m * 2 ^ e * k else round_even (Z.pos m * k) (2 ^ (- e)))
  | _ => None
  end.
Definition from_secs_f64 (x : f64) : outcome MetadataError Z :=
  match f64_scaled x 1000000000 with Some ns => if ns <? 2 ^ 64 * 1000000000 then Ok ns else Panic | None => Panic end.

(** How long until [amount] tokens are there, in nanoseconds. *)
Definition time_until_available (amount now : Z) (b : TokenBucket) : TokenBucket * outcome MetadataError Z :=
  if amount <=? 0 then (b, Ok 0)
  else
    let b := refill now b in
    let required := milli amount in
    if required <=? tokens b then (b, Ok 0)
    else if rate b <=? 0 then (b, Ok (3600 * 1000000000))
    else (b, from_secs_f64 (f64_div (f64_of (required - tokens b)) (f64_of (wrap 64 (rate b * TOKEN_PRECISION))))).

Definition usage_percent (now : Z) (b : TokenBucket) : TokenBucket * f64 :=
  let b := refill now b in
  if burst b <=? 0 then (b, f64_of 100)
  else
    let max_tokens := milli (burst b) in
    (b, f64_mul (f64_div (f64_of (Z.max 0 (max_tokens - tokens b))) (f64_of max_tokens)) (f64_of 100)).

(** The tokens stay as they are. *)
Definition update_rate (new_rate : Z) (b : TokenBucket) : TokenBucket :=
  mk_bucket (tokens b) (last_refill_us b) new_rate (swrap 64 (new_rate * 2)) (epoch b).

(** ** A bucket that several tasks use: between two atomic accesses of one, the others go on *)

Inductive task : Type :=
| Begin (amount : Z)
| LoadLast (now amount : Z)
| AddTokens (n max now amount : Z) (current : option Z)
| StoreLast (now amount : Z)
| TakeTokens (amount : Z) (current : option Z)
| Finished (granted : bool).

(** What an access did to the tokens. *)
Inductive effect : Type := Credited (n : Z) | Granted (amount : Z) | Nothing.

(** One access at a time of the clock; [spurious] makes a weak exchange fail without reason. *)
Definition task_step (now : Z) (spurious : bool) (t : task) (b : TokenBucket) : task * TokenBucket * effect :=
  match t with
  | Begin amount => (if amount <=? 0 then Finished true else LoadLast (now_us now b) amount, b, Nothing)
  | LoadLast us amount =>
      (match tokens_to_add us (last_refill_us b) (rate b) (burst b) with
       | Some n => AddTokens n (milli (burst b)) us amount None
       | None => TakeTokens amount None
       end, b, Nothing)
  | AddTokens n max us amount None => (AddTokens n max us amount (Some (tokens b)), b, Nothing)
  | AddTokens n max us amount (Some current) =>
      if negb spurious && (tokens b =? current)
      then let sum := Z.min (saturating_add current n) max in (StoreLast us amount, set_tokens sum (last_refill_us b) b, Credited (sum - current))
      else (AddTokens n max us amount None, b, Nothing)
  | StoreLast us amount => (TakeTokens amount None, set_tokens (tokens b) us b, Nothing)
  | TakeTokens amount None => (TakeTokens amount (Some (tokens b)), b, Nothing)
  | TakeTokens amount (Some current) =>
      if current <? milli amount then (Finished false, b, Nothing)
      else if negb spurious && (tokens b =? current)
      then (Finished true, set_tokens (current - milli amount) (last_refill_us b) b, Granted amount)
      else (TakeTokens amount None, b, Nothing)
  | Finished g => (Finished g, b, Nothing)
  end.

(** Whose turn it is, the clock, and whether an exchange fails. *)
Fixpoint run_tasks (schedule : list (nat * Z * bool)) (ts : list task) (b : TokenBucket) : list task * TokenBucket * list effect :=
  match schedule with
  | [] => (ts, b, [])
  | (i, now, spurious) :: schedule =>
      match ts !! i with
      | Some t =>
          let '(t, b, e) := task_step now spurious t b in
          let '(ts, b, es) := run_tasks schedule (<[i := t]> ts) b in (ts, b, e :: es)
      | None => run_tasks schedule ts b
      end
  end.

(** ** Limits of organizations and keys *)

Record Clock : Type := mk_clock { monotonic : Z; unix_secs : Z }.

Record OrgRateLimitState : Type := mk_org_state {
  produce_limiter : TokenBucket; consume_limiter : TokenBucket; request_limiter : TokenBucket; last_activity : Z
}.

Definition new_org_state (q : OrganizationQuota) (c : Clock) : OrgRateLimitState :=
  mk_org_state (new_bucket (max_produce_bytes_per_sec q) (monotonic c)) (new_bucket (max_consume_bytes_per_sec q) (monotonic c))
    (new_bucket (max_requests_per_sec q) (monotonic c)) (unix_secs c).

Definition touch (c : Clock) (s : OrgRateLimitState) : OrgRateLimitState :=
  mk_org_state (produce_limiter s) (consume_limiter s) (request_limiter s) (unix_secs c).
Definition update_rates (q : OrganizationQuota) (s : OrgRateLimitState) : OrgRateLimitState :=
  mk_org_state (update_rate (max_produce_bytes_per_sec q) (produce_limiter s)) (update_rate (max_consume_bytes_per_sec q) (consume_limiter s))
    (update_rate (max_requests_per_sec q) (request_limiter s)) (last_activity s).

Record KeyRateLimitState : Type := mk_key_state {
  key_produce : option TokenBucket; key_consume : option TokenBucket; key_request : option TokenBucket
}.

Definition from_api_key (k : ApiKey) (c : Clock) : option KeyRateLimitState :=
  let bucket := option_map (fun rate => new_bucket rate (monotonic c)) in
  match k_max_requests_per_sec k, k_max_produce_bytes_per_sec k, k_max_consume_bytes_per_sec k with
  | None, None, None => None
  | requests, produce, consume => Some (mk_key_state (bucket produce) (bucket consume) (bucket requests))
  end.

Record QuotaEnforcer : Type := mk_enforcer {
  rate_limiters : gmap string OrgRateLimitState;
  key_limiters : gmap (string * string) KeyRateLimitState
}.

Definition new_enforcer : QuotaEnforcer := mk_enforcer ∅ ∅.

Definition get_or_create_limiter (ctx : TenantContext) (c : Clock) (e : QuotaEnforcer) : QuotaEnforcer :=
  let org_id := o_id (organization ctx) in
  match rate_limiters e !! org_id with
  | Some _ => e
  | None => mk_enforcer (<[org_id := new_org_state (quota ctx) c]> (rate_limiters e)) (key_limiters e)
  end.

Definition ensure_key_limiter (org_id : string) (k : ApiKey) (c : Clock) (e : QuotaEnforcer) : QuotaEnforcer :=
  match key_limiters e !! (org_id, k_id k), from_api_key k c with
  | None, Some s => mk_enforcer (rate_limiters e) (<[(org_id, k_id k) := s]> (key_limiters e))
  | _, _ => e
  end.

Definition is_paying (ctx : TenantContext) : bool := match o_plan (organization ctx) with Free => false | _ => true end.

(** ** Checks

    The clock stands still during a check. *)

Definition inactive (ctx : TenantContext) : option QuotaCheck :=
  if bool_decide (o_status (organization ctx) = Active) then None
  else Some (Denied ("Organization is " +:+ status_text (o_status (organization ctx)))).

(** [format!("{:.0}%")]. *)
Definition percent_text (x : f64) : string := pretty (default 0 (f64_scaled x 1)) +:+ "%".

(** [value as f64 / limit as f64 * 100.0], when it is above 80. *)
Definition near_limit (value limit : Z) : option f64 :=
  let usage_percent := f64_mul (f64_div (f64_of value) (f64_of limit)) (f64_of 100) in
  if f64_lt (f64_of 80) usage_percent then Some usage_percent else None.

Definition check_topic_creation `{JsonMaps} (ctx : TenantContext) (partition_count : Z) (d : db) : QuotaCheck :=
  match inactive ctx with
  | Some denied => denied
  | None =>
      if is_paying ctx then Allowed
      else
        let current_topics := swrap 32 (len (list_topics_for_org (o_id (organization ctx)) d)) in
        let limit := max_topics (quota ctx) in
        if limit <=? current_topics then Denied ("Topic limit reached (" +:+ pretty current_topics +:+ "/" +:+ pretty limit +:+ ")")
        else if max_partitions_per_topic (quota ctx) <? swrap 32 partition_count
        then Denied ("Partition count " +:+ pretty partition_count +:+ " exceeds limit of " +:+ pretty (max_partitions_per_topic (quota ctx)))
        else
          match near_limit current_topics limit with
          | Some p => Warning ("Topic usage at " +:+ percent_text p +:+ " (" +:+ pretty current_topics +:+ "/" +:+ pretty limit +:+ ")")
          | None => Allowed
          end
  end.

Definition check_consumer_group_creation `{JsonMaps} `{HashOrder} (ctx : TenantContext) (d : db) : QuotaCheck :=
  match inactive ctx with
  | Some denied => denied
  | None =>
      if is_paying ctx then Allowed
      else
        let current_groups := swrap 32 (len (list_consumer_groups_for_org (o_id (organization ctx)) d)) in
        let limit := max_consumer_groups (quota ctx) in
        if limit <=? current_groups then Denied ("Consumer group limit reached (" +:+ pretty current_groups +:+ "/" +:+ pretty limit +:+ ")")
        else
          match near_limit current_groups limit with
          | Some p => Warning ("Consumer group usage at " +:+ percent_text p +:+ " (" +:+ pretty current_groups +:+ "/" +:+ pretty limit +:+ ")")
          | None => Allowed
          end
  end.

Definition check_connection (ctx : TenantContext) (current_connections : Z) : QuotaCheck :=
  match inactive ctx with
  | Some denied => denied
  | None =>
      if is_paying ctx then Allowed
      else
        let limit := max_connections (quota ctx) in
        if limit <=? current_connections then Denied ("Connection limit reached (" +:+ pretty current_connections +:+ "/" +:+ pretty limit +:+ ")")
        else
          match near_limit current_connections limit with
          | Some p => Warning ("Connection usage at " +:+ percent_text p +:+ " (" +:+ pretty current_connections +:+ "/" +:+ pretty limit +:+ ")")
          | None => Allowed
          end
  end.

Definition storage_used (org_id : string) (t : accounts) : Z :=
  default 0 (snd <$> List.find (fun u => bool_decide (u.1 = "storage_bytes"%string)) (get_organization_usage org_id t)).

Definition check_storage (ctx : TenantContext) (t : accounts) : QuotaCheck :=
  match inactive ctx with
  | Some denied => denied
  | None =>
      if is_paying ctx then Allowed
      else
        let storage_bytes := storage_used (o_id (organization ctx)) t in
        let limit := max_storage_bytes (quota ctx) in
        if limit <=? storage_bytes then Denied ("Storage limit exceeded (" +:+ pretty storage_bytes +:+ " of " +:+ pretty limit +:+ " bytes)")
        else
          match near_limit storage_bytes limit with
          | Some p => Warning ("Storage usage at " +:+ percent_text p +:+ " (" +:+ pretty storage_bytes +:+ " of " +:+ pretty limit +:+ " bytes)")
          | None => Allowed
          end
  end.

(** The three checks of a rate are the same but for the limiter, the amount, the texts, and that requests give no warning. *)
Inductive limit_kind : Type := Producing | Consuming | Requesting.

Definition org_limiter (l : limit_kind) (s : OrgRateLimitState) : TokenBucket :=
  match l with Producing => produce_limiter s | Consuming => consume_limiter s | Requesting => request_limiter s end.
Definition set_org_limiter (l : limit_kind) (b : TokenBucket) (s : OrgRateLimitState) : OrgRateLimitState :=
  match l with
  | Producing => mk_org_state b (consume_limiter s) (request_limiter s) (last_activity s)
  | Consuming => mk_org_state (produce_limiter s) b (request_limiter s) (last_activity s)
  | Requesting => mk_org_state (produce_limiter s) (consume_limiter s) b (last_activity s)
  end.
Definition key_limiter (l : limit_kind) (s : KeyRateLimitState) : option TokenBucket :=
  match l with Producing => key_produce s | Consuming => key_consume s | Requesting => key_request s end.
Definition set_key_limiter (l : limit_kind) (b : TokenBucket) (s : KeyRateLimitState) : KeyRateLimitState :=
  match l with
  | Producing => mk_key_state (Some b) (key_consume s) (key_request s)
  | Consuming => mk_key_state (key_produce s) (Some b) (key_request s)
  | Requesting => mk_key_state (key_produce s) (key_consume s) (Some b)
  end.
Definition org_max (l : limit_kind) (q : OrganizationQuota) : Z :=
  match l with Producing => max_produce_bytes_per_sec q | Consuming => max_consume_bytes_per_sec q | Requesting => max_requests_per_sec q end.
Definition key_max (l : limit_kind) (k : ApiKey) : option Z :=
  match l with Producing => k_max_produce_bytes_per_sec k | Consuming => k_max_consume_bytes_per_sec k | Requesting => k_max_requests_per_sec k end.
Definition unit_text (l : limit_kind) : string := match l with Requesting => "/s)" | _ => " bytes/s)" end.
Definition org_exceeded (l : limit_kind) (max : Z) : QuotaCheck :=
  Denied (match l with Producing => "Produce" | Consuming => "Consume" | Requesting => "Request" end +:+ " rate limit exceeded (" +:+ pretty max +:+ unit_text l).
Definition key_exceeded (l : limit_kind) (max : Z) : QuotaCheck :=
  Denied ("API key " +:+ match l with Producing => "produce" | Consuming => "consume" | Requesting => "request" end
          +:+ " rate limit exceeded (" +:+ pretty max +:+ unit_text l).

Definition put_org (org_id : string) (s : OrgRateLimitState) (e : QuotaEnforcer) : QuotaEnforcer :=
  mk_enforcer (<[org_id := s]> (rate_limiters e)) (key_limiters e).

(** The part for the key, after that for its organization. *)
Definition check_key (l : limit_kind) (org_id : string) (amount : Z) (api_key : option ApiKey) (c : Clock) (e : QuotaEnforcer)
  : QuotaEnforcer * option QuotaCheck :=
  match api_key with
  | None => (e, None)
  | Some k =>
      match key_max l k with
      | None => (e, None)
      | Some max =>
          let e := ensure_key_limiter org_id k c e in
          match key_limiters e !! (org_id, k_id k) with
          | None => (e, None)
          | Some s =>
              match key_limiter l s with
              | None => (e, None)
              | Some b =>
                  let '(b, ok) := try_acquire amount (monotonic c) b in
                  (mk_enforcer (rate_limiters e) (<[(org_id, k_id k) := set_key_limiter l b s]> (key_limiters e)),
                   if ok then None else Some (key_exceeded l max))
              end
          end
      end
  end.

(** The warning of producing and consuming, as the last step. *)
Definition check_warning (l : limit_kind) (org_id : string) (c : Clock) (e : QuotaEnforcer) : QuotaEnforcer * outcome MetadataError QuotaCheck :=
  match l, rate_limiters e !! org_id with
  | Requesting, _ => (e, Ok Allowed)
  | _, None => (e, Panic)
  | _, Some s =>
      let '(b, p) := usage_percent (monotonic c) (org_limiter l s) in
      (put_org org_id (set_org_limiter l b s) e,
       Ok (if f64_lt (f64_of 80) p
           then Warning (match l with Producing => "Produce" | _ => "Consume" end +:+ " rate at " +:+ percent_text p +:+ " of limit") else Allowed))
  end.

Definition check_rate (l : limit_kind) (ctx : TenantContext) (amount : Z) (api_key : option ApiKey) (c : Clock) (e : QuotaEnforcer)
  : QuotaEnforcer * outcome MetadataError QuotaCheck :=
  match inactive ctx with
  | Some denied => (e, Ok denied)
  | None =>
      if is_paying ctx then (e, Ok Allowed)
      else
        let org_id := o_id (organization ctx) in
        let e := get_or_create_limiter ctx c e in
        match rate_limiters e !! org_id with
        | None => (e, Panic)
        | Some s =>
            let '(b, ok) := try_acquire amount (monotonic c) (org_limiter l s) in
            let e := put_org org_id (set_org_limiter l b (touch c s)) e in
            if ok
            then match check_key l org_id amount api_key c e with
                 | (e, Some denied) => (e, Ok denied)
                 | (e, None) => check_warning l org_id c e
                 end
            else (e, Ok (org_exceeded l (org_max l (quota ctx))))
        end
  end.

Definition check_produce (ctx : TenantContext) (bytes : Z) := check_rate Producing ctx bytes.
Definition check_consume (ctx : TenantContext) (bytes : Z) := check_rate Consuming ctx bytes.
Definition check_request (ctx : TenantContext) := check_rate Requesting ctx 1.

(** ** Waiting *)

Definition longer (a b : outcome MetadataError Z) : outcome MetadataError Z := x ← a; y ← b; Ok (if x <? y then y else x).

(** The wait for an amount, if one is asked for. *)
Definition org_wait (l : limit_kind) (amount : option Z) (c : Clock) (s : OrgRateLimitState) (w : outcome MetadataError Z)
  : OrgRateLimitState * outcome MetadataError Z :=
  match amount with
  | None => (s, w)
  | Some n => let '(b, x) := time_until_available n (monotonic c) (org_limiter l s) in (set_org_limiter l b s, longer w x)
  end.

Definition throttle_time_ms_for (ctx : TenantContext) (api_key : option ApiKey) (produce_bytes consume_bytes : option Z) (c : Clock) (e : QuotaEnforcer)
  : QuotaEnforcer * outcome MetadataError Z :=
  let org_id := o_id (organization ctx) in
  let e := get_or_create_limiter ctx c e in
  let '(e, w) :=
    match rate_limiters e !! org_id with
    | None => (e, Ok 0)
    | Some s =>
        let '(s, w) := org_wait Requesting (Some 1) c s (Ok 0) in
        let '(s, w) := org_wait Producing produce_bytes c s w in
        let '(s, w) := org_wait Consuming consume_bytes c s w in
        (put_org org_id s e, w)
    end in
  let '(e, w) :=
    match api_key with
    | None => (e, w)
    | Some k =>
        match k_max_requests_per_sec k, key_limiters e !! (org_id, k_id k) with
        | Some _, Some s =>
            match key_request s with
            | Some b =>
                let '(b, x) := time_until_available 1 (monotonic c) b in
                (mk_enforcer (rate_limiters e) (<[(org_id, k_id k) := set_key_limiter Requesting b s]> (key_limiters e)), longer w x)
            | None => (e, w)
            end
        | _, _ => (e, w)
        end
    end in
  (e, ns ← w; Ok (swrap 32 (ns / 1000000))).

Definition throttle_time_ms (ctx : TenantContext) (api_key : option ApiKey) (c : Clock) (e : QuotaEnforcer) := throttle_time_ms_for ctx api_key None None c e.

(** ** Whose quota *)

Definition default_quotas_for_plan (plan : OrganizationPlan) (org_id : string) : OrganizationQuota :=
  match plan with
  | Free => mk_quota org_id 10 12 100 10737418240 7 10485760 52428800 1000 50 100 100 100
  | Pro => mk_quota org_id 100 48 2000 1099511627776 90 104857600 524288000 10000 500 1000 500 1000
  | Enterprise => mk_quota org_id 10000 256 100000 (2 ^ 63 - 1) 365 1073741824 5368709120 100000 10000 10000 1000 10000
  end.

Definition TEST_ORG_ID : string := "00000000-0000-0000-0000-000000000001".

(** [org_fails] and [quota_fails]: the database does not answer. *)
Definition resolve_tenant_context (org_id : string) (org_fails quota_fails : bool) (t : accounts) : TenantContext :=
  match (if org_fails then None else get_organization org_id t) with
  | Some org =>
      let quota := if quota_fails then default_quotas_for_plan (o_plan org) org_id else get_organization_quota org_id t in
      mk_context org None quota (bool_decide (org_id = TEST_ORG_ID))
  | None => mk_context (mk_organization org_id "" "" Free Active 0 ∅ None SelfHosted) None (default_quotas_for_plan Free org_id) false
  end.

(** One round of the task in the background; [fails] when the quota of an organization cannot be read. *)
Definition idle (now_secs : Z) (s : OrgRateLimitState) : bool := 300 <? Z.max 0 (now_secs - last_activity s).

Definition quota_refresh (now_secs : Z) (fails : string -> bool) (t : accounts) (e : QuotaEnforcer) : QuotaEnforcer :=
  let refreshed := map_imap (fun org_id s => if idle now_secs s then None
                                             else Some (if fails org_id then s else update_rates (get_organization_quota org_id t) s)) (rate_limiters e) in
  let evicted (org_id : string) := match rate_limiters e !! org_id with Some s => idle now_secs s | None => false end in
  mk_enforcer refreshed (filter (fun k => evicted k.1.1 = false) (key_limiters e)).

(** ** Facts: one bucket *)

(** What a refill adds is the rate times the time, up to a relative error of 2^-50 and the fraction that is cut off. *)
Lemma credit_bounds rate us :
  0 < rate < 2 ^ 53 -> 0 < us < 2 ^ 53 ->
  0 <= credit rate us /\ credit rate us * 1000 * 2 ^ 50 <= rate * us * (2 ^ 50 + 1)
  /\ (rate * us < 2 ^ 70 -> rate * us * (2 ^ 50 - 1) < (credit rate us + 1) * 1000 * 2 ^ 50).
Proof.
  intros Hrate Hus. unfold credit, TOKEN_PRECISION.
  destruct (f64_of_spec us Hus) as [EU TU]. destruct (f64_of_spec rate Hrate) as [ER TR].
  destruct (f64_of_spec 1000000 ltac:(lia)) as [EM TM]. destruct (f64_of_spec 1000 ltac:(lia)) as [EK TK].
  destruct (f64_div_spec 53 53 _ _ TU TM ltac:(lia) ltac:(lia) ltac:(lia)) as (TA & LA & UA). set (A := f64_div _ _) in *.
  destruct (f64_mul_spec 53 _ _ _ TR TA ltac:(lia) ltac:(lia) ltac:(lia)) as (TB & LB & UB). set (B := f64_mul (f64_of rate) A) in *.
  destruct (f64_mul_spec _ 53 _ _ TB TK ltac:(lia) ltac:(lia) ltac:(lia)) as (TC & LC & UC). set (C := f64_mul B _) in *.
  rewrite EU, EM in LA, UA. rewrite ER in LB, UB. rewrite EK in LC, UC.
  rewrite (u64_of_scaled _ _ TC) by lia. clearbody A B C. clear EU ER EM EK TU TR TM TK TA TB TC.
  assert (HS : 0 < 2 ^ 1200) by (apply Z.pow_pos_nonneg; lia). set (S := 2 ^ 1200) in *. clearbody S.
  set (a := scaled A) in *. set (b := scaled B) in *. set (c := scaled C) in *. clearbody a b c.
  assert (UA' : a * 1000000 * 2 ^ 52 <= us * S * (2 ^ 52 + 1)) by (apply (Z.mul_le_mono_pos_r _ _ S HS); lia).
  assert (LA' : us * S * (2 ^ 51 - 1) <= a * 1000000 * 2 ^ 51) by (apply (Z.mul_le_mono_pos_r _ _ S HS); lia).
  assert (UB' : b * 2 ^ 52 <= rate * a * (2 ^ 52 + 1)) by (apply (Z.mul_le_mono_pos_r _ _ S HS); lia).
  assert (LB' : rate * a * (2 ^ 52 - 1) <= b * 2 ^ 52) by (apply (Z.mul_le_mono_pos_r _ _ S HS); lia).
  assert (UC' : c * 2 ^ 52 <= b * 1000 * (2 ^ 52 + 1)) by (apply (Z.mul_le_mono_pos_r _ _ S HS); lia).
  assert (LC' : b * 1000 * (2 ^ 52 - 1) <= c * 2 ^ 52) by (apply (Z.mul_le_mono_pos_r _ _ S HS); lia).
  clear UA LA UB LB UC LC.
  apply (Z.mul_le_mono_pos_l _ _ rate) in UA', LA'; [|lia|lia].
  assert (Hup : c * 1000 * 2 ^ 50 <= rate * us * S * (2 ^ 50 + 1)) by lia.
  assert (Hlow : rate * us * S * (2 ^ 50 - 1) <= c * 1000 * 2 ^ 50) by lia.
  assert (Hx : 0 < rate * us) by lia. set (x := rate * us) in *. clearbody x. clear UA' LA' UB' LB' UC' LC'.
  pose proof (Z.div_mod c S ltac:(lia)) as Hc. pose proof (Z.mod_pos_bound c S HS) as Hr. set (q := c / S) in *. set (r := c mod S) in *. clearbody q r.
  assert (H0 : 0 <= c) by nia.
  assert (Hq : 0 <= q) by nia.
  assert (Hqup : q * 1000 * 2 ^ 50 <= x * (2 ^ 50 + 1)) by (apply (Z.mul_le_mono_pos_r _ _ S HS); lia).
  assert (Hqlow : x * (2 ^ 50 - 1) < (q + 1) * 1000 * 2 ^ 50) by (apply (Z.mul_lt_mono_pos_r S _ _ HS); lia).
  split; [lia|]. split; [lia|]. intros Hsmall. lia.
Qed.

(** A bucket as [new_bucket] makes it for a positive rate, after any use. *)
Definition bucket_ok (b : TokenBucket) : Prop :=
  0 < rate b < 2 ^ 53 /\ burst b = 2 * rate b /\ 0 <= tokens b <= 1000 * burst b /\ 0 <= last_refill_us b.

Lemma milli_small n : 0 <= n <= 2 ^ 54 -> milli n = 1000 * n.
Proof. intros Hn. unfold milli, TOKEN_PRECISION. rewrite (wrap_small 64 n) by (unfold in_u; lia). rewrite wrap_small by (unfold in_u; lia). lia. Qed.

Lemma new_bucket_ok rate now : 0 < rate < 2 ^ 53 -> bucket_ok (new_bucket rate now) /\ tokens (new_bucket rate now) = 1000 * (2 * rate).
Proof.
  intros Hr. unfold new_bucket. rewrite (swrap_small 64 (rate * 2)) by (unfold in_i; lia). cbv zeta. rewrite milli_small by lia.
  unfold bucket_ok. cbn [tokens Quota.rate burst last_refill_us]. lia.
Qed.

Lemma tokens_to_add_spec now last r bu n :
  0 < r < 2 ^ 53 -> bu = 2 * r -> 0 <= last -> 0 <= now < 2 ^ 53 -> tokens_to_add now last r bu = Some n ->
  last < now /\ 0 < n /\ n = credit r (now - last).
Proof.
  intros Hr Hbu Hl Hn. unfold tokens_to_add. destruct (Z.eqb_spec (Z.max 0 (now - last)) 0) as [|He]; [done|].
  destruct ((r <=? 0) || (bu <=? 0)); [done|]. destruct (Z.eqb_spec (credit r (Z.max 0 (now - last))) 0) as [|Hc]; [done|]. intros [= <-].
  assert (Hlt : last < now) by lia. rewrite Z.max_r in * by lia. destruct (credit_bounds r (now - last)) as [H0 _]; lia.
Qed.

Lemma now_us_small now b : 0 <= now - epoch b < 2 ^ 53 -> now_us now b = now - epoch b.
Proof. intros Hn. apply wrap_small. unfold in_u. lia. Qed.

(** A refill: what is added is covered by the time since the last one. *)
Lemma refill_spec now b :
  bucket_ok b -> 0 <= now - epoch b < 2 ^ 53 ->
  let b' := refill now b in
  bucket_ok b' /\ rate b' = rate b /\ epoch b' = epoch b /\ tokens b <= tokens b' /\ last_refill_us b <= last_refill_us b' <= Z.max (last_refill_us b) (now - epoch b)
  /\ (tokens b' - tokens b) * 1000 * 2 ^ 50 <= rate b * (last_refill_us b' - last_refill_us b) * (2 ^ 50 + 1).
Proof.
  intros (Hr & Hb & Ht & Hl) Hn. cbv zeta. unfold refill. rewrite now_us_small by done.
  destruct (tokens_to_add _ _ _ _) as [n|] eqn:Hadd; [|unfold bucket_ok; lia].
  apply tokens_to_add_spec in Hadd as (Hlt & Hpos & Hc); [|done|done|done|done].
  destruct (credit_bounds (rate b) (now - epoch b - last_refill_us b) Hr ltac:(lia)) as (_ & Hup & _). rewrite <- Hc in Hup.
  rewrite milli_small by lia. unfold saturating_add, bucket_ok. cbn [set_tokens tokens rate burst last_refill_us epoch].
  repeat split; try lia.
Qed.

(** Requests one after the other: amounts and times, and which were granted. *)
Fixpoint acquire_all (reqs : list (Z * Z)) (b : TokenBucket) : list (Z * bool) * TokenBucket :=
  match reqs with
  | [] => ([], b)
  | (amount, now) :: reqs =>
      let '(b, ok) := try_acquire amount now b in
      let '(answers, b) := acquire_all reqs b in ((amount, ok) :: answers, b)
  end.

Fixpoint granted (answers : list (Z * bool)) : Z :=
  match answers with [] => 0 | (amount, ok) :: answers => (if ok then amount else 0) + granted answers end.

Lemma try_acquire_spec amount now b :
  bucket_ok b -> 0 <= now - epoch b < 2 ^ 53 -> 0 < amount < 2 ^ 53 ->
  let '(b', ok) := try_acquire amount now b in
  bucket_ok b' /\ rate b' = rate b /\ epoch b' = epoch b /\ last_refill_us b <= last_refill_us b' <= Z.max (last_refill_us b) (now - epoch b)
  /\ (ok = true <-> 1000 * amount <= tokens (refill now b)) /\ tokens b' = tokens (refill now b) - (if ok then 1000 * amount else 0)
  /\ (tokens b' + (if ok then 1000 * amount else 0) - tokens b) * 1000 * 2 ^ 50 <= rate b * (last_refill_us b' - last_refill_us b) * (2 ^ 50 + 1).
Proof.
  intros Hb Hn Ha. unfold try_acquire. rewrite (proj2 (Z.leb_gt amount 0)) by lia. rewrite milli_small by lia.
  destruct (refill_spec now b Hb Hn) as (Hok & Hr & He & Ht & Hl & Hc). set (b1 := refill now b) in *. clearbody b1.
  destruct (Z.ltb_spec (tokens b1) (1000 * amount)) as [Hlt|Hge].
  - repeat split; try lia; apply Hok.
  - destruct Hok as (Ho1 & Ho2 & Ho3 & Ho4). unfold bucket_ok. cbn [set_tokens tokens rate burst last_refill_us epoch].
    repeat split; try lia.
Qed.

(** C37: the rate is a limit.  Whatever requests come, one after the other, what a bucket grants in a time is at most the tokens it had at the start of it, never more than twice the rate,
    and the rate times the time, up to one part in 2^50: the rounding of the floating-point numbers does not add up. *)
Theorem bucket_bound reqs b T :
  bucket_ok b -> last_refill_us b <= T < 2 ^ 53 ->
  Forall (fun r => 0 < r.1 < 2 ^ 53 /\ 0 <= r.2 - epoch b <= T) reqs ->
  let '(answers, b') := acquire_all reqs b in
  bucket_ok b' /\ 1000 * (1000 * granted answers - tokens b) * 2 ^ 50 <= rate b * (T - last_refill_us b) * (2 ^ 50 + 1).
Proof.
  intros Hb HT Hreqs.
  assert (H : let '(answers, b') := acquire_all reqs b in
    bucket_ok b' /\ rate b' = rate b /\ last_refill_us b <= last_refill_us b' <= T
    /\ (tokens b' + 1000 * granted answers - tokens b) * 1000 * 2 ^ 50 <= rate b * (last_refill_us b' - last_refill_us b) * (2 ^ 50 + 1)).
  { revert b Hb HT Hreqs. induction reqs as [|[amount now] reqs IH]; intros b Hb HT Hreqs; cbn [acquire_all granted]; [repeat split; try lia; apply Hb|].
    apply Forall_cons in Hreqs as [[Ha Hn] Hreqs]. cbn [fst snd] in *.
    pose proof (try_acquire_spec amount now b Hb ltac:(lia) Ha) as Hs. destruct (try_acquire amount now b) as [b1 ok].
    destruct Hs as (Hb1 & Hr & He & Hl & _ & _ & Hc).
    specialize (IH b1 Hb1 ltac:(lia)). rewrite He in IH. specialize (IH Hreqs). destruct (acquire_all reqs b1) as [answers b2].
    destruct IH as (Hb2 & Hr2 & Hl2 & Hc2). rewrite Hr in *. cbn [granted]. split; [done|]. split; [done|]. split; [lia|]. destruct ok; lia. }
  destruct (acquire_all reqs b) as [answers b']. destruct H as (Hb' & _ & Hl & Hc). split; [done|].
  destruct Hb as (Hr & _). destruct Hb' as (_ & _ & Ht & _). nia.
Qed.

(** Who waits is served.  A request that is not larger than the capacity of a bucket is granted when since the last refill the rate has
    come up to it; and one that is larger is never granted, however long it waits. *)
Theorem bucket_serves amount now b :
  bucket_ok b -> 0 <= now - epoch b < 2 ^ 53 -> 0 < amount < 2 ^ 53 -> rate b * (now - epoch b - last_refill_us b) < 2 ^ 70 ->
  (amount <= burst b -> amount * 1000000 * 2 ^ 50 <= rate b * (now - epoch b - last_refill_us b) * (2 ^ 50 - 1) -> snd (try_acquire amount now b) = true)
  /\ (burst b < amount -> snd (try_acquire amount now b) = false).
Proof.
  intros Hb Hn Ha Hsmall. pose proof (try_acquire_spec amount now b Hb Hn Ha) as Hs. destruct (refill_spec now b Hb Hn) as (Hok & Hr & _).
  destruct (try_acquire amount now b) as [b' ok]. destruct Hs as (_ & _ & _ & _ & Hiff & _). cbn [snd]. split.
  - intros Hcap Hlong. apply Hiff. destruct Hb as (Hr0 & Hbu & Ht & Hl). unfold refill. rewrite now_us_small by done.
    assert (Hpos : 0 < now - epoch b - last_refill_us b) by nia.
    destruct (credit_bounds (rate b) (now - epoch b - last_refill_us b) Hr0 ltac:(lia)) as (_ & _ & Hlow). specialize (Hlow Hsmall).
    assert (Hc : 1000 * amount <= credit (rate b) (now - epoch b - last_refill_us b)) by lia.
    unfold tokens_to_add. rewrite Z.max_r by lia. rewrite (proj2 (Z.eqb_neq _ 0)) by lia.
    rewrite (proj2 (Z.leb_gt (rate b) 0)), (proj2 (Z.leb_gt (burst b) 0)) by lia. cbn [orb]. rewrite (proj2 (Z.eqb_neq _ 0)) by lia.
    cbn [set_tokens tokens]. rewrite milli_small by lia. unfold saturating_add. lia.
  - intros Hcap. destruct ok; [|done]. destruct Hiff as [Hi _]. specialize (Hi eq_refl). destruct Hb as (_ & Hbu & _).
    destruct Hok as (_ & Hbu' & Ht' & _). rewrite Hr in Hbu'. lia.
Qed.

(** ** Facts: several tasks *)

Definition task_ok (b : TokenBucket) (t : task) : Prop :=
  match t with
  | Begin amount => amount < 2 ^ 53
  | LoadLast us amount | StoreLast us amount => 0 <= us < 2 ^ 53 /\ 0 < amount < 2 ^ 53
  | AddTokens n max us amount _ => 0 < n /\ max = 1000 * burst b /\ 0 <= us < 2 ^ 53 /\ 0 < amount < 2 ^ 53
  | TakeTokens amount _ => 0 < amount < 2 ^ 53
  | Finished _ => True
  end.

Definition effect_sum (e : effect) : Z := match e with Credited n => n | Granted amount => - (1000 * amount) | Nothing => 0 end.
Definition no_loss (e : effect) : Prop := match e with Credited n => 0 <= n | Granted amount => 0 < amount | Nothing => True end.

Lemma task_step_ok now spurious t b :
  bucket_ok b -> task_ok b t -> 0 <= now - epoch b < 2 ^ 53 ->
  let '(t', b', e) := task_step now spurious t b in
  bucket_ok b' /\ rate b' = rate b /\ burst b' = burst b /\ epoch b' = epoch b /\ task_ok b t' /\ no_loss e /\ tokens b' = tokens b + effect_sum e.
Proof.
  intros Hb Ht Hn. pose proof Hb as (Hr & Hbu & Htk & Hl). destruct t as [amount|us amount|n max us amount [current|]|us amount|amount [current|]|g]; cbn [task_step task_ok] in *.
  - rewrite now_us_small by done. destruct (Z.leb_spec amount 0); cbn [task_ok no_loss effect_sum]; repeat split; try done; lia.
  - destruct (tokens_to_add _ _ _ _) as [n|] eqn:Hadd; cbn [task_ok no_loss effect_sum]; [|repeat split; try done; lia].
    apply tokens_to_add_spec in Hadd as (_ & Hpos & _); [|done..|lia]. rewrite milli_small by lia. repeat split; try done; lia.
  - destruct Ht as (Hpos & -> & Hus & Ha). destruct (negb spurious && (tokens b =? current)) eqn:Hx; [|cbn [task_ok no_loss effect_sum]; repeat split; try done; lia].
    apply andb_prop in Hx as [_ Hx%Z.eqb_eq]. subst current. unfold bucket_ok, saturating_add.
    cbn [set_tokens tokens rate burst last_refill_us epoch task_ok no_loss effect_sum]. repeat split; try done; lia.
  - cbn [no_loss effect_sum]. repeat split; try done; lia.
  - unfold bucket_ok. cbn [set_tokens tokens rate burst last_refill_us epoch task_ok no_loss effect_sum]. repeat split; try done; lia.
  - rewrite milli_small by lia. destruct (Z.ltb_spec current (1000 * amount)); [cbn [task_ok no_loss effect_sum]; repeat split; try done; lia|].
    destruct (negb spurious && (tokens b =? current)) eqn:Hx; [|cbn [task_ok no_loss effect_sum]; repeat split; try done; lia].
    apply andb_prop in Hx as [_ Hx%Z.eqb_eq]. subst current. unfold bucket_ok.
    cbn [set_tokens tokens rate burst last_refill_us epoch task_ok no_loss effect_sum]. repeat split; try done; lia.
  - cbn [task_ok no_loss effect_sum]. repeat split; try done; lia.
  - cbn [no_loss effect_sum]. repeat split; try done; lia.
Qed.

Lemma task_ok_same b b' t : burst b' = burst b -> task_ok b t -> task_ok b' t.
Proof. intros Hb. destruct t; cbn [task_ok]; by rewrite ?Hb. Qed.

(** Tasks without a lock lose nothing.  However the accesses of any number of tasks to a bucket interleave, and whichever exchanges fail, its tokens are
    those of the start with every credit added and every grant taken off, never below zero and never above the capacity. *)
Theorem bucket_accounts schedule ts b :
  bucket_ok b -> Forall (task_ok b) ts -> Forall (fun s => 0 <= s.1.2 - epoch b < 2 ^ 53) schedule ->
  let '(ts', b', es) := run_tasks schedule ts b in
  bucket_ok b' /\ Forall no_loss es /\ tokens b' = tokens b + foldr (fun e n => effect_sum e + n) 0 es.
Proof.
  revert ts b. induction schedule as [|[[i now] spurious] schedule IH]; intros ts b Hb Hts Hs; cbn [run_tasks].
  { split; [done|]. split; [constructor|]. cbn. lia. }
  apply Forall_cons in Hs as [Hn Hs]. cbn [fst snd] in Hn. destruct (ts !! i) as [t|] eqn:Hi; [|by apply IH].
  pose proof (task_step_ok now spurious t b Hb (Forall_lookup_1 _ _ _ _ Hts Hi) Hn) as Ht.
  destruct (task_step now spurious t b) as [[t' b1] e]. destruct Ht as (Hb1 & Hr & Hbu & He & Ht' & Hloss & Htok).
  assert (Hts1 : Forall (task_ok b1) (<[i := t']> ts)).
  { apply Forall_insert; [|by apply (task_ok_same b)]. eapply Forall_impl; [exact Hts|]. intros x. by apply task_ok_same. }
  specialize (IH (<[i := t']> ts) b1 Hb1 Hts1). rewrite He in IH. specialize (IH Hs).
  destruct (run_tasks schedule _ b1) as [[ts2 b2] es]. destruct IH as (Hb2 & Hloss2 & Htok2).
  split; [done|]. split; [by constructor|]. cbn [foldr]. lia.
Qed.

(** The time is counted twice: both tasks read the time of the last refill before either stores its own. *)
Lemma refill_counted_twice :
  let b := set_tokens 0 0 (new_bucket 100 0) in
  let schedule := map (fun i => (i, 1000000, false)) [0; 1; 0; 1; 0; 0; 1; 1; 0; 1; 0; 0; 1; 1]%nat in
  (run_tasks schedule [Begin 100; Begin 100] b).1.1 = [Finished true; Finished true]
  /\ (acquire_all [(100, 1000000); (100, 1000000)] b).1 = [(100, true); (100, false)].
Proof. vm_compute. split; reflexivity. Qed.

(** ** Facts: the enforcer *)

(** Two enforcers have the same for an organization. *)
Definition same_view (org_id : string) (e e' : QuotaEnforcer) : Prop :=
  rate_limiters e !! org_id = rate_limiters e' !! org_id /\ forall key_id, key_limiters e !! (org_id, key_id) = key_limiters e' !! (org_id, key_id).

Lemma same_view_refl org_id e : same_view org_id e e.
Proof. done. Qed.
Lemma same_view_trans org_id e1 e2 e3 : same_view org_id e1 e2 -> same_view org_id e2 e3 -> same_view org_id e1 e3.
Proof. intros [H1 H2] [H3 H4]. split; [congruence|]. intros k. by rewrite H2, H4. Qed.

(** A check of another organization does not touch it. *)
Lemma put_org_other org_id o s e : o <> org_id -> same_view org_id (put_org o s e) e.
Proof. intros Hne. split; [by apply lookup_insert_ne|done]. Qed.

Lemma put_key_other org_id o k s e : o <> org_id -> same_view org_id (mk_enforcer (rate_limiters e) (<[(o, k) := s]> (key_limiters e))) e.
Proof. intros Hne. split; [done|]. intros k'. cbn. apply lookup_insert_ne. congruence. Qed.

Lemma get_or_create_other org_id ctx c e : o_id (organization ctx) <> org_id -> same_view org_id (get_or_create_limiter ctx c e) e.
Proof. intros Hne. unfold get_or_create_limiter. destruct (rate_limiters e !! _); [done|]. by apply (put_org_other org_id _ _ e). Qed.

Lemma check_key_other org_id l o amount k c e : o <> org_id -> same_view org_id (fst (check_key l o amount k c e)) e.
Proof.
  intros Hne. unfold check_key. destruct k as [k|]; [|done]. destruct (key_max l k) as [max|]; [|done].
  assert (He : same_view org_id (ensure_key_limiter o k c e) e).
  { unfold ensure_key_limiter. destruct (key_limiters e !! _); [done|]. destruct (from_api_key k c); [|done]. by apply put_key_other. }
  destruct (key_limiters (ensure_key_limiter o k c e) !! _) as [s|]; [|done]. destruct (key_limiter l s) as [b|]; [|done].
  destruct (try_acquire amount (monotonic c) b) as [b' ok]. cbn [fst]. eapply same_view_trans; [by apply put_key_other|done].
Qed.

Lemma check_warning_other org_id l o c e : o <> org_id -> same_view org_id (fst (check_warning l o c e)) e.
Proof.
  intros Hne. unfold check_warning. destruct l, (rate_limiters e !! o) as [s|]; try done;
    destruct (usage_percent _ _) as [b p]; cbn [fst]; by apply put_org_other.
Qed.

Lemma check_rate_other org_id l ctx amount k c e : o_id (organization ctx) <> org_id -> same_view org_id (fst (check_rate l ctx amount k c e)) e.
Proof.
  intros Hne. unfold check_rate. destruct (inactive ctx); [done|]. destruct (is_paying ctx); [done|].
  pose proof (get_or_create_other org_id ctx c e Hne) as Hg. set (e1 := get_or_create_limiter ctx c e) in *.
  destruct (rate_limiters e1 !! _) as [s|]; [|done]. destruct (try_acquire _ _ _) as [b ok].
  set (e2 := put_org _ _ e1). assert (H2 : same_view org_id e2 e) by (eapply same_view_trans; [by apply put_org_other|done]).
  destruct ok; [|done]. pose proof (check_key_other org_id l _ amount k c e2 Hne) as Hk.
  destruct (check_key l _ amount k c e2) as [e3 [denied|]]; cbn [fst] in *; [by eapply same_view_trans|].
  eapply same_view_trans; [by apply check_warning_other|]. by eapply same_view_trans.
Qed.

(** A check only looks at what its organization has. *)
Lemma put_org_same o s e e' : same_view o e e' -> same_view o (put_org o s e) (put_org o s e').
Proof. intros [_ Hk]. split; [cbn; by rewrite !lookup_insert_eq|done]. Qed.

Lemma put_key_same o k s e e' :
  same_view o e e' -> same_view o (mk_enforcer (rate_limiters e) (<[(o, k) := s]> (key_limiters e))) (mk_enforcer (rate_limiters e') (<[(o, k) := s]> (key_limiters e'))).
Proof.
  intros [Hr Hk]. split; [done|]. intros k'. cbn. destruct (decide (k = k')) as [-> |Hne]; [by rewrite !lookup_insert_eq|].
  rewrite !lookup_insert_ne by congruence. apply Hk.
Qed.

Lemma get_or_create_same ctx c e e' :
  same_view (o_id (organization ctx)) e e' -> same_view (o_id (organization ctx)) (get_or_create_limiter ctx c e) (get_or_create_limiter ctx c e').
Proof.
  intros Hv. pose proof Hv as [Hr _]. unfold get_or_create_limiter. rewrite Hr. destruct (rate_limiters e' !! _); [done|]. by apply (put_org_same _ _ e e').
Qed.

Lemma check_key_same l o amount k c e e' :
  same_view o e e' -> snd (check_key l o amount k c e) = snd (check_key l o amount k c e') /\ same_view o (fst (check_key l o amount k c e)) (fst (check_key l o amount k c e')).
Proof.
  intros Hv. unfold check_key. destruct k as [k|]; [|done]. destruct (key_max l k) as [max|]; [|done].
  assert (He : same_view o (ensure_key_limiter o k c e) (ensure_key_limiter o k c e')).
  { unfold ensure_key_limiter. rewrite (proj2 Hv). destruct (key_limiters e' !! _); [done|]. destruct (from_api_key k c); [|done]. by apply put_key_same. }
  set (e1 := ensure_key_limiter o k c e) in *. set (e2 := ensure_key_limiter o k c e') in *. clearbody e1 e2. rewrite (proj2 He).
  destruct (key_limiters e2 !! _) as [s|]; [|done]. destruct (key_limiter l s) as [b|]; [|done].
  destruct (try_acquire amount (monotonic c) b) as [b' ok]. cbn [fst snd]. split; [done|]. by apply put_key_same.
Qed.

Lemma check_warning_same l o c e e' :
  same_view o e e' -> snd (check_warning l o c e) = snd (check_warning l o c e') /\ same_view o (fst (check_warning l o c e)) (fst (check_warning l o c e')).
Proof.
  intros Hv. unfold check_warning. rewrite (proj1 Hv). destruct l, (rate_limiters e' !! o) as [s|]; try done;
    destruct (usage_percent _ _) as [b p]; cbn [fst snd]; (split; [done|by apply put_org_same]).
Qed.

Lemma check_rate_same l ctx amount k c e e' :
  same_view (o_id (organization ctx)) e e' ->
  snd (check_rate l ctx amount k c e) = snd (check_rate l ctx amount k c e')
  /\ same_view (o_id (organization ctx)) (fst (check_rate l ctx amount k c e)) (fst (check_rate l ctx amount k c e')).
Proof.
  intros Hv. unfold check_rate. destruct (inactive ctx); [done|]. destruct (is_paying ctx); [done|].
  pose proof (get_or_create_same ctx c e e' Hv) as Hg. set (e1 := get_or_create_limiter ctx c e) in *. set (e2 := get_or_create_limiter ctx c e') in *.
  clearbody e1 e2. rewrite (proj1 Hg). destruct (rate_limiters e2 !! _) as [s|]; [|done]. destruct (try_acquire _ _ _) as [b ok].
  set (s' := set_org_limiter l b (touch c s)). pose proof (put_org_same _ s' e1 e2 Hg) as Hp. destruct ok; [|done].
  destruct (check_key_same l _ amount k c _ _ Hp) as [Ha Hv2].
  destruct (check_key l _ amount k c (put_org _ s' e1)) as [e3 d3], (check_key l _ amount k c (put_org _ s' e2)) as [e4 d4]. cbn [fst snd] in *. subst d4.
  destruct d3; [done|]. by apply check_warning_same.
Qed.

Lemma refresh_same o now_secs fails t e e' : same_view o e e' -> same_view o (quota_refresh now_secs fails t e) (quota_refresh now_secs fails t e').
Proof.
  intros [Hr Hk]. unfold quota_refresh. split; cbn [rate_limiters key_limiters].
  - by rewrite !map_lookup_imap, Hr.
  - intros k. rewrite !map_lookup_filter, Hk. destruct (key_limiters e' !! (o, k)) as [s|]; [|done]. cbn [fst mbind option_bind]. by rewrite Hr.
Qed.

Inductive quota_op : Type :=
| Check (l : limit_kind) (ctx : TenantContext) (amount : Z) (api_key : option ApiKey) (c : Clock)
| Refresh (now_secs : Z) (fails : string -> bool) (t : accounts).

(** The answers of the checks of an organization. *)
Fixpoint answers_of (org_id : string) (ops : list quota_op) (e : QuotaEnforcer) : list (outcome MetadataError QuotaCheck) :=
  match ops with
  | [] => []
  | Check l ctx amount api_key c :: ops =>
      let '(e, answer) := check_rate l ctx amount api_key c e in
      (if bool_decide (o_id (organization ctx) = org_id) then [answer] else []) ++ answers_of org_id ops e
  | Refresh now_secs fails t :: ops => answers_of org_id ops (quota_refresh now_secs fails t e)
  end.

Definition concerns (org_id : string) (op : quota_op) : bool :=
  match op with Check _ ctx _ _ _ => bool_decide (o_id (organization ctx) = org_id) | Refresh _ _ _ => true end.

(** C38: tenants do not disturb each other.  Whatever the other organizations ask for, and with whatever keys, the checks of an organization are answered
    as if it were alone. *)
Theorem quota_isolated org_id ops e : answers_of org_id ops e = answers_of org_id (List.filter (concerns org_id) ops) e.
Proof.
  assert (H : forall e', same_view org_id e e' -> answers_of org_id ops e = answers_of org_id (List.filter (concerns org_id) ops) e').
  { revert e. induction ops as [|[l ctx amount k c|now_secs fails t] ops IH]; intros e e' Hv; [done| |].
    - cbn [answers_of List.filter concerns]. destruct (decide (o_id (organization ctx) = org_id)) as [Heq|Hne].
      + rewrite (bool_decide_true (o_id (organization ctx) = org_id)) by done. cbn [answers_of]. rewrite (bool_decide_true (o_id (organization ctx) = org_id)) by done.
        rewrite <- Heq in Hv. destruct (check_rate_same l ctx amount k c e e' Hv) as [Ha Hv'].
        destruct (check_rate l ctx amount k c e) as [e1 a1], (check_rate l ctx amount k c e') as [e2 a2]. cbn [fst snd] in *. subst a2.
        f_equal. apply IH. by rewrite <- Heq.
      + rewrite (bool_decide_false (o_id (organization ctx) = org_id)) by done. pose proof (check_rate_other org_id l ctx amount k c e Hne) as Ho.
        destruct (check_rate l ctx amount k c e) as [e1 a1]. cbn [fst app] in *. apply IH. by eapply same_view_trans.
    - cbn [answers_of List.filter concerns]. apply IH. by apply refresh_same. }
  by apply H.
Qed.

(** ** Runs *)

Definition thousand : TokenBucket := new_bucket 1000 0.

Lemma thousand_ok : bucket_ok thousand.
Proof. by apply new_bucket_ok. Qed.

(** Twice the rate at once, then what half a second brings. *)
Lemma bucket_bound_witness :
  let reqs := [(2000, 1); (1, 2); (500, 500002); (1, 500003)] in
  (acquire_all reqs thousand).1 = [(2000, true); (1, false); (500, true); (1, false)] /\ bucket_ok (acquire_all reqs thousand).2.
Proof.
  cbv zeta. assert (Hr : Forall (fun r => 0 < r.1 < 2 ^ 53 /\ 0 <= r.2 - epoch thousand <= 500003) [(2000, 1); (1, 2); (500, 500002); (1, 500003)]).
  { repeat constructor; cbn; lia. }
  pose proof (bucket_bound _ thousand 500003 thousand_ok ltac:(cbn; lia) Hr) as Hb. destruct (acquire_all _ thousand) as [answers b'] eqn:Ha.
  vm_compute in Ha. injection Ha as <- <-. split; [reflexivity|]. exact (proj1 Hb).
Defined.

Lemma bucket_serves_witness :
  let b := set_tokens 0 0 thousand in
  snd (try_acquire 500 500001 b) = true /\ snd (try_acquire 2001 (2 ^ 52) b) = false.
Proof.
  cbv zeta. assert (Hb : bucket_ok (set_tokens 0 0 thousand)) by (unfold bucket_ok; repeat split; by vm_compute). split.
  - apply (bucket_serves 500 500001 (set_tokens 0 0 thousand) Hb); first [split|idtac]; by vm_compute.
  - apply (bucket_serves 2001 (2 ^ 52) (set_tokens 0 0 thousand) Hb); first [split|idtac]; by vm_compute.
Defined.

Lemma bucket_accounts_witness :
  let '(_, b, es) := run_tasks (map (fun i => (i, 5, (i =? 1)%nat)) [0; 1; 1; 0; 1; 0; 0; 1; 1; 1]%nat) [Begin 700; Begin 600] (set_tokens 1000000 4 thousand) in
  tokens b = 1000000 + foldr (fun e n => effect_sum e + n) 0 es.
Proof.
  pose proof (bucket_accounts (map (fun i => (i, 5, (i =? 1)%nat)) [0; 1; 1; 0; 1; 0; 0; 1; 1; 1]%nat) [Begin 700; Begin 600] (set_tokens 1000000 4 thousand)) as Ha.
  destruct (run_tasks _ _ _) as [[ts b] es]. destruct Ha as (_ & _ & Ha).
  - unfold bucket_ok. repeat split; by vm_compute.
  - repeat constructor; by vm_compute.
  - repeat constructor; by vm_compute.
  - exact Ha.
Defined.

Definition free_context (org_id : string) : TenantContext :=
  mk_context (mk_organization org_id "" "" Free Active 0 ∅ None SelfHosted) None (default_quotas_for_plan Free org_id) false.

(** A request above the capacity: told to wait 0.9 seconds, it is denied again. *)
Lemma waits_in_vain :
  let ctx := free_context "a" in
  let at_ us := mk_clock us 0 in
  let '(e, first) := check_produce ctx 30000000 None (at_ 0) new_enforcer in
  let '(e, wait) := throttle_time_ms_for ctx None (Some 30000000) None (at_ 0) e in
  let '(e, again) := check_produce ctx 30000000 None (at_ 10000000) e in
  first = Ok (Denied "Produce rate limit exceeded (10485760 bytes/s)") /\ wait = Ok 861 /\ again = first.
Proof. vm_compute. repeat split. Qed.

(** A negative rate, which nothing refuses, is no limit at all. *)
Lemma negative_rate_unlimited : snd (try_acquire (10 ^ 15) 0 (new_bucket (-1) 0)) = true.
Proof. vm_compute. reflexivity. Qed.

(** The plan of an organization that pays has limits, which are never looked at. *)
Lemma paying_unlimited l ctx amount k c e :
  o_status (organization ctx) = Active -> o_plan (organization ctx) <> Free -> check_rate l ctx amount k c e = (e, Ok Allowed).
Proof.
  intros Hs Hp. unfold check_rate, inactive, is_paying. rewrite bool_decide_true by done. by destruct (o_plan (organization ctx)).
Qed.
